(* ===== verification/_CoqProject ===== *)
-Q . S2P
Prelude.v
JsString.v
Base64.v
Platform.v
IsoDate.v
Hash.v
VerifyChain.v
DecisionClosure.v
Policy.v
Spend.v
Json.v
JsonText.v
Db.v
AuditLog.v
Tables.v
Sessions.v
Frames.v
Paging.v
TaskList.v
Walk.v
Dump.v
EngineWalk.v
OAuth.v
Catalog.v
Grants.v
Status.v
Pipeline.v
Execution.v
Canonical.v
Conversation.v
Adapter.v
SystemPrompt.v
Turns.v
TurnStore.v
Tasks.v
TaskStore.v
TaskRuns.v
Scenarios.v
Learning.v
Refinements.v
RefinementLife.v
RefinementReads.v
RefinementStates.v
RefinementActive.v
RefinementScenarios.v
BoundedCopy.v
CopyExact.v
NativeScope.v
ModelBudget.v
ModelBudgetFacts.v
BudgetHistory.v
BudgetScenarios.v
TextCodec.v
JsonParse.v
Attribution.v
AttributionExact.v
Delivery.v
DeliveryExact.v
Handoff.v
HandoffExact.v
ContextCodec.v
ContextExact.v
Workflow.v
WorkflowFacts.v
HandoffScenarios.v
Recipients.v
RecipientsExact.v
MailTools.v
MailExact.v
MailScenarios.v
DeliveryScenarios.v
ReplInput.v
LineEditor.v
EditorFacts.v
Prompt.v
PromptFacts.v
Repl.v
ReplFacts.v
Reconnect.v
ReconnectFacts.v
