(* ===== verification/Prelude.v ===== *)
(** * Commitment Workbench: verification of the governance core

    The program is a personal agent platform: an engine that lets a language
    model call tools on a user's behalf, under grants the user gives one call or
    one session at a time, with every decision on a hash-chained audit log; and a
    command line that verifies that log without trusting the engine. The engine's
    state is one object per user ([UserAgent], a Durable Object: SQLite tables, an
    in-memory conversation buffer and a turn gate). The model covers that object
    from the row helpers up to its entry points, the audit and governance
    packages it calls, the model loop and provider adapter it talks through, and
    the offline verifier; beside it, the budget that the workflows' model calls go
    through and the run of the commitment workflow; two of the services behind the
    tools, mail and the sandbox merchant; and the terminal front end.

    ** How the parts interact

    A turn enters the object through [chat], [resolveConfirmation],
    [commissionGoal], [provideTaskInput] or [executeToolDirect], each under the
    turn gate. The conversation loop sends the buffer to the provider and hands
    each tool call to [executeTool]: the control-plane boundary, the slot park,
    the connection preconditions and the pipeline, which evaluates the policy over
    the live grants and the spending limits over the ledger, and writes its
    decision to the audit log. An allowed call is dispatched and its outcome
    closed against the decision; a pending one parks a held row that carries the
    whole turn. A resolution grants or refuses, dispatches, and resumes the turn.
    Sessions bound the life of grants and holds: they lapse (the reaper), are
    superseded, ended, or killed, and each way closes what was pending. The
    verifier pages the log over the wire or reads a dump file of it, checks the
    chain and the closures, and maps what it found to an exit code.

    ** The files and what they model

    Foundations:
    - [Prelude]: tactics, hint databases, generic lemmas.
    - [JsString], [Base64], [IsoDate], [Json]: the parts of JavaScript the program
      uses - strings as UTF-16 code units with the two text orders, [btoa] and
      [atob], [Date] and its ISO form, JSON with its serialiser - and the parsers of
      [llm/canonical.ts] and of the spend context.
    - [Platform]: what is taken from outside (SHA-256, case folding, TEXT round
      trip, UUIDs), as the class [Platform] with its laws.
    Packages [audit] and [governance]:
    - [Hash] ([audit/src/hash.ts]), [VerifyChain] ([verify-chain.ts]),
      [DecisionClosure] ([decision-closure.ts]).
    - [Policy] ([governance/src/evaluate-policy.ts]), [Spend]
      ([evaluate-spend.ts]).
    Store of the object ([engine/src/data/]):
    - [Db]: the tables, the world (tables, clock, identifier supply, turn gate) and
      the monad [M], with transactions that roll back on a throw.
    - [AuditLog], [Tables]: one definition per query helper of
      [data/helpers/].
    The object ([engine/src/agent/user-agent.ts]):
    - [Sessions], [Frames]: the single active session, the reaper, the kill
      switch; [Frames] states once what an invariant must survive to be kept by
      all of them.
    - [OAuth]: the pending connect flows. [Catalog]: the tool registry
      ([tools/src/tools/]) and the pure readers of a call. [Grants]: policy
      entries, grants, the deny floor. [Status]: the read models and the spend
      settings.
    - [Pipeline], [Execution]: [executeTool], its dispatch and outcome, and the
      recovery of a dispatch that a crash stranded.
    - [Canonical], [Conversation], [Adapter], [SystemPrompt] ([engine/src/llm/]):
      messages and held turns with their JSON, [runConversationLoop], the
      OpenAI-compatible adapter and provider selection, the prompts.
    - [Turns], [TurnStore]: [chat], [resolveConfirmation] on every branch,
      resumption and repair; what they keep of the store and what they settle.
    - [Tasks], [TaskStore], [TaskRuns]: the commission queue, client input,
      amendment and cancellation; what every operation of the object keeps.
    - [Scenarios]: a concrete object on which the hypotheses are met.
    Governed learning ([contracts/src/refinements.ts], [engine/src/refinements/]):
    - [Learning]: the artifacts, their schemas, canonical JSON and the inspection
      of a validation report. [Refinements]: the store helpers and the manager
      ([RefinementManager]).
    - [RefinementLife], [RefinementReads], [RefinementStates], [RefinementActive]:
      what every operation keeps, what a read establishes, the invariant that ties
      versions to scopes, and the transactions against it.
    - [RefinementScenarios]: a manager on which the hypotheses are met.
    Workflow model calls ([engine/src/workflows/model-budget.ts],
    [engine/src/llm/native-operation-scope.ts]):
    - [BoundedCopy], [CopyExact]: untrusted values in their heap, [boundedCopy]
      and the shape tests; and that the copy and its byte count are exact.
    - [NativeScope]: the register of open transports and pending operations, and
      the view of it each attempt gets.
    - [ModelBudget]: the class [ModelBudget] with its methods in a monad of their
      own, and everything that can happen to it as a step relation.
      [ModelBudgetFacts], [BudgetHistory]: its invariant, and what holds of runs.
      [BudgetScenarios]: a run.
    Commitment workflow ([contracts/src/workflows.ts], [engine/src/workflows/]):
    - [JsonText]: JSON text determines the value it was written from, and is
      well-formed.
    - [Handoff] ([commitment-handoff.ts]), [HandoffExact]: snapshots, ledgers and
      the source index with the conditions of their schemas, their hashes and
      validators; and what acceptance means.
    - [ContextCodec] ([rlm-context-codec.ts]), [ContextExact]: the context rows, and
      that the guest reads the envelope back from them.
    - [Workflow] ([run-workflow.ts]), [WorkflowFacts]: one run, over an interface to
      the budget, the guidance and the runtime; and what it guarantees.
    - [HandoffScenarios]: a snapshot, its context and a run.
    Services ([tools/src/services/]):
    - [TextCodec]: [TextEncoder], the strict [TextDecoder], base64url. [JsonParse]:
      [JSON.parse] on text, numbers rounded to doubles.
    - [Recipients] ([shared/]), [RecipientsExact]: recipients, envelopes and the
      nouns of send, list and search; and what a noun binds.
    - [MailTools] ([mock/mock-email-data.ts], [google/gmail.ts],
      [gmail-client.ts]), [MailExact]: the sandbox mailbox, the label noun and the
      message Gmail is sent; what of a call its noun covers. [MailScenarios].
    - [Delivery] ([mock/mock-delivery-data.ts], [mock-delivery.ts]),
      [DeliveryExact]: signed quotes and orders, as tools of the catalog; a quote
      binds its price. [DeliveryScenarios].
    The views and the command line:
    - [Paging]: keyset pages and cursors. [TaskList] ([cli/src/commands/task.ts]),
      [Walk] ([cli/src/audit/walk.ts], [commands/log.ts]), [Dump]
      ([audit/dump.ts]), and [EngineWalk], which runs the walk against the engine.
    The terminal ([cli/src/]):
    - [Attribution] ([render/attribution.ts], [render/color.ts]),
      [AttributionExact]: what is stripped of a text, display width, wrapping, the
      speaker on every row, the quoting of untrusted values and the layout of a
      field; and what a reader of the rows can rely on.
    - [ReplInput] ([commands/repl-meta.ts], [render/status-line.ts],
      [render/money.ts]): meta-commands, the status line, hints, and the choices of
      a held call with their answers.
    - [LineEditor] ([input/]), [EditorFacts]: completion, the menu and the chooser,
      the reducer of keystrokes and the shell around it.
    - [Prompt] ([render/prompt.ts]), [PromptFacts]: the rows of a held call and the
      dialogue that resolves it.
    - [Repl] ([commands/chat.ts], [poll.ts]), [ReplFacts]: the controller of the
      session, Ctrl-C, the prompt latch and the poll; and the front end at concrete
      inputs.
    - [Reconnect] ([engine-state.ts], [commands/kill.ts], [commands/connect.ts],
      [gate/confirm-presence.ts]), [ReconnectFacts]: the engine tracker, the retry of
      a kill, the wait of a connect, the presence gate and the completion sources.

    ** What the theorems show

    Authorisation. No call is dispatched without an allowing decision over live,
    scoped grants, recorded before it runs ([dispatch_needs_allow],
    [decisions_need_live_grants], [policy_allow_iff]); only an answer to a question
    ever adds a grant ([only_answers_grant]); commissioned and local runs never
    reach the control plane ([control_plane_refused]); the kill switch denies all
    and closes what it stops; the boot proves the deny floor.

    Holds and turns. A resolution settles its hold exactly once and writes the entry
    that closes its pending row, or resumes from the answer on file; a held call runs
    only when marked and never again once marked ([resolution_settles],
    [dispatch_is_marked], [settled_call_not_rerun]); refusals change nothing;
    every request a turn sends, fresh, resumed or repaired, is one a provider
    accepts, within ten requests ([turn_requests_accepted],
    [chat_requests_accepted]), and the adapter's wire carries its content in the
    order a chat API demands ([request_flattens_accepted]); a turn resumed into a
    buffer too long for its held messages is the exception
    ([long_buffer_resume_leaves_hole]); a failed turn leaves the buffer as it was.

    Tasks. The queue never exceeds eight ([queue_bounded]), a commission reports how
    its run ended, or the refusal it met before there was one
    ([commission_reports]), a cancellation closes and removes every hold
    of its run, a settled run never reopens, amendments touch only awaiting runs.

    Learning. No version of a refinement is activated without an approval and a
    passing receipt for the bindings in force ([activation_needs_evidence]); a
    passing report covers its suite ([passing_report_covers_suite]); a scope has
    exactly the active version it points at, and its generation names it
    ([one_active_refinement]); artifacts and ended receipts are never rewritten
    ([refinements_never_rewritten]), so a pin denotes one content
    ([pin_denotes_content]); and the manager reaches nothing else of the object
    ([refinements_stay_local]).

    Model budget. Whatever the order of calls, settlements, cancellations and
    resumptions, the budget keeps within limits no configuration raises above the
    host's ([budget_within_limits]); a response is handed out once, by an open
    budget, fully accounted for ([delivered_response_accounted]); the first failure
    closes it for good and releases every caller ([closing_is_final]). The copy of a
    request or response is exact, cycles refused ([bounded_copy_exact]); native work
    reported settled stays settled ([native_scope_settles]).

    Commitment workflow. A ledger is accepted exactly when it is bound to the
    accepted snapshot and every quote stands at its span ([ledger_accepted_iff]); a
    snapshot hash binds the snapshot, unless the two texts hashed collide
    ([snapshot_hash_binds]), and a draft that is
    accepted stays accepted when it is read back ([created_snapshot_accepted]). The
    line index divides each body exactly ([source_index_exact]). The context is
    read back in full, one row a read ([context_roundtrip],
    [context_reads_bounded]). A run publishes a ledger only when complete, under
    guidance current in the state it ends in and with usage settled there
    ([complete_run_grounded]), asks at most twice, the second time quoting the
    model's reply and the codes it failed on, and offers no tool
    ([run_dialogue_bounded]), and returns whatever is thrown into it but for the
    fields it echoes and misplaced guidance ([run_returns_iff]).

    Money. Direct executions keep the ledger within the limits in force unless a
    limit was lowered below what is spent ([spend_cap_holds],
    [spend_check_exact]).

    Services. The sandbox merchant charges exactly what it quoted, in time, or
    nothing ([quote_binds_price]), and a charge is the amount and the merchant that
    governance read from the call ([order_charges_governed]). A mail noun of
    recipients that parse fixes the mailboxes ([noun_binds_recipients]), and they
    are the ones the message goes to when no recipient is quoted
    ([transmitted_are_governed]); a message reads back as its fields and body, so
    no value opens a field ([message_reads_back]); searches and label changes stay
    in their nouns ([search_within_noun], [label_call_within_noun]).

    The log. Whatever the object runs keeps a log the verifier accepts
    ([engine_log_verifies], [object_keeps_store]); a dispatched tool call is closed,
    and the one dispatch that throws is a control-plane read
    ([every_dispatch_closed]); a digest binds its fields unless the two texts hashed
    collide ([entry_hash_binds_fields]), and the verifier is exact
    ([verify_clean_iff], [closure_check_correct], [walk_verdict],
    [verify_ok_sound]). Run against the engine it covers the log, up to the two
    million rows its page ceiling allows, and finds nothing wrong
    ([engine_walk_complete], [dump_of_engine_verifies]).

    The terminal. No row of a speaker can be read as another's
    ([attributed_rows]), and a quoted value is delimited whatever follows it
    ([untrusted_exact]). The editor keeps its cursor and its menu in range on
    any keys ([reduceKey_keeps_editor]), hands off one line per read ([lines_within_reads])
    and gives a line lifted aside back ([lifted_line_returns]); the chooser answers
    what is highlighted ([chooser_answers]), and an answer sent to the engine is one
    that was shown and chosen ([prompt_sends_confirmed]). The tracker narrates each outage once ([engine_narration]), a kill and a connect end
    and say how ([kill_ends], [connect_wait_settles]), an enabled presence gate opens
    without a confirmation only when it says so ([presence_opens_iff],
    [presence_ungated_noted]), and a late load never displaces a newer one
    ([loads_settle_in_any_order]).

    What the model shows the code does not do is stated as well: a resumption into
    a grown buffer that fails leaves holes ([cold_start_breaks_conversation] in
    [Scenarios]); an input hold can be answered as a confirmation and amended under
    it ([input_hold_answered], [input_hold_swapped]); a tip of a later epoch does
    not bind earlier ones ([older_epochs_replaceable]); guidance given to an arm
    that takes none makes the run throw instead of reporting it blocked
    ([run_returns_iff], [demo_misguided]); a quoted recipient can hide mailboxes
    from the noun ([noun_misses_mailbox]) and two recipient sets can share one
    ([unparsed_nouns_collide]); a quote verifies under more than one identifier
    ([quote_has_two_identifiers]); a dismissed chooser stays in the editor
    ([dismissed_chooser_stays]), a poll can re-arm it under a running turn
    ([poll_rearms_mid_turn]), [write] loses a half-typed line ([write_drops_line]),
    backspace can leave half a character ([backspace_splits_pair]), and a field can
    exceed its width ([wide_value_overflows], [wide_forms_undercounted]).

    ** Conventions, bounds and fuel

    Effects are functions on the world: [M A] returns a value or a throw with the
    world it leaves, [C A] adds the conversation buffer. Every loop of the source
    is structural over the rows or messages it reads, with five exceptions: the
    conversation loop, whose fuel is [MAX_ITERATIONS - i], the count the source
    itself compares; the walk, with fuel one more than [AUDIT_MAX_PAGES]; the
    task list, with [MAX_PAGES]; and the context codec, whose loops have the length
    of the envelope and the number of rows as fuel, each round taking a unit or a
    row at least. The JSON parser has the length of its text as fuel: each value and
    each item takes a character ([read_stringify] asks no more). The two page bounds
    are the source's own guards, so the fuel never ends a run the guard would not. In
    the terminal, the retry of a kill takes thirty-one rounds and the wait of a
    connect one per poll interval of its ceiling, which is shown to be enough; the
    dialogue of a prompt goes on for as long as the user answers, and its theorems
    hold at every fuel. Instants and amounts are
    integers, with double addition written out where the source adds cents past
    the safe range. A JSON column is modelled by what [JSON.parse] makes of it; a
    client's data map is an insertion-ordered list of strings, its keys being
    published slot names.

    Between awaits the object is single-threaded: the tools, the credential layer
    and the provider are functions on the world that may run anything the object
    serves meanwhile. Theorems on one operation ask that they keep the invariant
    in question ([GatedAwaits], [GatedClient]); theorems on all operations ask it
    of every such invariant ([Served]). The model budget is the one component whose
    own calls interleave: there each reaction is a step of its own, in any order. The
    manager's source resolver and runners
    are such functions too ([RefineAwaits]).

    ** Not modelled, and why

    HTTP routing and zod schemas (transport); SQL text and column migrations (the
    constraints the statements enforce are in the row operations); the other
    services behind the tools, [gmail_read], the Anthropic SDK adapter, bounded
    response streams, the OAuth callback and credential cryptography (clients of
    third-party code or streams, taken as parameters); the recursive-model runtime
    above the budget (an interpreter of guest code in a sandbox); the command line's
    argument parsing, process control and plain reader; the frozen evaluations. The
    wire clients, Gmail's among them, assume the server's answers are of the declared
    shape. *)

From stdpp Require Export prelude list strings gmap sorting.
From Stdlib Require Export ZArith Lia.

#[export] Set Default Goal Selector "!".

(** ** Scope, tactics and hint databases *)

Declare Scope wb_scope.
Delimit Scope wb_scope with wb.

Create HintDb wb discriminated.
Create Rewrite HintDb wb_rw.

(** Split the boolean and propositional connectives of the context, then close
    the goal by arithmetic or congruence. *)
Ltac wb_bool :=
  repeat match goal with
  | H : (_ && _)%bool = true |- _ => apply andb_true_iff in H; destruct H
  | H : (_ || _)%bool = false |- _ => apply orb_false_iff in H; destruct H
  | H : (_ || _)%bool = true |- _ => apply orb_true_iff in H
  | H : (_ && _)%bool = false |- _ => apply andb_false_iff in H
  | H : negb _ = true |- _ => apply negb_true_iff in H
  | H : negb _ = false |- _ => apply negb_false_iff in H
  | H : bool_decide _ = true |- _ => apply bool_decide_eq_true_1 in H
  | H : bool_decide _ = false |- _ => apply bool_decide_eq_false_1 in H
  end.

(** Case analysis on every [if]/[match] of the goal, keeping the equations. *)
Ltac wb_cases := repeat (case_match; simplify_eq/=).

(** Decide a ground proposition by evaluation. *)
Ltac by_compute := apply (bool_decide_unpack _); vm_compute; exact I.

(** Resolve the tests on literals of a goal. *)
Ltac lit_decide :=
  repeat first [rewrite decide_True by reflexivity | rewrite decide_False by by_compute]; simpl.

(** ** Comparisons *)

(** Lexicographic order on lists of code units or bytes: what JavaScript's [<]
    does on strings and what SQLite's BINARY collation does on TEXT. *)
Fixpoint lexcmp (a b : list N) : comparison :=
  match a, b with
  | [], [] => Eq
  | [], _ :: _ => Lt
  | _ :: _, [] => Gt
  | x :: a', y :: b' =>
      match (x ?= y)%N with Eq => lexcmp a' b' | c => c end
  end.

Lemma lexcmp_refl a : lexcmp a a = Eq.
Proof. induction a; simpl; [done|]. by rewrite N.compare_refl. Qed.

Lemma lexcmp_eq a b : lexcmp a b = Eq ↔ a = b.
Proof.
  split; [|intros ->; apply lexcmp_refl].
  revert b. induction a as [|x a IH]; intros [|y b]; simpl; try done.
  destruct (N.compare_spec x y); try done. intros ?. f_equal; auto.
Qed.

Lemma lexcmp_antisym a b : lexcmp b a = CompOpp (lexcmp a b).
Proof.
  revert b. induction a as [|x a IH]; intros [|y b]; simpl; try done.
  rewrite (N.compare_antisym x y). destruct (x ?= y)%N; simpl; auto.
Qed.

Lemma lexcmp_trans a b c :
  lexcmp a b = Lt → lexcmp b c = Lt → lexcmp a c = Lt.
Proof.
  revert b c. induction a as [|x a IH]; intros [|y b] [|z c]; simpl; try done.
  destruct (N.compare_spec x y) as [->|Hxy|]; [|intros _|done].
  - destruct (y ?= z)%N; eauto.
  - destruct (N.compare_spec y z) as [->|Hyz|]; [|intros _|done].
    + by rewrite (proj2 (N.compare_lt_iff x z)).
    + rewrite (proj2 (N.compare_lt_iff x z)); [done|lia].
Qed.

Lemma lexcmp_lt_ne a b : lexcmp a b = Lt → a ≠ b.
Proof. intros H ->. by rewrite lexcmp_refl in H. Qed.

(** Pairs, by the first component and then the second. *)
Definition lex2 (a b : list N * list N) : comparison :=
  match lexcmp (fst a) (fst b) with Eq => lexcmp (snd a) (snd b) | c => c end.

Lemma lex2_eq a b : lex2 a b = Eq → a = b.
Proof.
  unfold lex2. destruct (lexcmp (fst a) (fst b)) eqn:E; try done. intros E2.
  apply lexcmp_eq in E, E2. destruct a, b; simpl in *; congruence.
Qed.
Lemma lex2_antisym a b : lex2 b a = CompOpp (lex2 a b).
Proof.
  unfold lex2. rewrite (lexcmp_antisym (fst a)), (lexcmp_antisym (snd a)).
  by destruct (lexcmp (fst a) (fst b)).
Qed.
Lemma lex2_trans a b c : lex2 a b = Lt → lex2 b c = Lt → lex2 a c = Lt.
Proof.
  unfold lex2. destruct (lexcmp (fst a) (fst b)) eqn:E1; try done;
    destruct (lexcmp (fst b) (fst c)) eqn:E2; try done; intros H1 H2.
  - apply lexcmp_eq in E1, E2. rewrite E1, E2, lexcmp_refl. by eapply lexcmp_trans.
  - apply lexcmp_eq in E1. by rewrite E1, E2.
  - apply lexcmp_eq in E2. by rewrite <- E2, E1.
  - by rewrite (lexcmp_trans _ _ _ E1 E2).
Qed.

(** The strict order of a comparison is a strict weak order. *)
Section cmp_lt.
Context {K : Type} (cmp : K → K → comparison).
Definition cmp_lt (a b : K) : bool := match cmp a b with Lt => true | _ => false end.
Hypothesis cmp_eq : ∀ a b, cmp a b = Eq → a = b.
Hypothesis cmp_antisym : ∀ a b, cmp b a = CompOpp (cmp a b).
Hypothesis cmp_trans : ∀ a b c, cmp a b = Lt → cmp b c = Lt → cmp a c = Lt.

Lemma cmp_lt_asym a b : cmp_lt a b = true → cmp_lt b a = false.
Proof. unfold cmp_lt. rewrite (cmp_antisym a b). by destruct (cmp a b). Qed.
Lemma cmp_lt_neg_trans a b c : cmp_lt a b = false → cmp_lt b c = false → cmp_lt a c = false.
Proof.
  unfold cmp_lt. intros H1 H2. destruct (cmp a c) eqn:E; try done. exfalso.
  destruct (cmp a b) eqn:E1; [apply cmp_eq in E1; subst; by rewrite E in H2|done|].
  destruct (cmp b c) eqn:E2; [apply cmp_eq in E2; subst; congruence|done|].
  assert (cmp c b = Lt) as F2 by (rewrite cmp_antisym, E2; done).
  assert (cmp b a = Lt) as F1 by (rewrite cmp_antisym, E1; done).
  pose proof (cmp_trans _ _ _ F2 F1) as F. rewrite cmp_antisym, E in F. done.
Qed.
Lemma cmp_lt_total a b : a ≠ b → cmp_lt a b = false → cmp_lt b a = true.
Proof.
  unfold cmp_lt. rewrite (cmp_antisym a b). intros Hne.
  destruct (cmp a b) eqn:E; simpl; try done. by apply cmp_eq in E.
Qed.
End cmp_lt.

(** ** Stable sorting *)

(** [Array.prototype.sort] and a SQL [ORDER BY] are both modelled by a stable
    insertion sort; [lt x y] says that [x] must come strictly before [y]. *)
Section stable_sort.
Context {A : Type} (lt : A → A → bool).

Fixpoint sort_insert (x : A) (l : list A) : list A :=
  match l with
  | [] => [x]
  | y :: l' => if lt y x then y :: sort_insert x l' else x :: l
  end.

Fixpoint stable_sort (l : list A) : list A :=
  match l with
  | [] => []
  | x :: l' => sort_insert x (stable_sort l')
  end.

Lemma sort_insert_perm x l : sort_insert x l ≡ₚ x :: l.
Proof.
  induction l as [|y l IH]; simpl; [done|].
  case_match; [|done]. rewrite IH. apply Permutation_swap.
Qed.

Lemma stable_sort_perm l : stable_sort l ≡ₚ l.
Proof. induction l; simpl; [done|]. by rewrite sort_insert_perm, IHl. Qed.

Lemma stable_sort_length l : length (stable_sort l) = length l.
Proof. by rewrite stable_sort_perm. Qed.

Lemma elem_of_stable_sort x l : x ∈ stable_sort l ↔ x ∈ l.
Proof. by rewrite stable_sort_perm. Qed.

(** [lt] never inverts a sorted list: no later element goes strictly first. *)
Definition no_inversion : list A → Prop :=
  StronglySorted (λ x y, lt y x = false).

Lemma sort_insert_head x l :
  Forall (λ y, lt y x = false) l → sort_insert x l = x :: l.
Proof. destruct l as [|y l]; simpl; [done|]. inversion_clear 1. by rewrite H0. Qed.

Lemma stable_sort_id l : no_inversion l → stable_sort l = l.
Proof.
  induction 1 as [|x l Hs IH Hx]; simpl; [done|].
  rewrite IH. by apply sort_insert_head.
Qed.

Lemma sort_insert_last x l :
  Forall (λ y, lt y x = true) l → sort_insert x l = l ++ [x].
Proof. induction 1 as [|y l Hy Hl IH]; simpl; [done|]. by rewrite Hy, IH. Qed.

(** A list in the opposite order is reversed. *)
Lemma stable_sort_rev l : StronglySorted (λ x y, lt y x = true) l → stable_sort l = rev l.
Proof.
  induction 1 as [|x l Hs IH Hx]; simpl; [done|]. rewrite IH. apply sort_insert_last.
  apply Forall_rev. done.
Qed.

Hypothesis lt_asym : ∀ x y, lt x y = true → lt y x = false.
Hypothesis lt_neg_trans : ∀ x y z, lt x y = false → lt y z = false → lt x z = false.

Lemma sort_insert_sorted x l : no_inversion l → no_inversion (sort_insert x l).
Proof.
  induction 1 as [|y l Hs IH Hy]; simpl; [repeat constructor|].
  destruct (lt y x) eqn:E.
  - constructor; [done|]. rewrite sort_insert_perm. constructor; eauto.
  - constructor; [by constructor|]. constructor; [done|].
    eapply Forall_impl; [exact Hy|]. simpl. intros z Hz. eauto.
Qed.

Lemma stable_sort_sorted l : no_inversion (stable_sort l).
Proof. induction l; simpl; [constructor|]. by apply sort_insert_sorted. Qed.

(** Filtering commutes with sorting. *)
Lemma filter_sort_insert (p : A → bool) x l :
  no_inversion l →
  List.filter p (sort_insert x l) =
  if p x then sort_insert x (List.filter p l) else List.filter p l.
Proof.
  induction 1 as [|y l Hs IH Hy]; simpl; [by destruct (p x)|].
  destruct (lt y x) eqn:E; simpl.
  - rewrite IH. destruct (p x), (p y); simpl; rewrite ?E; done.
  - destruct (p x); [|done].
    symmetry. apply (sort_insert_head x (List.filter p (y :: l))), Forall_forall.
    intros z [Hz _]%list_elem_of_In%filter_In. apply list_elem_of_In in Hz.
    apply elem_of_cons in Hz as [->|Hz]; [done|]. rewrite Forall_forall in Hy. eauto.
Qed.

Lemma stable_sort_filter (p : A → bool) l :
  stable_sort (List.filter p l) = List.filter p (stable_sort l).
Proof.
  induction l as [|x l IH]; simpl; [done|].
  rewrite filter_sort_insert by apply stable_sort_sorted.
  destruct (p x); simpl; by rewrite IH.
Qed.

(** The head of a sorted list is preceded by nothing. *)
Lemma stable_sort_head_least l x l' :
  stable_sort l = x :: l' → ∀ y, y ∈ l → y = x ∨ lt y x = false.
Proof.
  intros E y Hy. rewrite <- elem_of_stable_sort, E in Hy.
  pose proof (stable_sort_sorted l) as Hs. rewrite E in Hs.
  inversion_clear Hs as [|? ? _ Hx]. rewrite Forall_forall in Hx.
  apply elem_of_cons in Hy as [->|Hy]; auto.
Qed.
End stable_sort.

(** ** Lists and options *)

Lemma last_snoc_Some {A} (l : list A) x y : last (l ++ [x]) = Some y → x = y.
Proof. rewrite last_snoc. congruence. Qed.

Lemma filter_all {A} (P : A → Prop) `{!∀ x, Decision (P x)} (l : list A) :
  Forall P l → filter P l = l.
Proof.
  induction 1; [done|]. rewrite filter_cons_True by done. by f_equal.
Qed.

Lemma filter_none {A} (P : A → Prop) `{!∀ x, Decision (P x)} (l : list A) :
  Forall (λ x, ¬ P x) l → filter P l = [].
Proof. induction 1; [done|]. by rewrite filter_cons_False. Qed.

Lemma list_filter_all {A} (p : A → bool) l : Forall (λ x, p x = true) l → List.filter p l = l.
Proof. induction 1 as [|x l Hx _ IH]; simpl; [done|]. by rewrite Hx, IH. Qed.
Lemma list_filter_twice {A} (p q : A → bool) l :
  List.filter p (List.filter q l) = List.filter (λ x, q x && p x) l.
Proof. induction l as [|x l IH]; simpl; [done|]. destruct (q x), (p x) eqn:E; simpl; by rewrite ?E, IH. Qed.

Lemma list_filter_none {A} (p : A → bool) l : Forall (λ x, p x = false) l → List.filter p l = [].
Proof. induction 1 as [|x l Hx _ IH]; simpl; [done|]. by rewrite Hx. Qed.

Lemma StronglySorted_middle {A} (R : A → A → Prop) (l : list A) x k :
  StronglySorted R (l ++ x :: k) → Forall (λ y, R y x) l ∧ Forall (R x) k.
Proof.
  induction l as [|y l IH]; simpl; inversion_clear 1 as [|?? Hs Hy]; [by split; [constructor|]|].
  destruct (IH Hs). split; [|done]. constructor; [|done].
  rewrite Forall_forall in Hy. apply Hy. set_solver.
Qed.

Lemma StronglySorted_filter {A} (R : A → A → Prop) (P : A → Prop) `{!∀ x, Decision (P x)}
    (l : list A) : StronglySorted R l → StronglySorted R (filter P l).
Proof.
  induction 1 as [|x l Hs IH Hx]; [constructor|]. rewrite filter_cons.
  case_decide; [|done]. constructor; [done|]. rewrite Forall_forall in *.
  intros y [_ Hy]%list_elem_of_filter. auto.
Qed.

Lemma StronglySorted_weaken {A} (R S : A → A → Prop) (l : list A) :
  (∀ x y, R x y → S x y) → StronglySorted R l → StronglySorted S l.
Proof.
  intros HRS. induction 1 as [|x l Hs IH Hx]; constructor; [done|].
  eapply Forall_impl; [exact Hx|]. auto.
Qed.

Lemma StronglySorted_snoc_inv {A} (R : A → A → Prop) (l : list A) x :
  StronglySorted R (l ++ [x]) → StronglySorted R l ∧ Forall (λ y, R y x) l.
Proof.
  induction l as [|y l IH]; simpl; [split; constructor|].
  inversion_clear 1 as [|?? Hs Hy]. apply Forall_app in Hy as [Hy Hx].
  destruct (IH Hs). split; constructor; auto. by inversion_clear Hx.
Qed.

Lemma fmap_rev {A B} (f : A → B) (l : list A) : f <$> rev l = rev (f <$> l).
Proof. induction l as [|x l IH]; simpl; [done|]. by rewrite fmap_app, IH. Qed.

Lemma concat_map_app {A B} (f : A → list B) (l k : list A) :
  mjoin (f <$> (l ++ k)) = mjoin (f <$> l) ++ mjoin (f <$> k).
Proof. by rewrite fmap_app, join_app. Qed.
