(* ===== verification/JsString.v ===== *)
(** * JavaScript strings and numbers

    A JavaScript string is a list of UTF-16 code units. This file models the
    operations of the language the program applies to strings and numbers:
    [toWellFormed], the UTF-8 encoding used by [TextEncoder] and by
    [createHash().update()], [String(Number)], [Number(digits)] and the two
    orders in play (JavaScript's [<] on code units, SQLite's BINARY collation
    on bytes). *)

From S2P Require Export Prelude.

Abbreviation jsstr := (list N).

(** An ASCII literal as a list of code units. *)
Definition js (s : string) : jsstr :=
  Stdlib.Strings.Ascii.N_of_ascii <$> Stdlib.Strings.String.list_ascii_of_string s.
Arguments js s%_stdpp : simpl never.

(** Every code unit is a 16-bit value. *)
Definition units (s : jsstr) : Prop := Forall (λ c, (c < 0x10000)%N) s.
Definition ascii_only (s : jsstr) : Prop := Forall (λ c, (c < 0x80)%N) s.

#[export] Instance units_dec s : Decision (units s).
Proof. unfold units. apply _. Defined.
#[export] Instance ascii_only_dec s : Decision (ascii_only s).
Proof. unfold ascii_only. apply _. Defined.

Definition is_high (c : N) : bool := (0xD800 <=? c)%N && (c <=? 0xDBFF)%N.
Definition is_low (c : N) : bool := (0xDC00 <=? c)%N && (c <=? 0xDFFF)%N.

(** U+FFFD, what an unpaired surrogate is replaced by. *)
Definition replacement : N := 0xFFFD.

(** [String.prototype.toWellFormed]. *)
Fixpoint toWellFormed (s : jsstr) : jsstr :=
  match s with
  | [] => []
  | c :: rest =>
      if is_high c then
        match rest with
        | d :: rest' =>
            if is_low d then c :: d :: toWellFormed rest'
            else replacement :: toWellFormed rest
        | [] => [replacement]
        end
      else if is_low c then replacement :: toWellFormed rest
      else c :: toWellFormed rest
  end.

(** The code points of a string; an unpaired surrogate reads as U+FFFD, which
    is what every conversion to UTF-8 does. *)
Definition astral (c d : N) : N :=
  (0x10000 + (c - 0xD800) * 0x400 + (d - 0xDC00))%N.

Fixpoint scalars (s : jsstr) : list N :=
  match s with
  | [] => []
  | c :: rest =>
      if is_high c then
        match rest with
        | d :: rest' =>
            if is_low d then astral c d :: scalars rest'
            else replacement :: scalars rest
        | [] => [replacement]
        end
      else if is_low c then replacement :: scalars rest
      else c :: scalars rest
  end.

(** UTF-8 of one code point. *)
Definition utf8_scalar (c : N) : list N :=
  if (c <? 0x80)%N then [c]
  else if (c <? 0x800)%N then [0xC0 + c / 64; 0x80 + c mod 64]%N
  else if (c <? 0x10000)%N then
    [0xE0 + c / 4096; 0x80 + (c / 64) mod 64; 0x80 + c mod 64]%N
  else
    [0xF0 + c / 262144; 0x80 + (c / 4096) mod 64; 0x80 + (c / 64) mod 64;
     0x80 + c mod 64]%N.

Definition utf8 (s : jsstr) : list N := mjoin (utf8_scalar <$> scalars s).

(** ** Orders *)

(** JavaScript's [a < b] on strings. *)
Definition js_lt (a b : jsstr) : bool :=
  match lexcmp a b with Lt => true | _ => false end.
Definition js_le (a b : jsstr) : bool := negb (js_lt b a).

(** SQLite's [a < b] on TEXT: bytewise on the UTF-8 encoding. *)
Definition sql_lt (a b : jsstr) : bool :=
  match lexcmp (utf8 a) (utf8 b) with Lt => true | _ => false end.

(** ** Numbers *)

(** Decimal digits of a natural number, most significant first. The fuel
    [S (log2 n)] covers every digit: see [dec_undec]. *)
Fixpoint dec_digits (fuel : nat) (n : N) : jsstr :=
  match fuel with
  | O => []
  | S f => (if (n <? 10)%N then [] else dec_digits f (n / 10)) ++ [(48 + n mod 10)%N]
  end.
Definition dec (n : N) : jsstr := dec_digits (S (N.to_nat (N.log2 n))) n.

Definition is_digit (c : N) : bool := (48 <=? c)%N && (c <=? 57)%N.

(** [Number(s)] on a string of decimal digits, as an exact integer. *)
Definition undec (s : jsstr) : N := foldl (λ acc d, acc * 10 + (d - 48))%N 0%N s.

(** [String(z)] of an integer below 1e21 in magnitude. *)
Definition int_to_string (z : Z) : jsstr :=
  if (z <? 0)%Z then js "-" ++ dec (Z.to_N (- z)) else dec (Z.to_N z).

(** A finite JavaScript number, represented by the shortest decimal that reads
    back as it: [sig * 10^exp], where [sig] carries no trailing zero. *)
Record jsnum := JsNum { num_sig : Z; num_exp : Z }.

#[export] Instance jsnum_eq_dec : EqDecision jsnum.
Proof. solve_decision. Defined.

(** [Number::toString] of ECMA-262, from the shortest decimal. *)
Definition num_to_string (x : jsnum) : jsstr :=
  let digits := dec (Z.to_N (Z.abs (num_sig x))) in
  let k := Z.of_nat (length digits) in
  let n := (k + num_exp x)%Z in
  let body :=
    if (num_sig x =? 0)%Z then js "0"
    else if (k <=? n)%Z && (n <=? 21)%Z then
      digits ++ replicate (Z.to_nat (n - k)) 48%N
    else if (0 <? n)%Z && (n <=? 21)%Z then
      take (Z.to_nat n) digits ++ js "." ++ drop (Z.to_nat n) digits
    else if (-6 <? n)%Z && (n <=? 0)%Z then
      js "0." ++ replicate (Z.to_nat (- n)) 48%N ++ digits
    else
      let e := (n - 1)%Z in
      let es := (if (e <? 0)%Z then js "-" else js "+") ++ dec (Z.to_N (Z.abs e)) in
      match digits with
      | [d] => [d] ++ js "e" ++ es
      | d :: ds => [d] ++ js "." ++ ds ++ js "e" ++ es
      | [] => []
      end in
  if (num_sig x <? 0)%Z then js "-" ++ body else body.

(** Drop the trailing zeros of a decimal. *)
Fixpoint num_norm (fuel : nat) (sig exp : Z) : jsnum :=
  match fuel with
  | O => JsNum sig exp
  | S f =>
      if (sig =? 0)%Z then JsNum 0 0
      else if (sig mod 10 =? 0)%Z then num_norm f (sig / 10) (exp + 1)
      else JsNum sig exp
  end.

Definition num_of_Z (z : Z) : jsnum := num_norm (S (Z.to_nat (Z.log2 (Z.abs z)))) z 0.

(** [Number.isSafeInteger] on an integer. *)
Definition max_safe : Z := 9007199254740991.
Definition safe_int (z : Z) : bool := (- max_safe <=? z)%Z && (z <=? max_safe)%Z.

Example num_half_micro : num_to_string (JsNum 5 (-7)) = js "5e-7".
Proof. reflexivity. Qed.
Example num_price : num_to_string (JsNum 1234 (-2)) = js "12.34".
Proof. reflexivity. Qed.
Example num_cents : num_to_string (JsNum 5 (-2)) = js "0.05".
Proof. reflexivity. Qed.
Example num_fifty : num_to_string (num_of_Z 50) = js "50".
Proof. reflexivity. Qed.

(** ** Facts: well-formedness *)

Lemma is_high_spec c : is_high c = true ↔ (0xD800 <= c <= 0xDBFF)%N.
Proof. unfold is_high. rewrite andb_true_iff, !N.leb_le. done. Qed.
Lemma is_low_spec c : is_low c = true ↔ (0xDC00 <= c <= 0xDFFF)%N.
Proof. unfold is_low. rewrite andb_true_iff, !N.leb_le. done. Qed.
Lemma is_high_false c : is_high c = false ↔ ¬ (0xD800 <= c <= 0xDBFF)%N.
Proof. by rewrite <- is_high_spec, not_true_iff_false. Qed.
Lemma is_low_false c : is_low c = false ↔ ¬ (0xDC00 <= c <= 0xDFFF)%N.
Proof. by rewrite <- is_low_spec, not_true_iff_false. Qed.

(** Recursion in steps of one or two code units. *)
Lemma jsstr_ind2 (P : jsstr → Prop) :
  P [] → (∀ c, P [c]) → (∀ c d s, P s → P (d :: s) → P (c :: d :: s)) → ∀ s, P s.
Proof.
  intros H0 H1 H2.
  assert (∀ s, P s ∧ ∀ c, P (c :: s)) as H; [|intros s; apply H].
  induction s as [|d s [IH1 IH2]]; split; auto.
Qed.

Ltac surrogates :=
  repeat match goal with
  | H : is_high _ = true |- _ => apply is_high_spec in H
  | H : is_low _ = true |- _ => apply is_low_spec in H
  | H : is_high _ = false |- _ => apply is_high_false in H
  | H : is_low _ = false |- _ => apply is_low_false in H
  end.

(** Walk a string definition by the surrogate tests it makes. *)
Ltac by_surrogates s :=
  induction s as [|c|c d s IH IHd] using jsstr_ind2; simpl in *;
  [|destruct (is_high c) eqn:?; [|destruct (is_low c) eqn:?]
   |destruct (is_high c) eqn:?; [destruct (is_low d) eqn:?|destruct (is_low c) eqn:?]].

Lemma toWellFormed_idemp s : toWellFormed (toWellFormed s) = toWellFormed s.
Proof.
  by_surrogates s; simpl; rewrite ?Heqb, ?Heqb0; simpl; try done; try congruence.
Qed.

Lemma scalars_toWellFormed s : scalars (toWellFormed s) = scalars s.
Proof.
  by_surrogates s; simpl; rewrite ?Heqb, ?Heqb0; simpl; try done; try congruence.
Qed.

(** Conditioning a string changes none of the bytes it encodes to. *)
Lemma utf8_toWellFormed s : utf8 (toWellFormed s) = utf8 s.
Proof. unfold utf8. by rewrite scalars_toWellFormed. Qed.

Lemma toWellFormed_units s : units s → units (toWellFormed s).
Proof.
  unfold units. by_surrogates s; intros H; decompose_Forall_hyps;
    repeat constructor; auto; try lia; unfold replacement; lia.
Qed.

(** ** Facts: UTF-8 is uniquely decodable *)

(** The base-64 digits the encoding cuts a code point into. *)
Lemma base64_digits c :
  ∃ q1 q2 q3 r0 r1 r2,
    (c / 64 = q1 ∧ c / 4096 = q2 ∧ c / 262144 = q3 ∧
     c mod 64 = r0 ∧ (c / 64) mod 64 = r1 ∧ (c / 4096) mod 64 = r2 ∧
     c = 64 * q1 + r0 ∧ q1 = 64 * q2 + r1 ∧ q2 = 64 * q3 + r2 ∧
     r0 < 64 ∧ r1 < 64 ∧ r2 < 64)%N.
Proof.
  do 6 eexists. do 6 (split; [reflexivity|]).
  change 4096%N with (64 * 64)%N. change 262144%N with (64 * 64 * 64)%N.
  rewrite <- !N.Div0.div_div.
  split_and!; try apply N.Div0.div_mod; apply N.mod_upper_bound; done.
Qed.

Lemma utf8_scalar_app_inj c d r1 r2 :
  (c < 0x110000)%N → (d < 0x110000)%N →
  utf8_scalar c ++ r1 = utf8_scalar d ++ r2 → c = d ∧ r1 = r2.
Proof.
  unfold utf8_scalar. intros Hc Hd.
  destruct (base64_digits c) as (?&?&?&?&?&?&->&->&->&->&->&->&?&?&?&?&?&?).
  destruct (base64_digits d) as (?&?&?&?&?&?&->&->&->&->&->&->&?&?&?&?&?&?).
  destruct (N.ltb_spec c 0x80); [|destruct (N.ltb_spec c 0x800);
    [|destruct (N.ltb_spec c 0x10000)]];
  (destruct (N.ltb_spec d 0x80); [|destruct (N.ltb_spec d 0x800);
    [|destruct (N.ltb_spec d 0x10000)]]);
  simpl; intros E; simplify_list_eq; (split; [lia|try done; lia]).
Qed.

Lemma utf8_scalars_inj l k :
  Forall (λ c, (c < 0x110000)%N) l → Forall (λ c, (c < 0x110000)%N) k →
  mjoin (utf8_scalar <$> l) = mjoin (utf8_scalar <$> k) → l = k.
Proof.
  intros Hl. revert k. induction Hl as [|c l Hc Hl IH]; intros [|d k] Hk; simpl;
    try done.
  - unfold utf8_scalar. intros E. exfalso. revert E. by wb_cases.
  - unfold utf8_scalar. intros E. exfalso. revert E. by wb_cases.
  - inversion_clear Hk. intros E. apply utf8_scalar_app_inj in E as [-> E]; auto.
    f_equal; auto.
Qed.

Lemma scalars_bound s : units s → Forall (λ c, (c < 0x110000)%N) (scalars s).
Proof.
  unfold units. by_surrogates s; intros H; decompose_Forall_hyps; surrogates;
    repeat constructor; auto; unfold replacement, astral; try lia.
Qed.

(** A well-formed string has no unpaired surrogate. *)
Definition well_formed (s : jsstr) : Prop := units s ∧ toWellFormed s = s.

#[export] Instance well_formed_dec s : Decision (well_formed s).
Proof. unfold well_formed. apply _. Defined.

Lemma toWellFormed_wf s : units s → well_formed (toWellFormed s).
Proof. intros H. split; [by apply toWellFormed_units|apply toWellFormed_idemp]. Qed.

(** A second-step view: the rest of a well-formed string after its first code
    point, and the code point itself. *)
Lemma wf_cons_inv c s :
  well_formed (c :: s) →
  (is_high c = false ∧ is_low c = false ∧ (c < 0x10000)%N ∧ well_formed s) ∨
  (∃ d s', s = d :: s' ∧ is_high c = true ∧ is_low d = true ∧ well_formed s').
Proof.
  intros [Hu E]. unfold units in Hu. inversion_clear Hu as [|? ? Hc Hs].
  simpl in E. unfold replacement in E.
  destruct (is_high c) eqn:Hh.
  - destruct s as [|d s']; [exfalso; simplify_eq; surrogates; lia|].
    destruct (is_low d) eqn:Hl; [|exfalso; simplify_eq; surrogates; lia].
    injection E as E. inversion_clear Hs.
    right. exists d, s'. by split_and!; [..|split].
  - destruct (is_low c) eqn:Hl; [exfalso; simplify_eq; surrogates; lia|].
    injection E as E. left. by split_and!; [..|split].
Qed.

Lemma scalars_inj_wf s t :
  well_formed s → well_formed t → scalars s = scalars t → s = t.
Proof.
  remember (length s) as n eqn:En. revert s t En.
  induction n as [n IH] using lt_wf_ind. intros [|c s] [|e t] -> Hs Ht E.
  - done.
  - apply wf_cons_inv in Ht as [(Hh&Hl&_)|(d&t'&->&Hh&Hl&_)]; simpl in E;
      rewrite ?Hh, ?Hl in E; done.
  - apply wf_cons_inv in Hs as [(Hh&Hl&_)|(d&t'&->&Hh&Hl&_)]; simpl in E;
      rewrite ?Hh, ?Hl in E; done.
  - apply wf_cons_inv in Hs as [(Hh&Hl&Hc&Hs)|(d&s'&->&Hh&Hl&Hs)];
    apply wf_cons_inv in Ht as [(Hh'&Hl'&Hc'&Ht)|(d'&t'&->&Hh'&Hl'&Ht)];
    simpl in E; rewrite ?Hh, ?Hl, ?Hh', ?Hl' in E; injection E as E1 E2;
    unfold astral in *; surrogates.
    + subst. f_equal. eapply IH; eauto. simpl; lia.
    + lia.
    + lia.
    + assert (c = e ∧ d = d') as [-> ->] by lia.
      do 2 f_equal. eapply IH; eauto. simpl; lia.
Qed.

Lemma utf8_inj_wf s t : well_formed s → well_formed t → utf8 s = utf8 t → s = t.
Proof.
  intros Hs Ht E. apply scalars_inj_wf; auto.
  apply utf8_scalars_inj; auto; apply scalars_bound; [apply Hs|apply Ht].
Qed.

(** Concatenation: the seam pairs no surrogates when the right part does not
    open with a low one. *)
Lemma scalars_app s t :
  match t with c :: _ => is_low c = false | [] => True end →
  scalars (s ++ t) = scalars s ++ scalars t.
Proof.
  intros Ht. by_surrogates s; try done;
    try (rewrite <- app_comm_cons; f_equal; done).
  destruct t as [|d t]; simpl in *; [done|]. by rewrite Ht.
Qed.

Lemma utf8_app s t :
  match t with c :: _ => is_low c = false | [] => True end →
  utf8 (s ++ t) = utf8 s ++ utf8 t.
Proof. intros H. unfold utf8. by rewrite scalars_app, concat_map_app. Qed.

Lemma utf8_ascii s : ascii_only s → utf8 s = s.
Proof.
  unfold utf8, ascii_only. induction 1 as [|c s Hc Hs IH]; [done|]. simpl.
  assert (is_high c = false) as -> by (apply is_high_false; lia).
  assert (is_low c = false) as -> by (apply is_low_false; lia).
  simpl. unfold utf8_scalar. rewrite (proj2 (N.ltb_lt _ _) Hc). simpl. f_equal. exact IH.
Qed.

Lemma ascii_well_formed s : ascii_only s → well_formed s.
Proof.
  unfold well_formed, units, ascii_only.
  induction 1 as [|c s Hc Hs [IH1 IH2]]; [done|]. simpl.
  assert (is_high c = false) as -> by (apply is_high_false; lia).
  assert (is_low c = false) as -> by (apply is_low_false; lia).
  rewrite IH2. split; [|done]. constructor; [lia|done].
Qed.

(** On ASCII the two orders are one. *)
Lemma sql_lt_ascii a b : ascii_only a → ascii_only b → sql_lt a b = js_lt a b.
Proof. intros Ha Hb. unfold sql_lt, js_lt. by rewrite !utf8_ascii. Qed.

(** ** Facts: decimal digits *)

Lemma undec_snoc s d : undec (s ++ [d]) = (undec s * 10 + (d - 48))%N.
Proof. unfold undec. by rewrite foldl_app. Qed.

Lemma undec_dec_digits f n :
  (N.to_nat (N.log2 n) < f)%nat → undec (dec_digits f n) = n.
Proof.
  revert n. induction f as [|f IH]; intros n Hf; [lia|].
  cbn [dec_digits]. rewrite undec_snoc. destruct (N.ltb_spec n 10).
  - change (undec []) with 0%N. rewrite N.mod_small by done. lia.
  - rewrite IH.
    + pose proof (N.Div0.div_mod n 10) as E. revert E. generalize (n / 10)%N (n mod 10)%N. lia.
    + assert (N.log2 (n / 10) < N.log2 n)%N; [|lia].
      apply (proj1 (N.log2_lt_pow2 (n / 10) (N.log2 n) ltac:(apply N.div_str_pos; lia))).
      pose proof (N.log2_spec n ltac:(lia)) as [_ Hn].
      rewrite N.pow_succ_r' in Hn. apply N.Div0.div_lt_upper_bound.
      revert Hn. generalize (2 ^ N.log2 n)%N. lia.
Qed.

Lemma undec_dec n : undec (dec n) = n.
Proof. apply undec_dec_digits. lia. Qed.

#[export] Instance dec_inj : Inj (=) (=) dec.
Proof. intros n m E. rewrite <- (undec_dec n), <- (undec_dec m). by rewrite E. Qed.

Lemma dec_digits_digit f n : Forall (λ c, is_digit c = true) (dec_digits f n).
Proof.
  revert n. induction f as [|f IH]; intros n; cbn [dec_digits]; [constructor|].
  apply Forall_app. split; [case_match; auto|]. repeat constructor.
  unfold is_digit. rewrite andb_true_iff, !N.leb_le.
  pose proof (N.mod_upper_bound n 10 ltac:(lia)) as E.
  revert E. generalize (n mod 10)%N. lia.
Qed.

Lemma dec_digit n : Forall (λ c, is_digit c = true) (dec n).
Proof. apply dec_digits_digit. Qed.

Lemma dec_nonempty n : dec n ≠ [].
Proof. unfold dec. cbn [dec_digits]. by destruct (if (n <? 10)%N then _ else _). Qed.

Lemma is_digit_ascii c : is_digit c = true → (c < 0x80)%N.
Proof. unfold is_digit. rewrite andb_true_iff, !N.leb_le. lia. Qed.

Lemma dec_ascii n : ascii_only (dec n).
Proof. eapply Forall_impl; [apply dec_digit|]. apply is_digit_ascii. Qed.

Lemma int_to_string_ascii z : ascii_only (int_to_string z).
Proof.
  unfold int_to_string. case_match; [|apply dec_ascii].
  apply Forall_app. split; [by vm_compute; repeat constructor|apply dec_ascii].
Qed.

#[export] Instance int_to_string_inj : Inj (=) (=) int_to_string.
Proof.
  assert (∀ n m, js "-" ++ dec n = dec m → False) as Hneg.
  { intros n m E. pose proof (dec_digit m) as Hd. rewrite <- E in Hd.
    apply Forall_app in Hd as [Hd _]. inversion_clear Hd. discriminate. }
  intros x y. unfold int_to_string.
  destruct (Z.ltb_spec x 0), (Z.ltb_spec y 0); intros E.
  - apply app_inv_head, (inj dec) in E. lia.
  - exfalso; eauto.
  - symmetry in E. exfalso; eauto.
  - apply (inj dec) in E. lia.
Qed.

(** ** Facts: ASCII text *)

Lemma ascii_app a b : ascii_only a → ascii_only b → ascii_only (a ++ b).
Proof. intros. by apply Forall_app. Qed.
Lemma ascii_cons c a : (c < 0x80)%N → ascii_only a → ascii_only (c :: a).
Proof. intros. by apply Forall_cons. Qed.
Lemma ascii_take k a : ascii_only a → ascii_only (take k a).
Proof. apply Forall_take. Qed.
Lemma ascii_drop k a : ascii_only a → ascii_only (drop k a).
Proof. apply Forall_drop. Qed.
Lemma ascii_zeros k : ascii_only (replicate k 48%N).
Proof. by apply Forall_replicate. Qed.
Lemma ascii_nil : ascii_only [].
Proof. apply Forall_nil_2. Qed.

(** Literals are decided by evaluation. *)
Ltac ascii_lit := apply (bool_decide_unpack _); vm_compute; exact I.

#[export] Hint Resolve ascii_app ascii_cons ascii_take ascii_drop ascii_zeros ascii_nil
  dec_ascii int_to_string_ascii : wb.
#[export] Hint Extern 0 (ascii_only (js _)) => ascii_lit : wb.
#[export] Hint Extern 2 (well_formed (js _)) => apply ascii_well_formed; ascii_lit : wb.

Lemma num_to_string_ascii x : ascii_only (num_to_string x).
Proof.
  unfold num_to_string. pose proof (dec_ascii (Z.to_N (Z.abs (num_sig x)))) as Hd.
  match goal with |- ascii_only (if ?b then js "-" ++ ?body else _) =>
    assert (ascii_only body) as H; [|destruct b; auto with wb] end.
  repeat case_match; auto 10 with wb;
    repeat match goal with H : ascii_only (_ :: _) |- _ =>
      apply Forall_cons in H as [??] end; auto 20 with wb.
Qed.
#[export] Hint Resolve num_to_string_ascii : wb.
