(* ===== verification/Base64.v ===== *)
(** * Base64: [btoa] and [atob]

    The two functions of the web platform the page cursors go through: [btoa]
    encodes a string of Latin-1 code units and throws on any other; [atob] is
    the forgiving decoder, which drops ASCII whitespace, accepts missing
    padding and throws on anything else. *)

From S2P Require Export JsString.
Open Scope N_scope.

(** ** Definitions *)

Definition b64_char (n : N) : N :=
  if n <? 26 then 65 + n else if n <? 52 then 71 + n else if n <? 62 then n - 4
  else if n =? 62 then 43 else 47.
Definition b64_value (c : N) : option N :=
  if (65 <=? c) && (c <=? 90) then Some (c - 65)
  else if (97 <=? c) && (c <=? 122) then Some (c - 71)
  else if (48 <=? c) && (c <=? 57) then Some (c + 4)
  else if c =? 43 then Some 62 else if c =? 47 then Some 63 else None.

(** The six-bit digits of a byte string, and the bytes of a digit string; the
    bits left over at the end are dropped. *)
Fixpoint b64_digits (s : list N) : list N :=
  match s with
  | a :: b :: c :: s' =>
      a / 4 :: a mod 4 * 16 + b / 16 :: b mod 16 * 4 + c / 64 :: c mod 64 :: b64_digits s'
  | [a; b] => [a / 4; a mod 4 * 16 + b / 16; b mod 16 * 4]
  | [a] => [a / 4; a mod 4 * 16]
  | [] => []
  end.
Fixpoint b64_bytes (l : list N) : list N :=
  match l with
  | a :: b :: c :: d :: l' =>
      a * 4 + b / 16 :: b mod 16 * 16 + c / 4 :: c mod 4 * 64 + d :: b64_bytes l'
  | [a; b; c] => [a * 4 + b / 16; b mod 16 * 16 + c / 4]
  | [a; b] => [a * 4 + b / 16]
  | _ => []
  end.

Definition latin1 (s : jsstr) : Prop := Forall (λ c, c < 0x100) s.
#[export] Instance latin1_dec s : Decision (latin1 s).
Proof. unfold latin1. apply _. Defined.

Definition b64_padding (s : jsstr) : jsstr :=
  match (length s mod 3)%nat with 1%nat => [61; 61] | 2%nat => [61] | _ => [] end.
Definition btoa (s : jsstr) : option jsstr :=
  if bool_decide (latin1 s) then Some ((b64_char <$> b64_digits s) ++ b64_padding s) else None.

Definition is_blank (c : N) : bool :=
  (c =? 9) || (c =? 10) || (c =? 12) || (c =? 13) || (c =? 32).
Definition strip_padding (s : jsstr) : jsstr :=
  if (length s mod 4 =? 0)%nat then
    match rev s with
    | 61 :: 61 :: r => rev r
    | 61 :: r => rev r
    | _ => s
    end
  else s.
Definition atob (s : jsstr) : option jsstr :=
  let data := strip_padding (List.filter (λ c, negb (is_blank c)) s) in
  if (length data mod 4 =? 1)%nat then None else b64_bytes <$> mapM b64_value data.

Example btoa_examples :
  btoa (js "2026-08-01|42") = Some (js "MjAyNi0wOC0wMXw0Mg==") ∧
  btoa (js "Man") = Some (js "TWFu") ∧ btoa [0x100] = None ∧
  atob (js "TWFu") = Some (js "Man") ∧ atob (js " TW Fu ") = Some (js "Man") ∧
  atob (js "TWE=") = Some (js "Ma") ∧ atob (js "TWE") = Some (js "Ma") ∧
  atob (js "TWE==") = None ∧ atob (js "T") = None ∧ atob (js "T?==") = None.
Proof. by split_and!. Qed.

(** ** The round trip *)

(** Induction in steps of three. *)
Lemma triples_ind (P : list N → Prop) :
  P [] → (∀ a, P [a]) → (∀ a b, P [a; b]) →
  (∀ a b c s, P s → P (a :: b :: c :: s)) → ∀ s, P s.
Proof.
  intros H0 H1 H2 H3. fix IH 1. intros [|a [|b [|c s]]]; [done|apply H1|apply H2|].
  apply H3, IH.
Qed.

(** A quotient and a remainder as variables. *)
Ltac split_div x k :=
  let q := fresh "q" in let r := fresh "r" in
  pose proof (N.div_mod' x k); pose proof (N.mod_lt x k ltac:(done));
  set (q := x / k) in *; set (r := x mod k) in *; clearbody q r.

Lemma div_of k a b : b < k → k ≠ 0 → (a * k + b) / k = a.
Proof. intros. rewrite N.div_add_l by done. rewrite N.div_small by done. lia. Qed.
Lemma mod_of k a b : b < k → k ≠ 0 → (a * k + b) mod k = b.
Proof. intros. rewrite N.add_comm, N.Div0.mod_add. by apply N.mod_small. Qed.

Lemma byte_parts k m x : k * m = 0x100 → x < 0x100 → x / k < m ∧ x mod k < k.
Proof.
  intros E Hx. assert (k ≠ 0) by lia. split; [|by apply N.mod_lt].
  apply N.Div0.div_lt_upper_bound. lia.
Qed.

Lemma b64_digits_bound s : latin1 s → Forall (λ d, d < 64) (b64_digits s).
Proof.
  induction s as [|a|a b|a b c s IH] using triples_ind; intros Hs; unfold latin1 in Hs;
    decompose_Forall_hyps; cbn [b64_digits]; repeat constructor; try (by apply IH);
    try (by apply (byte_parts 4 64)); try (by apply (byte_parts 64 4)); try (by apply N.mod_lt);
    repeat match goal with
    | H : a < 256 |- _ => destruct (byte_parts 4 64 a eq_refl H); clear H
    | H : b < 256 |- _ => pose proof (byte_parts 16 16 b eq_refl H); clear H
    | H : c < 256 |- _ => pose proof (byte_parts 64 4 c eq_refl H); clear H
    end; lia.
Qed.

Lemma b64_bytes_digits s : latin1 s → b64_bytes (b64_digits s) = s.
Proof.
  induction s as [|a|a b|a b c s IH] using triples_ind; intros Hs; unfold latin1 in Hs;
    decompose_Forall_hyps; cbn [b64_digits b64_bytes]; [done|..].
  - rewrite N.div_mul by done. f_equal. pose proof (N.div_mod' a 4). lia.
  - destruct (byte_parts 16 16 b) as [??]; [done..|].
    rewrite div_of, mod_of, N.div_mul by done.
    pose proof (N.div_mod' a 4). pose proof (N.div_mod' b 16). repeat f_equal; lia.
  - destruct (byte_parts 16 16 b) as [??]; [done..|].
    destruct (byte_parts 64 4 c) as [??]; [done..|].
    rewrite IH, !div_of, !mod_of by done.
    pose proof (N.div_mod' a 4). pose proof (N.div_mod' b 16). pose proof (N.div_mod' c 64).
    repeat f_equal; lia.
Qed.

Lemma b64_value_char n : n < 64 → b64_value (b64_char n) = Some n.
Proof.
  intros Hn. assert (Forall (λ n, b64_value (b64_char n) = Some n) (N.of_nat <$> seq 0 64)) as HF.
  { by_compute. }
  rewrite Forall_forall in HF. apply HF. apply list_elem_of_fmap.
  exists (N.to_nat n). split; [lia|]. apply elem_of_seq. lia.
Qed.
Lemma b64_char_shape n : n < 64 → is_blank (b64_char n) = false ∧ b64_char n ≠ 61 ∧ b64_char n < 0x80.
Proof.
  intros Hn.
  assert (Forall (λ n, is_blank (b64_char n) = false ∧ b64_char n ≠ 61 ∧ b64_char n < 0x80)
            (N.of_nat <$> seq 0 64)) as HF by by_compute.
  rewrite Forall_forall in HF. apply HF. apply list_elem_of_fmap.
  exists (N.to_nat n). split; [lia|]. apply elem_of_seq. lia.
Qed.

Lemma b64_padding_next a b c s : b64_padding (a :: b :: c :: s) = b64_padding s.
Proof.
  unfold b64_padding. cbn [length].
  replace (S (S (S (length s)))) with (length s + 1 * 3)%nat by lia. by rewrite Nat.Div0.mod_add.
Qed.
Lemma b64_length s : ((length (b64_digits s) + length (b64_padding s)) mod 4 = 0)%nat.
Proof.
  induction s as [|a|a b|a b c s IH] using triples_ind; [done..|].
  rewrite b64_padding_next. cbn [b64_digits length].
  replace (_ + _)%nat with ((length (b64_digits s) + length (b64_padding s)) + 1 * 4)%nat by lia.
  by rewrite Nat.Div0.mod_add.
Qed.
Lemma b64_digits_length s : (length (b64_digits s) mod 4 ≠ 1)%nat.
Proof.
  induction s as [|a|a b|a b c s IH] using triples_ind; [done..|]. cbn [b64_digits length].
  replace (S _) with (length (b64_digits s) + 1 * 4)%nat by lia. by rewrite Nat.Div0.mod_add.
Qed.

Lemma strip_padded t s :
  Forall (λ c, c ≠ 61) t → ((length t + length (b64_padding s)) mod 4 = 0)%nat →
  strip_padding (t ++ b64_padding s) = t.
Proof.
  intros Ht Hl. unfold strip_padding. rewrite length_app, Hl. cbn [Nat.eqb].
  assert (Forall (λ c, c ≠ 61) (rev t)) as Hr by by apply Forall_rev.
  rewrite rev_app_distr. unfold b64_padding.
  destruct (length s mod 3)%nat as [|[|[|n]]]; simpl; rewrite ?app_nil_r, ?rev_involutive; try done.
  all: destruct (rev t) as [|x r]; [done|]; inversion_clear Hr; by repeat case_match.
Qed.

(** Latin-1 text survives base64. *)
Lemma atob_btoa s : latin1 s → ∃ e, btoa s = Some e ∧ atob e = Some s.
Proof.
  intros Hs. unfold btoa. rewrite bool_decide_eq_true_2 by done. eexists. split; [done|].
  pose proof (b64_digits_bound s Hs) as Hb. unfold atob.
  rewrite list_filter_all.
  2:{ apply Forall_app. split.
      - apply Forall_fmap. eapply Forall_impl; [exact Hb|]. intros d Hd. simpl.
        by rewrite (proj1 (b64_char_shape d Hd)).
      - unfold b64_padding. repeat case_match; repeat constructor. }
  rewrite strip_padded.
  - rewrite length_fmap. destruct (Nat.eqb_spec (length (b64_digits s) mod 4) 1) as [E|_].
    { by destruct (b64_digits_length s). }
    assert (mapM b64_value (b64_char <$> b64_digits s) = Some (b64_digits s)) as ->.
    { apply mapM_Some. clear -Hb. induction Hb; constructor; auto using b64_value_char. }
    simpl. by rewrite b64_bytes_digits.
  - apply Forall_fmap. eapply Forall_impl; [exact Hb|]. intros d Hd. by apply b64_char_shape.
  - rewrite length_fmap. apply b64_length.
Qed.

Lemma btoa_nonempty s e : s ≠ [] → btoa s = Some e → e ≠ [].
Proof. unfold btoa. case_bool_decide; [|done]. destruct s as [|a [|b [|c s]]]; intros ? [= <-]; done. Qed.

Lemma ascii_latin1 s : ascii_only s → latin1 s.
Proof. intros Hs. eapply Forall_impl; [exact Hs|]. simpl. lia. Qed.

#[export] Hint Resolve ascii_latin1 : wb.
Close Scope N_scope.
