(* ===== verification/Platform.v ===== *)
(** * What the program takes from its platform

    The functions below are not defined by the repository: the digest of
    [node:crypto], the Unicode case table behind [toLowerCase], the round trip
    of a string through a SQLite TEXT column, and [crypto.randomUUID]. Every
    definition that uses one takes it from the class [Platform]; what the code
    relies on is the class [PlatformLaws]. [demo_platform] is a concrete
    instance that satisfies the laws, used to evaluate the model. *)

From S2P Require Export Base64.

Class Platform := {
  (** [createHash("sha256").update(data).digest("hex")], on the bytes of [data]. *)
  sha256_hex : list N → jsstr;
  (** [String.prototype.toLowerCase]. *)
  toLowerCase : jsstr → jsstr;
  (** What a string bound to a TEXT column reads back as. *)
  sqliteText : jsstr → jsstr;
  (** [Date.parse] on text outside the interchange format. *)
  legacyDate : jsstr → option Z;
  (** The n-th value [crypto.randomUUID] returns in the life of the object. *)
  randomUUID : nat → jsstr;
}.

Class PlatformLaws `(P : Platform) : Prop := {
  (** A digest is lowercase hexadecimal text. *)
  sha256_ascii : ∀ bs, ascii_only (sha256_hex bs);
  (** SQLite keeps text without unpaired surrogates. *)
  sqliteText_wf : ∀ s, toWellFormed s = s → sqliteText s = s;
  (** Identifiers are ASCII, never empty and never drawn twice. *)
  randomUUID_ascii : ∀ n, ascii_only (randomUUID n);
  randomUUID_nonempty : ∀ n, randomUUID n ≠ [];
  randomUUID_inj : Inj (=) (=) randomUUID;
}.
#[export] Existing Instance randomUUID_inj.

(** ** A concrete platform *)

Definition hex_digit (n : N) : N := (if n <? 10 then 48 + n else 87 + n)%N.
Definition hex_byte (b : N) : jsstr :=
  [hex_digit ((b / 16) mod 16); hex_digit (b mod 16)]%N.

(** An injective stand-in for the digest: the bytes themselves, in hex. *)
#[export] Instance demo_platform : Platform := {
  sha256_hex bs := mjoin (hex_byte <$> bs);
  toLowerCase s := (λ c, if (65 <=? c)%N && (c <=? 90)%N then (c + 32)%N else c) <$> s;
  sqliteText s := toWellFormed s;
  legacyDate s := None;
  randomUUID n := js "uuid-" ++ dec (N.of_nat n);
}.

Lemma hex_digit_ascii n : (hex_digit (n mod 16) < 0x80)%N.
Proof.
  unfold hex_digit. pose proof (N.mod_upper_bound n 16 ltac:(lia)) as H.
  revert H. generalize (n mod 16)%N. intros k. destruct (N.ltb_spec k 10); lia.
Qed.

#[export] Instance demo_platform_laws : PlatformLaws demo_platform.
Proof.
  split.
  - intros bs. induction bs as [|b bs IH]; simpl; [constructor|].
    repeat (constructor; [apply hex_digit_ascii|]). exact IH.
  - intros s E. exact E.
  - intros n. apply Forall_app. split; [by vm_compute; repeat constructor|apply dec_ascii].
  - intros n. done.
  - intros n m E. apply (app_inv_head (js "uuid-")), (inj dec) in E. lia.
Qed.
