(* ===== verification/IsoDate.v ===== *)
(** * Instants: [Date], [toISOString] and [Date.parse]

    The program stamps every row with [new Date().toISOString()] and compares
    stamps as text, in JavaScript and in SQL. The calendar is ECMA-262's: the
    year of a day is the last one that starts at or before it. The file proves
    that on the years the format writes with four digits the text order is the
    order of time, and that parsing a stamp gives the instant back. *)

From S2P Require Export Platform.
Open Scope Z_scope.

(** ** The calendar *)

Definition msPerDay : Z := 86400000.

Definition leap (y : Z) : bool :=
  (y mod 4 =? 0) && negb (y mod 100 =? 0) || (y mod 400 =? 0).

(** The day, counted from 1970-01-01, on which a year starts. *)
Definition dayFromYear (y : Z) : Z :=
  365 * (y - 1970) + (y - 1969) / 4 - (y - 1901) / 100 + (y - 1601) / 400.

(** An estimate by the mean year, off by at most one. *)
Definition yearFromDay (d : Z) : Z :=
  let y := 1970 + d * 400 / 146097 in
  if d <? dayFromYear y then y - 1
  else if dayFromYear (y + 1) <=? d then y + 1
  else y.

(** Days before a month (0 = January) of a year. *)
Definition monthStart (l : bool) (m : Z) : Z :=
  let k : Z := if l then 1 else 0 in
  match m with
  | 0 => 0 | 1 => 31 | 2 => 59 + k | 3 => 90 + k | 4 => 120 + k | 5 => 151 + k
  | 6 => 181 + k | 7 => 212 + k | 8 => 243 + k | 9 => 273 + k | 10 => 304 + k
  | 11 => 334 + k | _ => 365 + k
  end.

Fixpoint month_search (fuel : nat) (l : bool) (m doy : Z) : Z :=
  match fuel with
  | O => m
  | S f => if doy <? monthStart l (m + 1) then m else month_search f l (m + 1) doy
  end.
Definition monthOf (l : bool) (doy : Z) : Z := month_search 11 l 0 doy.

Record civil := mkCivil { c_year : Z; c_month : Z; c_day : Z; c_ms : Z }.

Definition civil_of (t : Z) : civil :=
  let d := t / msPerDay in
  let y := yearFromDay d in
  let doy := d - dayFromYear y in
  let m := monthOf (leap y) doy in
  mkCivil y (m + 1) (doy - monthStart (leap y) m + 1) (t mod msPerDay).

Definition of_civil (c : civil) : Z :=
  (dayFromYear (c_year c) + monthStart (leap (c_year c)) (c_month c - 1) + (c_day c - 1))
  * msPerDay + c_ms c.

(** ** The text *)

(** The last [k] decimal digits of [n], most significant first. *)
Fixpoint fixed (k : nat) (n : Z) : jsstr :=
  match k with
  | O => []
  | S k' => fixed k' (n / 10) ++ [Z.to_N (48 + n mod 10)]
  end.

Definition year_text (y : Z) : jsstr :=
  if (0 <=? y) && (y <=? 9999) then fixed 4 y
  else (if y <? 0 then js "-" else js "+") ++ fixed 6 (Z.abs y).

Definition iso_date (c : civil) : jsstr :=
  year_text (c_year c) ++ js "-" ++ fixed 2 (c_month c) ++ js "-" ++ fixed 2 (c_day c).

Definition iso_time (ms : Z) : jsstr :=
  fixed 2 (ms / 3600000) ++ js ":" ++ fixed 2 (ms / 60000 mod 60) ++ js ":" ++
  fixed 2 (ms / 1000 mod 60) ++ js "." ++ fixed 3 (ms mod 1000) ++ js "Z".

Definition toISOString (t : Z) : jsstr :=
  let c := civil_of t in iso_date c ++ js "T" ++ iso_time (c_ms c).

Definition digits_value (s : jsstr) : option Z :=
  if forallb is_digit s then Some (Z.of_N (undec s)) else None.

(** [Date.parse] on the interchange format; on any other text it is
    implementation-defined, [legacy]. *)
Definition parse_iso (s : jsstr) : option Z :=
  if (length s =? 24)%nat &&
     bool_decide (take 1 (drop 4 s) = js "-") && bool_decide (take 1 (drop 7 s) = js "-") &&
     bool_decide (take 1 (drop 10 s) = js "T") && bool_decide (take 1 (drop 13 s) = js ":") &&
     bool_decide (take 1 (drop 16 s) = js ":") && bool_decide (take 1 (drop 19 s) = js ".") &&
     bool_decide (drop 23 s = js "Z") then
    y ← digits_value (take 4 s);
    mo ← digits_value (take 2 (drop 5 s));
    d ← digits_value (take 2 (drop 8 s));
    h ← digits_value (take 2 (drop 11 s));
    mi ← digits_value (take 2 (drop 14 s));
    sec ← digits_value (take 2 (drop 17 s));
    ms ← digits_value (take 3 (drop 20 s));
    if (1 <=? mo) && (mo <=? 12) && (1 <=? d) && (d <=? 31) && (h <=? 23) && (mi <=? 59) &&
       (sec <=? 59) then
      Some (of_civil (mkCivil y mo d (h * 3600000 + mi * 60000 + sec * 1000 + ms)))
    else None
  else None.

(** The first instant of the UTC calendar month of [t]. *)
Definition month_start (t : Z) : Z :=
  let c := civil_of t in of_civil (mkCivil (c_year c) (c_month c) 1 0).

Example iso_epoch : toISOString 0 = js "1970-01-01T00:00:00.000Z".
Proof. reflexivity. Qed.
Example iso_leap : toISOString 1709251199999 = js "2024-02-29T23:59:59.999Z".
Proof. reflexivity. Qed.
Example iso_before : toISOString (-1) = js "1969-12-31T23:59:59.999Z".
Proof. reflexivity. Qed.
Example parse_back : parse_iso (js "2026-07-04T12:34:56.789Z") = Some 1783168496789.
Proof. reflexivity. Qed.

(** ** Facts: the calendar *)

Ltac zdiv := Z.to_euclidean_division_equations; lia.

Lemma dayFromYear_succ y : dayFromYear (y + 1) = dayFromYear y + (if leap y then 366 else 365).
Proof. unfold dayFromYear, leap. repeat case_match; wb_bool; zdiv. Qed.

(** A year starts within two days of the mean. *)
Lemma dayFromYear_mean n :
  146097 * n - 506 <= 400 * dayFromYear (1970 + n) <= 146097 * n + 589.
Proof.
  unfold dayFromYear.
  pose proof (Z.div_mod (1970 + n - 1969) 4 ltac:(lia)).
  pose proof (Z.mod_pos_bound (1970 + n - 1969) 4 ltac:(lia)).
  pose proof (Z.div_mod (1970 + n - 1901) 100 ltac:(lia)).
  pose proof (Z.mod_pos_bound (1970 + n - 1901) 100 ltac:(lia)).
  pose proof (Z.div_mod (1970 + n - 1601) 400 ltac:(lia)).
  pose proof (Z.mod_pos_bound (1970 + n - 1601) 400 ltac:(lia)).
  lia.
Qed.

Lemma yearFromDay_spec d :
  dayFromYear (yearFromDay d) <= d < dayFromYear (yearFromDay d + 1).
Proof.
  unfold yearFromDay.
  assert (dayFromYear (1970 + d * 400 / 146097 - 1) <= d < dayFromYear (1970 + d * 400 / 146097 + 2)) as H.
  { pose proof (Z.div_mod (d * 400) 146097 ltac:(lia)).
    pose proof (Z.mod_pos_bound (d * 400) 146097 ltac:(lia)).
    set (n := d * 400 / 146097) in *.
    pose proof (dayFromYear_mean (n - 1)) as H1. pose proof (dayFromYear_mean (n + 2)) as H2.
    replace (1970 + n - 1) with (1970 + (n - 1)) by lia.
    rewrite <- Z.add_assoc. lia. }
  destruct (Z.ltb_spec d (dayFromYear (1970 + d * 400 / 146097))).
  - rewrite Z.sub_add. lia.
  - destruct (Z.leb_spec (dayFromYear (1970 + d * 400 / 146097 + 1)) d); [|lia].
    replace (1970 + d * 400 / 146097 + 1 + 1) with (1970 + d * 400 / 146097 + 2) by lia. lia.
Qed.

Lemma dayFromYear_mono y z : y <= z → dayFromYear y <= dayFromYear z.
Proof.
  intros Hle. replace z with (y + Z.of_nat (Z.to_nat (z - y))) by lia.
  generalize (Z.to_nat (z - y)). intros n. induction n as [|n IH]; [by rewrite Z.add_0_r|].
  replace (y + Z.of_nat (S n)) with (y + Z.of_nat n + 1) by lia.
  rewrite dayFromYear_succ. case_match; lia.
Qed.

Lemma yearFromDay_unique d y : dayFromYear y <= d < dayFromYear (y + 1) → yearFromDay d = y.
Proof.
  intros Hy. pose proof (yearFromDay_spec d) as Hs.
  destruct (Z.lt_trichotomy (yearFromDay d) y) as [Hl|[->|Hl]]; [|done|]; exfalso.
  - pose proof (dayFromYear_mono (yearFromDay d + 1) y ltac:(lia)). lia.
  - pose proof (dayFromYear_mono (y + 1) (yearFromDay d) ltac:(lia)). lia.
Qed.

Lemma month_spec l doy :
  0 <= doy < monthStart l 12 →
  0 <= monthOf l doy <= 11 ∧ monthStart l (monthOf l doy) <= doy < monthStart l (monthOf l doy + 1).
Proof.
  intros H. unfold monthOf. simpl.
  repeat (match goal with |- context [?a <? ?b] => destruct (Z.ltb_spec a b) end; simpl in *);
    destruct l; simpl in *; lia.
Qed.

(** A proper date. *)
Definition civil_ok (c : civil) : Prop :=
  1 <= c_month c <= 12 ∧
  1 <= c_day c ∧ c_day c <= monthStart (leap (c_year c)) (c_month c)
                            - monthStart (leap (c_year c)) (c_month c - 1) ∧
  0 <= c_ms c < msPerDay.

Lemma civil_of_ok t : civil_ok (civil_of t).
Proof.
  unfold civil_ok, civil_of. simpl.
  pose proof (yearFromDay_spec (t / msPerDay)) as Hy. rewrite dayFromYear_succ in Hy.
  set (y := yearFromDay _) in *.
  destruct (month_spec (leap y) (t / msPerDay - dayFromYear y)) as [Hm Hd].
  { destruct (leap y); simpl; lia. }
  rewrite Z.add_simpl_r. split_and!; try lia; apply Z.mod_pos_bound; done.
Qed.

Lemma of_civil_of t : of_civil (civil_of t) = t.
Proof.
  unfold of_civil, civil_of. simpl. rewrite Z.add_simpl_r.
  pose proof (Z.div_mod t msPerDay ltac:(done)).
  generalize dependent (yearFromDay (t / msPerDay)). lia.
Qed.

Lemma monthStart_mono l m n : 0 <= m <= n → n <= 12 → monthStart l m <= monthStart l n.
Proof.
  intros Hm Hn.
  assert (∀ k, 0 <= k <= 12 → k = 0 ∨ k = 1 ∨ k = 2 ∨ k = 3 ∨ k = 4 ∨ k = 5 ∨ k = 6 ∨ k = 7 ∨
    k = 8 ∨ k = 9 ∨ k = 10 ∨ k = 11 ∨ k = 12) as Hk by lia.
  pose proof (Hk m ltac:(lia)) as Em. pose proof (Hk n ltac:(lia)) as En. clear Hk.
  destruct_or! Em; subst m; destruct_or! En; subst n; destruct l; simpl; lia.
Qed.

(** The order of instants is the lexicographic order of year, month, day and
    time of day. *)
Definition civil_lt (a b : civil) : Prop :=
  c_year a < c_year b ∨ c_year a = c_year b ∧
  (c_month a < c_month b ∨ c_month a = c_month b ∧
   (c_day a < c_day b ∨ c_day a = c_day b ∧ c_ms a < c_ms b)).

Lemma of_civil_bounds c :
  civil_ok c →
  dayFromYear (c_year c) * msPerDay <= of_civil c < dayFromYear (c_year c + 1) * msPerDay ∧
  (dayFromYear (c_year c) + monthStart (leap (c_year c)) (c_month c - 1)) * msPerDay <= of_civil c
    < (dayFromYear (c_year c) + monthStart (leap (c_year c)) (c_month c)) * msPerDay.
Proof.
  intros (Hm&Hd1&Hd2&Hms). rewrite dayFromYear_succ. unfold of_civil, msPerDay in *.
  pose proof (monthStart_mono (leap (c_year c)) 0 (c_month c - 1) ltac:(lia) ltac:(lia)) as H0.
  pose proof (monthStart_mono (leap (c_year c)) (c_month c) 12 ltac:(lia) ltac:(lia)) as H1.
  simpl in H0, H1. destruct (leap (c_year c)); lia.
Qed.

Lemma of_civil_mono a b : civil_ok a → civil_ok b → civil_lt a b → of_civil a < of_civil b.
Proof.
  intros Ha Hb [Hy|[Ey Hr]].
  - destruct (of_civil_bounds a Ha) as [[_ H1] _], (of_civil_bounds b Hb) as [[H2 _] _].
    pose proof (dayFromYear_mono (c_year a + 1) (c_year b) ltac:(lia)).
    unfold msPerDay in *. lia.
  - destruct Hr as [Hm|[Em Hr]].
    + destruct (of_civil_bounds a Ha) as [_ [_ H1]], (of_civil_bounds b Hb) as [_ [H2 _]].
      rewrite <- Ey in H2.
      pose proof (monthStart_mono (leap (c_year a)) (c_month a) (c_month b - 1)) as Hms.
      unfold civil_ok, msPerDay in *. lia.
    + unfold of_civil. rewrite <- Ey, <- Em. unfold civil_ok, msPerDay in *. lia.
Qed.

Lemma civil_trichotomy a b : civil_lt a b ∨ a = b ∨ civil_lt b a.
Proof.
  unfold civil_lt. destruct a as [y m d s], b as [y' m' d' s']. simpl.
  destruct (decide (y = y' ∧ m = m' ∧ d = d' ∧ s = s')) as [(->&->&->&->)|]; [tauto|lia].
Qed.

Lemma civil_of_mono t u : t < u → civil_lt (civil_of t) (civil_of u).
Proof.
  intros Htu. pose proof (civil_of_ok t) as Ht. pose proof (civil_of_ok u) as Hu.
  destruct (civil_trichotomy (civil_of t) (civil_of u)) as [|[E|Hl]].
  - done.
  - apply (f_equal of_civil) in E. rewrite !of_civil_of in E. lia.
  - apply of_civil_mono in Hl; try done. rewrite !of_civil_of in Hl. lia.
Qed.

(** Reading a proper date back. *)
Lemma civil_of_civil c : civil_ok c → civil_of (of_civil c) = c.
Proof.
  intros Hc. pose proof (civil_of_ok (of_civil c)) as Hc'.
  destruct (civil_trichotomy (civil_of (of_civil c)) c) as [Hl|[|Hl]]; [|done|].
  - apply of_civil_mono in Hl; try done. rewrite of_civil_of in Hl. lia.
  - apply of_civil_mono in Hl; try done. rewrite of_civil_of in Hl. lia.
Qed.

(** ** Facts: the text *)

Lemma fixed_length k n : length (fixed k n) = k.
Proof.
  revert n. induction k as [|k IH]; intros n; simpl; [done|].
  rewrite length_app, IH. simpl. lia.
Qed.

Lemma fixed_digits k n : Forall (λ c, is_digit c = true) (fixed k n).
Proof.
  revert n. induction k as [|k IH]; intros n; simpl; [constructor|].
  apply Forall_app. split; [done|]. repeat constructor. unfold is_digit.
  rewrite andb_true_iff, !N.leb_le. pose proof (Z.mod_pos_bound n 10 ltac:(lia)) as Hm.
  revert Hm. generalize (n mod 10). lia.
Qed.

Lemma undec_fixed k n : 0 <= n < 10 ^ Z.of_nat k → Z.of_N (undec (fixed k n)) = n.
Proof.
  revert n. induction k as [|k IH]; intros n Hn; [simpl in *; lia|].
  cbn [fixed]. rewrite undec_snoc.
  rewrite Nat2Z.inj_succ, Z.pow_succ_r in Hn by lia.
  pose proof (Z.mod_pos_bound n 10 ltac:(lia)) as Hm.
  pose proof (Z.div_mod n 10 ltac:(lia)) as Hd.
  specialize (IH (n / 10)). rewrite N2Z.inj_add, N2Z.inj_mul, IH by (split; [apply Z.div_pos; lia|apply Z.div_lt_upper_bound; lia]).
  revert Hm Hd. generalize (n mod 10) (n / 10). intros. lia.
Qed.

Lemma digits_value_fixed k n :
  0 <= n < 10 ^ Z.of_nat k → digits_value (fixed k n) = Some n.
Proof.
  intros Hn. unfold digits_value.
  rewrite (proj2 (forallb_forall _ _)).
  - by rewrite undec_fixed.
  - intros c Hc%list_elem_of_In. pose proof (fixed_digits k n) as H.
    rewrite Forall_forall in H. auto.
Qed.

Lemma fixed_ascii k n : ascii_only (fixed k n).
Proof. eapply Forall_impl; [apply fixed_digits|]. apply is_digit_ascii. Qed.
#[export] Hint Resolve fixed_ascii : wb.

(** Text below the vertical bar: ASCII, and free of the cursors' separator. *)
Definition plain_text (s : jsstr) : Prop := Forall (λ c, (c < 0x7C)%N) s.
Lemma plain_ascii s : plain_text s → ascii_only s.
Proof. intros Hs. eapply Forall_impl; [exact Hs|]. simpl. lia. Qed.
Lemma plain_app a b : plain_text a → plain_text b → plain_text (a ++ b).
Proof. intros. by apply Forall_app. Qed.
Lemma plain_take k a : plain_text a → plain_text (take k a).
Proof. apply Forall_take. Qed.
Lemma fixed_plain k n : plain_text (fixed k n).
Proof.
  eapply Forall_impl; [apply fixed_digits|]. intros c. unfold is_digit. simpl. intros Hc. wb_bool.
  apply N.leb_le in H0. lia.
Qed.
Ltac plain_lit := apply (bool_decide_unpack _); vm_compute; exact I.
#[export] Hint Resolve plain_ascii plain_app plain_take fixed_plain : wb.
#[export] Hint Extern 0 (plain_text (js _)) => plain_lit : wb.

Lemma toISOString_plain t : plain_text (toISOString t).
Proof.
  unfold toISOString, iso_date, iso_time, year_text.
  repeat case_match; auto 20 with wb.
Qed.
Lemma toISOString_ascii t : ascii_only (toISOString t).
Proof. apply plain_ascii, toISOString_plain. Qed.
#[export] Hint Resolve toISOString_plain toISOString_ascii : wb.

(** Lexicographic comparison of texts with a common shape. *)
Lemma lexcmp_app a b s t :
  length a = length b →
  lexcmp (a ++ s) (b ++ t) = match lexcmp a b with Eq => lexcmp s t | c => c end.
Proof.
  revert b. induction a as [|x a IH]; intros [|y b] Hl; simplify_eq/=; [done|].
  destruct (x ?= y)%N; auto.
Qed.

Lemma lexcmp_fixed k a b :
  0 <= a < 10 ^ Z.of_nat k → 0 <= b < 10 ^ Z.of_nat k →
  lexcmp (fixed k a) (fixed k b) = (a ?= b).
Proof.
  revert a b. induction k as [|k IH]; intros a b Ha Hb.
  { simpl in *. assert (a = b) as -> by lia. by rewrite Z.compare_refl. }
  cbn [fixed]. rewrite lexcmp_app by by rewrite !fixed_length.
  rewrite Nat2Z.inj_succ, Z.pow_succ_r in Ha, Hb by lia.
  rewrite IH by (split; [apply Z.div_pos; lia|apply Z.div_lt_upper_bound; lia]).
  pose proof (Z.mod_pos_bound a 10 ltac:(lia)). pose proof (Z.mod_pos_bound b 10 ltac:(lia)).
  pose proof (Z.div_mod a 10 ltac:(lia)). pose proof (Z.div_mod b 10 ltac:(lia)).
  revert H H0 H1 H2. generalize (a mod 10) (b mod 10) (a / 10) (b / 10). intros r s p q ????.
  simpl. destruct (Z.compare_spec p q), (N.compare_spec (Z.to_N (48 + r)) (Z.to_N (48 + s)));
    symmetry; rewrite ?Z.compare_eq_iff, ?Z.compare_lt_iff, ?Z.compare_gt_iff; lia.
Qed.

Ltac lex_field :=
  rewrite lexcmp_app by (by rewrite ?fixed_length);
  first [rewrite lexcmp_fixed by lia | rewrite lexcmp_refl].

Lemma clock_fields a :
  0 <= a < msPerDay →
  ∃ h m s f, a / 3600000 = h ∧ a / 60000 mod 60 = m ∧ a / 1000 mod 60 = s ∧ a mod 1000 = f ∧
    a = h * 3600000 + m * 60000 + s * 1000 + f ∧
    0 <= h < 24 ∧ 0 <= m < 60 ∧ 0 <= s < 60 ∧ 0 <= f < 1000.
Proof.
  unfold msPerDay. intros Ha. do 4 eexists. do 4 (split; [reflexivity|]).
  change 3600000 with (1000 * (60 * 60)). change 60000 with (1000 * 60).
  rewrite <- !Z.div_div by lia.
  pose proof (Z.div_mod a 1000 ltac:(lia)). pose proof (Z.mod_pos_bound a 1000 ltac:(lia)).
  set (s := a / 1000) in *. set (f := a mod 1000) in *.
  pose proof (Z.div_mod s 60 ltac:(lia)). pose proof (Z.mod_pos_bound s 60 ltac:(lia)).
  set (m := s / 60) in *.
  pose proof (Z.div_mod m 60 ltac:(lia)). pose proof (Z.mod_pos_bound m 60 ltac:(lia)).
  revert H H0 H1 H2 H3 H4. generalize (m / 60) (m mod 60) (s mod 60). lia.
Qed.

Lemma iso_time_lexcmp a b :
  0 <= a < msPerDay → 0 <= b < msPerDay → lexcmp (iso_time a) (iso_time b) = (a ?= b).
Proof.
  intros Ha Hb. unfold iso_time.
  destruct (clock_fields a Ha) as (h&m&s&f&->&->&->&->&->&?&?&?&?).
  destruct (clock_fields b Hb) as (h'&m'&s'&f'&->&->&->&->&->&?&?&?&?).
  do 7 lex_field. rewrite lexcmp_refl.
  destruct (Z.compare_spec h h'), (Z.compare_spec m m'), (Z.compare_spec s s'),
    (Z.compare_spec f f'); symmetry;
    rewrite ?Z.compare_eq_iff, ?Z.compare_lt_iff, ?Z.compare_gt_iff; lia.
Qed.

(** Instants the format writes with a four-digit year. *)
Definition four_digit (t : Z) : Prop := 0 <= c_year (civil_of t) <= 9999.

Lemma year_text_four y : 0 <= y <= 9999 → year_text y = fixed 4 y.
Proof.
  intros H. unfold year_text. rewrite (proj2 (Z.leb_le 0 y)), (proj2 (Z.leb_le y 9999)) by lia. done.
Qed.

Lemma month_day_bounds c : civil_ok c → 1 <= c_month c <= 12 ∧ 1 <= c_day c <= 31.
Proof.
  intros (Hm&Hd1&Hd2&_). split; [done|]. split; [done|].
  assert (c_month c = 1 ∨ c_month c = 2 ∨ c_month c = 3 ∨ c_month c = 4 ∨ c_month c = 5 ∨
    c_month c = 6 ∨ c_month c = 7 ∨ c_month c = 8 ∨ c_month c = 9 ∨ c_month c = 10 ∨
    c_month c = 11 ∨ c_month c = 12) as Hc by lia.
  destruct (leap (c_year c)); destruct_or! Hc; rewrite Hc in Hd2; simpl in Hd2; lia.
Qed.

Lemma toISOString_lt t u :
  four_digit t → four_digit u → t < u → lexcmp (toISOString t) (toISOString u) = Lt.
Proof.
  intros Ht Hu Htu. pose proof (civil_of_mono t u Htu) as Hl.
  pose proof (civil_of_ok t) as Hct. pose proof (civil_of_ok u) as Hcu.
  pose proof (month_day_bounds _ Hct). pose proof (month_day_bounds _ Hcu).
  unfold four_digit in *. unfold toISOString, iso_date.
  destruct (civil_of t) as [y m d s], (civil_of u) as [y' m' d' s'].
  unfold civil_lt, civil_ok in *. cbn [c_year c_month c_day c_ms] in *.
  rewrite !year_text_four by lia. rewrite <- !(assoc_L (++)).
  do 6 lex_field. rewrite iso_time_lexcmp by tauto.
  destruct (Z.compare_spec y y'), (Z.compare_spec m m'), (Z.compare_spec d d'),
    (Z.compare_spec s s'); (done || lia).
Qed.

(** Text order is time order, for JavaScript and, the text being ASCII, for SQL. *)
Lemma toISOString_compare t u :
  four_digit t → four_digit u → lexcmp (toISOString t) (toISOString u) = (t ?= u).
Proof.
  intros Ht Hu. destruct (Z.compare_spec t u) as [->|Hl|Hl].
  - apply lexcmp_refl.
  - by apply toISOString_lt.
  - rewrite lexcmp_antisym. by rewrite toISOString_lt.
Qed.

Lemma js_lt_iso t u : four_digit t → four_digit u → js_lt (toISOString t) (toISOString u) = (t <? u).
Proof. intros. unfold js_lt, Z.ltb. by rewrite toISOString_compare. Qed.
Lemma sql_lt_iso t u : four_digit t → four_digit u → sql_lt (toISOString t) (toISOString u) = (t <? u).
Proof. intros. rewrite sql_lt_ascii by auto with wb. by apply js_lt_iso. Qed.

Lemma four_digit_between t u v : four_digit t → four_digit v → t <= u <= v → four_digit u.
Proof.
  assert (∀ a b, a <= b → c_year (civil_of a) <= c_year (civil_of b)) as Hm.
  { intros a b Hab. destruct (decide (a = b)) as [->|]; [done|].
    pose proof (civil_of_mono a b ltac:(lia)) as [?|[-> _]]; lia. }
  unfold four_digit. intros ?? [H1%Hm H2%Hm]. lia.
Qed.

(** The parse of a stamp is its instant. *)
Lemma parse_iso_toISOString t : four_digit t → parse_iso (toISOString t) = Some t.
Proof.
  intros Ht. pose proof (civil_of_ok t) as Hc. pose proof (month_day_bounds _ Hc) as [Hm Hd].
  pose proof (of_civil_of t) as Et. unfold four_digit in Ht.
  unfold toISOString, iso_date, iso_time, parse_iso.
  destruct (civil_of t) as [y m d s] eqn:Ec. simpl c_year in *. simpl c_month in *. simpl c_day in *.
  destruct Hc as (_&_&_&Hs). simpl c_ms in *. rewrite year_text_four by done.
  destruct (clock_fields s Hs) as (h&mi&sec&f&->&->&->&->&Es&?&?&?&?).
  pose proof (digits_value_fixed 4 y ltac:(simpl; lia)) as Dy.
  pose proof (digits_value_fixed 2 m ltac:(simpl; lia)) as Dm.
  pose proof (digits_value_fixed 2 d ltac:(simpl; lia)) as Dd.
  pose proof (digits_value_fixed 2 h ltac:(simpl; lia)) as Dh.
  pose proof (digits_value_fixed 2 mi ltac:(simpl; lia)) as Dmi.
  pose proof (digits_value_fixed 2 sec ltac:(simpl; lia)) as Ds.
  pose proof (digits_value_fixed 3 f ltac:(simpl; lia)) as Df.
  revert Dy Dm Dd Dh Dmi Ds Df.
  cbn [fixed app take drop length]. rewrite <- !(assoc_L (++)).
  unfold js. cbn. intros -> -> -> -> -> -> ->. cbn.
  rewrite !(proj2 (Z.leb_le _ _)) by lia. cbn. f_equal. rewrite <- Et, Es. done.
Qed.
