(* ===== verification/Hash.v ===== *)
(** * The entry hash: [packages/audit/src/hash.ts]

    The framing that turns twenty fields into the bytes of the digest, and why
    it is injective: equal digests mean equal fields, or a SHA-256 collision. *)

From S2P Require Export Platform.

Definition AUDIT_HASH_FORMAT : jsstr := js "fieldwise-sha256-v1".
Definition GENESIS_SENTINEL : jsstr := js "GENESIS".

(** [wellFormed]: the conditioning a writer applies once to what it stores. *)
Definition wellFormed (value : jsstr) : jsstr := toWellFormed value.

(** [frameField]: the byte length of the value, a colon, the value. *)
Definition frameField (s : jsstr) : jsstr :=
  dec (N.of_nat (length (utf8 s))) ++ js ":" ++ s.

(** The 20 hashed fields, [EntryHashFields]. *)
Record EntryHashFields := mkEntryHashFields {
  h_epochId : jsstr;
  h_sequenceNum : Z;
  h_prevHash : jsstr;
  h_id : jsstr;
  h_timestamp : jsstr;
  h_userId : jsstr;
  h_agentId : jsstr;
  h_sessionId : jsstr;
  h_origin : jsstr;
  h_service : jsstr;
  h_verb : jsstr;
  h_noun : jsstr;
  h_toolName : jsstr;
  h_parametersMetadata : jsstr;
  h_decision : jsstr;
  h_outcome : jsstr;
  h_errorMessage : option jsstr;
  h_decisionEntryId : option jsstr;
  h_latencyMs : Z;
  h_costUsd : option jsnum;
}.

#[export] Instance EntryHashFields_eq_dec : EqDecision EntryHashFields.
Proof. solve_decision. Defined.

(** The array [computeEntryHash] frames, each element through [String]. *)
Definition entry_strings (f : EntryHashFields) : list jsstr :=
  [ h_epochId f;
    int_to_string (h_sequenceNum f);
    h_prevHash f;
    h_id f;
    h_timestamp f;
    h_userId f;
    h_agentId f;
    h_sessionId f;
    h_origin f;
    h_service f;
    h_verb f;
    h_noun f;
    h_toolName f;
    h_parametersMetadata f;
    h_decision f;
    h_outcome f;
    default [] (h_errorMessage f);
    default [] (h_decisionEntryId f);
    int_to_string (h_latencyMs f);
    default [] (num_to_string <$> h_costUsd f) ].

Definition entry_data (f : EntryHashFields) : jsstr :=
  mjoin (frameField <$> entry_strings f).

Definition computeEntryHash `{Platform} (fields : EntryHashFields) : jsstr :=
  sha256_hex (utf8 (entry_data fields)).

(** ** Reading the frames back *)

Lemma utf8_frameField s :
  utf8 (frameField s) = dec (N.of_nat (length (utf8 s))) ++ [58%N] ++ utf8 s.
Proof.
  unfold frameField. rewrite utf8_app; [|done].
  rewrite (utf8_ascii (dec _)) by apply dec_ascii. done.
Qed.

Lemma frame_head s : ∃ c u, frameField s = c :: u ∧ is_low c = false.
Proof.
  unfold frameField. destruct (dec _) as [|c l] eqn:E; [by apply dec_nonempty in E|].
  eexists c, _. split; [done|]. pose proof (dec_digit (N.of_nat (length (utf8 s)))) as Hd.
  rewrite E in Hd. inversion_clear Hd as [|? ? Hc _]. apply is_digit_ascii in Hc.
  apply is_low_false. lia.
Qed.

(** The bytes of a sequence of frames are the frames' bytes: no surrogate of
    one field pairs with its neighbour. *)
Lemma utf8_frames l :
  utf8 (mjoin (frameField <$> l)) = mjoin ((λ s, utf8 (frameField s)) <$> l).
Proof.
  induction l as [|s l IH]; [done|].
  change (utf8 (frameField s ++ mjoin (frameField <$> l)) =
          utf8 (frameField s) ++ mjoin ((λ s, utf8 (frameField s)) <$> l)).
  rewrite utf8_app; [by rewrite IH|].
  destruct l as [|t l]; [done|]. simpl. by destruct (frame_head t) as (c&u&->&Hc).
Qed.

Lemma digits_colon_inj a b r1 r2 :
  Forall (λ c, is_digit c = true) a → Forall (λ c, is_digit c = true) b →
  a ++ 58%N :: r1 = b ++ 58%N :: r2 → a = b ∧ r1 = r2.
Proof.
  intros Ha. revert b. induction Ha as [|x a Hx Ha IH]; intros [|y b] Hb E;
    simplify_list_eq; try done.
  - by inversion_clear Hb.
  - inversion_clear Hb. edestruct IH as [-> ->]; eauto.
Qed.

(** One frame determines its value and leaves the rest of the input. *)
Lemma frame_app_inj s t r1 r2 :
  utf8 (frameField s) ++ r1 = utf8 (frameField t) ++ r2 → utf8 s = utf8 t ∧ r1 = r2.
Proof.
  rewrite !utf8_frameField, <- !(assoc_L (++)). simpl. intros E.
  apply digits_colon_inj in E as [E1 E2]; [|apply dec_digit..].
  apply (inj dec) in E1. apply app_inj_1 in E2; [done|lia].
Qed.

Lemma frame_bytes_nonempty s : utf8 (frameField s) ≠ [].
Proof. rewrite utf8_frameField. intros E%app_nil. by destruct E. Qed.

(** The concatenation of the frames determines the sequence of encoded values. *)
Lemma frames_inj l k :
  utf8 (mjoin (frameField <$> l)) = utf8 (mjoin (frameField <$> k)) →
  utf8 <$> l = utf8 <$> k.
Proof.
  rewrite !utf8_frames. revert k. induction l as [|s l IH]; intros [|t k] E; simpl in *;
    try done.
  - symmetry in E. apply app_nil in E as [E _]. by apply frame_bytes_nonempty in E.
  - apply app_nil in E as [E _]. by apply frame_bytes_nonempty in E.
  - apply frame_app_inj in E as [-> E]. f_equal; auto.
Qed.

Lemma utf8_map_inj l k :
  Forall well_formed l → Forall well_formed k → utf8 <$> l = utf8 <$> k → l = k.
Proof.
  intros Hl. revert k. induction Hl as [|s l Hs Hl IH]; intros [|t k] Hk E;
    simplify_eq/=; try done.
  inversion_clear Hk. f_equal; [by apply utf8_inj_wf|auto].
Qed.

(** ** Content equality *)

(** What the digest can tell apart: null and the empty string are one value,
    and a cost is the text it prints as. *)
Definition same_content (f g : EntryHashFields) : Prop :=
  h_epochId f = h_epochId g ∧ h_sequenceNum f = h_sequenceNum g ∧
  h_prevHash f = h_prevHash g ∧ h_id f = h_id g ∧ h_timestamp f = h_timestamp g ∧
  h_userId f = h_userId g ∧ h_agentId f = h_agentId g ∧
  h_sessionId f = h_sessionId g ∧ h_origin f = h_origin g ∧
  h_service f = h_service g ∧ h_verb f = h_verb g ∧ h_noun f = h_noun g ∧
  h_toolName f = h_toolName g ∧ h_parametersMetadata f = h_parametersMetadata g ∧
  h_decision f = h_decision g ∧ h_outcome f = h_outcome g ∧
  default [] (h_errorMessage f) = default [] (h_errorMessage g) ∧
  default [] (h_decisionEntryId f) = default [] (h_decisionEntryId g) ∧
  h_latencyMs f = h_latencyMs g ∧
  default [] (num_to_string <$> h_costUsd f) = default [] (num_to_string <$> h_costUsd g).

Lemma same_content_strings f g : same_content f g ↔ entry_strings f = entry_strings g.
Proof.
  unfold same_content, entry_strings. split.
  - intros (->&->&->&->&->&->&->&->&->&->&->&->&->&->&->&->&->&->&->&->). done.
  - intros E. injection E. intros. split_and!; try done; by apply (inj int_to_string).
Qed.

#[export] Instance same_content_equiv : Equivalence same_content.
Proof.
  split; red; setoid_rewrite same_content_strings; congruence.
Qed.

#[export] Instance computeEntryHash_proper `{Platform} :
  Proper (same_content ==> (=)) computeEntryHash.
Proof.
  intros f g E%same_content_strings. unfold computeEntryHash, entry_data. by rewrite E.
Qed.

(** Every hashed string is well-formed text. *)
Definition fields_wf (f : EntryHashFields) : Prop := Forall well_formed (entry_strings f).

#[export] Instance fields_wf_dec f : Decision (fields_wf f).
Proof. unfold fields_wf. apply _. Defined.

(** These two texts, as bytes, are distinct and have one digest. *)
Definition collide `{Platform} (x y : jsstr) : Prop :=
  utf8 x ≠ utf8 y ∧ sha256_hex (utf8 x) = sha256_hex (utf8 y).

Lemma entry_data_binds f g :
  fields_wf f → fields_wf g → (utf8 (entry_data f) = utf8 (entry_data g) ↔ same_content f g).
Proof.
  intros Hf Hg. rewrite same_content_strings. unfold entry_data. split; [|by intros ->].
  intros Ed. apply utf8_map_inj; auto. by apply frames_inj.
Qed.

Lemma hash_binds_content `{Platform} f g :
  fields_wf f → fields_wf g → computeEntryHash f = computeEntryHash g →
  same_content f g ∨ collide (entry_data f) (entry_data g).
Proof.
  intros Hf Hg E. destruct (decide (utf8 (entry_data f) = utf8 (entry_data g))) as [Ed|Ed].
  - left. by apply entry_data_binds.
  - right. by split.
Qed.

(** Conditioning the hashed strings leaves the digest alone. *)
Definition condition (f : EntryHashFields) : EntryHashFields := {|
  h_epochId := wellFormed (h_epochId f);
  h_sequenceNum := h_sequenceNum f;
  h_prevHash := wellFormed (h_prevHash f);
  h_id := wellFormed (h_id f);
  h_timestamp := wellFormed (h_timestamp f);
  h_userId := wellFormed (h_userId f);
  h_agentId := wellFormed (h_agentId f);
  h_sessionId := wellFormed (h_sessionId f);
  h_origin := wellFormed (h_origin f);
  h_service := wellFormed (h_service f);
  h_verb := wellFormed (h_verb f);
  h_noun := wellFormed (h_noun f);
  h_toolName := wellFormed (h_toolName f);
  h_parametersMetadata := wellFormed (h_parametersMetadata f);
  h_decision := wellFormed (h_decision f);
  h_outcome := wellFormed (h_outcome f);
  h_errorMessage := wellFormed <$> h_errorMessage f;
  h_decisionEntryId := wellFormed <$> h_decisionEntryId f;
  h_latencyMs := h_latencyMs f;
  h_costUsd := h_costUsd f |}.

Lemma utf8_frame_wellFormed s :
  utf8 (frameField (wellFormed s)) = utf8 (frameField s).
Proof. rewrite !utf8_frameField. unfold wellFormed. by rewrite utf8_toWellFormed. Qed.

Lemma utf8_frame_default o :
  utf8 (frameField (default [] (wellFormed <$> o))) = utf8 (frameField (default [] o)).
Proof. destruct o; [apply utf8_frame_wellFormed|done]. Qed.

Lemma default_wellFormed o :
  match o with Some s => units s | None => True end →
  well_formed (default [] (wellFormed <$> o)).
Proof. destruct o; simpl; [apply toWellFormed_wf|]. intros _. by apply (ascii_well_formed []), Forall_nil_2. Qed.

(** All the strings of the entry are JavaScript strings (16-bit units). *)
Definition fields_units (f : EntryHashFields) : Prop := Forall units (entry_strings f).

Lemma condition_wf f : fields_units f → fields_wf (condition f).
Proof.
  unfold fields_units, fields_wf, entry_strings. intros Hu.
  decompose_Forall_hyps.
  repeat (apply Forall_cons; split); try apply Forall_nil; simpl;
    try apply toWellFormed_wf; try done;
    try (apply ascii_well_formed, int_to_string_ascii);
    try (apply default_wellFormed; by case_match).
  destruct (h_costUsd f); simpl; [|done]. apply ascii_well_formed, num_to_string_ascii.
Qed.

(** ** Properties *)

(** C31: the entry hash binds its twenty fields. For two entries of well-formed text
    the bytes that are hashed are the same exactly when the entries agree on every field
    (null and the empty string being one value): no field value, however chosen, can
    shift a frame boundary into its neighbour. So the two entries have one digest exactly
    when they agree on every field, or when their own two framed texts differ and
    SHA-256 gives both the same digest. *)
Theorem entry_hash_binds_fields `{Platform} f g :
  fields_wf f → fields_wf g →
  (utf8 (entry_data f) = utf8 (entry_data g) ↔ same_content f g) ∧
  (computeEntryHash f = computeEntryHash g ↔ same_content f g ∨ collide (entry_data f) (entry_data g)).
Proof.
  intros Hf Hg. split; [by apply entry_data_binds|]. split; [by apply hash_binds_content|].
  intros [->%computeEntryHash_proper|[_ E]]; done.
Qed.

(** Conditioning is a write-path rule, not a format rule. Replacing every
    unpaired surrogate before hashing changes no digest, and the conditioned
    entry is well-formed text. *)
Theorem conditioning_preserves_digest `{Platform} f :
  computeEntryHash (condition f) = computeEntryHash f ∧
  (fields_units f → fields_wf (condition f)).
Proof.
  split; [|apply condition_wf]. unfold computeEntryHash, entry_data. f_equal.
  rewrite !utf8_frames. unfold entry_strings, condition. simpl.
  by rewrite !utf8_frame_wellFormed, !utf8_frame_default.
Qed.

(** ** A concrete entry *)

Definition demo_fields (epoch : jsstr) (seq : Z) (prev id decision outcome : jsstr)
    (referent : option jsstr) : EntryHashFields := {|
  h_epochId := epoch; h_sequenceNum := seq; h_prevHash := prev; h_id := id;
  h_timestamp := js "t"; h_userId := js "u"; h_agentId := js "a"; h_sessionId := js "s";
  h_origin := js "o"; h_service := js "mail"; h_verb := js "send"; h_noun := [0x4E2D%N; 0xD83D%N; 0xDE00%N];
  h_toolName := js "t"; h_parametersMetadata := js "{}"; h_decision := decision;
  h_outcome := outcome; h_errorMessage := None; h_decisionEntryId := referent;
  h_latencyMs := 7; h_costUsd := Some (JsNum 5 (-7)) |}.

(** A letter moved from one field to the next, and a null for an empty string. *)
Lemma entry_hash_binds_fields_witness :
  let entry := demo_fields (js "e") 0 GENESIS_SENTINEL (js "1") in
  let f := entry (js "allow") (js "ok") None in
  let g := entry (js "allowo") (js "k") None in
  let h := entry (js "allow") (js "ok") (Some []) in
  (computeEntryHash f = computeEntryHash g ↔ same_content f g ∨ collide (entry_data f) (entry_data g)) ∧
  ¬ same_content f g ∧ f ≠ h ∧ computeEntryHash f = computeEntryHash h.
Proof.
  intros entry f g h. split; [|split; [|split; [by_compute|]]].
  - apply entry_hash_binds_fields; by_compute.
  - intros (_&_&_&_&_&_&_&_&_&_&_&_&_&_&E&_). discriminate E.
  - apply entry_hash_binds_fields; [by_compute|by_compute|]. left. by_compute.
Defined.
