(* ===== verification/VerifyChain.v ===== *)
(** * The chain verifier: [packages/audit/src/verify-chain.ts]

    [verifyChainRange] walks a range of audit entries once and reports every
    break it finds. The file states what an unbroken range is without reference
    to the walk ([intact]), proves that the walk decides it, and derives what a
    clean verdict establishes and what it does not. *)

From S2P Require Export Hash.

(** ** Data *)

(** [ChainEntry]: the hashed fields and the two excluded columns. *)
Record ChainEntry := mkChainEntry {
  ce_fields :> EntryHashFields;
  ce_hash : jsstr;
  ce_epochPrevHash : option jsstr;
}.

#[export] Instance ChainEntry_eq_dec : EqDecision ChainEntry.
Proof. solve_decision. Defined.

Inductive LowerEdge :=
  | LowerClosed
  | GenesisShaped
  | LowerUnchecked (at_ : option (jsstr * Z)).

Inductive UpperEdge :=
  | UpperClosed
  | UpperUnchecked (at_ : option (jsstr * Z)).

Inductive BreakKind :=
  | entry_hash | prev_hash | genesis_sentinel | epoch_link | epoch_link_null.

#[export] Instance BreakKind_eq_dec : EqDecision BreakKind.
Proof. solve_decision. Defined.

Record ChainBreak := mkBreak {
  b_kind : BreakKind;
  b_epochId : jsstr;
  b_sequenceNum : Z;
  b_expected : option jsstr;
  b_actual : option jsstr;
  b_rowsMissing : bool;
}.

Record ChainVerdict := mkVerdict {
  entriesChecked : nat;
  epochsCovered : list jsstr;
  lowerEdge : LowerEdge;
  upperEdge : UpperEdge;
  breaks : list ChainBreak;
}.

(** ** The walk *)

Section walk.
Context `{Platform}.

Definition break_at (e : ChainEntry) (k : BreakKind) (expected actual : option jsstr)
    (missing : bool) : ChainBreak :=
  mkBreak k (h_epochId e) (h_sequenceNum e) expected actual missing.

(** Rule 1, the recomputation. *)
Definition rule_hash (e : ChainEntry) : list ChainBreak :=
  let recomputed := computeEntryHash e in
  if decide (recomputed = ce_hash e) then []
  else [break_at e entry_hash (Some recomputed) (Some (ce_hash e)) false].

(** Rule 2, the sentinel on a row numbered zero. *)
Definition rule_sentinel (e : ChainEntry) : list ChainBreak :=
  if (h_sequenceNum e =? 0)%Z then
    if decide (h_prevHash e = GENESIS_SENTINEL) then []
    else [break_at e genesis_sentinel (Some GENESIS_SENTINEL) (Some (h_prevHash e)) false]
  else [].

(** Rule 3, the cross-epoch link of a genesis row to [prev]. *)
Definition rule_epoch (prev e : ChainEntry) : list ChainBreak :=
  match ce_epochPrevHash e with
  | None => [break_at e epoch_link_null (Some (ce_hash prev)) None false]
  | Some link =>
      if decide (link = ce_hash prev) then []
      else [break_at e epoch_link (Some (ce_hash prev)) (Some link) false]
  end.

(** An epoch that opens mid-sequence. *)
Definition rule_headless (e : ChainEntry) : list ChainBreak :=
  [break_at e prev_hash None (Some (h_prevHash e)) true].

Definition rule_prev (prev e : ChainEntry) : list ChainBreak :=
  if decide (h_prevHash e = ce_hash prev) then []
  else [break_at e prev_hash (Some (ce_hash prev)) (Some (h_prevHash e))
          (negb (h_sequenceNum prev + 1 =? h_sequenceNum e)%Z)].

(** The link of [e] to its predecessor in the range. *)
Definition rule_link (prev e : ChainEntry) : list ChainBreak :=
  if decide (h_epochId prev = h_epochId e) then
    if (h_sequenceNum e =? 0)%Z then [] else rule_prev prev e
  else if (h_sequenceNum e =? 0)%Z then rule_epoch prev e
  else rule_headless e.

(** The upper seam against the boundary entry: unlike [rule_link] it has no
    exception for a row numbered zero inside one epoch. *)
Definition rule_seam (newest boundary : ChainEntry) : list ChainBreak :=
  if decide (h_epochId boundary = h_epochId newest) then rule_prev newest boundary
  else if (h_sequenceNum boundary =? 0)%Z then rule_epoch newest boundary
  else rule_headless boundary.

(** One iteration of the loop, and the loop. *)
Definition check_entry (prev : option ChainEntry) (e : ChainEntry) : list ChainBreak :=
  rule_hash e ++ rule_sentinel e ++
  match prev with Some p => rule_link p e | None => [] end.

Fixpoint check_entries (prev : option ChainEntry) (es : list ChainEntry) : list ChainBreak :=
  match es with
  | [] => []
  | e :: rest => check_entry prev e ++ check_entries (Some e) rest
  end.

Definition cover_epoch (covered : list jsstr) (e : ChainEntry) : list jsstr :=
  if decide (last covered = Some (h_epochId e)) then covered
  else covered ++ [h_epochId e].

Definition verifyChainRange (entries : list ChainEntry) (boundaryEntry : option ChainEntry)
    : ChainVerdict :=
  match entries with
  | [] => mkVerdict 0 [] (LowerUnchecked None) (UpperUnchecked None) []
  | oldest :: _ =>
      let lower :=
        if (h_sequenceNum oldest =? 0)%Z && bool_decide (ce_epochPrevHash oldest = None)
        then GenesisShaped
        else LowerUnchecked (Some (h_epochId oldest, h_sequenceNum oldest)) in
      let newest := List.last entries oldest in
      let '(upper, seam) :=
        match boundaryEntry with
        | Some b => (UpperClosed, rule_seam newest b)
        | None => (UpperUnchecked (Some (h_epochId newest, h_sequenceNum newest)), [])
        end in
      mkVerdict (length entries) (foldl cover_epoch [] entries) lower upper
        (check_entries None entries ++ seam)
  end.
End walk.

(** ** What an unbroken range is *)

Section intact.
Context `{Platform}.

(** A row that is its own digest, and carries the sentinel if numbered zero. *)
Definition sound_row (e : ChainEntry) : Prop :=
  ce_hash e = computeEntryHash e ∧
  (h_sequenceNum e = 0%Z → h_prevHash e = GENESIS_SENTINEL).

(** [e] follows [p]: the next row of its epoch, or the genesis of a later one. *)
Inductive follows (p e : ChainEntry) : Prop :=
  | follows_in_epoch :
      h_epochId p = h_epochId e → h_sequenceNum e ≠ 0%Z →
      h_prevHash e = ce_hash p → follows p e
  | follows_restart :
      h_epochId p = h_epochId e → h_sequenceNum e = 0%Z → follows p e
  | follows_epoch :
      h_epochId p ≠ h_epochId e → h_sequenceNum e = 0%Z →
      ce_epochPrevHash e = Some (ce_hash p) → follows p e.

Inductive intact : list ChainEntry → Prop :=
  | intact_nil : intact []
  | intact_one e : sound_row e → intact [e]
  | intact_cons e f l : sound_row e → follows e f → intact (f :: l) → intact (e :: f :: l).

(** A seam the boundary check accepts. *)
Definition seam_ok (p b : ChainEntry) : Prop :=
  if decide (h_epochId b = h_epochId p) then h_prevHash b = ce_hash p
  else h_sequenceNum b = 0%Z ∧ ce_epochPrevHash b = Some (ce_hash p).

Lemma rule_hash_nil e : rule_hash e = [] ↔ ce_hash e = computeEntryHash e.
Proof. unfold rule_hash. case_decide; split; congruence. Qed.

Lemma rule_sentinel_nil e :
  rule_sentinel e = [] ↔ (h_sequenceNum e = 0%Z → h_prevHash e = GENESIS_SENTINEL).
Proof.
  unfold rule_sentinel. destruct (Z.eqb_spec (h_sequenceNum e) 0); [|naive_solver].
  case_decide; naive_solver.
Qed.

Lemma rule_prev_nil p e : rule_prev p e = [] ↔ h_prevHash e = ce_hash p.
Proof. unfold rule_prev. case_decide; naive_solver. Qed.

Lemma rule_epoch_nil p e : rule_epoch p e = [] ↔ ce_epochPrevHash e = Some (ce_hash p).
Proof. unfold rule_epoch. case_match; [case_decide|]; naive_solver. Qed.

Lemma rule_link_nil p e : rule_link p e = [] ↔ follows p e.
Proof.
  unfold rule_link. case_decide as Ep; destruct (Z.eqb_spec (h_sequenceNum e) 0) as [Es|Es].
  - split; [by constructor 2|done].
  - rewrite rule_prev_nil. split; [by constructor 1|]. by inversion 1.
  - rewrite rule_epoch_nil. split; [by constructor 3|]. by inversion 1.
  - split; [done|]. by inversion 1.
Qed.

Lemma seam_follows p b : seam_ok p b → follows p b.
Proof.
  unfold seam_ok. case_decide.
  - intros Hp. destruct (decide (h_sequenceNum b = 0%Z)); [by constructor 2|by constructor 1].
  - intros [??]. by constructor 3.
Qed.

Lemma rule_seam_nil p b : rule_seam p b = [] ↔ seam_ok p b.
Proof.
  unfold rule_seam, seam_ok. case_decide; [apply rule_prev_nil|].
  destruct (Z.eqb_spec (h_sequenceNum b) 0); [rewrite rule_epoch_nil; naive_solver|].
  naive_solver.
Qed.

Lemma check_entry_nil prev e :
  check_entry prev e = [] ↔
  sound_row e ∧ match prev with Some p => follows p e | None => True end.
Proof.
  unfold check_entry, sound_row.
  rewrite !app_nil, rule_hash_nil, rule_sentinel_nil, (and_assoc _ _ (_ = [])).
  destruct prev; [by rewrite rule_link_nil|naive_solver].
Qed.

Lemma check_entries_nil prev es :
  check_entries prev es = [] ↔
  intact es ∧
  match prev, es with Some p, e :: _ => follows p e | _, _ => True end.
Proof.
  revert prev. induction es as [|e es IH]; intros prev; simpl.
  { split; [intros _; split; [constructor|by destruct prev]|done]. }
  rewrite app_nil, check_entry_nil, IH. split.
  - intros [[??] [Hi Hf]]. split; [|done]. destruct es; by constructor.
  - inversion 1 as [Hi Hp]. inversion Hi; simplify_eq; split_and!; try done. constructor.
Qed.

Lemma verify_breaks es b :
  breaks (verifyChainRange es b) =
  check_entries None es ++
  match last es, b with Some p, Some b => rule_seam p b | _, _ => [] end.
Proof.
  destruct es as [|e es]; [done|]. unfold verifyChainRange.
  assert (last (e :: es) = Some (List.last (e :: es) e)) as ->.
  { generalize e at 3. revert e. induction es as [|f es IH]; intros e d; [done|].
    rewrite last_cons_cons. apply IH. }
  by destruct b.
Qed.
Lemma verify_lower e l l' b b' :
  lowerEdge (verifyChainRange (e :: l) b) = lowerEdge (verifyChainRange (e :: l') b').
Proof. unfold verifyChainRange. by destruct b, b'. Qed.
Lemma verify_count es b : entriesChecked (verifyChainRange es b) = length es.
Proof. destruct es; [done|]. unfold verifyChainRange. by destruct b. Qed.
End intact.

(** ** Lemmas on ranges *)

Section lemmas.
Context `{Platform}.
Implicit Types (es l k : list ChainEntry) (e f p : ChainEntry).

Lemma intact_app_inv l k : intact (l ++ k) → intact l ∧ intact k.
Proof.
  induction l as [|e l IH]; simpl; [split; [constructor|done]|].
  destruct l as [|f l]; simpl in *.
  - destruct k as [|g k]; inversion_clear 1; split; auto; by constructor.
  - inversion_clear 1. destruct IH; [done|]. split; [by constructor|done].
Qed.

Lemma intact_rows l : intact l → Forall sound_row l.
Proof. induction 1; auto. Qed.

Lemma intact_app l k :
  intact l → intact k →
  match last l, head k with Some p, Some e => follows p e | _, _ => True end →
  intact (l ++ k).
Proof.
  intros Hl Hk. induction Hl as [|e He|e f l He Hf Hl IH]; simpl; [done|..].
  - destruct k; simpl; intros; by constructor.
  - intros Hlast. constructor; auto.
Qed.

Lemma check_entries_app prev l k :
  check_entries prev (l ++ k) =
  check_entries prev l ++
  check_entries (match last l with Some p => Some p | None => prev end) k.
Proof.
  revert prev. induction l as [|e l IH]; intros prev; simpl; [done|].
  rewrite IH, (assoc_L (++)). f_equal. f_equal. destruct l; [done|].
  rewrite last_cons_cons. by destruct (last _) eqn:E; [|apply last_None in E].
Qed.

(** Ascending rows of one epoch. *)
Definition ascending l : Prop := StronglySorted (λ e f, h_sequenceNum e < h_sequenceNum f)%Z l.
Definition one_epoch l : Prop := ∃ ep, Forall (λ e, h_epochId e = ep) l.
Definition opens_at_genesis l : Prop :=
  match l with g :: _ => h_sequenceNum g = 0%Z | [] => False end.
Definition rows_wf l : Prop := Forall (λ e, fields_wf e) l.

Lemma ascending_snoc l e f : ascending (l ++ [e]) → f ∈ l → (h_sequenceNum f < h_sequenceNum e)%Z.
Proof.
  intros Hs Hf. unfold ascending in Hs. apply list_elem_of_split in Hf as (l1&l2&->).
  induction l1 as [|g l1 IH]; simpl in *.
  - inversion_clear Hs as [|? ? _ Hall]. apply Forall_app in Hall as [_ Hall].
    by inversion_clear Hall.
  - inversion_clear Hs. auto.
Qed.

Lemma ascending_app_l l k : ascending (l ++ k) → ascending l.
Proof.
  induction l as [|e l IH]; simpl; [constructor|]. intros Hs.
  inversion_clear Hs as [|? ? Hs' Hall]. apply Forall_app in Hall as [Hall _].
  constructor; [by apply IH|done].
Qed.

(** The last row of a clean epoch links to the row before it. *)
Lemma tail_link l p e :
  intact (l ++ [p; e]) → one_epoch (l ++ [p; e]) → h_sequenceNum e ≠ 0%Z →
  h_prevHash e = ce_hash p.
Proof.
  intros [_ Hi]%intact_app_inv [ep He] Hs. apply Forall_app in He as [_ He].
  inversion_clear Hi as [| |? ? ? _ Hf _]. decompose_Forall_hyps.
  destruct Hf; congruence.
Qed.

(** A whole epoch as stored: ascending from its genesis, clean, in
    well-formed text. *)
Record clean_epoch l : Prop := {
  clean_intact : intact l;
  clean_one_epoch : one_epoch l;
  clean_ascending : ascending l;
  clean_genesis : opens_at_genesis l;
  clean_wf : rows_wf l;
}.

Lemma clean_epoch_pred l p e : clean_epoch (l ++ [p; e]) → clean_epoch (l ++ [p]).
Proof.
  replace (l ++ [p; e]) with ((l ++ [p]) ++ [e]) by by rewrite <- (assoc_L (++)).
  intros [Hi [ep He] Ha Hg Hw]. split.
  - by apply intact_app_inv in Hi as [? _].
  - exists ep. by apply Forall_app in He as [? _].
  - by apply ascending_app_l in Ha.
  - by destruct l.
  - by apply Forall_app in Hw as [? _].
Qed.

(** Only the genesis is numbered zero. *)
Lemma clean_epoch_last_zero l e :
  clean_epoch (l ++ [e]) → h_sequenceNum e = 0%Z → l = [].
Proof.
  intros [_ _ Ha Hg _] He. destruct l as [|g l]; [done|]. simpl in Hg.
  exfalso. pose proof (ascending_snoc _ _ g Ha ltac:(set_solver)). lia.
Qed.

Lemma clean_epoch_last l e : clean_epoch (l ++ [e]) → sound_row e ∧ fields_wf e.
Proof.
  intros [Hi _ _ _ Hw]. apply intact_rows, Forall_app in Hi as [_ Hi].
  apply Forall_app in Hw as [_ Hw]. by decompose_Forall_hyps.
Qed.

Lemma rows_bind e f :
  sound_row e → sound_row f → fields_wf e → fields_wf f → ce_hash e = ce_hash f →
  same_content e f ∨ collide (entry_data e) (entry_data f).
Proof. intros [He _] [Hf _] ?? E. apply hash_binds_content; congruence. Qed.

(** A row of the one and a row of the other whose framed texts collide. *)
Definition rows_collide (l k : list ChainEntry) : Prop :=
  ∃ e f, e ∈ l ∧ f ∈ k ∧ collide (entry_data e) (entry_data f).
Lemma rows_collide_app l k l' k' : rows_collide l k → rows_collide (l ++ l') (k ++ k').
Proof. intros (e&f&?&?&?). exists e, f. set_solver. Qed.
Lemma last_rows_collide l k e f : collide (entry_data e) (entry_data f) → rows_collide (l ++ [e]) (k ++ [f]).
Proof. intros Hc. exists e, f. set_solver. Qed.

Lemma tip_binds l k e f :
  clean_epoch (l ++ [e]) → clean_epoch (k ++ [f]) → ce_hash e = ce_hash f →
  Forall2 (λ x y : ChainEntry, same_content x y) (l ++ [e]) (k ++ [f]) ∨ rows_collide (l ++ [e]) (k ++ [f]).
Proof.
  revert e f k. induction l as [|p l IH] using rev_ind; intros e f k Hl Hk Eh;
    destruct (clean_epoch_last _ _ Hl) as [Se We], (clean_epoch_last _ _ Hk) as [Sf Wf];
    (destruct (rows_bind e f) as [Hc|]; [done..| |by right; apply last_rows_collide]);
    pose proof Hc as (_&Es&Ep&_).
  - pose proof (clean_genesis _ Hl) as Hz. simpl in Hz.
    left. assert (k = []) as ->; [|by constructor; [|constructor]].
    eapply clean_epoch_last_zero; [exact Hk|congruence].
  - assert (h_sequenceNum e ≠ 0%Z) as He.
    { intros Hz. apply (clean_epoch_last_zero _ _ Hl) in Hz. by destruct l. }
    destruct k as [|q k _] using rev_ind.
    { pose proof (clean_genesis _ Hk) as Hz. simpl in Hz. congruence. }
    rewrite <- (assoc_L (++)) in Hl, Hk. simpl in Hl, Hk.
    destruct (IH p q k) as [HF|]; [by eapply clean_epoch_pred..| | |by right; apply rows_collide_app].
    + rewrite <- (tail_link l p e), <- (tail_link k q f); try done;
        try apply Hl; try apply Hk. congruence.
    + left. apply Forall2_app; [done|]. by constructor; [|constructor].
Qed.
End lemmas.

(** ** Pages *)

Section pages.
Context `{Platform}.

(** The one case the seam check and the in-range check treat differently: a
    row numbered zero that continues its predecessor's epoch. *)
Definition seam_proper (p e : ChainEntry) : Prop :=
  h_epochId p = h_epochId e → h_sequenceNum e ≠ 0%Z.

Lemma rule_seam_link p e : seam_proper p e → rule_seam p e = rule_link p e.
Proof.
  intros Hp. unfold rule_seam, rule_link.
  repeat case_decide; try congruence.
  destruct (Z.eqb_spec (h_sequenceNum e) 0); [by destruct Hp|done].
Qed.

Lemma check_entry_split p e :
  check_entry (Some p) e ≡ₚ rule_link p e ++ check_entry None e.
Proof.
  unfold check_entry. rewrite app_nil_r, (assoc_L (++) (rule_hash e)). apply Permutation_app_comm.
Qed.

Lemma last_list_last {A} (l : list A) d x : last l = Some x → List.last l d = x.
Proof.
  induction l as [|a l IH]; [done|]. destruct l; [simpl; congruence|].
  rewrite last_cons_cons. done.
Qed.
End pages.

(** ** Properties *)

Section properties.
Context `{Platform}.

(** A clean verdict in the model's terms. *)
Lemma clean_verdict es b :
  breaks (verifyChainRange es b) = [] ↔
  intact es ∧ match last es, b with Some p, Some e => seam_ok p e | _, _ => True end.
Proof.
  rewrite verify_breaks, app_nil, check_entries_nil.
  destruct (last es), b; rewrite ?rule_seam_nil; destruct es; naive_solver.
Qed.

(** The verifier decides integrity. A range verifies with no break exactly
    when every row is its own digest, every row numbered zero carries the
    sentinel, every row follows the one before it, and the boundary entry
    follows the newest row. *)
Theorem verify_clean_iff es b :
  breaks (verifyChainRange es b) = [] ↔
  intact es ∧ match last es, b with Some p, Some e => seam_ok p e | _, _ => True end.
Proof. apply clean_verdict. Qed.

(** Paging does not weaken verification. Checking an older page against
    the first row of the newer page, and then the newer page, reports exactly
    the breaks of the whole range (in another order), with the older page's
    lower edge and the newer page's upper edge. *)
Lemma verify_pages older newer e b :
  older ≠ [] → head newer = Some e →
  (∀ p, last older = Some p → seam_proper p e) →
  breaks (verifyChainRange (older ++ newer) b) ≡ₚ
    breaks (verifyChainRange older (Some e)) ++ breaks (verifyChainRange newer b) ∧
  lowerEdge (verifyChainRange (older ++ newer) b) = lowerEdge (verifyChainRange older (Some e)) ∧
  upperEdge (verifyChainRange (older ++ newer) b) = upperEdge (verifyChainRange newer b).
Proof.
  destruct older as [|o older]; [done|]. destruct newer as [|e' newer]; [done|].
  intros _ [= ->] Hp. split_and!.
  - rewrite !verify_breaks, check_entries_app. cbn [check_entries].
    destruct (last (o :: older)) as [p|] eqn:El; [|by apply last_None in El].
    rewrite last_app, (rule_seam_link p e), check_entry_split by auto.
    assert (∃ q, last (e :: newer) = Some q) as [q ->].
    { apply last_is_Some. done. }
    by rewrite !(assoc_L (++)).
  - unfold verifyChainRange. simpl. by destruct b.
  - unfold verifyChainRange.
    assert (∃ q, last (e :: newer) = Some q) as [q Eq] by by apply last_is_Some.
    assert (∀ d, List.last (o :: older ++ e :: newer) d = q) as Hl.
    { intros d. apply last_list_last. by rewrite app_comm_cons, last_app, Eq. }
    simpl app. cbv beta iota zeta. rewrite Hl, (last_list_last _ _ _ Eq). by destruct b.
Qed.

(** Checked by pages, a range has every break it has as a whole, whatever its rows: where
    the two checks of a link differ the one inside a range finds nothing. *)
Lemma verify_pages_sub older newer e b :
  older ≠ [] → head newer = Some e →
  breaks (verifyChainRange (older ++ newer) b) ⊆+
    breaks (verifyChainRange older (Some e)) ++ breaks (verifyChainRange newer b).
Proof.
  intros Hne He. destruct (last older) as [p|] eqn:El; [|by apply last_None in El].
  destruct (decide (h_epochId p = h_epochId e ∧ h_sequenceNum e = 0%Z)) as [[Ee Ez]|Hn].
  2:{ apply Permutation_submseteq, verify_pages; [done..|]. intros q Hq Eq Hz. apply Hn. by simplify_eq. }
  destruct newer as [|e' newer]; [done|]. injection He as ->.
  rewrite !verify_breaks, check_entries_app, El. cbn [check_entries].
  assert (check_entry (Some p) e = check_entry None e) as ->.
  { unfold check_entry, rule_link. by rewrite decide_True, (proj2 (Z.eqb_eq _ _) Ez). }
  rewrite last_app. destruct (last (e :: newer)) as [q|] eqn:Eq; [|by apply last_None in Eq].
  rewrite <- !(assoc_L (++)). apply submseteq_app; [done|]. by apply submseteq_inserts_l.
Qed.

(** A chain tip binds its epoch. Two stored epochs that both verify from
    their genesis and end in one tip digest have the same rows, field by
    field, or a row of each whose framed texts collide. *)
Theorem epoch_tip_binds_history l k e f :
  ascending (l ++ [e]) → ascending (k ++ [f]) →
  one_epoch (l ++ [e]) → one_epoch (k ++ [f]) →
  opens_at_genesis (l ++ [e]) → opens_at_genesis (k ++ [f]) →
  rows_wf (l ++ [e]) → rows_wf (k ++ [f]) →
  breaks (verifyChainRange (l ++ [e]) None) = [] →
  breaks (verifyChainRange (k ++ [f]) None) = [] →
  ce_hash e = ce_hash f →
  Forall2 (λ x y : ChainEntry, same_content x y) (l ++ [e]) (k ++ [f]) ∨ rows_collide (l ++ [e]) (k ++ [f]).
Proof.
  intros ???????? [Hl _]%clean_verdict [Hk _]%clean_verdict.
  by apply tip_binds.
Qed.

(** Editing a stored row is reported where it happened. In any range,
    replacing a row that was its own digest by one with the same stored digest
    and other content adds an [entry_hash] break naming that row, or the framed
    texts of the two collide. *)
Theorem mutated_row_reported l (r r' : ChainEntry) k b :
  sound_row r → fields_wf r → fields_wf r' →
  ce_hash r' = ce_hash r → ¬ same_content r r' →
  break_at r' entry_hash (Some (computeEntryHash r')) (Some (ce_hash r')) false
    ∈ breaks (verifyChainRange (l ++ r' :: k) b) ∨ collide (entry_data r) (entry_data r').
Proof.
  intros [Hr _] Wr Wr' Eh Hc. destruct (decide (computeEntryHash r' = ce_hash r')) as [E|E].
  - right. destruct (hash_binds_content r r'); congruence.
  - left. rewrite verify_breaks, check_entries_app. simpl. unfold check_entry, rule_hash.
    rewrite decide_False by done. set_solver.
Qed.

(** Deleting a row from the inside of an epoch is reported as a missing row
    at the row that followed it, or its framed text collides with that of the row
    before it. *)
Theorem deleted_row_reported l p r n k b :
  one_epoch [p; r; n] → rows_wf [p; r] →
  h_sequenceNum r = (h_sequenceNum p + 1)%Z → h_sequenceNum n = (h_sequenceNum r + 1)%Z →
  (0 <= h_sequenceNum p)%Z →
  breaks (verifyChainRange (l ++ p :: r :: n :: k) b) = [] →
  break_at n prev_hash (Some (ce_hash p)) (Some (h_prevHash n)) true
    ∈ breaks (verifyChainRange (l ++ p :: n :: k) b) ∨ collide (entry_data p) (entry_data r).
Proof.
  intros [ep He] Hw Er En Hp [Hi _]%clean_verdict.
  apply intact_app_inv in Hi as [_ Hi].
  inversion_clear Hi as [| |? ? ? Sp _ Hi']. inversion_clear Hi' as [| |? ? ? Sr Fn _].
  unfold rows_wf in Hw. decompose_Forall_hyps.
  assert (h_prevHash n = ce_hash r) as Hn by (destruct Fn; (congruence || lia)).
  destruct (decide (ce_hash p = ce_hash r)) as [Eh|Eh].
  - right. destruct (rows_bind p r) as [(_&Es&_)|]; try done. lia.
  - left. rewrite verify_breaks, check_entries_app. simpl.
    unfold check_entry, rule_link. rewrite decide_True by congruence.
    destruct (Z.eqb_spec (h_sequenceNum n) 0); [lia|].
    unfold rule_prev. rewrite decide_False by congruence.
    replace (negb _) with true; [set_solver|].
    symmetry. apply negb_true_iff, Z.eqb_neq. lia.
Qed.

(** A tip of a later epoch does not bind an earlier epoch. Whatever rows
    replace the older epochs of a clean log, rewriting the one unhashed link
    of the next genesis makes the log verify again, with every digest of the
    newer epoch, tip included, unchanged. *)
Theorem older_epochs_replaceable older older' p' g newer :
  breaks (verifyChainRange (older ++ g :: newer) None) = [] →
  breaks (verifyChainRange (older' ++ [p']) None) = [] →
  h_sequenceNum g = 0%Z → h_epochId p' ≠ h_epochId g →
  let g' := mkChainEntry (ce_fields g) (ce_hash g) (Some (ce_hash p')) in
  breaks (verifyChainRange ((older' ++ [p']) ++ g' :: newer) None) = [] ∧
  ce_hash <$> (g' :: newer) = ce_hash <$> (g :: newer) ∧
  computeEntryHash g' = computeEntryHash g.
Proof.
  intros [Hi _]%clean_verdict [Ho _]%clean_verdict Hg Hne g'.
  split_and!; [|done..]. apply clean_verdict. split; [|by case_match].
  apply intact_app_inv in Hi as [_ Hi]. apply intact_app; [done|..].
  - inversion Hi as [|? Sg E|? f ? Sg Fg Hf E]; subst; constructor; try done.
    by destruct Fg; [constructor 1|constructor 2|constructor 3].
  - rewrite last_snoc. simpl. by constructor 3.
Qed.
End properties.

(** ** Concrete chains *)

Definition demo_row (f : EntryHashFields) (link : option jsstr) : ChainEntry :=
  mkChainEntry f (computeEntryHash f) link.
Definition demo_entry (epoch : jsstr) (seq : Z) (prev : jsstr) (link : option jsstr) :=
  demo_row (demo_fields epoch seq prev (dec (Z.to_N seq)) (js "deny") (js "error") None) link.

Definition demo_a0 := demo_entry (js "a") 0 GENESIS_SENTINEL None.
Definition demo_a1 := demo_entry (js "a") 1 (ce_hash demo_a0) None.
Definition demo_a2 := demo_entry (js "a") 2 (ce_hash demo_a1) None.
Definition demo_b0 := demo_entry (js "b") 0 GENESIS_SENTINEL (Some (ce_hash demo_a1)).

Lemma epoch_tip_binds_history_witness :
  Forall2 (λ x y : ChainEntry, same_content x y) ([demo_a0] ++ [demo_a1]) ([demo_a0] ++ [demo_a1])
  ∨ rows_collide ([demo_a0] ++ [demo_a1]) ([demo_a0] ++ [demo_a1]).
Proof.
  assert (ascending ([demo_a0] ++ [demo_a1])) by (repeat constructor).
  assert (one_epoch ([demo_a0] ++ [demo_a1])) by (exists (js "a"); repeat constructor).
  assert (rows_wf ([demo_a0] ++ [demo_a1])) by by_compute.
  apply epoch_tip_binds_history; try assumption; vm_compute; reflexivity.
Defined.

Lemma mutated_row_reported_witness :
  let r' := mkChainEntry (demo_fields (js "a") 1 (ce_hash demo_a0) (js "1") (js "allow") (js "ok") None)
              (ce_hash demo_a1) None in
  break_at r' entry_hash (Some (computeEntryHash r')) (Some (ce_hash r')) false
    ∈ breaks (verifyChainRange ([demo_a0] ++ r' :: []) None) ∨ collide (entry_data demo_a1) (entry_data r').
Proof.
  intros r'. apply (mutated_row_reported [demo_a0] demo_a1 r' [] None).
  - split; [reflexivity|]. intros H. discriminate H.
  - by_compute.
  - by_compute.
  - reflexivity.
  - intros (_&_&_&_&_&_&_&_&_&_&_&_&_&_&E&_). vm_compute in E. discriminate E.
Defined.

Lemma deleted_row_reported_witness :
  break_at demo_a2 prev_hash (Some (ce_hash demo_a0)) (Some (h_prevHash demo_a2)) true
    ∈ breaks (verifyChainRange ([] ++ demo_a0 :: demo_a2 :: []) None) ∨ collide (entry_data demo_a0) (entry_data demo_a1).
Proof.
  apply (deleted_row_reported [] demo_a0 demo_a1 demo_a2 [] None).
  - exists (js "a"). repeat constructor.
  - by_compute.
  - reflexivity.
  - reflexivity.
  - discriminate.
  - vm_compute. reflexivity.
Defined.

Lemma older_epochs_replaceable_witness :
  let p' := demo_entry (js "c") 0 GENESIS_SENTINEL None in
  let b0' := mkChainEntry (ce_fields demo_b0) (ce_hash demo_b0) (Some (ce_hash p')) in
  breaks (verifyChainRange (([] ++ [p']) ++ b0' :: []) None) = [] ∧
  ce_hash <$> (b0' :: []) = ce_hash <$> (demo_b0 :: []) ∧
  computeEntryHash b0' = computeEntryHash demo_b0.
Proof.
  apply (older_epochs_replaceable [demo_a0; demo_a1] [] (demo_entry (js "c") 0 GENESIS_SENTINEL None)
           demo_b0 []).
  - vm_compute. reflexivity.
  - vm_compute. reflexivity.
  - reflexivity.
  - vm_compute. discriminate.
Defined.
