(* ===== verification/DecisionClosure.v ===== *)
(** * The decision-closure check: [packages/audit/src/decision-closure.ts]

    [checkDecisionClosure] walks a range from its newest row to its oldest and
    matches each decision with the rows that close it, in a [Map] keyed by the
    decision's id. The file models the map as the code uses it, states what the
    closers of a decision are without reference to the walk ([closers_of]) and
    proves that the walk computes it, page by page. *)

From S2P Require Export VerifyChain.

(** ** Data *)

Definition LIFECYCLE_TOOLS : list jsstr :=
  js <$> ["session.start"; "session.end"; "task.cancel"; "refinement.propose";
          "refinement.validate"; "refinement.approve"; "refinement.activate";
          "refinement.disable"; "refinement.rollback"; "refinement.use"]%stdpp.

Definition owesCloser (entry : EntryHashFields) : bool :=
  match h_decisionEntryId entry with
  | Some _ => false
  | None =>
      if bool_decide (h_toolName entry ∈ LIFECYCLE_TOOLS) then false
      else if bool_decide (h_decision entry = js "deny") then false
      else bool_decide (h_decision entry = js "pending") ||
           bool_decide (h_decision entry = js "allow")
  end.

Inductive ClosureStatus := Clean | Conflicted | Unresolved | Unchecked.
Inductive CloserAgreement := duplicated | contradictory.
Inductive OpenKind := dispatched | awaiting.

#[export] Instance ClosureStatus_eq_dec : EqDecision ClosureStatus.
Proof. solve_decision. Defined.

Record CloserRef := mkCloser {
  cr_id : jsstr;
  cr_epochId : jsstr;
  cr_sequenceNum : Z;
  cr_decision : jsstr;
  cr_outcome : jsstr;
  cr_referentId : jsstr;
}.

#[export] Instance CloserRef_eq_dec : EqDecision CloserRef.
Proof. solve_decision. Defined.

Record DecisionClosure := mkClosure {
  dc_id : jsstr;
  dc_epochId : jsstr;
  dc_sequenceNum : Z;
  dc_status : ClosureStatus;
  dc_agreement : option CloserAgreement;
  dc_openKind : option OpenKind;
  dc_closers : list CloserRef;
}.

Record ClosureVerdict := mkClosureVerdict {
  decisionsChecked : nat;
  conflicted : list DecisionClosure;
  unresolved : list DecisionClosure;
  unchecked : list DecisionClosure;
  unmatchedClosers : list CloserRef;
}.

(** ** The [Map] of closers awaiting their referent

    Keys are kept in insertion order, which is the order [values()] reads. *)

Definition closer_map := list (jsstr * list CloserRef).

Fixpoint map_get (m : closer_map) (k : jsstr) : list CloserRef :=
  match m with
  | [] => []
  | (k', l) :: m' => if decide (k' = k) then l else map_get m' k
  end.

Fixpoint map_delete (m : closer_map) (k : jsstr) : closer_map :=
  match m with
  | [] => []
  | (k', l) :: m' => if decide (k' = k) then m' else (k', l) :: map_delete m' k
  end.

(** Append to the key's array, or set a fresh one. *)
Fixpoint map_push (m : closer_map) (c : CloserRef) : closer_map :=
  match m with
  | [] => [(cr_referentId c, [c])]
  | (k, l) :: m' =>
      if decide (k = cr_referentId c) then (k, l ++ [c]) :: m' else (k, l) :: map_push m' c
  end.

Definition map_values (m : closer_map) : list CloserRef := mjoin (snd <$> m).
Definition map_seed (carry : list CloserRef) : closer_map := foldl map_push [] carry.

(** ** The walk *)

Record closure_state := mkClosureState {
  cs_unmatched : closer_map;
  cs_checked : nat;
  cs_conflicted : list DecisionClosure;
  cs_unresolved : list DecisionClosure;
  cs_unchecked : list DecisionClosure;
}.

Definition closer_ref (entry : EntryHashFields) (referentId : jsstr) : CloserRef :=
  mkCloser (h_id entry) (h_epochId entry) (h_sequenceNum entry) (h_decision entry)
    (h_outcome entry) referentId.

Definition agreement_of (closers : list CloserRef) : CloserAgreement :=
  match closers with
  | [] => duplicated
  | first :: _ =>
      if forallb (λ c, bool_decide (cr_decision c = cr_decision first) &&
                       bool_decide (cr_outcome c = cr_outcome first)) closers
      then duplicated else contradictory
  end.

Definition closure_base (entry : EntryHashFields) (st : ClosureStatus)
    (ag : option CloserAgreement) (ok : option OpenKind) (closers : list CloserRef) :=
  mkClosure (h_id entry) (h_epochId entry) (h_sequenceNum entry) st ag ok closers.

Definition closure_step (upperEdgeClosed : bool) (entry : EntryHashFields) (st : closure_state)
    : closure_state :=
  let closers := map_get (cs_unmatched st) (h_id entry) in
  let m := map_delete (cs_unmatched st) (h_id entry) in
  match h_decisionEntryId entry with
  | Some referentId =>
      mkClosureState (map_push m (closer_ref entry referentId)) (cs_checked st)
        (cs_conflicted st) (cs_unresolved st) (cs_unchecked st)
  | None =>
      if negb (owesCloser entry) then
        mkClosureState m (cs_checked st) (cs_conflicted st) (cs_unresolved st) (cs_unchecked st)
      else if negb upperEdgeClosed then
        mkClosureState m (S (cs_checked st)) (cs_conflicted st) (cs_unresolved st)
          (cs_unchecked st ++ [closure_base entry Unchecked None None closers])
      else if (length closers =? 0)%nat then
        mkClosureState m (S (cs_checked st)) (cs_conflicted st)
          (cs_unresolved st ++
            [closure_base entry Unresolved None
              (Some (if decide (h_decision entry = js "pending") then awaiting else dispatched))
              closers])
          (cs_unchecked st)
      else if (2 <=? length closers)%nat then
        mkClosureState m (S (cs_checked st))
          (cs_conflicted st ++
            [closure_base entry Conflicted (Some (agreement_of closers)) None closers])
          (cs_unresolved st) (cs_unchecked st)
      else mkClosureState m (S (cs_checked st)) (cs_conflicted st) (cs_unresolved st)
             (cs_unchecked st)
  end.

(** The loop runs from the last index down to zero: a right fold. *)
Definition closure_run (upperEdgeClosed : bool) (carry : list CloserRef)
    (entries : list ChainEntry) : closure_state :=
  foldr (λ e, closure_step upperEdgeClosed (ce_fields e))
    (mkClosureState (map_seed carry) 0 [] [] []) entries.

Definition checkDecisionClosure (entries : list ChainEntry) (carry : list CloserRef)
    (upperEdgeClosed : bool) : ClosureVerdict :=
  let st := closure_run upperEdgeClosed carry entries in
  mkClosureVerdict (cs_checked st) (rev (cs_conflicted st)) (rev (cs_unresolved st))
    (rev (cs_unchecked st)) (map_values (cs_unmatched st)).

(** ** What the closers of a decision are *)

Definition names (k : jsstr) (c : CloserRef) : Prop := cr_referentId c = k.
#[export] Instance names_dec k c : Decision (names k c).
Proof. unfold names. apply _. Defined.

Definition own_ref (e : EntryHashFields) : option CloserRef := closer_ref e <$> h_decisionEntryId e.

(** The closers of [k], given the rows [newer] written after it and the closers
    [carry] written after those: newest first. *)
Definition closers_of (k : jsstr) (newer : list ChainEntry) (carry : list CloserRef)
    : list CloserRef :=
  filter (names k) carry ++ filter (names k) (rev (omap (λ e : ChainEntry, own_ref e) newer)).

(** The finding on one decision. *)
Definition finding (upperEdgeClosed : bool) (e : EntryHashFields) (closers : list CloserRef)
    : DecisionClosure :=
  if negb upperEdgeClosed then closure_base e Unchecked None None closers
  else match closers with
  | [] => closure_base e Unresolved None
            (Some (if decide (h_decision e = js "pending") then awaiting else dispatched)) []
  | [_] => closure_base e Clean None None closers
  | _ => closure_base e Conflicted (Some (agreement_of closers)) None closers
  end.

(** The findings of a range, oldest first. *)
Fixpoint findings (upperEdgeClosed : bool) (entries : list ChainEntry) (carry : list CloserRef)
    : list DecisionClosure :=
  match entries with
  | [] => []
  | e :: newer =>
      (if owesCloser e then [finding upperEdgeClosed e (closers_of (h_id e) newer carry)] else [])
      ++ findings upperEdgeClosed newer carry
  end.

Definition has_status (s : ClosureStatus) (d : DecisionClosure) : Prop := dc_status d = s.
#[export] Instance has_status_dec s d : Decision (has_status s d).
Proof. unfold has_status. apply _. Defined.

(** ** The map *)

Definition map_ok (m : closer_map) : Prop :=
  NoDup m.*1 ∧ Forall (λ kl, snd kl ≠ [] ∧ Forall (names (fst kl)) (snd kl)) m.

Lemma map_get_push m c k :
  map_get (map_push m c) k = map_get m k ++ filter (names k) [c].
Proof.
  rewrite filter_cons, filter_nil. unfold names.
  induction m as [|[k' l] m IH]; simpl; [by repeat case_decide|].
  repeat (case_decide; simplify_eq/=); rewrite ?app_nil_r in *; done.
Qed.

Lemma map_get_absent m k : k ∉ m.*1 → map_get m k = [].
Proof.
  induction m as [|[k' l] m IH]; simpl; [done|]. rewrite not_elem_of_cons.
  intros [??]. case_decide; [congruence|auto].
Qed.

Lemma map_get_delete m k k' :
  NoDup m.*1 → map_get (map_delete m k') k = if decide (k' = k) then [] else map_get m k.
Proof.
  induction m as [|[k0 l] m IH]; simpl; [by case_decide|].
  inversion_clear 1 as [|?? Hk Hm]. specialize (IH Hm).
  repeat (case_decide; simplify_eq/=); try done. by apply map_get_absent.
Qed.

Lemma map_delete_keys m k : (map_delete m k).*1 `sublist_of` m.*1.
Proof.
  induction m as [|[k' l] m IH]; simpl; [constructor|].
  case_decide; by constructor.
Qed.

Lemma map_delete_ok m k : map_ok m → map_ok (map_delete m k).
Proof.
  intros [Hn Hf]. split; [exact (sublist_NoDup _ _ Hn (map_delete_keys m k))|].
  clear Hn. induction Hf as [|[k' l] m ?? IH]; simpl; [constructor|].
  case_decide; [done|]. by constructor.
Qed.

Lemma map_push_keys m c k : k ∈ (map_push m c).*1 ↔ k ∈ m.*1 ∨ k = cr_referentId c.
Proof.
  induction m as [|[k' l] m IH]; simpl; [set_solver|].
  case_decide; set_solver.
Qed.

Lemma map_push_ok m c : map_ok m → map_ok (map_push m c).
Proof.
  intros [Hn Hf]. split.
  - induction m as [|[k' l] m IH]; simpl in *; [repeat constructor; set_solver|].
    inversion_clear Hn. inversion_clear Hf. case_decide; simpl; [by constructor|].
    constructor; [|auto]. rewrite map_push_keys. naive_solver.
  - clear Hn. induction Hf as [|[k' l] m [Hl Hk] Hf IH]; simpl in *.
    + repeat constructor. done.
    + case_decide; constructor; simpl; auto. split; [by destruct l|].
      apply Forall_app. by repeat constructor.
Qed.

Lemma map_pushes_ok m l : map_ok m → map_ok (foldl map_push m l).
Proof. revert m. induction l; simpl; auto using map_push_ok. Qed.

Lemma map_seed_ok l : map_ok (map_seed l).
Proof. apply map_pushes_ok. split; constructor. Qed.

Lemma map_get_pushes m l k :
  map_get (foldl map_push m l) k = map_get m k ++ filter (names k) l.
Proof.
  revert m. induction l as [|c l IH]; intros m; simpl; [by rewrite app_nil_r|].
  rewrite IH, map_get_push, <- (assoc_L (++)). f_equal. rewrite !filter_cons, filter_nil.
  by case_decide.
Qed.

Lemma map_get_seed l k : map_get (map_seed l) k = filter (names k) l.
Proof. apply map_get_pushes. Qed.

(** Flattening a map and seeding a new one from it gives the map back. *)
Lemma map_push_group m k l l0 :
  k ∉ m.*1 → l0 ≠ [] → Forall (names k) l →
  foldl map_push (m ++ [(k, l0)]) l = m ++ [(k, l0 ++ l)].
Proof.
  intros Hk. revert l0. induction l as [|c l IH]; intros l0 Hl0 Hl; simpl.
  { by rewrite app_nil_r. }
  inversion_clear Hl as [|?? Hc Hl']. unfold names in Hc.
  assert (map_push (m ++ [(k, l0)]) c = m ++ [(k, l0 ++ [c])]) as ->.
  { clear IH Hl0. induction m as [|[k' l'] m IH]; simpl in *.
    - by rewrite decide_True.
    - rewrite decide_False by set_solver. f_equal. apply IH. set_solver. }
  rewrite IH; [by rewrite <- (assoc_L (++))|by destruct l0|done].
Qed.

Lemma map_seed_values m : map_ok m → map_seed (map_values m) = m.
Proof.
  assert (∀ m0, map_ok (m0 ++ m) → foldl map_push m0 (map_values m) = m0 ++ m) as H.
  { induction m as [|[k l] m IH]; intros m0 Hm.
    { by rewrite app_nil_r. }
    pose proof Hm as [Hn Hf]. apply Forall_app in Hf as [_ Hf].
    inversion_clear Hf as [|?? [Hl Hk] _]. simpl in *.
    rewrite fmap_app in Hn. apply NoDup_app in Hn as (_&Hd&_). simpl in Hd.
    unfold map_values. simpl. rewrite foldl_app. fold (map_values m).
    destruct l as [|c l]; [done|]. simpl. inversion_clear Hk as [|?? Hc Hl']. unfold names in Hc.
    assert (map_push m0 c = m0 ++ [(k, [c])]) as ->.
    { assert (k ∉ m0.*1) as Hk0 by set_solver. clear -Hk0 Hc.
      induction m0 as [|[k' l'] m0 IH]; simpl in *; [by rewrite Hc|].
      rewrite decide_False by set_solver. f_equal. apply IH. set_solver. }
    rewrite map_push_group by (done || set_solver).
    simpl. rewrite IH; rewrite <- (assoc_L (++)); done. }
  intros Hm. by apply (H []).
Qed.

Lemma filter_map_values m k : map_ok m → filter (names k) (map_values m) = map_get m k.
Proof. intros Hm. rewrite <- (map_seed_values m Hm) at 2. by rewrite map_get_seed. Qed.

(** ** The walk computes the specification *)

Section run.
Variable (u : bool) (carry : list CloserRef).
Implicit Types (e : ChainEntry) (es : list ChainEntry).

Notation run := (closure_run u carry).
Notation ids es := ((λ e : ChainEntry, h_id e) <$> es).

Lemma step_unmatched e st :
  cs_unmatched (closure_step u e st) =
    match own_ref e with
    | Some c => map_push (map_delete (cs_unmatched st) (h_id e)) c
    | None => map_delete (cs_unmatched st) (h_id e)
    end.
Proof. unfold closure_step, own_ref. wb_cases; done. Qed.

Lemma run_ok es : map_ok (cs_unmatched (run es)).
Proof.
  induction es as [|e es IH]; simpl; [apply map_seed_ok|].
  rewrite step_unmatched. case_match; auto using map_push_ok, map_delete_ok.
Qed.

Lemma closers_of_cons k e es :
  closers_of k (e :: es) carry =
  closers_of k es carry ++ (match own_ref e with Some c => filter (names k) [c] | None => [] end).
Proof.
  unfold closers_of. simpl. destruct (own_ref e); simpl.
  - by rewrite filter_app, (assoc_L (++)).
  - by rewrite app_nil_r.
Qed.

Lemma run_closers es k : k ∉ ids es → map_get (cs_unmatched (run es)) k = closers_of k es carry.
Proof.
  induction es as [|e es IH]; simpl.
  { intros _. unfold closers_of. simpl. by rewrite map_get_seed, app_nil_r. }
  rewrite not_elem_of_cons. intros [Hk Hes]. rewrite closers_of_cons, step_unmatched.
  assert (map_get (map_delete (cs_unmatched (run es)) (h_id e)) k = closers_of k es carry) as E.
  { rewrite map_get_delete by apply run_ok. rewrite decide_False by done. auto. }
  case_match; rewrite ?map_get_push, E, ?app_nil_r; done.
Qed.

(** What one step adds to the three lists, in terms of [finding]. *)
Lemma step_findings e st :
  let closers := map_get (cs_unmatched st) (h_id e) in
  let new s := filter (has_status s) (if owesCloser e then [finding u e closers] else []) in
  cs_checked (closure_step u e st) = cs_checked st + length (if owesCloser e then [tt] else []) ∧
  cs_conflicted (closure_step u e st) = cs_conflicted st ++ new Conflicted ∧
  cs_unresolved (closure_step u e st) = cs_unresolved st ++ new Unresolved ∧
  cs_unchecked (closure_step u e st) = cs_unchecked st ++ new Unchecked.
Proof.
  intros closers new. subst new. unfold closure_step. fold closers.
  destruct (h_decisionEntryId e) eqn:Ed.
  { assert (owesCloser e = false) as -> by (unfold owesCloser; by rewrite Ed).
    simpl. by rewrite !app_nil_r, Nat.add_0_r. }
  destruct (owesCloser e); simpl; [|by rewrite !app_nil_r, Nat.add_0_r].
  unfold finding. destruct u; simpl; [|by rewrite !app_nil_r, Nat.add_1_r].
  destruct closers as [|c1 [|c2 cs]]; simpl; by rewrite ?app_nil_r, Nat.add_1_r.
Qed.

Lemma run_findings es :
  NoDup (ids es) →
  cs_checked (run es) = length (findings u es carry) ∧
  rev (cs_conflicted (run es)) = filter (has_status Conflicted) (findings u es carry) ∧
  rev (cs_unresolved (run es)) = filter (has_status Unresolved) (findings u es carry) ∧
  rev (cs_unchecked (run es)) = filter (has_status Unchecked) (findings u es carry).
Proof.
  induction es as [|e es IH]; simpl; [done|].
  inversion_clear 1 as [|?? He Hn]. destruct (IH Hn) as (E1&E2&E3&E4). fold (run es).
  destruct (step_findings e (run es)) as (->&->&->&->).
  rewrite run_closers by done.
  rewrite !rev_app_distr, !filter_app, length_app, E1, E2, E3, E4.
  destruct (owesCloser e); simpl; [|split_and!; (lia || done)].
  unfold finding. split_and!; [lia|..]; by repeat (case_match || case_decide || simpl).
Qed.
End run.

(** A step only appends to what an earlier page left in the three lists. *)
Lemma step_frame u e m n c r k :
  let s := closure_step u e (mkClosureState m 0 [] [] []) in
  closure_step u e (mkClosureState m n c r k) =
  mkClosureState (cs_unmatched s) (n + cs_checked s) (c ++ cs_conflicted s)
    (r ++ cs_unresolved s) (k ++ cs_unchecked s).
Proof. unfold closure_step. simpl. repeat case_match; simpl; f_equal; rewrite ?app_nil_r; (done || lia). Qed.

Lemma run_frame u (es : list ChainEntry) st :
  let s := foldr (λ e : ChainEntry, closure_step u e) (mkClosureState (cs_unmatched st) 0 [] [] []) es in
  foldr (λ e : ChainEntry, closure_step u e) st es =
  mkClosureState (cs_unmatched s) (cs_checked st + cs_checked s)
    (cs_conflicted st ++ cs_conflicted s) (cs_unresolved st ++ cs_unresolved s)
    (cs_unchecked st ++ cs_unchecked s).
Proof.
  induction es as [|e es IH]; cbn [foldr]; cbv zeta in *.
  - destruct st; simpl. by rewrite !app_nil_r, Nat.add_0_r.
  - rewrite IH, step_frame. clear IH.
    destruct (foldr _ (mkClosureState _ _ _ _ _) es) as [m n c r k]. simpl.
    rewrite (step_frame u e m n c r k). simpl. by rewrite !(assoc_L (++)), Nat.add_assoc.
Qed.

(** ** Properties *)

(** The closure check finds exactly the decisions it should. In a range
    whose entry ids are distinct, it counts the decisions that owe a closer and
    lists, oldest first, those with two or more closers, with their agreement,
    those with none, and under an open upper edge every one of them; the closers
    of a decision being the carried ones and the rows written after it that
    name it. What it hands down is, for every id the range does not hold, the
    closers that name it. *)
Theorem closure_check_correct es carry u :
  NoDup ((λ e : ChainEntry, h_id e) <$> es) →
  let v := checkDecisionClosure es carry u in
  let fs := findings u es carry in
  decisionsChecked v = length fs ∧
  conflicted v = filter (has_status Conflicted) fs ∧
  unresolved v = filter (has_status Unresolved) fs ∧
  unchecked v = filter (has_status Unchecked) fs ∧
  (∀ k, k ∉ ((λ e : ChainEntry, h_id e) <$> es) →
     filter (names k) (unmatchedClosers v) = closers_of k es carry).
Proof.
  intros Hn v fs. destruct (run_findings u carry es Hn) as (?&?&?&?).
  split_and!; try done. intros k Hk. simpl.
  rewrite filter_map_values by apply run_ok. by apply run_closers.
Qed.

(** The carry makes paging exact. Checking a newer page, then the older page
    with the carry of the newer one, gives the verdict of the whole range:
    counts add up, each list of findings is the older page's followed by the
    newer page's, and the final carry is the same. *)
Lemma closure_pages older newer carry u :
  let v := checkDecisionClosure (older ++ newer) carry u in
  let vn := checkDecisionClosure newer carry u in
  let vo := checkDecisionClosure older (unmatchedClosers vn) u in
  decisionsChecked v = decisionsChecked vn + decisionsChecked vo ∧
  conflicted v = conflicted vo ++ conflicted vn ∧
  unresolved v = unresolved vo ++ unresolved vn ∧
  unchecked v = unchecked vo ++ unchecked vn ∧
  unmatchedClosers v = unmatchedClosers vo.
Proof.
  intros v vn vo. subst v vo vn. unfold checkDecisionClosure, closure_run. simpl.
  rewrite foldr_app, run_frame. simpl.
  rewrite map_seed_values by apply (run_ok u carry newer).
  by rewrite !rev_app_distr.
Qed.

(** ** A concrete range *)

Definition demo_decision (id decision : jsstr) (seq : Z) :=
  demo_row (demo_fields (js "a") seq [] id decision (js "success") None) None.
Definition demo_closer (id referent outcome : jsstr) (seq : Z) :=
  demo_row (demo_fields (js "a") seq [] id (js "allow") outcome (Some referent)) None.

Lemma closure_check_correct_witness :
  let es := [demo_decision (js "d") (js "allow") 0; demo_closer (js "c1") (js "d") (js "success") 1;
             demo_closer (js "c2") (js "d") (js "error") 2] in
  let v := checkDecisionClosure es [] true in
  let fs := findings true es [] in
  (dc_agreement <$> conflicted v = [Some contradictory]) ∧
  decisionsChecked v = length fs ∧
  conflicted v = filter (has_status Conflicted) fs ∧
  unresolved v = filter (has_status Unresolved) fs ∧
  unchecked v = filter (has_status Unchecked) fs ∧
  (∀ k, k ∉ ((λ e : ChainEntry, h_id e) <$> es) →
     filter (names k) (unmatchedClosers v) = closers_of k es []).
Proof.
  intros es v fs. split; [vm_compute; reflexivity|].
  apply closure_check_correct. by_compute.
Defined.
