(* ===== verification/Policy.v ===== *)
(** * The policy evaluator: [packages/governance/src/policy.ts, evaluate-policy.ts]

    [evaluatePolicy] ranks the entries that match an action and returns the
    decision of the first. The file gives the evaluator as written, over a
    stable sort, and characterises each of its answers by the entry set alone. *)

From S2P Require Export Platform.

(** ** Data *)

Record PolicyAction := mkPolicyAction {
  act_agent : jsstr;
  act_service : jsstr;
  act_verb : jsstr;
  act_noun : jsstr;
  act_toolName : jsstr;
}.

Inductive grant := Allow | Deny.
#[export] Instance grant_eq_dec : EqDecision grant.
Proof. solve_decision. Defined.

(** A priority is [None] when the stored value is not a finite number. A finite
    double is a whole multiple of the smallest positive one, so the order of
    finite priorities is the order of integers. *)
Record PolicyEntry := mkPolicyEntry {
  pe_id : jsstr;
  pe_source : jsstr;
  pe_sessionId : option jsstr;
  pe_service : jsstr;
  pe_verb : jsstr;
  pe_noun : jsstr;
  pe_decision : grant;
  pe_priority : option Z;
  pe_createdAt : jsstr;
  pe_expiresAt : option jsstr;
}.

#[export] Instance PolicyEntry_eq_dec : EqDecision PolicyEntry.
Proof. solve_decision. Defined.

Inductive verdict := V_allow | V_deny | V_pending.
#[export] Instance verdict_eq_dec : EqDecision verdict.
Proof. solve_decision. Defined.

Record PolicyDecision := mkPolicyDecision {
  pd_decision : verdict;
  pd_source : jsstr;
  pd_entryId : option jsstr;
}.

#[export] Instance PolicyDecision_eq_dec : EqDecision PolicyDecision.
Proof. solve_decision. Defined.

Definition WILDCARD_DENY_ID : jsstr := js "default-deny".
Definition wildcard : jsstr := js "*".

(** ** The evaluator *)

Section evaluate.
Context `{Platform}.

Definition entryMatch (entry : PolicyEntry) (action : PolicyAction) : bool :=
  let allowsWildcard := bool_decide (pe_decision entry = Deny) in
  if bool_decide (pe_service entry = wildcard) && negb allowsWildcard then false
  else if negb (bool_decide (pe_service entry = wildcard)) &&
          negb (bool_decide (pe_service entry = act_service action)) then false
  else if bool_decide (pe_verb entry = wildcard) && negb allowsWildcard then false
  else if negb (bool_decide (pe_verb entry = wildcard)) &&
          negb (bool_decide (pe_verb entry = act_verb action)) then false
  else if bool_decide (pe_noun entry = wildcard) && negb allowsWildcard then false
  else if negb (bool_decide (pe_noun entry = wildcard)) &&
          negb (bool_decide (toLowerCase (pe_noun entry) = toLowerCase (act_noun action)))
  then false
  else true.

Definition denyRank (e : PolicyEntry) : Z :=
  match pe_decision e with Deny => 0 | Allow => 1 end.

(** The comparator goes negative: [a] is placed strictly before [b]. *)
Definition ranks_before (a b : PolicyEntry) : bool :=
  let pa := default 0%Z (pe_priority a) in
  let pb := default 0%Z (pe_priority b) in
  if (pb =? pa)%Z then (denyRank a - denyRank b <? 0)%Z else (pb - pa <? 0)%Z.

Definition grant_verdict (d : grant) : verdict :=
  match d with Allow => V_allow | Deny => V_deny end.

Definition evaluatePolicy (entries : list PolicyEntry) (action : PolicyAction)
    : PolicyDecision :=
  let matched := List.filter (λ e, entryMatch e action) entries in
  if existsb (λ e, bool_decide (pe_priority e = None)) matched then
    mkPolicyDecision V_deny (js "malformed") None
  else
    match stable_sort ranks_before matched with
    | [] => mkPolicyDecision V_deny (js "implicit") None
    | m :: _ => mkPolicyDecision (grant_verdict (pe_decision m)) (pe_source m) (Some (pe_id m))
    end.
End evaluate.

(** ** Matching and ranking, declaratively *)

Section spec.
Context `{Platform}.

(** A component of an entry covers a component of the action. *)
Definition covers (d : grant) (same : Prop) (pattern : jsstr) : Prop :=
  (pattern = wildcard ∧ d = Deny) ∨ (pattern ≠ wildcard ∧ same).

Definition matches (e : PolicyEntry) (a : PolicyAction) : Prop :=
  covers (pe_decision e) (pe_service e = act_service a) (pe_service e) ∧
  covers (pe_decision e) (pe_verb e = act_verb a) (pe_verb e) ∧
  covers (pe_decision e) (toLowerCase (pe_noun e) = toLowerCase (act_noun a)) (pe_noun e).

Lemma entryMatch_spec e a : entryMatch e a = true ↔ matches e a.
Proof.
  unfold entryMatch, matches, covers.
  destruct (pe_decision e); repeat case_bool_decide; simpl; naive_solver.
Qed.

Lemma elem_of_matched es a e :
  e ∈ List.filter (λ e, entryMatch e a) es ↔ e ∈ es ∧ matches e a.
Proof. by rewrite !list_elem_of_In, filter_In, entryMatch_spec. Qed.

Definition finite_matches (es : list PolicyEntry) (a : PolicyAction) : Prop :=
  ∀ e, e ∈ es → matches e a → pe_priority e ≠ None.

Lemma malformed_test es a :
  existsb (λ e, bool_decide (pe_priority e = None)) (List.filter (λ e, entryMatch e a) es) = false
  ↔ finite_matches es a.
Proof.
  unfold finite_matches. rewrite <- not_true_iff_false, existsb_exists.
  setoid_rewrite <- list_elem_of_In. setoid_rewrite elem_of_matched.
  setoid_rewrite bool_decide_eq_true. naive_solver.
Qed.

(** The rank of a finite entry: its priority, deny above allow on a tie. *)
Definition rank (e : PolicyEntry) : Z :=
  2 * default 0%Z (pe_priority e) + match pe_decision e with Deny => 1 | Allow => 0 end.

Lemma ranks_before_rank a b : ranks_before a b = true ↔ (rank b < rank a)%Z.
Proof.
  unfold ranks_before, rank, denyRank.
  destruct (Z.eqb_spec (default 0%Z (pe_priority b)) (default 0%Z (pe_priority a))) as [->|];
    rewrite Z.ltb_lt; repeat case_match; lia.
Qed.

Lemma ranks_before_false a b : ranks_before a b = false ↔ (rank a <= rank b)%Z.
Proof. rewrite <- not_true_iff_false, ranks_before_rank. lia. Qed.

(** The first ranked entry of a set has the greatest rank. *)
Lemma top_ranked l m l' :
  stable_sort ranks_before l = m :: l' → m ∈ l ∧ ∀ e, e ∈ l → (rank e <= rank m)%Z.
Proof.
  intros E. split.
  - rewrite <- (elem_of_stable_sort ranks_before), E. set_solver.
  - intros e He. destruct (stable_sort_head_least ranks_before) with l m l' e as [->|Hr]; try done.
    + intros x y. rewrite ranks_before_rank, ranks_before_false. lia.
    + intros x y z. rewrite !ranks_before_false. lia.
    + by apply ranks_before_false.
Qed.

(** The three ways an evaluation ends. *)
Inductive outcome (es : list PolicyEntry) (a : PolicyAction) : PolicyDecision → Prop :=
  | out_malformed e :
      e ∈ es → matches e a → pe_priority e = None →
      outcome es a (mkPolicyDecision V_deny (js "malformed") None)
  | out_implicit :
      (∀ e, e ∈ es → ¬ matches e a) →
      outcome es a (mkPolicyDecision V_deny (js "implicit") None)
  | out_entry m :
      m ∈ es → matches m a → finite_matches es a →
      (∀ e, e ∈ es → matches e a → (rank e <= rank m)%Z) →
      outcome es a (mkPolicyDecision (grant_verdict (pe_decision m)) (pe_source m) (Some (pe_id m))).

Lemma evaluatePolicy_outcome es a : outcome es a (evaluatePolicy es a).
Proof.
  unfold evaluatePolicy. destruct (existsb _ _) eqn:Em.
  - apply existsb_exists in Em as (e&He&Hp). apply list_elem_of_In, elem_of_matched in He as [??].
    apply bool_decide_eq_true in Hp. by apply (out_malformed _ _ e).
  - apply malformed_test in Em. destruct (stable_sort _ _) as [|m l'] eqn:Es.
    + apply out_implicit. intros e He Hm.
      assert (e ∈ stable_sort ranks_before (List.filter (λ e, entryMatch e a) es)) as H'.
      { by apply elem_of_stable_sort, elem_of_matched. }
      rewrite Es in H'. set_solver.
    + apply top_ranked in Es as [Hm Ht]. apply elem_of_matched in Hm as [??].
      apply out_entry; try done. intros e ??. by apply Ht, elem_of_matched.
Qed.
End spec.

(** ** Allowing *)

Section allow.
Context `{Platform}.

(** The allow entry that decides an action. *)
Definition allowed_by (es : list PolicyEntry) (a : PolicyAction) (m : PolicyEntry) (p : Z) : Prop :=
  m ∈ es ∧ pe_decision m = Allow ∧ pe_priority m = Some p ∧
  (pe_service m ≠ wildcard ∧ pe_service m = act_service a) ∧
  (pe_verb m ≠ wildcard ∧ pe_verb m = act_verb a) ∧
  (pe_noun m ≠ wildcard ∧ toLowerCase (pe_noun m) = toLowerCase (act_noun a)) ∧
  ∀ e q, e ∈ es → matches e a → pe_priority e = Some q →
    (q <= p ∧ (pe_decision e = Deny → q < p))%Z.

Lemma evaluatePolicy_allow es a :
  pd_decision (evaluatePolicy es a) = V_allow ↔
  finite_matches es a ∧ ∃ m p, allowed_by es a m p.
Proof.
  split.
  - destruct (evaluatePolicy_outcome es a) as [| |m Hm Hmm Hf Ht]; simpl; try done.
    destruct (pe_decision m) eqn:Ed; [|done]. intros _. split; [done|].
    destruct (pe_priority m) as [p|] eqn:Ep; [|by destruct (Hf m)].
    exists m, p. destruct Hmm as (Hs&Hv&Hn). unfold covers in *. rewrite Ed in *.
    split_and!; try done; try naive_solver; [].
    intros e q He Hme Hq. specialize (Ht e He Hme). unfold rank in Ht.
    rewrite Ep, Ed, Hq in Ht. simpl in Ht.
    split; [case_match; lia|]. intros Hd. rewrite Hd in Ht. lia.
  - intros (Hf&m&p&Hm&Ed&Ep&Hs&Hv&Hn&Ht).
    assert (matches m a) as Hmm by (unfold matches, covers; naive_solver).
    destruct (evaluatePolicy_outcome es a) as [e He Hme Hp|Hno|t Ht1 Ht2 _ Ht3]; simpl.
    + by destruct (Hf e).
    + by destruct (Hno m).
    + destruct (pe_decision t) eqn:Edt; [done|]. exfalso.
      destruct (pe_priority t) as [q|] eqn:Eq; [|by destruct (Hf t)].
      destruct (Ht t q) as [_ Hlt]; try done. specialize (Hlt Edt).
      specialize (Ht3 m Hm Hmm). unfold rank in Ht3. rewrite Ep, Eq, Ed, Edt in Ht3.
      simpl in Ht3. lia.
Qed.
End allow.

(** ** Properties *)

Section properties.
Context `{Platform}.

(** When an action is allowed. The evaluator allows an action exactly when
    no matching entry has a malformed priority and some allow entry, free of
    wildcards and naming the action's service, verb and noun, is at least as
    high as every matching entry and strictly higher than every matching deny. *)
Theorem policy_allow_iff es a :
  pd_decision (evaluatePolicy es a) = V_allow ↔
  finite_matches es a ∧
  ∃ m p, m ∈ es ∧ pe_decision m = Allow ∧ pe_priority m = Some p ∧
    (pe_service m ≠ wildcard ∧ pe_service m = act_service a) ∧
    (pe_verb m ≠ wildcard ∧ pe_verb m = act_verb a) ∧
    (pe_noun m ≠ wildcard ∧ toLowerCase (pe_noun m) = toLowerCase (act_noun a)) ∧
    ∀ e q, e ∈ es → matches e a → pe_priority e = Some q →
      (q <= p ∧ (pe_decision e = Deny → q < p))%Z.
Proof. apply evaluatePolicy_allow. Qed.

(** The decision depends on the entry set, not on its order: listing the
    same entries in any order, with any repetition, gives the same decision. *)
Theorem policy_order_independent es es' a :
  (∀ e, e ∈ es ↔ e ∈ es') →
  pd_decision (evaluatePolicy es a) = pd_decision (evaluatePolicy es' a).
Proof.
  intros Hes.
  assert (pd_decision (evaluatePolicy es a) = V_allow ↔
          pd_decision (evaluatePolicy es' a) = V_allow) as Hiff.
  { rewrite !evaluatePolicy_allow. unfold finite_matches, allowed_by. by setoid_rewrite Hes. }
  assert (∀ es, pd_decision (evaluatePolicy es a) ≠ V_pending) as Hp.
  { intros l. destruct (evaluatePolicy_outcome l a) as [| |m]; simpl; try done.
    by destruct (pe_decision m). }
  pose proof (Hp es) as H1. pose proof (Hp es') as H2.
  destruct (pd_decision (evaluatePolicy es a)), (pd_decision (evaluatePolicy es' a)); naive_solver.
Qed.
End properties.

(** ** A concrete policy *)

Definition floor_entry : PolicyEntry :=
  mkPolicyEntry WILDCARD_DENY_ID (js "standing") None wildcard wildcard wildcard Deny (Some 0%Z) [] None.
Definition demo_grant (d : grant) (p : option Z) : PolicyEntry :=
  mkPolicyEntry (js "g") (js "session") None (js "mail") (js "send") (js "Bob") d p [] None.
Definition demo_action : PolicyAction :=
  mkPolicyAction (js "a") (js "mail") (js "send") (js "bob") (js "mail.send").

Example demo_allow : pd_decision (evaluatePolicy [floor_entry; demo_grant Allow (Some 10%Z)] demo_action) = V_allow.
Proof. reflexivity. Qed.
Example demo_tie : pd_decision
  (evaluatePolicy [demo_grant Allow (Some 10%Z); demo_grant Deny (Some 10%Z)] demo_action) = V_deny.
Proof. reflexivity. Qed.
Example demo_malformed : pd_source
  (evaluatePolicy [demo_grant Allow (Some 10%Z); demo_grant Deny None] demo_action) = js "malformed".
Proof. reflexivity. Qed.

Lemma policy_order_independent_witness :
  pd_decision (evaluatePolicy [floor_entry; demo_grant Allow (Some 10%Z)] demo_action) =
  pd_decision (evaluatePolicy [demo_grant Allow (Some 10%Z); floor_entry; floor_entry] demo_action).
Proof. apply policy_order_independent. intros e. set_solver. Defined.
