(* ===== verification/Spend.v ===== *)
(** * The spend evaluator: [packages/governance/src/evaluate-spend.ts]

    Amounts are JavaScript numbers: an integer of any size, or something that is
    not an integer. The additions the code makes are additions of doubles,
    rounded to even; the file proves that rounding never changes an answer. *)

From S2P Require Export JsString.

(** ** Data *)

Inductive jsnumber := Integer (z : Z) | NotInteger.
#[export] Instance jsnumber_eq_dec : EqDecision jsnumber.
Proof. solve_decision. Defined.

Definition isSafeInteger (n : jsnumber) : bool :=
  match n with Integer z => safe_int z | NotInteger => false end.
Definition is_negative (n : jsnumber) : bool :=
  match n with Integer z => (z <? 0)%Z | NotInteger => false end.
Definition int_of (n : jsnumber) : Z := match n with Integer z => z | NotInteger => 0 end.

Definition DEFAULT_MONTHLY_LIMIT_CENTS : Z := 5000.
Definition DEFAULT_SESSION_LIMIT_CENTS : Z := 2000.

Inductive SpendWindow := W_session | W_month.
#[export] Instance SpendWindow_eq_dec : EqDecision SpendWindow.
Proof. solve_decision. Defined.

Record SpendLimits := mkLimits { sessionLimitCents : jsnumber; monthLimitCents : jsnumber }.
Record SpendTotals := mkTotals { sessionSpentCents : jsnumber; monthSpentCents : jsnumber }.
Record SpendCheckInput := mkSpendInput {
  amountCents : jsnumber;
  limits : SpendLimits;
  totals : option SpendTotals;
}.
Record SpendBreach := mkBreach { br_window : SpendWindow; br_limitCents : Z; br_spentCents : Z }.
Inductive SpendCheckResult := Within | Exceeds (breaches : list SpendBreach) | Unavailable.

#[export] Instance SpendBreach_eq_dec : EqDecision SpendBreach.
Proof. solve_decision. Defined.
#[export] Instance SpendCheckResult_eq_dec : EqDecision SpendCheckResult.
Proof. solve_decision. Defined.

(** ** The evaluator *)

(** [a + b] on doubles, for a sum below 2^54 in magnitude: exact up to 2^53,
    above it rounded to the nearest even mantissa. *)
Definition double_add (a b : Z) : Z :=
  let s := (a + b)%Z in
  if (Z.abs s <=? 2 ^ 53)%Z then s
  else if Z.even s then s
  else if Z.even ((s - 1) / 2) then (s - 1)%Z else (s + 1)%Z.

Definition breach (w : SpendWindow) (amount limit spent : Z) : list SpendBreach :=
  if (limit <? double_add spent amount)%Z then [mkBreach w limit spent] else [].

Definition evaluateSpend (input : SpendCheckInput) : SpendCheckResult :=
  match totals input with
  | None => Unavailable
  | Some t =>
      let values := [amountCents input; sessionLimitCents (limits input);
                     monthLimitCents (limits input); sessionSpentCents t; monthSpentCents t] in
      if existsb (λ v, negb (isSafeInteger v) || is_negative v) values then Unavailable
      else
        let amount := int_of (amountCents input) in
        let breaches :=
          breach W_session amount (int_of (sessionLimitCents (limits input)))
            (int_of (sessionSpentCents t)) ++
          breach W_month amount (int_of (monthLimitCents (limits input)))
            (int_of (monthSpentCents t)) in
        match breaches with [] => Within | _ => Exceeds breaches end
  end.

(** ** Exactness *)

(** A non-negative safe integer. *)
Definition cents (n : jsnumber) (z : Z) : Prop := n = Integer z ∧ (0 <= z <= max_safe)%Z.

Lemma cents_spec n :
  negb (isSafeInteger n) || is_negative n = false ↔ cents n (int_of n).
Proof.
  unfold isSafeInteger, is_negative, cents, int_of, safe_int. destruct n as [z|]; [|naive_solver].
  rewrite orb_false_iff, negb_false_iff, andb_true_iff, !Z.leb_le, Z.ltb_ge.
  unfold max_safe. intuition lia.
Qed.

(** Rounding the sum never moves it across a limit. *)
Lemma double_add_exact a b limit :
  (0 <= a <= max_safe)%Z → (0 <= b <= max_safe)%Z → (0 <= limit <= max_safe)%Z →
  (limit <? double_add a b)%Z = (limit <? a + b)%Z.
Proof.
  unfold max_safe, double_add. intros Ha Hb Hl.
  destruct (Z.leb_spec (Z.abs (a + b)) (2 ^ 53)); [done|].
  repeat case_match; destruct (Z.ltb_spec limit (a + b)); rewrite ?Z.ltb_lt, ?Z.ltb_ge; lia.
Qed.

(** The five numbers of a check that stays within both limits. *)
Lemma evaluateSpend_within a ls lm s m :
  evaluateSpend (mkSpendInput (Integer a) (mkLimits (Integer ls) (Integer lm))
    (Some (mkTotals (Integer s) (Integer m)))) = Within ↔
  Forall (λ z, 0 <= z <= max_safe)%Z [a; ls; lm; s; m] ∧ (s + a <= ls)%Z ∧ (m + a <= lm)%Z.
Proof.
  assert (∀ z, negb (isSafeInteger (Integer z)) || is_negative (Integer z) = false ↔
    (0 <= z <= max_safe)%Z) as Hz.
  { intros z. rewrite cents_spec. unfold cents. simpl. naive_solver. }
  unfold evaluateSpend. cbv zeta.
  cbn [totals amountCents limits sessionLimitCents monthLimitCents sessionSpentCents monthSpentCents].
  match goal with |- context [existsb ?f ?l] => destruct (existsb f l) eqn:E end.
  - split; [done|]. intros [Hf _]. apply existsb_exists in E as (v&Hv&E). simpl in Hv.
    rewrite !Forall_cons in Hf. destruct_and!.
    repeat (destruct Hv as [<-|Hv]; [rewrite (proj2 (Hz _)) in E; done|]). done.
  - simpl in E. repeat (apply orb_false_iff in E as [?%Hz E]). clear E.
    unfold breach. simpl. rewrite !double_add_exact by done.
    destruct (Z.ltb_spec ls (s + a)), (Z.ltb_spec lm (m + a)); simpl; rewrite ?Forall_cons;
      split; try done; intros; lia.
Qed.

(** ** Properties *)

(** The cap binds exactly. The check answers "within" only when the ledger
    was read, every number is a non-negative safe integer, and the exact sum of
    what was spent and what is asked stays at or below both limits; it answers
    "exceeds" with the session breach first and each breach exactly when that
    window's exact sum passes its limit; in every other case, "unavailable". *)
Theorem spend_check_exact input :
  match evaluateSpend input with
  | Within =>
      ∃ t a ls lm s m, totals input = Some t ∧
        cents (amountCents input) a ∧ cents (sessionLimitCents (limits input)) ls ∧
        cents (monthLimitCents (limits input)) lm ∧
        cents (sessionSpentCents t) s ∧ cents (monthSpentCents t) m ∧
        (s + a <= ls)%Z ∧ (m + a <= lm)%Z
  | Exceeds bs =>
      ∃ t a ls lm s m, totals input = Some t ∧
        cents (amountCents input) a ∧ cents (sessionLimitCents (limits input)) ls ∧
        cents (monthLimitCents (limits input)) lm ∧
        cents (sessionSpentCents t) s ∧ cents (monthSpentCents t) m ∧
        bs ≠ [] ∧
        bs = (if (ls <? s + a)%Z then [mkBreach W_session ls s] else []) ++
             (if (lm <? m + a)%Z then [mkBreach W_month lm m] else [])
  | Unavailable =>
      match totals input with
      | None => True
      | Some t =>
          ∃ v, v ∈ [amountCents input; sessionLimitCents (limits input);
                    monthLimitCents (limits input); sessionSpentCents t; monthSpentCents t] ∧
               ∀ z, ¬ cents v z
      end
  end.
Proof.
  unfold evaluateSpend. destruct (totals input) as [t|]; [|done].
  destruct (existsb _ _) eqn:E.
  { apply existsb_exists in E as (v&Hv&Hb). exists v. split; [by apply list_elem_of_In|].
    intros z Hz. assert (cents v (int_of v)) as Hc by (destruct Hz as [-> ?]; done).
    apply cents_spec in Hc. congruence. }
  simpl in E. repeat (apply orb_false_iff in E as [?%cents_spec E]). clear E.
  unfold breach. rewrite !double_add_exact by (by unfold cents in *; naive_solver).
  set (ls := int_of (sessionLimitCents (limits input))) in *.
  set (lm := int_of (monthLimitCents (limits input))) in *.
  set (s := int_of (sessionSpentCents t)) in *. set (m := int_of (monthSpentCents t)) in *.
  set (a := int_of (amountCents input)) in *.
  destruct (ls <? s + a)%Z eqn:L1, (lm <? m + a)%Z eqn:L2; simpl;
    exists t, a, ls, lm, s, m; rewrite ?L1, ?L2; split_and!; try done;
    apply Z.ltb_ge; done.
Qed.
