(* ===== verification/Json.v ===== *)
(** * JSON values

    The values tool parameters, metadata and the JSON columns hold, their
    serialisation ([JSON.stringify]) and the two parsers of stored columns the
    engine owns: the held-turn envelope of [packages/engine/src/llm/canonical.ts]
    and the spend context of the coordinator. A stored JSON column is modelled by
    what [JSON.parse] makes of it, or by its text when it does not parse. *)

From S2P Require Export Platform Spend.
Open Scope Z_scope.

Inductive json :=
  | JNull
  | JBool (b : bool)
  | JNum (n : jsnum)
  | JStr (s : jsstr)
  | JArr (l : list json)
  | JObj (fields : list (jsstr * json)).

(** The content of a TEXT column that should hold JSON. *)
Inductive json_text := Parsed (v : json) | NotJson (s : jsstr).
Definition JSON_parse (t : json_text) : option json :=
  match t with Parsed v => Some v | NotJson _ => None end.
(** [if (column)]: present and not the empty string. *)
Definition truthy (t : option json_text) : bool :=
  match t with None => false | Some (NotJson []) => false | Some _ => true end.
(** An object as [Object.entries] lists it. *)
Abbreviation fields := (list (jsstr * json)).

Fixpoint get (k : jsstr) (fs : fields) : option json :=
  match fs with
  | [] => None
  | (k', v) :: fs' => if decide (k' = k) then Some v else get k fs'
  end.

(** [v.k] on a parsed value; arrays and primitives have no such member. *)
Definition member (k : jsstr) (v : json) : option json :=
  match v with JObj fs => get k fs | _ => None end.

(** [typeof v === "object" && v !== null]. *)
Definition is_object (v : json) : bool :=
  match v with JArr _ | JObj _ => true | _ => false end.

(** The integer a number is, if it is one. *)
Definition num_int (x : jsnum) : option Z :=
  if 0 <=? num_exp x then Some (num_sig x * 10 ^ num_exp x)
  else if num_sig x mod 10 ^ (- num_exp x) =? 0 then Some (num_sig x / 10 ^ (- num_exp x))
  else None.

Definition jint (z : Z) : json := JNum (num_of_Z z).

(** ** [JSON.stringify] *)

Definition hex4 (c : N) : jsstr :=
  hex_digit (c / 4096 mod 16) :: hex_digit (c / 256 mod 16) ::
  hex_digit (c / 16 mod 16) :: [hex_digit (c mod 16)].
Definition u_escape (c : N) : jsstr := js "\u" ++ hex4 c.

Definition escape_unit (c : N) : jsstr :=
  (if c =? 8 then js "\b" else if c =? 9 then js "\t" else if c =? 10 then js "\n"
   else if c =? 12 then js "\f" else if c =? 13 then js "\r"
   else if c =? 34 then [92; 34] else if c =? 92 then [92; 92]
   else if c <? 32 then u_escape c else [c])%N.

(** Unpaired surrogates are escaped, paired ones kept. *)
Fixpoint escape (s : jsstr) : jsstr :=
  match s with
  | [] => []
  | c :: rest =>
      if is_high c then
        match rest with
        | d :: rest' =>
            if is_low d then c :: d :: escape rest' else u_escape c ++ escape rest
        | [] => u_escape c
        end
      else if is_low c then u_escape c ++ escape rest
      else escape_unit c ++ escape rest
  end.
Definition quote (s : jsstr) : jsstr := [34%N] ++ escape s ++ [34%N].

Fixpoint join (sep : jsstr) (l : list jsstr) : jsstr :=
  match l with
  | [] => []
  | [x] => x
  | x :: l' => x ++ sep ++ join sep l'
  end.

Fixpoint JSON_stringify (v : json) : jsstr :=
  match v with
  | JNull => js "null"
  | JBool b => if b then js "true" else js "false"
  | JNum n => num_to_string n
  | JStr s => quote s
  | JArr l => js "[" ++ join (js ",") (map JSON_stringify l) ++ js "]"
  | JObj fs =>
      js "{" ++ join (js ",") (map (λ kv, quote (fst kv) ++ js ":" ++ JSON_stringify (snd kv)) fs)
      ++ js "}"
  end.

Arguments JSON_stringify : simpl never.

Example stringify_example :
  JSON_stringify (JObj [(js "a", JArr [jint 1; JNull]); (js "b", JStr [0xD800%N; 97%N])]) =
  js "{" ++ quote (js "a") ++ js ":[1,null]," ++ quote (js "b") ++ js ":" ++
  [34%N] ++ js "\ud800a" ++ [34%N] ++ js "}".
Proof. reflexivity. Qed.

(** ** The held-turn envelope: [llm/canonical.ts] *)

Definition CANONICAL_SHAPE_VERSION : Z := 1.

Inductive ParsedTurnState := TurnOk (state : json) | TurnUnparseable | TurnFutureVersion.

Definition wrapTurnState (state : json) : json_text :=
  Parsed (JObj [(js "v", jint CANONICAL_SHAPE_VERSION); (js "state", state)]).

(** v0 to v1 is the identity; no other version reaches it. *)
Definition migrateHeldTurn (fromVersion : Z) (state : json) : json := state.

(** [in] finds the key as an own property of a parsed object. *)
Definition parseTurnState (raw : json_text) : ParsedTurnState :=
  match JSON_parse raw with
  | None => TurnUnparseable
  | Some parsed =>
      if negb (is_object parsed) then TurnUnparseable
      else match member (js "v") parsed with
      | None => TurnOk (migrateHeldTurn 0 parsed)
      | Some v =>
          match v, member (js "state") parsed with
          | JNum n, Some st =>
              match num_int n with
              | Some v =>
                  if (v <? 0) || negb (is_object st) then TurnUnparseable
                  else if CANONICAL_SHAPE_VERSION <? v then TurnFutureVersion
                  else TurnOk (migrateHeldTurn v st)
              | None => TurnUnparseable
              end
          | _, _ => TurnUnparseable
          end
      end
  end.

(** What the coordinator reads off a held turn. *)
Definition ts_answered (st : json) : bool :=
  match member (js "answered") st with Some _ => true | None => false end.
Definition ts_dispatched (st : json) : bool :=
  match member (js "dispatched") st with Some (JBool true) => true | _ => false end.
Definition ts_heldCall (st : json) : option json :=
  match member (js "heldCall") st with
  | Some (JObj fs) => Some (JObj fs)
  | Some (JArr l) => Some (JArr l)
  | _ => None
  end.

(** ** The spend context: [parseSpendContext] *)

Inductive spend_reason := over_limit | unpriced | totals_unavailable.
#[export] Instance spend_reason_eq_dec : EqDecision spend_reason.
Proof. solve_decision. Defined.

Record SpendHoldContext := mkSpendCtx {
  sc_amountCents : option Z;
  sc_reason : spend_reason;
  sc_breaches : list SpendBreach;
  sc_summary : option jsstr;
}.

Definition reason_text (r : spend_reason) : jsstr :=
  match r with
  | over_limit => js "over_limit" | unpriced => js "unpriced"
  | totals_unavailable => js "totals_unavailable"
  end.
Definition parse_reason (s : jsstr) : option spend_reason :=
  if decide (s = js "over_limit") then Some over_limit
  else if decide (s = js "unpriced") then Some unpriced
  else if decide (s = js "totals_unavailable") then Some totals_unavailable
  else None.
Definition window_text (w : SpendWindow) : jsstr :=
  match w with W_session => js "session" | W_month => js "month" end.
Definition parse_window (s : jsstr) : option SpendWindow :=
  if decide (s = js "session") then Some W_session
  else if decide (s = js "month") then Some W_month
  else None.

Definition safe_num (v : json) : option Z :=
  match v with
  | JNum n => match num_int n with Some z => if safe_int z then Some z else None | None => None end
  | _ => None
  end.

Arguments safe_num : simpl never.
Arguments jint : simpl never.

Definition breach_json (b : SpendBreach) : json :=
  JObj [(js "window", JStr (window_text (br_window b)));
        (js "limitCents", jint (br_limitCents b));
        (js "spentCents", jint (br_spentCents b))].
Definition spend_json (c : SpendHoldContext) : json :=
  JObj ([(js "amountCents", match sc_amountCents c with Some z => jint z | None => JNull end);
         (js "reason", JStr (reason_text (sc_reason c)));
         (js "breaches", JArr (breach_json <$> sc_breaches c))] ++
        match sc_summary c with Some s => [(js "summary", JStr s)] | None => [] end).

Definition parse_breach (raw : json) : option SpendBreach :=
  if negb (is_object raw) then None
  else
    w ← match member (js "window") raw with Some (JStr s) => parse_window s | _ => None end;
    l ← member (js "limitCents") raw ≫= safe_num;
    s ← member (js "spentCents") raw ≫= safe_num;
    Some (mkBreach w l s).

(** [None] for "no context", [Some None] for a context that cannot be read. *)
Definition parseSpendContext (column : option json_text) : option (option SpendHoldContext) :=
  if negb (truthy column) then None
  else match column ≫= JSON_parse with
  | None => Some None
  | Some c => Some (
      if negb (is_object c) then None
      else
        amount ← match member (js "amountCents") c with
                 | Some JNull => Some None
                 | Some v => Some <$> safe_num v
                 | None => None
                 end;
        reason ← match member (js "reason") c with Some (JStr s) => parse_reason s | _ => None end;
        summary ← match member (js "summary") c with
                  | None => Some None
                  | Some (JStr s) => if (length s <=? 120)%nat then Some (Some s) else None
                  | Some _ => None
                  end;
        bs ← match member (js "breaches") c with
             | Some (JArr l) => mapM parse_breach l
             | _ => None
             end;
        Some (mkSpendCtx amount reason bs summary))
  end.

(** ** Facts *)

Lemma num_norm_int fuel z e :
  0 <= e → num_int (num_norm fuel z e) = Some (z * 10 ^ e).
Proof.
  revert z e. induction fuel as [|fuel IH]; intros z e He; simpl.
  { unfold num_int. simpl. by rewrite (proj2 (Z.leb_le 0 e)). }
  destruct (Z.eqb_spec z 0) as [->|].
  { unfold num_int. simpl. done. }
  destruct (Z.eqb_spec (z mod 10) 0) as [Hm|].
  - rewrite IH by lia. pose proof (Z.div_mod z 10 ltac:(lia)) as Hz.
    rewrite Z.pow_add_r by lia. f_equal. revert Hz. rewrite Hm. generalize (z / 10) (10 ^ e). lia.
  - unfold num_int. simpl. by rewrite (proj2 (Z.leb_le 0 e)).
Qed.

Lemma num_int_of_Z z : num_int (num_of_Z z) = Some z.
Proof. unfold num_of_Z. rewrite num_norm_int by done. f_equal. lia. Qed.

Lemma safe_num_jint z : safe_int z = true → safe_num (jint z) = Some z.
Proof. intros H. unfold safe_num, jint. by rewrite num_int_of_Z, H. Qed.

Definition breach_safe (b : SpendBreach) : Prop :=
  safe_int (br_limitCents b) = true ∧ safe_int (br_spentCents b) = true.
Definition spend_safe (c : SpendHoldContext) : Prop :=
  match sc_amountCents c with Some z => safe_int z = true | None => True end ∧
  Forall breach_safe (sc_breaches c) ∧
  match sc_summary c with Some s => (length s <= 120)%nat | None => True end.

Lemma parse_breach_json b : breach_safe b → parse_breach (breach_json b) = Some b.
Proof.
  intros [Hl Hs]. destruct b as [w l s]. unfold parse_breach, breach_json. simpl in *.
  destruct w; simpl; unfold parse_window; lit_decide;
    by rewrite !safe_num_jint by done.
Qed.

(** ** Properties *)

(** A stored spend context reads back as what was stored, when its amounts
    are safe integers and its summary is at most 120 code units; and a held turn
    wrapped at one version parses to the same state. *)
Theorem stored_contexts_roundtrip c st :
  spend_safe c → is_object st = true →
  parseSpendContext (Some (Parsed (spend_json c))) = Some (Some c) ∧
  parseTurnState (wrapTurnState st) = TurnOk st.
Proof.
  intros (Ha&Hb&Hs) Hst. split.
  - assert (mapM parse_breach (breach_json <$> sc_breaches c) = Some (sc_breaches c)) as Hbs.
    { apply mapM_Some_2, Forall2_fmap_l, Forall_Forall2_diag.
      eapply Forall_impl; [exact Hb|]. intros b. apply parse_breach_json. }
    destruct c as [a r bs su]. simpl in *. unfold parseSpendContext, spend_json. simpl.
    rewrite Hbs. destruct a as [a|], r, su as [su|]; simpl;
      unfold parse_reason; lit_decide; rewrite ?safe_num_jint by done; simpl;
      rewrite ?(proj2 (Nat.leb_le _ _)) by done; done.
  - unfold parseTurnState, wrapTurnState. simpl. lit_decide. by rewrite Hst.
Qed.

Lemma stored_contexts_roundtrip_witness :
  let c := mkSpendCtx (Some 1500) over_limit [mkBreach W_session 2000 900] (Some (js "Two pizzas")) in
  parseSpendContext (Some (Parsed (spend_json c))) = Some (Some c) ∧
  parseTurnState (wrapTurnState (JObj [(js "dispatched", JBool true)])) =
    TurnOk (JObj [(js "dispatched", JBool true)]).
Proof.
  intros c. apply stored_contexts_roundtrip; [|reflexivity].
  split_and!; [reflexivity| |vm_compute; lia]. repeat constructor.
Defined.
