(* ===== verification/JsonText.v ===== *)
(** * Reading JSON text

    The reader of a string literal, as [JSON.parse] does it, and the facts that make a
    serialised value readable: a literal reads back, and the text of a value determines
    the value. Texts that frame or hash serialised values rely on them. *)

From S2P Require Export Json.
Open Scope Z_scope.

(** ** String literals *)

Definition unhex (c : N) : option N :=
  (if (48 <=? c) && (c <=? 57) then Some (c - 48)
   else if (97 <=? c) && (c <=? 102) then Some (c - 87)
   else if (65 <=? c) && (c <=? 70) then Some (c - 55) else None)%N.
Definition unhex4 (a b c d : N) : option N :=
  a ← unhex a; b ← unhex b; c ← unhex c; d ← unhex d; Some (((a * 16 + b) * 16 + c) * 16 + d)%N.
(** The character a single-letter escape stands for. *)
Definition unescape (e : N) : option N :=
  (if (e =? 34) || (e =? 92) || (e =? 47) then Some e
   else if e =? 98 then Some 8 else if e =? 102 then Some 12 else if e =? 110 then Some 10
   else if e =? 114 then Some 13 else if e =? 116 then Some 9 else None)%N.

(** The characters up to the closing quote, and what follows it. *)
Fixpoint unquote (s : jsstr) : option (jsstr * jsstr) :=
  match s with
  | [] => None
  | c :: s1 =>
      if (c =? 34)%N then Some ([], s1)
      else if (c =? 92)%N then
        match s1 with
        | e :: s2 =>
            if (e =? 117)%N then
              match s2 with
              | h1 :: h2 :: h3 :: h4 :: s3 =>
                  x ← unhex4 h1 h2 h3 h4; '(t, k) ← unquote s3; Some (x :: t, k)
              | _ => None
              end
            else x ← unescape e; '(t, k) ← unquote s2; Some (x :: t, k)
        | [] => None
        end
      else if (c <? 32)%N then None
      else '(t, k) ← unquote s1; Some (c :: t, k)
  end.

Example unquote_example :
  unquote (drop 1 (quote [97; 10; 34; 0xD800; 1; 0x2028]%N) ++ js ",") = Some ([97; 10; 34; 0xD800; 1; 0x2028]%N, js ",").
Proof. reflexivity. Qed.

(** ** The integers and texts of a value are ones a number and a string can hold *)

Definition max_plain_int : Z := 10 ^ 21.
Definition plain_num (x : jsnum) : Prop := ∃ z, x = num_of_Z z ∧ Z.abs z < max_plain_int.
Fixpoint plain (v : json) : Prop :=
  match v with
  | JNull | JBool _ => True
  | JNum x => plain_num x
  | JStr s => units s
  | JArr l => foldr (λ v P, plain v ∧ P) True l
  | JObj fs => foldr (λ kv P, units (fst kv) ∧ plain (snd kv) ∧ P) True fs
  end.

(** ** Facts: literals read back *)

Lemma hex_digit_16 n : (hex_digit (n mod 16) < 0x80)%N.
Proof. apply hex_digit_ascii. Qed.

Lemma u_escape_ascii c : ascii_only (u_escape c).
Proof.
  unfold u_escape, hex4. apply ascii_app; [ascii_lit|].
  repeat (apply ascii_cons; [apply hex_digit_16|]). apply ascii_nil.
Qed.

Lemma unhex_digit n : (n < 16)%N → unhex (hex_digit n) = Some n.
Proof.
  intros H. unfold hex_digit, unhex. destruct (N.ltb_spec n 10).
  - rewrite !(proj2 (N.leb_le _ _)) by lia. simpl. f_equal. lia.
  - rewrite (proj2 (N.leb_gt (87 + n) 57)), !(proj2 (N.leb_le _ _)) by lia. rewrite andb_false_r. simpl. f_equal. lia.
Qed.

Lemma unhex4_hex c : (c < 0x10000)%N →
  unhex4 (hex_digit (c / 4096 mod 16)) (hex_digit (c / 256 mod 16)) (hex_digit (c / 16 mod 16)) (hex_digit (c mod 16)) = Some c.
Proof.
  intros H. unfold unhex4. rewrite !unhex_digit by (apply N.mod_upper_bound; lia). simpl. f_equal.
  zify. Z.to_euclidean_division_equations. lia.
Qed.

Lemma unquote_plain c s : c ≠ 34%N → c ≠ 92%N → (32 <= c)%N →
  unquote (c :: s) = ('(t, k) ← unquote s; Some (c :: t, k)).
Proof. intros H1 H2 H3. cbn [unquote]. by rewrite (proj2 (N.eqb_neq _ _) H1), (proj2 (N.eqb_neq _ _) H2), (proj2 (N.ltb_ge _ _) H3). Qed.

Lemma unquote_u c s : (c < 0x10000)%N → unquote (u_escape c ++ s) = ('(t, k) ← unquote s; Some (c :: t, k)).
Proof. intros H. change (u_escape c ++ s) with (92%N :: 117%N :: (hex4 c ++ s)). unfold hex4. cbn [unquote app]. simpl. by rewrite unhex4_hex. Qed.

Lemma unquote_unit c s : (c < 0x10000)%N → is_high c = false → is_low c = false →
  unquote (escape_unit c ++ s) = ('(t, k) ← unquote s; Some (c :: t, k)).
Proof.
  intros Hc Hh Hl. unfold escape_unit.
  repeat match goal with |- context [if (c =? ?n)%N then _ else _] =>
    destruct (N.eqb_spec c n); [subst; reflexivity|] end.
  destruct (N.ltb_spec c 32); [by apply unquote_u|]. by apply unquote_plain.
Qed.

(** A unit that opens no pair of the text it stands in. *)
Definition lone (c : N) (s : jsstr) : Prop :=
  is_high c = true → match s with d :: _ => is_low d = false | [] => True end.

Lemma escape_lone c s :
  lone c s → escape (c :: s) = (if is_high c || is_low c then u_escape c else escape_unit c) ++ escape s.
Proof.
  unfold lone. cbn [escape]. destruct (is_high c); cbn [orb].
  - intros H. destruct s as [|d s]; [done|]. by rewrite H.
  - intros _. by destruct (is_low c).
Qed.

Lemma escape_pair c d s : is_high c = true → is_low d = true → escape (c :: d :: s) = c :: d :: escape s.
Proof. intros Hc Hd. cbn [escape]. by rewrite Hc, Hd. Qed.

Lemma pair_or_lone c s : lone c s ∨ ∃ d s', s = d :: s' ∧ is_high c = true ∧ is_low d = true.
Proof.
  unfold lone. destruct (is_high c); [|by left]. destruct s as [|d s]; [by left|].
  destruct (is_low d) eqn:?; [right; eauto|by left].
Qed.

Lemma unquote_lone c s k :
  (c < 0x10000)%N → lone c s → unquote (escape (c :: s) ++ k) = ('(t, k) ← unquote (escape s ++ k); Some (c :: t, k)).
Proof.
  intros Hc Hl. rewrite escape_lone by done. rewrite <- app_assoc.
  destruct (is_high c) eqn:?; [by apply unquote_u|]. destruct (is_low c) eqn:?; [by apply unquote_u|].
  by apply unquote_unit.
Qed.

Lemma unquote_escape s k : units s → unquote (escape s ++ 34%N :: k) = Some (s, k).
Proof.
  unfold units. induction s as [|c|c d s IH IHd] using jsstr_ind2; [done|..].
  - intros [Hc _]%Forall_cons. by rewrite (unquote_lone c []).
  - intros [Hc Hds]%Forall_cons. apply Forall_cons in Hds as Hs. destruct Hs as [Hd Hs].
    destruct (pair_or_lone c (d :: s)) as [Hl|(d'&s'&[= <- <-]&Hh&Hl)].
    + by rewrite unquote_lone, IHd.
    + rewrite escape_pair by done. cbn [app]. surrogates. rewrite !unquote_plain, IH by (done || lia). done.
Qed.

Lemma unquote_quote s k : units s → unquote (drop 1 (quote s ++ k)) = Some (s, k).
Proof. intros H. unfold quote. cbn [app drop]. rewrite <- app_assoc. by apply unquote_escape. Qed.

(** ** Facts: numbers *)

Lemma log2_div10 n : (10 <= n)%N → (N.log2 (n / 10) < N.log2 n)%N.
Proof.
  intros H. apply (proj1 (N.log2_lt_pow2 (n / 10) (N.log2 n) ltac:(apply N.div_str_pos; lia))).
  pose proof (N.log2_spec n ltac:(lia)) as [_ Hn]. rewrite N.pow_succ_r' in Hn. apply N.Div0.div_lt_upper_bound.
  revert Hn. generalize (2 ^ N.log2 n)%N. lia.
Qed.

Lemma dec_digits_fuel f g n :
  (N.to_nat (N.log2 n) < f)%nat → (N.to_nat (N.log2 n) < g)%nat → dec_digits f n = dec_digits g n.
Proof.
  revert g n. induction f as [|f IH]; intros [|g] n Hf Hg; try lia. cbn [dec_digits]. f_equal.
  destruct (N.ltb_spec n 10) as [|Hn]; [done|]. pose proof (log2_div10 n Hn). apply IH; lia.
Qed.

Lemma dec_small n : (n < 10)%N → dec n = [(48 + n)%N].
Proof. intros H. unfold dec. cbn [dec_digits]. rewrite (proj2 (N.ltb_lt _ _) H), N.mod_small by done. done. Qed.

Lemma dec_step n : (10 <= n)%N → dec n = dec (n / 10) ++ [(48 + n mod 10)%N].
Proof.
  intros H. unfold dec at 1. cbn [dec_digits]. rewrite (proj2 (N.ltb_ge _ _) H). f_equal.
  pose proof (log2_div10 n H). apply dec_digits_fuel; lia.
Qed.

Lemma dec_times10 n : (0 < n)%N → dec (n * 10) = dec n ++ [48%N].
Proof.
  intros H. rewrite dec_step by lia. rewrite N.div_mul by done. by rewrite N.Div0.mod_mul.
Qed.

Lemma dec_length k n : (0 < k)%nat → (n < 10 ^ N.of_nat k)%N → (length (dec n) <= k)%nat.
Proof.
  revert n. induction k as [|k IH]; intros n H0 Hn; [lia|]. destruct (N.lt_ge_cases n 10) as [|Hge].
  { rewrite dec_small by done. simpl. lia. }
  destruct k as [|k]; [change (10 ^ N.of_nat 1)%N with 10%N in Hn; lia|].
  rewrite dec_step, length_app by done. simpl. assert (length (dec (n / 10)) <= S k)%nat; [|lia].
  apply IH; [lia|]. apply N.Div0.div_lt_upper_bound.
  rewrite Nat2N.inj_succ, N.pow_succ_r' in Hn. lia.
Qed.

Definition sign_text (z : Z) : jsstr := if z <? 0 then js "-" else [].

Lemma num_text z e :
  z ≠ 0 → 0 <= e → Z.of_nat (length (dec (Z.to_N (Z.abs z)))) + e <= 21 →
  num_to_string (JsNum z e) = sign_text z ++ dec (Z.to_N (Z.abs z)) ++ replicate (Z.to_nat e) 48%N.
Proof.
  intros Hz He Hl. unfold num_to_string, sign_text. cbn [num_sig num_exp].
  rewrite (proj2 (Z.eqb_neq z 0)), !(proj2 (Z.leb_le _ _)) by lia. cbn [andb].
  replace (Z.to_nat (Z.of_nat (length (dec (Z.to_N (Z.abs z)))) + e - Z.of_nat (length (dec (Z.to_N (Z.abs z)))))) with (Z.to_nat e) by lia.
  by destruct (z <? 0).
Qed.

Lemma num_norm_text fuel z e :
  z ≠ 0 → 0 <= e → Z.of_nat (length (dec (Z.to_N (Z.abs z)))) + e <= 21 →
  num_to_string (num_norm fuel z e) = sign_text z ++ dec (Z.to_N (Z.abs z)) ++ replicate (Z.to_nat e) 48%N.
Proof.
  revert z e. induction fuel as [|fuel IH]; intros z e Hz He Hl; cbn [num_norm]; [by apply num_text|].
  rewrite (proj2 (Z.eqb_neq z 0)) by done. destruct (Z.eqb_spec (z mod 10) 0) as [Hm|]; [|by apply num_text].
  pose proof (Z.div_mod z 10 ltac:(lia)) as E. rewrite Hm, Z.add_0_r in E.
  assert (z / 10 ≠ 0) as Hq by lia. set (q := z / 10) in *. clearbody q. subst z.
  replace (Z.to_N (Z.abs (10 * q))) with (Z.to_N (Z.abs q) * 10)%N in * by lia.
  rewrite dec_times10 in * by lia. rewrite length_app in Hl. simpl in Hl. rewrite IH by lia.
  replace (Z.to_nat (e + 1)) with (S (Z.to_nat e)) by lia. rewrite <- app_assoc.
  unfold sign_text. by replace (10 * q <? 0) with (q <? 0) by (destruct (Z.ltb_spec q 0), (Z.ltb_spec (10 * q) 0); lia).
Qed.

Lemma num_of_Z_text z : Z.abs z < max_plain_int → num_to_string (num_of_Z z) = int_to_string z.
Proof.
  intros H. unfold num_of_Z. destruct (decide (z = 0)) as [->|Hz]; [done|].
  rewrite num_norm_text; [|done|done|].
  - rewrite app_nil_r. unfold sign_text, int_to_string. destruct (Z.ltb_spec z 0); [by rewrite Z.abs_neq by lia|by rewrite Z.abs_eq by lia].
  - pose proof (dec_length 21 (Z.to_N (Z.abs z)) ltac:(lia)) as Hl. change max_plain_int with (Z.of_N (10 ^ N.of_nat 21)) in H. lia.
Qed.

(** ** Facts: the text of a value determines it *)

(** What may follow a value: nothing, a comma or a closing bracket. *)
Definition delim (k : jsstr) : Prop := match k with [] => True | c :: _ => c = 44%N ∨ c = 93%N ∨ c = 125%N end.

Section json_induction.
Context (P : json → Prop) (Pnull : P JNull) (Pbool : ∀ b, P (JBool b)) (Pnum : ∀ x, P (JNum x))
  (Pstr : ∀ s, P (JStr s)) (Parr : ∀ l, Forall P l → P (JArr l))
  (Pobj : ∀ fs, Forall (λ kv, P (snd kv)) fs → P (JObj fs)).
Fixpoint json_rec (v : json) : P v :=
  match v with
  | JNull => Pnull | JBool b => Pbool b | JNum x => Pnum x | JStr s => Pstr s
  | JArr l => Parr l ((fix go l := match l return Forall P l with
      | [] => Forall_nil_2 _ | x :: l => Forall_cons_2 _ _ _ (json_rec x) (go l) end) l)
  | JObj fs => Pobj fs ((fix go fs := match fs return Forall (λ kv, P (snd kv)) fs with
      | [] => Forall_nil_2 _ | kv :: fs => Forall_cons_2 _ _ _ (json_rec (snd kv)) (go fs) end) fs)
  end.
End json_induction.

(** [f a] can be read off the front of a text, among the values [Q] holds of. *)
Definition readable {A} (Q : A → Prop) (f : A → jsstr) (a : A) : Prop := ∀ b k k',
  Q b → delim k → delim k' → f a ++ k = f b ++ k' → a = b ∧ k = k'.
Definition opens_value (s : jsstr) : Prop := match s with [] => False | c :: _ => ¬ delim [c] end.

Section items.
Context {A : Type} (Q : A → Prop) (f : A → jsstr) (close : N).
Context (opens : ∀ a, Q a → opens_value (f a)) (closes : close = 93%N ∨ close = 125%N).

Definition items_tail (l : list A) (k : jsstr) : jsstr := foldr (λ a t, 44%N :: f a ++ t) (close :: k) l.
Lemma join_items a l k : Json.join (js ",") (f <$> a :: l) ++ close :: k = f a ++ items_tail l k.
Proof.
  revert a. induction l as [|b l IH]; intros a; [done|].
  change (Json.join (js ",") (f <$> a :: b :: l)) with (f a ++ js "," ++ Json.join (js ",") (f <$> b :: l)).
  rewrite <- !app_assoc, IH. done.
Qed.
Lemma items_tail_delim l k : delim (items_tail l k).
Proof. destruct l; simpl; [tauto|by left]. Qed.

Lemma items_tail_inj l l' k k' :
  Forall (readable Q f) l → Forall Q l' → items_tail l k = items_tail l' k' → l = l' ∧ k = k'.
Proof.
  intros Hl. revert l'. induction Hl as [|a l Ha Hl IH]; intros [|b l'] Hl'; simpl; [by intros [= ->]|..].
  - intros [= ->]. destruct closes; done.
  - intros [= <-]. destruct closes; done.
  - intros [= E]. apply Forall_cons in Hl' as [Hb Hl'].
    apply Ha in E as [-> E]; [|done|apply items_tail_delim..]. apply IH in E as [-> ->]; done.
Qed.

Lemma items_inj l l' k k' :
  Forall (readable Q f) l → Forall Q l → Forall Q l' →
  Json.join (js ",") (f <$> l) ++ close :: k = Json.join (js ",") (f <$> l') ++ close :: k' → l = l' ∧ k = k'.
Proof.
  assert (∀ a t u, Q a → f a ++ t ≠ close :: u) as Hno.
  { intros a t u Ha E. apply opens in Ha. destruct (f a) as [|c s]; simpl in *; [done|]. simplify_eq. tauto. }
  intros Hl HQ HQ'. destruct l as [|a l], l' as [|b l']; rewrite ?join_items; simpl.
  - by intros [= ->].
  - intros E. apply Forall_cons in HQ' as [Hb _]. by destruct (Hno b _ _ Hb (eq_sym E)).
  - intros E. apply Forall_cons in HQ as [Hb _]. by destruct (Hno a _ _ Hb E).
  - intros E. apply Forall_cons in Hl as [Ha Hl], HQ' as [Hb HQ'].
    apply Ha in E as [-> E]; [|done|apply items_tail_delim..].
    by apply items_tail_inj in E as [-> ->].
Qed.
End items.

Lemma plain_arr l : plain (JArr l) ↔ Forall plain l.
Proof. simpl. induction l; simpl; [by split|]. rewrite Forall_cons, IHl. done. Qed.
Definition plain_member (kv : jsstr * json) : Prop := units (fst kv) ∧ plain (snd kv).
Lemma plain_obj fs : plain (JObj fs) ↔ Forall plain_member fs.
Proof. simpl. induction fs; simpl; [by split|]. rewrite Forall_cons, IHfs. unfold plain_member. tauto. Qed.

Lemma digit_not_delim c : is_digit c = true → ¬ delim [c].
Proof. unfold is_digit. intros [?%N.leb_le ?%N.leb_le]%andb_true_iff. simpl. lia. Qed.

Lemma dec_readable a b k k' :
  delim k → delim k' → dec a ++ k = dec b ++ k' → a = b ∧ k = k'.
Proof.
  assert (∀ l l' k k', Forall (λ c, is_digit c = true) l → Forall (λ c, is_digit c = true) l' →
    delim k → delim k' → l ++ k = l' ++ k' → l = l' ∧ k = k') as H.
  { intros l l' t t' Hl Hl' Ht Ht'. revert l' Hl'. induction Hl as [|c l Hc Hl IH]; intros l' Hl' E.
    - destruct Hl' as [|c l' Hc' _]; [done|]. simpl in E. subst. by apply digit_not_delim in Hc'.
    - destruct Hl' as [|c' l' Hc' Hl']; simpl in E; [subst; by apply digit_not_delim in Hc|].
      injection E as -> E. by apply IH in E as [-> ->]. }
  intros Hk Hk' E. apply H in E as [?%(inj dec) ->]; auto using dec_digit.
Qed.

Lemma int_readable a b k k' :
  delim k → delim k' → int_to_string a ++ k = int_to_string b ++ k' → a = b ∧ k = k'.
Proof.
  assert (∀ n m t t', js "-" ++ dec n ++ t = dec m ++ t' → False) as Hneg.
  { intros n m t t' E. pose proof (dec_digit m) as Hd. pose proof (dec_nonempty m) as Hm.
    destruct (dec m) as [|c l]; [done|]. injection E as <- _. inversion_clear Hd. discriminate. }
  intros Hk Hk'. unfold int_to_string. destruct (Z.ltb_spec a 0), (Z.ltb_spec b 0); rewrite <- ?app_assoc; intros E.
  - apply app_inv_head, dec_readable in E as [? ->]; [split; [lia|done]|done..].
  - exfalso; eauto.
  - symmetry in E. exfalso; eauto.
  - apply dec_readable in E as [? ->]; [split; [lia|done]|done..].
Qed.

(** The kind of a value shows in the first character of its text. *)
Definition kind_of_char (c : N) : nat :=
  if (c =? 110)%N then 0 else if (c =? 116)%N then 1 else if (c =? 102)%N then 2 else if (c =? 34)%N then 4
  else if (c =? 91)%N then 5 else if (c =? 123)%N then 6 else 3.
Definition kind_of (v : json) : nat :=
  match v with JNull => 0 | JBool b => if b then 1 else 2 | JNum _ => 3 | JStr _ => 4 | JArr _ => 5 | JObj _ => 6 end.

Lemma int_head z : ∃ c s, int_to_string z = c :: s ∧ kind_of_char c = 3%nat ∧ ¬ delim [c].
Proof.
  unfold int_to_string. destruct (z <? 0); [eexists _, _; split_and!; [done|done|simpl; lia]|].
  pose proof (dec_digit (Z.to_N z)) as Hd. pose proof (dec_nonempty (Z.to_N z)).
  destruct (dec (Z.to_N z)) as [|c s]; [done|]. apply Forall_cons in Hd as [Hc _].
  exists c, s. split_and!; [done| |by apply digit_not_delim].
  unfold is_digit in Hc. apply andb_true_iff in Hc as [?%N.leb_le ?%N.leb_le]. unfold kind_of_char.
  by rewrite !(proj2 (N.eqb_neq _ _)) by lia.
Qed.

Lemma stringify_head v : plain v → ∃ c s, JSON_stringify v = c :: s ∧ kind_of_char c = kind_of v ∧ ¬ delim [c].
Proof.
  destruct v as [|[]|x| | |]; intros Hp; try (eexists _, _; split_and!; [reflexivity|reflexivity|simpl; lia]).
  destruct Hp as (z&->&Hz). change (JSON_stringify (JNum (num_of_Z z))) with (num_to_string (num_of_Z z)).
  rewrite num_of_Z_text by done. apply int_head.
Qed.

Lemma stringify_opens_value v : plain v → opens_value (JSON_stringify v).
Proof. intros (c&s&->&_&Hd)%stringify_head. done. Qed.

Lemma stringify_kind v w k k' :
  plain v → plain w → JSON_stringify v ++ k = JSON_stringify w ++ k' → kind_of v = kind_of w.
Proof.
  intros (c&s&->&<-&_)%stringify_head (d&t&->&<-&_)%stringify_head. by intros [= -> _].
Qed.

Lemma quote_readable s t k k' : units s → units t → quote s ++ k = quote t ++ k' → s = t ∧ k = k'.
Proof.
  intros Hs Ht E. apply (f_equal (λ u, unquote (drop 1 u))) in E.
  rewrite !unquote_quote in E by done. by simplify_eq.
Qed.

Definition member_text (kv : jsstr * json) : jsstr := quote (fst kv) ++ js ":" ++ JSON_stringify (snd kv).
Lemma stringify_arr l : JSON_stringify (JArr l) = 91%N :: Json.join (js ",") (JSON_stringify <$> l) ++ js "]".
Proof. done. Qed.
Lemma stringify_obj fs : JSON_stringify (JObj fs) = 123%N :: Json.join (js ",") (member_text <$> fs) ++ js "}".
Proof. done. Qed.

(** The text of a value determines it, whatever follows. *)
Lemma stringify_readable v : plain v → readable plain JSON_stringify v.
Proof.
  induction v as [|b|x|s|l IH|fs IH] using json_rec; intros Hv w k k' Hw Hk Hk' E;
    pose proof (stringify_kind _ _ _ _ Hv Hw E) as Hkind.
  - destruct w as [|[]| | | |]; try done. by apply app_inv_head in E.
  - destruct w as [|b'| | | |]; try by destruct b. destruct b, b'; try done; by apply app_inv_head in E.
  - destruct w as [|[]|y| | |]; try done. destruct Hv as (z&->&Hz), Hw as (z'&->&Hz').
    change (num_to_string (num_of_Z z) ++ k = num_to_string (num_of_Z z') ++ k') in E.
    rewrite !num_of_Z_text in E by done. by apply int_readable in E as [-> ->].
  - destruct w as [|[]| |t| |]; try done. by apply quote_readable in E as [-> ->].
  - destruct w as [|[]| | |l'|]; try done. rewrite plain_arr in Hv, Hw. rewrite !stringify_arr in E.
    injection E as E. rewrite <- !app_assoc in E. eapply items_inj in E as [-> ->]; eauto using stringify_opens_value.
    rewrite Forall_forall in IH, Hv. apply Forall_forall. intros x Hx. apply IH; auto.
  - destruct w as [|[]| | | |fs']; try done. rewrite plain_obj in Hv, Hw. rewrite !stringify_obj in E.
    injection E as E. rewrite <- !app_assoc in E. eapply (items_inj plain_member) in E as [-> ->]; eauto.
    + intros kv _. simpl. lia.
    + rewrite Forall_forall in IH, Hv. apply Forall_forall. intros [key v] Hx [key' v'] t t' [Hku Hvp] Ht Ht' E'.
      unfold member_text in E'. cbn [fst snd] in E'. rewrite <- !app_assoc in E'.
      destruct (Hv _ Hx) as [Hu Hp]. apply quote_readable in E' as [-> E']; [|done..]. apply app_inv_head in E'.
      destruct (IH _ Hx Hp v' t t' Hvp Ht Ht' E') as [Ev ->]. cbn [snd] in Ev. by subst.
Qed.

Lemma stringify_inj v w : plain v → plain w → JSON_stringify v = JSON_stringify w → v = w.
Proof.
  intros Hv Hw E. apply (stringify_readable v Hv w [] []); [done..|]. by rewrite !app_nil_r.
Qed.

(** ** Facts: surrogates at a cut *)

Definition cut_pair (a b : jsstr) : bool :=
  match last a, b with Some c, d :: _ => is_high c && is_low d | _, _ => false end.

Lemma low_not_high c : is_low c = true → is_high c = false.
Proof. intros H. destruct (is_high c) eqn:?; [surrogates; lia|done]. Qed.

Lemma wf_last_high s c : toWellFormed s = s → last s = Some c → is_high c = false.
Proof.
  revert c. by_surrogates s; intros x E Hl; unfold replacement in *; simplify_eq;
    try done; try (surrogates; lia).
  - destruct s as [|y s]; simpl in *; [simplify_eq; by apply low_not_high|]. by apply IH.
  - by apply IHd.
Qed.

Lemma toWellFormed_length s : length (toWellFormed s) = length s.
Proof. by_surrogates s; try done; cbn [length]; by rewrite ?IH, ?IHd. Qed.

Lemma toWellFormed_app a b :
  cut_pair a b = false → toWellFormed (a ++ b) = toWellFormed a ++ toWellFormed b.
Proof.
  unfold cut_pair. by_surrogates a; intros Hc; try done.
  - destruct b as [|d b]; simpl in *; [done|]. by rewrite Hc.
  - change ((c :: d :: toWellFormed a) ++ toWellFormed b) with (c :: d :: (toWellFormed a ++ toWellFormed b)).
    f_equal. f_equal. apply IH. destruct a; [by destruct b|done].
  - cbn [app]. f_equal. by apply IHd.
  - cbn [app]. f_equal. by apply IHd.
  - cbn [app]. f_equal. by apply IHd.
Qed.

Lemma wf_no_cut a b : toWellFormed a = a → cut_pair a b = false.
Proof.
  intros Ha. unfold cut_pair. destruct (last a) as [c|] eqn:Hl; [|done]. destruct b; [done|].
  by rewrite (wf_last_high a c).
Qed.

(** A cut of a well-formed text leaves two, exactly when it splits no pair. *)
Lemma cut_well_formed a b :
  toWellFormed (a ++ b) = a ++ b →
  (cut_pair a b = false ↔ toWellFormed a = a) ∧ (cut_pair a b = false → toWellFormed b = b).
Proof.
  intros E. assert (cut_pair a b = false → toWellFormed a = a ∧ toWellFormed b = b) as H.
  { intros Hc. rewrite toWellFormed_app in E by done. apply app_inj_1 in E as [? ?]; [done|].
    apply toWellFormed_length. }
  split; [split|]; [by intros [? ?]%H| |by intros [? ?]%H].
  apply wf_no_cut.
Qed.

(** ** Facts: serialised text is well-formed *)

Definition well_text (s : jsstr) : Prop := toWellFormed s = s.

Lemma well_text_app a b : well_text a → well_text b → well_text (a ++ b).
Proof. unfold well_text. intros Ha Hb. rewrite toWellFormed_app, Ha, Hb; [done|]. by apply wf_no_cut. Qed.
Lemma well_text_ascii s : ascii_only s → well_text s.
Proof. intros H. by apply ascii_well_formed. Qed.
#[export] Hint Resolve well_text_app : wb.
#[export] Hint Extern 1 (well_text (js _)) => apply well_text_ascii; ascii_lit : wb.

Lemma escape_well_text s : well_text (escape s).
Proof.
  assert (∀ c, is_high c = false → is_low c = false → well_text (escape_unit c)) as Hu.
  { intros c Hh Hl. unfold escape_unit. repeat case_match; try done; [apply well_text_ascii, u_escape_ascii|].
    unfold well_text. simpl. by rewrite Hh, Hl. }
  induction s as [|c|c d s IH IHd] using jsstr_ind2; [done|..].
  - rewrite (escape_lone c []), app_nil_r by done. destruct (is_high c) eqn:?; [by apply well_text_ascii, u_escape_ascii|].
    destruct (is_low c) eqn:?; [by apply well_text_ascii, u_escape_ascii|by apply Hu].
  - destruct (pair_or_lone c (d :: s)) as [Hl|(d'&s'&[= <- <-]&Hh&Hl)].
    + rewrite escape_lone by done. apply well_text_app; [|done].
      destruct (is_high c) eqn:?; [by apply well_text_ascii, u_escape_ascii|].
      destruct (is_low c) eqn:?; [by apply well_text_ascii, u_escape_ascii|by apply Hu].
    + rewrite escape_pair by done. unfold well_text. simpl. by rewrite Hh, Hl, IH.
Qed.

Lemma quote_well_text s : well_text (quote s).
Proof. unfold quote. apply well_text_app; [done|]. apply well_text_app; [apply escape_well_text|done]. Qed.

Lemma join_well_text {A} (f : A → jsstr) l : Forall (λ a, well_text (f a)) l → well_text (Json.join (js ",") (f <$> l)).
Proof.
  intros H. induction H as [|a l Ha Hl IH]; [done|]. destruct l as [|b l]; [done|].
  change (well_text (f a ++ js "," ++ Json.join (js ",") (f <$> b :: l))). auto with wb.
Qed.

Lemma stringify_well_text v : well_text (JSON_stringify v).
Proof.
  induction v as [|b|x|s|l IH|fs IH] using json_rec.
  - done.
  - by destruct b.
  - apply well_text_ascii, num_to_string_ascii.
  - apply quote_well_text.
  - rewrite stringify_arr. apply (well_text_app (js "[")); [done|]. apply well_text_app; [by apply join_well_text|done].
  - rewrite stringify_obj. apply (well_text_app (js "{")); [done|]. apply well_text_app; [|done]. apply join_well_text.
    eapply Forall_impl; [exact IH|]. intros kv Hkv. unfold member_text.
    apply well_text_app; [apply quote_well_text|]. by apply (well_text_app (js ":")).
Qed.

Lemma units_app a b : units a → units b → units (a ++ b).
Proof. intros. by apply Forall_app. Qed.
Lemma ascii_units s : ascii_only s → units s.
Proof. intros H. eapply Forall_impl; [exact H|]. simpl. lia. Qed.
Lemma escape_units s : units s → units (escape s).
Proof.
  assert (∀ c, (c < 0x10000)%N → units (escape_unit c)) as Hu.
  { intros c Hc. unfold escape_unit. repeat case_match; try (apply ascii_units; first [ascii_lit|apply u_escape_ascii]).
    by repeat constructor. }
  unfold units in *. induction s as [|c|c d s IH IHd] using jsstr_ind2; [done|..].
  - intros [Hc _]%Forall_cons. rewrite (escape_lone c []), app_nil_r by done.
    destruct (is_high c || is_low c); [apply ascii_units, u_escape_ascii|by apply Hu].
  - intros [Hc Hds]%Forall_cons. apply Forall_cons in Hds as Hs. destruct Hs as [Hd Hs].
    destruct (pair_or_lone c (d :: s)) as [Hl|(d'&s'&[= <- <-]&Hh&Hl)].
    + rewrite escape_lone by done. apply Forall_app. split; [|auto].
      destruct (is_high c || is_low c); [apply ascii_units, u_escape_ascii|by apply Hu].
    + rewrite escape_pair by done. repeat (constructor; [done|]). auto.
Qed.
Lemma quote_units s : units s → units (quote s).
Proof. intros H. unfold quote. apply units_app; [by repeat constructor|]. apply units_app; [by apply escape_units|by repeat constructor]. Qed.
Lemma join_units {A} (f : A → jsstr) l : Forall (λ a, units (f a)) l → units (Json.join (js ",") (f <$> l)).
Proof.
  intros H. induction H as [|a l Ha Hl IH]; [constructor|]. destruct l as [|b l]; [done|].
  change (units (f a ++ js "," ++ Json.join (js ",") (f <$> b :: l))). apply units_app; [done|].
  apply units_app; [by apply ascii_units; ascii_lit|done].
Qed.
Lemma stringify_units v : plain v → units (JSON_stringify v).
Proof.
  induction v as [|b|x|s|l IH|fs IH] using json_rec; intros Hp.
  - by apply ascii_units; ascii_lit.
  - destruct b; by apply ascii_units; ascii_lit.
  - apply ascii_units, num_to_string_ascii.
  - by apply quote_units.
  - rewrite plain_arr in Hp. rewrite stringify_arr. apply (units_app (js "[")); [by apply ascii_units; ascii_lit|].
    apply units_app; [|by apply ascii_units; ascii_lit]. apply join_units.
    rewrite Forall_forall in *. auto.
  - rewrite plain_obj in Hp. rewrite stringify_obj. apply (units_app (js "{")); [by apply ascii_units; ascii_lit|].
    apply units_app; [|by apply ascii_units; ascii_lit]. apply join_units.
    rewrite Forall_forall in *. intros kv Hkv. destruct (Hp kv Hkv) as [Hk Hv].
    apply units_app; [by apply quote_units|]. apply (units_app (js ":")); [by apply ascii_units; ascii_lit|auto].
Qed.
