(* ===== verification/Db.v ===== *)
(** * The coordinator's store and the monad its code runs in

    The SQLite tables of [packages/engine/src/data/ddl.ts] (row types in
    [data/schemas/]) as lists of rows in insertion order, and the state the
    Durable Object's code threads: the tables, the clock, the identifier supply
    and the in-memory turn gate. A statement that violates a constraint throws;
    [transactionSync] restores the tables when its body throws. *)

From S2P Require Export DecisionClosure Policy Json IsoDate.
Open Scope Z_scope.

(** ** Rows *)

(** [audit_log]: the hashed fields, [hash], [epoch_prev_hash], and the content
    column, always null. *)
Record AuditLogRow := mkAuditRow {
  al_chain :> ChainEntry;
  al_parameters_content : option jsstr;
}.

Record ConnectedServicesRow := mkConnected {
  cs_service : jsstr;
  cs_connected_at : jsstr;
  cs_credential : option jsstr;
}.

Record UserSettingsRow := mkSetting { us_key : jsstr; us_value : jsstr }.

Record OAuthStateData := mkOAuthData {
  os_code_verifier : jsstr;
  os_code_challenge : jsstr;
  os_service : jsstr;
  os_auth_code : option jsstr;
  os_created_at : jsstr;
  os_expires_at : jsstr;
  os_denied : bool;
}.
Record OAuthStateRow := mkOAuthRow { os_state_key : jsstr; os_data :> OAuthStateData }.

Inductive policy_source := S_session | S_task | S_standing.
#[export] Instance policy_source_eq_dec : EqDecision policy_source.
Proof. solve_decision. Defined.

Record PolicyEntriesRow := mkPolicyRow {
  po_id : jsstr;
  po_source : policy_source;
  po_session_id : option jsstr;
  po_service : jsstr;
  po_verb : jsstr;
  po_noun : jsstr;
  po_decision : grant;
  po_priority : Z;
  po_created_at : jsstr;
  po_expires_at : option jsstr;
  po_consumed_at : option jsstr;
}.

Inductive hold_kind := H_confirmation | H_input.
#[export] Instance hold_kind_eq_dec : EqDecision hold_kind.
Proof. solve_decision. Defined.

Record HeldToolCallsRow := mkHeld {
  hc_id : jsstr;
  hc_session_id : jsstr;
  hc_pending_audit_entry_id : jsstr;
  hc_turn_state : json_text;
  hc_held_at : jsstr;
  hc_run_id : option jsstr;
  hc_hold_kind : hold_kind;
  hc_awaited_slot_keys : option json_text;
  hc_spend_context : option json_text;
}.

Inductive run_status :=
  | R_running | R_awaiting_confirmation | R_completed | R_failed | R_denied | R_expired
  | R_needs_input | R_cancelled.
#[export] Instance run_status_eq_dec : EqDecision run_status.
Proof. solve_decision. Defined.

Inductive origin := O_human | O_mcp_commission.
#[export] Instance origin_eq_dec : EqDecision origin.
Proof. solve_decision. Defined.

Record CommissionRunsRow := mkRun {
  cr_run_id : jsstr;
  cr_origin : origin;
  cr_goal : jsstr;
  cr_data : option json_text;
  cr_status : run_status;
  cr_session_id : jsstr;
  cr_created_at : jsstr;
  cr_updated_at : jsstr;
  cr_label : option jsstr;
  cr_status_detail : option json_text;
  cr_awaited_slot_keys : option json_text;
}.

Record SessionStateRow := mkSession {
  ss_session_id : jsstr;
  ss_started_at : jsstr;
  ss_agent_id : jsstr;
  ss_ended_at : option jsstr;
}.

Record SpendLedgerRow := mkSpend {
  sl_id : jsstr;
  sl_session_id : jsstr;
  sl_created_at : jsstr;
  sl_service : jsstr;
  sl_verb : jsstr;
  sl_amount_cents : Z;
  sl_quote_id : jsstr;
  sl_idempotency_key : jsstr;
  sl_settled_amount_cents : option Z;
  sl_audit_entry_id : jsstr;
}.

(** [refinement_versions], [refinement_validations] and [refinement_scopes]: the
    guidance a workflow may be given, its validation attempts, and which version
    of a scope is active. *)
Inductive RefinementState := RS_proposed | RS_validated | RS_approved | RS_active | RS_disabled.
#[export] Instance refinement_state_eq_dec : EqDecision RefinementState.
Proof. solve_decision. Defined.
Record RefinementVersionsRow := mkVersionRow {
  rv_id : jsstr;
  rv_family_id : jsstr;
  rv_revision : Z;
  rv_parent_id : option jsstr;
  rv_scope_key : jsstr;
  rv_version_hash : jsstr;
  rv_proposal_request_hash : jsstr;
  rv_envelope_json : json_text;
  rv_state : RefinementState;
  rv_latest_attempt_id : option jsstr;
  rv_validated_attempt_id : option jsstr;
  rv_approval_audit_id : option jsstr;
  rv_last_transition_audit_id : jsstr;
  rv_last_transition_json : json_text;
  rv_created_at : jsstr;
  rv_updated_at : jsstr;
}.

Inductive RefinementStatus := VS_running | VS_passed | VS_failed | VS_error.
#[export] Instance refinement_status_eq_dec : EqDecision RefinementStatus.
Proof. solve_decision. Defined.
Inductive RefinementAssurance := As_contract_only | As_behavior_measured.
#[export] Instance refinement_assurance_eq_dec : EqDecision RefinementAssurance.
Proof. solve_decision. Defined.
Record RefinementValidationsRow := mkValidationRow {
  va_id : jsstr;
  va_version_id : jsstr;
  va_version_hash : jsstr;
  va_status : RefinementStatus;
  va_assurance : RefinementAssurance;
  va_bindings_json : json_text;
  va_report_json : option json_text;
  va_report_hash : option jsstr;
  va_reason : option jsstr;
  va_started_at : jsstr;
  va_deadline_at : jsstr;
  va_completed_at : option jsstr;
}.
Record RefinementScopesRow := mkScopeRow {
  rc_scope_key : jsstr;
  rc_active_version_id : option jsstr;
  rc_generation : Z;
  rc_last_transition_audit_id : option jsstr;
  rc_last_transition_json : option json_text;
}.

Record Db := mkDb {
  audit_log : list AuditLogRow;
  connected_services : list ConnectedServicesRow;
  user_settings : list UserSettingsRow;
  oauth_state : list OAuthStateRow;
  policy_entries : list PolicyEntriesRow;
  held_tool_calls : list HeldToolCallsRow;
  commission_runs : list CommissionRunsRow;
  session_state : list SessionStateRow;
  spend_ledger : list SpendLedgerRow;
  refinement_versions : list RefinementVersionsRow;
  refinement_validations : list RefinementValidationsRow;
  refinement_scopes : list RefinementScopesRow;
}.

Definition empty_db : Db := mkDb [] [] [] [] [] [] [] [] [] [] [] [].

Definition set_audit_log (f : list AuditLogRow → list AuditLogRow) (d : Db) : Db :=
  mkDb (f (audit_log d)) (connected_services d) (user_settings d) (oauth_state d)
    (policy_entries d) (held_tool_calls d) (commission_runs d) (session_state d) (spend_ledger d)
    (refinement_versions d) (refinement_validations d) (refinement_scopes d).
Definition set_connected_services (f : list ConnectedServicesRow → list ConnectedServicesRow)
    (d : Db) : Db :=
  mkDb (audit_log d) (f (connected_services d)) (user_settings d) (oauth_state d)
    (policy_entries d) (held_tool_calls d) (commission_runs d) (session_state d) (spend_ledger d)
    (refinement_versions d) (refinement_validations d) (refinement_scopes d).
Definition set_user_settings (f : list UserSettingsRow → list UserSettingsRow) (d : Db) : Db :=
  mkDb (audit_log d) (connected_services d) (f (user_settings d)) (oauth_state d)
    (policy_entries d) (held_tool_calls d) (commission_runs d) (session_state d) (spend_ledger d)
    (refinement_versions d) (refinement_validations d) (refinement_scopes d).
Definition set_oauth_state (f : list OAuthStateRow → list OAuthStateRow) (d : Db) : Db :=
  mkDb (audit_log d) (connected_services d) (user_settings d) (f (oauth_state d))
    (policy_entries d) (held_tool_calls d) (commission_runs d) (session_state d) (spend_ledger d)
    (refinement_versions d) (refinement_validations d) (refinement_scopes d).
Definition set_policy_entries (f : list PolicyEntriesRow → list PolicyEntriesRow) (d : Db) : Db :=
  mkDb (audit_log d) (connected_services d) (user_settings d) (oauth_state d)
    (f (policy_entries d)) (held_tool_calls d) (commission_runs d) (session_state d) (spend_ledger d)
    (refinement_versions d) (refinement_validations d) (refinement_scopes d).
Definition set_held_tool_calls (f : list HeldToolCallsRow → list HeldToolCallsRow) (d : Db) : Db :=
  mkDb (audit_log d) (connected_services d) (user_settings d) (oauth_state d)
    (policy_entries d) (f (held_tool_calls d)) (commission_runs d) (session_state d) (spend_ledger d)
    (refinement_versions d) (refinement_validations d) (refinement_scopes d).
Definition set_commission_runs (f : list CommissionRunsRow → list CommissionRunsRow) (d : Db) : Db :=
  mkDb (audit_log d) (connected_services d) (user_settings d) (oauth_state d)
    (policy_entries d) (held_tool_calls d) (f (commission_runs d)) (session_state d) (spend_ledger d)
    (refinement_versions d) (refinement_validations d) (refinement_scopes d).
Definition set_session_state (f : list SessionStateRow → list SessionStateRow) (d : Db) : Db :=
  mkDb (audit_log d) (connected_services d) (user_settings d) (oauth_state d)
    (policy_entries d) (held_tool_calls d) (commission_runs d) (f (session_state d)) (spend_ledger d)
    (refinement_versions d) (refinement_validations d) (refinement_scopes d).
Definition set_spend_ledger (f : list SpendLedgerRow → list SpendLedgerRow) (d : Db) : Db :=
  mkDb (audit_log d) (connected_services d) (user_settings d) (oauth_state d)
    (policy_entries d) (held_tool_calls d) (commission_runs d) (session_state d) (f (spend_ledger d))
    (refinement_versions d) (refinement_validations d) (refinement_scopes d).
Definition set_refinement_versions (f : list RefinementVersionsRow → list RefinementVersionsRow) (d : Db) : Db :=
  mkDb (audit_log d) (connected_services d) (user_settings d) (oauth_state d)
    (policy_entries d) (held_tool_calls d) (commission_runs d) (session_state d) (spend_ledger d)
    (f (refinement_versions d)) (refinement_validations d) (refinement_scopes d).
Definition set_refinement_validations (f : list RefinementValidationsRow → list RefinementValidationsRow) (d : Db) : Db :=
  mkDb (audit_log d) (connected_services d) (user_settings d) (oauth_state d)
    (policy_entries d) (held_tool_calls d) (commission_runs d) (session_state d) (spend_ledger d)
    (refinement_versions d) (f (refinement_validations d)) (refinement_scopes d).
Definition set_refinement_scopes (f : list RefinementScopesRow → list RefinementScopesRow) (d : Db) : Db :=
  mkDb (audit_log d) (connected_services d) (user_settings d) (oauth_state d)
    (policy_entries d) (held_tool_calls d) (commission_runs d) (session_state d) (spend_ledger d)
    (refinement_versions d) (refinement_validations d) (f (refinement_scopes d)).

(** ** The world and the monad *)

(** The clock is the sequence of its readings, in any order: nothing below
    assumes that it moves forward. *)
Record World := mkWorld {
  w_db : Db;
  w_clock : nat → Z;
  w_ticks : nat;
  w_uuids : nat;
  w_turnInFlight : bool;
}.

Definition with_db (f : Db → Db) (w : World) : World :=
  mkWorld (f (w_db w)) (w_clock w) (w_ticks w) (w_uuids w) (w_turnInFlight w).
Definition with_gate (b : bool) (w : World) : World :=
  mkWorld (w_db w) (w_clock w) (w_ticks w) (w_uuids w) b.

(** [refinements/errors.ts]: [RefinementError] carries a code and nothing else. *)
Inductive RefinementErrorCode :=
  | RE_INVALID_REQUEST | RE_NOT_FOUND | RE_CONFLICT | RE_INELIGIBLE | RE_UNAVAILABLE | RE_CORRUPT
  | RE_CHANGED | RE_CAPACITY.
#[export] Instance refinement_code_eq_dec : EqDecision RefinementErrorCode.
Proof. solve_decision. Defined.
Definition refinement_code_text (c : RefinementErrorCode) : jsstr :=
  match c with
  | RE_INVALID_REQUEST => js "REFINEMENT_INVALID_REQUEST" | RE_NOT_FOUND => js "REFINEMENT_NOT_FOUND"
  | RE_CONFLICT => js "REFINEMENT_CONFLICT" | RE_INELIGIBLE => js "REFINEMENT_INELIGIBLE"
  | RE_UNAVAILABLE => js "REFINEMENT_UNAVAILABLE" | RE_CORRUPT => js "REFINEMENT_CORRUPT"
  | RE_CHANGED => js "REFINEMENT_CHANGED" | RE_CAPACITY => js "REFINEMENT_CAPACITY"
  end.
Inductive exn :=
  | SqlConstraint | RangeError | Exn (message : jsstr) | RefinementError (code : RefinementErrorCode).
#[export] Instance exn_eq_dec : EqDecision exn.
Proof. solve_decision. Defined.

Inductive res (A : Type) := Ok (a : A) | Throw (e : exn).
Arguments Ok {A}.
Arguments Throw {A}.

Definition M (A : Type) : Type := World → res A * World.

#[export] Instance M_ret : MRet M := λ A a w, (Ok a, w).
#[export] Instance M_bind : MBind M := λ A B k m w,
  match m w with
  | (Ok a, w') => k a w'
  | (Throw e, w') => (Throw e, w')
  end.

Definition throw {A} (e : exn) : M A := λ w, (Throw e, w).

(** One read of the tables, one write, one write that may violate a constraint. *)
Definition select {A} (f : Db → A) : M A := λ w, (Ok (f (w_db w)), w).
Definition modify (f : Db → Db) : M unit := λ w, (Ok tt, with_db f w).
Definition insert_unless (clash : Db → bool) (f : Db → Db) : M unit := λ w,
  if clash (w_db w) then (Throw SqlConstraint, w) else (Ok tt, with_db f w).

(** [Date.now()], [new Date().toISOString()] and [crypto.randomUUID()]. *)
Definition now : M Z := λ w,
  (Ok (w_clock w (w_ticks w)),
   mkWorld (w_db w) (w_clock w) (S (w_ticks w)) (w_uuids w) (w_turnInFlight w)).
Definition nowISO : M jsstr := t ← now; mret (toISOString t).
Definition newUUID `{Platform} : M jsstr := λ w,
  (Ok (randomUUID (w_uuids w)),
   mkWorld (w_db w) (w_clock w) (w_ticks w) (S (w_uuids w)) (w_turnInFlight w)).

(** [toISOString] of a computed instant: out of range it throws. *)
Definition isoOf (t : Z) : M jsstr :=
  if Z.abs t <=? 8640000000000000 then mret (toISOString t) else throw RangeError.

Definition transactionSync {A} (body : M A) : M A := λ w,
  match body w with
  | (Ok a, w') => (Ok a, w')
  | (Throw e, w') => (Throw e, with_db (λ _, w_db w) w')
  end.

(** [try { body } catch { handler }]. *)
Definition try_catch {A} (body : M A) (handler : exn → M A) : M A := λ w,
  match body w with
  | (Ok a, w') => (Ok a, w')
  | (Throw e, w') => handler e w'
  end.

(** [for (const x of l) { body(x) }]. *)
Fixpoint for_each {A} (body : A → M unit) (l : list A) : M unit :=
  match l with
  | [] => mret tt
  | x :: l' => body x ;; for_each body l'
  end.

Definition when (b : bool) (m : M unit) : M unit := if b then m else mret tt.

(** ** Reasoning about runs

    [wp m Q w]: from [w], [m] returns a result and a world that satisfy [Q]. A run
    that throws satisfies no [wp], so a [wp] is a proof that the code returns. *)

Definition wp {A} (m : M A) (Q : A → World → Prop) (w : World) : Prop :=
  match m w with (Ok a, w') => Q a w' | (Throw _, _) => False end.

Section wp.
Context {A B : Type}.
Implicit Types (Q : A → World → Prop) (w : World).

Lemma wp_mono (m : M A) Q Q' w : wp m Q w → (∀ a w', Q a w' → Q' a w') → wp m Q' w.
Proof. unfold wp. destruct (m w) as [[a|e] w']; auto. Qed.
Lemma wp_ret (a : A) Q w : Q a w → wp (mret a) Q w.
Proof. done. Qed.
Lemma wp_bind (m : M B) (k : B → M A) Q w :
  wp m (λ b w', wp (k b) Q w') w → wp (m ≫= k) Q w.
Proof. unfold wp, mbind, M_bind. destruct (m w) as [[a|e] w']; auto. Qed.
Lemma wp_select (f : Db → A) Q w : Q (f (w_db w)) w → wp (select f) Q w.
Proof. done. Qed.
Lemma wp_txn (m : M A) Q w : wp m Q w → wp (transactionSync m) Q w.
Proof. unfold wp, transactionSync. by destruct (m w) as [[a|e] w']. Qed.
Lemma wp_try (m : M A) h Q w : wp m Q w → wp (try_catch m h) Q w.
Proof. unfold wp, try_catch. by destruct (m w) as [[a|e] w']. Qed.
Lemma wp_run (m : M A) Q w : wp m Q w ↔ ∃ a w', m w = (Ok a, w') ∧ Q a w'.
Proof. unfold wp. destruct (m w) as [[a|e] w']; naive_solver. Qed.
End wp.

Lemma wp_returns (m : M unit) (Q : World → Prop) w :
  wp m (λ _, Q) w → ∃ w', m w = (Ok tt, w') ∧ Q w'.
Proof. unfold wp. destruct (m w) as [[[]|e] w']; [eauto|done]. Qed.
Lemma wp_modify f Q w : Q tt (with_db f w) → wp (modify f) Q w.
Proof. done. Qed.
Lemma wp_insert clash f Q w :
  clash (w_db w) = false → Q tt (with_db f w) → wp (insert_unless clash f) Q w.
Proof. unfold wp, insert_unless. by intros ->. Qed.
Lemma wp_now Q w :
  Q (w_clock w (w_ticks w))
    (mkWorld (w_db w) (w_clock w) (S (w_ticks w)) (w_uuids w) (w_turnInFlight w)) → wp now Q w.
Proof. done. Qed.
Lemma wp_nowISO Q w :
  Q (toISOString (w_clock w (w_ticks w)))
    (mkWorld (w_db w) (w_clock w) (S (w_ticks w)) (w_uuids w) (w_turnInFlight w)) → wp nowISO Q w.
Proof. done. Qed.
Lemma wp_uuid `{Platform} Q w :
  Q (randomUUID (w_uuids w))
    (mkWorld (w_db w) (w_clock w) (w_ticks w) (S (w_uuids w)) (w_turnInFlight w)) → wp newUUID Q w.
Proof. done. Qed.

(** [pw m Q w]: if [m] returns from [w], its result and world satisfy [Q]. *)
Definition pw {A} (m : M A) (Q : A → World → Prop) (w : World) : Prop :=
  ∀ a w', m w = (Ok a, w') → Q a w'.

Lemma pw_bind {A B} (m : M B) (k : B → M A) Q w : pw m (λ b w', pw (k b) Q w') w → pw (m ≫= k) Q w.
Proof.
  intros Hm a w' E. unfold mbind, M_bind in E. destruct (m w) as [[b|e] w1] eqn:Em; [|done].
  exact (Hm b w1 Em a w' E).
Qed.
Lemma pw_skip {A B} (m : M B) (k : B → M A) Q w : (∀ b w', pw (k b) Q w') → pw (m ≫= k) Q w.
Proof. intros Hk. apply pw_bind. intros b w' _. apply Hk. Qed.
Lemma pw_txn {A} (m : M A) Q w : pw m Q w → pw (transactionSync m) Q w.
Proof.
  intros Hm a w' E. unfold transactionSync in E. destruct (m w) as [[b|e] w1] eqn:Em; simplify_eq. by apply Hm.
Qed.
Lemma pw_mono {A} (m : M A) (Q Q' : A → World → Prop) w : pw m Q w → (∀ a w', Q a w' → Q' a w') → pw m Q' w.
Proof. intros Hm HQ a w' E. by apply HQ, Hm. Qed.
Lemma pw_ret {A} (a : A) (Q : A → World → Prop) w : Q a w → pw (mret a) Q w.
Proof. intros HQ a' w' E. unfold mret, M_ret in E. by simplify_eq. Qed.
Lemma pw_throw {A} e (Q : A → World → Prop) w : pw (throw e) Q w.
Proof. by intros a w'. Qed.
Lemma pw_select {A} (f : Db → A) Q w : Q (f (w_db w)) w → pw (select f) Q w.
Proof. intros HQ a w' E. unfold select in E. by simplify_eq. Qed.
Lemma pw_modify f Q w : Q tt (with_db f w) → pw (modify f) Q w.
Proof. intros HQ a w' E. unfold modify in E. by simplify_eq. Qed.
Lemma pw_insert clash f Q w :
  (clash (w_db w) = false → Q tt (with_db f w)) → pw (insert_unless clash f) Q w.
Proof. intros HQ a w' E. unfold insert_unless in E. destruct (clash (w_db w)); simplify_eq. by apply HQ. Qed.

Lemma pw_try {A} (m : M A) h Q w : pw m Q w → (∀ e w', pw (h e) Q w') → pw (try_catch m h) Q w.
Proof.
  intros Hm Hh a w' E. unfold try_catch in E. destruct (m w) as [[b|e] w1] eqn:Em; simplify_eq; [by apply Hm|].
  by eapply Hh.
Qed.

(** A loop whose body re-establishes [I] for the rest of the list. *)
Lemma wp_for_each {A} (body : A → M unit) (I : list A → World → Prop) l w :
  I l w → (∀ x l' w', I (x :: l') w' → wp (body x) (λ _ w'', I l' w'') w') →
  wp (for_each body l) (λ _ w', I [] w') w.
Proof.
  intros Hi Hb. revert w Hi. induction l as [|x l IH]; intros w Hi; simpl; [done|].
  apply wp_bind. eapply wp_mono; [by apply Hb|]. auto.
Qed.

(** ** Invariants

    [keeps J m]: whether [m] returns or throws, it preserves the invariant [J] of
    the tables and the identifier supply; and it takes no identifier and no clock
    reading back, and leaves the turn gate and the clock as they are. *)

Record moved (w w' : World) : Prop := {
  mv_uuids : (w_uuids w <= w_uuids w')%nat;
  mv_ticks : (w_ticks w <= w_ticks w')%nat;
  mv_gate : w_turnInFlight w' = w_turnInFlight w;
  mv_clock : w_clock w' = w_clock w;
}.
Lemma moved_refl w : moved w w.
Proof. by split. Qed.
Lemma moved_trans w1 w2 w3 : moved w1 w2 → moved w2 w3 → moved w1 w3.
Proof. intros [? ? ? ?] [? ? ? ?]. split; [lia|lia|congruence..]. Qed.

Definition keeps {A} (J : Db → nat → Prop) (m : M A) : Prop :=
  ∀ w, J (w_db w) (w_uuids w) →
    J (w_db (snd (m w))) (w_uuids (snd (m w))) ∧ moved w (snd (m w)).

(** An invariant survives drawing identifiers. *)
Class Supply (J : Db → nat → Prop) : Prop := supply d n m : (n <= m)%nat → J d n → J d m.

Section keeps.
Context (J : Db → nat → Prop).

Lemma keeps_ret {A} (a : A) : keeps J (mret a).
Proof. by intros w Hw. Qed.
Lemma keeps_throw {A} e : keeps J (throw (A := A) e).
Proof. by intros w Hw. Qed.
Lemma keeps_bind {A B} (m : M A) (k : A → M B) :
  keeps J m → (∀ a, keeps J (k a)) → keeps J (m ≫= k).
Proof.
  intros Hm Hk w Hw. destruct (Hm w Hw) as [H1 H2]. unfold mbind, M_bind.
  destruct (m w) as [[a|e] w']; [|done]. destruct (Hk a w' H1). split; [done|].
  by eapply moved_trans.
Qed.
(** What follows may assume what [m] returns satisfies. *)
Lemma keeps_bind_post {A B} (m : M A) (k : A → M B) (P : A → Prop) :
  keeps J m → (∀ w, pw m (λ a _, P a) w) → (∀ a, P a → keeps J (k a)) → keeps J (m ≫= k).
Proof.
  intros Hm HP Hk w Hw. destruct (Hm w Hw) as [H1 H2]. unfold mbind, M_bind. specialize (HP w).
  destruct (m w) as [[a|e] w'] eqn:E; [|done]. destruct (Hk a (HP a w' E) w' H1). split; [done|].
  by eapply moved_trans.
Qed.
Lemma keeps_select {A} (f : Db → A) : keeps J (select f).
Proof. by intros w Hw. Qed.
Lemma keeps_modify f : (∀ d n, J d n → J (f d) n) → keeps J (modify f).
Proof. intros Hf w Hw. simpl. split; [auto|by split]. Qed.
Lemma keeps_insert clash f :
  (∀ d n, clash d = false → J d n → J (f d) n) → keeps J (insert_unless clash f).
Proof.
  intros Hf w Hw. unfold insert_unless. destruct (clash (w_db w)) eqn:E; simpl; split; auto; by split.
Qed.
Lemma keeps_now : keeps J now.
Proof. intros w Hw. split; [done|]. split; simpl; [lia|lia|done..]. Qed.
Lemma keeps_uuid `{Platform} `{!Supply J} : keeps J newUUID.
Proof.
  intros w Hw. simpl. split; [apply supply with (w_uuids w); [lia|done]|]. split; simpl; [lia|lia|done..].
Qed.
Lemma keeps_uuid_bind `{Platform} `{!Supply J} {B} (k : jsstr → M B) :
  (∀ n, keeps J (k (randomUUID n))) → keeps J (newUUID ≫= k).
Proof.
  intros Hk w Hw. destruct (keeps_uuid w Hw) as [H1 H2].
  destruct (Hk (w_uuids w) (snd (newUUID w)) H1) as [H3 H4].
  split; [exact H3|by eapply moved_trans].
Qed.
Lemma keeps_isoOf t : keeps J (isoOf t).
Proof. unfold isoOf. case_match; [apply keeps_ret|apply keeps_throw]. Qed.
Lemma keeps_nowISO : keeps J nowISO.
Proof. unfold nowISO. apply keeps_bind; [apply keeps_now|]. intros. apply keeps_ret. Qed.
Lemma keeps_when b m : keeps J m → keeps J (when b m).
Proof. destruct b; [done|]. intros _. apply keeps_ret. Qed.
Lemma keeps_for_each {A} (body : A → M unit) l :
  (∀ x, keeps J (body x)) → keeps J (for_each body l).
Proof.
  intros Hb. induction l as [|x l IH]; simpl; [apply keeps_ret|].
  apply keeps_bind; auto.
Qed.
Lemma keeps_try {A} (m : M A) h : keeps J m → (∀ e, keeps J (h e)) → keeps J (try_catch m h).
Proof.
  intros Hm Hh w Hw. destruct (Hm w Hw) as [H1 H2]. unfold try_catch.
  destruct (m w) as [[a|e] w']; [done|]. destruct (Hh e w' H1). split; [done|].
  by eapply moved_trans.
Qed.
(** A transaction keeps the invariant: a throw restores the tables. *)
Lemma keeps_txn `{!Supply J} {A} (m : M A) : keeps J m → keeps J (transactionSync m).
Proof.
  intros Hm w Hw. destruct (Hm w Hw) as [H1 H2]. unfold transactionSync.
  destruct (m w) as [[a|e] w']; [done|]. simpl in *. split; [|by destruct H2].
  apply supply with (w_uuids w); [apply H2|done].
Qed.
End keeps.

(** Two invariants at once. *)
Lemma keeps_and J K {A} (m : M A) : keeps J m → keeps K m → keeps (λ d n, J d n ∧ K d n) m.
Proof. intros HJ HK w [H1 H2]. destruct (HJ w H1), (HK w H2). done. Qed.

#[export] Hint Resolve keeps_ret keeps_throw keeps_select keeps_now keeps_isoOf keeps_nowISO : wb.

(** Walk a body statement by statement. *)
Ltac keeps_step :=
  match goal with
  | |- keeps _ (transactionSync _) => apply keeps_txn
  | |- keeps _ (try_catch _ _) => apply keeps_try
  | |- keeps _ (for_each _ _) => apply keeps_for_each; intros
  | |- keeps _ (when _ _) => apply keeps_when
  | |- keeps _ (@newUUID _ ≫= _) => simple apply keeps_uuid_bind; [apply _|intros]
  | |- keeps _ (_ ≫= _) => apply keeps_bind; [|intros]
  | |- keeps _ (if _ then _ else _) => case_match
  | |- keeps _ (match _ with _ => _ end) => case_match
  | |- keeps _ (modify _) => apply keeps_modify
  | |- keeps _ (insert_unless _ _) => apply keeps_insert
  | |- ∀ _ : exn, keeps _ _ => intros
  | |- Supply _ => apply _
  | |- keeps _ _ => solve [eauto with wb | simple apply keeps_uuid; apply _]
  end.
Ltac keeps_tac := repeat keeps_step; eauto with wb.

(** A fresh store under a clock that runs backwards across midnight. *)
Definition demo_world : World :=
  mkWorld empty_db (λ n, 1767225600000 - 60000 * Z.of_nat n) 0 0 false.
