(* ===== verification/AuditLog.v ===== *)
(** * The audit log: [packages/engine/src/data/helpers/audit-log.ts]

    The write path derives an epoch, chains the row to its predecessor, hashes it
    and inserts it. The file proves the write path keeps the log a chain the
    verifier accepts, and that it never fails. *)

From S2P Require Export Db.
Open Scope Z_scope.

(** ** Parameters and text forms *)

Inductive audit_outcome := X_success | X_error | X_timeout.
#[export] Instance audit_outcome_eq_dec : EqDecision audit_outcome.
Proof. solve_decision. Defined.

Definition decision_text (d : verdict) : jsstr :=
  match d with V_allow => js "allow" | V_deny => js "deny" | V_pending => js "pending" end.
Definition outcome_text (o : audit_outcome) : jsstr :=
  match o with X_success => js "success" | X_error => js "error" | X_timeout => js "timeout" end.
Definition origin_text (o : origin) : jsstr :=
  match o with O_human => js "human" | O_mcp_commission => js "mcp_commission" end.

Record AuditEntryFields := mkParams {
  p_userId : jsstr;
  p_agentId : jsstr;
  p_sessionId : jsstr;
  p_toolName : jsstr;
  p_service : jsstr;
  p_verb : jsstr;
  p_noun : jsstr;
  p_decision : verdict;
  p_origin : option origin;
  p_parametersMetadata : fields;
  p_outcome : audit_outcome;
  p_errorMessage : option jsstr;
  p_latencyMs : Z;
  p_costUsd : option jsnum;
  p_epochId : option jsstr;
  p_timestamp : option jsstr;
}.

(** [ReferencingAuditEntryParams]: the fields and the decision they close. *)
Record ReferencingAuditEntryParams := mkCloserParams {
  rp_fields : AuditEntryFields;
  rp_decisionEntryId : jsstr;
}.

Inductive CloserBasis := Observed | Inferred.
#[export] Instance CloserBasis_eq_dec : EqDecision CloserBasis.
Proof. solve_decision. Defined.

Record AuditEntryResult := mkResult {
  ae_id : jsstr;
  ae_hash : jsstr;
  ae_epochId : jsstr;
  ae_sequenceNum : Z;
}.

(** ** Orders and reads *)

Definition row_epoch (r : AuditLogRow) : jsstr := h_epochId r.
Definition row_seq (r : AuditLogRow) : Z := h_sequenceNum r.

(** [ORDER BY epoch_id DESC, sequence_num DESC]: [a] comes strictly before [b]. *)
Definition chain_desc (a b : AuditLogRow) : bool :=
  sql_lt (row_epoch b) (row_epoch a) ||
  bool_decide (row_epoch a = row_epoch b) && (row_seq b <? row_seq a).

Definition seq_desc (a b : AuditLogRow) : bool := row_seq b <? row_seq a.

(** [SELECT MAX(epoch_id)]. *)
Definition max_epoch (log : list AuditLogRow) : option jsstr :=
  foldl (λ m r, match m with
                | Some e => Some (if sql_lt e (row_epoch r) then row_epoch r else e)
                | None => Some (row_epoch r)
                end) None log.

Section audit_log.
Context `{Platform}.

Definition deriveMonotonicEpochId : M jsstr :=
  t ← now;
  let today := take 10 (toISOString t) in
  maxStored ← select (λ d, max_epoch (audit_log d));
  mret match maxStored with
       | Some m => if js_lt today m then m else today
       | None => today
       end.

(** The conditioned text of a row, [text] in the source. *)
Definition row_fields (params : AuditEntryFields) (decisionEntryId : option jsstr)
    (epochId timestamp id : jsstr) (sequenceNum : Z) (prevHash : jsstr) : EntryHashFields := {|
  h_epochId := wellFormed epochId;
  h_sequenceNum := sequenceNum;
  h_prevHash := prevHash;
  h_id := wellFormed id;
  h_timestamp := wellFormed timestamp;
  h_userId := wellFormed (p_userId params);
  h_agentId := wellFormed (p_agentId params);
  h_sessionId := wellFormed (p_sessionId params);
  h_origin := wellFormed (origin_text (default O_human (p_origin params)));
  h_service := wellFormed (p_service params);
  h_verb := wellFormed (p_verb params);
  h_noun := wellFormed (p_noun params);
  h_toolName := wellFormed (p_toolName params);
  h_parametersMetadata := wellFormed (JSON_stringify (JObj (p_parametersMetadata params)));
  h_decision := wellFormed (decision_text (p_decision params));
  h_outcome := wellFormed (outcome_text (p_outcome params));
  h_errorMessage := wellFormed <$> p_errorMessage params;
  h_decisionEntryId := wellFormed <$> decisionEntryId;
  h_latencyMs := p_latencyMs params;
  h_costUsd := p_costUsd params |}.

(** What the INSERT leaves in the row: every string through a TEXT column. *)
Definition stored (f : EntryHashFields) : EntryHashFields := {|
  h_epochId := sqliteText (h_epochId f);
  h_sequenceNum := h_sequenceNum f;
  h_prevHash := sqliteText (h_prevHash f);
  h_id := sqliteText (h_id f);
  h_timestamp := sqliteText (h_timestamp f);
  h_userId := sqliteText (h_userId f);
  h_agentId := sqliteText (h_agentId f);
  h_sessionId := sqliteText (h_sessionId f);
  h_origin := sqliteText (h_origin f);
  h_service := sqliteText (h_service f);
  h_verb := sqliteText (h_verb f);
  h_noun := sqliteText (h_noun f);
  h_toolName := sqliteText (h_toolName f);
  h_parametersMetadata := sqliteText (h_parametersMetadata f);
  h_decision := sqliteText (h_decision f);
  h_outcome := sqliteText (h_outcome f);
  h_errorMessage := sqliteText <$> h_errorMessage f;
  h_decisionEntryId := sqliteText <$> h_decisionEntryId f;
  h_latencyMs := h_latencyMs f;
  h_costUsd := h_costUsd f |}.

(** [PRIMARY KEY(id)] and the unique index on [(epoch_id, sequence_num)]. *)
Definition audit_clash (r : AuditLogRow) (d : Db) : bool :=
  existsb (λ r' : AuditLogRow, bool_decide (h_id r' = h_id r) ||
                 bool_decide (row_epoch r' = row_epoch r) && (row_seq r' =? row_seq r))
    (audit_log d).

(** The predecessor of a row about to be written in [epoch]: its sequence
    number, its [prev_hash] and its [epoch_prev_hash]. *)
Definition chain_position (log : list AuditLogRow) (epoch : jsstr) : Z * jsstr * option jsstr :=
  match stable_sort seq_desc (filter (λ r, row_epoch r = epoch) log) with
  | r :: _ => (row_seq r + 1, ce_hash r, None)
  | [] =>
      (0, GENESIS_SENTINEL,
       match stable_sort chain_desc log with r :: _ => Some (ce_hash r) | [] => None end)
  end.

Definition insertRow (params : AuditEntryFields) (decisionEntryId : option jsstr)
    : M AuditEntryResult :=
  epochId ← match p_epochId params with Some e => mret e | None => deriveMonotonicEpochId end;
  timestamp ← match p_timestamp params with Some t => mret t | None => nowISO end;
  id ← newUUID;
  position ← select (λ d, chain_position (audit_log d) (wellFormed epochId));
  let '(sequenceNum, prevHash, epochPrevHash) := position in
  let text := row_fields params decisionEntryId epochId timestamp id sequenceNum prevHash in
  let hash := computeEntryHash text in
  let row := mkAuditRow
    (mkChainEntry (stored text) (sqliteText hash) (sqliteText <$> epochPrevHash)) None in
  insert_unless (audit_clash row) (set_audit_log (λ log, log ++ [row])) ;;
  mret (mkResult (h_id text) hash (h_epochId text) sequenceNum).

Definition insertAuditEntryInTxn (params : AuditEntryFields) : M AuditEntryResult :=
  insertRow params None.

(** [WHERE decision_entry_id = ...]. *)
Definition closes (decisionEntryId : jsstr) (r : AuditLogRow) : bool :=
  bool_decide (h_decisionEntryId r = Some decisionEntryId).
Definition hasCloserInTxn (decisionEntryId : jsstr) : M bool :=
  select (λ d, existsb (closes decisionEntryId) (audit_log d)).

Definition closeDecisionEntryInTxn (params : ReferencingAuditEntryParams) (basis : CloserBasis)
    : M (option AuditEntryResult) :=
  closed ← match basis with
           | Inferred => hasCloserInTxn (rp_decisionEntryId params)
           | Observed => mret false
           end;
  if closed : bool then mret None
  else r ← insertRow (rp_fields params) (Some (rp_decisionEntryId params)); mret (Some r).

(** [readAuditEntryIdentity]. *)
Record AuditIdentity := mkIdentity {
  id_user_id : jsstr; id_agent_id : jsstr; id_session_id : jsstr; id_tool_name : jsstr;
  id_service : jsstr; id_verb : jsstr; id_noun : jsstr; id_origin : jsstr;
}.
Definition identity_columns (r : AuditLogRow) : AuditIdentity :=
  mkIdentity (h_userId r) (h_agentId r) (h_sessionId r) (h_toolName r)
    (h_service r) (h_verb r) (h_noun r) (h_origin r).
Definition readAuditEntryIdentity (entryId : jsstr) : M (option AuditIdentity) :=
  select (λ d, identity_columns <$> List.find (λ r : AuditLogRow, bool_decide (h_id r = entryId)) (audit_log d)).

(** [selectRecentAuditEntries]: the display projection, newest first. *)
Record RecentAuditEntryRow := mkRecent {
  ra_id : jsstr; ra_epoch_id : jsstr; ra_sequence_num : Z; ra_prev_hash : jsstr; ra_hash : jsstr;
  ra_timestamp : jsstr; ra_agent_id : jsstr; ra_session_id : jsstr; ra_tool_name : jsstr;
  ra_service : jsstr; ra_verb : jsstr; ra_noun : jsstr; ra_decision : jsstr;
  ra_parameters_metadata : jsstr; ra_outcome : jsstr; ra_error_message : option jsstr;
  ra_decision_entry_id : option jsstr; ra_latency_ms : Z; ra_cost_usd : option jsnum;
  ra_origin : jsstr;
}.
Definition recent_columns (r : AuditLogRow) : RecentAuditEntryRow :=
  mkRecent (h_id r) (h_epochId r) (h_sequenceNum r) (h_prevHash r) (ce_hash r)
    (h_timestamp r) (h_agentId r) (h_sessionId r) (h_toolName r) (h_service r) (h_verb r)
    (h_noun r) (h_decision r) (h_parametersMetadata r) (h_outcome r) (h_errorMessage r)
    (h_decisionEntryId r) (h_latencyMs r) (h_costUsd r) (h_origin r).
Definition selectRecentAuditEntries (limit : Z) : M (list RecentAuditEntryRow) :=
  select (λ d, recent_columns <$> take (Z.to_nat limit) (stable_sort chain_desc (audit_log d))).

(** [(epoch_id, sequence_num) < (e, s)]. *)
Definition row_before (before : jsstr * Z) (r : AuditLogRow) : bool :=
  sql_lt (row_epoch r) (fst before) ||
  bool_decide (row_epoch r = fst before) && (row_seq r <? snd before).

(** [selectAuditChainPage]: every column but [parameters_content]. *)
Definition chain_page (log : list AuditLogRow) (limit : Z) (before : option (jsstr * Z))
    : list ChainEntry :=
  let rows := match before with
              | Some b => List.filter (row_before b) log
              | None => log
              end in
  al_chain <$> take (Z.to_nat limit) (stable_sort chain_desc rows).
Definition selectAuditChainPage (limit : Z) (before : option (jsstr * Z)) : M (list ChainEntry) :=
  select (λ d, chain_page (audit_log d) limit before).

(** [readSessionStartIdentity]: user, agent and origin. *)
Definition is_session_start (sessionId : jsstr) (r : AuditLogRow) : bool :=
  bool_decide (h_sessionId r = sessionId) && bool_decide (h_toolName r = js "session.start").
Definition readSessionStartIdentity (sessionId : jsstr) : M (option (jsstr * jsstr * jsstr)) :=
  select (λ d, (λ r : AuditLogRow, (h_userId r, h_agentId r, h_origin r)) <$>
    List.find (is_session_start sessionId) (audit_log d)).
End audit_log.

(** ** The invariant *)

(** [e] is written right after [p]: the next row of its epoch, or the genesis of
    a later one. *)
Definition succeeds (p e : ChainEntry) : Prop :=
  (h_epochId e = h_epochId p ∧ h_sequenceNum e = h_sequenceNum p + 1 ∧
   h_prevHash e = ce_hash p ∧ ce_epochPrevHash e = None) ∨
  (sql_lt (h_epochId p) (h_epochId e) = true ∧ h_sequenceNum e = 0 ∧
   h_prevHash e = GENESIS_SENTINEL ∧ ce_epochPrevHash e = Some (ce_hash p)).

(** The first row of the log. *)
Definition opens_log (e : ChainEntry) : Prop :=
  h_sequenceNum e = 0 ∧ h_prevHash e = GENESIS_SENTINEL ∧ ce_epochPrevHash e = None.

Section invariant.
Context `{Platform}.

Definition row_ok (e : ChainEntry) : Prop :=
  ce_hash e = computeEntryHash e ∧ (∀ s, s ∈ entry_strings e → toWellFormed s = s) ∧
  plain_text (h_epochId e) ∧
  ascii_only (ce_hash e) ∧ 0 <= h_sequenceNum e.

Fixpoint chain_from (prev : option ChainEntry) (l : list ChainEntry) : Prop :=
  match l with
  | [] => True
  | e :: l' =>
      row_ok e ∧ match prev with Some p => succeeds p e | None => opens_log e end ∧
      chain_from (Some e) l'
  end.

(** The log as the engine writes it. *)
Record log_inv (log : list AuditLogRow) (uuids : nat) : Prop := {
  log_chain : chain_from None (al_chain <$> log);
  log_ids : NoDup ((λ r : AuditLogRow, h_id r) <$> log);
  log_supply : Forall (λ r : AuditLogRow, ∃ k, (k < uuids)%nat ∧ h_id r = randomUUID k) log;
}.

Definition chain_inv (d : Db) (uuids : nat) : Prop := log_inv (audit_log d) uuids.

#[export] Instance chain_inv_supply : Supply chain_inv.
Proof.
  intros d n m Hnm [Hc Hi Hs]. split; [done..|].
  eapply Forall_impl; [exact Hs|]. intros r (k&?&?). exists k. split; [lia|done].
Qed.
End invariant.

(** ** The order of a chained log *)

Definition asc (a b : ChainEntry) : Prop :=
  sql_lt (h_epochId a) (h_epochId b) = true ∨
  h_epochId a = h_epochId b ∧ h_sequenceNum a < h_sequenceNum b.

Lemma sql_lt_trans a b c : sql_lt a b = true → sql_lt b c = true → sql_lt a c = true.
Proof.
  unfold sql_lt. destruct (lexcmp (utf8 a) (utf8 b)) eqn:E1; try done.
  destruct (lexcmp (utf8 b) (utf8 c)) eqn:E2; try done. by rewrite (lexcmp_trans _ _ _ E1 E2).
Qed.
Lemma sql_lt_irrefl a : sql_lt a a = false.
Proof. unfold sql_lt. by rewrite lexcmp_refl. Qed.
Lemma sql_lt_total a b :
  ascii_only a → ascii_only b → a = b ∨ sql_lt a b = true ∨ sql_lt b a = true.
Proof.
  intros Ha Hb. rewrite !sql_lt_ascii by done. unfold js_lt. rewrite (lexcmp_antisym a b).
  destruct (lexcmp a b) eqn:E; simpl; auto. left. by apply lexcmp_eq.
Qed.

Lemma asc_trans a b c : asc a b → asc b c → asc a c.
Proof.
  intros [H1|[E1 H1]] [H2|[E2 H2]]; unfold asc.
  - left. by eapply sql_lt_trans.
  - left. by rewrite <- E2.
  - left. by rewrite E1.
  - right. split; [congruence|lia].
Qed.

Lemma asc_ne a b : asc a b → (h_epochId a, h_sequenceNum a) ≠ (h_epochId b, h_sequenceNum b).
Proof. intros [H|[_ H]] [= E1 E2]; [rewrite E1, sql_lt_irrefl in H; done|lia]. Qed.

Lemma succeeds_asc p e : succeeds p e → asc p e.
Proof. intros [(E&Es&_)|(?&_)]; unfold asc; [right; split; [congruence|lia]|by left]. Qed.

Section chain.
Context `{Platform}.

Lemma chain_from_sorted p l :
  chain_from p l → StronglySorted asc l ∧ match p with Some p => Forall (asc p) l | None => True end.
Proof.
  revert p. induction l as [|e l IH]; intros p; simpl; [by destruct p; repeat constructor|].
  intros (He&Hp&Hl). destruct (IH _ Hl) as [Hs Hf]. split; [by constructor|].
  destruct p as [p|]; [|done]. apply succeeds_asc in Hp. constructor; [done|].
  eapply Forall_impl; [exact Hf|]. intros. by eapply asc_trans.
Qed.

Lemma chain_from_snoc p l e :
  chain_from p (l ++ [e]) ↔
  chain_from p l ∧ row_ok e ∧
  match (match last l with Some q => Some q | None => p end) with
  | Some q => succeeds q e | None => opens_log e end.
Proof.
  revert p. induction l as [|f l IH]; intros p; simpl; [naive_solver|].
  rewrite IH. destruct l as [|g l]; [simpl; naive_solver|].
  rewrite last_cons_cons.
  assert (∃ q, last (g :: l) = Some q) as [q ->] by by apply last_is_Some. naive_solver.
Qed.

Lemma chain_from_rows p l : chain_from p l → Forall row_ok l.
Proof. revert p. induction l as [|e l IH]; intros p; simpl; [done|]. intros (?&_&?); eauto. Qed.
End chain.

(** ** The position of the next row *)

Section position.
Context `{Platform} `{!PlatformLaws _}.
Implicit Types (log : list AuditLogRow) (r x : AuditLogRow).

Lemma log_sorted log n : log_inv log n → StronglySorted (λ a b : AuditLogRow, asc a b) log.
Proof.
  intros [Hc _ _]. apply chain_from_sorted in Hc as [Hs _].
  clear -Hs. induction log as [|r log IH]; [constructor|].
  inversion_clear Hs as [|?? Hs' Hf]. constructor; [by apply IH|].
  change (Forall (asc r) (al_chain <$> log)) in Hf. rewrite Forall_fmap in Hf. exact Hf.
Qed.

Lemma log_row_ok log n r : log_inv log n → r ∈ log → row_ok r.
Proof.
  intros [Hc _ _] Hr. apply chain_from_rows in Hc. rewrite Forall_forall in Hc.
  apply Hc, list_elem_of_fmap. by exists r.
Qed.

Lemma max_epoch_elem log m : max_epoch log = Some m → ∃ r, r ∈ log ∧ row_epoch r = m.
Proof.
  unfold max_epoch. revert m. induction log as [|x log IH] using rev_ind; [done|].
  intros m. rewrite foldl_snoc. destruct (foldl _ _ _) as [m'|].
  - destruct (IH m' eq_refl) as (r&Hr&Em). case_match; intros [= <-].
    + exists x. set_solver.
    + exists r. set_solver.
  - intros [= <-]. exists x. set_solver.
Qed.

Lemma max_epoch_last log x :
  Forall (λ r : AuditLogRow, asc r x) log → max_epoch (log ++ [x]) = Some (row_epoch x).
Proof.
  intros Hf. unfold max_epoch. rewrite foldl_snoc. fold (max_epoch log).
  destruct (max_epoch log) as [m|] eqn:Em; [|done].
  apply max_epoch_elem in Em as (r&Hr&<-). rewrite Forall_forall in Hf.
  unfold row_epoch in *. destruct (Hf r Hr) as [Hlt|[E _]]; [by rewrite Hlt|].
  by rewrite E, sql_lt_irrefl.
Qed.

Lemma chain_desc_rev log n : log_inv log n → stable_sort chain_desc log = rev log.
Proof.
  intros Hl. apply stable_sort_rev. eapply StronglySorted_weaken; [|by eapply log_sorted].
  intros a b [Hab|[E Hs]]; unfold chain_desc, row_epoch, row_seq; apply orb_true_iff; [by left|].
  right. rewrite bool_decide_eq_true_2 by congruence. by apply Z.ltb_lt.
Qed.

(** The rows of one epoch, newest first. *)
Lemma epoch_rows_rev log n e :
  log_inv log n →
  stable_sort seq_desc (filter (λ r, row_epoch r = e) log) = rev (filter (λ r, row_epoch r = e) log).
Proof.
  intros Hl. apply stable_sort_rev. pose proof (log_sorted _ _ Hl) as Hs.
  apply (StronglySorted_filter _ (λ r, row_epoch r = e)) in Hs.
  assert (Forall (λ r, row_epoch r = e) (filter (λ r, row_epoch r = e) log)) as He.
  { apply Forall_forall. by intros r [? _]%list_elem_of_filter. }
  induction Hs as [|x l Hs IH Hx]; [constructor|]. inversion_clear He as [|?? Hxe Hle].
  constructor; [by apply IH|]. rewrite Forall_forall in *. intros y Hy.
  apply Z.ltb_lt. unfold row_epoch, row_seq in *.
  destruct (Hx y Hy) as [Hlt|[_ ?]]; [|done]. rewrite Hxe, (Hle y Hy), sql_lt_irrefl in Hlt. done.
Qed.

(** The epoch of the next row is the newest one or a later one. *)
Definition next_epoch (log : list AuditLogRow) (e : jsstr) : Prop :=
  match last log with
  | Some r => e = row_epoch r ∨ sql_lt (row_epoch r) e = true
  | None => True
  end.

Lemma derived_epoch log n today :
  log_inv log n → plain_text today →
  let e := match max_epoch log with
           | Some m => if js_lt today m then m else today
           | None => today end in
  plain_text e ∧ next_epoch log e.
Proof.
  intros Hl Ht. unfold next_epoch. destruct log as [|r log _] using rev_ind; [done|].
  pose proof (log_sorted _ _ Hl) as Hs. apply StronglySorted_snoc_inv in Hs as [_ Hf].
  rewrite (max_epoch_last _ _ Hf), last_snoc.
  assert (row_ok r) as (_&_&Hr&_) by (eapply log_row_ok; [done|set_solver]).
  destruct (js_lt today (row_epoch r)) eqn:E; simpl; [by auto|].
  split; [done|]. rewrite <- sql_lt_ascii in E by auto with wb.
  destruct (sql_lt_total today (row_epoch r)) as [?|[?|?]]; auto with wb. congruence.
Qed.

Lemma chain_position_spec log n e :
  log_inv log n → next_epoch log e →
  ∃ seq prev link, chain_position log e = (seq, prev, link) ∧ 0 <= seq ∧ ascii_only prev ∧
    (match link with Some h => ascii_only h | None => True end) ∧
    ∀ c : ChainEntry, h_epochId c = e → h_sequenceNum c = seq → h_prevHash c = prev →
      ce_epochPrevHash c = link →
      match last log with Some q => succeeds q c | None => opens_log c end.
Proof.
  intros Hl He. unfold chain_position. rewrite (epoch_rows_rev _ _ _ Hl), (chain_desc_rev _ _ Hl).
  unfold next_epoch in He. destruct log as [|r log _] using rev_ind.
  { simpl. do 3 eexists. split; [reflexivity|]. split_and!; try done.
    - unfold GENESIS_SENTINEL. auto with wb. }
  rewrite last_snoc in He. rewrite last_snoc, filter_app, rev_app_distr.
  assert (row_ok r) as (_&_&Hre&Hrh&Hrs) by (eapply log_row_ok; [done|set_solver]).
  destruct He as [->|He].
  - rewrite filter_cons_True by done. simpl. do 3 eexists. split; [reflexivity|].
    split_and!; try done; [unfold row_seq; lia|]. intros c ????. left. unfold row_epoch, row_seq in *. done.
  - assert (filter (λ r, row_epoch r = e) [r] = []) as ->.
    { apply filter_none. repeat constructor. intros Hr. by rewrite Hr, sql_lt_irrefl in He. }
    assert (filter (λ r, row_epoch r = e) log = []) as ->.
    { apply filter_none, Forall_forall. intros x Hx E.
      pose proof (log_sorted _ _ Hl) as Hs. apply StronglySorted_snoc_inv in Hs as [_ Hf].
      rewrite Forall_forall in Hf. unfold row_epoch in *.
      destruct (Hf x Hx) as [Hlt|[Eq _]].
      - rewrite E in Hlt. pose proof (sql_lt_trans _ _ _ He Hlt) as Hc. by rewrite sql_lt_irrefl in Hc.
      - rewrite <- Eq, E, sql_lt_irrefl in He. done. }
    rewrite rev_app_distr. simpl. do 3 eexists. split; [reflexivity|].
    split_and!; try done; [unfold GENESIS_SENTINEL; auto with wb|].
    intros c E1 E2 E3 E4. right. unfold row_epoch in *. by rewrite E1.
Qed.
End position.

(** ** The write *)

Section write.
Context `{Platform} `{!PlatformLaws _}.
Implicit Types (log : list AuditLogRow) (r : AuditLogRow).

Lemma ascii_toWellFormed s : ascii_only s → toWellFormed s = s.
Proof. intros Hs. by apply ascii_well_formed in Hs as [_ ?]. Qed.
Lemma sqliteText_ascii s : ascii_only s → sqliteText s = s.
Proof. intros. by apply sqliteText_wf, ascii_toWellFormed. Qed.

(** Every hashed string of a new row is conditioned. *)
Lemma row_fields_conditioned params ref epoch ts id seq prev s :
  ascii_only prev →
  s ∈ entry_strings (row_fields params ref epoch ts id seq prev) → toWellFormed s = s.
Proof.
  intros Hp. unfold entry_strings, row_fields. rewrite !elem_of_cons, elem_of_nil.
  generalize (JSON_stringify (JObj (p_parametersMetadata params))). intros md. simpl.
  unfold wellFormed. intros Hs.
  destruct_or! Hs; subst; auto using toWellFormed_idemp, ascii_toWellFormed, int_to_string_ascii;
    try done; simpl.
  - destruct (p_errorMessage params); simpl; auto using toWellFormed_idemp.
  - destruct ref; simpl; auto using toWellFormed_idemp.
  - destruct (p_costUsd params); simpl; auto using ascii_toWellFormed, num_to_string_ascii.
Qed.

Lemma stored_row_fields params ref epoch ts id seq prev :
  ascii_only prev →
  stored (row_fields params ref epoch ts id seq prev) = row_fields params ref epoch ts id seq prev.
Proof.
  intros Hp. unfold stored, row_fields, wellFormed.
  generalize (JSON_stringify (JObj (p_parametersMetadata params))). intros md. simpl.
  assert (∀ s, sqliteText (toWellFormed s) = toWellFormed s) as E
    by (intros; apply sqliteText_wf, toWellFormed_idemp).
  rewrite !E, (sqliteText_ascii prev) by done.
  f_equal; [destruct (p_errorMessage params)|destruct ref]; simpl; by rewrite ?E.
Qed.

(** The row a write appends. *)
Definition new_row (params : AuditEntryFields) (ref : option jsstr) (epoch ts id : jsstr)
    (seq : Z) (prev : jsstr) (link : option jsstr) : AuditLogRow :=
  let f := row_fields params ref epoch ts id seq prev in
  mkAuditRow (mkChainEntry f (computeEntryHash f) link) None.

(** What a successful write does to the world, [row] being the row it appends. *)
Record written (params : AuditEntryFields) (ref : option jsstr) (w w' : World)
    (row : AuditLogRow) (result : AuditEntryResult) : Prop := {
  written_result : result = mkResult (h_id row) (ce_hash row) (h_epochId row) (h_sequenceNum row);
  written_db : w_db w' = set_audit_log (λ log, log ++ [row]) (w_db w);
  written_uuids : w_uuids w' = S (w_uuids w);
  written_gate : w_turnInFlight w' = w_turnInFlight w;
  written_clock : w_clock w' = w_clock w;
  written_ticks : (w_ticks w < w_ticks w')%nat;
  written_fields : ∃ epoch ts seq prev link,
    row = new_row params ref epoch ts (randomUUID (w_uuids w)) seq prev link ∧
    (∀ t, p_timestamp params = Some t → ts = t);
  written_inv : log_inv (audit_log (w_db w')) (w_uuids w');
}.

Lemma new_row_ok params ref epoch ts id seq prev link :
  plain_text epoch → ascii_only prev → 0 <= seq →
  row_ok (new_row params ref epoch ts id seq prev link).
Proof.
  intros He Hp Hs. unfold row_ok, new_row. simpl. unfold wellFormed.
  split_and!; try done.
  - intros s. by apply row_fields_conditioned.
  - by rewrite ascii_toWellFormed by auto with wb.
  - apply sha256_ascii.
Qed.

Lemma no_clash log n d r :
  audit_log d = log → log_inv log n → h_id r = randomUUID n →
  chain_from None (al_chain <$> (log ++ [r])) → audit_clash r d = false.
Proof.
  intros <- Hl Hid Hc. unfold audit_clash. apply not_true_iff_false.
  rewrite existsb_exists. intros (x&Hx%list_elem_of_In&Hb). destruct Hl as [_ _ Hs].
  apply chain_from_sorted in Hc as [Hc _]. rewrite fmap_app in Hc.
  apply StronglySorted_snoc_inv in Hc as [_ Hc]. rewrite Forall_forall in Hc.
  apply orb_true_iff in Hb as [Hb|Hb]; wb_bool.
  - rewrite Forall_forall in Hs. destruct (Hs x Hx) as (k&Hk&Ek).
    assert (randomUUID k = randomUUID n) as E%(inj randomUUID) by congruence. lia.
  - assert (asc x r) as Ha by (apply Hc, list_elem_of_fmap; eauto).
    apply asc_ne in Ha. apply Z.eqb_eq in H1. unfold row_epoch, row_seq in *. congruence.
Qed.

Lemma log_inv_snoc log n r :
  log_inv log n → h_id r = randomUUID n → chain_from None (al_chain <$> (log ++ [r])) →
  log_inv (log ++ [r]) (S n).
Proof.
  intros [_ Hi Hs] Hid Hc. split; [done|..].
  - rewrite fmap_app. apply NoDup_app. split_and!; [done| |apply NoDup_singleton].
    intros i (x&->&Hx)%list_elem_of_fmap Hr. apply list_elem_of_singleton in Hr.
    rewrite Forall_forall in Hs. destruct (Hs x Hx) as (k&Hk&Ek).
    assert (randomUUID k = randomUUID n) as E%(inj randomUUID) by congruence. lia.
  - apply Forall_app. split.
    + eapply Forall_impl; [exact Hs|]. intros x (k&?&?). exists k. split; [lia|done].
    + repeat constructor. exists n. split; [lia|done].
Qed.

(** The write never fails, and extends the chain by one conditioned row. *)
Lemma insertRow_spec params ref w :
  log_inv (audit_log (w_db w)) (w_uuids w) → p_epochId params = None →
  ∃ row result w', insertRow params ref w = (Ok result, w') ∧ written params ref w w' row result.
Proof.
  intros Hl He. unfold insertRow. rewrite He.
  set (today := take 10 (toISOString (w_clock w (w_ticks w)))).
  destruct (derived_epoch (audit_log (w_db w)) (w_uuids w) today Hl) as [Hea Hen].
  { unfold today. auto with wb. }
  unfold deriveMonotonicEpochId, nowISO, now, select, newUUID. unfold mbind, M_bind, mret, M_ret.
  cbv beta iota zeta. cbn [w_db w_clock w_ticks w_uuids w_turnInFlight]. fold today.
  set (epoch := match max_epoch _ with Some _ => _ | None => _ end) in *.
  assert (wellFormed epoch = epoch) as Ew by (apply ascii_toWellFormed; auto with wb).
  destruct (chain_position_spec _ _ _ Hl Hen) as (seq&prev&link&Ep&Hs&Hpa&Hla&Hsucc).
  assert (∀ ts, let r := new_row params ref epoch ts (randomUUID (w_uuids w)) seq prev link in
    chain_from None (al_chain <$> (audit_log (w_db w) ++ [r])) ∧ h_id r = randomUUID (w_uuids w)) as Hr.
  { intros ts r. split.
    - rewrite fmap_app. apply chain_from_snoc. destruct Hl as [Hc _ _]. split_and!; [done|..].
      + by apply new_row_ok.
      + rewrite fmap_last. destruct (last (audit_log (w_db w))) eqn:El; simpl;
          apply Hsucc; simpl; done.
    - simpl. apply ascii_toWellFormed, randomUUID_ascii. }
  assert (sqliteText <$> link = link) as El
    by (destruct link; simpl; [by rewrite sqliteText_ascii|done]).
  destruct (p_timestamp params) as [ts|] eqn:Ets; cbv beta iota zeta;
    cbn [w_db w_clock w_ticks w_uuids w_turnInFlight]; rewrite Ew, Ep;
    unfold insert_unless; cbn [w_db w_clock w_ticks w_uuids w_turnInFlight];
    rewrite stored_row_fields by done; rewrite (sqliteText_ascii (computeEntryHash _)) by apply sha256_ascii;
    rewrite El.
  - destruct (Hr ts) as [Hc Hid].
    change (mkAuditRow _ None) with (new_row params ref epoch ts (randomUUID (w_uuids w)) seq prev link).
    rewrite (no_clash _ (w_uuids w) _ _ eq_refl Hl Hid Hc).
    exists (new_row params ref epoch ts (randomUUID (w_uuids w)) seq prev link).
    do 2 eexists. split; [reflexivity|]. split; try reflexivity; [simpl; lia|..].
    + do 5 eexists. split; [reflexivity|]. congruence.
    + by apply log_inv_snoc.
  - destruct (Hr (toISOString (w_clock w (S (w_ticks w))))) as [Hc Hid].
    change (mkAuditRow _ None) with (new_row params ref epoch
      (toISOString (w_clock w (S (w_ticks w)))) (randomUUID (w_uuids w)) seq prev link).
    rewrite (no_clash _ (w_uuids w) _ _ eq_refl Hl Hid Hc).
    eexists (new_row params ref epoch _ (randomUUID (w_uuids w)) seq prev link).
    do 2 eexists. split; [reflexivity|]. split; try reflexivity; [simpl; lia|..].
    + do 5 eexists. split; [reflexivity|]. congruence.
    + by apply log_inv_snoc.
Qed.
End write.

(** ** Consequences *)

Section consequences.
Context `{Platform} `{!PlatformLaws _}.
Implicit Types (log : list AuditLogRow).

Lemma written_moved params ref w w' row r : written params ref w w' row r → moved w w'.
Proof. intros [_ _ Hu Hg Hc Ht _ _]. split; [rewrite Hu; lia|lia|done..]. Qed.

(** Writing a row keeps any invariant of the tables that appending one keeps. *)
Lemma keeps_insertRow_frame J `{!Supply J} params ref :
  (∀ f d n, J d n → J (set_audit_log f d) n) → keeps J (insertRow params ref).
Proof.
  intros Hf. unfold insertRow, deriveMonotonicEpochId. keeps_tac; intros; by apply Hf.
Qed.

Lemma keeps_insertRow params ref : p_epochId params = None → keeps chain_inv (insertRow params ref).
Proof.
  intros He w Hw. destruct (insertRow_spec params ref w Hw He) as (row&r&w'&E&Hwr).
  rewrite E. simpl. split; [apply (written_inv _ _ _ _ _ _ Hwr)|]. by eapply written_moved.
Qed.

Lemma keeps_close params basis :
  p_epochId (rp_fields params) = None → keeps chain_inv (closeDecisionEntryInTxn params basis).
Proof.
  intros He. unfold closeDecisionEntryInTxn, hasCloserInTxn.
  pose proof (keeps_insertRow (rp_fields params) (Some (rp_decisionEntryId params)) He). keeps_tac.
Qed.

Lemma wp_insertRow params ref Q w :
  chain_inv (w_db w) (w_uuids w) → p_epochId params = None →
  (∀ row r w', written params ref w w' row r → Q r w') → wp (insertRow params ref) Q w.
Proof.
  intros Hi He HQ. destruct (insertRow_spec params ref w Hi He) as (row&r&w'&E&Hw).
  apply wp_run. eauto.
Qed.

(** The rows that close a decision. *)
Definition closers_in (log : list AuditLogRow) (id : jsstr) : nat :=
  length (List.filter (closes id) log).

Lemma closers_in_app l k id : closers_in (l ++ k) id = (closers_in l id + closers_in k id)%nat.
Proof. unfold closers_in. by rewrite List.filter_app, length_app. Qed.

Lemma closers_in_exists log id : existsb (closes id) log = negb (closers_in log id =? 0)%nat.
Proof.
  unfold closers_in. induction log as [|x l IH]; [done|].
  simpl. destruct (closes id x); [done|]. exact IH.
Qed.

(** What a written row does to the closers of a decision. *)
Lemma written_closers params ref w w' row r id :
  written params ref w w' row r →
  closers_in (audit_log (w_db w')) id =
    (closers_in (audit_log (w_db w)) id +
     if decide (wellFormed <$> ref = Some id) then 1 else 0)%nat.
Proof.
  intros Hw. rewrite (written_db _ _ _ _ _ _ Hw). simpl. rewrite closers_in_app. f_equal.
  destruct (written_fields _ _ _ _ _ _ Hw) as (?&?&?&?&?&->&_).
  unfold closers_in. simpl. unfold closes. simpl. case_decide.
  - by rewrite bool_decide_eq_true_2.
  - by rewrite bool_decide_eq_false_2.
Qed.

(** No decision loses a closer, and none gains a second one. *)
Definition settles (log log' : list AuditLogRow) : Prop :=
  ∀ id, (closers_in log id <= closers_in log' id <= Nat.max 1 (closers_in log id))%nat.

(** A run that appended rows to the log and did [f] to the other tables. *)
Record audited (f : Db → Db) (w w' : World) : Prop := {
  au_db : ∃ rows, w_db w' = f (set_audit_log (λ log, log ++ rows) (w_db w));
  au_inv : chain_inv (w_db w') (w_uuids w');
  au_clock : w_clock w' = w_clock w;
  au_gate : w_turnInFlight w' = w_turnInFlight w;
  au_uuids : (w_uuids w <= w_uuids w')%nat;
  au_settles : settles (audit_log (w_db w)) (audit_log (w_db w'));
}.

(** An operation on the other tables. *)
Class OffLog (f : Db → Db) : Prop := off_log h d : f (set_audit_log h d) = set_audit_log h (f d).

Lemma off_log_audit f `{!OffLog f} d : audit_log (f d) = audit_log d.
Proof.
  assert (d = set_audit_log (λ _, audit_log d) d) as E by by destruct d.
  rewrite E at 1. by rewrite off_log.
Qed.

Lemma audited_modify f `{!OffLog f} w :
  chain_inv (w_db w) (w_uuids w) → audited f w (with_db f w).
Proof.
  intros Hi. split; simpl; try done.
  - exists []. rewrite off_log. destruct (f (w_db w)). unfold set_audit_log. simpl.
    by rewrite app_nil_r.
  - unfold chain_inv. by rewrite off_log_audit.
  - rewrite off_log_audit by done. intros id. lia.
Qed.

#[export] Instance off_log_id : OffLog (λ d, d).
Proof. by intros h d. Qed.
#[export] Instance off_log_comp f g : OffLog f → OffLog g → OffLog (λ d, g (f d)).
Proof. intros Hf Hg h d. by rewrite Hf, Hg. Qed.

Lemma audited_refl w : chain_inv (w_db w) (w_uuids w) → audited (λ d, d) w w.
Proof. intros Hi. pose proof (audited_modify (λ d, d) w Hi) as Ha. by destruct w. Qed.

Lemma audited_trans f g w w1 w2 `{!OffLog f, !OffLog g} :
  audited f w w1 → audited g w1 w2 → audited (λ d, g (f d)) w w2.
Proof.
  intros [[r1 E1] ? Hc1 Hg1 ? Hs1] [[r2 E2] ? Hc2 Hg2 ? Hs2]. split; [|done|..].
  - exists (r1 ++ r2). rewrite E2, E1. rewrite !(off_log (f := f)), !(off_log (f := g)).
    unfold set_audit_log. simpl. by rewrite (assoc_L (++)).
  - congruence.
  - congruence.
  - lia.
  - intros id. specialize (Hs1 id). specialize (Hs2 id). lia.
Qed.

Lemma audited_ext f g w w' : (∀ d, f d = g d) → audited f w w' → audited g w w'.
Proof. intros E [[r H1] ? ? ? ? ?]. split; [|done..]. exists r. by rewrite <- E. Qed.

(** What a decision's closer, or a row that closes nothing, does to the log. *)
Lemma written_audited params ref w w' row r :
  written params ref w w' row r →
  (∀ id, wellFormed <$> ref = Some id → closers_in (audit_log (w_db w)) id = 0%nat) →
  audited (λ d, d) w w'.
Proof.
  intros Hw Hr. split.
  - exists [row]. apply (written_db _ _ _ _ _ _ Hw).
  - apply (written_inv _ _ _ _ _ _ Hw).
  - apply (written_clock _ _ _ _ _ _ Hw).
  - apply (written_gate _ _ _ _ _ _ Hw).
  - rewrite (written_uuids _ _ _ _ _ _ Hw). lia.
  - intros id. rewrite (written_closers _ _ _ _ _ _ id Hw). case_decide as Hd; [|lia].
    rewrite (Hr id Hd). lia.
Qed.

Lemma wp_entry params Q w :
  chain_inv (w_db w) (w_uuids w) → p_epochId params = None →
  (∀ row r w', written params None w w' row r → audited (λ d, d) w w' → Q r w') →
  wp (insertAuditEntryInTxn params) Q w.
Proof.
  intros Hi He HQ. apply wp_insertRow; [done..|]. intros row r w' Hw.
  apply (HQ row); [done|]. by eapply written_audited.
Qed.

(** A close on either basis: an inferred one only where nothing closed the
    decision yet. *)
Definition closed_as (params : ReferencingAuditEntryParams) (basis : CloserBasis) (w : World)
    (result : option AuditEntryResult) (w' : World) : Prop :=
  let id := rp_decisionEntryId params in
  let before := closers_in (audit_log (w_db w)) id in
  let after := closers_in (audit_log (w_db w')) id in
  chain_inv (w_db w') (w_uuids w') ∧
  match basis with
  | Observed => result ≠ None ∧ after = S before
  | Inferred =>
      (result = None ↔ before ≠ 0%nat) ∧ (result = None → w' = w) ∧ after = Nat.max 1 before
  end.

Lemma wp_close params basis Q w :
  chain_inv (w_db w) (w_uuids w) → p_epochId (rp_fields params) = None →
  toWellFormed (rp_decisionEntryId params) = rp_decisionEntryId params →
  (∀ r w', closed_as params basis w r w' →
     (basis = Inferred → audited (λ d, d) w w') →
     (basis = Inferred → w' = w ∨ ∃ row r', written (rp_fields params)
        (Some (rp_decisionEntryId params)) w w' row r') → Q r w') →
  wp (closeDecisionEntryInTxn params basis) Q w.
Proof.
  intros Hi He Hid HQ. unfold closed_as in HQ. set (id := rp_decisionEntryId params) in *.
  assert (∀ Q', (∀ row r w', written (rp_fields params) (Some id) w w' row r → Q' r w') →
    wp (insertRow (rp_fields params) (Some id)) Q' w) as Hw by (intros; by apply wp_insertRow).
  assert (∀ row r w', written (rp_fields params) (Some id) w w' row r →
    closers_in (audit_log (w_db w')) id = S (closers_in (audit_log (w_db w)) id)) as Hc.
  { intros row r w' Hwr. rewrite (written_closers _ _ _ _ _ _ id Hwr). unfold wellFormed. simpl.
    rewrite Hid, decide_True by done. lia. }
  unfold closeDecisionEntryInTxn, hasCloserInTxn. fold id. apply wp_bind.
  destruct basis; simpl.
  - apply wp_ret. cbv iota. apply wp_bind, Hw. intros row r w' Hwr. apply wp_ret, HQ; [|done..].
    split_and!; [apply (written_inv _ _ _ _ _ _ Hwr)|done|by eapply Hc].
  - apply wp_select. rewrite closers_in_exists.
    destruct (Nat.eqb_spec (closers_in (audit_log (w_db w)) id) 0) as [Hz|Hz]; simpl.
    + apply wp_bind, Hw. intros row r w' Hwr. apply wp_ret, HQ; [|intros _|eauto].
      * split_and!; [apply (written_inv _ _ _ _ _ _ Hwr)|done|done|].
        rewrite (Hc _ _ _ Hwr), Hz. done.
      * eapply written_audited; [done|]. unfold wellFormed. simpl. intros i [= <-]. by rewrite Hid.
    + apply wp_ret, HQ; [|intros _; by apply audited_refl|by left].
      split_and!; try done. lia.
Qed.

(** A chained log is an unbroken range. *)
Lemma chain_from_intact (p : option ChainEntry) l :
  match p with Some p => 0 <= h_sequenceNum p | None => True end →
  chain_from p l → intact l.
Proof.
  revert p. induction l as [|e l IH]; intros p Hp0; [constructor|].
  intros ((Hh&_&_&_&Hs)&Hp&Hl).
  assert (sound_row e) as He.
  { split; [done|]. intros Hz. destruct p as [p|]; [|apply Hp].
    destruct Hp as [(_&E&_)|(_&_&?&_)]; [lia|done]. }
  specialize (IH (Some e) Hs Hl). destruct l as [|f l]; [by constructor|].
  constructor; [done| |done]. destruct Hl as ((_&_&_&_&Hf)&Hef&_).
  destruct Hef as [(E1&E2&E3&_)|(E1&E2&_&E4)].
  - constructor 1; [done|lia|done].
  - constructor 3; [|done..]. intros E. by rewrite E, sql_lt_irrefl in E1.
Qed.

Lemma log_inv_intact log n : log_inv log n → intact (al_chain <$> log).
Proof. intros [Hc _ _]. by eapply (chain_from_intact None). Qed.

(** A write of the sequence a caller makes: its parameters and, for a closer,
    the decision it closes. *)
Definition write (pr : AuditEntryFields * option jsstr) : M unit :=
  insertRow (fst pr) (snd pr) ;; mret tt.

Lemma writes_spec ws w :
  Forall (λ pr, p_epochId (fst pr) = None) ws →
  chain_inv (w_db w) (w_uuids w) →
  ∃ w' rows, for_each write ws w = (Ok tt, w') ∧
    audit_log (w_db w') = audit_log (w_db w) ++ rows ∧ length rows = length ws ∧
    chain_inv (w_db w') (w_uuids w').
Proof.
  intros Hw. revert w. induction Hw as [|[params ref] ws He Hws IH]; intros w Hi.
  { exists w, []. by rewrite app_nil_r. }
  destruct (insertRow_spec params ref w Hi He) as (row&r&w1&E&Hwr).
  destruct (IH w1) as (w'&rows&E'&El&Hlen&Hi').
  { exact (written_inv _ _ _ _ _ _ Hwr). }
  exists w', (row :: rows). simpl. unfold write, mbind, M_bind. simpl. rewrite E. simpl.
  split; [exact E'|]. rewrite El, (written_db _ _ _ _ _ _ Hwr). simpl.
  rewrite <- (assoc_L (++)). simpl. by rewrite Hlen.
Qed.

(** The newest-first pages of a chained log. *)
Lemma chain_page_first log n limit :
  log_inv log n → chain_page log limit None = take (Z.to_nat limit) (rev (al_chain <$> log)).
Proof.
  intros Hl. unfold chain_page. rewrite (chain_desc_rev _ _ Hl).
  by rewrite fmap_take, fmap_rev.
Qed.

Lemma log_inv_prefix l k n : log_inv (l ++ k) n → log_inv l n.
Proof.
  intros [Hc Hi Hs]. rewrite fmap_app in Hc. rewrite fmap_app in Hi. split.
  - clear -Hc. revert Hc. generalize (@None ChainEntry).
    induction (al_chain <$> l) as [|e es IH]; intros o; simpl; [done|]. naive_solver.
  - by apply NoDup_app in Hi as [? _].
  - by apply Forall_app in Hs as [? _].
Qed.

Lemma chain_page_next l c k n limit :
  log_inv (l ++ c :: k) n →
  chain_page (l ++ c :: k) limit (Some (row_epoch c, row_seq c)) =
  take (Z.to_nat limit) (rev (al_chain <$> l)).
Proof.
  intros Hl. unfold chain_page.
  assert (List.filter (row_before (row_epoch c, row_seq c)) (l ++ c :: k) = l) as ->.
  { pose proof (log_sorted _ _ Hl) as Hs. clear Hl.
    apply StronglySorted_middle in Hs as [H1 H2].
    assert (∀ r : AuditLogRow, asc r c → row_before (row_epoch c, row_seq c) r = true) as Hy.
    { intros r [Hr|[E Hr]]; unfold row_before, row_epoch, row_seq; apply orb_true_iff; [by left|].
      right. simpl. rewrite bool_decide_eq_true_2 by done. by apply Z.ltb_lt. }
    assert (∀ r : AuditLogRow, asc c r ∨ r = c → row_before (row_epoch c, row_seq c) r = false) as Hn.
    { intros r Hr. apply not_true_iff_false. unfold row_before, row_epoch, row_seq. simpl.
      intros Hb. assert (asc r c) as Ha.
      { apply orb_true_iff in Hb as [Hb|Hb]; [by left|]. wb_bool. right. split; [done|].
        by apply Z.ltb_lt. }
      destruct Hr as [Hr| ->]; [|by apply asc_ne in Ha].
      pose proof (asc_trans _ _ _ Ha Hr) as Hc. by apply asc_ne in Hc. }
    rewrite List.filter_app. simpl. rewrite Hn by auto.
    rewrite (list_filter_all _ l), (list_filter_none _ k); [apply app_nil_r|..];
      (eapply Forall_impl; [eassumption|]; auto). }
  rewrite (chain_desc_rev _ _ (log_inv_prefix _ _ _ Hl)). by rewrite fmap_take, fmap_rev.
Qed.
End consequences.

(** ** Properties *)

Section properties.
Context `{Platform} `{!PlatformLaws _}.

(** The log of a fresh store. *)
Definition fresh (w : World) : Prop := audit_log (w_db w) = [].

Lemma fresh_inv w : fresh w → chain_inv (w_db w) (w_uuids w).
Proof. unfold fresh, chain_inv. intros ->. split; by constructor. Qed.

(** C4: what the engine writes, the verifier accepts. Whatever rows are written
    to a fresh log, whatever text they carry and however the clock jumps,
    every write succeeds, and the log verifies from its genesis with no break:
    ids are distinct, every digest recomputes from the stored text, every link
    holds, and no epoch is reopened. *)
Theorem engine_log_verifies ws w :
  fresh w → ws ≠ [] → Forall (λ pr, p_epochId (fst pr) = None) ws →
  ∃ w', for_each write ws w = (Ok tt, w') ∧
    let entries := al_chain <$> audit_log (w_db w') in
    let v := verifyChainRange entries None in
    length entries = length ws ∧ breaks v = [] ∧ lowerEdge v = GenesisShaped ∧
    NoDup ((λ e : ChainEntry, h_id e) <$> entries) ∧ StronglySorted asc entries.
Proof.
  intros Hf Hne Hw. destruct (writes_spec ws w Hw (fresh_inv _ Hf)) as (w'&rows&E&El&Hlen&Hi).
  exists w'. split; [done|]. rewrite Hf in El. simpl in El.
  pose proof (log_inv_intact _ _ Hi) as Hint. destruct Hi as [Hc Hi _].
  pose proof (chain_from_sorted _ _ Hc) as [Hs _]. cbv zeta.
  split_and!; [by rewrite length_fmap, El| | |by rewrite <- list_fmap_compose|done].
  - rewrite verify_breaks. rewrite (proj2 (check_entries_nil None _)); [by case_match|].
    done.
  - destruct (al_chain <$> audit_log (w_db w')) as [|e es] eqn:Ee.
    + apply fmap_nil_inv in Ee. rewrite El in Ee. by destruct ws, rows.
    + unfold verifyChainRange. destruct Hc as (_&(Hz&_&Hp)&_). rewrite Hz, Hp. done.
Qed.

(** An inferred closer never contradicts a recorded one. On an inferred
    basis the write happens exactly when the decision has no closer yet, so
    the decision ends with one closer if it had none and with the same ones
    otherwise; on an observed basis the write always happens. *)
Theorem closer_rule params basis w :
  chain_inv (w_db w) (w_uuids w) → p_epochId (rp_fields params) = None →
  toWellFormed (rp_decisionEntryId params) = rp_decisionEntryId params →
  let id := rp_decisionEntryId params in
  let before := closers_in (audit_log (w_db w)) id in
  ∃ r w', closeDecisionEntryInTxn params basis w = (Ok r, w') ∧
    chain_inv (w_db w') (w_uuids w') ∧
    match basis with
    | Observed => r ≠ None ∧ closers_in (audit_log (w_db w')) id = S before
    | Inferred =>
        (r = None ↔ before ≠ 0%nat) ∧ (r = None → w' = w) ∧
        closers_in (audit_log (w_db w')) id = Nat.max 1 before
    end.
Proof.
  intros Hi He Hid id before. apply wp_run, wp_close; [done..|]. intros r w' Hc _ _. exact Hc.
Qed.
End properties.

(** ** A concrete log *)

Definition demo_params : AuditEntryFields :=
  mkParams (js "u") (js "a") (js "s") (js "mail_send") (js "mail") (js "send") [0xD800%N; 97%N]
    V_allow None [] X_success None 0 (Some (JsNum 5 (-7))) None None.

Lemma engine_log_verifies_witness :
  ∃ w', for_each write [(demo_params, None); (demo_params, Some (js "uuid-0")); (demo_params, None)]
          demo_world = (Ok tt, w') ∧
    let entries := al_chain <$> audit_log (w_db w') in
    let v := verifyChainRange entries None in
    length entries = length [(demo_params, @None jsstr); (demo_params, Some (js "uuid-0")); (demo_params, None)] ∧
    breaks v = [] ∧ lowerEdge v = GenesisShaped ∧
    NoDup ((λ e : ChainEntry, h_id e) <$> entries) ∧ StronglySorted asc entries.
Proof.
  apply (engine_log_verifies
    [(demo_params, None); (demo_params, Some (js "uuid-0")); (demo_params, None)] demo_world).
  - reflexivity.
  - discriminate.
  - repeat constructor.
Defined.

Lemma closer_rule_witness :
  let params := mkCloserParams demo_params (js "uuid-7") in
  ∃ r w', closeDecisionEntryInTxn params Inferred demo_world = (Ok r, w') ∧
    chain_inv (w_db w') (w_uuids w') ∧
    (r = None ↔ closers_in (audit_log (w_db demo_world)) (js "uuid-7") ≠ 0%nat) ∧
    (r = None → w' = demo_world) ∧
    closers_in (audit_log (w_db w')) (js "uuid-7") =
      Nat.max 1 (closers_in (audit_log (w_db demo_world)) (js "uuid-7")).
Proof.
  intros params. apply (closer_rule params Inferred demo_world).
  - apply fresh_inv. reflexivity.
  - reflexivity.
  - reflexivity.
Defined.
