(* ===== verification/Tables.v ===== *)
(** * The table helpers: [packages/engine/src/data/helpers/]

    One definition per query helper over the tables other than [audit_log], with
    the helper's WHERE, ORDER BY and conflict clauses. An ORDER BY is a stable
    sort over the insertion order. *)

From S2P Require Export AuditLog.
Open Scope Z_scope.

(** ** SQL *)

(** [UPDATE ... SET f WHERE p]. *)
Definition update_where {R} (p : R → bool) (f : R → R) (rows : list R) : list R :=
  (λ r, if p r then f r else r) <$> rows.
(** [DELETE ... WHERE p]. *)
Definition delete_where {R} (p : R → bool) (rows : list R) : list R :=
  List.filter (λ r, negb (p r)) rows.

(** [a = b] on a nullable column: null equals nothing. *)
Definition sql_eq (a b : option jsstr) : bool :=
  match a, b with Some x, Some y => bool_decide (x = y) | _, _ => false end.
Definition eqs (a b : jsstr) : bool := bool_decide (a = b).
(** [a = b] under the BINARY collation, by the bytes. *)
Definition sql_same (a b : jsstr) : bool := bool_decide (utf8 a = utf8 b).

(** ** connected-services.ts *)

Definition connected_order (a b : ConnectedServicesRow) : bool :=
  sql_lt (cs_connected_at a) (cs_connected_at b).
Definition is_service (service : jsstr) (r : ConnectedServicesRow) : bool :=
  eqs (cs_service r) service.

Definition listConnectedServices : M (list (jsstr * jsstr)) :=
  select (λ d, (λ r, (cs_service r, cs_connected_at r)) <$>
    stable_sort connected_order (connected_services d)).
Definition listConnectedServicesWithCredentialPresence : M (list (jsstr * jsstr * bool)) :=
  select (λ d, (λ r, (cs_service r, cs_connected_at r, bool_decide (cs_credential r ≠ None))) <$>
    stable_sort connected_order (connected_services d)).
Definition connectService (service : jsstr) (credential : option jsstr) : M unit :=
  at_ ← nowISO;
  modify (set_connected_services (λ rows,
    if existsb (is_service service) rows
    then update_where (is_service service)
           (λ r, mkConnected (cs_service r) (cs_connected_at r) credential) rows
    else rows ++ [mkConnected service at_ credential])).
Definition isServiceConnected (service : jsstr) : M bool :=
  select (λ d, existsb (is_service service) (connected_services d)).
Definition disconnectService (service : jsstr) : M bool :=
  found ← select (λ d, existsb (is_service service) (connected_services d));
  modify (set_connected_services (delete_where (is_service service))) ;;
  mret found.
Definition readCredential (service : jsstr) : M (option jsstr) :=
  select (λ d, List.find (is_service service) (connected_services d) ≫= cs_credential).
Definition writeCredential (service ciphertext : jsstr) (expected : option jsstr) : M bool :=
  let p r := is_service service r &&
    match expected with Some e => sql_eq (cs_credential r) (Some e) | None => true end in
  found ← select (λ d, existsb p (connected_services d));
  modify (set_connected_services
    (update_where p (λ r, mkConnected (cs_service r) (cs_connected_at r) (Some ciphertext)))) ;;
  mret found.

(** ** held-tool-calls.ts *)

Definition held_order (a b : HeldToolCallsRow) : bool :=
  sql_lt (hc_held_at a) (hc_held_at b) || sql_same (hc_held_at a) (hc_held_at b) && sql_lt (hc_id a) (hc_id b).
Definition is_held (id : jsstr) (r : HeldToolCallsRow) : bool := eqs (hc_id r) id.
Definition held_by_run (run : jsstr) (r : HeldToolCallsRow) : bool := sql_eq (hc_run_id r) (Some run).
Definition held_by_session (s : jsstr) (r : HeldToolCallsRow) : bool := eqs (hc_session_id r) s.

Definition insertHeldToolCall (row : HeldToolCallsRow) : M unit :=
  insert_unless (λ d, existsb (is_held (hc_id row)) (held_tool_calls d))
    (set_held_tool_calls (λ rows, rows ++ [row])).
Definition selectHeldCalls : M (list HeldToolCallsRow) :=
  select (λ d, stable_sort held_order (held_tool_calls d)).
Definition readHeldCall (id : jsstr) : M (option HeldToolCallsRow) :=
  select (λ d, List.find (is_held id) (held_tool_calls d)).
Definition selectInputHoldForTask (run : jsstr) : M (option HeldToolCallsRow) :=
  select (λ d, List.find (λ r, held_by_run run r && bool_decide (hc_hold_kind r = H_input))
    (held_tool_calls d)).
Definition set_turn_state (t : json_text) (r : HeldToolCallsRow) : HeldToolCallsRow :=
  mkHeld (hc_id r) (hc_session_id r) (hc_pending_audit_entry_id r) t (hc_held_at r) (hc_run_id r)
    (hc_hold_kind r) (hc_awaited_slot_keys r) (hc_spend_context r).
Definition updateHeldTurnState (id : jsstr) (turnState : json_text) : M unit :=
  modify (set_held_tool_calls (update_where (is_held id) (set_turn_state turnState))).
Definition reholdForSpend (id pending : jsstr) (spendContext : json_text) : M unit :=
  modify (set_held_tool_calls (update_where (is_held id) (λ r,
    mkHeld (hc_id r) (hc_session_id r) pending (hc_turn_state r) (hc_held_at r) (hc_run_id r)
      (hc_hold_kind r) (hc_awaited_slot_keys r) (Some spendContext)))).
Definition selectHeldCallForRun (run : jsstr) : M (option jsstr) :=
  select (λ d, hc_id <$> List.find (held_by_run run) (held_tool_calls d)).
Definition deleteHeldToolCall (id : jsstr) : M unit :=
  modify (set_held_tool_calls (delete_where (is_held id))).
Definition selectHeldCallsForRun (run : jsstr) : M (list HeldToolCallsRow) :=
  select (λ d, stable_sort held_order (List.filter (held_by_run run) (held_tool_calls d))).
Definition selectHeldCallsForSession (s : jsstr) : M (list HeldToolCallsRow) :=
  select (λ d, List.filter (held_by_session s) (held_tool_calls d)).
Definition selectHeldCallAuditRefs : M (list HeldToolCallsRow) := select held_tool_calls.
Definition deleteAllHeldToolCalls : M unit := modify (set_held_tool_calls (λ _, [])).

(** ** oauth-state.ts *)

Definition is_state (key : jsstr) (r : OAuthStateRow) : bool := eqs (os_state_key r) key.
Definition insertOAuthState (key : jsstr) (data : OAuthStateData) : M unit :=
  insert_unless (λ d, existsb (is_state key) (oauth_state d))
    (set_oauth_state (λ rows, rows ++ [mkOAuthRow key data])).
Definition readOAuthState (key : jsstr) : M (option OAuthStateData) :=
  select (λ d, os_data <$> List.find (is_state key) (oauth_state d)).
Definition deleteOAuthState (key : jsstr) : M unit :=
  modify (set_oauth_state (delete_where (is_state key))).
Definition markOAuthStateDenied (key : jsstr) : M unit :=
  modify (set_oauth_state (update_where (is_state key) (λ r : OAuthStateRow,
    mkOAuthRow (os_state_key r)
      (mkOAuthData (os_code_verifier r) (os_code_challenge r) (os_service r) (os_auth_code r)
        (os_created_at r) (os_expires_at r) true)))).
Definition deleteOAuthStateByService (service : jsstr) : M unit :=
  modify (set_oauth_state (delete_where (λ r : OAuthStateRow, eqs (os_service r) service && negb (os_denied r)))).

(** ** policy-entries.ts *)

Definition priority_desc (a b : PolicyEntriesRow) : bool := po_priority b <? po_priority a.
Definition priority_then (lt : jsstr → jsstr → bool) (a b : PolicyEntriesRow) : bool :=
  (po_priority b <? po_priority a) ||
  (po_priority b =? po_priority a) && lt (po_created_at a) (po_created_at b).
Definition unexpired (nowIso : jsstr) (r : PolicyEntriesRow) : bool :=
  match po_expires_at r with None => true | Some e => sql_lt nowIso e end.
Definition unconsumed (r : PolicyEntriesRow) : bool := bool_decide (po_consumed_at r = None).
Definition is_policy (id : jsstr) (r : PolicyEntriesRow) : bool := eqs (po_id r) id.

(** The WHERE clause of [selectActivePolicyEntries]. *)
Definition active_for (sessionId : option jsstr) (nowIso : jsstr) (r : PolicyEntriesRow) : bool :=
  (bool_decide (po_session_id r = None) || sql_eq (po_session_id r) sessionId) &&
  unexpired nowIso r && unconsumed r.
Definition selectActivePolicyEntries (sessionId : option jsstr) : M (list PolicyEntriesRow) :=
  t ← nowISO;
  select (λ d, stable_sort priority_desc (List.filter (active_for sessionId t) (policy_entries d))).
Definition selectActiveGrants (sessionId : option jsstr) : M (list PolicyEntriesRow) :=
  t ← nowISO;
  select (λ d, stable_sort (priority_then (λ a b, sql_lt b a))
    (List.filter (λ r, negb (bool_decide (po_source r = S_standing)) &&
       sql_eq (po_session_id r) sessionId && unexpired t r && unconsumed r) (policy_entries d))).
Definition selectStandingEntries : M (list PolicyEntriesRow) :=
  select (λ d, stable_sort (priority_then sql_lt)
    (List.filter (λ r, bool_decide (po_source r = S_standing)) (policy_entries d))).
Definition readPolicyEntryScope (id : jsstr) : M (option PolicyEntriesRow) :=
  select (λ d, List.find (is_policy id) (policy_entries d)).
Definition insertPolicyRow (row : PolicyEntriesRow) : M unit :=
  insert_unless (λ d, existsb (is_policy (po_id row)) (policy_entries d))
    (set_policy_entries (λ rows, rows ++ [row])).
Definition insertSessionGrant (id sessionId service verb noun : jsstr) (decision : grant)
    (createdAt expiresAt : jsstr) : M unit :=
  insertPolicyRow (mkPolicyRow id S_session (Some sessionId) service verb noun decision 10
    createdAt (Some expiresAt) None).
Definition insertTaskGrant (id sessionId service verb noun : jsstr) (decision : grant)
    (createdAt : jsstr) : M unit :=
  insertPolicyRow (mkPolicyRow id S_task (Some sessionId) service verb noun decision 10
    createdAt None None).
Definition consume (at_ : jsstr) (r : PolicyEntriesRow) : PolicyEntriesRow :=
  mkPolicyRow (po_id r) (po_source r) (po_session_id r) (po_service r) (po_verb r) (po_noun r)
    (po_decision r) (po_priority r) (po_created_at r) (po_expires_at r) (Some at_).
Definition consumable (id : jsstr) (r : PolicyEntriesRow) : bool :=
  is_policy id r && bool_decide (po_source r = S_task) && unconsumed r.
Definition consumeTaskGrant_row (id consumedAt : jsstr) : M unit :=
  modify (set_policy_entries (update_where (consumable id) (consume consumedAt))).
Definition deletePolicyEntriesExcept (keepId : jsstr) : M unit :=
  modify (set_policy_entries (delete_where (λ r, negb (is_policy keepId r)))).

(** ** session-state.ts *)

Definition is_session (id : jsstr) (r : SessionStateRow) : bool := eqs (ss_session_id r) id.
Definition is_open (r : SessionStateRow) : bool := bool_decide (ss_ended_at r = None).
Definition started_desc (a b : SessionStateRow) : bool := sql_lt (ss_started_at b) (ss_started_at a).

Definition readSessionStartedAt (id : jsstr) : M (option jsstr) :=
  select (λ d, ss_started_at <$> List.find (is_session id) (session_state d)).
Definition insertSessionState (id startedAt agentId : jsstr) : M unit :=
  modify (set_session_state (λ rows,
    if existsb (is_session id) rows then rows
    else rows ++ [mkSession id startedAt agentId None])).
Definition selectOpenSessions : M (list SessionStateRow) :=
  select (λ d, List.filter is_open (session_state d)).
Definition active_session (rows : list SessionStateRow) : option SessionStateRow :=
  head (stable_sort started_desc (List.filter is_open rows)).
Definition selectActiveSession : M (option SessionStateRow) :=
  select (λ d, active_session (session_state d)).
Definition end_row (endedAt : jsstr) (r : SessionStateRow) : SessionStateRow :=
  mkSession (ss_session_id r) (ss_started_at r) (ss_agent_id r) (Some endedAt).
Definition markSessionEnded (id endedAt : jsstr) : M unit :=
  modify (set_session_state (update_where (is_session id) (end_row endedAt))).
Definition readSessionEndedAt (id : jsstr) : M (option jsstr) :=
  select (λ d, List.find (is_session id) (session_state d) ≫= ss_ended_at).

(** ** spend-ledger.ts *)

(** [ISO_UTC_MILLIS]: digits and separators by position. *)
Definition iso_shape : jsstr := js "dddd-dd-ddTdd:dd:dd.dddZ".
Definition iso_utc_millis (s : jsstr) : bool :=
  (length s =? 24)%nat &&
  forallb (λ pc, if (fst pc =? 100)%N then is_digit (snd pc) else (fst pc =? snd pc)%N)
    (combine iso_shape s).

Definition same_spend (row r : SpendLedgerRow) : bool :=
  eqs (sl_idempotency_key r) (sl_idempotency_key row) && eqs (sl_quote_id r) (sl_quote_id row).
Definition insertSpendInTxn (row : SpendLedgerRow) : M unit :=
  if negb (safe_int (sl_amount_cents row)) || (sl_amount_cents row <? 0) then
    throw (Exn (js "spend_ledger: amountCents must be a non-negative integer"))
  else if negb (iso_utc_millis (sl_created_at row)) then
    throw (Exn (js "spend_ledger: createdAt must be toISOString() form (UTC millis)"))
  else
    insert_unless
      (λ d, existsb (λ r, eqs (sl_id r) (sl_id row)) (spend_ledger d) &&
            negb (existsb (same_spend row) (spend_ledger d)))
      (set_spend_ledger (λ rows, if existsb (same_spend row) rows then rows else rows ++ [row])).

Definition sum_cents (rows : list SpendLedgerRow) : Z :=
  foldr (λ r acc, sl_amount_cents r + acc) 0 rows.
Definition sumSessionSpendCents (sessionId : jsstr) : M Z :=
  select (λ d, sum_cents (List.filter (λ r, eqs (sl_session_id r) sessionId) (spend_ledger d))).
(** [created_at >= monthStart] on TEXT. *)
Definition sumMonthSpendCents (monthStartIso : jsstr) : M Z :=
  select (λ d, sum_cents (List.filter (λ r, negb (sql_lt (sl_created_at r) monthStartIso))
    (spend_ledger d))).

(** ** user-settings.ts *)

Definition SPEND_LIMIT_MONTHLY_KEY : jsstr := js "spend_limit_monthly_cents".
Definition SPEND_LIMIT_SESSION_KEY : jsstr := js "spend_limit_session_cents".
Definition is_key (key : jsstr) (r : UserSettingsRow) : bool := eqs (us_key r) key.

Definition getSetting (key : jsstr) : M (option jsstr) :=
  select (λ d, us_value <$> List.find (is_key key) (user_settings d)).
Definition setSetting (key value : jsstr) : M unit :=
  modify (set_user_settings (λ rows,
    if existsb (is_key key) rows
    then update_where (is_key key) (λ r, mkSetting (us_key r) value) rows
    else rows ++ [mkSetting key value])).

(** [/^\d+$/] then [Number]. A digit string past the safe range rounds to a
    double above it, so it is refused whatever it rounds to. *)
Definition parseLimitCents (value : option jsstr) : option Z :=
  match value with
  | None => None
  | Some v =>
      if negb (bool_decide (v ≠ []) && forallb is_digit v) then None
      else let n := Z.of_N (undec v) in if safe_int n then Some n else None
  end.

Arguments parseLimitCents : simpl never.

Record SpendLimitsRead := mkLimitsRead {
  lr_session : Z; lr_month : Z; lr_sessionIsDefault : bool; lr_monthIsDefault : bool;
}.
Definition limits_of (rows : list UserSettingsRow) : SpendLimitsRead :=
  let stored key := us_value <$> List.find (is_key key) rows in
  let month := parseLimitCents (stored SPEND_LIMIT_MONTHLY_KEY) in
  let session := parseLimitCents (stored SPEND_LIMIT_SESSION_KEY) in
  mkLimitsRead (default DEFAULT_SESSION_LIMIT_CENTS session) (default DEFAULT_MONTHLY_LIMIT_CENTS month)
    (bool_decide (session = None)) (bool_decide (month = None)).
Definition readSpendLimitsCents : M SpendLimitsRead := select (λ d, limits_of (user_settings d)).

(** ** commission-runs.ts *)

Definition is_run (id : jsstr) (r : CommissionRunsRow) : bool := eqs (cr_run_id r) id.
Definition has_run_status (l : list run_status) (r : CommissionRunsRow) : bool :=
  bool_decide (cr_status r ∈ l).
Definition active_statuses : list run_status := [R_running; R_awaiting_confirmation].
Definition parked_statuses : list run_status := [R_awaiting_confirmation; R_needs_input].
Definition open_statuses : list run_status := [R_running; R_awaiting_confirmation; R_needs_input].

Definition run_desc (a b : CommissionRunsRow) : bool :=
  sql_lt (cr_created_at b) (cr_created_at a) ||
  sql_same (cr_created_at b) (cr_created_at a) && sql_lt (cr_run_id b) (cr_run_id a).

Definition insertCommissionRun (id goal : jsstr) (data : option json_text) (sessionId createdAt : jsstr)
    : M unit :=
  insert_unless (λ d, existsb (is_run id) (commission_runs d))
    (set_commission_runs (λ rows, rows ++
      [mkRun id O_mcp_commission goal data R_running sessionId createdAt createdAt None None None])).
Definition readCommissionRun_row (id : jsstr) : M (option CommissionRunsRow) :=
  select (λ d, List.find (is_run id) (commission_runs d)).
(** Eight columns of a row typed with eleven: the label, the status detail and
    the awaited slots read back as absent. *)
Definition recent_run (r : CommissionRunsRow) : CommissionRunsRow :=
  mkRun (cr_run_id r) (cr_origin r) (cr_goal r) (cr_data r) (cr_status r) (cr_session_id r)
    (cr_created_at r) (cr_updated_at r) None None None.
Definition selectRecentCommissionRuns (limit : Z) : M (list CommissionRunsRow) :=
  select (λ d, recent_run <$> take (Z.to_nat limit) (stable_sort run_desc (commission_runs d))).

(** [(created_at, id) < (c, i)]. *)
Definition run_before (before : jsstr * jsstr) (r : CommissionRunsRow) : bool :=
  sql_lt (cr_created_at r) (fst before) ||
  sql_same (cr_created_at r) (fst before) && sql_lt (cr_run_id r) (snd before).
Definition run_page (rows : list CommissionRunsRow) (limit : Z) (before : option (jsstr * jsstr))
    : list CommissionRunsRow :=
  let rows := match before with Some b => List.filter (run_before b) rows | None => rows end in
  take (Z.to_nat limit) (stable_sort run_desc rows).
Definition listTasks_rows (limit : Z) (before : option (jsstr * jsstr)) : M (list CommissionRunsRow) :=
  select (λ d, run_page (commission_runs d) limit before).

Definition set_run (status : run_status) (data : option json_text) (detail awaited : option json_text)
    (updatedAt : jsstr) (r : CommissionRunsRow) : CommissionRunsRow :=
  mkRun (cr_run_id r) (cr_origin r) (cr_goal r) data status (cr_session_id r) (cr_created_at r)
    updatedAt (cr_label r) detail awaited.
Definition to_status (status : run_status) (updatedAt : jsstr) (r : CommissionRunsRow) :=
  set_run status (cr_data r) (cr_status_detail r) (cr_awaited_slot_keys r) updatedAt r.

Definition updateTaskStatusDetail (id : jsstr) (detail : json_text) (updatedAt : jsstr) : M unit :=
  modify (set_commission_runs (update_where (is_run id) (λ r,
    set_run (cr_status r) (cr_data r) (Some detail) (cr_awaited_slot_keys r) updatedAt r))).
Definition markNeedsInput (id : jsstr) (awaited : json_text) (updatedAt : jsstr) : M unit :=
  modify (set_commission_runs (update_where
    (λ r, is_run id r && has_run_status active_statuses r)
    (λ r, set_run R_needs_input (cr_data r) (cr_status_detail r) (Some awaited) updatedAt r))).
Definition clearNeedsInput (id updatedAt : jsstr) : M unit :=
  modify (set_commission_runs (update_where
    (λ r, is_run id r && has_run_status [R_needs_input] r)
    (λ r, set_run R_running (cr_data r) (cr_status_detail r) None updatedAt r))).
Definition updateRunData (id : jsstr) (data : json_text) (updatedAt : jsstr) : M unit :=
  modify (set_commission_runs (update_where (is_run id) (λ r,
    set_run (cr_status r) (Some data) (cr_status_detail r) (cr_awaited_slot_keys r) updatedAt r))).
Definition updateCommissionStatus (id : jsstr) (status : run_status) (updatedAt : jsstr) : M unit :=
  modify (set_commission_runs (update_where
    (λ r, is_run id r && has_run_status active_statuses r) (to_status status updatedAt))).
Definition cancelRun (id updatedAt : jsstr) : M unit :=
  modify (set_commission_runs (update_where
    (λ r, is_run id r && has_run_status parked_statuses r) (to_status R_cancelled updatedAt))).
Definition selectNonTerminalRuns : M (list CommissionRunsRow) :=
  select (λ d, List.filter (has_run_status open_statuses) (commission_runs d)).
Definition markRunsExpiredForSession (sessionId updatedAt : jsstr) : M unit :=
  modify (set_commission_runs (update_where
    (λ r, eqs (cr_session_id r) sessionId && has_run_status open_statuses r)
    (to_status R_expired updatedAt))).
Definition expireRun (id updatedAt : jsstr) : M unit :=
  modify (set_commission_runs (update_where
    (λ r, is_run id r && has_run_status open_statuses r) (to_status R_expired updatedAt))).

(** ** table-counts.ts *)

Inductive CountableTable :=
  | T_audit_log | T_connected_services | T_user_settings | T_oauth_state | T_policy_entries
  | T_held_tool_calls | T_commission_runs | T_session_state | T_spend_ledger.
Definition table_count (t : CountableTable) (d : Db) : nat :=
  match t with
  | T_audit_log => length (audit_log d)
  | T_connected_services => length (connected_services d)
  | T_user_settings => length (user_settings d)
  | T_oauth_state => length (oauth_state d)
  | T_policy_entries => length (policy_entries d)
  | T_held_tool_calls => length (held_tool_calls d)
  | T_commission_runs => length (commission_runs d)
  | T_session_state => length (session_state d)
  | T_spend_ledger => length (spend_ledger d)
  end.
Definition countRows (t : CountableTable) : M nat := select (table_count t).

(** ** Facts: rows *)

Lemma find_update_where {R} (q p : R → bool) (f : R → R) rows :
  (∀ r, q (f r) = q r) →
  List.find q (update_where p f rows) = (λ r, if p r then f r else r) <$> List.find q rows.
Proof.
  intros Hq. induction rows as [|r rows IH]; simpl; [done|].
  assert (q (if p r then f r else r) = q r) as -> by (case_match; auto).
  destruct (q r); [done|]. exact IH.
Qed.

Lemma existsb_find {R} (p : R → bool) rows :
  existsb p rows = match List.find p rows with Some _ => true | None => false end.
Proof. induction rows as [|r rows IH]; simpl; [done|]. by destruct (p r). Qed.

Lemma find_snoc_none {R} (p : R → bool) rows x :
  existsb p rows = false → p x = true → List.find p (rows ++ [x]) = Some x.
Proof.
  induction rows as [|r rows IH]; simpl; [by intros _ ->|].
  destruct (p r); [done|]. auto.
Qed.

Lemma find_snoc_other {R} (p : R → bool) rows x :
  p x = false → List.find p (rows ++ [x]) = List.find p rows.
Proof. intros Hx. induction rows as [|r rows IH]; simpl; [by rewrite Hx|]. by rewrite IH. Qed.

Lemma eqs_true a b : eqs a b = true ↔ a = b.
Proof. apply bool_decide_eq_true. Qed.
Lemma eqs_refl a : eqs a a = true.
Proof. by apply eqs_true. Qed.
Lemma eqs_false a b : eqs a b = false ↔ a ≠ b.
Proof. apply bool_decide_eq_false. Qed.

(** ** Facts: settings *)

Lemma find_set key k v rows :
  List.find (is_key k)
    (if existsb (is_key key) rows
     then update_where (is_key key) (λ r, mkSetting (us_key r) v) rows
     else rows ++ [mkSetting key v]) ≫= (λ r, Some (us_value r)) =
  if decide (k = key) then Some v else List.find (is_key k) rows ≫= (λ r, Some (us_value r)).
Proof.
  destruct (existsb (is_key key) rows) eqn:E.
  - rewrite find_update_where by done. rewrite existsb_find in E. case_decide as Hk.
    + subst. destruct (List.find (is_key key) rows) as [r|] eqn:Ef; [|done]. simpl.
      apply find_some in Ef as [_ ->]. done.
    + destruct (List.find (is_key k) rows) as [r|] eqn:Ef; [|done]. simpl.
      apply find_some in Ef as [_ Ef]. unfold is_key in *. apply eqs_true in Ef.
      assert (eqs (us_key r) key = false) as -> by (apply eqs_false; congruence). done.
  - case_decide as Hk.
    + subst. rewrite find_snoc_none; [done|done|]. apply eqs_refl.
    + rewrite find_snoc_other; [done|]. apply eqs_false. simpl. congruence.
Qed.

Lemma parse_dec z : 0 <= z → safe_int z = true → parseLimitCents (Some (int_to_string z)) = Some z.
Proof.
  intros Hz Hs. unfold parseLimitCents, int_to_string.
  rewrite (proj2 (Z.ltb_ge z 0)) by done.
  rewrite bool_decide_eq_true_2 by apply dec_nonempty.
  rewrite (proj2 (forallb_forall _ _)).
  - simpl. rewrite undec_dec, Z2N.id by done. by rewrite Hs.
  - intros c Hc%list_elem_of_In. pose proof (dec_digit (Z.to_N z)) as Hd.
    rewrite Forall_forall in Hd. auto.
Qed.

Lemma parseLimitCents_safe v z : parseLimitCents v = Some z → 0 <= z <= max_safe.
Proof.
  unfold parseLimitCents, safe_int. destruct v as [v|]; [|done]. repeat case_match; try done.
  intros [= <-]. apply andb_true_iff in H0 as [_ H0%Z.leb_le]. lia.
Qed.

(** ** The life of a run *)

(** The writes the helpers make to an existing run. *)
Inductive run_write :=
  | W_detail (id : jsstr) (detail : json_text) (at_ : jsstr)
  | W_needs_input (id : jsstr) (awaited : json_text) (at_ : jsstr)
  | W_clear (id at_ : jsstr)
  | W_data (id : jsstr) (data : json_text) (at_ : jsstr)
  | W_status (id : jsstr) (status : run_status) (at_ : jsstr)
  | W_cancel (id at_ : jsstr)
  | W_expire_session (session at_ : jsstr)
  | W_expire (id at_ : jsstr).

Definition run_exec (x : run_write) : M unit :=
  match x with
  | W_detail id d t => updateTaskStatusDetail id d t
  | W_needs_input id a t => markNeedsInput id a t
  | W_clear id t => clearNeedsInput id t
  | W_data id d t => updateRunData id d t
  | W_status id s t => updateCommissionStatus id s t
  | W_cancel id t => cancelRun id t
  | W_expire_session s t => markRunsExpiredForSession s t
  | W_expire id t => expireRun id t
  end.

(** The state machine of a run's status. *)
Inductive run_step : run_status → run_status → Prop :=
  | step_settle s s' : s ∈ active_statuses → run_step s s'
  | step_resume : run_step R_needs_input R_running
  | step_cancel : run_step R_needs_input R_cancelled
  | step_expire : run_step R_needs_input R_expired.

Definition terminal (s : run_status) : Prop := s ∉ open_statuses.

Lemma run_step_terminal s s' : terminal s → rtc run_step s s' → s' = s.
Proof.
  intros Ht. inversion 1 as [|? s1 ? H1 _]; [done|]. exfalso. apply Ht.
  unfold open_statuses, active_statuses in *. destruct H1; set_solver.
Qed.

(** What every write leaves of a run, and where it moves its status. *)
Definition run_evolves (r r' : CommissionRunsRow) : Prop :=
  cr_run_id r' = cr_run_id r ∧ cr_origin r' = cr_origin r ∧ cr_goal r' = cr_goal r ∧
  cr_session_id r' = cr_session_id r ∧ cr_created_at r' = cr_created_at r ∧
  rtc run_step (cr_status r) (cr_status r').

#[export] Instance run_evolves_refl : Reflexive run_evolves.
Proof. intros r. by split_and!. Qed.
#[export] Instance run_evolves_trans : Transitive run_evolves.
Proof.
  intros r s t (?&?&?&?&?&?) (?&?&?&?&?&?). split_and!; try congruence. by etrans.
Qed.

Lemma update_evolves p f rows :
  (∀ r, p r = true → run_evolves r (f r)) → Forall2 run_evolves rows (update_where p f rows).
Proof.
  intros Hf. unfold update_where. apply Forall2_fmap_r, Forall_Forall2_diag, Forall_forall.
  intros r _. simpl. destruct (p r) eqn:E; [auto|reflexivity].
Qed.

Lemma set_run_evolves s data detail awaited at_ r :
  s = cr_status r ∨ run_step (cr_status r) s →
  run_evolves r (set_run s data detail awaited at_ r).
Proof.
  intros Hs. split_and!; try done. simpl. destruct Hs as [->|Hs]; [done|by apply rtc_once].
Qed.

(** Each is an update of rows that evolve. *)
Lemma run_exec_update x :
  ∃ p f, (∀ r, p r = true → run_evolves r (f r)) ∧
    ∀ w, run_exec x w = (Ok tt, with_db (set_commission_runs (update_where p f)) w).
Proof.
  destruct x; simpl; (do 2 eexists; split; [|intros; reflexivity]); intros r Hr; apply set_run_evolves; auto; right;
    unfold has_run_status in *; wb_bool; unfold parked_statuses, open_statuses, active_statuses in *;
    repeat match goal with H : _ ∈ _ |- _ => apply elem_of_cons in H as [->|H] | H : _ ∈ [] |- _ => set_solver end;
    try (constructor; set_solver); try constructor; set_solver.
Qed.

Lemma run_exec_evolves x w :
  Forall2 run_evolves (commission_runs (w_db w)) (commission_runs (w_db (snd (run_exec x w)))).
Proof. destruct (run_exec_update x) as (p&f&Hf&E). rewrite E. by apply update_evolves. Qed.

(** So an invariant that such updates keep survives every write. *)
Lemma keeps_run (J : Db → nat → Prop) x :
  (∀ p f d n, (∀ r, p r = true → run_evolves r (f r)) → J d n → J (set_commission_runs (update_where p f) d) n) →
  keeps J (run_exec x).
Proof.
  intros HJ w Hw. destruct (run_exec_update x) as (p&f&Hf&E). rewrite E. split; [by apply HJ|]. split; simpl; lia || done.
Qed.

Lemma run_execs_evolve xs w :
  Forall2 run_evolves (commission_runs (w_db w)) (commission_runs (w_db (snd (for_each run_exec xs w)))).
Proof.
  revert w. induction xs as [|x xs IH]; intros w; simpl.
  { apply Forall_Forall2_diag, Forall_forall. intros r _. reflexivity. }
  unfold mbind, M_bind. pose proof (run_exec_evolves x w) as Hx.
  assert (fst (run_exec x w) = Ok tt) as Hok by (by destruct x).
  destruct (run_exec x w) as [[a|e] w']; simpl in *; [|done].
  eapply transitivity; [exact Hx|]. exact (IH w').
Qed.

(** ** Keyset pages of runs *)

Definition run_key (r : CommissionRunsRow) : list N * list N :=
  (utf8 (cr_created_at r), utf8 (cr_run_id r)).
Notation key_lt := (cmp_lt lex2).

Lemma sql_pair_lt a b c d :
  sql_lt a b || sql_same a b && sql_lt c d = key_lt (utf8 a, utf8 c) (utf8 b, utf8 d).
Proof.
  unfold sql_lt, sql_same, cmp_lt, lex2. simpl.
  destruct (lexcmp (utf8 a) (utf8 b)) eqn:E; simpl.
  - apply lexcmp_eq in E. by rewrite bool_decide_eq_true_2.
  - done.
  - rewrite bool_decide_eq_false_2; [done|]. intros Ea. by rewrite Ea, lexcmp_refl in E.
Qed.

Lemma run_desc_key a b : run_desc a b = key_lt (run_key b) (run_key a).
Proof.
  unfold run_desc, run_key. by rewrite <- sql_pair_lt.
Qed.
Lemma run_before_key c r :
  run_before (cr_created_at c, cr_run_id c) r = key_lt (run_key r) (run_key c).
Proof. apply sql_pair_lt. Qed.

Lemma run_desc_asym a b : run_desc a b = true → run_desc b a = false.
Proof. rewrite !run_desc_key. apply cmp_lt_asym, lex2_antisym. Qed.
Lemma run_desc_neg_trans a b c : run_desc a b = false → run_desc b c = false → run_desc a c = false.
Proof.
  rewrite !run_desc_key. intros H1 H2.
  apply (cmp_lt_neg_trans lex2 lex2_eq lex2_antisym lex2_trans _ _ _ H2 H1).
Qed.

(** ** Properties *)

(** A run's status only moves along its life cycle. Whatever writes the
    helpers make, in any order and from any caller, no run is lost, added or
    re-attributed, its status moves along the state machine only, and a
    completed, failed, denied, expired or cancelled run stays as it is. *)
Theorem run_lifecycle xs w :
  Forall2 (λ r r',
      cr_run_id r' = cr_run_id r ∧ cr_origin r' = cr_origin r ∧ cr_goal r' = cr_goal r ∧
      cr_session_id r' = cr_session_id r ∧ cr_created_at r' = cr_created_at r ∧
      rtc run_step (cr_status r) (cr_status r') ∧
      (terminal (cr_status r) → cr_status r' = cr_status r))
    (commission_runs (w_db w)) (commission_runs (w_db (snd (for_each run_exec xs w)))).
Proof.
  eapply Forall2_impl; [apply run_execs_evolve|].
  intros r r' (?&?&?&?&?&Hs). split_and!; try done. intros Ht. by apply run_step_terminal.
Qed.

(** Paging the task list loses and repeats nothing. The page after a row is
    the next [limit] rows of the whole list, newest first, for any row the cursor
    names, however many rows share its instant. *)
Lemma task_pages rows limit before c after :
  NoDup (run_key <$> rows) → run_page rows (Z.of_nat (length rows)) None = before ++ c :: after →
  run_page rows limit (Some (cr_created_at c, cr_run_id c)) = take (Z.to_nat limit) after ∧
  run_page rows limit None = take (Z.to_nat limit) (before ++ c :: after).
Proof.
  unfold run_page. rewrite Nat2Z.id.
  rewrite take_ge by (rewrite stable_sort_length; lia). intros Hn E. rewrite E.
  split; [|done].
  rewrite (stable_sort_filter _ run_desc_asym run_desc_neg_trans), E.
  pose proof (stable_sort_sorted _ run_desc_asym run_desc_neg_trans rows) as Hs.
  unfold no_inversion in Hs. rewrite E in Hs. apply StronglySorted_middle in Hs as [Hb Ha].
  rewrite <- (stable_sort_perm run_desc), E, fmap_app in Hn. simpl in Hn.
  apply NoDup_app in Hn as (_&_&Hn). inversion_clear Hn as [|?? Hc _].
  rewrite List.filter_app. simpl. rewrite run_before_key.
  assert (key_lt (run_key c) (run_key c) = false) as ->.
  { destruct (key_lt _ _) eqn:Ek; [|done]. pose proof Ek as Ek'.
    apply (cmp_lt_asym _ lex2_antisym) in Ek'. congruence. }
  rewrite list_filter_none, list_filter_all; [done|..].
  - rewrite Forall_forall in *. intros y Hy. rewrite run_before_key.
    apply (cmp_lt_total _ lex2_eq lex2_antisym).
    + intros Ek. apply Hc. rewrite Ek. apply list_elem_of_fmap. eauto.
    + rewrite <- run_desc_key. auto.
  - rewrite Forall_forall in *. intros x Hx. rewrite run_before_key, <- run_desc_key. auto.
Qed.

(** Whatever is stored, the limits are safe and not negative. *)
Lemma limits_of_safe rows :
  0 <= lr_month (limits_of rows) <= max_safe ∧ 0 <= lr_session (limits_of rows) <= max_safe.
Proof.
  assert (∀ v d, 0 <= d <= max_safe → 0 <= default d (parseLimitCents v) <= max_safe) as Hb.
  { intros v d Hd. destruct (parseLimitCents v) eqn:E; [by apply parseLimitCents_safe in E|done]. }
  split; apply Hb; split; vm_compute; discriminate.
Qed.

(** The spending limits read back as they were set, and a corrupt setting
    never widens them. Setting a limit to a non-negative safe integer makes it
    the limit that is read, flagged as set, and leaves the other alone; whatever
    text is stored, each limit read is a non-negative safe integer, the shipped
    default when the text is not a plain decimal one. *)
Theorem limit_settings_faithful w z :
  0 <= z → safe_int z = true →
  let read w := limits_of (user_settings (w_db w)) in
  let wm := snd (setSetting SPEND_LIMIT_MONTHLY_KEY (int_to_string z) w) in
  let ws := snd (setSetting SPEND_LIMIT_SESSION_KEY (int_to_string z) w) in
  (lr_month (read wm) = z ∧ lr_monthIsDefault (read wm) = false ∧
   lr_session (read wm) = lr_session (read w) ∧
   lr_sessionIsDefault (read wm) = lr_sessionIsDefault (read w)) ∧
  (lr_session (read ws) = z ∧ lr_sessionIsDefault (read ws) = false ∧
   lr_month (read ws) = lr_month (read w) ∧
   lr_monthIsDefault (read ws) = lr_monthIsDefault (read w)) ∧
  (0 <= lr_month (read w) <= max_safe ∧ 0 <= lr_session (read w) <= max_safe) ∧
  (lr_monthIsDefault (read w) = true → lr_month (read w) = DEFAULT_MONTHLY_LIMIT_CENTS) ∧
  (lr_sessionIsDefault (read w) = true → lr_session (read w) = DEFAULT_SESSION_LIMIT_CENTS).
Proof.
  intros Hz Hs read wm ws. subst read wm ws. unfold setSetting, modify, limits_of. simpl.
  assert (∀ key v k rows,
    us_value <$> List.find (is_key k) (if existsb (is_key key) rows
      then update_where (is_key key) (λ r, mkSetting (us_key r) v) rows
      else rows ++ [mkSetting key v]) =
    if decide (k = key) then Some v else us_value <$> List.find (is_key k) rows) as Hf.
  { intros key v k rows. pose proof (find_set key k v rows) as Hf. by destruct (List.find _ _), (List.find _ rows). }
  pose proof (limits_of_safe (user_settings (w_db w))) as [Hm Hl].
  rewrite !Hf. lit_decide. rewrite !parse_dec by done. simpl.
  split_and!; try done; try apply Hm; try apply Hl.
    all: intros Hn; apply bool_decide_eq_true in Hn; by rewrite Hn.
Qed.

(** The ledger counts each commit once. Inserting a spend adds its amount to
    its session's sum when its (idempotency key, quote) pair is new and changes
    nothing when the pair was already recorded; a reused key under a new quote
    counts; an amount that is negative or unsafe, or an instant not in
    [toISOString] form, is refused with the ledger unchanged. *)
Theorem ledger_counts_once row w :
  let rows := spend_ledger (w_db w) in
  let sum w := sum_cents (List.filter (λ r, eqs (sl_session_id r) (sl_session_id row))
                 (spend_ledger (w_db w))) in
  let valid := (0 <= sl_amount_cents row <= max_safe) ∧ iso_utc_millis (sl_created_at row) = true in
  let '(r, w') := insertSpendInTxn row w in
  (¬ valid → (∃ e, r = Throw e) ∧ w' = w) ∧
  (valid → existsb (same_spend row) rows = true → r = Ok tt ∧ spend_ledger (w_db w') = rows) ∧
  (valid → existsb (same_spend row) rows = false →
     existsb (λ x, eqs (sl_id x) (sl_id row)) rows = false →
     r = Ok tt ∧ sum w' = sum w + sl_amount_cents row ∧
     insertSpendInTxn row w' = (Ok tt, w')).
Proof.
  assert (∀ l k, sum_cents (l ++ k) = sum_cents l + sum_cents k) as Hsum.
  { intros l k. induction l as [|x l IH]; simpl; [done|]. unfold sum_cents in *. lia. }
  assert ((0 <= sl_amount_cents row <= max_safe) ↔
    negb (safe_int (sl_amount_cents row)) || (sl_amount_cents row <? 0) = false) as Hv.
  { unfold safe_int, max_safe. rewrite orb_false_iff, negb_false_iff, andb_true_iff, !Z.leb_le, Z.ltb_ge. lia. }
  cbv zeta. unfold insertSpendInTxn. destruct (negb _ || _) eqn:Ea.
  { split_and!; [by eauto|..]; intros [H1%Hv _]; congruence. }
  destruct (iso_utc_millis (sl_created_at row)) eqn:Ei; simpl.
  2: { split_and!; [by eauto|..]; intros [_ ?]; congruence. }
  assert (∀ w, existsb (same_spend row) (spend_ledger (w_db w)) = true →
    insert_unless (λ d, existsb (λ r, eqs (sl_id r) (sl_id row)) (spend_ledger d) &&
            negb (existsb (same_spend row) (spend_ledger d)))
      (set_spend_ledger (λ rows, if existsb (same_spend row) rows then rows else rows ++ [row])) w
    = (Ok tt, w)) as Hdup.
  { intros w0 E. unfold insert_unless. rewrite E, andb_false_r. f_equal.
    destruct w0 as [d ? ? ? ?], d. unfold with_db, set_spend_ledger. simpl in *. by rewrite E. }
  destruct (existsb (same_spend row) (spend_ledger (w_db w))) eqn:Es.
  { rewrite Hdup by done. split_and!; [by intros []; split; [apply Hv|]|done|done]. }
  unfold insert_unless at 1. rewrite Es, andb_true_r.
  destruct (existsb (λ r, eqs (sl_id r) (sl_id row)) (spend_ledger (w_db w))) eqn:Ek.
  { split_and!; [by intros []; split; [apply Hv|]|done|done]. }
  split_and!; [by intros []; split; [apply Hv|]|done|]. intros _ _ _. split_and!; [done|..].
  - simpl. rewrite Es, List.filter_app, Hsum. simpl. rewrite eqs_refl. simpl. lia.
  - apply Hdup. simpl. rewrite Es, existsb_app. simpl. unfold same_spend. rewrite !eqs_refl. apply orb_true_r.
Qed.

(** ** Concrete rows *)

Definition demo_run (id created : jsstr) : CommissionRunsRow :=
  mkRun id O_mcp_commission (js "goal") None R_running (js "s") created created None None None.

Lemma limit_settings_faithful_witness :
  let z := 2500 in let w := demo_world in
  let read w := limits_of (user_settings (w_db w)) in
  let wm := snd (setSetting SPEND_LIMIT_MONTHLY_KEY (int_to_string z) w) in
  let ws := snd (setSetting SPEND_LIMIT_SESSION_KEY (int_to_string z) w) in
  (lr_month (read wm) = z ∧ lr_monthIsDefault (read wm) = false ∧
   lr_session (read wm) = lr_session (read w) ∧
   lr_sessionIsDefault (read wm) = lr_sessionIsDefault (read w)) ∧
  (lr_session (read ws) = z ∧ lr_sessionIsDefault (read ws) = false ∧
   lr_month (read ws) = lr_month (read w) ∧
   lr_monthIsDefault (read ws) = lr_monthIsDefault (read w)) ∧
  (0 <= lr_month (read w) <= max_safe ∧ 0 <= lr_session (read w) <= max_safe) ∧
  (lr_monthIsDefault (read w) = true → lr_month (read w) = DEFAULT_MONTHLY_LIMIT_CENTS) ∧
  (lr_sessionIsDefault (read w) = true → lr_session (read w) = DEFAULT_SESSION_LIMIT_CENTS).
Proof. intros z w. apply limit_settings_faithful; [discriminate|reflexivity]. Defined.
