(* ===== verification/Sessions.v ===== *)
(** * Sessions, held calls, the reaper and the kill switch

    The session life cycle of [packages/engine/src/agent/user-agent.ts]: the
    single active session, its close (held calls swept, [session.end] written,
    runs expired, row stamped), the lazy reaper and the kill switch. *)

From S2P Require Export Tables.
Open Scope Z_scope.

(** 90 minutes. *)
Definition SESSION_LIFETIME_MS : Z := 90 * 60 * 1000.

Record ActiveSessionView := mkView {
  av_sessionId : jsstr;
  av_startedAt : jsstr;
  av_expiry : option jsstr;
}.

Inductive StartSessionResult := Started (s : ActiveSessionView) | Refused (s : ActiveSessionView).
Inductive end_reason := E_timeout | E_kill | E_quit | E_superseded | E_terminated.
#[export] Instance end_reason_eq_dec : EqDecision end_reason.
Proof. solve_decision. Defined.
Inductive surface := Sf_human | Sf_mcp.

Definition reason_of_end (r : end_reason) : jsstr :=
  match r with
  | E_timeout => js "timeout" | E_kill => js "kill" | E_quit => js "quit"
  | E_superseded => js "superseded" | E_terminated => js "terminated"
  end.

(** The CHECK constraint admits two texts. *)
Definition parse_origin (s : jsstr) : origin :=
  if decide (s = js "mcp_commission") then O_mcp_commission else O_human.

(** [new Date(s).getTime()]; [None] is NaN. *)
Definition dateOf `{Platform} (s : jsstr) : option Z :=
  match parse_iso s with Some t => Some t | None => legacyDate s end.

(** [turnStateIsAnswered], [turnStateHasResolution]. *)
Definition turnStateIsAnswered (t : json_text) : bool :=
  match parseTurnState t with TurnOk st => ts_answered st | _ => false end.
Definition turnStateHasResolution (t : json_text) : bool :=
  match parseTurnState t with TurnOk st => ts_dispatched st || ts_answered st | _ => false end.

Section sessions.
Context `{Platform}.

Definition sessionStartedAt (sessionId : jsstr) : M (option Z) :=
  startedAt ← readSessionStartedAt sessionId;
  mret (startedAt ≫= dateOf).

(** ** Audit rows of the life cycle *)

Definition auditEntryIdentity (entryId : jsstr) : M (option AuditIdentity) :=
  readAuditEntryIdentity entryId.

Definition sessionIdentity (sessionId : jsstr) : M (option (jsstr * jsstr * jsstr)) :=
  row ← readSessionStartIdentity sessionId;
  mret match row with
       | Some (user, agent, _) => Some (user, agent, sessionId)
       | None => None
       end.

(** A row about the system: a synthetic scope and no metadata. *)
Definition lifecycle (userId agentId sessionId toolName service verb noun : jsstr)
    (decision : verdict) (o : option origin) (outcome : audit_outcome)
    (errorMessage : option jsstr) (timestamp : jsstr) : AuditEntryFields :=
  mkParams userId agentId sessionId toolName service verb noun decision o [] outcome
    errorMessage 0 None None (Some timestamp).

Definition writeSessionEnd (identity : jsstr * jsstr * jsstr) (reason : end_reason)
    (timestamp : jsstr) : M unit :=
  let '(userId, agentId, sessionId) := identity in
  start ← readSessionStartIdentity sessionId;
  let o := match start with Some (_, _, o) => parse_origin o | None => O_human end in
  insertAuditEntryInTxn (lifecycle userId agentId sessionId (js "session.end") (js "session")
    (js "end") (js "-") V_deny (Some o) X_timeout (Some (reason_of_end reason)) timestamp) ;;
  mret tt.

(** A closer that carries the identity of the decision it closes. *)
Definition closer_of (i : AuditIdentity) (decision : verdict) (outcome : audit_outcome)
    (errorMessage timestamp entryId : jsstr) : ReferencingAuditEntryParams :=
  mkCloserParams
    (lifecycle (id_user_id i) (id_agent_id i) (id_session_id i) (id_tool_name i) (id_service i)
      (id_verb i) (id_noun i) decision (Some (parse_origin (id_origin i))) outcome
      (Some errorMessage) timestamp) entryId.

Definition closeInputParkAudit (pendingAuditEntryId timestamp : jsstr) : M unit :=
  identity ← auditEntryIdentity pendingAuditEntryId;
  match identity with
  | None => mret tt
  | Some i =>
      transactionSync (closeDecisionEntryInTxn
        (closer_of i V_allow X_success
          (js "Input provided via habenula_provide; parked action re-evaluated through governance")
          timestamp pendingAuditEntryId) Observed) ;; mret tt
  end.

Definition writeHeldTimeoutOutcome (pendingAuditEntryId timestamp : jsstr) : M unit :=
  identity ← auditEntryIdentity pendingAuditEntryId;
  match identity with
  | None => mret tt
  | Some i =>
      closeDecisionEntryInTxn
        (closer_of i V_deny X_timeout (js "Held call expired with its session") timestamp
          pendingAuditEntryId) Inferred ;; mret tt
  end.

Definition writeHeldCancelOutcome (pendingAuditEntryId timestamp : jsstr) (s : surface) : M unit :=
  identity ← auditEntryIdentity pendingAuditEntryId;
  match identity with
  | None => mret tt
  | Some i =>
      closeDecisionEntryInTxn
        (closer_of i V_deny X_error
          (match s with
           | Sf_mcp => js "Parked action cancelled with its task (habenula_cancel)"
           | Sf_human => js "Parked action cancelled with its task (habenula task cancel)"
           end) timestamp pendingAuditEntryId) Inferred ;; mret tt
  end.

Definition writeTaskCancelAudit (userId agentId sessionId taskId : jsstr) (s : surface)
    (timestamp : jsstr) : M unit :=
  insertAuditEntryInTxn (lifecycle userId agentId sessionId (js "task.cancel") (js "task")
    (js "cancel") taskId V_allow
    (Some (match s with Sf_mcp => O_mcp_commission | Sf_human => O_human end)) X_success
    (Some (match s with
           | Sf_mcp => js "Task cancelled by the owning client (habenula_cancel)"
           | Sf_human => js "Task cancelled by the user (habenula task cancel)"
           end)) timestamp) ;; mret tt.

(** ** Opening and closing a session *)

Definition createSessionInTxn (userId agentId : jsstr) (o : origin) : M (jsstr * jsstr) :=
  uuid ← newUUID;
  let sessionId := js "session-" ++ uuid in
  startedAt ← nowISO;
  insertSessionState sessionId startedAt agentId ;;
  insertAuditEntryInTxn (lifecycle userId agentId sessionId (js "session.start") (js "session")
    (js "start") (js "-") V_allow (Some o) X_success None startedAt) ;;
  mret (sessionId, startedAt).

(** Close one held call of an ending session and drop its row. *)
Definition sweepHeld (timestamp : jsstr) (h : HeldToolCallsRow) : M unit :=
  when (negb (turnStateHasResolution (hc_turn_state h)))
    (writeHeldTimeoutOutcome (hc_pending_audit_entry_id h) timestamp) ;;
  deleteHeldToolCall (hc_id h).

(** [session.end], the runs and the stamp. *)
Definition closeSession (sessionId : jsstr) (reason : end_reason) (timestamp : jsstr) : M unit :=
  identity ← sessionIdentity sessionId;
  match identity with Some i => writeSessionEnd i reason timestamp | None => mret tt end ;;
  markRunsExpiredForSession sessionId timestamp ;;
  markSessionEnded sessionId timestamp.

Definition endSessionRowInTxn (sessionId : jsstr) (reason : end_reason) (timestamp : jsstr)
    : M unit :=
  held ← selectHeldCallsForSession sessionId;
  for_each (sweepHeld timestamp) held ;;
  closeSession sessionId reason timestamp.

Definition activeSessionView (sessionId startedAt : jsstr) : M ActiveSessionView :=
  match dateOf startedAt with
  | None => mret (mkView sessionId startedAt None)
  | Some t => e ← isoOf (t + SESSION_LIFETIME_MS); mret (mkView sessionId startedAt (Some e))
  end.

(** ** The reaper *)

Definition reapOne (nowMs : Z) (s : SessionStateRow) : M unit :=
  startedAt ← sessionStartedAt (ss_session_id s);
  let effectiveExpiry :=
    match startedAt with Some t => t + SESSION_LIFETIME_MS | None => nowMs end in
  if nowMs <? effectiveExpiry then mret tt
  else
    stamp ← isoOf effectiveExpiry;
    transactionSync (
      heldRows ← selectHeldCallsForSession (ss_session_id s);
      for_each (sweepHeld stamp) heldRows ;;
      closeSession (ss_session_id s) E_timeout stamp).

Definition reapExpiredSessions : M unit :=
  nowMs ← now;
  sessions ← selectOpenSessions;
  for_each (reapOne nowMs) sessions.

(** ** The single active session *)

Definition supersede (active : jsstr) (nowIso : jsstr) (s : SessionStateRow) : M unit :=
  if eqs (ss_session_id s) active then mret tt
  else endSessionRowInTxn (ss_session_id s) E_superseded nowIso.

Definition resolveActiveSession (userId agentId : jsstr) (o : option origin) : M jsstr :=
  reapExpiredSessions ;;
  transactionSync (
    active ← selectActiveSession;
    match active with
    | Some a =>
        nowIso ← nowISO;
        open ← selectOpenSessions;
        for_each (supersede (ss_session_id a) nowIso) open ;;
        mret (ss_session_id a)
    | None =>
        created ← createSessionInTxn userId agentId (default O_human o);
        mret (fst created)
    end).

Definition startSession (userId agentId : jsstr) : M StartSessionResult :=
  reapExpiredSessions ;;
  transactionSync (
    active ← selectActiveSession;
    match active with
    | Some a => v ← activeSessionView (ss_session_id a) (ss_started_at a); mret (Refused v)
    | None =>
        created ← createSessionInTxn userId agentId O_human;
        v ← activeSessionView (fst created) (snd created); mret (Started v)
    end).

Definition endSession (reason : end_reason) : M bool :=
  reapExpiredSessions ;;
  transactionSync (
    active ← selectActiveSession;
    match active with
    | None => mret false
    | Some a =>
        t ← nowISO;
        endSessionRowInTxn (ss_session_id a) reason t ;; mret true
    end).

Definition getActiveSession : M (option ActiveSessionView) :=
  reapExpiredSessions ;;
  active ← selectActiveSession;
  match active with
  | Some a => v ← activeSessionView (ss_session_id a) (ss_started_at a); mret (Some v)
  | None => mret None
  end.

(** ** Held calls *)

(** Past its session's cap a held call is inert. *)
Definition holdExpired (sessionId : jsstr) : M bool :=
  startedAt ← sessionStartedAt sessionId;
  match startedAt with
  | None => mret false
  | Some t => n ← now; mret (t + SESSION_LIFETIME_MS <=? n)
  end.

Definition loadHeldCall (heldCallId : jsstr) : M (option HeldToolCallsRow) :=
  row ← readHeldCall heldCallId;
  match row with
  | None => mret None
  | Some r => e ← holdExpired (hc_session_id r); mret (if e : bool then None else Some r)
  end.

Fixpoint filterUnresolved (rows : list HeldToolCallsRow) : M (list jsstr) :=
  match rows with
  | [] => mret []
  | row :: rest =>
      if turnStateIsAnswered (hc_turn_state row) then filterUnresolved rest
      else
        e ← holdExpired (hc_session_id row);
        ids ← filterUnresolved rest;
        mret (if e : bool then ids else hc_id row :: ids)
  end.
Definition unresolvedHeldCallIds (predicate : HeldToolCallsRow → bool) : M (list jsstr) :=
  rows ← selectHeldCalls;
  filterUnresolved (List.filter predicate rows).
Definition firstUnresolvedHeldCallId (predicate : HeldToolCallsRow → bool) : M (option jsstr) :=
  ids ← unresolvedHeldCallIds predicate; mret (head ids).
Definition heldCallId : M (option jsstr) := firstUnresolvedHeldCallId (λ _, true).
Definition storeHeldTurnState (id : jsstr) (t : json_text) : M unit := updateHeldTurnState id t.
Definition deleteHeldCall (id : jsstr) : M unit := deleteHeldToolCall id.

(** ** The kill switch *)

(** TX1: every grant but the floor, and every held call. *)
Definition killDenyAll : M unit :=
  transactionSync (
    deletePolicyEntriesExcept WILDCARD_DENY_ID ;;
    deleteAllHeldToolCalls).

(** TX2: the audit of the kill. *)
Definition killAudit (nowIso : jsstr) (held : list HeldToolCallsRow)
    (sessions : list SessionStateRow) : M unit :=
  transactionSync (
    for_each (λ h, when (negb (turnStateHasResolution (hc_turn_state h)))
      (writeHeldTimeoutOutcome (hc_pending_audit_entry_id h) nowIso)) held ;;
    for_each (λ s, closeSession (ss_session_id s) E_kill nowIso) sessions).

(** [cancelAll] of the learning service touches no table; its faults are
    swallowed. *)
Definition killSwitch : M unit :=
  nowIso ← nowISO;
  held ← selectHeldCallAuditRefs;
  activeSessions ← selectOpenSessions;
  killDenyAll ;;
  try_catch (killAudit nowIso held activeSessions) (λ _, mret tt).
End sessions.

(** ** What a close does to the tables

    [close_db] is the specification of the end of a session, apart from the rows
    it writes to the log. *)

Definition stop_runs (sid at_ : jsstr) (d : Db) : Db :=
  set_commission_runs (update_where
    (λ r, eqs (cr_session_id r) sid && has_run_status open_statuses r)
    (to_status R_expired at_)) d.
Definition stamp_session (sid at_ : jsstr) (d : Db) : Db :=
  set_session_state (update_where (is_session sid) (end_row at_)) d.
Definition drop_held (p : HeldToolCallsRow → bool) (d : Db) : Db :=
  set_held_tool_calls (delete_where p) d.
Definition close_rows (sid at_ : jsstr) (d : Db) : Db := stamp_session sid at_ (stop_runs sid at_ d).
Definition close_db (sid at_ : jsstr) (d : Db) : Db :=
  close_rows sid at_ (drop_held (held_by_session sid) d).

#[export] Instance off_log_stop sid t : OffLog (stop_runs sid t).
Proof. by intros h d. Qed.
#[export] Instance off_log_stamp sid t : OffLog (stamp_session sid t).
Proof. by intros h d. Qed.
#[export] Instance off_log_drop p : OffLog (drop_held p).
Proof. by intros h d. Qed.
#[export] Instance off_log_close_rows sid t : OffLog (close_rows sid t).
Proof. by intros h d. Qed.
#[export] Instance off_log_close sid t : OffLog (close_db sid t).
Proof. by intros h d. Qed.

(** The closes of a list of sessions, those that satisfy [cond], at [stamp]. *)
Definition close_all (cond : SessionStateRow → bool) (stamp : SessionStateRow → jsstr)
    (l : list SessionStateRow) (d : Db) : Db :=
  foldl (λ d s, if cond s then close_db (ss_session_id s) (stamp s) d else d) d l.

#[export] Instance off_log_close_all cond stamp l : OffLog (close_all cond stamp l).
Proof.
  intros h. unfold close_all. induction l as [|s l IH]; intros d; simpl; [done|].
  rewrite <- IH. f_equal. by destruct (cond s).
Qed.

(** Identifiers of the log and of the sessions. *)
Definition recorded (log : list AuditLogRow) (id : jsstr) : bool :=
  existsb (λ r : AuditLogRow, eqs (h_id r) id) log.
Definition started (log : list AuditLogRow) (sid : jsstr) : bool := existsb (is_session_start sid) log.
Definition is_end (reason : end_reason) (sid : jsstr) (r : AuditLogRow) : bool :=
  eqs (h_sessionId r) sid && eqs (h_toolName r) (js "session.end") &&
  bool_decide (h_errorMessage r = Some (reason_of_end reason)).
Definition ends_in (reason : end_reason) (log : list AuditLogRow) (sid : jsstr) : nat :=
  length (List.filter (is_end reason sid) log).
Definition one_if (b : bool) : nat := if b then 1 else 0.

(** A held call whose action was neither answered nor dispatched. *)
Definition undecided (h : HeldToolCallsRow) : bool := negb (turnStateHasResolution (hc_turn_state h)).

(** ** The store the life cycle keeps *)

Section store.
Context `{Platform}.

Record store_inv (d : Db) (n : nat) : Prop := {
  st_chain : chain_inv d n;
  st_sessions : NoDup (ss_session_id <$> session_state d);
  st_supply : Forall (λ r, ∃ k, (k < n)%nat ∧ ss_session_id r = js "session-" ++ randomUUID k)
                (session_state d);
  st_started : Forall (λ r, started (audit_log d) (ss_session_id r) = true) (session_state d);
  st_held : NoDup (hc_id <$> held_tool_calls d);
}.

#[export] Instance store_inv_supply : Supply store_inv.
Proof.
  intros d n m Hnm [Hc Hs Hk Hb Hh]. split; [by apply supply with n|done| |done..].
  eapply Forall_impl; [exact Hk|]. intros r (k&?&?). exists k. split; [lia|done].
Qed.
End store.

Lemma update_where_ids {R} (key : R → jsstr) p f (rows : list R) :
  (∀ r, key (f r) = key r) → key <$> update_where p f rows = key <$> rows.
Proof.
  intros Hk. unfold update_where. rewrite <- list_fmap_compose. apply list_fmap_ext.
  intros _ r _. simpl. by destruct (p r).
Qed.

Lemma filter_nodup {R} (key : R → jsstr) p (rows : list R) :
  NoDup (key <$> rows) → NoDup (key <$> List.filter p rows).
Proof.
  intros Hn. induction rows as [|r rows IH]; simpl in *; [done|].
  apply NoDup_cons in Hn as [Hr Hn]. destruct (p r); simpl; [|by apply IH].
  apply NoDup_cons. split; [|by apply IH]. intros (x&E&Hx)%list_elem_of_fmap. apply Hr.
  apply list_elem_of_fmap. exists x. split; [done|].
  apply list_elem_of_In. apply list_elem_of_In, filter_In in Hx as [? _]. done.
Qed.

Lemma nodup_key {R} (key : R → jsstr) (rows : list R) x y :
  NoDup (key <$> rows) → x ∈ rows → y ∈ rows → key x = key y → x = y.
Proof.
  intros Hn Hx Hy E. apply list_elem_of_lookup in Hx as [i Hi]. apply list_elem_of_lookup in Hy as [j Hj].
  assert (i = j) as ->.
  { apply (NoDup_lookup _ i j (key x) Hn); rewrite list_lookup_fmap, ?Hi, ?Hj; simpl; congruence. }
  congruence.
Qed.

Lemma delete_listed {R} (key : R → jsstr) (p : R → bool) (rows : list R) :
  NoDup (key <$> rows) →
  delete_where (λ r, existsb (λ x, eqs (key r) (key x)) (List.filter p rows)) rows =
  delete_where p rows.
Proof.
  intros Hn. unfold delete_where. apply filter_ext_in. intros r Hr%list_elem_of_In. f_equal.
  apply eq_true_iff_eq. rewrite existsb_exists. split.
  - intros (x&[Hx%list_elem_of_In Hp]%filter_In&E%eqs_true). by rewrite (nodup_key key rows r x).
  - intros Hp. exists r. split; [|apply eqs_refl]. apply filter_In. split; [by apply list_elem_of_In|done].
Qed.

Lemma store_inv_close `{Platform} sid t d n : store_inv d n → store_inv (close_db sid t d) n.
Proof.
  intros [Hc Hs Hk Hb Hh]. split; simpl.
  - exact Hc.
  - by rewrite update_where_ids.
  - unfold update_where. apply Forall_fmap. eapply Forall_impl; [exact Hk|]. intros r Hr. simpl.
    by destruct (is_session sid r).
  - unfold update_where. apply Forall_fmap. eapply Forall_impl; [exact Hb|]. intros r Hr. simpl.
    by destruct (is_session sid r).
  - by apply filter_nodup.
Qed.

Lemma started_app log rows sid : started log sid = true → started (log ++ rows) sid = true.
Proof. unfold started. rewrite existsb_app. by intros ->. Qed.

Lemma store_inv_audited `{Platform} `{!PlatformLaws _} f `{!OffLog f} w w' :
  audited f w w' → (∀ d n, store_inv d n → store_inv (f d) n) →
  store_inv (w_db w) (w_uuids w) → store_inv (w_db w') (w_uuids w').
Proof.
  intros [[rows E] Hc _ _ Hu _] Hf Hs.
  assert (store_inv (f (w_db w)) (w_uuids w')) as [_ H1 H2 Hb H3].
  { apply supply with (w_uuids w); [done|]. by apply Hf. }
  rewrite off_log in E. rewrite E in Hc |- *. split; [done..| |done].
  eapply Forall_impl; [exact Hb|]. intros r Hr. by apply started_app.
Qed.

(** ** The specifications of the pieces *)

Section specs.
Context `{Platform} `{!PlatformLaws _}.
Implicit Types (w : World) (log : list AuditLogRow).

Lemma recorded_row log id :
  recorded log id = true →
  ∃ r, List.find (λ r : AuditLogRow, bool_decide (h_id r = id)) log = Some r ∧ h_id r = id ∧ r ∈ log.
Proof.
  intros Hr. unfold recorded, eqs in Hr. rewrite existsb_find in Hr.
  destruct (List.find _ log) as [r|] eqn:E; [|done]. exists r. split; [done|].
  apply find_some in E as [Hin E]. split; [by apply bool_decide_eq_true in E|].
  by apply list_elem_of_In.
Qed.

Lemma log_id_wf log n (r : AuditLogRow) : log_inv log n → r ∈ log → toWellFormed (h_id r) = h_id r.
Proof.
  intros [_ _ Hs] Hr. rewrite Forall_forall in Hs. destruct (Hs r Hr) as (k&_&->).
  apply ascii_toWellFormed, randomUUID_ascii.
Qed.

(** The [session.end] rows a write adds. *)
Lemma written_ends params ref w w' row r reason sid :
  written params ref w w' row r →
  ends_in reason (audit_log (w_db w')) sid =
    (ends_in reason (audit_log (w_db w)) sid +
     one_if (eqs (wellFormed (p_sessionId params)) sid &&
             eqs (wellFormed (p_toolName params)) (js "session.end") &&
             bool_decide (wellFormed <$> p_errorMessage params = Some (reason_of_end reason))))%nat.
Proof.
  intros Hw. unfold ends_in. rewrite (written_db _ _ _ _ _ _ Hw). simpl.
  rewrite List.filter_app, length_app. f_equal.
  destruct (written_fields _ _ _ _ _ _ Hw) as (?&?&?&?&?&->&_). simpl.
  unfold is_end. simpl. by destruct (_ && _).
Qed.

Definition same_ends w w' : Prop :=
  ∀ reason sid, ends_in reason (audit_log (w_db w')) sid = ends_in reason (audit_log (w_db w)) sid.

(** A closer with the identity of the decision it closes, where there is one. *)
Lemma wp_inferred decision outcome message pending at_ w :
  chain_inv (w_db w) (w_uuids w) → (∀ reason, wellFormed message ≠ reason_of_end reason) →
  wp (identity ← auditEntryIdentity pending;
      match identity with
      | None => mret tt
      | Some i => closeDecisionEntryInTxn (closer_of i decision outcome message at_ pending) Inferred ;; mret tt
      end) (λ _ w', audited (λ d, d) w w' ∧
    (recorded (audit_log (w_db w)) pending = true →
     (1 <= closers_in (audit_log (w_db w')) pending)%nat) ∧ same_ends w w') w.
Proof.
  intros Hi Hm. unfold auditEntryIdentity, readAuditEntryIdentity.
  apply wp_bind, wp_select. destruct (List.find _ _) as [r|] eqn:E; simpl.
  - apply find_some in E as [Hr%list_elem_of_In Er%bool_decide_eq_true].
    apply wp_bind, wp_close; [done|done|simpl; rewrite <- Er; by eapply log_id_wf|].
    intros res w' (_&_&_&Hc) Ha Hw. apply wp_ret. split_and!; [by apply Ha|..].
    + intros _. simpl in Hc. lia.
    + intros reason sid. destruct (Hw eq_refl) as [->|(row&res'&Hw')]; [done|].
      rewrite (written_ends _ _ _ _ _ _ _ _ Hw'). rewrite (bool_decide_eq_false_2 (_ = _)).
      { rewrite andb_false_r. simpl. lia. }
      simpl. intros [= Eq]. by destruct (Hm reason).
  - apply wp_ret. split_and!; [by apply audited_refl| |done]. intros Hr.
    apply recorded_row in Hr as (r&Hr&_). congruence.
Qed.

Lemma wp_timeout pending at_ w :
  chain_inv (w_db w) (w_uuids w) →
  wp (writeHeldTimeoutOutcome pending at_) (λ _ w', audited (λ d, d) w w' ∧
    (recorded (audit_log (w_db w)) pending = true →
     (1 <= closers_in (audit_log (w_db w')) pending)%nat) ∧ same_ends w w') w.
Proof. intros Hi. apply wp_inferred; [done|]. by intros []. Qed.

Lemma audited_closers f w w' id :
  audited f w w' → (closers_in (audit_log (w_db w)) id <= closers_in (audit_log (w_db w')) id)%nat.
Proof. intros Ha. apply (au_settles _ _ _ Ha). Qed.

Lemma audited_log f `{!OffLog f} w w' :
  audited f w w' → ∃ rows, audit_log (w_db w') = audit_log (w_db w) ++ rows.
Proof. intros [[rows E] _ _ _ _ _]. exists rows. by rewrite E, off_log, <- (off_log_audit f (w_db w)). Qed.

Lemma audited_recorded f `{!OffLog f} w w' id :
  audited f w w' → recorded (audit_log (w_db w)) id = true → recorded (audit_log (w_db w')) id = true.
Proof.
  intros [rows ->]%audited_log Hr; [|done]. unfold recorded in *. by rewrite existsb_app, Hr.
Qed.

(** The decision of an undecided held call is closed. *)
Definition settled_held w w' (h : HeldToolCallsRow) : Prop :=
  undecided h = true → recorded (audit_log (w_db w)) (hc_pending_audit_entry_id h) = true →
  (1 <= closers_in (audit_log (w_db w')) (hc_pending_audit_entry_id h))%nat.

Lemma settled_held_mono f g w0 w1 w2 w3 h `{!OffLog f} :
  audited f w0 w1 → audited g w2 w3 → settled_held w1 w2 h → settled_held w0 w3 h.
Proof.
  intros Ha Hb Hs Hu Hr. pose proof (audited_closers _ _ _ (hc_pending_audit_entry_id h) Hb).
  specialize (Hs Hu (audited_recorded _ _ _ _ Ha Hr)). lia.
Qed.

Lemma wp_sweep at_ h w :
  chain_inv (w_db w) (w_uuids w) →
  wp (sweepHeld at_ h) (λ _ w', audited (drop_held (is_held (hc_id h))) w w' ∧
    settled_held w w' h ∧ same_ends w w') w.
Proof.
  intros Hi. unfold sweepHeld, deleteHeldToolCall, settled_held, undecided. apply wp_bind.
  eapply (wp_mono _ (λ _ w', audited (λ d, d) w w' ∧ settled_held w w' h ∧ same_ends w w')).
  - unfold settled_held, undecided, when. destruct (negb _) eqn:E.
    + eapply wp_mono; [by apply wp_timeout|]. intros _ w' (?&?&?). auto.
    + apply wp_ret. split_and!; [by apply audited_refl|done..].
  - intros _ w1 (Ha&Hs&He). apply wp_modify.
    pose proof (audited_modify (drop_held (is_held (hc_id h))) w1 (au_inv _ _ _ Ha)) as Hb.
    split_and!; [exact (audited_trans _ _ _ _ _ Ha Hb)| |exact He].
    exact (settled_held_mono _ _ _ _ _ _ _ (audited_refl _ Hi) Hb Hs).
Qed.

(** Each hold is settled and dropped. *)
Lemma wp_drop_each (body : HeldToolCallsRow → M unit) l w :
  (∀ h w, chain_inv (w_db w) (w_uuids w) → wp (body h) (λ _ w',
    audited (drop_held (is_held (hc_id h))) w w' ∧ settled_held w w' h ∧ same_ends w w') w) →
  chain_inv (w_db w) (w_uuids w) →
  wp (for_each body l) (λ _ w',
    audited (drop_held (λ r, existsb (λ h, eqs (hc_id r) (hc_id h)) l)) w w' ∧
    Forall (settled_held w w') l ∧ same_ends w w') w.
Proof.
  intros Hbody. revert w. induction l as [|h l IH]; intros w Hi; simpl.
  { apply wp_ret. split_and!; [|constructor|done]. eapply audited_ext, audited_refl, Hi.
    intros d. unfold drop_held, set_held_tool_calls, delete_where. destruct d. simpl. f_equal.
    symmetry. by apply list_filter_all, Forall_true. }
  apply wp_bind. eapply wp_mono; [by apply Hbody|]. intros _ w1 (Ha&Hs&He).
  eapply wp_mono; [apply IH, (au_inv _ _ _ Ha)|]. intros _ w2 (Hb&Hss&He').
  split_and!; [|constructor|].
  - eapply audited_ext; [|exact (audited_trans _ _ _ _ _ Ha Hb)]. intros d.
    unfold drop_held, set_held_tool_calls, delete_where. destruct d. simpl. f_equal.
    rewrite list_filter_twice. apply List.filter_ext. intros r. unfold is_held.
    by rewrite negb_orb.
  - exact (settled_held_mono _ _ _ _ _ _ _ (audited_refl _ Hi) Hb Hs).
  - eapply Forall_impl; [exact Hss|]. intros x Hx.
    exact (settled_held_mono _ _ _ _ _ _ _ Ha (audited_refl _ (au_inv _ _ _ Hb)) Hx).
  - intros reason sid. by rewrite He', He.
Qed.
Lemma wp_sweeps at_ l w :
  chain_inv (w_db w) (w_uuids w) →
  wp (for_each (sweepHeld at_) l) (λ _ w',
    audited (drop_held (λ r, existsb (λ h, eqs (hc_id r) (hc_id h)) l)) w w' ∧
    Forall (settled_held w w') l ∧ same_ends w w') w.
Proof. apply wp_drop_each. intros. by apply wp_sweep. Qed.
(** One [session.end] for each closed session that has its [session.start]. *)
Definition ends_add (reason : end_reason) (closed : jsstr → bool) w w' : Prop :=
  ∀ reason' sid, started (audit_log (w_db w)) sid = true →
    ends_in reason' (audit_log (w_db w')) sid =
    (ends_in reason' (audit_log (w_db w)) sid +
     one_if (bool_decide (reason = reason') && closed sid))%nat.

Lemma audited_started f `{!OffLog f} w w' sid :
  audited f w w' → started (audit_log (w_db w)) sid = true → started (audit_log (w_db w')) sid = true.
Proof. intros [rows ->]%audited_log Hr; [|done]. by apply started_app. Qed.

Lemma session_start_wf log n r sid :
  log_inv log n → List.find (is_session_start sid) log = Some r → toWellFormed sid = sid.
Proof.
  intros Hl Hr. apply find_some in Hr as [Hin%list_elem_of_In Hs].
  apply andb_true_iff in Hs as [<-%bool_decide_eq_true _].
  apply (log_row_ok _ _ _ Hl) in Hin as (_&Hw&_). apply Hw. unfold entry_strings. set_solver.
Qed.

Lemma wp_close_session sid reason at_ w :
  chain_inv (w_db w) (w_uuids w) →
  wp (closeSession sid reason at_) (λ _ w', audited (close_rows sid at_) w w' ∧
    ends_add reason (eqs sid) w w') w.
Proof.
  intros Hi. unfold closeSession, sessionIdentity, readSessionStartIdentity.
  do 2 apply wp_bind. apply wp_select, wp_ret. apply wp_bind.
  eapply (wp_mono _ (λ _ w', audited (λ d, d) w w' ∧ ends_add reason (eqs sid) w w')).
  - destruct (List.find (is_session_start sid) (audit_log (w_db w))) as [r|] eqn:E; simpl.
    + unfold readSessionStartIdentity. apply wp_bind, wp_select. rewrite E. cbv zeta.
      apply wp_bind, wp_entry; [done..|]. intros row res w' Hw Ha. apply wp_ret.
      split; [done|]. intros reason' id _. rewrite (written_ends _ _ _ _ _ _ reason' id Hw).
      f_equal. f_equal.
      cbn [p_sessionId p_toolName p_errorMessage lifecycle]. unfold wellFormed.
      rewrite (session_start_wf _ _ _ _ Hi E).
      replace (eqs _ (js "session.end")) with true by reflexivity.
      rewrite andb_true_r, andb_comm. f_equal. by destruct reason, reason'.
    + apply wp_ret. split; [by apply audited_refl|]. intros reason' id Hs. unfold started in Hs.
      rewrite existsb_find in Hs. destruct (eqs sid id) eqn:Eid; [|rewrite andb_false_r; simpl; lia].
      apply eqs_true in Eid as <-. by rewrite E in Hs.
  - intros _ w1 [Ha He]. apply wp_bind, wp_modify, wp_modify.
    pose proof (audited_modify (stop_runs sid at_) w1 (au_inv _ _ _ Ha)) as Hb.
    pose proof (audited_modify (stamp_session sid at_) _ (au_inv _ _ _ Hb)) as Hc.
    split; [|exact He]. exact (audited_trans _ _ _ _ _ (audited_trans _ _ _ _ _ Ha Hb) Hc).
Qed.

Lemma ends_add_trans reason p q f `{!OffLog f} w0 w1 w2 :
  audited f w0 w1 → ends_add reason p w0 w1 → ends_add reason q w1 w2 →
  ∀ reason' sid, started (audit_log (w_db w0)) sid = true →
    ends_in reason' (audit_log (w_db w2)) sid =
    (ends_in reason' (audit_log (w_db w0)) sid +
     (one_if (bool_decide (reason = reason') && p sid) +
      one_if (bool_decide (reason = reason') && q sid)))%nat.
Proof.
  intros Ha Hp Hq reason' sid Hs. rewrite (Hq reason' sid), (Hp reason' sid); [lia|done|]. exact (audited_started _ _ _ _ Ha Hs).
Qed.

(** The end of one session. *)
Definition session_closed sid reason at_ w w' : Prop :=
  audited (close_db sid at_) w w' ∧ ends_add reason (eqs sid) w w' ∧
  ∀ h, h ∈ held_tool_calls (w_db w) → held_by_session sid h = true → settled_held w w' h.

Lemma wp_end_session sid reason at_ w :
  store_inv (w_db w) (w_uuids w) →
  wp (endSessionRowInTxn sid reason at_) (λ _ w', session_closed sid reason at_ w w') w.
Proof.
  intros [Hi _ _ _ Hh]. unfold endSessionRowInTxn, selectHeldCallsForSession.
  apply wp_bind, wp_select. apply wp_bind. eapply wp_mono; [by apply wp_sweeps|].
  intros _ w1 (Ha&Hs&He). eapply wp_mono; [apply wp_close_session, (au_inv _ _ _ Ha)|].
  intros _ w2 [Hb He']. split_and!.
  - pose proof (audited_trans _ _ _ _ _ Ha Hb) as Hc. destruct Hc as [[rows E] ? ? ? ? ?].
    split; [|done..]. exists rows. rewrite E. unfold close_db. f_equal.
    unfold drop_held, set_held_tool_calls. simpl. f_equal. by apply delete_listed.
  - intros reason' id Hst. rewrite (He' reason' id), (He reason' id); [done|]. exact (audited_started _ _ _ _ Ha Hst).
  - intros h Hin Hsid. rewrite Forall_forall in Hs.
    refine (settled_held_mono _ _ _ _ _ _ _ (audited_refl _ Hi) Hb (Hs h _)).
    apply list_elem_of_In, filter_In. split; [by apply list_elem_of_In|done].
Qed.

(** The end of every session of a list that satisfies [cond]. *)
Definition listed (cond : SessionStateRow → bool) (l : list SessionStateRow) (sid : jsstr) : bool :=
  existsb (λ s, cond s && eqs (ss_session_id s) sid) l.
Record sessions_closed cond stamp reason l w w' : Prop := {
  sc_tables : audited (close_all cond stamp l) w w';
  sc_ends : ends_add reason (listed cond l) w w';
  sc_held : ∀ h, h ∈ held_tool_calls (w_db w) → listed cond l (hc_session_id h) = true →
              settled_held w w' h;
}.

Lemma in_update_where {R} (p : R → bool) f rows (x : R) :
  x ∈ rows → p x = false → x ∈ update_where p f rows.
Proof. intros Hx Hp. apply list_elem_of_fmap. exists x. by rewrite Hp. Qed.

Lemma in_delete_where {R} (p : R → bool) rows (x : R) :
  x ∈ rows → p x = false → x ∈ delete_where p rows.
Proof.
  intros Hx Hp. apply list_elem_of_In, filter_In. split; [by apply list_elem_of_In|]. by rewrite Hp.
Qed.

(** One step of the loop. *)
Lemma sessions_closed_cons (cond : SessionStateRow → bool) stamp reason (s : SessionStateRow) (l : list SessionStateRow) w w1 w2 :
  store_inv (w_db w) (w_uuids w) → ss_session_id s ∉ ss_session_id <$> l →
  (if cond s then session_closed (ss_session_id s) reason (stamp s) w w1 else w1 = w) →
  sessions_closed cond stamp reason l w1 w2 → sessions_closed cond stamp reason (s :: l) w w2.
Proof.
  intros Hst Hs H1 [Ha He Hh].
  assert (∀ sid, listed cond l sid = true → sid ≠ ss_session_id s) as Hne.
  { intros sid Hl ->. apply Hs. apply existsb_exists in Hl as (x&Hx&Hc). apply andb_true_iff in Hc as [_ Hc].
    apply eqs_true in Hc. apply list_elem_of_fmap. exists x. split; [done|]. by apply list_elem_of_In. }
  destruct (cond s) eqn:Ec.
  - destruct H1 as (Hb&He1&Hh1). split.
    + eapply audited_ext; [|exact (audited_trans _ _ _ _ _ Hb Ha)]. intros d.
      unfold close_all. simpl. by rewrite Ec.
    + intros reason' sid Hsid.
      pose proof (ends_add_trans _ _ _ _ _ _ _ Hb He1 He reason' sid Hsid) as ->.
      simpl. rewrite Ec. destruct (bool_decide (reason = reason')); [|done]. simpl. fold (listed cond l sid). destruct (eqs (ss_session_id s) sid) eqn:E; [|simpl; lia].
      apply eqs_true in E. destruct (listed cond l sid) eqn:El; [|simpl; lia].
      apply Hne in El. congruence.
    + intros h Hin. unfold listed. simpl. rewrite Ec. fold (listed cond l (hc_session_id h)). intros [E|E]%orb_true_iff.
      * apply eqs_true in E. refine (settled_held_mono _ _ _ _ _ _ _
          (audited_refl _ (st_chain _ _ Hst)) Ha (Hh1 h Hin _)). by apply eqs_true.
      * assert (h ∈ held_tool_calls (w_db w1)) as Hin1.
        { destruct Hb as [[rows ->] _ _ _ _ _]. simpl. apply in_delete_where; [done|].
          apply eqs_false. by apply Hne. }
        exact (settled_held_mono _ _ _ _ _ _ _ Hb (audited_refl _ (au_inv _ _ _ Ha)) (Hh h Hin1 E)).
  - subst w1. assert (∀ sid, listed cond (s :: l) sid = listed cond l sid) as El
      by (intros; unfold listed; simpl; by rewrite Ec).
    split; [|intros reason' sid; rewrite El; apply He|intros h; rewrite El; apply Hh].
    eapply audited_ext; [|exact Ha]. intros d. unfold close_all. simpl. by rewrite Ec.
Qed.

Lemma wp_close_loop (cond : SessionStateRow → bool) stamp reason body (l : list SessionStateRow) w :
  store_inv (w_db w) (w_uuids w) → NoDup (ss_session_id <$> l) →
  (∀ s, s ∈ l → s ∈ session_state (w_db w)) →
  (∀ s w', s ∈ l → s ∈ session_state (w_db w') → store_inv (w_db w') (w_uuids w') →
     w_clock w' = w_clock w → held_tool_calls (w_db w') ⊆ held_tool_calls (w_db w) →
     wp (body s) (λ _ w'', if cond s then session_closed (ss_session_id s) reason (stamp s) w' w''
                           else w'' = w') w') →
  wp (for_each body l) (λ _ w', sessions_closed cond stamp reason l w w') w.
Proof.
  revert w. induction l as [|s l IH]; intros w Hst Hn Hin Hb; cbn [for_each].
  { apply wp_ret. split; [|intros r sid _; rewrite andb_false_r; simpl; lia|done].
    by apply audited_refl, st_chain. }
  apply NoDup_cons in Hn as [Hs Hn]. apply wp_bind.
  eapply wp_mono; [apply Hb; [set_solver|apply Hin; set_solver|done..]|]. intros ? w1 H1. cbv beta in H1.
  assert (store_inv (w_db w1) (w_uuids w1) ∧ w_clock w1 = w_clock w ∧
    held_tool_calls (w_db w1) ⊆ held_tool_calls (w_db w) ∧
    ∀ x, x ∈ l → x ∈ session_state (w_db w1)) as (Hst1&Hc1&Hh1&Hin1).
  { destruct (cond s).
    2: { rewrite H1. split_and!; [done..|]. intros x Hx. apply Hin. set_solver. }
    destruct H1 as (Ha&_&_). split_and!.
    - refine (store_inv_audited _ _ _ Ha _ Hst). intros. by apply store_inv_close.
    - apply (au_clock _ _ _ Ha).
    - destruct Ha as [[rows ->] _ _ _ _ _]. simpl. unfold delete_where. intros h.
      rewrite !list_elem_of_In. by intros [? _]%filter_In.
    - intros x Hx. destruct Ha as [[rows ->] _ _ _ _ _]. simpl.
      apply in_update_where; [apply Hin; set_solver|]. apply eqs_false. intros E. apply Hs.
      apply list_elem_of_fmap. eauto. }
  eapply wp_mono; [apply IH; [done|done|done|]|].
  - intros x w' Hx Hx' Hst' Hc' Hh'. apply Hb; [set_solver|done|done|congruence|set_solver].
  - intros ? w2 H2. cbv beta in H2. by eapply sessions_closed_cons.
Qed.
End specs.

(** ** The tables after the closes *)

Section close_tables.
Context (cond : SessionStateRow → bool) (stamp : SessionStateRow → jsstr).

Lemma close_all_store `{Platform} l d n : store_inv d n → store_inv (close_all cond stamp l d) n.
Proof.
  unfold close_all. revert d. induction l as [|s l IH]; intros d Hd; simpl; [done|].
  apply IH. destruct (cond s); [by apply store_inv_close|done].
Qed.

(** The held calls of the closed sessions go, all others stay. *)
Lemma close_all_held l d :
  held_tool_calls (close_all cond stamp l d) =
  List.filter (λ h, negb (listed cond l (hc_session_id h))) (held_tool_calls d).
Proof.
  unfold close_all, listed. revert d. induction l as [|s l IH]; intros d; simpl.
  { symmetry. by apply list_filter_all, Forall_true. }
  rewrite IH. destruct (cond s); simpl; [|done]. unfold delete_where.
  rewrite list_filter_twice. apply List.filter_ext. intros h. unfold held_by_session, eqs.
  rewrite negb_orb. f_equal. f_equal. apply bool_decide_ext. split; congruence.
Qed.

Lemma close_all_policy l d : policy_entries (close_all cond stamp l d) = policy_entries d.
Proof.
  unfold close_all. revert d. induction l as [|s l IH]; intros d; cbn [foldl]; [done|].
  rewrite IH. by destruct (cond s).
Qed.

Definition stamped (l : list SessionStateRow) (r : SessionStateRow) : SessionStateRow :=
  foldl (λ r s, if cond s && is_session (ss_session_id s) r then end_row (stamp s) r else r) r l.

Lemma close_all_sessions l d :
  session_state (close_all cond stamp l d) = stamped l <$> session_state d.
Proof.
  unfold close_all, stamped. revert d. induction l as [|s l IH]; intros d; simpl.
  { by rewrite list_fmap_id. }
  rewrite IH. destruct (cond s); simpl; [|done]. unfold update_where.
  rewrite <- list_fmap_compose. done.
Qed.

Lemma stamped_other l r : ss_session_id r ∉ ss_session_id <$> l → stamped l r = r.
Proof.
  unfold stamped. induction l as [|s l IH]; [done|]. rewrite fmap_cons, not_elem_of_cons.
  intros [Hne Hl]. simpl. assert (is_session (ss_session_id s) r = false) as ->.
  { by apply eqs_false. }
  rewrite andb_false_r. by apply IH.
Qed.

Lemma stamped_id l r : ss_session_id (stamped l r) = ss_session_id r.
Proof.
  unfold stamped. revert r. induction l as [|s l IH]; intros r; simpl; [done|]. rewrite IH.
  by destruct (_ && _).
Qed.

(** Closing the open rows of a store stamps those that satisfy [cond]. *)
Lemma close_open_sessions rows d :
  session_state d = rows → NoDup (ss_session_id <$> rows) →
  session_state (close_all cond stamp (List.filter is_open rows) d) =
  (λ r, if is_open r && cond r then end_row (stamp r) r else r) <$> rows.
Proof.
  intros <- Hn. rewrite close_all_sessions. apply list_fmap_ext. intros i r Hr.
  apply list_elem_of_lookup_2 in Hr. revert Hn Hr. generalize (session_state d). intros rows Hn Hr.
  apply list_elem_of_split in Hr as (l1&l2&->). rewrite fmap_app, fmap_cons in Hn.
  apply NoDup_app in Hn as (_&H1&[H2 _]%NoDup_cons).
  assert (∀ l, ss_session_id r ∉ ss_session_id <$> l →
    ss_session_id r ∉ ss_session_id <$> List.filter is_open l) as Hf.
  { intros l Hl (x&E&Hx)%list_elem_of_fmap. apply Hl, list_elem_of_fmap. exists x. split; [done|].
    apply list_elem_of_In in Hx. apply filter_In in Hx as [Hx _]. by apply list_elem_of_In. }
  rewrite List.filter_app. unfold stamped. rewrite foldl_app. fold (stamped (List.filter is_open l1) r).
  rewrite stamped_other.
  2: { apply Hf. intros Hx. apply (H1 _ Hx). by apply list_elem_of_here. }
  simpl. destruct (is_open r) eqn:Eo; simpl; [|by apply (stamped_other _ r), Hf].
  unfold is_session at 2. rewrite eqs_refl, andb_true_r. fold (stamped (List.filter is_open l2)).
  destruct (cond r); apply (stamped_other (List.filter is_open l2)), Hf; done.
Qed.

(** Every open run of a closed session expires, every other run stays. *)
Definition ended_run (l : list SessionStateRow) (r : CommissionRunsRow) : CommissionRunsRow :=
  foldl (λ r s, if cond s && (eqs (cr_session_id r) (ss_session_id s) && has_run_status open_statuses r)
                then to_status R_expired (stamp s) r else r) r l.

Lemma close_all_runs l d :
  commission_runs (close_all cond stamp l d) = ended_run l <$> commission_runs d.
Proof.
  unfold close_all, ended_run. revert d. induction l as [|s l IH]; intros d; simpl.
  { by rewrite list_fmap_id. }
  rewrite IH. destruct (cond s); simpl; [|done]. unfold update_where.
  by rewrite <- list_fmap_compose.
Qed.

Lemma ended_run_status l r :
  cr_status (ended_run l r) =
  if listed cond l (cr_session_id r) && has_run_status open_statuses r then R_expired else cr_status r.
Proof.
  unfold ended_run, listed. revert r. induction l as [|s l IH]; intros r; simpl; [done|].
  rewrite IH. unfold eqs. destruct (cond s); simpl; [|done].
  rewrite (bool_decide_ext (ss_session_id s = cr_session_id r) (cr_session_id r = ss_session_id s))
    by (split; congruence).
  destruct (bool_decide (cr_session_id r = ss_session_id s)) eqn:E; simpl; [|done].
  destruct (has_run_status open_statuses r) eqn:Eo; simpl; [by rewrite andb_false_r|].
  by rewrite Eo, andb_false_r.
Qed.
End close_tables.

(** ** The reaper and the active session *)

Section life.
Context `{Platform} `{!PlatformLaws _}.
Implicit Types (w : World).

(** The end of a session's cap, and whether it has passed at [nowMs]; an anchor
    that does not parse is due at once. *)
Definition expiry (nowMs : Z) (s : SessionStateRow) : Z :=
  match dateOf (ss_started_at s) with Some t => t + SESSION_LIFETIME_MS | None => nowMs end.
Definition due (nowMs : Z) (s : SessionStateRow) : bool := expiry nowMs s <=? nowMs.
Definition expiry_stamp (nowMs : Z) (s : SessionStateRow) : jsstr := toISOString (expiry nowMs s).
Definition live (nowMs : Z) (s : SessionStateRow) : bool := is_open s && negb (due nowMs s).

(** Every instant the reaper prints is one [Date] can hold. *)
Definition in_range (t : Z) : Prop := Z.abs t <= 8640000000000000.
Record times_ok (rows : list SessionStateRow) (clock : nat → Z) : Prop := {
  to_clock n : in_range (clock n);
  to_rows s t : s ∈ rows → dateOf (ss_started_at s) = Some t → in_range (t + SESSION_LIFETIME_MS);
}.

Lemma isoOf_range t Q w : in_range t → Q (toISOString t) w → wp (isoOf t) Q w.
Proof. intros Ht HQ. unfold isoOf. rewrite (proj2 (Z.leb_le _ _)) by done. exact HQ. Qed.

Lemma find_session rows s :
  NoDup (ss_session_id <$> rows) → s ∈ rows → List.find (is_session (ss_session_id s)) rows = Some s.
Proof.
  intros Hn Hs. destruct (List.find _ rows) as [r|] eqn:E.
  - apply find_some in E as [Hr%list_elem_of_In E%eqs_true]. f_equal. by eapply nodup_key.
  - apply list_elem_of_In in Hs. eapply find_none in E; [|exact Hs]. unfold is_session in E.
    by rewrite eqs_refl in E.
Qed.

Lemma wp_reap_one nowMs s w :
  store_inv (w_db w) (w_uuids w) → s ∈ session_state (w_db w) → in_range (expiry nowMs s) →
  wp (reapOne nowMs s) (λ _ w', if due nowMs s
    then session_closed (ss_session_id s) E_timeout (expiry_stamp nowMs s) w w' else w' = w) w.
Proof.
  intros Hst Hs Hr. unfold reapOne, sessionStartedAt, readSessionStartedAt.
  do 2 apply wp_bind. apply wp_select. rewrite find_session by (done || apply Hst). apply wp_ret.
  unfold due. cbv zeta. simpl. fold (expiry nowMs s). rewrite Z.leb_antisym.
  destruct (nowMs <? expiry nowMs s); simpl; [by apply wp_ret|].
  apply wp_bind, isoOf_range; [exact Hr|]. apply wp_txn.
  fold (expiry_stamp nowMs s). by apply wp_end_session.
Qed.

Lemma open_in rows s : s ∈ List.filter is_open rows → s ∈ rows.
Proof. rewrite !list_elem_of_In. by intros [? _]%filter_In. Qed.

Lemma wp_reap w :
  store_inv (w_db w) (w_uuids w) → times_ok (session_state (w_db w)) (w_clock w) →
  let nowMs := w_clock w (w_ticks w) in
  wp reapExpiredSessions (λ _ w', sessions_closed (due nowMs) (expiry_stamp nowMs) E_timeout
    (List.filter is_open (session_state (w_db w))) w w') w.
Proof.
  intros Hst [Hc Hr] nowMs. unfold reapExpiredSessions, selectOpenSessions.
  apply wp_bind, wp_now, wp_bind, wp_select. fold nowMs. simpl.
  eapply wp_mono; [apply (wp_close_loop (due nowMs) (expiry_stamp nowMs) E_timeout)|].
  - exact Hst.
  - apply filter_nodup, Hst.
  - intros s. apply open_in.
  - intros s w' Hs Hs' Hst' Hc' _. apply wp_reap_one; [done..|]. unfold expiry.
    destruct (dateOf (ss_started_at s)) as [t|] eqn:E; [|apply Hc]. eapply Hr; [|exact E].
    by apply open_in.
  - intros [] w' [[] ? ?]. split; [by split|done..].
Qed.
(** *** Creating a session *)

Definition new_session (sid startedAt agentId : jsstr) : SessionStateRow :=
  mkSession sid startedAt agentId None.
Definition add_session (s : SessionStateRow) (d : Db) : Db :=
  set_session_state (λ rows, rows ++ [s]) d.
#[export] Instance off_log_add s : OffLog (add_session s).
Proof. by intros h d. Qed.

Definition fresh_session (n : nat) : jsstr := js "session-" ++ randomUUID n.

Lemma fresh_session_ascii n : ascii_only (fresh_session n).
Proof. apply Forall_app. split; [repeat constructor|apply randomUUID_ascii]. Qed.

Lemma fresh_session_new w :
  store_inv (w_db w) (w_uuids w) → fresh_session (w_uuids w) ∉ ss_session_id <$> session_state (w_db w).
Proof.
  intros [_ _ Hk _ _] (r&E&Hr)%list_elem_of_fmap. rewrite Forall_forall in Hk.
  destruct (Hk r Hr) as (k&Hlt&Ek). unfold fresh_session in E. rewrite Ek in E. simplify_list_eq. lia.
Qed.

Lemma wp_insert_session sid startedAt agentId Q w :
  sid ∉ ss_session_id <$> session_state (w_db w) →
  Q tt (with_db (add_session (new_session sid startedAt agentId)) w) →
  wp (insertSessionState sid startedAt agentId) Q w.
Proof.
  intros Hn HQ. apply wp_modify. eapply eq_rect; [exact HQ|].
  unfold with_db, add_session, set_session_state. do 2 f_equal.
  assert (existsb (is_session sid) (session_state (w_db w)) = false) as ->; [|done].
  apply not_true_iff_false. intros (r&Hr%list_elem_of_In&E%eqs_true)%existsb_exists. apply Hn.
  apply list_elem_of_fmap. eauto.
Qed.

Lemma written_started params ref w w' row r :
  written params ref w w' row r → toWellFormed (p_sessionId params) = p_sessionId params →
  p_toolName params = js "session.start" →
  started (audit_log (w_db w')) (p_sessionId params) = true.
Proof.
  intros Hw Hwf Ht. rewrite (written_db _ _ _ _ _ _ Hw). unfold started. cbn [audit_log set_audit_log].
  rewrite existsb_app. apply orb_true_iff. right.
  destruct (written_fields _ _ _ _ _ _ Hw) as (?&?&?&?&?&->&_). cbn [existsb]. rewrite orb_false_r.
  unfold is_session_start, new_row. cbn [al_chain ce_fields h_sessionId h_toolName row_fields].
  unfold wellFormed. rewrite Hwf, Ht. by rewrite bool_decide_eq_true_2.
Qed.

Lemma wp_create userId agentId o w :
  store_inv (w_db w) (w_uuids w) →
  wp (createSessionInTxn userId agentId o) (λ p w',
    let s := new_session (fresh_session (w_uuids w)) (toISOString (w_clock w (w_ticks w))) agentId in
    p = (ss_session_id s, ss_started_at s) ∧ audited (add_session s) w w' ∧ same_ends w w' ∧
    store_inv (w_db w') (w_uuids w')) w.
Proof.
  intros Hst. pose proof (fresh_session_new _ Hst) as Hn. destruct Hst as [Hc Hs Hk Hb Hh].
  unfold createSessionInTxn. apply wp_bind, wp_uuid. cbv zeta. fold (fresh_session (w_uuids w)).
  apply wp_bind, wp_nowISO. apply wp_bind, wp_insert_session; [exact Hn|].
  set (s := new_session _ _ _).
  match goal with |- wp _ _ (with_db _ ?x) => set (w0 := x) end.
  assert (chain_inv (w_db w0) (w_uuids w0)) as Hc0 by (apply supply with (w_uuids w); [simpl; lia|done]).
  pose proof (audited_modify (add_session s) w0 Hc0) as Ha.
  apply wp_bind, wp_entry; [exact (au_inv _ _ _ Ha)|done|]. intros row r w' Hw Hb'. apply wp_ret.
  pose proof (audited_trans _ _ _ _ _ Ha Hb') as [Hd Hi Hcl Hg Hu Hset].
  pose proof (written_started _ _ _ _ _ _ Hw (ascii_toWellFormed _ (fresh_session_ascii _)) eq_refl)
    as Hstart.
  split_and!; [done|..].
  - split; try done. simpl in Hu. lia.
  - intros reason sid. rewrite (written_ends _ _ _ _ _ _ _ _ Hw). simpl.
    rewrite andb_false_r. simpl. lia.
  - rewrite (written_db _ _ _ _ _ _ Hw) in Hstart, Hi |- *.
    rewrite (written_uuids _ _ _ _ _ _ Hw) in Hi |- *. split; [done|..]; simpl.
    + rewrite fmap_app. apply NoDup_app. split_and!; [done| |apply NoDup_singleton].
      intros x Hx Hx'%list_elem_of_singleton. simpl in Hx'. congruence.
    + apply Forall_app. split; [|repeat constructor; exists (w_uuids w); split; [lia|done]].
      eapply Forall_impl; [exact Hk|]. intros x (k&?&?). exists k. split; [lia|done].
    + apply Forall_app. split.
      * eapply Forall_impl; [exact Hb|]. intros x. apply started_app.
      * constructor; [exact Hstart|constructor].
    + done.
Qed.
(** *** Sessions that are over *)

Record over (reason : end_reason) w w' (s : SessionStateRow) : Prop := {
  ov_end : ends_in reason (audit_log (w_db w')) (ss_session_id s) =
             S (ends_in reason (audit_log (w_db w)) (ss_session_id s));
  ov_held h : h ∈ held_tool_calls (w_db w') → hc_session_id h ≠ ss_session_id s;
  ov_settled h : h ∈ held_tool_calls (w_db w) → hc_session_id h = ss_session_id s → settled_held w w' h;
  ov_runs r : r ∈ commission_runs (w_db w') → cr_session_id r = ss_session_id s →
                has_run_status open_statuses r = false;
}.

(** A run that ends no session for [reason] and revives nothing. *)
Record tame (reason : end_reason) w w' : Prop := {
  tm_log : ∃ rows, audit_log (w_db w') = audit_log (w_db w) ++ rows;
  tm_ends sid : started (audit_log (w_db w)) sid = true →
    ends_in reason (audit_log (w_db w')) sid = ends_in reason (audit_log (w_db w)) sid;
  tm_held h : h ∈ held_tool_calls (w_db w') → h ∈ held_tool_calls (w_db w);
  tm_runs r : r ∈ commission_runs (w_db w') → ∃ r0, r0 ∈ commission_runs (w_db w) ∧
    cr_session_id r0 = cr_session_id r ∧
    (has_run_status open_statuses r = true → has_run_status open_statuses r0 = true);
}.

Lemma settled_held_logs w0 w1 w2 w3 h r1 r2 :
  audit_log (w_db w1) = audit_log (w_db w0) ++ r1 →
  audit_log (w_db w3) = audit_log (w_db w2) ++ r2 → settled_held w1 w2 h → settled_held w0 w3 h.
Proof.
  intros E1 E2 Hs Hu Hr. rewrite E2, closers_in_app. enough (1 <= closers_in (audit_log (w_db w2))
    (hc_pending_audit_entry_id h))%nat by lia. apply Hs; [done|]. rewrite E1. unfold recorded in *.
  by rewrite existsb_app, Hr.
Qed.

Lemma over_then reason w w1 w2 s rows :
  over reason w w1 s → audit_log (w_db w1) = audit_log (w_db w) ++ rows →
  started (audit_log (w_db w)) (ss_session_id s) = true → tame reason w1 w2 → over reason w w2 s.
Proof.
  intros [H1 H2 H3 H4] El Hs [[rows2 E2] Te Th Tr]. split.
  - rewrite Te; [done|]. rewrite El. by apply started_app.
  - intros h Hh. by apply H2, Th.
  - intros h Hh Hsid. eapply (settled_held_logs w w); [symmetry; apply app_nil_r|exact E2|]. by apply H3.
  - intros r (r0&Hr0&E0&Ho)%Tr Hsid. apply not_true_iff_false. intros E%Ho.
    rewrite (H4 r0) in E; [done|done|congruence].
Qed.

Lemma over_after reason w w1 w2 s :
  tame reason w w1 → started (audit_log (w_db w)) (ss_session_id s) = true →
  (∀ h, h ∈ held_tool_calls (w_db w) → hc_session_id h = ss_session_id s →
     h ∈ held_tool_calls (w_db w1)) →
  over reason w1 w2 s → over reason w w2 s.
Proof.
  intros [[rows E] Te Th Tr] Hs Hh [H1 H2 H3 H4]. split; [|done| |done].
  - by rewrite H1, Te.
  - intros h Hin Hsid. eapply (settled_held_logs w w1 w2 w2); [exact E|symmetry; apply app_nil_r|].
    by apply H3; [apply Hh|].
Qed.

Lemma listed_in (cond : SessionStateRow → bool) l s :
  s ∈ l → cond s = true → listed cond l (ss_session_id s) = true.
Proof.
  intros Hs Hc. apply existsb_exists. exists s. split; [by apply list_elem_of_In|].
  by rewrite Hc, eqs_refl.
Qed.
Lemma listed_inv (cond : SessionStateRow → bool) l sid :
  listed cond l sid = true → ∃ s, s ∈ l ∧ cond s = true ∧ ss_session_id s = sid.
Proof.
  intros (s&Hs%list_elem_of_In&[Hc E%eqs_true]%andb_true_iff)%existsb_exists. eauto.
Qed.

Lemma sessions_closed_over cond stamp reason l w w' s :
  sessions_closed cond stamp reason l w w' → s ∈ l → cond s = true →
  started (audit_log (w_db w)) (ss_session_id s) = true → over reason w w' s.
Proof.
  intros [Ha He Hh] Hs Hc Hst. pose proof (listed_in _ _ _ Hs Hc) as Hl.
  destruct Ha as [[rows E] _ _ _ _ _]. split.
  - rewrite (He reason) by done. rewrite bool_decide_eq_true_2, Hl by done. simpl. lia.
  - intros h. rewrite E, close_all_held, list_elem_of_In. intros [_ Hn]%filter_In Eh.
    by rewrite Eh, Hl in Hn.
  - intros h Hin Eh. apply Hh; [done|]. by rewrite Eh.
  - intros r. rewrite E, close_all_runs. intros (r0&->&Hr0)%list_elem_of_fmap Er.
    unfold has_run_status. rewrite ended_run_status.
    assert (cr_session_id (ended_run cond stamp l r0) = cr_session_id r0) as Es.
    { unfold ended_run. clear. revert r0. induction l as [|s l IH]; intros r0; simpl; [done|].
      rewrite IH. by destruct (_ && _). }
    rewrite Es in Er. rewrite Er, Hl. simpl.
    destruct (has_run_status open_statuses r0) eqn:Eo; [reflexivity|exact Eo].
Qed.

Lemma sessions_closed_tame cond stamp reason reason' l w w' :
  sessions_closed cond stamp reason' l w w' → reason ≠ reason' → tame reason w w'.
Proof.
  intros [Ha He Hh] Hne. pose proof (audited_log _ _ _ Ha) as Hl. destruct Ha as [[rows E] _ _ _ _ _].
  split; [done|..].
  - intros sid Hs. rewrite (He reason) by done. rewrite bool_decide_eq_false_2 by done. simpl. lia.
  - intros h. rewrite E, close_all_held, !list_elem_of_In. by intros [? _]%filter_In.
  - intros r. rewrite E, close_all_runs. intros (r0&->&Hr0)%list_elem_of_fmap. exists r0.
    split; [exact Hr0|]. unfold has_run_status. rewrite ended_run_status. split.
    { unfold ended_run. clear. revert r0. induction l as [|s l IH]; intros r0; simpl; [done|].
      rewrite <- IH. by destruct (_ && _). }
    fold (has_run_status open_statuses r0). destruct (has_run_status open_statuses r0) eqn:E0; [done|].
    rewrite andb_false_r. unfold has_run_status in E0. by rewrite E0.
Qed.
(** *** Reaping, then acting on the active session *)

(** The newest of the live sessions. *)
Definition newest (nowMs : Z) (rows : list SessionStateRow) : option SessionStateRow :=
  head (stable_sort started_desc (List.filter (live nowMs) rows)).

(** What the reaper leaves, as every entry point sees it. *)
Record reaped (w w1 : World) : Prop := {
  rp_closed : let nowMs := w_clock w (w_ticks w) in
    sessions_closed (due nowMs) (expiry_stamp nowMs) E_timeout
      (List.filter is_open (session_state (w_db w))) w w1;
  rp_store : store_inv (w_db w1) (w_uuids w1);
  rp_open : List.filter is_open (session_state (w_db w1)) =
    List.filter (live (w_clock w (w_ticks w))) (session_state (w_db w));
  rp_old s : s ∈ session_state (w_db w) → ss_session_id s ∈ ss_session_id <$> session_state (w_db w1);
}.

Lemma close_keeps_ids cond stamp l d :
  ss_session_id <$> session_state (close_all cond stamp l d) = ss_session_id <$> session_state d.
Proof.
  rewrite close_all_sessions, <- list_fmap_compose. apply list_fmap_ext. intros _ r _.
  apply stamped_id.
Qed.

Lemma filter_open_stamped (cond : SessionStateRow → bool) stamp rows :
  List.filter is_open
    ((λ r, if is_open r && cond r then end_row (stamp r) r else r) <$> rows) =
  List.filter (λ r, is_open r && negb (cond r)) rows.
Proof.
  induction rows as [|r rows IH]; [done|]. rewrite fmap_cons. cbn [List.filter].
  rewrite IH. destruct (is_open r) eqn:E, (cond r); simpl; by rewrite ?E.
Qed.

Lemma sessions_closed_store cond stamp reason l w w' :
  sessions_closed cond stamp reason l w w' → store_inv (w_db w) (w_uuids w) →
  store_inv (w_db w') (w_uuids w').
Proof.
  intros [Ha _ _] Hst. refine (store_inv_audited _ _ _ Ha _ Hst). intros. by apply close_all_store.
Qed.

Lemma sessions_closed_rows cond stamp reason w w' :
  let rows := session_state (w_db w) in
  sessions_closed cond stamp reason (List.filter is_open rows) w w' →
  NoDup (ss_session_id <$> rows) →
  session_state (w_db w') = (λ r, if is_open r && cond r then end_row (stamp r) r else r) <$> rows.
Proof. intros rows [[[k ->] _ _ _ _ _] _ _] Hn. by apply close_open_sessions. Qed.

Lemma wp_reaped w Q :
  store_inv (w_db w) (w_uuids w) → times_ok (session_state (w_db w)) (w_clock w) →
  (∀ w1, reaped w w1 → Q tt w1) → wp reapExpiredSessions Q w.
Proof.
  intros Hst Ht HQ. eapply wp_mono; [by apply wp_reap|]. intros [] w1 Hc. cbv beta zeta in Hc. apply HQ.
  pose proof (sessions_closed_rows _ _ _ _ _ Hc (st_sessions _ _ Hst)) as Hr. split.
  - exact Hc.
  - by eapply sessions_closed_store.
  - by rewrite Hr, filter_open_stamped.
  - intros s Hs. rewrite Hr. rewrite <- list_fmap_compose. apply list_elem_of_fmap.
    exists s. split; [|done]. simpl. by destruct (_ && _).
Qed.

Lemma reaped_times w w1 :
  store_inv (w_db w) (w_uuids w) → reaped w w1 → times_ok (session_state (w_db w)) (w_clock w) →
  times_ok (session_state (w_db w1)) (w_clock w1).
Proof.
  intros Hst Hr [Hc Ht]. pose proof (sessions_closed_rows _ _ _ _ _ (rp_closed _ _ Hr) (st_sessions _ _ Hst)) as Es.
  rewrite Es, (au_clock _ _ _ (sc_tables _ _ _ _ _ _ (rp_closed _ _ Hr))). split; [done|].
  intros s t (r&->&Hin)%list_elem_of_fmap Hs. apply (Ht r); [done|]. by destruct (_ && _).
Qed.

(** The sessions a reap closed. *)
Lemma reaped_over w w1 s :
  store_inv (w_db w) (w_uuids w) → reaped w w1 →
  s ∈ session_state (w_db w) → is_open s = true → due (w_clock w (w_ticks w)) s = true →
  over E_timeout w w1 s.
Proof.
  intros Hst [Hc _ _ _] Hs Ho Hd. eapply sessions_closed_over; [exact Hc| |exact Hd|].
  - apply list_elem_of_In, filter_In. split; [by apply list_elem_of_In|done].
  - destruct Hst as [_ _ _ Hb _]. rewrite Forall_forall in Hb. by apply Hb.
Qed.

Lemma reaped_tame reason w w1 : reaped w w1 → reason ≠ E_timeout → tame reason w w1.
Proof. intros [Hc _ _ _] Hne. by eapply sessions_closed_tame. Qed.

(** A held call of a session the reap left alone is still there. *)
Lemma reaped_held w w1 s h :
  store_inv (w_db w) (w_uuids w) → reaped w w1 → s ∈ session_state (w_db w) →
  (is_open s && due (w_clock w (w_ticks w)) s) = false →
  h ∈ held_tool_calls (w_db w) → hc_session_id h = ss_session_id s → h ∈ held_tool_calls (w_db w1).
Proof.
  intros Hst [[Ha _ _] _ _ _] Hs Hd Hh E. destruct Ha as [[rows ->] _ _ _ _ _].
  rewrite close_all_held. apply list_elem_of_In, filter_In. split; [by apply list_elem_of_In|].
  apply negb_true_iff, not_true_iff_false. rewrite E.
  intros (r&[Hr%list_elem_of_In Ho]%list_elem_of_In%filter_In&Hdr&Er)%listed_inv.
  assert (r = s) as -> by (eapply nodup_key; [apply Hst|..]; done). by rewrite Ho, Hdr in Hd.
Qed.

Lemma filter_key (rows : list SessionStateRow) (p : SessionStateRow → bool) a :
  NoDup (ss_session_id <$> rows) → a ∈ rows → p a = true →
  List.filter (λ r, p r && negb (negb (eqs (ss_session_id r) (ss_session_id a)))) rows = [a].
Proof.
  intros Hn Ha Hp. apply list_elem_of_split in Ha as (l1&l2&->).
  rewrite fmap_app, fmap_cons in Hn. apply NoDup_app in Hn as (_&H1&[H2 _]%NoDup_cons).
  rewrite List.filter_app. cbn [List.filter]. rewrite Hp, eqs_refl. cbn [negb andb].
  assert (∀ l, ss_session_id a ∉ ss_session_id <$> l →
    Forall (λ r, (p r && negb (negb (eqs (ss_session_id r) (ss_session_id a)))) = false) l) as Hf.
  { intros l Hl. apply Forall_forall. intros r Hr. rewrite negb_involutive.
    assert (eqs (ss_session_id r) (ss_session_id a) = false) as ->; [|by rewrite andb_false_r].
    apply eqs_false. intros E. apply Hl, list_elem_of_fmap. eauto. }
  rewrite list_filter_none, list_filter_none; [done|..]; apply Hf; [done|].
  intros Hx. apply (H1 _ Hx), list_elem_of_here.
Qed.
Lemma active_of_reaped w w1 :
  reaped w w1 →
  active_session (session_state (w_db w1)) = newest (w_clock w (w_ticks w)) (session_state (w_db w)).
Proof. intros [_ _ Ho _]. unfold active_session, newest. by rewrite Ho. Qed.

Lemma newest_in nowMs rows a :
  newest nowMs rows = Some a → a ∈ rows ∧ is_open a = true ∧ due nowMs a = false.
Proof.
  unfold newest. intros Ha%head_Some_elem_of. rewrite stable_sort_perm in Ha.
  apply list_elem_of_In, filter_In in Ha as [Hin Hl]. apply andb_true_iff in Hl as [? Hd].
  split_and!; [by apply list_elem_of_In|done|by apply negb_true_iff].
Qed.

(** The other open sessions of a store end as superseded. *)
Lemma wp_supersede_all a at_ w :
  store_inv (w_db w) (w_uuids w) → a ∈ session_state (w_db w) → is_open a = true →
  let others s := negb (eqs (ss_session_id s) (ss_session_id a)) in
  wp (for_each (supersede (ss_session_id a) at_) (List.filter is_open (session_state (w_db w))))
    (λ _ w', sessions_closed others (λ _, at_) E_superseded
       (List.filter is_open (session_state (w_db w))) w w' ∧
     List.filter is_open (session_state (w_db w')) = [a]) w.
Proof.
  intros Hst Ha Ho others.
  eapply wp_mono; [apply (wp_close_loop others (λ _, at_) E_superseded); [done|..]|].
  - apply filter_nodup, Hst.
  - intros s. apply open_in.
  - intros s w' Hs Hin Hst' _ _. unfold supersede, others.
    destruct (eqs (ss_session_id s) (ss_session_id a)); [by apply wp_ret|]. by apply wp_end_session.
  - intros [] w' Hc. cbv beta in Hc. split; [exact Hc|].
    rewrite (sessions_closed_rows _ _ _ _ _ Hc) by apply Hst. rewrite filter_open_stamped.
    apply filter_key; [apply Hst|done|done].
Qed.

Lemma create_tame reason s w w' :
  audited (add_session s) w w' → same_ends w w' → tame reason w w'.
Proof.
  intros Ha He. pose proof (audited_log _ _ _ Ha) as Hl. destruct Ha as [[rows E] _ _ _ _ _].
  split; [done|by intros|by rewrite E|]. rewrite E. intros r Hr. by exists r.
Qed.

(** Tables as in [w]: what a theorem about ticks leaves implicit. *)
Definition tick (w : World) : World :=
  mkWorld (w_db w) (w_clock w) (S (w_ticks w)) (w_uuids w) (w_turnInFlight w).

Lemma started_of d n s : store_inv d n → s ∈ session_state d → started (audit_log d) (ss_session_id s) = true.
Proof. intros [_ _ _ Hb _] Hs. rewrite Forall_forall in Hb. by apply Hb. Qed.

(** What an entry point that settles on the session [r] leaves. *)
Record resolved w w' (r : SessionStateRow) : Prop := {
  rs_store : store_inv (w_db w') (w_uuids w');
  rs_open : List.filter is_open (session_state (w_db w')) = [r];
  rs_which : match newest (w_clock w (w_ticks w)) (session_state (w_db w)) with
             | Some a => r = a
             | None => ss_session_id r ∉ ss_session_id <$> session_state (w_db w)
             end;
  rs_over s : s ∈ session_state (w_db w) → is_open s = true → s ≠ r →
    over (if due (w_clock w (w_ticks w)) s then E_timeout else E_superseded) w w' s;
  rs_settles : settles (audit_log (w_db w)) (audit_log (w_db w'));
}.

Lemma reaped_settles w w1 : reaped w w1 → settles (audit_log (w_db w)) (audit_log (w_db w1)).
Proof. intros Hr. exact (au_settles _ _ _ (sc_tables _ _ _ _ _ _ (rp_closed _ _ Hr))). Qed.

Lemma settles_trans l1 l2 l3 : settles l1 l2 → settles l2 l3 → settles l1 l3.
Proof. intros H1 H2 id. specialize (H1 id). specialize (H2 id). lia. Qed.

Lemma reaped_over_then w w1 w2 s :
  store_inv (w_db w) (w_uuids w) → reaped w w1 → tame E_timeout w1 w2 →
  s ∈ session_state (w_db w) → is_open s = true → due (w_clock w (w_ticks w)) s = true →
  over E_timeout w w2 s.
Proof.
  intros Hst Hr Ht Hs Ho Hd.
  destruct (audited_log _ _ _ (sc_tables _ _ _ _ _ _ (rp_closed _ _ Hr))) as [rows El].
  eapply (over_then _ _ w1); [by apply (reaped_over w w1)|exact El|by eapply started_of|exact Ht].
Qed.

Lemma reaped_live w w1 s :
  reaped w w1 → s ∈ session_state (w_db w) → is_open s = true → due (w_clock w (w_ticks w)) s = false →
  s ∈ List.filter is_open (session_state (w_db w1)).
Proof.
  intros Hr Hs Ho Hd. rewrite (rp_open _ _ Hr). apply list_elem_of_In, filter_In.
  split; [by apply list_elem_of_In|]. unfold live. by rewrite Ho, Hd.
Qed.

Lemma resolved_attach at_ w w1 w2 a :
  store_inv (w_db w) (w_uuids w) → reaped w w1 →
  newest (w_clock w (w_ticks w)) (session_state (w_db w)) = Some a →
  sessions_closed (λ s, negb (eqs (ss_session_id s) (ss_session_id a))) (λ _, at_) E_superseded
    (List.filter is_open (session_state (w_db w1))) (tick w1) w2 →
  List.filter is_open (session_state (w_db w2)) = [a] → resolved w w2 a.
Proof.
  intros Hst Hr En Hc Hopen. pose proof (rp_store _ _ Hr) as Hst1.
  pose proof (newest_in _ _ _ En) as (Ha&_&_). split; [|done|by rewrite En|..].
  - by eapply sessions_closed_store.
  - intros s Hs Hso Hne. destruct (due (w_clock w (w_ticks w)) s) eqn:Hd.
    + eapply reaped_over_then; try done.
      destruct (sessions_closed_tame _ _ E_timeout _ _ _ _ Hc ltac:(done)) as [? ? ? ?]. by split.
    + pose proof (reaped_live w w1 s Hr Hs Hso Hd) as Hs1.
      eapply (over_after _ _ w1); [by apply reaped_tame|by eapply started_of|..].
      { intros h Hh E. apply (reaped_held w w1 s h); try done. by rewrite Hd, andb_false_r. }
      destruct (sessions_closed_over _ _ _ _ _ _ s Hc Hs1) as [? ? ? ?]; [| |by split].
      * apply negb_true_iff, eqs_false. intros E. apply Hne. eapply nodup_key; [apply Hst|..]; done.
      * apply (started_of _ _ _ Hst1). by apply open_in.
  - apply (settles_trans _ _ _ (reaped_settles _ _ Hr)).
    exact (au_settles _ _ _ (sc_tables _ _ _ _ _ _ Hc)).
Qed.

Lemma resolved_create w w1 w2 agentId :
  store_inv (w_db w) (w_uuids w) → reaped w w1 →
  newest (w_clock w (w_ticks w)) (session_state (w_db w)) = None →
  let s0 := new_session (fresh_session (w_uuids w1)) (toISOString (w_clock w1 (w_ticks w1))) agentId in
  audited (add_session s0) w1 w2 → same_ends w1 w2 → store_inv (w_db w2) (w_uuids w2) →
  resolved w w2 s0.
Proof.
  intros Hst Hr En s0 Ha He Hst2.
  assert (List.filter is_open (session_state (w_db w1)) = []) as Hnil.
  { rewrite (rp_open _ _ Hr). apply head_None in En. apply (f_equal length) in En.
    rewrite stable_sort_length in En. by destruct (List.filter _ _). }
  split; [done|..].
  - destruct Ha as [[rows ->] _ _ _ _ _]. simpl. by rewrite List.filter_app, Hnil.
  - rewrite En. intros (x&Ex&Hx)%list_elem_of_fmap. apply (fresh_session_new w1 (rp_store _ _ Hr)).
    change (ss_session_id s0 ∈ ss_session_id <$> session_state (w_db w1)). rewrite Ex.
    by apply (rp_old _ _ Hr).
  - intros s Hs Hso _. destruct (due (w_clock w (w_ticks w)) s) eqn:Hd.
    + eapply reaped_over_then; try done. by eapply create_tame.
    + pose proof (reaped_live w w1 s Hr Hs Hso Hd) as Hs1. rewrite Hnil in Hs1. inversion Hs1.
  - exact (settles_trans _ _ _ (reaped_settles _ _ Hr) (au_settles _ _ _ Ha)).
Qed.

Lemma wp_resolve userId agentId o w Q :
  store_inv (w_db w) (w_uuids w) → times_ok (session_state (w_db w)) (w_clock w) →
  (∀ r w', resolved w w' r → Q (ss_session_id r) w') →
  wp (resolveActiveSession userId agentId o) Q w.
Proof.
  intros Hst Ht HQ. unfold resolveActiveSession. apply wp_bind, wp_reaped; [done..|].
  intros w1 Hr. apply wp_txn. unfold selectActiveSession. apply wp_bind, wp_select.
  rewrite (active_of_reaped _ _ Hr). pose proof (rp_store _ _ Hr) as Hst1.
  destruct (newest _ _) as [a|] eqn:En.
  - pose proof (newest_in _ _ _ En) as (Ha&Hao&Had).
    apply wp_bind, wp_nowISO. unfold selectOpenSessions. apply wp_bind, wp_select, wp_bind.
    eapply wp_mono; [apply (wp_supersede_all a _ (tick w1)); [exact Hst1| |done]|].
    { apply open_in. by apply (reaped_live w w1). }
    intros [] w2 [Hc Hopen]. apply wp_ret, HQ. by eapply resolved_attach.
  - apply wp_bind. eapply wp_mono; [by apply wp_create|]. intros p w2 Hc. cbv zeta in Hc.
    destruct Hc as (->&Ha&He&Hst2). apply wp_ret. cbn [fst].
    refine (HQ (new_session _ _ agentId) w2 _). by eapply resolved_create.
Qed.
(** *** The audit pass of the kill *)

Lemma wp_timeouts at_ l w :
  chain_inv (w_db w) (w_uuids w) →
  wp (for_each (λ h, when (negb (turnStateHasResolution (hc_turn_state h)))
        (writeHeldTimeoutOutcome (hc_pending_audit_entry_id h) at_)) l)
    (λ _ w', audited (λ d, d) w w' ∧ Forall (settled_held w w') l ∧ same_ends w w') w.
Proof.
  revert w. induction l as [|h l IH]; intros w Hi; cbn [for_each].
  { apply wp_ret. split_and!; [by apply audited_refl|constructor|done]. }
  apply wp_bind. eapply (wp_mono _ (λ _ w', audited (λ d, d) w w' ∧ settled_held w w' h ∧ same_ends w w')).
  { unfold settled_held, undecided, when. destruct (negb _) eqn:E.
    - eapply wp_mono; [by apply wp_timeout|]. intros _ w' (?&?&?). auto.
    - apply wp_ret. split_and!; [by apply audited_refl|done..]. }
  intros _ w1 (Ha&Hs&He). eapply wp_mono; [apply IH, (au_inv _ _ _ Ha)|].
  intros _ w2 (Hb&Hss&He'). split_and!; [exact (audited_trans _ _ _ _ _ Ha Hb)|constructor|].
  - exact (settled_held_mono _ _ _ _ _ _ _ (audited_refl _ Hi) Hb Hs).
  - eapply Forall_impl; [exact Hss|]. intros x Hx.
    exact (settled_held_mono _ _ _ _ _ _ _ Ha (audited_refl _ (au_inv _ _ _ Hb)) Hx).
  - intros reason sid. by rewrite He', He.
Qed.

Lemma wp_kill_sessions at_ w :
  store_inv (w_db w) (w_uuids w) → held_tool_calls (w_db w) = [] →
  let l := List.filter is_open (session_state (w_db w)) in
  wp (for_each (λ s, closeSession (ss_session_id s) E_kill at_) l)
    (λ _ w', sessions_closed (λ _, true) (λ _, at_) E_kill l w w') w.
Proof.
  intros Hst Hh l. apply wp_close_loop; [done|by apply filter_nodup, Hst|intros s; apply open_in|].
  intros s w' _ _ Hst' _ Hsub. rewrite Hh in Hsub.
  assert (held_tool_calls (w_db w') = []) as Hh'.
  { destruct (held_tool_calls (w_db w')) as [|h k]; [done|]. set_solver. }
  eapply wp_mono; [by apply wp_close_session, Hst'|]. intros _ w'' [[[rows E] ? ? ? ? ?] He].
  split_and!; [|exact He|].
  - split; [|done..]. exists rows. rewrite E. unfold close_db. f_equal. unfold drop_held.
    destruct (w_db w'). simpl in *. by subst.
  - intros h. rewrite Hh'. set_solver.
Qed.

(** TX1 and its effect. *)
Definition denied_all (d : Db) : Db :=
  set_held_tool_calls (λ _, [])
    (set_policy_entries (delete_where (λ r, negb (is_policy WILDCARD_DENY_ID r))) d).
#[export] Instance off_log_denied : OffLog denied_all.
Proof. by intros h d. Qed.

Lemma store_inv_denied d n : store_inv d n → store_inv (denied_all d) n.
Proof. intros [? ? ? ? ?]. split; try done. constructor. Qed.

Lemma wp_kill w Q :
  store_inv (w_db w) (w_uuids w) →
  (∀ w', store_inv (w_db w') (w_uuids w') →
     policy_entries (w_db w') = List.filter (is_policy WILDCARD_DENY_ID) (policy_entries (w_db w)) →
     held_tool_calls (w_db w') = [] →
     List.filter is_open (session_state (w_db w')) = [] →
     Forall (settled_held w w') (held_tool_calls (w_db w)) →
     settles (audit_log (w_db w)) (audit_log (w_db w')) →
     (∀ s, s ∈ session_state (w_db w) → is_open s = true →
        ends_in E_kill (audit_log (w_db w')) (ss_session_id s) =
        S (ends_in E_kill (audit_log (w_db w)) (ss_session_id s))) → Q tt w') →
  wp killSwitch Q w.
Proof.
  intros Hst HQ. unfold killSwitch, selectHeldCallAuditRefs, selectOpenSessions.
  apply wp_bind, wp_nowISO. do 2 apply wp_bind, wp_select. apply wp_bind.
  unfold killDenyAll, deletePolicyEntriesExcept, deleteAllHeldToolCalls.
  apply wp_txn, wp_bind, wp_modify, wp_modify. cbn [w_db].
  set (at_ := toISOString _). set (w0 := with_db _ _).
  assert (store_inv (w_db w0) (w_uuids w0)) as Hst0 by by apply (store_inv_denied (w_db w)).
  apply wp_try, wp_txn, wp_bind. eapply wp_mono; [apply wp_timeouts, Hst0|].
  intros _ w1 (Ha&Hs&He). pose proof Ha as [[rows E] Hi Hcl Hg Hu Hset].
  assert (store_inv (w_db w1) (w_uuids w1)) as Hst1
    by (refine (store_inv_audited _ _ _ Ha _ Hst0); by intros).
  assert (session_state (w_db w1) = session_state (w_db w)) as Es by by rewrite E.
  rewrite <- Es.
  eapply wp_mono; [apply wp_kill_sessions; [done|by rewrite E]|]. intros [] w2 Hc.
  cbv beta zeta in Hc. pose proof (sc_tables _ _ _ _ _ _ Hc) as Hb.
  apply HQ.
  - by eapply sessions_closed_store.
  - destruct Hb as [[rows2 ->] _ _ _ _ _]. rewrite off_log.
    cbn [policy_entries set_audit_log]. rewrite close_all_policy, E. cbn.
    unfold delete_where. apply List.filter_ext. intros r.
    apply negb_involutive.
  - destruct Hb as [[rows2 ->] _ _ _ _ _]. rewrite close_all_held. simpl. by rewrite E.
  - rewrite (sessions_closed_rows _ _ _ _ _ Hc) by apply Hst1. rewrite filter_open_stamped.
    apply list_filter_none, Forall_true. intros r. apply andb_false_r.
  - eapply Forall_impl; [exact Hs|]. intros h Hh.
    exact (settled_held_mono _ _ w0 w0 w1 _ _ (audited_refl w0 (st_chain _ _ Hst0)) Hb Hh).
  - exact (settles_trans _ _ _ Hset (au_settles _ _ _ Hb)).
  - intros s Hs' Ho. rewrite <- Es in Hs'.
    rewrite (ov_end _ _ _ _ (sessions_closed_over _ _ _ _ _ _ s Hc
      (proj2 (list_elem_of_In _ _) (proj2 (filter_In _ _ _) (conj (proj1 (list_elem_of_In _ _) Hs') Ho)))
      eq_refl (started_of _ _ _ Hst1 Hs'))). by rewrite He.
Qed.
End life.

(** ** Properties *)

Section properties.
Context `{Platform} `{!PlatformLaws _}.

(** One active session. From any store with the life cycle's invariants,
    resolving the active session always succeeds and leaves exactly one open
    session: the newest one still inside its 90 minutes, or a new one when
    there is none. Every other open session is over: it gained exactly one
    [session.end] with the reason that applies (timeout past its cap,
    superseded before), its held calls are gone and their undecided actions
    closed, its runs are terminal. No decision gains a second closer. *)
Theorem single_active_session userId agentId o w :
  store_inv (w_db w) (w_uuids w) → times_ok (session_state (w_db w)) (w_clock w) →
  let nowMs := w_clock w (w_ticks w) in
  let rows := session_state (w_db w) in
  ∃ r w', resolveActiveSession userId agentId o w = (Ok (ss_session_id r), w') ∧
    store_inv (w_db w') (w_uuids w') ∧
    List.filter is_open (session_state (w_db w')) = [r] ∧
    match newest nowMs rows with
    | Some a => r = a
    | None => ss_session_id r ∉ ss_session_id <$> rows
    end ∧
    (∀ s, s ∈ rows → is_open s = true → s ≠ r →
       over (if due nowMs s then E_timeout else E_superseded) w w' s) ∧
    settles (audit_log (w_db w)) (audit_log (w_db w')).
Proof.
  intros Hst Ht nowMs rows.
  assert (wp (resolveActiveSession userId agentId o)
    (λ sid w', ∃ r, sid = ss_session_id r ∧ resolved w w' r) w) as Hw.
  { apply wp_resolve; [done..|]. intros r w' Hr. eauto. }
  apply wp_run in Hw as (sid&w'&E&r&->&[? ? ? ? ?]). exists r, w'. by split_and!.
Qed.

(** The reaper. It always succeeds, and ends exactly the open sessions
    whose 90 minutes have passed at the instant it reads, stamping each with the
    end of its own cap and not with that instant; a session whose anchor does
    not parse ends at once. Live sessions, their held calls and their runs are
    untouched; the ended ones are over. *)
Theorem reaper_exact w :
  store_inv (w_db w) (w_uuids w) → times_ok (session_state (w_db w)) (w_clock w) →
  let nowMs := w_clock w (w_ticks w) in
  let rows := session_state (w_db w) in
  let reap s := is_open s && due nowMs s in
  ∃ w', reapExpiredSessions w = (Ok tt, w') ∧
    store_inv (w_db w') (w_uuids w') ∧
    session_state (w_db w') = (λ s, if reap s then end_row (expiry_stamp nowMs s) s else s) <$> rows ∧
    (∀ s, s ∈ rows → reap s = true → over E_timeout w w' s) ∧
    (∀ s h, s ∈ rows → reap s = false → hc_session_id h = ss_session_id s →
       h ∈ held_tool_calls (w_db w) → h ∈ held_tool_calls (w_db w')) ∧
    settles (audit_log (w_db w)) (audit_log (w_db w')).
Proof.
  intros Hst Ht nowMs rows reap. apply wp_returns, wp_reaped; [done..|]. intros w' Hr.
  assert (session_state (w_db w') = (λ s, if reap s then end_row (expiry_stamp nowMs s) s else s) <$> rows)
    as Hrows by (apply (sessions_closed_rows _ _ _ _ _ (rp_closed _ _ Hr)), Hst).
  split_and!; [apply Hr|exact Hrows|..].
  - intros s Hs [Ho Hd]%andb_true_iff. by apply reaped_over.
  - intros s h Hs Hn E Hh. by apply (reaped_held w w' s h).
  - by apply reaped_settles.
Qed.

(** The kill switch denies everything. From any store whatever, it reports
    success, and afterwards the only policy rows are the floor's, no held call
    is left and every connection is intact, whether or not its audit pass
    succeeded. *)
Theorem kill_switch_denies w :
  ∃ w', killSwitch w = (Ok tt, w') ∧
    policy_entries (w_db w') = List.filter (is_policy WILDCARD_DENY_ID) (policy_entries (w_db w)) ∧
    held_tool_calls (w_db w') = [] ∧ connected_services (w_db w') = connected_services (w_db w).
Proof.
  set (J := λ (d : Db) (_ : nat), policy_entries d = List.filter (is_policy WILDCARD_DENY_ID) (policy_entries (w_db w)) ∧
    held_tool_calls d = [] ∧ connected_services d = connected_services (w_db w)).
  assert (Supply J) by (by intros d n m _).
  unfold killSwitch, nowISO, now, selectHeldCallAuditRefs, selectOpenSessions, select.
  unfold mbind, M_bind, mret, M_ret. cbv beta iota zeta. cbn [w_db].
  unfold killDenyAll, deletePolicyEntriesExcept, deleteAllHeldToolCalls, transactionSync at 1, modify.
  unfold mbind, M_bind. cbv beta iota zeta.
  match goal with |- context [try_catch ?m ?h ?w0] => set (audit := m); set (w1 := w0) end.
  assert (J (w_db w1) (w_uuids w1)) as Hj.
  { split_and!; [|done..]. simpl. unfold delete_where. apply List.filter_ext. intros r. apply negb_involutive. }
  assert (keeps J audit) as Hk.
  { assert (∀ params ref, keeps J (insertRow params ref)) as Hi.
    { intros. apply keeps_insertRow_frame; [done|]. by intros f d n. }
    unfold audit, killAudit, writeHeldTimeoutOutcome, auditEntryIdentity, readAuditEntryIdentity,
      closeDecisionEntryInTxn, hasCloserInTxn, closeSession, sessionIdentity, readSessionStartIdentity,
      writeSessionEnd, readSessionStartIdentity, insertAuditEntryInTxn, markRunsExpiredForSession,
      markSessionEnded.
    keeps_tac. all: by intros d n. }
  destruct (Hk w1 Hj) as [Hj' _]. unfold try_catch. destruct (audit w1) as [[[]|e] w2]; by exists w2.
Qed.

(** The kill switch settles what it stops. On a store with the life cycle's
    invariants its audit pass succeeds: no session stays open, each one that
    was gained exactly one [session.end] for the kill, every undecided held
    action is closed, and no decision gains a second closer. *)
Theorem kill_switch_settles w :
  store_inv (w_db w) (w_uuids w) →
  ∃ w', killSwitch w = (Ok tt, w') ∧
    store_inv (w_db w') (w_uuids w') ∧
    List.filter is_open (session_state (w_db w')) = [] ∧
    (∀ s, s ∈ session_state (w_db w) → is_open s = true →
       ends_in E_kill (audit_log (w_db w')) (ss_session_id s) =
       S (ends_in E_kill (audit_log (w_db w)) (ss_session_id s))) ∧
    Forall (settled_held w w') (held_tool_calls (w_db w)) ∧
    settles (audit_log (w_db w)) (audit_log (w_db w')).
Proof.
  intros Hst. apply wp_returns, wp_kill; [done|]. intros w' ???????. by split_and!.
Qed.
End properties.

(** ** Concrete stores *)

(** A clock that advances ten minutes a reading and starts over after a day. *)
Definition day_world : World :=
  mkWorld empty_db (λ n, 1767225600000 + 600000 * Z.of_nat (n mod 144)) 0 0 false.
(** Two sessions opened twenty minutes apart. *)
Definition two_sessions : World :=
  snd (createSessionInTxn (js "u") (js "agent-b") O_human
    (snd (createSessionInTxn (js "u") (js "agent-a") O_mcp_commission day_world))).

Lemma day_world_inv : store_inv (w_db day_world) (w_uuids day_world).
Proof. split; [by apply fresh_inv|constructor..]. Qed.

Lemma create_keeps_store `{PlatformLaws} userId agentId o w :
  store_inv (w_db w) (w_uuids w) →
  store_inv (w_db (snd (createSessionInTxn userId agentId o w)))
    (w_uuids (snd (createSessionInTxn userId agentId o w))).
Proof.
  intros Hst. pose proof (wp_create userId agentId o w Hst) as Hw. unfold wp in Hw.
  destruct (createSessionInTxn _ _ _ _) as [[p|e] w']; [|done]. by destruct Hw as (_&_&_&?).
Qed.

Lemma two_sessions_inv : store_inv (w_db two_sessions) (w_uuids two_sessions).
Proof. do 2 apply create_keeps_store. apply day_world_inv. Qed.

Lemma two_sessions_times : times_ok (session_state (w_db two_sessions)) (w_clock two_sessions).
Proof.
  split.
  - intros n. change (in_range (1767225600000 + 600000 * Z.of_nat (n mod 144))).
    pose proof (Nat.mod_upper_bound n 144 ltac:(done)). unfold in_range. lia.
  - assert (forallb (λ s, match dateOf (ss_started_at s) with
      | Some t => Z.abs (t + SESSION_LIFETIME_MS) <=? 8640000000000000 | None => true end)
      (session_state (w_db two_sessions)) = true) as Hf by (vm_compute; reflexivity).
    rewrite forallb_forall in Hf. intros s t Hs%list_elem_of_In E. specialize (Hf s Hs).
    rewrite E in Hf. by apply Z.leb_le in Hf.
Qed.

Lemma single_active_session_witness :
  let w := two_sessions in
  let nowMs := w_clock w (w_ticks w) in
  let rows := session_state (w_db w) in
  length rows = 2%nat ∧
  ∃ r w', resolveActiveSession (js "u") (js "agent-c") None w = (Ok (ss_session_id r), w') ∧
    store_inv (w_db w') (w_uuids w') ∧
    List.filter is_open (session_state (w_db w')) = [r] ∧
    match newest nowMs rows with
    | Some a => r = a
    | None => ss_session_id r ∉ ss_session_id <$> rows
    end ∧
    (∀ s, s ∈ rows → is_open s = true → s ≠ r →
       over (if due nowMs s then E_timeout else E_superseded) w w' s) ∧
    settles (audit_log (w_db w)) (audit_log (w_db w')).
Proof.
  intros w nowMs rows. split; [reflexivity|].
  exact (single_active_session (js "u") (js "agent-c") None w two_sessions_inv two_sessions_times).
Defined.

Lemma reaper_exact_witness :
  let w := two_sessions in
  let nowMs := w_clock w (w_ticks w) in
  let rows := session_state (w_db w) in
  let reap s := is_open s && due nowMs s in
  ∃ w', reapExpiredSessions w = (Ok tt, w') ∧
    store_inv (w_db w') (w_uuids w') ∧
    session_state (w_db w') = (λ s, if reap s then end_row (expiry_stamp nowMs s) s else s) <$> rows ∧
    (∀ s, s ∈ rows → reap s = true → over E_timeout w w' s) ∧
    (∀ s h, s ∈ rows → reap s = false → hc_session_id h = ss_session_id s →
       h ∈ held_tool_calls (w_db w) → h ∈ held_tool_calls (w_db w')) ∧
    settles (audit_log (w_db w)) (audit_log (w_db w')).
Proof. intros w nowMs rows reap. exact (reaper_exact w two_sessions_inv two_sessions_times). Defined.

Lemma kill_switch_settles_witness :
  let w := two_sessions in
  length (List.filter is_open (session_state (w_db w))) = 2%nat ∧
  ∃ w', killSwitch w = (Ok tt, w') ∧
    store_inv (w_db w') (w_uuids w') ∧
    List.filter is_open (session_state (w_db w')) = [] ∧
    (∀ s, s ∈ session_state (w_db w) → is_open s = true →
       ends_in E_kill (audit_log (w_db w')) (ss_session_id s) =
       S (ends_in E_kill (audit_log (w_db w)) (ss_session_id s))) ∧
    Forall (settled_held w w') (held_tool_calls (w_db w)) ∧
    settles (audit_log (w_db w)) (audit_log (w_db w')).
Proof. intros w. split; [reflexivity|]. exact (kill_switch_settles w two_sessions_inv). Defined.
