(* ===== verification/Frames.v ===== *)
(** * What the session life cycle keeps

    An invariant of the tables that survives an audit row, the three changes a
    close makes and the creation of a session survives every operation of the
    life cycle, whether it returns or throws. [SessionFrame] states those
    obligations once; each later component discharges them for its own
    invariant and gets the operations back. *)

From S2P Require Export Sessions.
Open Scope Z_scope.

Class SessionFrame `{Platform} (J : Db → nat → Prop) : Prop := {
  sf_supply :: Supply J;
  sf_insert params ref : p_epochId params = None → keeps J (insertRow params ref);
  sf_stop sid t d n : J d n → J (stop_runs sid t d) n;
  sf_stamp sid t d n : J d n → J (stamp_session sid t d) n;
  sf_drop p d n : J d n → J (drop_held p d) n;
  sf_create userId agentId o : keeps J (createSessionInTxn userId agentId o);
}.

Section frame.
Context `{Platform} (J : Db → nat → Prop) `{!SessionFrame J}.

Lemma frame_close params basis :
  p_epochId (rp_fields params) = None → keeps J (closeDecisionEntryInTxn params basis).
Proof.
  intros He. pose proof (sf_insert (rp_fields params) (Some (rp_decisionEntryId params)) He).
  unfold closeDecisionEntryInTxn, hasCloserInTxn. keeps_tac.
Qed.

Lemma frame_entry params : p_epochId params = None → keeps J (insertAuditEntryInTxn params).
Proof. intros He. by apply sf_insert. Qed.

Lemma frame_timeout pending t : keeps J (writeHeldTimeoutOutcome pending t).
Proof.
  unfold writeHeldTimeoutOutcome, auditEntryIdentity, readAuditEntryIdentity. keeps_tac.
  by apply frame_close.
Qed.
Hint Resolve frame_timeout : wb.

Lemma frame_closeSession sid reason t : keeps J (closeSession sid reason t).
Proof.
  unfold closeSession, sessionIdentity, writeSessionEnd, readSessionStartIdentity,
    markRunsExpiredForSession, markSessionEnded.
  keeps_tac; try (by apply frame_entry); [apply sf_stop|apply sf_stamp].
Qed.
Hint Resolve frame_closeSession : wb.

Lemma frame_sweep t h : keeps J (sweepHeld t h).
Proof. unfold sweepHeld, deleteHeldToolCall. keeps_tac. apply sf_drop. Qed.
Hint Resolve frame_sweep : wb.

Lemma frame_endRow sid reason t : keeps J (endSessionRowInTxn sid reason t).
Proof. unfold endSessionRowInTxn, selectHeldCallsForSession. keeps_tac. Qed.
Hint Resolve frame_endRow : wb.

Lemma frame_reap : keeps J reapExpiredSessions.
Proof.
  unfold reapExpiredSessions, selectOpenSessions, reapOne, sessionStartedAt, readSessionStartedAt,
    selectHeldCallsForSession. keeps_tac.
Qed.
Hint Resolve frame_reap sf_create : wb.

Lemma frame_resolve userId agentId o : keeps J (resolveActiveSession userId agentId o).
Proof. unfold resolveActiveSession, selectActiveSession, selectOpenSessions, supersede. keeps_tac. Qed.

Lemma frame_view sid t : keeps J (activeSessionView sid t).
Proof. unfold activeSessionView. keeps_tac. Qed.
Hint Resolve frame_view : wb.

Lemma frame_active : keeps J getActiveSession.
Proof. unfold getActiveSession, selectActiveSession. keeps_tac. Qed.

Lemma frame_start userId agentId : keeps J (startSession userId agentId).
Proof. unfold startSession, selectActiveSession. keeps_tac. Qed.

Lemma frame_end reason : keeps J (endSession reason).
Proof. unfold endSession, selectActiveSession. keeps_tac. Qed.

Lemma frame_expired sid : keeps J (holdExpired sid).
Proof. unfold holdExpired, sessionStartedAt, readSessionStartedAt. keeps_tac. Qed.
Hint Resolve frame_expired : wb.

Lemma frame_loadHeld id : keeps J (loadHeldCall id).
Proof. unfold loadHeldCall, readHeldCall. keeps_tac. Qed.

Lemma frame_unresolved p : keeps J (unresolvedHeldCallIds p).
Proof.
  unfold unresolvedHeldCallIds, selectHeldCalls. keeps_tac.
  match goal with |- keeps _ (filterUnresolved ?x) => induction x; simpl end; keeps_tac.
Qed.

Lemma frame_kill :
  (∀ d n, J d n →
     J (set_policy_entries (delete_where (λ r, negb (is_policy WILDCARD_DENY_ID r))) d) n) →
  (∀ d n, J d n → J (set_held_tool_calls (λ _, []) d) n) → keeps J killSwitch.
Proof.
  intros Hp Hh. unfold killSwitch, selectHeldCallAuditRefs, selectOpenSessions, killDenyAll, killAudit,
    deletePolicyEntriesExcept, deleteAllHeldToolCalls. keeps_tac.
Qed.
End frame.
#[export] Hint Resolve frame_timeout frame_closeSession frame_sweep frame_endRow frame_reap
  frame_resolve frame_view frame_active frame_start frame_end frame_expired frame_loadHeld
  frame_unresolved : wb.
#[export] Hint Extern 1 (SessionFrame _) => apply _ : wb.

(** An invariant that reads none of the tables a life-cycle operation writes. *)
Class OffSessions (J : Db → nat → Prop) : Prop := {
  os_supply :: Supply J;
  os_log f d n : J d n → J (set_audit_log f d) n;
  os_sessions f d n : J d n → J (set_session_state f d) n;
  os_runs f d n : J d n → J (set_commission_runs f d) n;
  os_held p d n : J d n → J (drop_held p d) n;
}.

#[export] Instance off_sessions_frame `{Platform} J `{!OffSessions J} : SessionFrame J.
Proof.
  assert (∀ params ref, keeps J (insertRow params ref)) as Hi.
  { intros. apply keeps_insertRow_frame; [apply _|]. intros. by apply os_log. }
  split; [apply _|by intros|..].
  - intros. by apply os_runs.
  - intros. by apply os_sessions.
  - intros. by apply os_held.
  - intros. unfold createSessionInTxn, insertSessionState, insertAuditEntryInTxn.
    keeps_tac. intros. by apply os_sessions.
Qed.

#[export] Instance off_sessions_any : OffSessions (λ _ _, True).
Proof. by split; [intros d n m|..]. Qed.

(** The life cycle's own invariant. *)
Section store.
Context `{Platform} `{!PlatformLaws _}.

Lemma wp_keeps J {A} (m : M A) :
  keeps (λ _ _, True) m →
  (∀ w, J (w_db w) (w_uuids w) → wp m (λ _ w', J (w_db w') (w_uuids w')) w) → keeps J m.
Proof.
  intros Ht Hm w Hw. specialize (Hm w Hw). split; [|by apply Ht]. unfold wp in Hm.
  by destruct (m w) as [[a|e] w'].
Qed.

(** A run that keeps [J] may assume it after. *)
Lemma wp_kept J {A} (m : M A) Q w :
  keeps J m → J (w_db w) (w_uuids w) →
  wp m (λ a w', J (w_db w') (w_uuids w') → moved w w' → Q a w') w → wp m Q w.
Proof.
  intros Hk Hw. specialize (Hk w Hw). unfold wp. destruct (m w) as [[a|e] w']; [|done].
  simpl in Hk. naive_solver.
Qed.

#[export] Instance store_inv_frame : SessionFrame store_inv.
Proof.
  split; [apply _|..].
  - intros params ref He. apply wp_keeps; [by apply sf_insert|]. intros w Hst.
    apply wp_insertRow; [apply Hst|done|]. intros row r w' Hw. rewrite (written_uuids _ _ _ _ _ _ Hw).
    destruct Hst as [_ H2 H3 H4 H5]. pose proof (written_inv _ _ _ _ _ _ Hw) as Hi.
    rewrite (written_uuids _ _ _ _ _ _ Hw) in Hi. rewrite (written_db _ _ _ _ _ _ Hw) in Hi |- *.
    split; simpl; [exact Hi|done|..|done].
    + eapply Forall_impl; [exact H3|]. intros x (k&?&?). exists k. split; [lia|done].
    + eapply Forall_impl; [exact H4|]. intros x. apply started_app.
  - intros sid t d n [? ? ? ? ?]. by split.
  - intros sid t d n [H1 H2 H3 H4 H5].
    unfold stamp_session. split; simpl; [done|by rewrite update_where_ids|..|done];
      unfold update_where; apply Forall_fmap;
      [eapply Forall_impl; [exact H3|]|eapply Forall_impl; [exact H4|]];
      intros r Hr; simpl; by destruct (is_session sid r).
  - intros p d n [? ? ? ? ?]. split; try done. by apply filter_nodup.
  - intros u a o. apply wp_keeps; [by apply sf_create|]. intros w Hst.
    eapply wp_mono; [by apply wp_create|]. by intros p w' (_&_&_&?).
Qed.
End store.
