(* ===== verification/Paging.v ===== *)
(** * Keyset pages of the audit chain and of the task list

    [listAuditEntries] and [listTasks] of
    [packages/engine/src/agent/user-agent.ts], with their limit clamps and their
    opaque cursors, and the summary a task row is projected to. The file proves
    that a cursor decodes to the row it was made from, and that following the
    cursors of a store delivers every row exactly once, newest first, and
    stops. *)

From S2P Require Export Sessions.
Open Scope Z_scope.

(** ** Limits *)

(** A client's [?limit=]: [Number] of its text, when it is finite. *)
Inductive limit_number := NotFinite | Finite (x : jsnum).

(** [Math.floor]: a finite number is an integer exactly when its shortest
    decimal is. *)
Definition floor (x : jsnum) : Z :=
  if 0 <=? num_exp x then num_sig x * 10 ^ num_exp x else num_sig x / 10 ^ (- num_exp x).

Definition TASK_LIST_DEFAULT_LIMIT : Z := 50.
Definition TASK_LIST_MAX_LIMIT : Z := 200.
Definition AUDIT_PAGE_DEFAULT_LIMIT : Z := 20.
Definition AUDIT_PAGE_MAX_LIMIT : Z := 200.

Definition clampTaskListLimit (limit : option limit_number) : Z :=
  match limit with
  | None | Some NotFinite => TASK_LIST_DEFAULT_LIMIT
  | Some (Finite x) =>
      let n := floor x in
      if n <? 1 then 1 else if TASK_LIST_MAX_LIMIT <? n then TASK_LIST_MAX_LIMIT else n
  end.
Definition clampAuditPageLimit (limit : option limit_number) : Z :=
  match limit with
  | None | Some NotFinite => AUDIT_PAGE_DEFAULT_LIMIT
  | Some (Finite x) =>
      let n := floor x in
      if n <? 1 then 1 else if AUDIT_PAGE_MAX_LIMIT <? n then AUDIT_PAGE_MAX_LIMIT else n
  end.

Example clamp_examples :
  clampAuditPageLimit (Some (Finite (JsNum 1 6))) = 200 ∧
  clampAuditPageLimit (Some (Finite (JsNum 25 (-1)))) = 2 ∧
  clampAuditPageLimit (Some (Finite (JsNum (-5) (-1)))) = 1 ∧
  clampTaskListLimit None = 50.
Proof. by split_and!. Qed.

(** ** Cursors *)

Definition bar : N := 124.

(** The text before and after the first [|]. *)
Fixpoint cut_bar (s : jsstr) : option (jsstr * jsstr) :=
  match s with
  | [] => None
  | c :: s' =>
      if (c =? bar)%N then Some ([], s')
      else match cut_bar s' with Some (a, b) => Some (c :: a, b) | None => None end
  end.

(** [/^\d+$/] and [Number.isSafeInteger(Number(raw))]. *)
Definition sequence_number (raw : jsstr) : option Z :=
  if negb (bool_decide (raw ≠ []) && forallb is_digit raw) then None
  else let n := Z.of_N (undec raw) in if safe_int n then Some n else None.

Definition encodeAuditCursor (epochId : jsstr) (sequenceNum : Z) : option jsstr :=
  btoa (epochId ++ [bar] ++ int_to_string sequenceNum).
Definition decodeAuditCursor (cursor : option jsstr) : option (jsstr * Z) :=
  match cursor with
  | None | Some [] => None
  | Some c =>
      '(epoch, raw) ← atob c ≫= cut_bar; n ← sequence_number raw; Some (epoch, n)
  end.

Definition encodeTaskCursor (createdAt id : jsstr) : option jsstr := btoa (createdAt ++ [bar] ++ id).
Definition decodeTaskCursor (cursor : option jsstr) : option (jsstr * jsstr) :=
  match cursor with
  | None | Some [] => None
  | Some c => atob c ≫= cut_bar
  end.

(** ** The audit pages *)

Record AuditListResponse := mkAuditList {
  entries : list ChainEntry;
  al_nextCursor : option jsstr;
}.

(** A page from [limit + 1] rows: [None] where [btoa] throws. *)
Definition audit_response (log : list AuditLogRow) (limit : Z) (before : option (jsstr * Z))
    : option AuditListResponse :=
  let rows := chain_page log (limit + 1) before in
  let hasMore := limit <? Z.of_nat (length rows) in
  let page := if hasMore then take (Z.to_nat limit) rows else rows in
  match hasMore, last page with
  | true, Some e =>
      next ← encodeAuditCursor (h_epochId e) (h_sequenceNum e);
      Some (mkAuditList page (Some next))
  | _, _ => Some (mkAuditList page None)
  end.

Definition invalid_character : exn := Exn (js "InvalidCharacterError").
Definition or_throw {A} (o : option A) : M A :=
  match o with Some a => mret a | None => throw invalid_character end.

Definition listAuditEntries (limit : option limit_number) (cursor : option jsstr)
    : M AuditListResponse :=
  r ← select (λ d, audit_response (audit_log d) (clampAuditPageLimit limit) (decodeAuditCursor cursor));
  or_throw r.

(** ** Task summaries *)

(** White space and line terminators, what [trim] removes. *)
Definition is_space (c : N) : bool :=
  ((9 <=? c) && (c <=? 13) || (c =? 32) || (c =? 0xA0) || (c =? 0x1680) ||
   (0x2000 <=? c) && (c <=? 0x200A) || (c =? 0x2028) || (c =? 0x2029) || (c =? 0x202F) ||
   (c =? 0x205F) || (c =? 0x3000) || (c =? 0xFEFF))%N.
Fixpoint trim_start (s : jsstr) : jsstr :=
  match s with
  | c :: s' => if is_space c then trim_start s' else s
  | [] => []
  end.
Definition trim (s : jsstr) : jsstr := rev (trim_start (rev (trim_start s))).

(** [s.split(/\r?\n/, 1)[0]]. *)
Fixpoint first_line (s : jsstr) : jsstr :=
  match s with
  | [] => []
  | c :: s' =>
      if (c =? 10)%N then []
      else match s' with
           | d :: _ => if (c =? 13)%N && (d =? 10)%N then [] else c :: first_line s'
           | [] => [c]
           end
  end.

(** [[...s]]: the code points, each as its code units. *)
Fixpoint code_points (s : jsstr) : list jsstr :=
  match s with
  | [] => []
  | c :: rest =>
      if is_high c then
        match rest with
        | d :: rest' => if is_low d then [c; d] :: code_points rest' else [c] :: code_points rest
        | [] => [[c]]
        end
      else [c] :: code_points rest
  end.

Definition deriveTaskLabel (goal : jsstr) : jsstr :=
  let firstLine := trim (first_line goal) in
  let base := if bool_decide (firstLine ≠ []) then firstLine else trim goal in
  let chars := code_points base in
  if (80 <? length chars)%nat then mjoin (take 79 chars) ++ [0x2026%N] else base.

Record TaskSummary := mkTask {
  ts_taskId : jsstr;
  ts_origin : origin;
  ts_status : run_status;
  ts_label : jsstr;
  ts_goal : jsstr;
  ts_createdAt : jsstr;
  ts_updatedAt : jsstr;
}.
Definition taskSummaryFromRow (row : CommissionRunsRow) : TaskSummary :=
  mkTask (cr_run_id row) (cr_origin row) (cr_status row)
    (default (deriveTaskLabel (cr_goal row)) (cr_label row)) (cr_goal row)
    (cr_created_at row) (cr_updated_at row).

Example label_examples :
  deriveTaskLabel (js "  buy milk  ") = js "buy milk" ∧
  deriveTaskLabel (js "one" ++ [13; 10]%N ++ js "two") = js "one" ∧
  deriveTaskLabel ([10; 10]%N ++ js "two") = js "two" ∧
  length (code_points (deriveTaskLabel (replicate 100 97%N))) = 80%nat.
Proof. by split_and!. Qed.

Record TasksListResponse := mkTasksList {
  tasks : list TaskSummary;
  tl_nextCursor : option jsstr;
}.

Definition task_response (rows : list CommissionRunsRow) (limit : Z) (before : option (jsstr * jsstr))
    : option TasksListResponse :=
  let rows := run_page rows (limit + 1) before in
  let hasMore := limit <? Z.of_nat (length rows) in
  let page := if hasMore then take (Z.to_nat limit) rows else rows in
  match hasMore, last page with
  | true, Some r =>
      next ← encodeTaskCursor (cr_created_at r) (cr_run_id r);
      Some (mkTasksList (taskSummaryFromRow <$> page) (Some next))
  | _, _ => Some (mkTasksList (taskSummaryFromRow <$> page) None)
  end.

Section tasks.
Context `{Platform}.

Definition listTasks (limit : option limit_number) (cursor : option jsstr) : M TasksListResponse :=
  reapExpiredSessions ;;
  r ← select (λ d, task_response (commission_runs d) (clampTaskListLimit limit) (decodeTaskCursor cursor));
  or_throw r.
End tasks.

(** ** Facts: cursors *)

Lemma cut_bar_app a b : bar ∉ a → cut_bar (a ++ bar :: b) = Some (a, b).
Proof.
  induction a as [|c a IH]; cbn [cut_bar app]; [done|].
  rewrite not_elem_of_cons. intros [Hc Ha]. rewrite IH by done.
  by destruct (N.eqb_spec c bar).
Qed.

Lemma sequence_number_dec z : 0 <= z → safe_int z = true → sequence_number (int_to_string z) = Some z.
Proof. intros Hz Hs. rewrite <- (parse_dec z Hz Hs). done. Qed.

Lemma audit_cursor_decodes e n :
  latin1 e → bar ∉ e → 0 <= n → safe_int n = true →
  ∃ c, encodeAuditCursor e n = Some c ∧ decodeAuditCursor (Some c) = Some (e, n).
Proof.
  intros He Hb Hn Hs. unfold encodeAuditCursor.
  destruct (atob_btoa (e ++ [bar] ++ int_to_string n)) as (c&Ec&Ed).
  { apply Forall_app. split; [done|]. constructor; [done|].
    apply ascii_latin1, int_to_string_ascii. }
  exists c. split; [done|]. unfold decodeAuditCursor.
  destruct c as [|x c]; [by apply btoa_nonempty in Ec; [|destruct e]|].
  rewrite Ed. simpl. rewrite cut_bar_app by done. simpl. by rewrite sequence_number_dec.
Qed.

Lemma task_cursor_decodes t i :
  latin1 t → latin1 i → bar ∉ t →
  ∃ c, encodeTaskCursor t i = Some c ∧ decodeTaskCursor (Some c) = Some (t, i).
Proof.
  intros Ht Hi Hb. unfold encodeTaskCursor. destruct (atob_btoa (t ++ [bar] ++ i)) as (c&Ec&Ed).
  { apply Forall_app. split; [done|]. by constructor. }
  exists c. split; [done|]. unfold decodeTaskCursor.
  destruct c as [|x c]; [by apply btoa_nonempty in Ec; [|destruct t]|].
  rewrite Ed. simpl. by apply cut_bar_app.
Qed.

(** ** Facts: the pages of a chained log *)

Section pages.
Context `{Platform} `{!PlatformLaws _}.
Implicit Types (log : list AuditLogRow) (c : ChainEntry).

(** A sequence number is below the number of rows. *)
Lemma chain_from_bound p l k :
  chain_from p l → 0 <= k → match p with Some p => h_sequenceNum p < k | None => True end →
  Forall (λ c, 0 <= h_sequenceNum c < k + Z.of_nat (length l)) l.
Proof.
  revert p k. induction l as [|e l IH]; intros p k; [constructor|].
  intros ((_&_&_&_&He)&Hp&Hl) Hk Hb. cbn [length].
  assert (h_sequenceNum e < k + 1) as Hek.
  { destruct p as [p|]; [destruct Hp as [(_&->&_)|(_&->&_)]; lia|destruct Hp as (->&_); lia]. }
  constructor; [lia|]. eapply Forall_impl; [apply (IH (Some e) (k + 1)); (done || lia)|].
  simpl. lia.
Qed.

Lemma log_inv_plain log n c : log_inv log n → c ∈ al_chain <$> log →
  plain_text (h_epochId c) ∧ 0 <= h_sequenceNum c < Z.of_nat (length log).
Proof.
  intros [Hc _ _] Hin. pose proof (chain_from_rows _ _ Hc) as Hr.
  pose proof (chain_from_bound None _ 0 Hc ltac:(lia) I) as Hb.
  rewrite Forall_forall in Hr, Hb. destruct (Hr _ Hin) as (_&_&?&_). split; [done|].
  rewrite <- (length_fmap al_chain log). by apply Hb.
Qed.

(** The rows of a log, newest first. *)
Definition newest_first log : list ChainEntry := rev (al_chain <$> log).

Lemma log_split log pre c rest :
  newest_first log = pre ++ c :: rest →
  ∃ l r k, log = l ++ r :: k ∧ al_chain r = c ∧ rest = newest_first l.
Proof.
  unfold newest_first. intros E. apply (f_equal (@rev _)) in E.
  rewrite rev_involutive, rev_app_distr in E. simpl in E. rewrite <- (assoc_L (++)) in E.
  apply fmap_app_inv in E as (l&k&E1&E2&->). destruct k as [|r k]; [done|]. simplify_eq/=.
  exists l, r, k. split_and!; [done..|]. by rewrite <- E1, rev_involutive.
Qed.

(** The cursor that asks for the rows after [pre]. *)
Definition asks_for (cursor : option jsstr) log (rest : list ChainEntry) : Prop :=
  (decodeAuditCursor cursor = None ∧ rest = newest_first log) ∨
  ∃ pre c, newest_first log = pre ++ c :: rest ∧
    decodeAuditCursor cursor = Some (h_epochId c, h_sequenceNum c).

Lemma asks_page cursor log n rest limit :
  log_inv log n → asks_for cursor log rest →
  chain_page log limit (decodeAuditCursor cursor) = take (Z.to_nat limit) rest.
Proof.
  intros Hl [[-> ->]|(pre&c&E&->)]; [by eapply chain_page_first|].
  destruct (log_split _ _ _ _ E) as (l&r&k&->&<-&->).
  exact (chain_page_next l r k n limit Hl).
Qed.

(** What the engine answers: the rest of the rows, or its first [limit] rows with
    a cursor that asks for the others. *)
Lemma audit_response_spec cursor log n rest limit :
  log_inv log n → asks_for cursor log rest → Z.of_nat (length log) <= max_safe → 1 <= limit →
  (audit_response log limit (decodeAuditCursor cursor) = Some (mkAuditList rest None) ∧
   (length rest <= Z.to_nat limit)%nat) ∨
  ∃ page c rest' next,
    rest = (page ++ [c]) ++ rest' ∧ rest' ≠ [] ∧ length (page ++ [c]) = Z.to_nat limit ∧
    audit_response log limit (decodeAuditCursor cursor) = Some (mkAuditList (page ++ [c]) (Some next)) ∧
    decodeAuditCursor (Some next) = Some (h_epochId c, h_sequenceNum c).
Proof.
  intros Hl Ha Hsafe Hlim. unfold audit_response. rewrite (asks_page _ _ _ _ _ Hl Ha).
  rewrite length_take. destruct (Z.ltb_spec limit (Z.of_nat (Z.to_nat (limit + 1) `min` length rest))) as [Hlt|Hge].
  - right. rewrite take_take. replace (_ `min` _)%nat with (Z.to_nat limit) by lia.
    assert (length (take (Z.to_nat limit) rest) = Z.to_nat limit) as Hlen by (rewrite length_take; lia).
    destruct (take (Z.to_nat limit) rest) as [|c page _] eqn:Et using rev_ind.
    { simpl in Hlen. lia. }
    exists page, c, (drop (Z.to_nat limit) rest). rewrite last_snoc.
    assert (c ∈ al_chain <$> log) as Hc.
    { assert (c ∈ rest) as Hr.
      { rewrite <- (take_drop (Z.to_nat limit) rest), Et. set_solver. }
      assert (c ∈ newest_first log) as Hn by (destruct Ha as [[_ ->]|(?&?&E&_)]; [done|rewrite E; set_solver]).
      unfold newest_first in Hn. by rewrite list_elem_of_In, <- in_rev, <- list_elem_of_In in Hn. }
    destruct (log_inv_plain _ _ _ Hl Hc) as [Hp Hs].
    destruct (audit_cursor_decodes (h_epochId c) (h_sequenceNum c)) as (next&En&Ed).
    { by apply ascii_latin1, plain_ascii. }
    { intros Hin. unfold plain_text in Hp. rewrite Forall_forall in Hp. apply Hp in Hin. done. }
    { lia. }
    { unfold safe_int. apply andb_true_iff. split; apply Z.leb_le; unfold max_safe in *; lia. }
    exists next. split_and!; try done.
    + by rewrite <- Et, take_drop.
    + intros E. apply (f_equal length) in E. rewrite length_drop in E. simpl in E. lia.
    + by rewrite En.
  - left. rewrite take_ge by lia. split; [done|lia].
Qed.
End pages.
