(* ===== verification/TaskList.v ===== *)
(** * The task queue: [packages/cli/src/commands/task.ts]

    [runTaskList] with [--all]: following the cursors of [listTasks], with its
    ceiling and its progress check. *)

From S2P Require Export Paging.
Open Scope Z_scope.

Definition MAX_PAGES : nat := 200.
Arguments MAX_PAGES : simpl never.

(** The n-th request: the limit asked for and the cursor. *)
Definition TaskClient := nat → option limit_number → option jsstr → res TasksListResponse.

Definition fresh_tasks (tasks page : list TaskSummary) : list TaskSummary :=
  List.filter (λ t, negb (bool_decide (ts_taskId t ∈ ts_taskId <$> tasks))) page.

(** The loop, after the first page: [n] pages read, [fuel] more allowed. *)
Fixpoint follow (fuel n : nat) (client : TaskClient) (limit : option limit_number)
    (nextCursor : option jsstr) (acc : list TaskSummary) : res (list TaskSummary) :=
  match nextCursor, fuel with
  | Some c, S fuel =>
      match client n limit (Some c) with
      | Throw e => Throw e
      | Ok page =>
          match fresh_tasks acc (tasks page) with
          | [] => Ok acc
          | fresh => follow fuel (S n) client limit (tl_nextCursor page) (acc ++ fresh)
          end
      end
  | _, _ => Ok acc
  end.

(** What [runTaskList] renders: the tasks, and the cursor behind the note that
    more are not shown. *)
Definition runTaskList (client : TaskClient) (limit : option limit_number) (all : bool)
    : res (list TaskSummary * option jsstr) :=
  match client 0%nat limit None with
  | Throw e => Throw e
  | Ok first =>
      if all then
        match follow (MAX_PAGES - 1) 1 client limit (tl_nextCursor first) (tasks first) with
        | Ok l => Ok (l, None)
        | Throw e => Throw e
        end
      else Ok (tasks first, tl_nextCursor first)
  end.

(** ** The pages of a queue *)

(** Rows as the engine writes them: ISO instants, ASCII identifiers, no two alike. *)
Definition queue_ok (rows : list CommissionRunsRow) : Prop :=
  NoDup (cr_run_id <$> rows) ∧
  Forall (λ r, plain_text (cr_created_at r) ∧ ascii_only (cr_run_id r)) rows.

Definition queue (rows : list CommissionRunsRow) : list CommissionRunsRow := stable_sort run_desc rows.

Lemma queue_keys rows : queue_ok rows → NoDup (run_key <$> rows).
Proof.
  intros [Hn Hf]. induction Hf as [|r rows [Hr Hi] Hf IH]; [constructor|].
  cbn [fmap list_fmap] in *. inversion_clear Hn as [|?? Hr' Hn']. constructor; [|by apply IH].
  intros (r'&E&Hin)%list_elem_of_fmap. apply Hr'. rewrite Forall_forall in Hf.
  destruct (Hf _ Hin) as [_ Hi']. unfold run_key in E. rewrite !(utf8_ascii (cr_run_id _)) in E by done.
  injection E as _ ->. by apply list_elem_of_fmap_2.
Qed.

Definition asks_tasks (cursor : option jsstr) (rows rest : list CommissionRunsRow) : Prop :=
  (decodeTaskCursor cursor = None ∧ rest = queue rows) ∨
  ∃ pre c, queue rows = pre ++ c :: rest ∧ decodeTaskCursor cursor = Some (cr_created_at c, cr_run_id c).

Lemma asks_tasks_page cursor rows rest limit :
  queue_ok rows → asks_tasks cursor rows rest →
  run_page rows limit (decodeTaskCursor cursor) = take (Z.to_nat limit) rest.
Proof.
  intros Hq [[-> ->]|(pre&c&E&->)]; [done|].
  apply (task_pages rows limit pre c rest).
  - by apply queue_keys.
  - unfold run_page. rewrite Nat2Z.id, take_ge; [exact E|]. by rewrite stable_sort_length.
Qed.

Lemma task_response_spec cursor rows rest limit :
  queue_ok rows → asks_tasks cursor rows rest → 1 <= limit →
  (task_response rows limit (decodeTaskCursor cursor) =
     Some (mkTasksList (taskSummaryFromRow <$> rest) None) ∧ (length rest <= Z.to_nat limit)%nat) ∨
  ∃ page c rest' next,
    rest = (page ++ [c]) ++ rest' ∧ rest' ≠ [] ∧ length (page ++ [c]) = Z.to_nat limit ∧
    task_response rows limit (decodeTaskCursor cursor) =
      Some (mkTasksList (taskSummaryFromRow <$> (page ++ [c])) (Some next)) ∧
    decodeTaskCursor (Some next) = Some (cr_created_at c, cr_run_id c).
Proof.
  intros Hq Ha Hlim. unfold task_response. rewrite (asks_tasks_page _ _ _ _ Hq Ha).
  rewrite length_take. destruct (Z.ltb_spec limit (Z.of_nat (Z.to_nat (limit + 1) `min` length rest))) as [Hlt|Hge].
  - right. rewrite take_take. replace (_ `min` _)%nat with (Z.to_nat limit) by lia.
    assert (length (take (Z.to_nat limit) rest) = Z.to_nat limit) as Hlen by (rewrite length_take; lia).
    destruct (take (Z.to_nat limit) rest) as [|c page _] eqn:Et using rev_ind.
    { simpl in Hlen. lia. }
    exists page, c, (drop (Z.to_nat limit) rest). rewrite last_snoc.
    assert (c ∈ rows) as Hc.
    { assert (c ∈ rest) as Hr.
      { rewrite <- (take_drop (Z.to_nat limit) rest), Et. set_solver. }
      rewrite <- (elem_of_stable_sort run_desc). fold (queue rows).
      destruct Ha as [[_ ->]|(?&?&E&_)]; [done|rewrite E; set_solver]. }
    destruct Hq as [_ Hf]. rewrite Forall_forall in Hf. destruct (Hf _ Hc) as [Hp Hi].
    destruct (task_cursor_decodes (cr_created_at c) (cr_run_id c)) as (next&En&Ed).
    { by apply ascii_latin1, plain_ascii. }
    { by apply ascii_latin1. }
    { intros Hin. unfold plain_text in Hp. rewrite Forall_forall in Hp. apply Hp in Hin. done. }
    exists next. split_and!; try done.
    + by rewrite <- Et, take_drop.
    + intros E. apply (f_equal length) in E. rewrite length_drop in E. simpl in E. lia.
    + by rewrite En.
  - left. rewrite take_ge by lia. split; [done|lia].
Qed.

(** ** Following the cursors *)

Definition engine_tasks (rows : list CommissionRunsRow) : TaskClient := λ _ limit cursor,
  match task_response rows (clampTaskListLimit limit) (decodeTaskCursor cursor) with
  | Some r => Ok r
  | None => Throw invalid_character
  end.

Lemma clamp_positive limit : 1 <= clampTaskListLimit limit <= 200.
Proof.
  unfold clampTaskListLimit, TASK_LIST_DEFAULT_LIMIT, TASK_LIST_MAX_LIMIT.
  destruct limit as [[|x]|]; try lia. destruct (Z.ltb_spec (floor x) 1); [lia|].
  destruct (Z.ltb_spec 200 (floor x)); lia.
Qed.

Lemma fresh_all (acc : list TaskSummary) page :
  (∀ t, t ∈ page → ts_taskId t ∉ ts_taskId <$> acc) → fresh_tasks acc page = page.
Proof.
  intros Hf. apply list_filter_all, Forall_forall. intros t Ht.
  by rewrite bool_decide_eq_false_2 by auto.
Qed.

(** [rest] is what is left to list, [acc] what was listed. *)
Lemma follow_lists rows limit fuel n next acc rest :
  queue_ok rows → queue rows = acc ++ rest → rest ≠ [] → asks_tasks (Some next) rows rest →
  follow fuel n (engine_tasks rows) limit (Some next) (taskSummaryFromRow <$> acc) =
  Ok (taskSummaryFromRow <$> (acc ++ take (fuel * Z.to_nat (clampTaskListLimit limit)) rest)).
Proof.
  intros Hq. set (lim := clampTaskListLimit limit).
  pose proof (clamp_positive limit) as Hlim. fold lim in Hlim.
  revert n next acc rest. induction fuel as [|fuel IH]; intros n next acc rest Es Hne Ha.
  { simpl. by rewrite app_nil_r. }
  assert (∀ k m : list CommissionRunsRow, queue rows = acc ++ (k ++ m) → fresh_tasks (taskSummaryFromRow <$> acc)
            (taskSummaryFromRow <$> k) = taskSummaryFromRow <$> k) as Hfresh.
  { intros k m E. apply fresh_all. intros t (r&->&Hr)%list_elem_of_fmap.
    rewrite <- list_fmap_compose. intros (r'&Eid&Hr')%list_elem_of_fmap. simpl in Eid.
    destruct Hq as [Hn _]. rewrite <- (stable_sort_perm run_desc) in Hn. fold (queue rows) in Hn.
    rewrite E, !fmap_app in Hn. apply NoDup_app in Hn as (_&Hd&_).
    apply (Hd (cr_run_id r')); [by apply list_elem_of_fmap_2|].
    apply elem_of_app. left. rewrite <- Eid. by apply list_elem_of_fmap_2. }
  cbn [follow]. unfold engine_tasks at 1. fold lim.
  destruct (task_response_spec (Some next) rows rest lim Hq Ha ltac:(lia))
    as [[-> Hle]|(page&c&rest'&next'&Er&Hne'&Hlen&->&Hd)]; cbn [tasks tl_nextCursor].
  - rewrite (Hfresh rest []) by by rewrite app_nil_r.
    destruct (taskSummaryFromRow <$> rest) eqn:Ef; [by apply fmap_nil_inv in Ef|].
    rewrite <- Ef, <- fmap_app. rewrite take_ge; [by destruct fuel|].
    etransitivity; [exact Hle|]. simpl. lia.
  - rewrite Er in Es. rewrite (Hfresh _ _ Es).
    destruct (taskSummaryFromRow <$> (page ++ [c])) eqn:Ef.
    { apply fmap_nil_inv in Ef. by destruct page. }
    rewrite <- Ef, <- fmap_app. rewrite IH with (rest := rest').
    + rewrite Er. clear -Hlen. remember (page ++ [c]) as pg.
      rewrite <- (assoc_L (++)). do 3 f_equal.
      rewrite take_app_ge by (rewrite Hlen; simpl; lia). do 2 f_equal. rewrite Hlen. simpl. lia.
    + by rewrite <- (assoc_L (++)).
    + done.
    + right. exists (acc ++ page), c. rewrite Es. split; [by rewrite <- !(assoc_L (++))|done].
Qed.

(** ** Properties *)

(** [task list --all] lists the queue. Against a queue that does not change,
    it renders every task once, newest first, with no note that more are left,
    up to two hundred pages of the size asked for; past that it renders the
    newest two hundred pages with no note either. *)
Theorem task_list_all rows limit :
  queue_ok rows →
  runTaskList (engine_tasks rows) limit true =
  Ok (taskSummaryFromRow <$>
        take (MAX_PAGES * Z.to_nat (clampTaskListLimit limit)) (queue rows), None).
Proof.
  intros Hq. unfold runTaskList. unfold engine_tasks at 1.
  pose proof (clamp_positive limit) as Hlim.
  destruct (task_response_spec None rows (queue rows) (clampTaskListLimit limit) Hq
    ltac:(by left) ltac:(lia)) as [[-> Hle]|(page&c&rest'&next&Er&Hne&Hlen&->&Hd)];
    cbn [tasks tl_nextCursor].
  - rewrite take_ge; [done|]. etransitivity; [exact Hle|]. unfold MAX_PAGES. lia.
  - rewrite (follow_lists rows limit _ _ next (page ++ [c]) rest' Hq Er Hne).
    + do 2 f_equal. rewrite Er, (take_app_ge (page ++ [c])) by (rewrite Hlen; unfold MAX_PAGES; lia).
      rewrite Hlen. do 2 f_equal. f_equal. unfold MAX_PAGES. lia.
    + right. exists page, c. split; [by rewrite Er, <- (assoc_L (++))|done].
Qed.

(** ** A concrete queue *)

Definition demo_queue : list CommissionRunsRow :=
  [demo_run (js "b") (js "2026"); demo_run (js "a") (js "2026"); demo_run (js "z") (js "2027")].

Lemma task_list_all_witness :
  let limit := Some (Finite (JsNum 2 0)) in
  ts_taskId <$> (taskSummaryFromRow <$> queue demo_queue) = [js "z"; js "b"; js "a"] ∧
  runTaskList (engine_tasks demo_queue) limit true =
  Ok (taskSummaryFromRow <$>
        take (MAX_PAGES * Z.to_nat (clampTaskListLimit limit)) (queue demo_queue), None).
Proof.
  intros limit. split; [vm_compute; reflexivity|].
  apply (task_list_all demo_queue limit). split; by_compute.
Defined.
