(* ===== verification/Walk.v ===== *)
(** * The audit walk: [packages/cli/src/audit/walk.ts]

    The client's side of the audit log: the guarded walk over the pages of the
    engine, the one ladder that turns verdicts into an exit code, and the
    hand-written copy of that ladder in the signal handler of
    [packages/cli/src/index.ts]. The server is not trusted: it is a function of
    the number and the arguments of the request. *)

From S2P Require Export Paging.
Open Scope Z_scope.

(** ** Data *)

Definition EXIT_CANCELLED : Z := 130.
Definition EXIT_BROKEN_CHAIN : Z := 3.
Definition EXIT_UNCHECKED_EDGE : Z := 4.
Definition EXIT_CONFLICTED_CLOSER : Z := 5.

Definition AUDIT_MAX_PAGES : nat := Z.to_nat 10000.
Definition WALK_REQUEST_LIMIT : Z := 1000000.
Arguments AUDIT_MAX_PAGES : simpl never.

(** [WalkStopReason], with the reason only a dump file has. *)
Inductive WalkStopReason := exhausted | page_ceiling | cursor_stalled | cancelled | partial_file.
#[export] Instance WalkStopReason_eq_dec : EqDecision WalkStopReason.
Proof. solve_decision. Defined.

Inductive UncheckedReason :=
  | U_page_ceiling | U_cursor_stalled | U_head_not_genesis | U_cancelled | U_partial_file.

Record ChainLocation := mkLocation { cl_epochId : jsstr; cl_sequenceNum : Z }.
Definition location (entry : ChainEntry) : ChainLocation :=
  mkLocation (h_epochId entry) (h_sequenceNum entry).

(** Strict descending order on [(epochId, sequenceNum)]. *)
Definition sortsStrictlyBelow (a b : ChainEntry) : bool :=
  js_lt (h_epochId a) (h_epochId b) ||
  bool_decide (h_epochId a = h_epochId b) && (h_sequenceNum a <? h_sequenceNum b).

Record WalkResult := mkWalkResult {
  wr_pages : list ChainVerdict;
  wr_closures : list ClosureVerdict;
  wr_closureCarry : list CloserRef;
  wr_entriesSeen : nat;
  wr_pagesFetched : nat;
  wr_newest : option ChainLocation;
  wr_oldest : option ChainLocation;
  wr_cursorExhausted : bool;
  wr_stopReason : WalkStopReason;
}.

(** What a walk does besides returning: the pages it hands to [onPage] and the
    two notices it raises while it runs. *)
Inductive WalkEvent := Page (page : list ChainEntry) | BreakFound | ConflictFound.
#[export] Instance WalkEvent_eq_dec : EqDecision WalkEvent.
Proof. solve_decision. Defined.

(** The options: whether to verify, what [onPage] throws on the n-th page, if it
    does, and whether the signal is aborted at the n-th page boundary. *)
Record WalkOptions := mkWalkOptions {
  wo_verify : bool;
  wo_onPage : nat → list ChainEntry → option exn;
  wo_aborted : nat → bool;
}.

(** The n-th request of a walk: the limit asked for and the cursor. *)
Definition ApiClient := nat → Z → option jsstr → res AuditListResponse.

(** ** The verification of one page

    [walkAuditChain] and [verifyDumpLines] share this step: the page, newest
    first, is reversed and checked against the boundary and the carry. *)

Section walk.
Context `{Platform}.

Record CheckState := mkCheck {
  k_pages : list ChainVerdict;
  k_closures : list ClosureVerdict;
  k_boundary : option ChainEntry;
  k_closureCarry : list CloserRef;
  k_breakFound : bool;
  k_conflictFound : bool;
}.
Definition check_start : CheckState := mkCheck [] [] None [] false false.

Definition nonempty {A} (l : list A) : bool := match l with [] => false | _ => true end.

Definition check_page (page : list ChainEntry) (c : CheckState) : CheckState * list WalkEvent :=
  let ascending := rev page in
  let verdict := verifyChainRange ascending (k_boundary c) in
  let broken := nonempty (breaks verdict) && negb (k_breakFound c) in
  let closure := checkDecisionClosure ascending (k_closureCarry c) true in
  let conflict := nonempty (conflicted closure) && negb (k_conflictFound c) in
  (mkCheck (k_pages c ++ [verdict]) (k_closures c ++ [closure]) (last page)
     (unmatchedClosers closure) (k_breakFound c || broken) (k_conflictFound c || conflict),
   (if broken then [BreakFound] else []) ++ (if conflict then [ConflictFound] else [])).

(** ** The walk *)

Record WalkState := mkWalk {
  w_check : CheckState;
  w_previousOldest : option ChainEntry;
  w_cursor : option jsstr;
  w_entriesSeen : nat;
  w_pagesFetched : nat;
  w_newest : option ChainLocation;
  w_oldest : option ChainLocation;
  w_events : list WalkEvent;
}.
Definition walk_start : WalkState := mkWalk check_start None None 0 0 None None [].

Definition finish_walk (s : WalkState) (cursorExhausted : bool) (stop : WalkStopReason) : WalkResult :=
  mkWalkResult (k_pages (w_check s)) (k_closures (w_check s)) (k_closureCarry (w_check s))
    (w_entriesSeen s) (w_pagesFetched s) (w_newest s) (w_oldest s) cursorExhausted stop.

(** What one turn of the loop does. *)
Inductive Turn :=
  | Continue (s : WalkState)
  | Break (s : WalkState) (cursorExhausted : bool) (stop : WalkStopReason)
  | Fail (s : WalkState) (e : exn).

Definition stalled (previousOldest : option ChainEntry) (first : ChainEntry) : bool :=
  match previousOldest with Some p => negb (sortsStrictlyBelow first p) | None => false end.

Definition take_page (options : WalkOptions) (s : WalkState) (first : ChainEntry)
    (page : list ChainEntry) (nextCursor : option jsstr) : Turn :=
  let oldest := List.last page first in
  let seen := mkWalk (w_check s) (w_previousOldest s) (w_cursor s)
    (w_entriesSeen s + length page) (S (w_pagesFetched s))
    (match w_newest s with None => Some (location first) | n => n end)
    (Some (location oldest)) (w_events s ++ [Page page]) in
  match wo_onPage options (w_pagesFetched s) page with
  | Some e => Fail seen e
  | None =>
      let '(c, raised) := if wo_verify options then check_page page (w_check s) else (w_check s, []) in
      let s' := mkWalk c (Some oldest) nextCursor (w_entriesSeen seen) (w_pagesFetched seen)
        (w_newest seen) (w_oldest seen) (w_events seen ++ raised) in
      match nextCursor with
      | None => Break s' true exhausted
      | Some _ => Continue s'
      end
  end.

Definition walk_turn (client : ApiClient) (options : WalkOptions) (s : WalkState) : Turn :=
  if wo_aborted options (w_pagesFetched s) then Break s false cancelled
  else if (AUDIT_MAX_PAGES <=? w_pagesFetched s)%nat then Break s false page_ceiling
  else
    match client (w_pagesFetched s) WALK_REQUEST_LIMIT (w_cursor s) with
    | Throw e => Fail s e
    | Ok response =>
        match entries response with
        | [] => Break s (bool_decide (al_nextCursor response = None)) exhausted
        | first :: _ =>
            if stalled (w_previousOldest s) first then Break s false cursor_stalled
            else take_page options s first (entries response) (al_nextCursor response)
        end
    end.

(** The loop; [None] where the fuel runs out. *)
Fixpoint walk_loop (fuel : nat) (client : ApiClient) (options : WalkOptions) (s : WalkState)
    : option (res WalkResult * list WalkEvent) :=
  match fuel with
  | O => None
  | S fuel =>
      match walk_turn client options s with
      | Continue s' => walk_loop fuel client options s'
      | Break s' x stop => Some (Ok (finish_walk s' x stop), w_events s')
      | Fail s' e => Some (Throw e, w_events s')
      end
  end.

Definition walkAuditChain (client : ApiClient) (options : WalkOptions)
    : option (res WalkResult * list WalkEvent) :=
  walk_loop (S AUDIT_MAX_PAGES) client options walk_start.
End walk.

(** ** The verdict: [summarizeWalk] *)

Record WalkSummaryInput := mkSummaryInput {
  si_cursorExhausted : bool;
  si_stopReason : WalkStopReason;
  si_closures : list ClosureVerdict;
}.
Record WalkSummary := mkSummary {
  sm_exitCode : Z;
  sm_breaks : list ChainBreak;
  sm_entriesChecked : nat;
  sm_epochsCovered : list jsstr;
  sm_genesisShapedHead : bool;
  sm_uncheckedReasons : list UncheckedReason;
  sm_conflicted : list DecisionClosure;
  sm_unresolved : list DecisionClosure;
  sm_uncheckedClosures : list CloserRef;
}.

(** [filter((x, i, all) => all.indexOf(x) === i)]: the first of each. *)
Fixpoint first_of_each (seen l : list jsstr) : list jsstr :=
  match l with
  | [] => []
  | x :: l' => if bool_decide (x ∈ seen) then first_of_each seen l' else x :: first_of_each (x :: seen) l'
  end.

Definition is_unchecked (l : LowerEdge) : bool :=
  match l with LowerUnchecked _ => true | _ => false end.
Definition is_genesis (l : LowerEdge) : bool :=
  match l with GenesisShaped => true | _ => false end.

Definition unchecked_reasons (stop : WalkStopReason) (headUnchecked : bool) : list UncheckedReason :=
  match stop with
  | page_ceiling => [U_page_ceiling]
  | cursor_stalled => [U_cursor_stalled]
  | cancelled => [U_cancelled]
  | partial_file => [U_partial_file]
  | exhausted => if headUnchecked then [U_head_not_genesis] else []
  end.

Definition exit_code (broken conflict : bool) (stop : WalkStopReason) (cursorExhausted headUnchecked : bool)
    : Z :=
  if broken then EXIT_BROKEN_CHAIN
  else if conflict then EXIT_CONFLICTED_CLOSER
  else if bool_decide (stop = cancelled) then EXIT_CANCELLED
  else if negb cursorExhausted then EXIT_UNCHECKED_EDGE
  else if headUnchecked || bool_decide (stop = partial_file) then EXIT_UNCHECKED_EDGE
  else 0.

Definition summarizeWalk (pages : list ChainVerdict) (input : WalkSummaryInput) : WalkSummary :=
  let oldestFirst := rev pages in
  let brs := mjoin (breaks <$> oldestFirst) in
  let closuresOldestFirst := rev (si_closures input) in
  let confl := mjoin (conflicted <$> closuresOldestFirst) in
  let uncheckedClosures := match last (si_closures input) with
                           | Some c => unmatchedClosers c | None => [] end in
  let genesisShapedHead := match last pages with Some p => is_genesis (lowerEdge p) | None => false end in
  let headUnchecked := match last pages with Some p => is_unchecked (lowerEdge p) | None => false end in
  mkSummary
    (exit_code (nonempty brs) (nonempty confl) (si_stopReason input) (si_cursorExhausted input)
      headUnchecked)
    brs (foldl (λ n p, (n + entriesChecked p)%nat) 0%nat pages)
    (first_of_each [] (mjoin (epochsCovered <$> oldestFirst))) genesisShapedHead
    (unchecked_reasons (si_stopReason input) headUnchecked) confl
    (mjoin (unresolved <$> closuresOldestFirst)) uncheckedClosures.

(** [runLogVerify] over the wire: the summary of a walk that verifies. *)
Definition summary_of (r : WalkResult) : WalkSummary :=
  summarizeWalk (wr_pages r)
    (mkSummaryInput (wr_cursorExhausted r) (wr_stopReason r) (wr_closures r)).

(** The second interrupt of [runWalkStandalone]: the flags its callbacks have
    raised, and the code it exits with. *)
Definition force_exit (events : list WalkEvent) : Z :=
  if bool_decide (BreakFound ∈ events) then EXIT_BROKEN_CHAIN
  else if bool_decide (ConflictFound ∈ events) then EXIT_CONFLICTED_CLOSER
  else EXIT_CANCELLED.

(** [runLogDump]: the walk without verification; its code. *)
Definition dump_code (r : WalkResult) : Z :=
  if bool_decide (wr_stopReason r = cancelled) then EXIT_CANCELLED
  else sm_exitCode (summarizeWalk []
    (mkSummaryInput (wr_cursorExhausted r) (wr_stopReason r) [])).

(** ** Checking by pages is checking the whole range

    [checked es Sm c]: the state [c] is what the pages of the ascending range [es]
    leave, whatever the sizes of the pages. The seam between two pages is
    checked like a link inside one but for a row numbered zero; [Sm] is what
    excludes that row. *)

Lemma last_rev_head {A} (l : list A) : last (rev l) = head l.
Proof. destruct l as [|x l]; [done|]. simpl. by rewrite last_snoc. Qed.

Section checked.
Context `{Platform}.
Implicit Types (es page : list ChainEntry) (c : CheckState).

Abbreviation whole es := (verifyChainRange es None).
Abbreviation closure es := (checkDecisionClosure es [] true).
Definition found_breaks c : list ChainBreak := mjoin (breaks <$> rev (k_pages c)).
Definition found_conflicts c : list DecisionClosure := mjoin (conflicted <$> rev (k_closures c)).

Record checked es (Sm : Prop) c : Prop := {
  ck_boundary : k_boundary c = head es;
  ck_breaks : Sm → found_breaks c ≡ₚ breaks (whole es);
  ck_all : breaks (whole es) ⊆+ found_breaks c;
  ck_intact : found_breaks c = [] → intact es;
  ck_conflicts : found_conflicts c = conflicted (closure es);
  ck_unresolved : mjoin (unresolved <$> rev (k_closures c)) = unresolved (closure es);
  ck_carry : k_closureCarry c = unmatchedClosers (closure es);
  ck_final : match last (k_closures c) with Some v => unmatchedClosers v | None => [] end =
             k_closureCarry c;
  ck_lower : lowerEdge <$> last (k_pages c) =
             match es with [] => None | _ => Some (lowerEdge (whole es)) end;
  ck_count : foldl (λ n p, (n + entriesChecked p)%nat) 0%nat (k_pages c) = length es;
  ck_broken : k_breakFound c = nonempty (found_breaks c);
  ck_conflicting : k_conflictFound c = nonempty (found_conflicts c);
}.

Lemma checked_weaken es (Sm Sm' : Prop) c : (Sm' → Sm) → checked es Sm c → checked es Sm' c.
Proof. intros Hs [???]. split; auto. Qed.

Lemma checked_start Sm : checked [] Sm check_start.
Proof. split; try done. intros _. constructor. Qed.

Lemma nonempty_app {A} (l k : list A) : nonempty (l ++ k) = nonempty l || nonempty k.
Proof. by destruct l. Qed.

Lemma raised_once a b : a || b && negb a = b || a.
Proof. by destruct a, b. Qed.

Lemma checked_page page es (Sm Sm' : Prop) c :
  page ≠ [] → checked es Sm c →
  (Sm' → Sm ∧ ∀ p e, head page = Some p → head es = Some e → seam_proper p e) →
  checked (rev page ++ es) Sm' (fst (check_page page c)).
Proof.
  intros Hne [Eb Hb Ha Hi Hc Hu Ek Hf Hl Hn Hfb Hfc] Hsm.
  destruct (rev page) as [|o older] eqn:Er.
  { apply (f_equal (@rev _)) in Er. by rewrite rev_involutive in Er. }
  pose proof (closure_pages (o :: older) es [] true) as (Ec1&Ec2&Ec3&_&Ec5).
  unfold check_page. rewrite Er, Eb, Ek. cbn [fst].
  set (v := verifyChainRange (o :: older) (head es)).
  set (cl := checkDecisionClosure (o :: older) (unmatchedClosers (closure es)) true) in *.
  assert (∀ f : ChainVerdict → list ChainBreak, mjoin (f <$> rev (k_pages c ++ [v])) =
    f v ++ mjoin (f <$> rev (k_pages c))) as Ev by (intros; by rewrite rev_app_distr).
  assert (∀ f : ClosureVerdict → list DecisionClosure, mjoin (f <$> rev (k_closures c ++ [cl])) =
    f cl ++ mjoin (f <$> rev (k_closures c))) as Ecl by (intros; by rewrite rev_app_distr).
  split; unfold found_breaks, found_conflicts in *; cbn -[verifyChainRange checkDecisionClosure];
    rewrite ?Ev, ?Ecl, ?nonempty_app.
  - apply (f_equal (@rev _)) in Er. rewrite rev_involutive in Er. subst page. simpl.
    by rewrite last_snoc.
  - intros [Hs Hseam]%Hsm. rewrite (Hb Hs). destruct es as [|e es].
    + by rewrite !app_nil_r.
    + symmetry. rewrite app_comm_cons. apply (verify_pages (o :: older) (e :: es) e None); [done..|].
      intros p Hl'. apply (Hseam p e); [|done]. rewrite <- Er in Hl'. by rewrite <- last_rev_head.
  - etransitivity; [|by apply submseteq_app; [reflexivity|exact Ha]]. subst v. destruct es as [|e es].
    + by rewrite !app_nil_r.
    + rewrite app_comm_cons. by apply (verify_pages_sub (o :: older) (e :: es) e None).
  - intros [Hv He]%app_nil. apply clean_verdict in Hv as [Hio Hs]. rewrite app_comm_cons.
    apply intact_app; [done|by apply Hi|]. subst v.
    destruct (last (o :: older)), (head es); try done. by apply seam_follows.
  - by rewrite app_comm_cons, Ec2, Hc.
  - by rewrite app_comm_cons, Ec3, Hu.
  - by rewrite app_comm_cons, Ec5.
  - by rewrite last_snoc.
  - rewrite last_snoc. simpl fmap. f_equal. apply verify_lower.
  - rewrite foldl_app, Hn. simpl foldl. rewrite length_app. unfold v. rewrite verify_count. simpl. lia.
  - rewrite Hfb. apply raised_once.
  - rewrite Hfc. apply raised_once.
Qed.
End checked.

(** ** The verdict of a range *)

Section verdict.
Context `{Platform}.
Implicit Types (es page : list ChainEntry) (c : CheckState).

(** The code a range earns when it is checked in one piece. *)
Definition head_unchecked es : bool :=
  nonempty es && is_unchecked (lowerEdge (verifyChainRange es None)).
Definition verdict_code es (stop : WalkStopReason) (cursorExhausted : bool) : Z :=
  exit_code (nonempty (breaks (verifyChainRange es None)))
    (nonempty (conflicted (checkDecisionClosure es [] true))) stop cursorExhausted
    (head_unchecked es).

Lemma nonempty_perm {A} (l k : list A) : l ≡ₚ k → nonempty l = nonempty k.
Proof.
  destruct l, k; simpl; try done; intros Hp.
  - by apply Permutation_nil_l in Hp.
  - by apply Permutation_nil_r in Hp.
Qed.

Lemma checked_head es Sm c : checked es Sm c →
  match last (k_pages c) with Some p => is_unchecked (lowerEdge p) | None => false end = head_unchecked es.
Proof.
  intros Hc. pose proof (ck_lower _ _ _ Hc) as Hl. unfold head_unchecked.
  destruct (last (k_pages c)), es; simplify_eq/=; congruence.
Qed.

Lemma checked_code es (Sm : Prop) c stop x :
  checked es Sm c → Sm →
  sm_exitCode (summarizeWalk (k_pages c) (mkSummaryInput x stop (k_closures c))) =
  verdict_code es stop x.
Proof.
  intros Hc Hp. unfold summarizeWalk, verdict_code. cbn [sm_exitCode si_closures si_stopReason si_cursorExhausted].
  rewrite (checked_head _ _ _ Hc). f_equal.
  - apply nonempty_perm. by apply (ck_breaks _ _ _ Hc).
  - f_equal. apply (ck_conflicts _ _ _ Hc).
Qed.

Lemma exit_code_0 b f stop x h :
  exit_code b f stop x h = 0 →
  b = false ∧ f = false ∧ stop ≠ cancelled ∧ x = true ∧ h = false ∧ stop ≠ partial_file.
Proof.
  unfold exit_code, EXIT_BROKEN_CHAIN, EXIT_CONFLICTED_CLOSER, EXIT_CANCELLED, EXIT_UNCHECKED_EDGE.
  destruct b, f; try done. case_bool_decide; [done|]. destruct x; simpl; [|done].
  destruct h; simpl; [done|]. by case_bool_decide.
Qed.

Lemma nonempty_false {A} (l : list A) : nonempty l = false → l = [].
Proof. by destruct l. Qed.

Lemma checked_zero es Sm c stop x :
  checked es Sm c →
  sm_exitCode (summarizeWalk (k_pages c) (mkSummaryInput x stop (k_closures c))) = 0 →
  intact es ∧ conflicted (checkDecisionClosure es [] true) = [] ∧ head_unchecked es = false ∧
  x = true ∧ stop ≠ cancelled ∧ stop ≠ partial_file.
Proof.
  intros Hc. unfold summarizeWalk. cbn [sm_exitCode si_closures si_stopReason si_cursorExhausted].
  rewrite (checked_head _ _ _ Hc). intros (Hb&Hf&?&?&?&?)%exit_code_0.
  apply nonempty_false in Hb, Hf. split_and!; try done.
  - by apply (ck_intact _ _ _ Hc).
  - by rewrite <- (ck_conflicts _ _ _ Hc).
Qed.

(** The flags and the ladder agree on what has been found. *)
Lemma checked_flags es Sm c stop x :
  checked es Sm c → stop = cancelled →
  sm_exitCode (summarizeWalk (k_pages c) (mkSummaryInput x stop (k_closures c))) =
  if k_breakFound c then EXIT_BROKEN_CHAIN
  else if k_conflictFound c then EXIT_CONFLICTED_CLOSER else EXIT_CANCELLED.
Proof.
  intros Hc ->. unfold summarizeWalk. cbn [sm_exitCode si_closures si_stopReason].
  by rewrite (ck_broken _ _ _ Hc), (ck_conflicting _ _ _ Hc).
Qed.
End verdict.

(** ** The walk's invariant *)

Definition page_of (ev : WalkEvent) : option (list ChainEntry) :=
  match ev with Page p => Some p | _ => None end.
(** The pages a walk was handed, and the range they cover in ascending order. *)
Definition pages_of (events : list WalkEvent) : list (list ChainEntry) := omap page_of events.
Definition delivered (events : list WalkEvent) : list ChainEntry := mjoin (pages_of events).
Definition covered (events : list WalkEvent) : list ChainEntry := rev (delivered events).

Definition sequenced (es : list ChainEntry) : Prop := Forall (λ e : ChainEntry, 0 <= h_sequenceNum e) es.

Lemma covered_snoc events page raised :
  pages_of raised = [] → covered ((events ++ [Page page]) ++ raised) = rev page ++ covered events.
Proof.
  intros Hr. unfold covered, delivered, pages_of in *. rewrite !omap_app, Hr, app_nil_r.
  by rewrite join_app, rev_app_distr; simpl; rewrite app_nil_r.
Qed.

Lemma not_stalled_seam es first page p e :
  stalled (last (rev es)) first = false → sequenced (rev page ++ es) →
  head page = Some first → head page = Some p → head es = Some e → seam_proper p e.
Proof.
  rewrite last_rev_head. intros Hst Hs Hf Hp He. rewrite He in Hst. simpl in Hst. wb_bool.
  assert (first = p) as -> by congruence. intros Ee.
  unfold sortsStrictlyBelow in Hst. apply orb_true_iff in Hst as [Hl|Hl].
  - rewrite Ee in Hl. unfold js_lt in Hl. by rewrite lexcmp_refl in Hl.
  - wb_bool. apply Z.ltb_lt in H0. unfold sequenced in Hs. rewrite Forall_forall in Hs.
    assert (0 <= h_sequenceNum p); [|lia]. apply Hs. apply elem_of_app. left.
    destruct page as [|q page]; [done|]. simplify_eq/=. set_solver.
Qed.

Section walk_inv.
Context `{Platform}.
Implicit Types (s : WalkState) (page : list ChainEntry).

Record walk_inv (options : WalkOptions) s : Prop := {
  wi_pages : Forall (λ p, p ≠ []) (pages_of (w_events s));
  wi_check : if wo_verify options
             then checked (covered (w_events s)) (sequenced (covered (w_events s))) (w_check s)
             else w_check s = check_start;
  wi_prev : w_previousOldest s = last (delivered (w_events s));
  wi_break : bool_decide (BreakFound ∈ w_events s) = k_breakFound (w_check s);
  wi_conflict : bool_decide (ConflictFound ∈ w_events s) = k_conflictFound (w_check s);
  wi_seen : w_entriesSeen s = length (delivered (w_events s));
  wi_fetched : w_pagesFetched s = length (pages_of (w_events s));
}.

Lemma walk_inv_start options : walk_inv options walk_start.
Proof.
  split; try done. case_match; [|done]. apply checked_start.
Qed.

(** What checking a page raises. *)
Lemma check_page_raised page c events :
  bool_decide (BreakFound ∈ events) = k_breakFound c →
  bool_decide (ConflictFound ∈ events) = k_conflictFound c →
  let '(c', raised) := check_page page c in
  pages_of raised = [] ∧
  bool_decide (BreakFound ∈ (events ++ [Page page]) ++ raised) = k_breakFound c' ∧
  bool_decide (ConflictFound ∈ (events ++ [Page page]) ++ raised) = k_conflictFound c'.
Proof.
  intros Hb Hc. unfold check_page. cbn [k_breakFound k_conflictFound].
  set (broken := _ && negb (k_breakFound c)). set (conflict := _ && negb (k_conflictFound c)).
  assert (∀ x y : bool, pages_of ((if x then [BreakFound] else []) ++ (if y then [ConflictFound] else [])) = [])
    as Hp by by intros [] [].
  split; [apply Hp|]. clearbody broken conflict. rewrite <- Hb, <- Hc.
  destruct broken, conflict; split; repeat case_bool_decide; set_solver.
Qed.

Lemma take_page_inv options s first page next :
  walk_inv options s → page ≠ [] → head page = Some first →
  stalled (w_previousOldest s) first = false →
  match take_page options s first page next with
  | Continue s' | Break s' _ _ =>
      walk_inv options s' ∧ w_pagesFetched s' = S (w_pagesFetched s) ∧
      covered (w_events s') = rev page ++ covered (w_events s)
  | Fail _ _ => True
  end.
Proof.
  intros [Hp Hk Hv Hb Hc Hs Hf] Hne Hh Hst. unfold take_page.
  destruct (wo_onPage _ _ _); [done|].
  pose proof (check_page_raised page (w_check s) (w_events s) Hb Hc) as Hr.
  assert (∀ c raised,
    (c, raised) = (if wo_verify options then check_page page (w_check s) else (w_check s, [])) →
    let s' := mkWalk c (Some (List.last page first)) next (w_entriesSeen s + length page)
      (S (w_pagesFetched s)) (match w_newest s with None => Some (location first) | n => n end)
      (Some (location (List.last page first))) ((w_events s ++ [Page page]) ++ raised) in
    walk_inv options s' ∧ w_pagesFetched s' = S (w_pagesFetched s) ∧
    covered (w_events s') = rev page ++ covered (w_events s)) as Hs'.
  { intros c raised E s'.
    assert (pages_of raised = [] ∧
      bool_decide (BreakFound ∈ w_events s') = k_breakFound c ∧
      bool_decide (ConflictFound ∈ w_events s') = k_conflictFound c) as (Hr1&Hr2&Hr3).
    { destruct (wo_verify options); [by rewrite <- E in Hr|]. injection E as -> ->.
      split; [done|]. simpl. rewrite app_nil_r, <- Hb, <- Hc.
      split; repeat case_bool_decide; set_solver. }
    pose proof (covered_snoc (w_events s) page raised Hr1) as Ec.
    assert (delivered (w_events s') = delivered (w_events s) ++ page) as Ed.
    { apply (f_equal (@rev _)) in Ec. unfold covered in Ec.
      by rewrite rev_app_distr, !rev_involutive in Ec. }
    assert (pages_of (w_events s') = pages_of (w_events s) ++ [page]) as Ep.
    { simpl. unfold pages_of in *. by rewrite !omap_app, Hr1, app_nil_r. }
    split; [|done]. split; rewrite ?Ed, ?Ep; simpl.
    - apply Forall_app. by repeat constructor.
    - destruct (wo_verify options); [|by injection E as ->]. rewrite Ec.
      replace c with (fst (check_page page (w_check s))) by by rewrite <- E.
      eapply checked_page; [done|exact Hk|]. intros Hq. split.
      + unfold sequenced in *. by apply Forall_app in Hq as [_ ?].
      + intros p e Hp1 He1. apply (not_stalled_seam (covered (w_events s)) first page); try done.
        unfold covered. by rewrite rev_involutive, <- Hv.
    - destruct page as [|p page]; [done|]. rewrite last_app.
      destruct (last (p :: page)) as [q|] eqn:El; [|by apply last_None in El].
      by rewrite (last_list_last _ _ _ El).
    - done.
    - done.
    - by rewrite length_app, Hs.
    - by rewrite length_app, Hf, Nat.add_1_r. }
  destruct (if wo_verify options then _ else _) as [c raised]. specialize (Hs' c raised eq_refl).
  by destruct next.
Qed.

Lemma walk_turn_inv client options s :
  walk_inv options s →
  match walk_turn client options s with
  | Continue s' => walk_inv options s' ∧ w_pagesFetched s' = S (w_pagesFetched s) ∧
                   (w_pagesFetched s < AUDIT_MAX_PAGES)%nat
  | Break s' x stop => walk_inv options s' ∧ stop ≠ partial_file
  | Fail _ _ => True
  end.
Proof.
  intros Hi. unfold walk_turn. destruct (wo_aborted _ _); [by split|].
  destruct (Nat.leb_spec AUDIT_MAX_PAGES (w_pagesFetched s)); [by split|].
  destruct (client _ _ _) as [r|e]; [|done]. destruct (entries r) as [|first rest] eqn:Ee; [by split|].
  destruct (stalled _ _) eqn:Es; [by split|].
  pose proof (take_page_inv options s first (first :: rest) (al_nextCursor r) Hi ltac:(done) eq_refl Es) as Ht.
  unfold take_page in *. repeat case_match; simplify_eq; naive_solver.
Qed.

(** The loop ends: each turn fetches a page, and the ceiling stops it. *)
Lemma walk_loop_ends client options n s :
  walk_inv options s → (AUDIT_MAX_PAGES - w_pagesFetched s < n)%nat →
  ∃ out events, walk_loop n client options s = Some (out, events) ∧
    match out with
    | Ok r => ∃ s', walk_inv options s' ∧ events = w_events s' ∧ wr_stopReason r ≠ partial_file ∧
                r = finish_walk s' (wr_cursorExhausted r) (wr_stopReason r)
    | Throw _ => True
    end.
Proof.
  revert s. induction n as [|n IH]; intros s Hi Hn; [lia|]. simpl.
  pose proof (walk_turn_inv client options s Hi) as Ht.
  destruct (walk_turn client options s) as [s'|s' x stop|s' e].
  - destruct Ht as (?&?&?). apply IH; [done|lia].
  - destruct Ht. do 2 eexists. split; [done|]. by exists s'.
  - by do 2 eexists.
Qed.
End walk_inv.

(** ** Properties of the walk *)

Section walk_properties.
Context `{Platform}.

Lemma walk_returns client options :
  ∃ out events, walkAuditChain client options = Some (out, events) ∧
    match out with
    | Ok r => ∃ s', walk_inv options s' ∧ events = w_events s' ∧ wr_stopReason r ≠ partial_file ∧
                r = finish_walk s' (wr_cursorExhausted r) (wr_stopReason r)
    | Throw _ => True
    end.
Proof. apply walk_loop_ends; [apply walk_inv_start|]. cbn [w_pagesFetched walk_start]. lia. Qed.

(** C40: walking by pages is verifying the whole range. Whatever the server answers and
    whenever the user interrupts, the walk ends, and unless a request or the page callback
    threw, its counts, its conflicted and unresolved decisions and its leftover closers
    are those of the range it was handed, checked in one piece; and it reports every break
    of that range, however its rows are spread over pages. It reports no other break, and
    its exit code is the one the whole range earns, when no row it was handed has a
    negative sequence number. That condition is needed: the client validates nothing the
    server sends, and a row numbered -1 in front of a row numbered 0 of one epoch is a
    break at the seam of two pages and none inside a page ([negative_row_at_seam]). *)
Theorem walk_verdict client onPage aborted :
  ∃ out events,
    walkAuditChain client (mkWalkOptions true onPage aborted) = Some (out, events) ∧
    match out with
    | Throw _ => True
    | Ok r =>
        let es := covered events in
        let v := verifyChainRange es None in
        let cl := checkDecisionClosure es [] true in
        let sm := summary_of r in
        wr_entriesSeen r = length es ∧ sm_entriesChecked sm = length es ∧
        sm_conflicted sm = conflicted cl ∧ sm_unresolved sm = unresolved cl ∧
        sm_uncheckedClosures sm = unmatchedClosers cl ∧
        breaks v ⊆+ sm_breaks sm ∧
        (sequenced es →
          sm_exitCode sm = verdict_code es (wr_stopReason r) (wr_cursorExhausted r) ∧
          sm_breaks sm ≡ₚ breaks v)
    end.
Proof.
  destruct (walk_returns client (mkWalkOptions true onPage aborted)) as (out&events&E&Hout).
  exists out, events. split; [done|]. destruct out as [r|]; [|done].
  destruct Hout as (s&Hi&->&_&->). pose proof (wi_check _ _ Hi) as Hk. simpl in Hk.
  pose proof (ck_final _ _ _ Hk) as Hf. pose proof (ck_carry _ _ _ Hk) as Hc.
  split_and!.
  - unfold covered. rewrite length_rev. apply (wi_seen _ _ Hi).
  - apply (ck_count _ _ _ Hk).
  - apply (ck_conflicts _ _ _ Hk).
  - apply (ck_unresolved _ _ _ Hk).
  - by rewrite <- Hc, <- Hf.
  - apply (ck_all _ _ _ Hk).
  - intros Hs. split; [by apply (checked_code _ _ _ _ _ Hk)|by apply (ck_breaks _ _ _ Hk)].
Qed.


(** One turn of the loop that goes on. *)
Definition walk_step client options (s s' : WalkState) : Prop :=
  walk_turn client options s = Continue s'.

(** The copy of the ladder in the signal handler agrees with the original.
    At every point of a verifying walk, the code a second interrupt exits with
    is the code [summarizeWalk] gives the pages checked so far when the walk is
    cancelled. *)
Theorem force_exit_agrees client onPage aborted s x :
  let options := mkWalkOptions true onPage aborted in
  rtc (walk_step client options) walk_start s →
  force_exit (w_events s) =
  sm_exitCode (summarizeWalk (k_pages (w_check s))
    (mkSummaryInput x cancelled (k_closures (w_check s)))).
Proof.
  intros options Hs. assert (walk_inv options s) as Hi.
  { assert (walk_inv options walk_start) as H0 by apply walk_inv_start.
    induction Hs as [s|s s' s'' Hst _ IH]; [done|]. apply IH.
    pose proof (walk_turn_inv client options s H0) as Ht. unfold walk_step in Hst. rewrite Hst in Ht.
    apply Ht. }
  pose proof (wi_check _ _ Hi) as Hk. simpl in Hk.
  rewrite (checked_flags _ _ _ _ _ Hk) by done. unfold force_exit.
  by rewrite (wi_break _ _ Hi), (wi_conflict _ _ Hi).
Qed.
End walk_properties.

(** ** Concrete walks *)

(** A server that hands out one row at a time, newest first. *)
Definition row_server (rows : list ChainEntry) : ApiClient := λ n _ _,
  Ok (mkAuditList (take 1 (drop n rows)) (if (S n <? length rows)%nat then Some (js "more") else None)).
Definition verifying : WalkOptions := mkWalkOptions true (λ _ _, None) (λ _, false).
Definition walk_code (client : ApiClient) : option (Z * WalkStopReason) :=
  match walkAuditChain client verifying with
  | Some (Ok r, _) => Some (sm_exitCode (summary_of r), wr_stopReason r)
  | _ => None
  end.

(** One epoch, a row numbered -1 in front of the one that opens it: a page for each row,
    and one page for both. *)
Definition demo_before := demo_entry (js "a") (-1) GENESIS_SENTINEL None.
Example negative_row_at_seam :
  let paged := row_server [demo_a0; demo_before] in
  let whole : ApiClient := λ _ _ _, Ok (mkAuditList [demo_a0; demo_before] None) in
  walk_code paged = Some (3, exhausted) ∧ walk_code whole = Some (4, exhausted).
Proof. vm_compute. by split. Qed.

(** A whole log, a log without its first row, a log with a row rewritten, a server
    that repeats a page, and one that fails. *)
Example walk_codes :
  walk_code (row_server [demo_b0; demo_a1; demo_a0]) = Some (0, exhausted) ∧
  walk_code (row_server [demo_b0; demo_a1]) = Some (4, exhausted) ∧
  walk_code (row_server [demo_b0; demo_a2; demo_a0]) = Some (3, exhausted) ∧
  walk_code (λ n l c, row_server [demo_b0; demo_a1; demo_a0] (n mod 2)%nat l c) = Some (4, cursor_stalled) ∧
  walk_code (λ n l c, if (n =? 1)%nat then Throw RangeError else row_server [demo_b0; demo_a1] n l c) = None.
Proof. vm_compute. by split_and!. Qed.

Definition demo_result : WalkResult :=
  match walkAuditChain (row_server [demo_b0; demo_a1; demo_a0]) verifying with
  | Some (Ok r, _) => r
  | _ => finish_walk walk_start false exhausted
  end.
Definition demo_events : list WalkEvent :=
  match walkAuditChain (row_server [demo_b0; demo_a1; demo_a0]) verifying with
  | Some (_, ev) => ev | None => [] end.
Definition demo_state : WalkState :=
  match walk_turn (row_server [demo_b0; demo_a2; demo_a0]) verifying walk_start with
  | Continue s => match walk_turn (row_server [demo_b0; demo_a2; demo_a0]) verifying s with
                  | Continue s' => s' | _ => s end
  | _ => walk_start end.


Lemma force_exit_agrees_witness :
  force_exit (w_events demo_state) = EXIT_BROKEN_CHAIN ∧
  force_exit (w_events demo_state) =
  sm_exitCode (summarizeWalk (k_pages (w_check demo_state))
    (mkSummaryInput false cancelled (k_closures (w_check demo_state)))).
Proof.
  split; [vm_compute; reflexivity|].
  apply (force_exit_agrees (row_server [demo_b0; demo_a2; demo_a0]) (λ _ _, None) (λ _, false)).
  apply (rtc_l _ _ (match walk_turn (row_server [demo_b0; demo_a2; demo_a0]) verifying walk_start with
                    | Continue s => s | _ => walk_start end)).
  - vm_compute. reflexivity.
  - apply rtc_once. vm_compute. reflexivity.
Defined.

(** An empty page under an open cursor: the walk says it exhausted the log, the
    exit code that it did not, and no reason is given. *)
Example empty_page_open_cursor :
  match walkAuditChain (λ _ _ _, Ok (mkAuditList [] (Some (js "more")))) verifying with
  | Some (Ok r, _) =>
      wr_stopReason r = exhausted ∧ sm_exitCode (summary_of r) = EXIT_UNCHECKED_EDGE ∧
      sm_uncheckedReasons (summary_of r) = []
  | _ => False
  end.
Proof. vm_compute. by split_and!. Qed.
