(* ===== verification/Dump.v ===== *)
(** * The dump file: [packages/cli/src/audit/dump.ts]

    The line format of [log dump], the guarded reader of its lines, and the
    streaming verification of [log verify --file], in batches of its own size.
    A line is modelled by what [JSON.parse] makes of it. *)

From S2P Require Export Walk.
Open Scope Z_scope.

(** ** The dump file *)

Definition DUMP_FORMAT_VERSION : Z := 1.
Definition READ_BATCH_SIZE : nat := 200.
Arguments READ_BATCH_SIZE : simpl never.

Definition dumpManifestLine : json_text :=
  Parsed (JObj [(js "habenulaAuditDump", jint DUMP_FORMAT_VERSION); (js "hashFormat", JStr AUDIT_HASH_FORMAT)]).

Definition json_opt (o : option jsstr) : json := match o with Some s => JStr s | None => JNull end.
Definition dumpEntryLine (entry : ChainEntry) : json_text :=
  Parsed (JObj [
    (js "epochId", JStr (h_epochId entry));
    (js "sequenceNum", jint (h_sequenceNum entry));
    (js "prevHash", JStr (h_prevHash entry));
    (js "id", JStr (h_id entry));
    (js "timestamp", JStr (h_timestamp entry));
    (js "userId", JStr (h_userId entry));
    (js "agentId", JStr (h_agentId entry));
    (js "sessionId", JStr (h_sessionId entry));
    (js "origin", JStr (h_origin entry));
    (js "service", JStr (h_service entry));
    (js "verb", JStr (h_verb entry));
    (js "noun", JStr (h_noun entry));
    (js "toolName", JStr (h_toolName entry));
    (js "parametersMetadata", JStr (h_parametersMetadata entry));
    (js "decision", JStr (h_decision entry));
    (js "outcome", JStr (h_outcome entry));
    (js "errorMessage", json_opt (h_errorMessage entry));
    (js "decisionEntryId", json_opt (h_decisionEntryId entry));
    (js "latencyMs", jint (h_latencyMs entry));
    (js "costUsd", match h_costUsd entry with Some n => JNum n | None => JNull end);
    (js "hash", JStr (ce_hash entry));
    (js "epochPrevHash", json_opt (ce_epochPrevHash entry))]).

(** The guards on one field of a line. *)
Definition str_field (fs : fields) (k : jsstr) : option jsstr :=
  match get k fs with Some (JStr s) => Some s | _ => None end.
Definition nullable_field (fs : fields) (k : jsstr) : option (option jsstr) :=
  match get k fs with Some (JStr s) => Some (Some s) | Some JNull => Some None | _ => None end.
Definition integer_field (fs : fields) (k : jsstr) : option Z :=
  match get k fs with Some (JNum n) => num_int n | _ => None end.
Definition cost_field (fs : fields) (k : jsstr) : option (option jsnum) :=
  match get k fs with Some (JNum n) => Some (Some n) | Some JNull => Some None | _ => None end.

Definition CHAIN_ENTRY_KEY_COUNT : nat := 22.

Definition readChainEntryLine (line : json_text) : option ChainEntry :=
  match JSON_parse line with
  | Some (JObj fs) =>
      if negb (length fs =? CHAIN_ENTRY_KEY_COUNT)%nat then None else
      epochId ← str_field fs (js "epochId");
      prevHash ← str_field fs (js "prevHash");
      id ← str_field fs (js "id");
      timestamp ← str_field fs (js "timestamp");
      userId ← str_field fs (js "userId");
      agentId ← str_field fs (js "agentId");
      sessionId ← str_field fs (js "sessionId");
      origin ← str_field fs (js "origin");
      service ← str_field fs (js "service");
      verb ← str_field fs (js "verb");
      noun ← str_field fs (js "noun");
      toolName ← str_field fs (js "toolName");
      parametersMetadata ← str_field fs (js "parametersMetadata");
      decision ← str_field fs (js "decision");
      outcome ← str_field fs (js "outcome");
      hash ← str_field fs (js "hash");
      errorMessage ← nullable_field fs (js "errorMessage");
      decisionEntryId ← nullable_field fs (js "decisionEntryId");
      epochPrevHash ← nullable_field fs (js "epochPrevHash");
      sequenceNum ← integer_field fs (js "sequenceNum");
      latencyMs ← integer_field fs (js "latencyMs");
      costUsd ← cost_field fs (js "costUsd");
      Some (mkChainEntry
        (mkEntryHashFields epochId sequenceNum prevHash id timestamp userId agentId sessionId origin
          service verb noun toolName parametersMetadata decision outcome errorMessage
          decisionEntryId latencyMs costUsd) hash epochPrevHash)
  | _ => None
  end.

(** [DumpFileError], by the message it carries. *)
Inductive DumpFileError :=
  | not_a_manifest | unrecognised_version | unrecognised_hash_format | corrupt_interior | empty_file.

Definition readDumpManifest (line : json_text) : option DumpFileError :=
  match JSON_parse line with
  | Some parsed =>
      if negb (is_object parsed) then Some not_a_manifest
      else match member (js "habenulaAuditDump") parsed with
           | Some (JNum n) =>
               if negb (bool_decide (num_int n = Some DUMP_FORMAT_VERSION)) then Some unrecognised_version
               else match member (js "hashFormat") parsed with
                    | Some (JStr s) =>
                        if bool_decide (s = AUDIT_HASH_FORMAT) then None else Some unrecognised_hash_format
                    | _ => Some unrecognised_hash_format
                    end
           | _ => Some unrecognised_version
           end
  | None => Some not_a_manifest
  end.

Section dump.
Context `{Platform}.

Record DumpState := mkDumpState {
  ds_check : CheckState;
  ds_batch : list ChainEntry;
  ds_entriesSeen : nat;
  ds_newest : option ChainLocation;
  ds_oldest : option ChainLocation;
  ds_sawManifest : bool;
  ds_pendingMalformed : bool;
  ds_events : list WalkEvent;
}.
Definition dump_start : DumpState := mkDumpState check_start [] 0 None None false false [].

Record DumpVerifyResult := mkDumpResult {
  dr_pages : list ChainVerdict;
  dr_closures : list ClosureVerdict;
  dr_closureCarry : list CloserRef;
  dr_entriesSeen : nat;
  dr_newest : option ChainLocation;
  dr_oldest : option ChainLocation;
  dr_stopReason : WalkStopReason;
}.

Definition flushBatch (s : DumpState) : DumpState :=
  match ds_batch s with
  | [] => s
  | _ =>
      let '(c, raised) := check_page (ds_batch s) (ds_check s) in
      mkDumpState c [] (ds_entriesSeen s) (ds_newest s) (ds_oldest s) (ds_sawManifest s)
        (ds_pendingMalformed s) (ds_events s ++ raised)
  end.

Definition dump_result (s : DumpState) (stop : WalkStopReason) : DumpVerifyResult :=
  mkDumpResult (k_pages (ds_check s)) (k_closures (ds_check s)) (k_closureCarry (ds_check s))
    (ds_entriesSeen s) (ds_newest s) (ds_oldest s) stop.

(** One line that is not the manifest: an entry joins the batch. *)
Definition push_entry (entry : ChainEntry) (s : DumpState) : DumpState :=
  let s' := mkDumpState (ds_check s) (ds_batch s ++ [entry]) (S (ds_entriesSeen s))
    (match ds_newest s with None => Some (location entry) | n => n end) (Some (location entry))
    (ds_sawManifest s) (ds_pendingMalformed s) (ds_events s) in
  if (READ_BATCH_SIZE <=? length (ds_batch s'))%nat then flushBatch s' else s'.

Definition read_line (line : json_text) (s : DumpState) : DumpFileError + DumpState :=
  if negb (ds_sawManifest s) then
    match readDumpManifest line with
    | Some e => inl e
    | None => inr (mkDumpState (ds_check s) (ds_batch s) (ds_entriesSeen s) (ds_newest s) (ds_oldest s)
                true (ds_pendingMalformed s) (ds_events s))
    end
  else if ds_pendingMalformed s then inl corrupt_interior
  else match readChainEntryLine line with
       | None => inr (mkDumpState (ds_check s) (ds_batch s) (ds_entriesSeen s) (ds_newest s)
                   (ds_oldest s) true true (ds_events s))
       | Some entry => inr (push_entry entry s)
       end.

Definition end_of_file (s : DumpState) : DumpFileError + (DumpVerifyResult * list WalkEvent) :=
  let s := flushBatch s in
  if negb (ds_sawManifest s) then inl empty_file
  else inr (dump_result s (if ds_pendingMalformed s then partial_file else exhausted), ds_events s).

(** [aborted n] is the state of the signal when the n-th line arrives. *)
Fixpoint verify_lines (aborted : nat → bool) (n : nat) (lines : list json_text) (s : DumpState)
    : DumpFileError + (DumpVerifyResult * list WalkEvent) :=
  match lines with
  | [] => end_of_file s
  | line :: lines' =>
      if aborted n then
        let s := flushBatch s in inr (dump_result s cancelled, ds_events s)
      else match read_line line s with
           | inl e => inl e
           | inr s' => verify_lines aborted (S n) lines' s'
           end
  end.

Definition verifyDumpLines (aborted : nat → bool) (lines : list json_text)
    : DumpFileError + (DumpVerifyResult * list WalkEvent) :=
  verify_lines aborted 0 lines dump_start.

(** [runLogVerify] over a file. *)
Definition summary_of_dump (r : DumpVerifyResult) : WalkSummary :=
  summarizeWalk (dr_pages r) (mkSummaryInput true (dr_stopReason r) (dr_closures r)).
End dump.


(** ** The line format round-trips *)

Lemma dump_line_reads e : readChainEntryLine (dumpEntryLine e) = Some e.
Proof.
  destruct e as [[ep seq ph id ts u a s o sv vb nn tn pm dc oc em de lat cost] h l].
  destruct em, de, cost, l; cbv -[num_of_Z num_int]; by rewrite !num_int_of_Z.
Qed.

Lemma manifest_reads : readDumpManifest dumpManifestLine = None.
Proof. reflexivity. Qed.

(** ** The reader's invariant *)

(** No row numbered zero continues its predecessor's epoch. *)
Definition proper (es : list ChainEntry) : Prop :=
  ∀ l p e k, es = l ++ p :: e :: k → seam_proper p e.

Lemma proper_app l k : proper (l ++ k) →
  proper k ∧ ∀ p e, last l = Some p → head k = Some e → seam_proper p e.
Proof.
  intros Hp. split.
  - intros l' p e k' ->. apply (Hp (l ++ l') p e k'). by rewrite <- (assoc_L (++)).
  - intros p e [l' ->]%last_Some. destruct k as [|e' k]; [done|]. intros [= ->].
    apply (Hp l' p e k). by rewrite <- (assoc_L (++)).
Qed.

Section dump_inv.
Context `{Platform}.
Implicit Types (s : DumpState) (l batch : list ChainEntry).

(** What has been read, newest first: batches already checked, and the rest. *)
Record dump_inv l s : Prop := {
  di_split : ∃ past, l = past ++ ds_batch s ∧
               checked (rev past) (proper (rev past)) (ds_check s);
  di_seen : ds_entriesSeen s = length l;
  di_manifest : ds_sawManifest s = true;
  di_whole : ds_pendingMalformed s = false;
}.

Lemma flush_checked l s :
  dump_inv l s →
  dump_inv l (flushBatch s) ∧ ds_batch (flushBatch s) = [] ∧
  checked (rev l) (proper (rev l)) (ds_check (flushBatch s)).
Proof.
  intros [(past&->&Hc) Hs Hm Hw]. unfold flushBatch. destruct (ds_batch s) as [|b batch] eqn:Eb.
  { rewrite app_nil_r in *. split_and!; try done. split; try done.
    exists past. by rewrite Eb, app_nil_r. }
  pose proof (checked_page (b :: batch) (rev past) (proper (rev past))
    (proper (rev (past ++ b :: batch))) (ds_check s) ltac:(done) Hc) as Hp.
  rewrite <- rev_app_distr in Hp. destruct (check_page (b :: batch) (ds_check s)) as [c raised].
  assert (checked (rev (past ++ b :: batch)) (proper (rev (past ++ b :: batch))) c) as Hc'.
  { apply Hp. rewrite rev_app_distr. intros Hpr. apply proper_app in Hpr as [? Hseam].
    split; [done|]. intros p e Hh He. apply Hseam; [|done]. by rewrite last_rev_head. }
  split_and!; [|done|done]. split; try done. exists (past ++ b :: batch). by rewrite app_nil_r.
Qed.

Lemma push_inv l s e : dump_inv l s → dump_inv (l ++ [e]) (push_entry e s).
Proof.
  intros [(past&->&Hc) Hs Hm Hw]. unfold push_entry. cbv zeta.
  match goal with |- dump_inv _ (if _ then flushBatch ?s' else _) =>
    assert (dump_inv ((past ++ ds_batch s) ++ [e]) s') as Hi end.
  { split; try done.
    - exists past. split; [by rewrite <- app_assoc|exact Hc].
    - simpl. rewrite Hs, !length_app. simpl. lia. }
  destruct (READ_BATCH_SIZE <=? _)%nat; [|exact Hi]. by apply flush_checked.
Qed.

Lemma read_rows aborted rows n rest l s :
  dump_inv l s → (∀ k, aborted k = false) →
  ∃ s', dump_inv (l ++ rows) s' ∧
    verify_lines aborted n ((dumpEntryLine <$> rows) ++ rest) s =
    verify_lines aborted (n + length rows) rest s'.
Proof.
  intros Hi Ha. revert n l s Hi. induction rows as [|e rows IH]; intros n l s Hi.
  { exists s. rewrite app_nil_r, Nat.add_0_r. done. }
  cbn [fmap list_fmap app verify_lines]. rewrite Ha. unfold read_line.
  rewrite (di_manifest _ _ Hi), (di_whole _ _ Hi), dump_line_reads. simpl negb. cbv iota.
  destruct (IH (S n) (l ++ [e]) (push_entry e s) (push_inv _ _ _ Hi)) as (s'&Hi'&E).
  exists s'. rewrite <- (assoc_L (++)) in Hi'. split; [exact Hi'|]. rewrite E. f_equal. simpl. lia.
Qed.

Lemma read_start aborted rows rest :
  (∀ k, aborted k = false) →
  ∃ n s', dump_inv rows s' ∧
    verifyDumpLines aborted (dumpManifestLine :: (dumpEntryLine <$> rows) ++ rest) =
    verify_lines aborted n rest s'.
Proof.
  intros Ha. unfold verifyDumpLines. cbn [verify_lines]. rewrite Ha.
  change (read_line dumpManifestLine dump_start) with
    (inr (mkDumpState check_start [] 0 None None true false []) : DumpFileError + DumpState).
  destruct (read_rows aborted rows 1 rest [] (mkDumpState check_start [] 0 None None true false []))
    as (s'&Hi&E); [|done|].
  { split; try done. exists []. split; [done|]. apply checked_start. }
  exists (1 + length rows)%nat, s'. by split.
Qed.
End dump_inv.

(** The verdict of a file of rows, whole or torn after its last row. *)
Section file_verdict.
Context `{Platform}.

Lemma torn_file_reads rows bad torn stop :
  readChainEntryLine bad = None →
  torn = [] ∧ stop = exhausted ∨ torn = [bad] ∧ stop = partial_file →
  ∃ r events s,
    verifyDumpLines (λ _, false) (dumpManifestLine :: (dumpEntryLine <$> rows) ++ torn) = inr (r, events) ∧
    r = dump_result s stop ∧ dump_inv rows s ∧
    checked (rev rows) (proper (rev rows)) (ds_check s).
Proof.
  intros Hbad Ht. destruct (read_start (λ _, false) rows torn (λ _, eq_refl)) as (n&s&Hi&->).
  assert (verify_lines (λ _, false) n torn s =
    inr (dump_result (flushBatch s) stop, ds_events (flushBatch s))) as ->.
  { destruct Ht as [[-> ->]|[-> ->]]; cbn [verify_lines].
    - unfold end_of_file. destruct (flush_checked _ _ Hi) as ([_ _ Hm Hw]&_). by rewrite Hm, Hw.
    - unfold read_line. rewrite (di_manifest _ _ Hi), (di_whole _ _ Hi), Hbad.
      unfold end_of_file. cbn [negb].
      destruct s as [c b e nw ol m p ev]. destruct Hi as [_ _ Hm Hw]. simpl in Hm, Hw. subst m p.
      unfold flushBatch. cbn [ds_batch ds_check]. destruct b as [|x b]; [done|].
      by destruct (check_page (x :: b) c). }
  destruct (flush_checked _ _ Hi) as (Hf&_&Hc). by do 3 eexists.
Qed.
End file_verdict.

(** ** Properties *)

Section dump_properties.
Context `{Platform}.

(** A dump file is read as what was written, and a damaged one is never
    read as whole. The lines of any rows, in batches of whatever size, give
    the verdict of those rows checked in one piece; with a torn last line they
    give the verdict of the rows before it and an unchecked edge; a damaged
    line anywhere else is an error of the file and no verdict. *)
Theorem dump_reads_back rows bad more :
  readChainEntryLine bad = None →
  let es := rev rows in
  let cl := checkDecisionClosure es [] true in
  let lines := dumpManifestLine :: (dumpEntryLine <$> rows) in
  (∀ torn stop, (torn = [] ∧ stop = exhausted ∨ torn = [bad] ∧ stop = partial_file) →
    ∃ r events, verifyDumpLines (λ _, false) (lines ++ torn) = inr (r, events) ∧
      dr_stopReason r = stop ∧ dr_entriesSeen r = length rows ∧
      sm_entriesChecked (summary_of_dump r) = length rows ∧
      sm_conflicted (summary_of_dump r) = conflicted cl ∧
      (sm_exitCode (summary_of_dump r) = 0 → intact es) ∧
      (proper es → sm_exitCode (summary_of_dump r) = verdict_code es stop true)) ∧
  verifyDumpLines (λ _, false) (lines ++ bad :: more) =
    match more with [] => verifyDumpLines (λ _, false) (lines ++ [bad]) | _ => inl corrupt_interior end.
Proof.
  intros Hbad es cl lines. split.
  - intros torn stop Ht. unfold lines. rewrite <- app_comm_cons.
    destruct (torn_file_reads rows bad torn stop Hbad Ht) as (r&events&s&E&->&Hf&Hc).
    do 2 eexists. split; [exact E|]. split_and!; [done|apply (di_seen _ _ Hf)|..].
    + unfold summary_of_dump, summarizeWalk. cbn [sm_entriesChecked]. rewrite <- (length_rev rows).
      apply (ck_count _ _ _ Hc).
    + apply (ck_conflicts _ _ _ Hc).
    + intros Hz. by apply (checked_zero _ _ _ _ _ Hc) in Hz as [? _].
    + intros Hp. by apply (checked_code _ _ _ _ _ Hc).
  - destruct more as [|m more]; [done|]. unfold lines. rewrite <- app_comm_cons.
    destruct (read_start (λ _, false) rows (bad :: m :: more) (λ _, eq_refl)) as (n&s&Hi&->).
    cbn [verify_lines]. unfold read_line at 1.
    rewrite (di_manifest _ _ Hi), (di_whole _ _ Hi), Hbad. by cbn.
Qed.
End dump_properties.

Lemma dump_reads_back_witness :
  let rows := [demo_b0; demo_a1; demo_a0] in
  let es := rev rows in
  let cl := checkDecisionClosure es [] true in
  let lines := dumpManifestLine :: (dumpEntryLine <$> rows) in
  (∀ torn stop, (torn = [] ∧ stop = exhausted ∨ torn = [NotJson []] ∧ stop = partial_file) →
    ∃ r events, verifyDumpLines (λ _, false) (lines ++ torn) = inr (r, events) ∧
      dr_stopReason r = stop ∧ dr_entriesSeen r = length rows ∧
      sm_entriesChecked (summary_of_dump r) = length rows ∧
      sm_conflicted (summary_of_dump r) = conflicted cl ∧
      (sm_exitCode (summary_of_dump r) = 0 → intact es) ∧
      (proper es → sm_exitCode (summary_of_dump r) = verdict_code es stop true)) ∧
  verifyDumpLines (λ _, false) (lines ++ NotJson [] :: [NotJson []]) = inl corrupt_interior.
Proof. exact (dump_reads_back [demo_b0; demo_a1; demo_a0] (NotJson []) [NotJson []] eq_refl). Defined.

(** Codes of files: whole, torn, rewritten. *)
Example dump_codes :
  let code lines := match verifyDumpLines (λ _, false) lines with
                    | inr (r, _) => Some (sm_exitCode (summary_of_dump r)) | inl _ => None end in
  let file rows := dumpManifestLine :: (dumpEntryLine <$> rows) in
  code (file [demo_b0; demo_a1; demo_a0]) = Some 0 ∧
  code (file [demo_b0; demo_a1; demo_a0] ++ [NotJson []]) = Some 4 ∧
  code (file [demo_b0; demo_a1]) = Some 4 ∧
  code (file [demo_b0; demo_a0]) = Some 3 ∧
  code [] = None ∧ code (file []) = Some 0.
Proof. vm_compute. by split_and!. Qed.
