(* ===== verification/EngineWalk.v ===== *)
(** * The walk over the engine's own log

    What [log verify] and [log dump] see of a healthy engine, while it goes on
    writing: the whole log, once, and nothing else; and what the file written by
    one tells the other. *)

From S2P Require Export Dump.
Open Scope Z_scope.

(** ** The engine as a server *)

Section engine.
Context `{Platform} `{!PlatformLaws _}.

(** The engine as a client sees it: the n-th request reads the log as it is then. *)
Definition engine (logs : nat → list AuditLogRow) : ApiClient := λ n limit cursor,
  match audit_response (logs n) (clampAuditPageLimit (Some (Finite (num_of_Z limit))))
          (decodeAuditCursor cursor) with
  | Some r => Ok r
  | None => Throw invalid_character
  end.

Definition uninterrupted (verify : bool) : WalkOptions := mkWalkOptions verify (λ _ _, None) (λ _, false).

Lemma newest_first_app log extra : newest_first (log ++ extra) = newest_first extra ++ newest_first log.
Proof. unfold newest_first. by rewrite fmap_app, rev_app_distr. Qed.

Lemma newest_first_desc log n pre a b post :
  log_inv log n → newest_first log = pre ++ a :: b :: post → sortsStrictlyBelow b a = true.
Proof.
  intros Hl E. pose proof (log_chain _ _ Hl) as Hc.
  destruct (chain_from_sorted _ _ Hc) as [Hs _].
  assert (al_chain <$> log = (rev post ++ [b]) ++ a :: rev pre) as El.
  { apply (f_equal (@rev _)) in E. unfold newest_first in E. rewrite rev_involutive in E. rewrite E.
    rewrite rev_app_distr. simpl. by rewrite <- !(assoc_L (++)). }
  rewrite El in Hs. apply StronglySorted_middle in Hs as [Hs _].
  apply Forall_app in Hs as [_ Hs]. apply Forall_inv in Hs.
  assert (plain_text (h_epochId b) ∧ plain_text (h_epochId a)) as [Hpb Hpa].
  { split; eapply (log_inv_plain _ _ _ Hl); rewrite El; set_solver. }
  unfold sortsStrictlyBelow. destruct Hs as [Hlt|[Ee Hlt]].
  - rewrite sql_lt_ascii in Hlt by auto with wb. by rewrite Hlt.
  - rewrite Ee, bool_decide_eq_true_2 by done. rewrite (proj2 (Z.ltb_lt _ _) Hlt). by destruct (js_lt _ _).
Qed.

Lemma delivered_of s s' page :
  covered (w_events s') = rev page ++ covered (w_events s) →
  delivered (w_events s') = delivered (w_events s) ++ page.
Proof.
  unfold covered. intros E. apply (f_equal (@rev _)) in E. by rewrite rev_app_distr, !rev_involutive in E.
Qed.

Section served.
Variables (verify : bool) (logs : nat → list AuditLogRow) (ids : nat → nat).
Hypothesis logs_ok : ∀ k, log_inv (logs k) (ids k).
Hypothesis logs_grow : ∀ k, ∃ extra, logs (S k) = logs k ++ extra.
Hypothesis logs_safe : ∀ k, Z.of_nat (length (logs k)) <= max_safe.

(** The rows the page ceiling allows, and the newest rows of a log it reaches. *)
Definition ceiling_rows : nat := (200 * AUDIT_MAX_PAGES)%nat.
Definition reached (log : list AuditLogRow) : list ChainEntry :=
  drop (length log - ceiling_rows) (al_chain <$> log).
Definition within (log : list AuditLogRow) : bool := (length log <=? ceiling_rows)%nat.
Definition stop_at (log : list AuditLogRow) : WalkStopReason := if within log then exhausted else page_ceiling.

(** [rest] is what a walk still has to be handed. *)
Record serving (s : WalkState) (rest : list ChainEntry) : Prop := {
  sv_inv : walk_inv (uninterrupted verify) s;
  sv_split : newest_first (logs 0) = delivered (w_events s) ++ rest;
  sv_asks : asks_for (w_cursor s) (logs (w_pagesFetched s)) rest;
  sv_length : length (delivered (w_events s)) = (200 * w_pagesFetched s)%nat;
  sv_rest : rest = [] → w_pagesFetched s = 0%nat;
}.

Lemma served_not_stalled s first rest :
  serving s (first :: rest) → stalled (w_previousOldest s) first = false.
Proof.
  intros [Hi Hs _ _ _]. rewrite (wi_prev _ _ Hi).
  destruct (delivered (w_events s)) as [|p l _] using rev_ind; [done|].
  rewrite last_snoc. simpl. rewrite <- (assoc_L (++)) in Hs. simpl in Hs.
  by rewrite (newest_first_desc _ _ _ _ _ _ (logs_ok 0) Hs).
Qed.

Lemma take_whole_page s first page next rest :
  serving s rest → page ≠ [] → head page = Some first → stalled (w_previousOldest s) first = false →
  ∃ s', take_page (uninterrupted verify) s first page next =
          match next with None => Break s' true exhausted | Some _ => Continue s' end ∧
    walk_inv (uninterrupted verify) s' ∧ w_pagesFetched s' = S (w_pagesFetched s) ∧ w_cursor s' = next ∧
    delivered (w_events s') = delivered (w_events s) ++ page.
Proof.
  intros Hs Hne Hh Hst. pose proof (take_page_inv (uninterrupted verify) s first page next (sv_inv _ _ Hs) Hne Hh Hst) as Ht.
  unfold take_page in *. cbn [wo_onPage uninterrupted wo_verify] in *.
  destruct (if verify then _ else _) as [c raised].
  eexists. split; [by destruct next|]. destruct next; destruct Ht as (?&?&Hd); apply delivered_of in Hd; done.
Qed.

(** Where the loop stops with [rest] unseen: at the end of the log or at the ceiling. *)
Definition served_all (s : WalkState) : Prop :=
  walk_inv (uninterrupted verify) s ∧ covered (w_events s) = reached (logs 0).

Lemma serving_count s rest :
  serving s rest → length (logs 0) = (length (delivered (w_events s)) + length rest)%nat.
Proof.
  intros Hs. pose proof (f_equal length (sv_split _ _ Hs)) as Hl. unfold newest_first in Hl.
  by rewrite length_rev, length_fmap, length_app in Hl.
Qed.
Lemma covered_reached events rest :
  newest_first (logs 0) = delivered events ++ rest →
  length rest = (length (logs 0) - ceiling_rows)%nat → covered events = reached (logs 0).
Proof.
  intros E Hl. unfold reached. rewrite <- Hl, <- (rev_involutive (al_chain <$> logs 0)).
  change (rev (al_chain <$> logs 0)) with (newest_first (logs 0)). rewrite E, rev_app_distr.
  by rewrite <- (length_rev rest), drop_app_length.
Qed.

Lemma served_ceiling s rest :
  serving s rest → (AUDIT_MAX_PAGES <= w_pagesFetched s)%nat → (w_pagesFetched s <= AUDIT_MAX_PAGES)%nat →
  served_all s ∧ within (logs 0) = false.
Proof.
  intros Hs Hge Hle. pose proof (serving_count _ _ Hs) as Hl. rewrite (sv_length _ _ Hs) in Hl.
  assert (w_pagesFetched s = AUDIT_MAX_PAGES) as Ef by lia.
  assert (rest ≠ []) as Hr. { intros Hr%(sv_rest _ _ Hs). rewrite Ef in Hr. discriminate Hr. }
  assert (0 < length rest)%nat by (destruct rest; [done|simpl; lia]). split; [split; [apply Hs|]|].
  - apply (covered_reached _ rest (sv_split _ _ Hs)). unfold ceiling_rows. lia.
  - apply Nat.leb_gt. unfold ceiling_rows. lia.
Qed.

Lemma served_turn s rest :
  serving s rest → (w_pagesFetched s <= AUDIT_MAX_PAGES)%nat →
  (∃ s', walk_turn (engine logs) (uninterrupted verify) s = Break s' (within (logs 0)) (stop_at (logs 0)) ∧
     served_all s') ∨
  (∃ s' rest', walk_turn (engine logs) (uninterrupted verify) s = Continue s' ∧ serving s' rest' ∧
     w_pagesFetched s' = S (w_pagesFetched s) ∧ (w_pagesFetched s < AUDIT_MAX_PAGES)%nat).
Proof.
  intros Hs Hm'. pose proof Hs as [Hi Hsp Ha Hlen Hr]. pose proof (serving_count _ _ Hs) as Hl.
  unfold walk_turn. cbn [wo_aborted uninterrupted].
  destruct (Nat.leb_spec AUDIT_MAX_PAGES (w_pagesFetched s)) as [Hge|Hm].
  { left. destruct (served_ceiling _ _ Hs Hge Hm') as [Hall Hw]. exists s. unfold stop_at. by rewrite Hw. }
  unfold engine.
  change (clampAuditPageLimit (Some (Finite (num_of_Z WALK_REQUEST_LIMIT)))) with 200.
  destruct (audit_response_spec (w_cursor s) _ _ rest 200 (logs_ok _) Ha (logs_safe _) ltac:(lia))
    as [[-> Hle]|(page&c&rest'&next&Er&Hne&Hpl&->&Hd)]; cbn [entries al_nextCursor].
  - left. assert (length (logs 0) <= ceiling_rows)%nat as Hc by (unfold ceiling_rows; lia).
    assert (within (logs 0) = true) as Hw by by apply Nat.leb_le.
    unfold stop_at. rewrite Hw. destruct rest as [|first rest].
    + exists s. split; [done|]. split; [done|]. apply (covered_reached _ [] Hsp). simpl. lia.
    + rewrite (served_not_stalled _ _ _ Hs).
      destruct (take_whole_page s first (first :: rest) None (first :: rest) Hs) as (s'&->&Hi'&_&_&Hd);
        [done..|by eapply served_not_stalled|].
      exists s'. split; [done|]. split; [done|]. apply (covered_reached _ []); [by rewrite Hd, app_nil_r|simpl; lia].
  - right. destruct (page ++ [c]) as [|first pg] eqn:Epg; [by destruct page|].
    rewrite Er in Hs. rewrite (served_not_stalled _ _ _ Hs).
    destruct (take_whole_page s first (first :: pg) (Some next) _ Hs) as (s'&->&Hi'&Hf&Hcur&Hdl);
      [done..|by eapply served_not_stalled|].
    exists s', rest'. split_and!; [done| |done|done]. split; [done|..].
    + by rewrite Hdl, Hsp, Er, <- (assoc_L (++)).
    + right. rewrite Hf, Hcur. destruct (logs_grow (w_pagesFetched s)) as [extra ->].
      rewrite newest_first_app.
      assert (∃ pre, newest_first (logs (w_pagesFetched s)) = pre ++ rest) as [pre Hpre].
      { destruct Ha as [[_ ->]|(pre&c0&->&_)]; [by exists []|].
        exists (pre ++ [c0]). by rewrite <- (assoc_L (++)). }
      exists (newest_first extra ++ pre ++ page), c. split; [|done].
      rewrite Hpre, Er, <- Epg, <- !(assoc_L (++)). done.
    + rewrite Hdl, length_app, Hlen, Hf, Hpl. change (Z.to_nat 200) with 200%nat. lia.
    + done.
Qed.

Lemma served_loop n s rest :
  serving s rest → (w_pagesFetched s <= AUDIT_MAX_PAGES)%nat → (AUDIT_MAX_PAGES - w_pagesFetched s < n)%nat →
  ∃ s', walk_loop n (engine logs) (uninterrupted verify) s =
      Some (Ok (finish_walk s' (within (logs 0)) (stop_at (logs 0))), w_events s') ∧ served_all s'.
Proof.
  revert s rest. induction n as [|n IH]; intros s rest Hs Hm Hn; [lia|]. simpl.
  destruct (served_turn s rest Hs Hm) as [(s'&->&?)|(s'&rest'&->&Hs'&?&?)]; [by exists s'|].
  apply (IH s' rest'); [done|lia|lia].
Qed.

Lemma served_walk :
  ∃ s, walkAuditChain (engine logs) (uninterrupted verify) =
      Some (Ok (finish_walk s (within (logs 0)) (stop_at (logs 0))), w_events s) ∧ served_all s.
Proof.
  apply (served_loop (S AUDIT_MAX_PAGES) walk_start (newest_first (logs 0))).
  - split; try done; first [apply walk_inv_start|by left].
  - cbn [w_pagesFetched walk_start]. lia.
  - cbn [w_pagesFetched walk_start]. lia.
Qed.
End served.
End engine.

Section engine_properties.
Context `{Platform} `{!PlatformLaws _}.

Lemma log_proper log n : log_inv log n → proper (al_chain <$> log).
Proof.
  intros Hl l p e k E Eq. destruct (chain_from_sorted _ _ (log_chain _ _ Hl)) as [Hs _].
  assert (al_chain <$> log = (l ++ [p]) ++ e :: k) as El by by rewrite E, <- (assoc_L (++)).
  rewrite El in Hs. apply StronglySorted_middle in Hs as [Hs _].
  apply Forall_app in Hs as [_ Hs]. apply Forall_inv in Hs.
  assert (p ∈ al_chain <$> log) as Hin by (rewrite El; set_solver).
  destruct (log_inv_plain _ _ _ Hl Hin) as [_ ?].
  destruct Hs as [Hlt|[_ Hlt]]; [|lia]. by rewrite Eq, sql_lt_irrefl in Hlt.
Qed.

Lemma reached_verdict log n :
  log_inv log n →
  breaks (verifyChainRange (reached log) None) = [] ∧ sequenced (reached log) ∧ proper (reached log) ∧
  (within log = true → reached log = al_chain <$> log ∧ head_unchecked (reached log) = false).
Proof.
  intros Hl. pose proof (log_chain _ _ Hl) as Hc.
  assert (proper (al_chain <$> log)) as Hp by by eapply log_proper.
  assert (intact (al_chain <$> log)) as Hi by by eapply log_inv_intact.
  assert (sequenced (al_chain <$> log)) as Hs.
  { apply Forall_forall. intros e He. destruct (log_inv_plain log n e Hl He) as [_ ?]. lia. }
  unfold reached, within. set (k := (length log - ceiling_rows)%nat).
  split_and!.
  - apply clean_verdict. split; [|by case_match]. rewrite <- (take_drop k) in Hi. by apply intact_app_inv in Hi as [_ ?].
  - by apply Forall_drop.
  - rewrite <- (take_drop k) in Hp. by apply proper_app in Hp as [? _].
  - intros Hw%Nat.leb_le. assert (k = 0%nat) as -> by (unfold k; lia). split; [done|].
    destruct (al_chain <$> log) as [|e l]; [done|]. destruct Hc as (_&(Hz&_&Hq)&_).
    unfold head_unchecked, verifyChainRange. cbn [drop nonempty]. by rewrite Hz, Hq.
Qed.

(** C37: verifying a healthy engine covers its log. Against an engine whose log only
    grows while it is read, an uninterrupted walk hands out the rows the log held when
    the walk began, oldest to newest, once each and no other: all of them, ending on the
    row that opened the log, when they are at most two million (ten thousand pages of two
    hundred), and the newest two million of a longer log, where it stops at the page
    ceiling. It finds no break and exactly the conflicted decisions of those rows, and
    exits 5 when there are any, else 0 for the whole log and 4 at the ceiling. (The log is
    one the engine wrote, [log_inv], of fewer than 2^53 rows; no request fails and nobody
    interrupts.) *)
Theorem engine_walk_complete logs ids :
  (∀ k, log_inv (logs k) (ids k)) → (∀ k, ∃ extra, logs (S k) = logs k ++ extra) →
  (∀ k, Z.of_nat (length (logs k)) <= max_safe) →
  ∃ r events, walkAuditChain (engine logs) (uninterrupted true) = Some (Ok r, events) ∧
    let all := al_chain <$> logs 0%nat in
    let whole := bool_decide (length all <= 200 * AUDIT_MAX_PAGES)%nat in
    let es := drop (length all - 200 * AUDIT_MAX_PAGES) all in
    let conflicts := conflicted (checkDecisionClosure es [] true) in
    covered events = es ∧ wr_entriesSeen r = length es ∧
    wr_stopReason r = (if whole then exhausted else page_ceiling) ∧
    sm_breaks (summary_of r) = [] ∧ sm_conflicted (summary_of r) = conflicts ∧
    sm_exitCode (summary_of r) =
      if bool_decide (conflicts = []) then if whole then 0 else EXIT_UNCHECKED_EDGE
      else EXIT_CONFLICTED_CLOSER.
Proof.
  intros Hok Hgrow Hsafe. destruct (served_walk true logs ids Hok Hgrow Hsafe) as (s&E&Hi&Hc).
  do 2 eexists. split; [exact E|]. cbv zeta. rewrite length_fmap.
  change (drop _ _) with (reached (logs 0%nat)).
  assert (bool_decide (length (logs 0%nat) <= 200 * AUDIT_MAX_PAGES)%nat = within (logs 0%nat)) as ->
    by (apply eq_true_iff_eq; rewrite bool_decide_eq_true; symmetry; apply Nat.leb_le).
  pose proof (wi_check _ _ Hi) as Hk. simpl in Hk. rewrite Hc in Hk.
  destruct (reached_verdict _ _ (Hok 0%nat)) as (Hb&Hs&_&Hw). split_and!; try done.
  - rewrite <- Hc. unfold covered. rewrite length_rev. apply (wi_seen _ _ Hi).
  - apply Permutation_nil_r. rewrite <- Hb. apply (ck_breaks _ _ _ Hk Hs).
  - apply (ck_conflicts _ _ _ Hk).
  - unfold summary_of. rewrite (checked_code _ _ _ _ _ Hk Hs). unfold verdict_code, stop_at. rewrite Hb.
    destruct (within (logs 0%nat)); [rewrite (proj2 (Hw eq_refl))|]; by destruct (conflicted _).
Qed.
End engine_properties.

(** ** The dump of an engine *)

(** What [runLogDump] writes: the manifest, then a line for each row it is handed. *)
Definition dump_lines (events : list WalkEvent) : list json_text :=
  dumpManifestLine :: (dumpEntryLine <$> delivered events).

Section dump_of_engine.
Context `{Platform} `{!PlatformLaws _}.

(** C39: a dump is evidence. Dumping an engine whose log only grows writes, after the
    manifest, one line for each row the log held when the dump began, newest first; each
    line reads back as its row, every field of it. Of a log longer than two million rows
    the newest two million are written and the dump exits 4 instead of 0. Verifying the
    file later, with no engine at all, reads as many rows, finds no break and exits as the
    rows checked in one piece do: for a whole log 0, or 5 when decisions conflict, as
    verifying that log over the wire does. (The log is as for the walk.) *)
Theorem dump_of_engine_verifies logs ids :
  (∀ k, log_inv (logs k) (ids k)) → (∀ k, ∃ extra, logs (S k) = logs k ++ extra) →
  (∀ k, Z.of_nat (length (logs k)) <= max_safe) →
  ∃ r events lines d devents, walkAuditChain (engine logs) (uninterrupted false) = Some (Ok r, events) ∧
    let all := al_chain <$> logs 0%nat in
    let whole := bool_decide (length all <= 200 * AUDIT_MAX_PAGES)%nat in
    let es := drop (length all - 200 * AUDIT_MAX_PAGES) all in
    dump_lines events = dumpManifestLine :: lines ∧ mapM readChainEntryLine lines = Some (rev es) ∧
    dump_code r = (if whole then 0 else EXIT_UNCHECKED_EDGE) ∧
    verifyDumpLines (λ _, false) (dump_lines events) = inr (d, devents) ∧
    dr_entriesSeen d = length es ∧ sm_breaks (summary_of_dump d) = [] ∧
    sm_exitCode (summary_of_dump d) = verdict_code es exhausted true ∧
    (whole = true → sm_exitCode (summary_of_dump d) =
      if bool_decide (conflicted (checkDecisionClosure all [] true) = []) then 0 else EXIT_CONFLICTED_CLOSER).
Proof.
  intros Hok Hgrow Hsafe. destruct (served_walk false logs ids Hok Hgrow Hsafe) as (s&E&Hi&Hc).
  assert (delivered (w_events s) = rev (reached (logs 0%nat))) as Hd
    by (rewrite <- Hc; unfold covered; by rewrite rev_involutive).
  destruct (torn_file_reads (rev (reached (logs 0%nat))) (NotJson []) [] exhausted eq_refl
    (or_introl (conj eq_refl eq_refl))) as (d&devents&ds&Ed&->&Hds&Hk).
  rewrite app_nil_r in Ed. rewrite rev_involutive in Hk.
  exists (finish_walk s (within (logs 0%nat)) (stop_at (logs 0%nat))), (w_events s),
    (dumpEntryLine <$> rev (reached (logs 0%nat))), (dump_result ds exhausted), devents.
  split; [exact E|]. cbv zeta. rewrite length_fmap. change (drop _ _) with (reached (logs 0%nat)).
  assert (bool_decide (length (logs 0%nat) <= 200 * AUDIT_MAX_PAGES)%nat = within (logs 0%nat)) as ->
    by (apply eq_true_iff_eq; rewrite bool_decide_eq_true; symmetry; apply Nat.leb_le).
  destruct (reached_verdict _ _ (Hok 0%nat)) as (Hb&_&Hp&Hw).
  assert (sm_exitCode (summary_of_dump (dump_result ds exhausted)) = verdict_code (reached (logs 0%nat)) exhausted true)
    as Hcode by (unfold summary_of_dump; by rewrite (checked_code _ _ _ _ _ Hk Hp)).
  split_and!.
  - unfold dump_lines. by rewrite Hd.
  - apply mapM_Some_2, Forall2_fmap_l, Forall_Forall2_diag, Forall_true. intros e. apply dump_line_reads.
  - unfold dump_code, stop_at. by destruct (within _).
  - unfold dump_lines. by rewrite Hd.
  - etransitivity; [apply (di_seen _ _ Hds)|]. apply length_rev.
  - apply Permutation_nil_r. rewrite <- Hb. apply (ck_breaks _ _ _ Hk Hp).
  - exact Hcode.
  - intros Hwh. destruct (Hw Hwh) as [<- Hh]. rewrite Hcode. unfold verdict_code. rewrite Hb, Hh.
    by destruct (conflicted _).
Qed.
End dump_of_engine.

(** ** A concrete log *)

Definition demo_writes : list (AuditEntryFields * option jsstr) :=
  [(demo_params, None); (demo_params, Some (js "uuid-0")); (demo_params, None)].
Definition demo_log : list AuditLogRow := audit_log (w_db (snd (for_each write demo_writes demo_world))).
Definition demo_logs (k : nat) : list AuditLogRow := take (S k) demo_log.
Definition demo_ids : nat := w_uuids (snd (for_each write demo_writes demo_world)).

Lemma demo_log_inv : log_inv demo_log demo_ids.
Proof.
  destruct (writes_spec demo_writes demo_world) as (w'&rows&E&_&_&Hi).
  - repeat constructor.
  - apply fresh_inv. reflexivity.
  - unfold demo_log, demo_ids. rewrite E. exact Hi.
Qed.
Lemma demo_logs_inv k : log_inv (demo_logs k) demo_ids.
Proof. eapply log_inv_prefix. unfold demo_logs. rewrite (take_drop (S k) demo_log). apply demo_log_inv. Qed.
Lemma demo_logs_grow k : ∃ extra, demo_logs (S k) = demo_logs k ++ extra.
Proof.
  exists (take 1 (drop (S k) demo_log)). unfold demo_logs.
  by rewrite take_take_drop, Nat.add_1_r.
Qed.
Lemma demo_log_length : length demo_log = 3%nat.
Proof. vm_compute. reflexivity. Qed.
Lemma demo_logs_length k : (length (demo_logs k) <= 3)%nat.
Proof. unfold demo_logs. rewrite length_take, demo_log_length. lia. Qed.
Lemma demo_logs_safe k : Z.of_nat (length (demo_logs k)) <= max_safe.
Proof. pose proof (demo_logs_length k). unfold max_safe. lia. Qed.
Lemma engine_walk_complete_witness :
  ∃ r events, walkAuditChain (engine demo_logs) (uninterrupted true) = Some (Ok r, events) ∧
    let all := al_chain <$> demo_logs 0%nat in
    let whole := bool_decide (length all <= 200 * AUDIT_MAX_PAGES)%nat in
    let es := drop (length all - 200 * AUDIT_MAX_PAGES) all in
    let conflicts := conflicted (checkDecisionClosure es [] true) in
    covered events = es ∧ wr_entriesSeen r = length es ∧
    wr_stopReason r = (if whole then exhausted else page_ceiling) ∧
    sm_breaks (summary_of r) = [] ∧ sm_conflicted (summary_of r) = conflicts ∧
    sm_exitCode (summary_of r) =
      if bool_decide (conflicts = []) then if whole then 0 else EXIT_UNCHECKED_EDGE
      else EXIT_CONFLICTED_CLOSER.
Proof.
  exact (engine_walk_complete demo_logs (λ _, demo_ids) demo_logs_inv demo_logs_grow demo_logs_safe).
Defined.

Lemma dump_of_engine_verifies_witness :
  ∃ r events lines d devents, walkAuditChain (engine demo_logs) (uninterrupted false) = Some (Ok r, events) ∧
    let all := al_chain <$> demo_logs 0%nat in
    let whole := bool_decide (length all <= 200 * AUDIT_MAX_PAGES)%nat in
    let es := drop (length all - 200 * AUDIT_MAX_PAGES) all in
    dump_lines events = dumpManifestLine :: lines ∧ mapM readChainEntryLine lines = Some (rev es) ∧
    dump_code r = (if whole then 0 else EXIT_UNCHECKED_EDGE) ∧
    verifyDumpLines (λ _, false) (dump_lines events) = inr (d, devents) ∧
    dr_entriesSeen d = length es ∧ sm_breaks (summary_of_dump d) = [] ∧
    sm_exitCode (summary_of_dump d) = verdict_code es exhausted true ∧
    (whole = true → sm_exitCode (summary_of_dump d) =
      if bool_decide (conflicted (checkDecisionClosure all [] true) = []) then 0 else EXIT_CONFLICTED_CLOSER).
Proof.
  exact (dump_of_engine_verifies demo_logs (λ _, demo_ids) demo_logs_inv demo_logs_grow demo_logs_safe).
Defined.
