(* ===== verification/OAuth.v ===== *)
(** * Connect flows

    The pending authorization flows of
    [packages/engine/src/agent/user-agent.ts]: store with supersede, load, deny
    stamp, cancel, status and the one-time consume. *)

From S2P Require Export Tables.
Open Scope Z_scope.

Inductive flow_status := F_pending | F_connected | F_denied | F_expired.
#[export] Instance flow_status_eq_dec : EqDecision flow_status.
Proof. solve_decision. Defined.

(** Ten minutes: [index.ts]. *)
Definition OAUTH_STATE_TTL_MS : Z := 10 * 60 * 1000.

Definition isOAuthStateExpired (expiresAt : jsstr) : M bool :=
  t ← nowISO; mret (js_le expiresAt t).

Definition storeOAuthState (stateKey : jsstr) (data : OAuthStateData) : M unit :=
  transactionSync (
    deleteOAuthStateByService (os_service data) ;;
    insertOAuthState stateKey data).

Definition loadOAuthState (stateKey : jsstr) : M (option OAuthStateData) :=
  row ← readOAuthState stateKey;
  match row with
  | None => mret None
  | Some r => e ← isOAuthStateExpired (os_expires_at r); mret (if e : bool then None else Some r)
  end.

Definition loadOAuthStateRaw (stateKey : jsstr) : M (option OAuthStateData) := readOAuthState stateKey.

Definition markOAuthFlowDenied (randomPart : jsstr) : M unit := markOAuthStateDenied randomPart.

Definition cancelOAuthFlow (randomPart : jsstr) : M bool :=
  transactionSync (
    row ← readOAuthState randomPart;
    match row with
    | None => mret false
    | Some _ => deleteOAuthState randomPart ;; mret true
    end).

Definition readConnectFlowStatus (service randomPart : jsstr) : M flow_status :=
  row ← readOAuthState randomPart;
  let absent := (c ← isServiceConnected service; mret (if c : bool then F_connected else F_pending)) in
  match row with
  | Some r =>
      if eqs (os_service r) service then
        if os_denied r then mret F_denied
        else e ← isOAuthStateExpired (os_expires_at r); mret (if e : bool then F_expired else F_pending)
      else absent
  | None => absent
  end.

Definition consumeOAuthState (stateKey : jsstr) : M (option OAuthStateData) :=
  transactionSync (
    row ← readOAuthState stateKey;
    match row with
    | None => mret None
    | Some r =>
        e ← isOAuthStateExpired (os_expires_at r);
        deleteOAuthState stateKey ;;
        mret (if e : bool then None else Some r)
    end).

(** The state a connect request stores. *)
Definition beginConnect (randomPart verifier challenge service : jsstr) (authCode : option jsstr)
    : M unit :=
  n ← now;
  created ← isoOf n;
  expires ← isoOf (n + OAUTH_STATE_TTL_MS);
  storeOAuthState randomPart (mkOAuthData verifier challenge service authCode created expires false).

(** ** Traces *)

(** The requests that reach the store, in the order it serves them. *)
Inductive oauth_op :=
  | Op_store (k : jsstr) (data : OAuthStateData)
  | Op_load (k : jsstr)
  | Op_deny (k : jsstr)
  | Op_cancel (k : jsstr)
  | Op_status (service k : jsstr)
  | Op_consume (k : jsstr).

(** Whether a request stored, or took away, the state of a flow. *)
Record effect := mkEffect { stored_key : option jsstr; consumed_key : option jsstr }.
Definition no_effect : effect := mkEffect None None.

Definition oauth_exec (op : oauth_op) : M effect :=
  match op with
  | Op_store k data =>
      try_catch (storeOAuthState k data ;; mret (mkEffect (Some k) None)) (λ _, mret no_effect)
  | Op_load k => loadOAuthState k ;; mret no_effect
  | Op_deny k => markOAuthFlowDenied k ;; mret no_effect
  | Op_cancel k => cancelOAuthFlow k ;; mret no_effect
  | Op_status s k => readConnectFlowStatus s k ;; mret no_effect
  | Op_consume k =>
      r ← consumeOAuthState k;
      mret (match r with Some _ => mkEffect None (Some k) | None => no_effect end)
  end.

Fixpoint oauth_trace (ops : list oauth_op) : M (list effect) :=
  match ops with
  | [] => mret []
  | op :: rest => e ← oauth_exec op; es ← oauth_trace rest; mret (e :: es)
  end.

Definition count_key (f : effect → option jsstr) (k : jsstr) (es : list effect) : nat :=
  length (List.filter (λ e, bool_decide (f e = Some k)) es).
Definition pending_flow (k : jsstr) (w : World) : bool := existsb (is_state k) (oauth_state (w_db w)).
Definition nat_of (b : bool) : nat := if b then 1 else 0.

(** ** Facts *)

Lemma read_state k w :
  readOAuthState k w = (Ok (os_data <$> List.find (is_state k) (oauth_state (w_db w))), w).
Proof. done. Qed.

Lemma pending_delete k j rows :
  existsb (is_state k) (delete_where (is_state j) rows) =
  if eqs k j then false else existsb (is_state k) rows.
Proof.
  unfold delete_where, is_state. induction rows as [|r rows IH]; simpl; [by case_match|].
  destruct (eqs (os_state_key r) j) eqn:Ej; simpl; rewrite IH.
  - apply eqs_true in Ej as ->. destruct (eqs k j) eqn:E; [done|].
    assert (eqs j k = false) as ->; [|done]. apply eqs_false. apply eqs_false in E. congruence.
  - destruct (eqs k j) eqn:E; [|done]. apply eqs_true in E as ->. by rewrite Ej.
Qed.

Lemma pending_update k p f rows :
  (∀ r : OAuthStateRow, os_state_key (f r) = os_state_key r) →
  existsb (is_state k) (update_where p f rows) = existsb (is_state k) rows.
Proof.
  intros Hf. induction rows as [|r rows IH]; [done|].
  change (is_state k (if p r then f r else r) || existsb (is_state k) (update_where p f rows) =
          is_state k r || existsb (is_state k) rows). rewrite IH. f_equal.
  unfold is_state. destruct (p r); by rewrite ?Hf.
Qed.

Lemma pending_find k rows :
  existsb (is_state k) rows =
  match List.find (is_state k) rows with Some _ => true | None => false end.
Proof. apply existsb_find. Qed.

Lemma nat_of_mono a b : (a = true → b = true) → (nat_of a <= nat_of b)%nat.
Proof. destruct a, b; simpl; intros H; lia. Qed.

(** One request: the flows it consumes were there, and only a store adds one. *)
Lemma oauth_exec_counts k op w :
  ∃ e w', oauth_exec op w = (Ok e, w') ∧
    (nat_of (bool_decide (consumed_key e = Some k)) + nat_of (pending_flow k w') <=
     nat_of (bool_decide (stored_key e = Some k)) + nat_of (pending_flow k w))%nat.
Proof.
  destruct op as [j data|j|j|j|s j|j]; unfold oauth_exec.
  - unfold try_catch, storeOAuthState, transactionSync, deleteOAuthStateByService, insertOAuthState,
      modify, insert_unless, mbind, M_bind. simpl. destruct (existsb (is_state j) _) eqn:Ec; simpl.
    + do 2 eexists. split; [reflexivity|]. unfold pending_flow. simpl. lia.
    + do 2 eexists. split; [reflexivity|]. unfold pending_flow. simpl.
      rewrite existsb_app. simpl. unfold is_state at 2. simpl. rewrite orb_false_r.
      unfold eqs. destruct (bool_decide_reflect (j = k)) as [->|Hne].
      { rewrite (bool_decide_eq_true_2 (Some k = Some k)) by done. simpl.
        destruct (_ || _); simpl; lia. }
      rewrite orb_false_r. rewrite (bool_decide_eq_false_2 (Some j = Some k)) by congruence. simpl.
      apply nat_of_mono. intros (r&[Hr _]%filter_In&Hk)%existsb_exists.
      apply existsb_exists. by exists r.
  - unfold loadOAuthState, isOAuthStateExpired, nowISO, now, mbind, M_bind. rewrite read_state.
    destruct (_ <$> _) as [r|]; do 2 eexists; (split; [reflexivity|]); unfold pending_flow; simpl; lia.
  - do 2 eexists. split; [reflexivity|]. unfold pending_flow. simpl. by rewrite pending_update.
  - unfold cancelOAuthFlow, transactionSync, mbind, M_bind. rewrite read_state.
    destruct (_ <$> _) as [r|]; do 2 eexists; (split; [reflexivity|]); unfold pending_flow; simpl; [|lia].
    rewrite pending_delete. destruct (eqs k j); simpl; lia.
  - unfold readConnectFlowStatus, isServiceConnected, isOAuthStateExpired, nowISO, now, select, mbind, M_bind.
    rewrite read_state. destruct (_ <$> _) as [r|]; [destruct (eqs _ _); [destruct (os_denied r)|]|];
      do 2 eexists; (split; [reflexivity|]); unfold pending_flow; simpl; lia.
  - unfold consumeOAuthState, transactionSync, isOAuthStateExpired, nowISO, now, mbind, M_bind.
    rewrite read_state. destruct (List.find (is_state j) (oauth_state (w_db w))) as [r|] eqn:E; simpl.
    2: { do 2 eexists. split; [reflexivity|]. unfold pending_flow. simpl. lia. }
    do 2 eexists. split; [reflexivity|]. unfold pending_flow. simpl. rewrite pending_delete.
    unfold eqs. destruct (bool_decide_reflect (k = j)) as [->|Hne].
    + rewrite (pending_find j), E. case_match; simpl; rewrite ?bool_decide_eq_true_2 by done; simpl; lia.
    + assert (bool_decide (consumed_key (match (if js_le (os_expires_at r) (toISOString (w_clock w (w_ticks w)))
        then None else Some (os_data r)) with Some _ => mkEffect None (Some j) | None => no_effect end) = Some k) = false) as Hk.
      { apply bool_decide_eq_false. case_match; simpl; congruence. }
      unfold nat_of at 1. rewrite Hk. lia.
Qed.

(** ** Properties *)

(** A flow is consumed at most once. In any sequence of requests, in any
    order and at any instants, the consumes of a flow that hand out its state
    are no more than the stores of it, plus one when it was pending at the
    start; so a flow that was cancelled, consumed or superseded hands out
    nothing until it is stored again. *)
Theorem flow_single_use ops w k :
  ∃ es w', oauth_trace ops w = (Ok es, w') ∧ length es = length ops ∧
    (count_key consumed_key k es + nat_of (pending_flow k w') <=
     count_key stored_key k es + nat_of (pending_flow k w))%nat.
Proof.
  revert w. induction ops as [|op ops IH]; intros w.
  { exists [], w. split_and!; [done|done|]. unfold count_key. simpl. lia. }
  destruct (oauth_exec_counts k op w) as (e&w1&E&H1). destruct (IH w1) as (es&w'&E'&Hl&H2).
  exists (e :: es), w'. split_and!.
  - simpl. unfold mbind, M_bind. by rewrite E, E'.
  - simpl. by rewrite Hl.
  - unfold count_key in *. simpl. unfold nat_of in H1 at 1 3.
    destruct (bool_decide (consumed_key e = Some k)), (bool_decide (stored_key e = Some k)); simpl; lia.
Qed.

(** What a flow answers. For a flow whose expiry the engine stamped, read at
    any instant of a four-digit year: a load and a consume hand out its state
    exactly before the expiry instant, whether or not it was stamped denied; a
    consume removes the flow either way and a load leaves it; and the status is
    denied once stamped, else expired from the expiry instant on, else pending,
    while a client asking for another service learns only whether that service
    is connected. *)
Theorem flow_answers k r e w :
  let t := w_clock w (w_ticks w) in
  four_digit t → four_digit e → os_expires_at r = toISOString e →
  List.find (is_state k) (oauth_state (w_db w)) = Some (mkOAuthRow k r) →
  let live := if t <? e then Some r else None in
  let connected s := existsb (is_service s) (connected_services (w_db w)) in
  (∃ w', loadOAuthState k w = (Ok live, w') ∧ w_db w' = w_db w) ∧
  (∃ w', consumeOAuthState k w = (Ok live, w') ∧ pending_flow k w' = false) ∧
  (∃ w', readConnectFlowStatus (os_service r) k w =
     (Ok (if os_denied r then F_denied else if t <? e then F_pending else F_expired), w') ∧
     w_db w' = w_db w) ∧
  ∀ s, s ≠ os_service r →
    readConnectFlowStatus s k w = (Ok (if connected s then F_connected else F_pending), w).
Proof.
  intros t Ht He Hr Hf live connected.
  assert (js_le (os_expires_at r) (toISOString t) = negb (t <? e)) as Hexp.
  { rewrite Hr. unfold js_le. by rewrite js_lt_iso. }
  unfold loadOAuthState, consumeOAuthState, readConnectFlowStatus, transactionSync,
    isOAuthStateExpired, nowISO, now, isServiceConnected, select, mbind, M_bind.
  rewrite read_state, Hf. simpl. fold t. rewrite Hexp, eqs_refl. unfold live. split_and!.
  - eexists. split; [by destruct (t <? e)|reflexivity].
  - eexists. split; [by destruct (t <? e)|]. unfold pending_flow. simpl.
    rewrite pending_delete. by rewrite eqs_refl.
  - destruct (os_denied r); [by eexists|]. fold t. rewrite Hexp.
    eexists. split; [by destruct (t <? e)|reflexivity].
  - intros s Hs. assert (eqs (os_service r) s = false) as -> by (apply eqs_false; congruence).
    unfold connected. by destruct (existsb _ _).
Qed.

(** A new flow supersedes the pending ones of its service and nothing else.
    A store either adds the flow, drops every other undenied flow of the service
    and keeps the rest, denied flows included; or its key clashes with a flow it
    does not supersede, and then it throws and the store is as before. *)
Theorem store_supersedes k data w :
  let superseded r := eqs (os_service (os_data r)) (os_service data) && negb (os_denied (os_data r)) in
  let kept := List.filter (λ r, negb (superseded r)) (oauth_state (w_db w)) in
  let out := storeOAuthState k data w in
  if existsb (is_state k) kept
  then fst out = Throw SqlConstraint ∧ w_db (snd out) = w_db w
  else fst out = Ok tt ∧ oauth_state (w_db (snd out)) = kept ++ [mkOAuthRow k data] ∧
    (os_denied data = false →
     List.filter superseded (oauth_state (w_db (snd out))) = [mkOAuthRow k data]).
Proof.
  intros superseded kept out. subst out.
  assert (storeOAuthState k data w =
    if existsb (is_state k) kept then (Throw SqlConstraint, w)
    else (Ok tt, with_db (set_oauth_state (λ _, kept ++ [mkOAuthRow k data])) w)) as ->.
  { unfold storeOAuthState, transactionSync, deleteOAuthStateByService, insertOAuthState,
      modify, insert_unless, mbind, M_bind. cbn [w_db with_db oauth_state set_oauth_state].
    change (delete_where _ (oauth_state (w_db w))) with kept. by destruct w, (existsb (is_state k) kept). }
  destruct (existsb (is_state k) kept); [done|]. split_and!; [done|done|]. cbn.
  intros Hd. rewrite List.filter_app. simpl. unfold superseded at 2. simpl.
  rewrite eqs_refl, Hd. simpl. unfold kept. rewrite list_filter_twice.
  rewrite list_filter_none; [done|]. apply Forall_true. intros r. by destruct (superseded r).
Qed.

(** ** A concrete flow *)

Definition demo_flow (expires : Z) : OAuthStateData :=
  mkOAuthData (js "verifier") (js "challenge") (js "mail") None
    (toISOString 1767225600000) (toISOString expires) false.

(** The consume lands one minute before the flow lapses. *)
Lemma flow_answers_witness :
  let e := 1767225660000 in let k := js "f00d" in let r := demo_flow e in
  let w := mkWorld (set_oauth_state (λ _, [mkOAuthRow k r]) empty_db) (λ _, 1767225600000) 0 0 false in
  let t := w_clock w (w_ticks w) in
  let live := if t <? e then Some r else None in
  let connected s := existsb (is_service s) (connected_services (w_db w)) in
  (∃ w', loadOAuthState k w = (Ok live, w') ∧ w_db w' = w_db w) ∧
  (∃ w', consumeOAuthState k w = (Ok live, w') ∧ pending_flow k w' = false) ∧
  (∃ w', readConnectFlowStatus (os_service r) k w =
     (Ok (if os_denied r then F_denied else if t <? e then F_pending else F_expired), w') ∧
     w_db w' = w_db w) ∧
  ∀ s, s ≠ os_service r →
    readConnectFlowStatus s k w = (Ok (if connected s then F_connected else F_pending), w).
Proof.
  intros e k r w t live connected.
  apply (flow_answers k r e w); [vm_compute; split; discriminate..|reflexivity|reflexivity].
Defined.
