(* ===== verification/Catalog.v ===== *)
(** * The tool catalog and the metadata of a call

    The registry of [packages/tools/src/tools/], the control-plane boundary of
    [packages/engine/src/llm/control-plane.ts] and the pure helpers of
    [user-agent.ts] that read a call's parameters. The catalog's services are a
    parameter: each tool brings its extractors and its [execute]. *)

From S2P Require Export Frames.
Open Scope Z_scope.

(** ** Tools: [tools/types.ts] *)

Record ToolExecutionResult := mkExec {
  ex_success : bool;
  ex_data : option json;
  ex_error : option jsstr;
}.

(** The contract states the amount as whole cents. *)
Record ToolSpend := mkToolSpend {
  ts_quotedAmountCents : fields → option Z;
  ts_describe : fields → option jsstr;
  ts_quoteId : fields → jsstr;
  ts_idempotencyKey : fields → jsstr;
}.

Record DataSlot := mkSlot { slot_key : jsstr; slot_description : jsstr; slot_required : bool }.

(** [execute] is a run of the object's world: the call's own effects are outside
    the store, but other requests are served while it is awaited. *)
Record Tool (Credential : Type) := mkTool {
  tl_service : jsstr;
  tl_verb : jsstr;
  tl_description : jsstr;
  tl_dataSlots : list DataSlot;
  tl_requiredScopes : list jsstr;
  tl_spend : option ToolSpend;
  tl_nounExtractor : fields → jsstr;
  tl_execute : fields → Credential → M ToolExecutionResult;
  tl_inputSchema : json;
}.
Arguments tl_service {_}.
Arguments tl_verb {_}.
Arguments tl_description {_}.
Arguments tl_dataSlots {_}.
Arguments tl_requiredScopes {_}.
Arguments tl_spend {_}.
Arguments tl_nounExtractor {_}.
Arguments tl_execute {_}.
Arguments tl_inputSchema {_}.
Arguments mkTool {_}.

(** The catalog, and the credential layer over its services: the scopes a stored
    credential grants, and its resolution with a refresh, which awaits the
    provider. *)
Class Catalog := {
  Credential : Type;
  SERVICES : list (list (Tool Credential));
  readGrantedScopes : jsstr → M (option (list jsstr));
  resolveServiceCredential : jsstr → jsstr → M Credential;
  (** The text of a SQLite constraint error. *)
  constraintErrorText : jsstr;
}.

Section registry.
Context `{Catalog}.

(** ** The registry: [tools/registry.ts] *)

Definition allTools : list (Tool Credential) := concat SERVICES.
Definition toolName (tool : Tool Credential) : jsstr := tl_service tool ++ js "_" ++ tl_verb tool.
Definition lookupTool (name : jsstr) : option (Tool Credential) :=
  List.find (λ tool, eqs (toolName tool) name) allTools.
Definition listTools : list (Tool Credential) := allTools.

Definition slot_char (c : N) : bool :=
  ((65 <=? c) && (c <=? 90) || (97 <=? c) && (c <=? 122) || (48 <=? c) && (c <=? 57) ||
   (c =? 95) || (c =? 45))%N.
Definition bindable (key : jsstr) : bool := negb (bool_decide (key = [])) && forallb slot_char key.

Fixpoint map_set (k v : jsstr) (m : list (jsstr * jsstr)) : list (jsstr * jsstr) :=
  match m with
  | [] => [(k, v)]
  | (k', v') :: m' => if eqs k' k then (k', v) :: m' else (k', v') :: map_set k v m'
  end.
Fixpoint publish (slots : list DataSlot) (m : list (jsstr * jsstr))
    : jsstr + list (jsstr * jsstr) :=
  match slots with
  | [] => inr m
  | s :: slots' =>
      if bindable (slot_key s) then publish slots' (map_set (slot_key s) (slot_description s) m)
      else inl (js "unbindable dataSlot key: " ++ slot_key s)
  end.
(** [inl] is the error it throws. *)
Definition publishedDataSlots : jsstr + list (jsstr * jsstr) :=
  publish (mjoin (tl_dataSlots <$> allTools)) [].

(** ** The control plane: [llm/control-plane.ts] *)

Inductive RunOrigin := RO_internal | RO_human | RO_commission.
Definition CONTROL_PLANE_SERVICE : jsstr := js "habenula".
Definition controlPlaneAllowed (origin : RunOrigin) : bool :=
  match origin with RO_internal => true | _ => false end.
Definition isControlPlaneTool (name : jsstr) : bool :=
  match lookupTool name with Some t => eqs (tl_service t) CONTROL_PLANE_SERVICE | None => false end.
Definition CONTROL_PLANE_REFUSAL : jsstr :=
  js "Refused: Habenula's control plane is reachable only from the trusted internal surface".

(** ** What the pipeline reads off a call *)

Definition service_of (t : option (Tool Credential)) : jsstr :=
  match t with Some t => tl_service t | None => js "unknown" end.
Definition verb_of (t : option (Tool Credential)) : jsstr :=
  match t with Some t => tl_verb t | None => js "execute" end.
Definition noun_of (t : option (Tool Credential)) (params : fields) : jsstr :=
  match t with Some t => tl_nounExtractor t params | None => js "unknown" end.

Definition centsFromSpend (spend : option ToolSpend) (toolParams : fields) : option Z :=
  match spend with
  | None => None
  | Some s =>
      match ts_quotedAmountCents s toolParams with
      | None => None
      | Some raw => if negb (safe_int raw) || (raw <? 0) then None else Some raw
      end
  end.
End registry.

(** [cents / 100], by its shortest decimal. *)
Definition centsToUsd (cents : Z) : jsnum :=
  num_norm (S (Z.to_nat (Z.log2 (Z.abs cents)))) cents (-2).

(** ** Metadata *)

Definition MAX_METADATA_BYTES : Z := 10240.
Definition MAX_KEYS_PER_OBJECT : nat := 100.

Definition type_field (t : jsstr) : jsstr * json := (js "type", JStr t).
Definition len_field {A} (l : list A) : jsstr * json := (js "length", jint (Z.of_nat (length l))).

(** The shape of one value. *)
Definition value_shape (v : json) : fields :=
  match v with
  | JStr s => [type_field (js "string"); len_field s]
  | JNum _ => [type_field (js "number")]
  | JBool _ => [type_field (js "boolean")]
  | JArr l => [type_field (js "array"); len_field l]
  | JNull => [type_field (js "null")]
  | JObj fs =>
      if (MAX_KEYS_PER_OBJECT <? length fs)%nat
      then [type_field (js "object"); (js "keyCount", jint (Z.of_nat (length fs)));
            (js "keys", JArr ((JStr ∘ fst) <$> take MAX_KEYS_PER_OBJECT fs));
            (js "truncated", JBool true)]
      else [type_field (js "object"); (js "keys", JArr ((JStr ∘ fst) <$> fs))]
  end.

(** An assignment to [__proto__] replaces the prototype: no key is added. *)
Definition extractMetadata (params : fields) : fields :=
  let meta := (λ kv, (fst kv, JObj (value_shape (snd kv)))) <$>
    List.filter (λ kv, negb (eqs (fst kv) (js "__proto__"))) params in
  if MAX_METADATA_BYTES <? Z.of_nat (length (JSON_stringify (JObj meta)))
  then [(js "truncated", JBool true);
        (js "originalKeyCount", jint (Z.of_nat (length params)))]
  else meta.

(** [{ ...fs, k: v }]. *)
Fixpoint set_field (k : jsstr) (v : json) (fs : fields) : fields :=
  match fs with
  | [] => [(k, v)]
  | (k', v') :: fs' => if eqs k' k then (k, v) :: fs' else (k', v') :: set_field k v fs'
  end.

(** ** Data placeholders *)

Fixpoint strip_prefix (p s : jsstr) : option jsstr :=
  match p, s with
  | [], _ => Some s
  | a :: p', b :: s' => if (a =? b)%N then strip_prefix p' s' else None
  | _, [] => None
  end.

(** The group of [/^\{\{data\.([A-Za-z0-9_-]+)\}\}$/]. *)
Definition DATA_PLACEHOLDER (value : jsstr) : option jsstr :=
  rest ← strip_prefix (js "{{data.") value;
  let key := take (length rest - 2) rest in
  if bool_decide (drop (length rest - 2) rest = js "}}") && bindable key then Some key else None.

(** An own property of the parsed [data] map, which the engine writes as an
    object. *)
Definition own_property (k : jsstr) (data : json) : option json := member k data.

Fixpoint walk_value (data : json) (v : json) : json :=
  match v with
  | JStr s =>
      match DATA_PLACEHOLDER s with
      | Some k => default v (own_property k data)
      | None => v
      end
  | JArr l => JArr (map (walk_value data) l)
  | JObj fs => JObj (map (λ kv, (fst kv, walk_value data (snd kv))) fs)
  | _ => v
  end.
Definition substituteDataPlaceholders (params data : json) : json := walk_value data params.

(** The members of a parameters object. *)
Definition as_fields (v : json) : fields := match v with JObj fs => fs | _ => [] end.

Example placeholder_key : DATA_PLACEHOLDER (js "{{data.mail_to}}") = Some (js "mail_to").
Proof. reflexivity. Qed.
Example placeholder_not_whole : DATA_PLACEHOLDER (js "to {{data.mail_to}}") = None.
Proof. reflexivity. Qed.
Example placeholder_empty : DATA_PLACEHOLDER (js "{{data.}}") = None.
Proof. reflexivity. Qed.
Example metadata_shapes :
  extractMetadata [(js "to", JStr (js "ab")); (js "__proto__", JNull); (js "n", JNum (JsNum 5 (-1)))] =
  [(js "to", JObj [type_field (js "string"); (js "length", jint 2)]);
   (js "n", JObj [type_field (js "number")])].
Proof. vm_compute. reflexivity. Qed.
Example usd_cents : centsToUsd 1250 = JsNum 125 (-1) ∧ centsToUsd 5 = JsNum 5 (-2) ∧ centsToUsd 0 = JsNum 0 0.
Proof. done. Qed.
