(* ===== verification/Grants.v ===== *)
(** * Grants and the deny floor

    The reads of [policy_entries] the coordinator evaluates, the guarded creation
    of grants, their consumption, and the floor [migrate] seeds and proves on
    every boot ([packages/engine/src/agent/user-agent.ts]). *)

From S2P Require Export Catalog.
Open Scope Z_scope.

Definition source_text (s : policy_source) : jsstr :=
  match s with S_session => js "session" | S_task => js "task" | S_standing => js "standing" end.

Definition toPolicyEntry (r : PolicyEntriesRow) : PolicyEntry :=
  mkPolicyEntry (po_id r) (source_text (po_source r)) (po_session_id r) (po_service r) (po_verb r)
    (po_noun r) (po_decision r) (Some (po_priority r)) (po_created_at r) (po_expires_at r).

Definition queryPolicyEntries (sessionId : option jsstr) : M (list PolicyEntry) :=
  rows ← selectActivePolicyEntries sessionId; mret (toPolicyEntry <$> rows).

Definition getStandingEntries : M (list PolicyEntry) :=
  rows ← selectStandingEntries; mret (toPolicyEntry <$> rows).

Definition assertScopedGrant (service verb noun : jsstr) : M unit :=
  if eqs service wildcard || eqs verb wildcard || eqs noun wildcard
  then throw (Exn (js "Refusing wildcard grant scope (" ++ service ++ js "/" ++ verb ++ js "/" ++
                   noun ++ js "): grants must be fully scoped."))
  else mret tt.

(** ** The floor *)

Definition floor_row (createdAt : jsstr) : PolicyEntriesRow :=
  mkPolicyRow WILDCARD_DENY_ID S_standing None wildcard wildcard wildcard Deny 0 createdAt None None.

(** [INSERT OR IGNORE]. *)
Definition seedFloor : M unit :=
  at_ ← nowISO;
  modify (set_policy_entries (λ rows,
    if existsb (is_policy WILDCARD_DENY_ID) rows then rows else rows ++ [floor_row at_])).

Definition grant_text (d : grant) : jsstr :=
  match d with Allow => js "allow" | Deny => js "deny" end.

Definition floor_mismatches (r : PolicyEntriesRow) : list jsstr :=
  (if bool_decide (po_decision r = Deny) then []
   else [js "decision=" ++ grant_text (po_decision r) ++ js " (expected deny)"]) ++
  (if eqs (po_service r) wildcard then [] else [js "service=" ++ po_service r ++ js " (expected *)"]) ++
  (if eqs (po_verb r) wildcard then [] else [js "verb=" ++ po_verb r ++ js " (expected *)"]) ++
  (if eqs (po_noun r) wildcard then [] else [js "noun=" ++ po_noun r ++ js " (expected *)"]) ++
  (if po_priority r =? 0 then []
   else [js "priority=" ++ int_to_string (po_priority r) ++ js " (expected 0)"]).

Definition assertDenyFloor : M unit :=
  floor ← readPolicyEntryScope WILDCARD_DENY_ID;
  match floor with
  | None => throw (Exn (js "Deny floor corrupted: entry '" ++ WILDCARD_DENY_ID ++ js "' is missing"))
  | Some r =>
      match floor_mismatches r with
      | [] => mret tt
      | ms => throw (Exn (js "Deny floor corrupted: entry '" ++ WILDCARD_DENY_ID ++ js "' has " ++
                          Json.join (js ", ") ms))
      end
  end.

(** The data part of [migrate], after the schema. *)
Definition migrate : M unit :=
  seedFloor ;;
  modify (set_user_settings (delete_where (is_key (js "default_policy")))) ;;
  assertDenyFloor.

(** ** Creating and consuming grants *)

Section grants.
Context `{Platform}.

Definition createSessionGrant (service verb noun sessionId : jsstr) (decision : grant) : M jsstr :=
  assertScopedGrant service verb noun ;;
  id ← newUUID;
  n ← now;
  started ← sessionStartedAt sessionId;
  expiresAt ← isoOf (default n started + SESSION_LIFETIME_MS);
  insertSessionGrant id sessionId service verb noun decision (toISOString n) expiresAt ;;
  mret id.

Definition createTaskGrant (service verb noun : jsstr) (sessionId : option jsstr) (decision : grant)
    : M jsstr :=
  assertScopedGrant service verb noun ;;
  boundSession ← match sessionId with
                 | Some s => mret (Some s)
                 | None => v ← getActiveSession; mret (av_sessionId <$> v)
                 end;
  match boundSession with
  | None | Some [] => throw (Exn (js "createTaskGrant: no session to bind the grant to"))
  | Some s =>
      id ← newUUID;
      at_ ← nowISO;
      insertTaskGrant id s service verb noun decision at_ ;;
      mret id
  end.

Definition consumeTaskGrant (entryId : jsstr) : M unit :=
  at_ ← nowISO; consumeTaskGrant_row entryId at_.
End grants.

(** ** The invariant of the policy table *)

Definition scoped_row (r : PolicyEntriesRow) : Prop :=
  po_service r ≠ wildcard ∧ po_verb r ≠ wildcard ∧ po_noun r ≠ wildcard ∧
  po_source r ≠ S_standing ∧ po_session_id r ≠ None ∧ po_priority r = 10 ∧ po_id r ≠ [].

(** The floor is in place, and every other row is a scoped grant of one session. *)
Record policy_rows_ok (rows : list PolicyEntriesRow) : Prop := {
  pr_floor : ∃ t, floor_row t ∈ rows;
  pr_scoped r : r ∈ rows → po_id r ≠ WILDCARD_DENY_ID → scoped_row r;
  pr_ids : NoDup (po_id <$> rows);
}.
Definition policy_inv (d : Db) (_ : nat) : Prop := policy_rows_ok (policy_entries d).

#[export] Instance policy_inv_supply : Supply policy_inv.
Proof. by intros d n m _. Qed.

Lemma policy_rows_insert rows r :
  policy_rows_ok rows → existsb (is_policy (po_id r)) rows = false → scoped_row r →
  policy_rows_ok (rows ++ [r]).
Proof.
  intros [(t&Hf) Hs Hn] Hc Hr. split.
  - exists t. set_solver.
  - intros x [Hx|Hx%list_elem_of_singleton]%elem_of_app Hid; [by apply Hs|by subst].
  - rewrite fmap_app. apply NoDup_app. split_and!; [done| |apply NoDup_singleton].
    intros i (x&->&Hx)%list_elem_of_fmap Hi%list_elem_of_singleton.
    apply not_true_iff_false in Hc. apply Hc, existsb_exists. exists x.
    split; [by apply list_elem_of_In|]. by apply eqs_true.
Qed.

Lemma policy_rows_consume rows id t :
  policy_rows_ok rows → policy_rows_ok (update_where (consumable id) (consume t) rows).
Proof.
  intros [(u&Hf) Hs Hn]. split.
  - exists u. apply in_update_where; [done|]. unfold consumable. simpl. by rewrite andb_false_r.
  - intros x (r&->&Hr)%list_elem_of_fmap Hid. destruct (consumable id r); [|by apply Hs]. by apply (Hs r).
  - by rewrite update_where_ids.
Qed.

Lemma policy_rows_kill rows :
  policy_rows_ok rows → policy_rows_ok (List.filter (is_policy WILDCARD_DENY_ID) rows).
Proof.
  intros [(u&Hf) Hs Hn]. split.
  - exists u. apply list_elem_of_In, filter_In. split; [by apply list_elem_of_In|]. apply eqs_refl.
  - intros r Hr Hid. apply list_elem_of_In, filter_In in Hr as [_ Hr%eqs_true]. done.
  - by apply filter_nodup.
Qed.

Section keeps.
Context `{Platform} `{!PlatformLaws _}.

(** Everything but the policy table is free to change. *)
Lemma policy_frame f :
  (∀ d, policy_entries (f d) = policy_entries d) → ∀ d n, policy_inv d n → policy_inv (f d) n.
Proof. intros Hf d n. unfold policy_inv. by rewrite Hf. Qed.

Lemma keeps_policy_insert r : scoped_row r → keeps policy_inv (insertPolicyRow r).
Proof.
  intros Hr. unfold insertPolicyRow. apply keeps_insert. intros d n Hc Hd. by apply policy_rows_insert.
Qed.

Lemma keeps_policy_consume id : keeps policy_inv (consumeTaskGrant id).
Proof.
  unfold consumeTaskGrant, consumeTaskGrant_row. keeps_tac. intros d n. apply policy_rows_consume.
Qed.

Lemma assertScoped_spec service verb noun w :
  assertScopedGrant service verb noun w =
  if decide (service ≠ wildcard ∧ verb ≠ wildcard ∧ noun ≠ wildcard)
  then (Ok tt, w)
  else (Throw (Exn (js "Refusing wildcard grant scope (" ++ service ++ js "/" ++ verb ++ js "/" ++
                 noun ++ js "): grants must be fully scoped.")), w).
Proof.
  unfold assertScopedGrant, eqs. case_decide as Hd.
  - destruct Hd as (?&?&?). by rewrite !bool_decide_eq_false_2.
  - destruct (bool_decide_reflect (service = wildcard)), (bool_decide_reflect (verb = wildcard)),
      (bool_decide_reflect (noun = wildcard)); try done. by destruct Hd.
Qed.

(** The guard in front of a creation. *)
Lemma keeps_guarded {A} J service verb noun (m : M A) :
  (service ≠ wildcard → verb ≠ wildcard → noun ≠ wildcard → keeps J m) →
  keeps J (assertScopedGrant service verb noun ;; m).
Proof.
  intros Hm w Hw. unfold mbind, M_bind. rewrite assertScoped_spec. case_decide as Hd; [|done].
  destruct Hd as (?&?&?). by apply Hm.
Qed.

Lemma keeps_session_grant service verb noun sid d :
  keeps policy_inv (createSessionGrant service verb noun sid d).
Proof.
  apply keeps_guarded. intros. unfold sessionStartedAt, readSessionStartedAt, insertSessionGrant.
  keeps_tac.
  apply keeps_policy_insert. split_and!; try done. apply randomUUID_nonempty.
Qed.

#[export] Instance policy_off_sessions : OffSessions policy_inv.
Proof. split; [apply _|done..]. Qed.

Lemma keeps_task_grant service verb noun sid d :
  keeps policy_inv (createTaskGrant service verb noun sid d).
Proof.
  apply keeps_guarded. intros. unfold insertTaskGrant. keeps_tac.
  apply keeps_policy_insert. split_and!; try done. apply randomUUID_nonempty.
Qed.

Lemma keeps_policy_killed : keeps policy_inv killSwitch.
Proof.
  apply frame_kill; [apply _| |done]. intros d n Hd. unfold policy_inv in *. simpl. unfold delete_where.
  rewrite (List.filter_ext _ (is_policy WILDCARD_DENY_ID)); [by apply policy_rows_kill|].
  intros r. apply negb_involutive.
Qed.
End keeps.
#[export] Hint Resolve keeps_policy_consume keeps_session_grant keeps_task_grant keeps_policy_killed : wb.

(** ** Decisions *)

Section decisions.
Context `{Platform} `{!PlatformLaws _}.

(** A grant of the session in force at an instant. *)
Definition live_grant (sid nowIso : jsstr) (r : PolicyEntriesRow) : Prop :=
  po_source r ≠ S_standing ∧ po_session_id r = Some sid ∧
  unexpired nowIso r = true ∧ po_consumed_at r = None.

Lemma active_for_spec rows sid nowIso r :
  policy_rows_ok rows → r ∈ rows →
  active_for (Some sid) nowIso r = true ↔
  (po_id r = WILDCARD_DENY_ID ∧ active_for (Some sid) nowIso r = true) ∨ live_grant sid nowIso r.
Proof.
  intros [_ Hs _] Hr. destruct (decide (po_id r = WILDCARD_DENY_ID)) as [E|Hne].
  - split; [auto|]. intros [[_ ?]|(_&Es&Hu&Hc)]; [done|]. unfold active_for, unconsumed, sql_eq.
    rewrite Es, Hu, Hc. rewrite (bool_decide_eq_true_2 (sid = sid)) by done. by rewrite orb_true_r.
  - destruct (Hs r Hr Hne) as (_&_&_&Hsrc&Hsid&_). unfold active_for, live_grant, unconsumed, sql_eq.
    rewrite (bool_decide_eq_false_2 (po_session_id r = None)) by done. simpl.
    destruct (po_session_id r) as [s|]; [|done]. rewrite !andb_true_iff, !bool_decide_eq_true.
    naive_solver.
Qed.

Lemma wp_query sid w Q :
  let nowIso := toISOString (w_clock w (w_ticks w)) in
  let rows := stable_sort priority_desc (List.filter (active_for sid nowIso) (policy_entries (w_db w))) in
  Q (toPolicyEntry <$> rows)
    (mkWorld (w_db w) (w_clock w) (S (w_ticks w)) (w_uuids w) (w_turnInFlight w)) →
  wp (queryPolicyEntries sid) Q w.
Proof. intros nowIso rows HQ. exact HQ. Qed.

(** The entries a query hands to the evaluator. *)
Lemma queried rows sid nowIso e :
  e ∈ toPolicyEntry <$> stable_sort priority_desc (List.filter (active_for sid nowIso) rows) ↔
  ∃ r, e = toPolicyEntry r ∧ r ∈ rows ∧ active_for sid nowIso r = true.
Proof.
  rewrite list_elem_of_fmap. setoid_rewrite elem_of_stable_sort.
  setoid_rewrite list_elem_of_In. setoid_rewrite filter_In. naive_solver.
Qed.

Lemma floor_queried rows sid nowIso :
  policy_rows_ok rows →
  ∃ t, toPolicyEntry (floor_row t) ∈
    toPolicyEntry <$> stable_sort priority_desc (List.filter (active_for sid nowIso) rows).
Proof.
  intros [(t&Hf) _ _]. exists t. apply queried. exists (floor_row t). split_and!; [done|done|].
  unfold active_for, unexpired, unconsumed. done.
Qed.

Lemma floor_matches t a : matches (toPolicyEntry (floor_row t)) a.
Proof. by split_and!; left. Qed.

Lemma floor_row_unique rows r t :
  policy_rows_ok rows → floor_row t ∈ rows → r ∈ rows → po_id r = WILDCARD_DENY_ID → r = floor_row t.
Proof. intros [_ _ Hn] Ht Hr E. by eapply (nodup_key po_id). Qed.

(** The row that decides, and what it says. *)
Definition decided_by (rows : list PolicyEntriesRow) sid nowIso action (d : PolicyDecision) (r : PolicyEntriesRow) : Prop :=
  r ∈ rows ∧ pd_entryId d = Some (po_id r) ∧ pd_source d = source_text (po_source r) ∧
  matches (toPolicyEntry r) action ∧
  match pd_decision d with
  | V_allow => po_decision r = Allow ∧ live_grant sid nowIso r
  | V_deny => po_decision r = Deny ∧
      (live_grant sid nowIso r ∨
       po_id r = WILDCARD_DENY_ID ∧
       ∀ g, g ∈ rows → live_grant sid nowIso g → ¬ matches (toPolicyEntry g) action)
  | V_pending => False
  end.

Lemma decision_row rows sid nowIso action :
  policy_rows_ok rows →
  ∃ r, decided_by rows sid nowIso action
    (evaluatePolicy (toPolicyEntry <$> stable_sort priority_desc
       (List.filter (active_for (Some sid) nowIso) rows)) action) r.
Proof.
  intros Hok. destruct (floor_queried rows (Some sid) nowIso Hok) as (t&Hf).
  pose proof (floor_matches t action) as Hfm.
  set (es := toPolicyEntry <$> _) in *.
  destruct (evaluatePolicy_outcome es action) as [e He _ Hp|Hno|m Hm Hmm Hfin Ht].
  { apply queried in He as (r&->&_). done. }
  { by destruct (Hno _ Hf). }
  apply queried in Hm as (r&->&Hr&Hact). exists r. split_and!; [done..|]. simpl.
  apply queried in Hf as (fr&Efr&Hfr&_).
  assert (po_id fr = WILDCARD_DENY_ID) as Hfid by (by injection Efr).
  assert (floor_row t ∈ rows) as Hft.
  { destruct (pr_floor _ Hok) as (t'&Ht'). rewrite (floor_row_unique rows fr t' Hok Ht' Hfr Hfid) in Efr.
    injection Efr as ->. done. }
  apply (active_for_spec rows sid nowIso r Hok Hr) in Hact as [[Hid _]|Hl].
  - rewrite (floor_row_unique rows r t Hok Hft Hr Hid) in *. simpl. split; [done|]. right.
    split; [done|]. intros g Hg Hlg Hgm.
    assert (toPolicyEntry g ∈ es) as Hge.
    { apply queried. exists g. split_and!; [done|done|]. apply (active_for_spec rows); auto. }
    specialize (Ht _ Hge Hgm). unfold rank in Ht. simpl in Ht.
    assert (po_priority g = 10) as Ep.
    { apply (pr_scoped _ Hok); [done|]. intros E.
      rewrite (floor_row_unique rows g t Hok Hft Hg E) in Hlg. by destruct Hlg. }
    rewrite Ep in Ht. destruct (po_decision g); simpl in Ht; lia.
  - destruct (po_decision r); simpl; auto.
Qed.
End decisions.

(** ** Booting *)

Lemma migrate_run w :
  let rows := policy_entries (w_db w) in
  let after := if existsb (is_policy WILDCARD_DENY_ID) rows then rows
               else rows ++ [floor_row (toISOString (w_clock w (w_ticks w)))] in
  ∃ w2, policy_entries (w_db w2) = after ∧
    migrate w =
      match List.find (is_policy WILDCARD_DENY_ID) (policy_entries (w_db w2)) with
      | None => (Throw (Exn (js "Deny floor corrupted: entry '" ++ WILDCARD_DENY_ID ++ js "' is missing")), w2)
      | Some r =>
          match floor_mismatches r with
          | [] => (Ok tt, w2)
          | ms => (Throw (Exn (js "Deny floor corrupted: entry '" ++ WILDCARD_DENY_ID ++ js "' has " ++
                          Json.join (js ", ") ms)), w2)
          end
      end.
Proof.
  intros rows after.
  exists (with_db (set_user_settings (delete_where (is_key (js "default_policy"))))
    (with_db (set_policy_entries (λ rows,
      if existsb (is_policy WILDCARD_DENY_ID) rows then rows
      else rows ++ [floor_row (toISOString (w_clock w (w_ticks w)))])) (tick w))).
  split; [reflexivity|].
  unfold migrate, seedFloor, nowISO, now, assertDenyFloor, readPolicyEntryScope, modify, select,
    mbind, M_bind, mret, M_ret. cbv beta iota zeta.
  destruct (List.find _ _) as [r|]; [|reflexivity]. by destruct (floor_mismatches r).
Qed.

(** ** Creating *)

Section create.
Context `{Platform}.

Lemma wp_session_grant service verb noun sid d start w :
  service ≠ wildcard ∧ verb ≠ wildcard ∧ noun ≠ wildcard →
  fst (sessionStartedAt sid w) = Ok (Some start) → in_range (start + SESSION_LIFETIME_MS) →
  existsb (is_policy (randomUUID (w_uuids w))) (policy_entries (w_db w)) = false →
  let row := mkPolicyRow (randomUUID (w_uuids w)) S_session (Some sid) service verb noun d 10
    (toISOString (w_clock w (w_ticks w))) (Some (toISOString (start + SESSION_LIFETIME_MS))) None in
  wp (createSessionGrant service verb noun sid d)
    (λ id w', id = po_id row ∧ policy_entries (w_db w') = policy_entries (w_db w) ++ [row]) w.
Proof.
  intros Hd Hst Hr Hc row. unfold createSessionGrant. apply wp_bind. unfold wp at 1.
  rewrite assertScoped_spec, decide_True by done.
  apply wp_bind, wp_uuid, wp_bind, wp_now. cbn [w_db w_clock w_ticks w_uuids].
  unfold sessionStartedAt, readSessionStartedAt. do 2 apply wp_bind. apply wp_select, wp_ret.
  cbn [w_db]. change (Ok ((ss_started_at <$> List.find (is_session sid) (session_state (w_db w))) ≫= dateOf)
    = Ok (Some start)) in Hst. injection Hst as ->.
  apply wp_bind, isoOf_range; [exact Hr|]. unfold insertSessionGrant, insertPolicyRow.
  apply wp_bind, wp_insert; [exact Hc|]. by apply wp_ret.
Qed.
End create.

(** ** Properties *)

Section properties.
Context `{Platform} `{!PlatformLaws _}.

(** Deny by default. On a table that holds the floor and scoped grants, the
    evaluator's answer to any action always comes from a stored row, never from
    an empty or a malformed set. It allows only on an allow grant of the very
    session asked about, unexpired and unconsumed, that names the action's
    service, verb and noun; otherwise it denies, on such a grant that denies or
    on the floor, and on the floor only when no live grant of the session names
    the action at all. *)
Theorem decisions_need_live_grants sid action w :
  policy_rows_ok (policy_entries (w_db w)) →
  let nowIso := toISOString (w_clock w (w_ticks w)) in
  ∃ entries w' r, queryPolicyEntries (Some sid) w = (Ok entries, w') ∧ w_db w' = w_db w ∧
    decided_by (policy_entries (w_db w)) sid nowIso action (evaluatePolicy entries action) r.
Proof.
  intros Hok nowIso. destruct (decision_row _ sid nowIso action Hok) as (r&Hr).
  do 2 eexists. exists r. split_and!; [reflexivity|reflexivity|exact Hr].
Qed.

(** How long a grant counts. A session grant is created exactly for a fully
    named scope; it expires ninety minutes after its session's start, and a
    query returns it for its own session alone and strictly before that
    instant. A consumed task grant is never returned again, for any session at
    any instant; consuming again moves nothing, and no other row changes. *)
Theorem grant_lifetimes service verb noun sid d start w :
  let L := SESSION_LIFETIME_MS in
  let row := mkPolicyRow (randomUUID (w_uuids w)) S_session (Some sid) service verb noun d 10
    (toISOString (w_clock w (w_ticks w))) (Some (toISOString (start + L))) None in
  fst (sessionStartedAt sid w) = Ok (Some start) → four_digit (start + L) → in_range (start + L) →
  existsb (is_policy (randomUUID (w_uuids w))) (policy_entries (w_db w)) = false →
  let out := createSessionGrant service verb noun sid d w in
  (if decide (service ≠ wildcard ∧ verb ≠ wildcard ∧ noun ≠ wildcard)
   then fst out = Ok (po_id row) ∧ policy_entries (w_db (snd out)) = policy_entries (w_db w) ++ [row]
   else (∃ e, fst out = Throw e) ∧ snd out = w) ∧
  (∀ s t, four_digit t → active_for s (toISOString t) row = true ↔ s = Some sid ∧ t < start + L) ∧
  (∀ id t s nowIso r, r ∈ update_where (consumable id) (consume t) (policy_entries (w_db w)) →
     po_source r = S_task → po_id r = id → active_for s nowIso r = false) ∧
  (∀ id t t' rows, update_where (consumable id) (consume t') (update_where (consumable id) (consume t) rows) =
     update_where (consumable id) (consume t) rows).
Proof.
  intros L row Hst H4 Hr Hc out. split_and!.
  - case_decide as Hd.
    + pose proof (wp_session_grant service verb noun sid d start w Hd Hst Hr Hc) as Hw.
      unfold wp in Hw. fold out in Hw. destruct out as [[id|e] w']; [|done].
      by destruct Hw as [-> ?].
    + unfold out, createSessionGrant, mbind, M_bind. rewrite assertScoped_spec, decide_False by done.
      by split; [eexists|].
  - intros s t Ht. unfold active_for, unexpired, unconsumed, sql_eq. simpl.
    rewrite sql_lt_iso by done. rewrite !andb_true_iff, Z.ltb_lt.
    destruct s as [s|]; [|naive_solver]. rewrite bool_decide_eq_true. naive_solver.
  - intros id t s nowIso r (x&->&Hx)%list_elem_of_fmap Hsrc Hid. unfold active_for.
    destruct (consumable id x) eqn:E; [by rewrite andb_false_r|].
    unfold consumable, is_policy in E. rewrite Hid, eqs_refl, Hsrc in E. simpl in E.
    by rewrite E, andb_false_r.
  - intros id t t' rows. unfold update_where. rewrite <- list_fmap_compose. apply list_fmap_ext.
    intros _ r _. simpl. destruct (consumable id r) eqn:E; [|by rewrite E].
    unfold consumable at 1, unconsumed. simpl. by rewrite andb_false_r.
Qed.

(** The floor is proved on every boot. The boot succeeds exactly when no row
    carries the floor's id, and then it seeds it, or when the row that does is
    a deny of everything at priority zero; it changes no other policy row, and
    on success that row is in place. *)
Theorem boot_proves_floor w :
  let rows := policy_entries (w_db w) in
  let out := migrate w in
  let floor_like r := po_decision r = Deny ∧ po_service r = wildcard ∧ po_verb r = wildcard ∧
    po_noun r = wildcard ∧ po_priority r = 0 in
  (fst out = Ok tt ↔ ∀ r, List.find (is_policy WILDCARD_DENY_ID) rows = Some r → floor_like r) ∧
  (fst out = Ok tt → ∃ r, List.find (is_policy WILDCARD_DENY_ID) (policy_entries (w_db (snd out))) = Some r ∧
     floor_like r) ∧
  policy_entries (w_db (snd out)) =
    if existsb (is_policy WILDCARD_DENY_ID) rows then rows
    else rows ++ [floor_row (toISOString (w_clock w (w_ticks w)))].
Proof.
  intros rows out floor_like.
  assert (∀ r, floor_mismatches r = [] ↔ floor_like r) as Hm.
  { intros r. unfold floor_mismatches, floor_like, eqs.
    destruct (bool_decide_reflect (po_decision r = Deny)), (bool_decide_reflect (po_service r = wildcard)),
      (bool_decide_reflect (po_verb r = wildcard)), (bool_decide_reflect (po_noun r = wildcard)),
      (Z.eqb_spec (po_priority r) 0); simpl; naive_solver. }
  destruct (migrate_run w) as (w2&Hp&E). fold rows in Hp. unfold out. clear out.
  pose proof (existsb_find (is_policy WILDCARD_DENY_ID) rows) as Ex.
  destruct (existsb (is_policy WILDCARD_DENY_ID) rows),
    (List.find (is_policy WILDCARD_DENY_ID) rows) as [r|] eqn:Ef; try done.
  - fold rows in E. rewrite Hp, Ef in E. specialize (Hm r). rewrite E.
    destruct (floor_mismatches r) as [|m ms]; simpl; rewrite Hp.
    + split_and!; [split; [by intros _ x [= <-]; apply Hm|done]| |done].
      intros _. exists r. split; [done|by apply Hm].
    + split_and!; [split; [done|]|done|done]. intros Hx. specialize (Hx r eq_refl). by apply Hm in Hx.
  - set (fr := floor_row (toISOString (w_clock w (w_ticks w)))) in *.
    assert (List.find (is_policy WILDCARD_DENY_ID) (rows ++ [fr]) = Some fr) as Hf
      by (apply find_snoc_none; [by rewrite existsb_find, Ef|apply eqs_refl]).
    assert (floor_like fr) as Hl by done.
    rewrite E, Hp, Hf, (proj2 (Hm fr) Hl). simpl. rewrite Hp.
    split_and!; [split; [by intros _ x|done]|intros _; by exists fr|done].
Qed.
End properties.

(** ** Concrete grants *)

Definition demo_grant_row : PolicyEntriesRow :=
  mkPolicyRow (js "g1") S_session (Some (js "s1")) (js "mail") (js "send") (js "Bob") Allow 10
    (toISOString 1767225600000) (Some (toISOString 1767231000000)) None.
Definition granted_world : World :=
  mkWorld (set_policy_entries (λ _, [floor_row []; demo_grant_row]) empty_db)
    (λ _, 1767225600000) 0 0 false.

Lemma granted_rows_ok : policy_rows_ok (policy_entries (w_db granted_world)).
Proof.
  split.
  - exists []. by left.
  - intros r [->|[->|[]%not_elem_of_nil]%elem_of_cons]%elem_of_cons Hid; [done|].
    by split_and!; vm_compute.
  - by_compute.
Qed.

Lemma decisions_need_live_grants_witness :
  let w := granted_world in let sid := js "s1" in
  let nowIso := toISOString (w_clock w (w_ticks w)) in
  ∃ entries w' r, queryPolicyEntries (Some sid) w = (Ok entries, w') ∧ w_db w' = w_db w ∧
    decided_by (policy_entries (w_db w)) sid nowIso demo_action (evaluatePolicy entries demo_action) r.
Proof. intros w sid nowIso. exact (decisions_need_live_grants sid demo_action w granted_rows_ok). Defined.

(** The grant of the example allows it. *)
Example granted_action_allowed :
  match queryPolicyEntries (Some (js "s1")) granted_world with
  | (Ok es, _) => pd_decision (evaluatePolicy es demo_action)
  | _ => V_deny
  end = V_allow.
Proof. vm_compute. reflexivity. Qed.

(** A session grant minted in the first of the two sessions. *)
Definition demo_sid : jsstr := fresh_session 0.

Lemma grant_lifetimes_witness :
  let L := SESSION_LIFETIME_MS in
  let row := mkPolicyRow (randomUUID (w_uuids two_sessions)) S_session (Some demo_sid) (js "mail")
    (js "send") (js "Bob") Allow 10
    (toISOString (w_clock two_sessions (w_ticks two_sessions)))
    (Some (toISOString (1767225600000 + L))) None in
  let out := createSessionGrant (js "mail") (js "send") (js "Bob") demo_sid Allow two_sessions in
  (if decide (js "mail" ≠ wildcard ∧ js "send" ≠ wildcard ∧ js "Bob" ≠ wildcard)
   then fst out = Ok (po_id row) ∧
     policy_entries (w_db (snd out)) = policy_entries (w_db two_sessions) ++ [row]
   else (∃ e, fst out = Throw e) ∧ snd out = two_sessions) ∧
  (∀ s t, four_digit t → active_for s (toISOString t) row = true ↔ s = Some demo_sid ∧ t < 1767225600000 + L) ∧
  (∀ id t s nowIso r, r ∈ update_where (consumable id) (consume t) (policy_entries (w_db two_sessions)) →
     po_source r = S_task → po_id r = id → active_for s nowIso r = false) ∧
  (∀ id t t' rows, update_where (consumable id) (consume t') (update_where (consumable id) (consume t) rows) =
     update_where (consumable id) (consume t) rows).
Proof.
  refine (grant_lifetimes (js "mail") (js "send") (js "Bob") demo_sid Allow 1767225600000 two_sessions _ _ _ _).
  - vm_compute. reflexivity.
  - vm_compute. split; discriminate.
  - vm_compute. discriminate.
  - vm_compute. reflexivity.
Defined.
