(* ===== verification/Status.v ===== *)
(** * Status, snapshots and spend settings

    The read models of [packages/engine/src/agent/user-agent.ts]: the pending
    confirmations as render-ready records, the governed-session view, the
    development snapshot, and the spend settings. Every one of them reaps first
    and changes nothing else. *)

From S2P Require Export Grants.
Open Scope Z_scope.

Definition SNAPSHOT_WINDOW : Z := 50.

Record HeldCallRecord := mkHeldRecord {
  hr_heldCallId : jsstr;
  hr_service : jsstr;
  hr_verb : jsstr;
  hr_noun : jsstr;
  hr_params : option json;
  hr_origin : option origin;
  hr_goal : option jsstr;
  hr_spend : option SpendHoldContext;
}.

Record GrantView := mkGrantView {
  gv_service : jsstr; gv_verb : jsstr; gv_noun : jsstr; gv_source : policy_source;
  gv_expiresAt : option jsstr;
}.
Record AuditTail := mkTail { at_hash : jsstr; at_prevHash : jsstr }.
Record StatusResponse := mkStatus {
  st_session : option ActiveSessionView;
  st_grants : list GrantView;
  st_heldRecords : list HeldCallRecord;
  st_auditTail : option AuditTail;
}.

(** A held call with its row joins. *)
Record HeldCallDetailRecord := mkHeldDetail {
  hd_record : HeldCallRecord;
  hd_sessionId : jsstr;
  hd_heldAt : jsstr;
  hd_runId : option jsstr;
}.
Record GovernanceSnapshot := mkSnapshot {
  gs_userId : jsstr;
  gs_generatedAt : jsstr;
  gs_session : option ActiveSessionView;
  gs_policyEntries : list PolicyEntriesRow;
  gs_held : list HeldCallDetailRecord;
  gs_commissions : list CommissionRunsRow;
  gs_connectedServices : list (jsstr * jsstr * bool);
  gs_audit : list RecentAuditEntryRow;
  gs_tableCounts : list (CountableTable * nat);
}.

Record SettingsResponse := mkSettings {
  sr_monthLimitCents : Z; sr_sessionLimitCents : Z;
  sr_monthIsDefault : bool; sr_sessionIsDefault : bool;
  sr_monthSpentCents : Z; sr_sessionSpentCents : Z;
}.

(** [if (s)] on an optional string. *)
Definition truthy_str (s : option jsstr) : option jsstr :=
  match s with None | Some [] => None | Some s => Some s end.

Section status.
Context `{Platform} `{Catalog}.

(** ** Pending records *)

(** [JSON.parse(run.data)]: it throws on text that is not JSON. *)
Definition parse_data (t : json_text) : M json :=
  match JSON_parse t with Some v => mret v | None => throw (Exn (js "Unexpected token in JSON")) end.

Definition spend_of_hold (column : option json_text) : option SpendHoldContext :=
  match parseSpendContext column with
  | Some None => Some (mkSpendCtx None unpriced [] None)
  | Some (Some c) => Some c
  | None => None
  end.

Definition pendingHeldRecordFor (heldCallId : jsstr) : M (option HeldCallRecord) :=
  held ← loadHeldCall heldCallId;
  match held with
  | None => mret None
  | Some h =>
      match parseTurnState (hc_turn_state h) with
      | TurnOk st =>
          match ts_heldCall st with
          | None => mret None
          | Some heldCall =>
              if ts_dispatched st || ts_answered st then mret None
              else
                let registry := match member (js "name") heldCall with
                                | Some (JStr n) => lookupTool n | _ => None end in
                run ← match truthy_str (hc_run_id h) with
                      | Some r => readCommissionRun_row r
                      | None => mret None
                      end;
                input ← match run ≫= cr_data with
                        | Some d =>
                            if truthy (Some d)
                            then data ← parse_data d;
                                 mret ((λ v, substituteDataPlaceholders v data) <$> member (js "input") heldCall)
                            else mret (member (js "input") heldCall)
                        | None => mret (member (js "input") heldCall)
                        end;
                mret (Some (mkHeldRecord (hc_id h) (service_of registry) (verb_of registry)
                  (noun_of registry (as_fields (default JNull input))) input
                  (match truthy_str (hc_run_id h) with Some _ => Some O_mcp_commission | None => None end)
                  (match truthy_str (hc_run_id h) with Some _ => cr_goal <$> run | None => None end)
                  (spend_of_hold (hc_spend_context h))))
          end
      | _ => mret None
      end
  end.

Fixpoint collectRecords (ids : list jsstr) : M (list HeldCallRecord) :=
  match ids with
  | [] => mret []
  | id :: rest =>
      r ← pendingHeldRecordFor id;
      rs ← collectRecords rest;
      mret (match r with Some r => r :: rs | None => rs end)
  end.
Definition readPendingHeldRecords : M (list HeldCallRecord) :=
  ids ← unresolvedHeldCallIds (λ _, true); collectRecords ids.

(** ** The status view *)

Definition readAuditTail : M (option AuditTail) :=
  rows ← selectRecentAuditEntries 1;
  mret ((λ r, mkTail (ra_hash r) (ra_prev_hash r)) <$> head rows).

Definition grant_view (r : PolicyEntriesRow) : GrantView :=
  mkGrantView (po_service r) (po_verb r) (po_noun r) (po_source r) (po_expires_at r).

Definition readStatus : M StatusResponse :=
  session ← getActiveSession;
  match session with
  | None => tail ← readAuditTail; mret (mkStatus None [] [] tail)
  | Some s =>
      grants ← selectActiveGrants (Some (av_sessionId s));
      held ← readPendingHeldRecords;
      tail ← readAuditTail;
      mret (mkStatus (Some s) (grant_view <$> grants) held tail)
  end.

(** The model never learns a limit, a total or a summary. *)
Definition strip_spend (r : HeldCallRecord) : HeldCallRecord :=
  mkHeldRecord (hr_heldCallId r) (hr_service r) (hr_verb r) (hr_noun r) (hr_params r) (hr_origin r)
    (hr_goal r)
    ((λ c, mkSpendCtx (sc_amountCents c) (sc_reason c) [] None) <$> hr_spend r).
Definition readStatusForModel : M StatusResponse :=
  s ← readStatus;
  mret (mkStatus (st_session s) (st_grants s) (strip_spend <$> st_heldRecords s) (st_auditTail s)).

(** ** The development snapshot *)

Fixpoint heldDetails (records : list HeldCallRecord) : M (list HeldCallDetailRecord) :=
  match records with
  | [] => mret []
  | pending :: rest =>
      row ← loadHeldCall (hr_heldCallId pending);
      ds ← heldDetails rest;
      mret (match row with
            | Some h => mkHeldDetail pending (hc_session_id h) (hc_held_at h) (hc_run_id h) :: ds
            | None => ds
            end)
  end.

Definition all_tables : list CountableTable :=
  [T_audit_log; T_connected_services; T_user_settings; T_oauth_state; T_policy_entries;
   T_held_tool_calls; T_commission_runs; T_session_state; T_spend_ledger].
Fixpoint countAll (ts : list CountableTable) : M (list (CountableTable * nat)) :=
  match ts with
  | [] => mret []
  | t :: ts' => n ← countRows t; ns ← countAll ts'; mret ((t, n) :: ns)
  end.

Definition readModelSnapshot (userId : jsstr) : M GovernanceSnapshot :=
  session ← getActiveSession;
  policyEntries ← selectActivePolicyEntries (av_sessionId <$> session);
  records ← readPendingHeldRecords;
  held ← heldDetails records;
  commissions ← selectRecentCommissionRuns SNAPSHOT_WINDOW;
  connected ← listConnectedServicesWithCredentialPresence;
  audit ← selectRecentAuditEntries SNAPSHOT_WINDOW;
  generatedAt ← nowISO;
  counts ← countAll all_tables;
  mret (mkSnapshot userId generatedAt session policyEntries held commissions connected audit counts).

(** ** Spend settings *)

Definition monthStartIso : M jsstr := n ← now; isoOf (month_start n).

Definition readSpendSettings : M SettingsResponse :=
  limits ← readSpendLimitsCents;
  session ← getActiveSession;
  since ← monthStartIso;
  month ← sumMonthSpendCents since;
  spent ← match session with
          | Some s => sumSessionSpendCents (av_sessionId s)
          | None => mret 0
          end;
  mret (mkSettings (lr_month limits) (lr_session limits) (lr_monthIsDefault limits)
    (lr_sessionIsDefault limits) month spent).

Definition writeSpendLimits (monthLimitCents sessionLimitCents : option Z) : M SettingsResponse :=
  match monthLimitCents with
  | Some z => setSetting SPEND_LIMIT_MONTHLY_KEY (int_to_string z)
  | None => mret tt
  end ;;
  match sessionLimitCents with
  | Some z => setSetting SPEND_LIMIT_SESSION_KEY (int_to_string z)
  | None => mret tt
  end ;;
  readSpendSettings.
End status.
