(* ===== verification/Pipeline.v ===== *)
(** * The governance pipeline and the execution of a tool

    [executeTool] of [packages/engine/src/agent/user-agent.ts] with everything it
    runs: the turn gate, the control-plane boundary, the required-slot park, the
    connection and scope preconditions, the pipeline with its spend stage, the
    dispatch, the outcome write with the spend ledger, and the recovery of a
    dispatch that a crash stranded. *)

From S2P Require Export Status.
Open Scope Z_scope.

(** ** Data *)

Record GovernancePipelineParams := mkPipeline {
  gp_toolName : jsstr;
  gp_params : fields;
  gp_userId : jsstr;
  gp_agentId : jsstr;
  gp_sessionId : jsstr;
  gp_entries : list PolicyEntry;
  gp_origin : option origin;
  gp_epochId : option jsstr;
  gp_timestamp : option jsstr;
  gp_denyReason : option jsstr;
  gp_askable : option bool;
}.

Record GovernancePipelineResult := mkGovernance {
  gr_decision : verdict;
  gr_auditEntry : AuditEntryResult;
  gr_service : jsstr;
  gr_verb : jsstr;
  gr_noun : jsstr;
  gr_matchedEntryId : option jsstr;
  gr_matchedSource : option jsstr;
  gr_spendContext : option SpendHoldContext;
}.

Record ExecuteToolParams := mkExecute {
  et_toolName : jsstr;
  et_toolParams : fields;
  et_userId : jsstr;
  et_agentId : jsstr;
  et_origin : option origin;
  et_runOrigin : option RunOrigin;
  et_runId : option jsstr;
  et_epochId : option jsstr;
  et_timestamp : option jsstr;
}.

Inductive DenyReason := not_connected | needs_authorization | policy_denied.

(** What a dispatch hands back: a tool's own data, or a control-plane view. *)
Inductive ExecutionData :=
  | D_tool (v : json)
  | D_status (s : StatusResponse)
  | D_killed
  | D_disconnected (service : jsstr) (disconnected : bool)
  | D_ended (ended : bool)
  | D_entries (entries : list PolicyEntry).
Record Execution := mkExecution {
  xn_success : bool;
  xn_data : option ExecutionData;
  xn_error : option jsstr;
}.

Record ExecuteToolResult := mkExecuteResult {
  er_governance : GovernancePipelineResult;
  er_execution : option Execution;
  er_denyReason : option DenyReason;
  er_held : option (jsstr * jsstr);
  er_boundaryRefused : bool;
}.

Inductive TaskActionOutcome := TA_executed | TA_errored | TA_denied.
Definition task_outcome_text (o : TaskActionOutcome) : jsstr :=
  match o with
  | TA_executed => js "executed" | TA_errored => js "errored" | TA_denied => js "denied"
  end.
Definition action_detail (service verb noun : jsstr) (outcome : TaskActionOutcome) : json :=
  JObj [(js "service", JStr service); (js "verb", JStr verb); (js "noun", JStr noun);
        (js "outcome", JStr (task_outcome_text outcome))].

(** The conversation state of a hold that has no conversation. *)
Definition seededTurnState (heldCallId toolName : jsstr) (toolParams : fields) : json :=
  JObj [(js "messages", JArr []);
        (js "heldCall", JObj [(js "type", JStr (js "tool_use")); (js "id", JStr heldCallId);
                              (js "name", JStr toolName); (js "input", JObj toolParams)]);
        (js "parkedCalls", JArr []); (js "producedResults", JArr []);
        (js "iterationsUsed", jint 0); (js "toolCalls", JArr []);
        (js "usage", JObj [(js "inputTokens", jint 0); (js "outputTokens", jint 0)]);
        (js "directExecute", JBool true)].

Definition DISPATCH_RECOVERY_ERROR : jsstr :=
  js "Recovered after interruption " ++ [8212%N] ++ js " outcome unknown".

(** ** Small pieces of JavaScript *)

(** [Object.keys]: [None] where it throws. *)
Definition Object_keys (v : json) : option (list jsstr) :=
  match v with
  | JObj fs => Some (fst <$> fs)
  | JArr l => Some ((λ i, dec (N.of_nat i)) <$> seq 0 (length l))
  | JStr s => Some ((λ i, dec (N.of_nat i)) <$> seq 0 (length s))
  | JNull => None
  | _ => Some []
  end.

(** [String(v)]; [None] is [undefined]. *)
Fixpoint json_String (v : json) : jsstr :=
  match v with
  | JStr s => s
  | JNum n => num_to_string n
  | JBool b => if b then js "true" else js "false"
  | JNull => js "null"
  | JArr l => Json.join (js ",")
      (map (λ x, match x with JNull => [] | _ => json_String x end) l)
  | JObj _ => js "[object Object]"
  end.
Definition js_String (v : option json) : jsstr :=
  match v with None => js "undefined" | Some v => json_String v end.

Definition parseStatusDetail (raw : option json_text) : option (list json) :=
  match raw with
  | None => None
  | Some t => match JSON_parse t with Some (JArr l) => Some l | _ => None end
  end.

Section pipeline.
Context `{Platform} `{Catalog}.

(** [err.message] and [String(err)]. *)
Definition error_message (e : exn) : jsstr :=
  match e with
  | Exn m => m | RangeError => js "Invalid time value" | SqlConstraint => constraintErrorText
  | RefinementError c => refinement_code_text c
  end.
Definition error_String (e : exn) : jsstr :=
  match e with
  | RangeError => js "RangeError: Invalid time value"
  | RefinementError c => js "RefinementError: " ++ refinement_code_text c
  | _ => js "Error: " ++ error_message e
  end.

(** ** The audit writes *)

Definition writeAuditEntry (params : AuditEntryFields) : M AuditEntryResult :=
  transactionSync (insertAuditEntryInTxn params).

(** An observed close always writes. *)
Definition closeObserved (params : ReferencingAuditEntryParams) : M AuditEntryResult :=
  r ← closeDecisionEntryInTxn params Observed;
  match r with Some r => mret r | None => throw (Exn []) end.

Definition with_cost (cost : jsnum) (p : AuditEntryFields) : AuditEntryFields :=
  mkParams (p_userId p) (p_agentId p) (p_sessionId p) (p_toolName p) (p_service p) (p_verb p)
    (p_noun p) (p_decision p) (p_origin p) (p_parametersMetadata p) (p_outcome p)
    (p_errorMessage p) (p_latencyMs p) (Some cost) (p_epochId p) (p_timestamp p).
Definition with_error (message : jsstr) (p : AuditEntryFields) : AuditEntryFields :=
  mkParams (p_userId p) (p_agentId p) (p_sessionId p) (p_toolName p) (p_service p) (p_verb p)
    (p_noun p) (p_decision p) (p_origin p) (p_parametersMetadata p) X_error
    (Some message) (p_latencyMs p) (p_costUsd p) (p_epochId p) (p_timestamp p).

Definition ledger_failure (e : exn) : jsstr :=
  js "spend_ledger write failed " ++ [8212%N] ++ js " spend uncounted (" ++ error_String e ++ js ")".

(** The ledger row of an outcome; [Some e] when its insert threw [e]. *)
Definition insertSpendRow (sessionId service verb auditEntryId : jsstr) (spend : ToolSpend)
    (toolParams : fields) (amountCents : Z) : M (option exn) :=
  try_catch (
    id ← newUUID;
    createdAt ← nowISO;
    insertSpendInTxn (mkSpend id sessionId createdAt service verb amountCents
      (ts_quoteId spend toolParams) (ts_idempotencyKey spend toolParams) None auditEntryId) ;;
    mret None)
    (λ e, mret (Some e)).

Definition writeOutcomeWithSpend (auditParams0 : ReferencingAuditEntryParams)
    (tool : option (Tool Credential)) (toolParams : fields)
    (persistAnswered : option (jsstr * json_text)) : M AuditEntryResult :=
  let spend := tool ≫= tl_spend in
  let amountCents := centsFromSpend spend toolParams in
  let auditParams := match amountCents with
    | Some c => mkCloserParams (with_cost (centsToUsd c) (rp_fields auditParams0))
                  (rp_decisionEntryId auditParams0)
    | None => auditParams0
    end in
  done_ ← transactionSync (
    written ← closeObserved auditParams;
    ledgerError ← match spend, amountCents with
      | Some s, Some c =>
          if bool_decide (p_outcome (rp_fields auditParams0) = X_success)
          then insertSpendRow (p_sessionId (rp_fields auditParams0)) (service_of tool) (verb_of tool)
                 (ae_id written) s toolParams c
          else mret None
      | _, _ => mret None
      end;
    match persistAnswered with
    | Some (heldCallId, turnState) => updateHeldTurnState heldCallId turnState
    | None => mret tt
    end ;;
    mret (written, ledgerError));
  let '(entry, ledgerError) := done_ in
  match ledgerError with
  | Some e =>
      transactionSync (
        closeObserved (mkCloserParams (with_error (ledger_failure e) (rp_fields auditParams))
          (ae_id entry))) ;;
      mret tt
  | None => mret tt
  end ;;
  mret entry.

(** ** The spend stage *)

Definition runSpendStage (spend : ToolSpend) (toolParams : fields) (sessionId : jsstr)
    : M (option jsnum * option SpendHoldContext) :=
  let summary := ts_describe spend toolParams in
  match ts_quotedAmountCents spend toolParams with
  | None => mret (None, Some (mkSpendCtx None unpriced [] summary))
  | Some amount =>
      let costUsd := Some (centsToUsd amount) in
      let unavailable := Some (mkSpendCtx (Some amount) totals_unavailable [] summary) in
      read ← try_catch (
        limits ← readSpendLimitsCents;
        session ← sumSessionSpendCents sessionId;
        since ← monthStartIso;
        month ← sumMonthSpendCents since;
        mret (Some (limits, mkTotals (Integer session) (Integer month))))
        (λ _, mret None);
      match read with
      | None => mret (costUsd, unavailable)
      | Some (limits, totals) =>
          mret (costUsd,
            match evaluateSpend (mkSpendInput (Integer amount)
                    (mkLimits (Integer (lr_session limits)) (Integer (lr_month limits)))
                    (Some totals)) with
            | Within => None
            | Exceeds breaches => Some (mkSpendCtx (Some amount) over_limit breaches summary)
            | Unavailable => unavailable
            end)
      end
  end.

(** ** The pipeline *)

Definition action_of (p : GovernancePipelineParams) : PolicyAction :=
  let tool := lookupTool (gp_toolName p) in
  mkPolicyAction (gp_agentId p) (service_of tool) (verb_of tool) (noun_of tool (gp_params p))
    (gp_toolName p).

Definition noAffirmativeGrant (pd : PolicyDecision) : bool :=
  bool_decide (pd_decision pd = V_deny) &&
  (bool_decide (pd_source pd = js "implicit") ||
   bool_decide (pd_entryId pd = Some WILDCARD_DENY_ID)).

Definition audit_deny_reason (pd : PolicyDecision) (denyReason : option jsstr) : jsstr :=
  if bool_decide (pd_source pd = js "malformed")
  then js "Denied: malformed policy set (non-finite priority)"
  else default (js "Denied by policy") denyReason.

Definition parameters_metadata (params : fields) (spendContext : option SpendHoldContext) : fields :=
  match spendContext with
  | Some c => set_field (js "spend") (spend_json c) (extractMetadata params)
  | None => extractMetadata params
  end.

(** The decision entry: only a deny is a failure. *)
Definition decision_entry (p : GovernancePipelineParams) (pd : PolicyDecision) (decision : verdict)
    (costUsd : option jsnum) (spendContext : option SpendHoldContext) : AuditEntryFields :=
  let action := action_of p in
  let denied := bool_decide (decision = V_deny) in
  mkParams (gp_userId p) (gp_agentId p) (gp_sessionId p) (gp_toolName p)
    (act_service action) (act_verb action) (act_noun action) decision (gp_origin p)
    (parameters_metadata (gp_params p) spendContext)
    (if denied then X_error else X_success)
    (if denied then Some (audit_deny_reason pd (gp_denyReason p)) else None)
    0 costUsd (gp_epochId p) (gp_timestamp p).

Definition executeGovernancePipeline (p : GovernancePipelineParams) : M GovernancePipelineResult :=
  let tool := lookupTool (gp_toolName p) in
  let action := action_of p in
  let pd := evaluatePolicy (gp_entries p) action in
  let decision0 := if default false (gp_askable p) && noAffirmativeGrant pd
                   then V_pending else pd_decision pd in
  stage ← match decision0, tool ≫= tl_spend with
          | V_allow, Some spend => runSpendStage spend (gp_params p) (gp_sessionId p)
          | _, _ => mret (None, None)
          end;
  let '(costUsd, spendContext) := stage in
  let decision := match spendContext with Some _ => V_pending | None => decision0 end in
  auditEntry ← writeAuditEntry (decision_entry p pd decision costUsd spendContext);
  mret (mkGovernance decision auditEntry (act_service action) (act_verb action) (act_noun action)
    (pd_entryId pd) (Some (pd_source pd)) spendContext).

(** ** A task's record of its actions *)

Definition appendActionDetail (runId : option jsstr) (detail : json) : M unit :=
  match truthy_str runId with
  | None => mret tt
  | Some id =>
      row ← readCommissionRun_row id;
      match row with
      | None => mret tt
      | Some r =>
          let existing := default [] (parseStatusDetail (cr_status_detail r)) in
          at_ ← nowISO;
          updateTaskStatusDetail id (Parsed (JArr (existing ++ [detail]))) at_
      end
  end.

(** ** The required slots *)

Definition required_slots (name : jsstr) : list jsstr :=
  match lookupTool name with
  | Some t => slot_key <$> List.filter slot_required (tl_dataSlots t)
  | None => []
  end.
(** The keys a run's data provides. *)
Definition provided_keys (run : option CommissionRunsRow) : list jsstr :=
  match run ≫= cr_data with
  | Some d => if truthy (Some d) then default [] (JSON_parse d ≫= Object_keys) else []
  | None => []
  end.
Definition missingRequiredSlots (name runId : jsstr) : M (list jsstr) :=
  let required := required_slots name in
  match required with
  | [] => mret []
  | _ =>
      run ← readCommissionRun_row runId;
      mret (List.filter (λ k, negb (existsb (eqs k) (provided_keys run))) required)
  end.

(** The row of a fresh hold and its insertion. *)
Definition parkHold (p : ExecuteToolParams) (sessionId pendingId : jsstr) (kind : hold_kind)
    (awaited spendContext : option json_text) : M (jsstr * jsstr) :=
  heldCallId ← newUUID;
  at_ ← nowISO;
  insertHeldToolCall (mkHeld heldCallId sessionId pendingId
    (wrapTurnState (seededTurnState heldCallId (et_toolName p) (et_toolParams p)))
    at_ (et_runId p) kind awaited spendContext) ;;
  mret (heldCallId, at_).

Definition parkInputHold (p : ExecuteToolParams) (sessionId runId : jsstr) (missing : list jsstr)
    : M ExecuteToolResult :=
  let tool := lookupTool (et_toolName p) in
  let noun := noun_of tool (et_toolParams p) in
  auditEntry ← writeAuditEntry
    (mkParams (et_userId p) (et_agentId p) sessionId (et_toolName p) (service_of tool) (verb_of tool)
      noun V_pending (et_origin p) (extractMetadata (et_toolParams p)) X_success None 0 None None None);
  let awaitedSlotKeys := Parsed (JArr (JStr <$> missing)) in
  held ← parkHold p sessionId (ae_id auditEntry) H_input (Some awaitedSlotKeys) None;
  markNeedsInput runId awaitedSlotKeys (snd held) ;;
  mret (mkExecuteResult
    (mkGovernance V_pending auditEntry (service_of tool) (verb_of tool) noun None None None)
    None None (Some (fst held, ae_id auditEntry)) false).

(** ** The preconditions' denials *)

(** The pipeline over no entries and with no question to ask: a recorded deny. *)
Definition forcedDeny (p : ExecuteToolParams) (sessionId reason : jsstr)
    : M GovernancePipelineResult :=
  executeGovernancePipeline (mkPipeline (et_toolName p) (et_toolParams p) (et_userId p)
    (et_agentId p) sessionId [] (et_origin p) (et_epochId p) (et_timestamp p) (Some reason) None).

Definition denied_detail (g : GovernancePipelineResult) : json :=
  action_detail (gr_service g) (gr_verb g) (gr_noun g) TA_denied.

Definition refuseControlPlane (p : ExecuteToolParams) (sessionId : jsstr) : M ExecuteToolResult :=
  governance ← forcedDeny p sessionId CONTROL_PLANE_REFUSAL;
  appendActionDetail (et_runId p) (denied_detail governance) ;;
  mret (mkExecuteResult governance None None None true).

Definition heldRunOrigin (origin : option RunOrigin) (runId : option jsstr) : RunOrigin :=
  match origin with
  | Some o => o
  | None => match runId with None => RO_human | Some _ => RO_commission end
  end.

Definition scope_missing (tool : option (Tool Credential)) (service : jsstr) : M bool :=
  match tool with
  | Some t =>
      match tl_requiredScopes t with
      | [] => mret false
      | required =>
          granted ← readGrantedScopes service;
          mret match granted with
               | Some g => negb (existsb (λ s, existsb (eqs s) g) required)
               | None => false
               end
      end
  | None => mret false
  end.

(** ** [executeTool] up to the dispatch *)

Inductive Gate :=
  | Answer (r : ExecuteToolResult)
  | Dispatch (sessionId : jsstr) (governance : GovernancePipelineResult).

Definition spendTaskGrant (g : GovernancePipelineResult) : M unit :=
  match gr_matchedEntryId g with
  | Some (c :: id) =>
      if bool_decide (gr_matchedSource g = Some (js "task")) then consumeTaskGrant (c :: id)
      else mret tt
  | _ => mret tt
  end.

(** From the policy query on. *)
Definition pipeline_of (p : ExecuteToolParams) (sessionId : jsstr) (entries : list PolicyEntry)
    : GovernancePipelineParams :=
  mkPipeline (et_toolName p) (et_toolParams p) (et_userId p) (et_agentId p) sessionId entries
    (et_origin p) (et_epochId p) (et_timestamp p) None (Some true).

Definition governBy (p : ExecuteToolParams) (sessionId : jsstr) (entries : list PolicyEntry)
    : M Gate :=
  governance ← executeGovernancePipeline (pipeline_of p sessionId entries);
  match gr_decision governance with
  | V_pending =>
      held ← parkHold p sessionId (ae_id (gr_auditEntry governance)) H_confirmation None
               ((Parsed ∘ spend_json) <$> gr_spendContext governance);
      spendTaskGrant governance ;;
      mret (Answer (mkExecuteResult governance None None
        (Some (fst held, ae_id (gr_auditEntry governance))) false))
  | V_deny =>
      appendActionDetail (et_runId p) (denied_detail governance) ;;
      mret (Answer (mkExecuteResult governance None (Some policy_denied) None false))
  | V_allow =>
      spendTaskGrant governance ;;
      mret (Dispatch sessionId governance)
  end.

Definition govern (p : ExecuteToolParams) (sessionId : jsstr) : M Gate :=
  entries ← queryPolicyEntries (Some sessionId); governBy p sessionId entries.

(** The connection and scope preconditions. *)
Definition preconditions (p : ExecuteToolParams) (sessionId : jsstr) : M Gate :=
  let tool := lookupTool (et_toolName p) in
  let service := service_of tool in
  connected ← isServiceConnected service;
  if negb (eqs service CONTROL_PLANE_SERVICE) && negb connected then
    governance ← forcedDeny p sessionId (js "Service not connected: " ++ service);
    mret (Answer (mkExecuteResult governance None (Some not_connected) None false))
  else
    missing ← scope_missing tool service;
    if missing : bool then
      governance ← forcedDeny p sessionId
        (service ++ js " is connected but not authorized to " ++ verb_of tool ++
         js "; re-connect to grant it");
      mret (Answer (mkExecuteResult governance None (Some needs_authorization) None false))
    else govern p sessionId.

Definition gate (p : ExecuteToolParams) : M Gate :=
  reapExpiredSessions ;;
  sessionId ← resolveActiveSession (et_userId p) (et_agentId p) (et_origin p);
  if isControlPlaneTool (et_toolName p) &&
     negb (controlPlaneAllowed (default RO_human (et_runOrigin p)))
  then r ← refuseControlPlane p sessionId; mret (Answer r)
  else
    missing ← match truthy_str (et_runId p) with
              | Some runId => missingRequiredSlots (et_toolName p) runId
              | None => mret []
              end;
    match missing with
    | [] => preconditions p sessionId
    | _ =>
        r ← parkInputHold p sessionId (default [] (et_runId p)) missing; mret (Answer r)
    end.

(** ** The dispatch *)

Definition failed (message : jsstr) : Execution := mkExecution false None (Some message).

Definition dispatchControlPlane (verb : jsstr) (params : fields) : M Execution :=
  if bool_decide (verb = js "status") then
    s ← readStatusForModel; mret (mkExecution true (Some (D_status s)) None)
  else if bool_decide (verb = js "kill") then
    killSwitch ;; mret (mkExecution true (Some D_killed) None)
  else if bool_decide (verb = js "disconnect") then
    let service := js_String (get (js "service") params) in
    b ← disconnectService service;
    mret (mkExecution true (Some (D_disconnected service b)) None)
  else if bool_decide (verb = js "quit") then
    b ← endSession E_quit; mret (mkExecution true (Some (D_ended b)) None)
  else if bool_decide (verb = js "read") then
    es ← getStandingEntries; mret (mkExecution true (Some (D_entries es)) None)
  else mret (failed (js "Unknown habenula control-plane verb: " ++ verb)).

(** Both failures are answers: the outcome write is always reached. *)
Definition dispatchTool (name : jsstr) (toolParams : fields) (userId : jsstr) : M Execution :=
  match lookupTool name with
  | None => mret (failed (js "No implementation for tool: " ++ name))
  | Some t =>
      if eqs (tl_service t) CONTROL_PLANE_SERVICE then dispatchControlPlane (tl_verb t) toolParams
      else
        credential ← try_catch
          (c ← resolveServiceCredential userId (tl_service t); mret (inr c))
          (λ e, mret (inl (error_message e)));
        match credential with
        | inl message => mret (failed message)
        | inr c =>
            try_catch
              (r ← tl_execute t toolParams c;
               mret (mkExecution (ex_success r) (D_tool <$> ex_data r) (ex_error r)))
              (λ e, mret (failed (error_message e)))
        end
  end.

Definition outcome_params (p : ExecuteToolParams) (sessionId : jsstr)
    (g : GovernancePipelineResult) (execution : Execution) : ReferencingAuditEntryParams :=
  mkCloserParams
    (mkParams (et_userId p) (et_agentId p) sessionId (et_toolName p) (gr_service g) (gr_verb g)
      (gr_noun g) (gr_decision g) (et_origin p) (extractMetadata (et_toolParams p))
      (if xn_success execution then X_success else X_error) (xn_error execution) 0 None
      (et_epochId p) (et_timestamp p))
    (ae_id (gr_auditEntry g)).

(** After the dispatch: the outcome, the ledger and the task's record. *)
Definition finish (p : ExecuteToolParams) (sessionId : jsstr) (g : GovernancePipelineResult)
    (execution : Execution) : M ExecuteToolResult :=
  writeOutcomeWithSpend (outcome_params p sessionId g execution) (lookupTool (et_toolName p))
    (et_toolParams p) None ;;
  appendActionDetail (et_runId p) (action_detail (gr_service g) (gr_verb g) (gr_noun g)
    (if xn_success execution then TA_executed else TA_errored)) ;;
  mret (mkExecuteResult g (Some execution) None None false).

Definition executeTool (p : ExecuteToolParams) : M ExecuteToolResult :=
  answer ← gate p;
  match answer with
  | Answer r => mret r
  | Dispatch sessionId g =>
      execution ← dispatchTool (et_toolName p) (et_toolParams p) (et_userId p);
      finish p sessionId g execution
  end.

(** ** The turn gate *)

(** The flag is set before the first await, and the [finally] clears it. *)
Definition withTurnGate {A} (busy : A) (run : M A) : M A := λ w,
  if w_turnInFlight w then (Ok busy, w)
  else let '(r, w') := run (with_gate true w) in (r, with_gate false w').

Definition executeToolDirect (p : ExecuteToolParams) : M (option ExecuteToolResult) :=
  withTurnGate None (r ← executeTool p; mret (Some r)).

(** ** A dispatch that a crash stranded *)

Definition dispatchRecoveryAuditParams (toolName : jsstr) (input : fields)
    (userId agentId sessionId pendingAuditEntryId : jsstr) (o : origin) : ReferencingAuditEntryParams :=
  let tool := lookupTool toolName in
  let amountCents : option Z :=
    match tool ≫= tl_spend with Some s => ts_quotedAmountCents s input | None => None end in
  mkCloserParams
    (mkParams userId agentId sessionId toolName (service_of tool) (verb_of tool) (noun_of tool input)
      V_allow (Some o) (extractMetadata input) X_error (Some DISPATCH_RECOVERY_ERROR) 0
      (centsToUsd <$> amountCents) None None)
    pendingAuditEntryId.

Definition json_str (v : option json) : jsstr := match v with Some (JStr s) => s | _ => [] end.

(** The stranded call of a row: its tool-use id, name and input. *)
Definition stranded_call (h : HeldToolCallsRow) : option (jsstr * jsstr * fields) :=
  match hc_run_id h with
  | Some _ => None
  | None =>
      match parseTurnState (hc_turn_state h) with
      | TurnOk st =>
          match ts_heldCall st with
          | Some call =>
              if ts_dispatched st && negb (ts_answered st)
              then Some (json_str (member (js "id") call), json_str (member (js "name") call),
                         as_fields (default JNull (member (js "input") call)))
              else None
          | None => None
          end
      | _ => None
      end
  end.

Fixpoint healRows (userId agentId : jsstr) (rows : list HeldToolCallsRow) : M (list jsstr) :=
  match rows with
  | [] => mret []
  | row :: rest =>
      healed ← match stranded_call row with
        | None => mret []
        | Some (useId, name, input) =>
            held ← loadHeldCall (hc_id row);
            match held with
            | None => mret []
            | Some h =>
                transactionSync (
                  closeObserved (dispatchRecoveryAuditParams name input userId agentId
                    (hc_session_id h) (hc_pending_audit_entry_id h) O_human) ;;
                  deleteHeldToolCall (hc_id row)) ;;
                mret [useId]
            end
        end;
      more ← healRows userId agentId rest;
      mret (healed ++ more)
  end.
Definition healCrashedDispatchHolds (userId agentId : jsstr) : M (list jsstr) :=
  rows ← selectHeldCalls; healRows userId agentId rows.
End pipeline.

(** ** What the pipeline answers and records *)

(** Only the clock was read. *)
Definition read_only (w w' : World) : Prop :=
  ∃ k, w' = mkWorld (w_db w) (w_clock w) (w_ticks w + k) (w_uuids w) (w_turnInFlight w).

Lemma read_only_refl w : read_only w w.
Proof. exists 0%nat. rewrite Nat.add_0_r. by destruct w. Qed.

(** The cents of a session, and those stamped from an instant on. *)
Definition session_cents (sid : jsstr) (d : Db) : Z :=
  sum_cents (List.filter (λ r, eqs (sl_session_id r) sid) (spend_ledger d)).
Definition cents_since (since : jsstr) (d : Db) : Z :=
  sum_cents (List.filter (λ r, negb (sql_lt (sl_created_at r) since)) (spend_ledger d)).

(** A quoted call that stays within both windows, as the ledger and the settings
    of [d] stand in the month of [nowMs]. *)
Definition within_caps (spend : ToolSpend) (params : fields) (sid : jsstr) (d : Db) (nowMs : Z)
    : Prop :=
  let month := cents_since (toISOString (month_start nowMs)) d in
  ∃ a, ts_quotedAmountCents spend params = Some a ∧
    0 <= a ∧ 0 <= session_cents sid d ∧ 0 <= month ∧ in_range (month_start nowMs) ∧
    session_cents sid d + a <= lr_session (limits_of (user_settings d)) ∧
    month + a <= lr_month (limits_of (user_settings d)).

Section specs.
Context `{Platform} `{!PlatformLaws _} `{Catalog}.
Implicit Types (w : World).

Lemma runSpendStage_spec spend params sid w :
  ∃ ctx w', runSpendStage spend params sid w =
      (Ok (centsToUsd <$> ts_quotedAmountCents spend params, ctx), w') ∧
    read_only w w' ∧
    (ctx = None ↔ within_caps spend params sid (w_db w) (w_clock w (w_ticks w))).
Proof.
  unfold runSpendStage, within_caps. destruct (ts_quotedAmountCents spend params) as [a|].
  2:{ do 2 eexists. split; [reflexivity|]. split; [apply read_only_refl|]. naive_solver. }
  set (d := w_db w). set (t := w_clock w (w_ticks w)). set (w' := tick w).
  assert (read_only w w') as Hro by (exists 1%nat; by rewrite Nat.add_1_r).
  unfold readSpendLimitsCents, sumSessionSpendCents, sumMonthSpendCents, monthStartIso, now, select,
    isoOf, try_catch, mbind, M_bind, mret, M_ret, throw. cbv beta iota zeta.
  cbn [w_db w_clock w_ticks w_uuids w_turnInFlight]. fold d t.
  destruct (Z.leb_spec (Z.abs (month_start t)) 8640000000000000) as [Hr|Hr].
  2:{ do 2 eexists. split; [reflexivity|]. split; [exact Hro|]. split; [done|].
      intros (?&_&_&_&_&Hx&_). unfold in_range in Hx. lia. }
  cbn [w_db w_clock w_ticks w_uuids w_turnInFlight]. fold d.
  do 2 eexists. split; [reflexivity|]. split; [exact Hro|].
  fold (session_cents sid d) (cents_since (toISOString (month_start t)) d).
  destruct (limits_of_safe (user_settings d)) as [Hlm Hls].
  match goal with |- context [evaluateSpend ?i] => destruct (evaluateSpend i) eqn:E end.
  - apply evaluateSpend_within in E as [Hf [? ?]]. rewrite !Forall_cons in Hf. destruct_and!.
    split; [|done]. intros _. exists a. by repeat split; try lia.
  - split; [done|]. intros (a'&[= <-]&?&?&?&?&?&?). exfalso. revert E.
    rewrite (proj2 (evaluateSpend_within _ _ _ _ _)); [done|]. rewrite !Forall_cons.
    repeat split; try done; lia.
  - split; [done|]. intros (a'&[= <-]&?&?&?&?&?&?). exfalso. revert E.
    rewrite (proj2 (evaluateSpend_within _ _ _ _ _)); [done|]. rewrite !Forall_cons.
    repeat split; try done; lia.
Qed.
Lemma wp_writeAudit params Q w :
  chain_inv (w_db w) (w_uuids w) → p_epochId params = None →
  (∀ row r w', written params None w w' row r → Q r w') → wp (writeAuditEntry params) Q w.
Proof. intros. by apply wp_txn, wp_insertRow. Qed.

(** What a run of the pipeline answers, and the one row it appends. *)
Record governed (p : GovernancePipelineParams) w w' (g : GovernancePipelineResult) : Prop := {
  gv_decision :
    let pd := evaluatePolicy (gp_entries p) (action_of p) in
    gr_decision g =
      match pd_decision pd with
      | V_allow => match gr_spendContext g with None => V_allow | Some _ => V_pending end
      | _ => if default false (gp_askable p) && noAffirmativeGrant pd then V_pending else V_deny
      end;
  gv_spend :
    gr_spendContext g = None ↔
    (pd_decision (evaluatePolicy (gp_entries p) (action_of p)) = V_allow →
     ∀ spend, lookupTool (gp_toolName p) ≫= tl_spend = Some spend →
     within_caps spend (gp_params p) (gp_sessionId p) (w_db w) (w_clock w (w_ticks w)));
  gv_match :
    let pd := evaluatePolicy (gp_entries p) (action_of p) in
    gr_matchedEntryId g = pd_entryId pd ∧ gr_matchedSource g = Some (pd_source pd);
  gv_scope :
    (gr_service g, gr_verb g, gr_noun g) =
    (act_service (action_of p), act_verb (action_of p), act_noun (action_of p));
  gv_row : ∃ cost row w0,
    read_only w w0 ∧
    written (decision_entry p (evaluatePolicy (gp_entries p) (action_of p)) (gr_decision g) cost
      (gr_spendContext g)) None w0 w' row (gr_auditEntry g);
}.

Lemma evaluatePolicy_not_pending es a : pd_decision (evaluatePolicy es a) ≠ V_pending.
Proof.
  destruct (evaluatePolicy_outcome es a) as [| |m]; simpl; try done. by destruct (pe_decision m).
Qed.

Lemma wp_pipeline p Q w :
  chain_inv (w_db w) (w_uuids w) → gp_epochId p = None →
  (∀ g w', governed p w w' g → Q g w') → wp (executeGovernancePipeline p) Q w.
Proof.
  intros Hi He HQ. unfold executeGovernancePipeline. cbv zeta.
  set (pd := evaluatePolicy (gp_entries p) (action_of p)).
  pose proof (evaluatePolicy_not_pending (gp_entries p) (action_of p)) as Hnp. fold pd in Hnp.
  set (decision0 := if default false (gp_askable p) && noAffirmativeGrant pd then V_pending else pd_decision pd).
  assert (decision0 = V_allow ↔ pd_decision pd = V_allow) as Hd0.
  { unfold decision0. destruct (default false (gp_askable p)); [|done]. simpl.
    unfold noAffirmativeGrant. case_bool_decide as E; simpl; [|done]. rewrite E.
    case_match; done. }
  assert (wp (match decision0 with
    | V_allow => match lookupTool (gp_toolName p) ≫= tl_spend with
                 | Some spend => runSpendStage spend (gp_params p) (gp_sessionId p)
                 | None => mret (None, None) end
    | _ => mret (None, None) end)
    (λ stage w0, read_only w w0 ∧ (snd stage = None ↔ (pd_decision pd = V_allow →
       ∀ spend, lookupTool (gp_toolName p) ≫= tl_spend = Some spend →
       within_caps spend (gp_params p) (gp_sessionId p) (w_db w) (w_clock w (w_ticks w)))) ∧
       (snd stage ≠ None → decision0 = V_allow)) w) as Hstage.
  { destruct decision0.
    2,3: apply wp_ret; split_and!; [apply read_only_refl| |done]; split; [|done];
      intros _ Ha; by apply Hd0 in Ha.
    destruct (lookupTool (gp_toolName p) ≫= tl_spend) as [spend|] eqn:Es; [|apply wp_ret];
      [|split_and!; [apply read_only_refl|naive_solver|done]].
    destruct (runSpendStage_spec spend (gp_params p) (gp_sessionId p) w) as (ctx&w'&E&Hr&Hc).
    apply wp_run. do 2 eexists. split; [exact E|]. simpl. rewrite Hc. naive_solver. }
  apply wp_bind. eapply wp_mono; [exact Hstage|]. intros [cost ctx] w0 (Hr&Hc&Hp). simpl in Hc, Hp.
  destruct Hr as (k&->). apply wp_bind, wp_writeAudit; [exact Hi|exact He|].
  intros row r w' Hw. apply wp_ret, HQ. split; simpl; try done.
  - fold pd. destruct ctx as [c|].
    + rewrite (proj1 Hd0) by auto. done.
    + unfold decision0. destruct (pd_decision pd) eqn:Ed; [|by destruct (_ && _)|done].
      unfold noAffirmativeGrant. rewrite Ed. simpl. by rewrite andb_false_r.
  - do 3 eexists. split; [|exact Hw]. by exists k.
Qed.
End specs.

(** ** The object's invariant *)

(** Held calls carry identifiers already drawn. *)
Definition held_supply `{Platform} (d : Db) (n : nat) : Prop :=
  Forall (λ h, ∃ k, (k < n)%nat ∧ hc_id h = randomUUID k) (held_tool_calls d).

(** The life cycle's, the policy table's and the holds'. *)
Definition agent_inv `{Platform} (d : Db) (n : nat) : Prop :=
  store_inv d n ∧ policy_inv d n ∧ held_supply d n.

Section agent_inv.
Context `{Platform} `{!PlatformLaws _}.

#[export] Instance held_supply_off : OffSessions held_supply.
Proof.
  split; [|done..|].
  - intros d n m Hnm Hs. eapply Forall_impl; [exact Hs|]. intros h (k&?&?). exists k. split; [lia|done].
  - intros p d n Hs. unfold held_supply, drop_held in *. simpl. rewrite Forall_forall in *.
    intros h [Hh%list_elem_of_In _]%list_elem_of_In%filter_In. by apply Hs.
Qed.

Lemma agent_inv_keeps {A} (m : M A) :
  keeps store_inv m → keeps policy_inv m → keeps held_supply m → keeps agent_inv m.
Proof. intros. unfold agent_inv. by repeat apply keeps_and. Qed.

#[export] Instance agent_inv_frame : SessionFrame agent_inv.
Proof.
  split.
  - intros d n m Hnm (?&?&?). split_and!; by eapply supply.
  - intros. apply agent_inv_keeps; by apply sf_insert.
  - intros sid t d n (?&?&?). split_and!; by apply sf_stop.
  - intros sid t d n (?&?&?). split_and!; by apply sf_stamp.
  - intros p d n (?&?&?). split_and!; by apply sf_drop.
  - intros. apply agent_inv_keeps; apply sf_create.
Qed.

Lemma agent_insert_held h d n :
  agent_inv d n → (∃ k, (k < n)%nat ∧ hc_id h = randomUUID k) →
  existsb (is_held (hc_id h)) (held_tool_calls d) = false →
  agent_inv (set_held_tool_calls (λ rows, rows ++ [h]) d) n.
Proof.
  intros ([H1 H2 H3 H4 H5]&Hp&Hh) Hk Hc. split_and!; [split; simpl; try done|exact Hp|].
  - rewrite fmap_app. apply NoDup_app. split_and!; [done| |apply NoDup_singleton].
    intros x (y&->&Hy)%list_elem_of_fmap Hx%list_elem_of_singleton. apply not_true_iff_false in Hc.
    apply Hc, existsb_exists. exists y. split; [by apply list_elem_of_In|]. by apply eqs_true.
  - apply Forall_app. split; [exact Hh|]. by repeat constructor.
Qed.

(** Changes that touch neither sessions, grants nor holds. *)
Lemma agent_set_runs f d n : agent_inv d n → agent_inv (set_commission_runs f d) n.
Proof. intros ([]&?&?). split_and!; [by split|done..]. Qed.
Lemma agent_set_ledger f d n : agent_inv d n → agent_inv (set_spend_ledger f d) n.
Proof. intros ([]&?&?). split_and!; [by split|done..]. Qed.
Lemma agent_set_connected f d n : agent_inv d n → agent_inv (set_connected_services f d) n.
Proof. intros ([]&?&?). split_and!; [by split|done..]. Qed.
Lemma agent_set_policy f d n :
  agent_inv d n → policy_rows_ok (f (policy_entries d)) → agent_inv (set_policy_entries f d) n.
Proof. intros ([]&?&?) Hf. split_and!; [by split|done..]. Qed.
Lemma agent_turn_state id t d n :
  agent_inv d n → agent_inv (set_held_tool_calls (update_where (is_held id) (set_turn_state t)) d) n.
Proof.
  intros ([? ? ? ? Hn]&?&Hh). split_and!; [split; simpl; try done| |]; [by rewrite update_where_ids|done|].
  unfold held_supply. simpl. unfold update_where. apply Forall_fmap. eapply Forall_impl; [exact Hh|].
  intros h Hk. simpl. by destruct (is_held id h).
Qed.
End agent_inv.

(** ** The pieces of the gate *)

Section gate_specs.
Context `{Platform} `{!PlatformLaws _} `{Catalog}.
Implicit Types (w : World).

Lemma keeps_writeAudit J `{!SessionFrame J} params :
  p_epochId params = None → keeps J (writeAuditEntry params).
Proof. intros. apply keeps_txn; [apply _|by apply sf_insert]. Qed.

Lemma keeps_stage J spend params sid : keeps J (runSpendStage spend params sid).
Proof.
  unfold runSpendStage, readSpendLimitsCents, sumSessionSpendCents, monthStartIso, sumMonthSpendCents.
  keeps_tac.
Qed.
Hint Resolve keeps_stage : wb.

Lemma keeps_pipeline J `{!SessionFrame J} p :
  gp_epochId p = None → keeps J (executeGovernancePipeline p).
Proof. intros. unfold executeGovernancePipeline. keeps_tac. by apply keeps_writeAudit. Qed.

(** The pipeline on the object's invariant. *)
Lemma wp_govern p Q w :
  agent_inv (w_db w) (w_uuids w) → gp_epochId p = None →
  (∀ g w', governed p w w' g → agent_inv (w_db w') (w_uuids w') → Q g w') →
  wp (executeGovernancePipeline p) Q w.
Proof.
  intros Ha He HQ. apply (wp_kept agent_inv); [by apply (keeps_pipeline agent_inv)|done|].
  apply wp_pipeline; [apply Ha|done|]. intros g w' Hg Ha' _. by apply HQ.
Qed.

(** The decision of [g] is the newest row. *)
Definition decided w' (g : GovernancePipelineResult) : Prop :=
  ∃ row, last (audit_log (w_db w')) = Some row ∧ h_id row = ae_id (gr_auditEntry g) ∧
    h_decision row = decision_text (gr_decision g) ∧ h_decisionEntryId row = None.

Lemma wellFormed_decision d : wellFormed (decision_text d) = decision_text d.
Proof. by destruct d. Qed.

Lemma written_decided params w w' row r g :
  written params None w w' row r → gr_auditEntry g = r → p_decision params = gr_decision g →
  decided w' g.
Proof.
  intros Hw <- Ed. exists row. rewrite (written_db _ _ _ _ _ _ Hw). simpl. rewrite last_snoc.
  rewrite (written_result _ _ _ _ _ _ Hw). split_and!; [done|done|..];
    destruct (written_fields _ _ _ _ _ _ Hw) as (?&?&?&?&?&->&_); [|done].
  change (wellFormed (decision_text (p_decision params)) = decision_text (gr_decision g)).
  by rewrite Ed, wellFormed_decision.
Qed.

Lemma governed_decided p w w' g : governed p w w' g → decided w' g.
Proof.
  intros [_ _ _ _ (cost&row&w0&_&Hw)]. by eapply written_decided.
Qed.

Lemma governed_db p w w' g :
  governed p w w' g → ∃ row, w_db w' = set_audit_log (λ l, l ++ [row]) (w_db w).
Proof.
  intros [_ _ _ _ (cost&row&w0&(k&->)&Hw)]. exists row. by rewrite (written_db _ _ _ _ _ _ Hw).
Qed.

(** A fresh hold goes in. *)
Lemma wp_park p sid pending kind awaited ctx Q w :
  agent_inv (w_db w) (w_uuids w) →
  (∀ h w', hc_pending_audit_entry_id h = pending → hc_hold_kind h = kind →
     w_db w' = set_held_tool_calls (λ rows, rows ++ [h]) (w_db w) →
     agent_inv (w_db w') (w_uuids w') → Q (hc_id h, hc_held_at h) w') →
  wp (parkHold p sid pending kind awaited ctx) Q w.
Proof.
  intros Ha HQ. unfold parkHold. apply wp_bind, wp_uuid, wp_bind, wp_nowISO.
  assert (existsb (is_held (randomUUID (w_uuids w))) (held_tool_calls (w_db w)) = false) as Hc.
  { apply not_true_iff_false. intros (h&Hh%list_elem_of_In&E%eqs_true)%existsb_exists.
    destruct Ha as (_&_&Hh'). unfold held_supply in Hh'. rewrite Forall_forall in Hh'.
    destruct (Hh' h Hh) as (k&Hk&E'). rewrite E' in E. apply (inj randomUUID) in E. lia. }
  apply wp_bind. unfold insertHeldToolCall. apply wp_insert; [exact Hc|]. apply wp_ret.
  match goal with |- Q _ (with_db (set_held_tool_calls (λ rows, rows ++ [?h])) _) => apply (HQ h) end;
    [done|done|done|].
  simpl. apply agent_insert_held; [|by exists (w_uuids w); split; [lia|]|exact Hc].
  eapply supply; [|exact Ha]. lia.
Qed.

Lemma wp_detail runId detail Q w :
  (∀ f w', w_db w' = set_commission_runs f (w_db w) → w_uuids w' = w_uuids w → Q tt w') →
  wp (appendActionDetail runId detail) Q w.
Proof.
  intros HQ. unfold appendActionDetail, readCommissionRun_row, updateTaskStatusDetail.
  assert (w_db w = set_commission_runs (λ l, l) (w_db w)) as E by by destruct (w_db w).
  destruct (truthy_str runId) as [id|]; [|by apply wp_ret, (HQ (λ l, l))].
  apply wp_bind, wp_select. destruct (List.find _ _); [|by apply wp_ret, (HQ (λ l, l))].
  apply wp_bind, wp_nowISO, wp_modify. by eapply HQ.
Qed.

(** The grant of a decision is spent exactly when it is a task grant. *)
Definition spent (g : GovernancePipelineResult) (at_ : jsstr) (d : Db) : Db :=
  match gr_matchedEntryId g with
  | Some (c :: id) =>
      if bool_decide (gr_matchedSource g = Some (js "task"))
      then set_policy_entries (update_where (consumable (c :: id)) (consume at_)) d else d
  | _ => d
  end.
Lemma wp_spend g Q w :
  (∀ at_ w', w_db w' = spent g at_ (w_db w) → w_uuids w' = w_uuids w → (w_ticks w <= w_ticks w')%nat → Q tt w') →
  wp (spendTaskGrant g) Q w.
Proof.
  intros HQ. unfold spendTaskGrant, spent in *.
  destruct (gr_matchedEntryId g) as [[|c id]|]; [by apply wp_ret, (HQ [])| |by apply wp_ret, (HQ [])].
  case_bool_decide; [|by apply wp_ret, (HQ [])].
  unfold consumeTaskGrant, consumeTaskGrant_row. apply wp_bind, wp_nowISO, wp_modify. eapply HQ; [done|done|simpl; lia].
Qed.
Lemma agent_spent g at_ d n : agent_inv d n → agent_inv (spent g at_ d) n.
Proof.
  intros Ha. unfold spent. repeat case_match; try done. apply agent_set_policy; [done|].
  apply policy_rows_consume, Ha.
Qed.
Lemma spent_log g at_ d : audit_log (spent g at_ d) = audit_log d.
Proof. unfold spent. by repeat case_match. Qed.
End gate_specs.
#[export] Hint Resolve keeps_stage : wb.

(** ** The gate *)

(** What the gate relies on of the credential layer: it answers null where it
    cannot read, and whatever is served while it decrypts keeps the invariant. *)
Class ScopeReads `{Platform} `{Catalog} : Prop := {
  scopes_return service w : ∃ r w', readGrantedScopes service w = (Ok r, w');
  scopes_keep service : keeps agent_inv (readGrantedScopes service);
}.

(** The gate let a call through on a live grant, and spent it if single-use:
    [d] are the tables the policy was read from, [k] the clock reading. *)
Record let_through `{Platform} `{Catalog} (p : ExecuteToolParams) (w w' : World) (sid : jsstr)
    (g : GovernancePipelineResult) (d : Db) (k : nat) (r : PolicyEntriesRow) : Prop := {
  lt_allow : gr_decision g = V_allow;
  lt_decided : decided w' g;
  lt_grant : r ∈ policy_entries d ∧ po_decision r = Allow ∧
    live_grant sid (toISOString (w_clock w k)) r;
  lt_when : (w_ticks w <= k)%nat ∧ (S k < w_ticks w')%nat;
  lt_names : let tool := lookupTool (et_toolName p) in
    po_service r = service_of tool ∧ po_verb r = verb_of tool ∧
    toLowerCase (po_noun r) = toLowerCase (noun_of tool (et_toolParams p));
  lt_caps spend : lookupTool (et_toolName p) ≫= tl_spend = Some spend →
    within_caps spend (et_toolParams p) sid d (w_clock w (S k));
  lt_surface : isControlPlaneTool (et_toolName p) = true → et_runOrigin p = Some RO_internal;
  lt_tables : ∃ row at_, w_db w' =
    (if bool_decide (po_source r = S_task)
     then set_policy_entries (update_where (consumable (po_id r)) (consume at_)) else λ d, d)
    (set_audit_log (λ l, l ++ [row]) d);
  lt_scope : (gr_service g, gr_verb g, gr_noun g) =
    (service_of (lookupTool (et_toolName p)), verb_of (lookupTool (et_toolName p)),
     noun_of (lookupTool (et_toolName p)) (et_toolParams p));
}.

(** The gate answered by itself: a deny, or a question with its held call. *)
Definition turned_away (w' : World) (r : ExecuteToolResult) : Prop :=
  decided w' (er_governance r) ∧ er_execution r = None ∧
  match gr_decision (er_governance r) with
  | V_allow => False
  | V_deny => er_held r = None
  | V_pending => ∃ h, h ∈ held_tool_calls (w_db w') ∧
      hc_pending_audit_entry_id h = ae_id (gr_auditEntry (er_governance r)) ∧
      er_held r = Some (hc_id h, hc_pending_audit_entry_id h)
  end.

Definition gate_answer `{Platform} `{Catalog} (p : ExecuteToolParams) (w : World) (a : Gate) (w' : World)
    : Prop :=
  agent_inv (w_db w') (w_uuids w') ∧
  match a with
  | Answer r => turned_away w' r
  | Dispatch sid g => ∃ d k r, let_through p w w' sid g d k r
  end.

Section gate.
Context `{Platform} `{!PlatformLaws _} `{Catalog}.
Implicit Types (w : World).

Lemma allowed_names r a :
  matches (toPolicyEntry r) a → po_decision r = Allow →
  po_service r = act_service a ∧ po_verb r = act_verb a ∧
  toLowerCase (po_noun r) = toLowerCase (act_noun a).
Proof.
  intros (H1&H2&H3) Hd. unfold toPolicyEntry in *. simpl in *.
  assert (∀ P pat, covers (po_decision r) P pat → P) as Hc
    by (intros P pat [[_ ?]|[_ ?]]; congruence).
  by split_and!; eapply Hc.
Qed.

Lemma decided_frame w w' g : audit_log (w_db w') = audit_log (w_db w) → decided w g → decided w' g.
Proof. unfold decided. by intros ->. Qed.

Lemma wp_denied runId detail w r :
  agent_inv (w_db w) (w_uuids w) → turned_away w r → gr_decision (er_governance r) = V_deny →
  wp (appendActionDetail runId detail) (λ _ w', agent_inv (w_db w') (w_uuids w') ∧ turned_away w' r) w.
Proof.
  intros Ha (Hd&Hx&Hh) E. apply wp_detail. intros f w' Ew Eu. rewrite Ew, Eu.
  split; [by apply agent_set_runs|]. rewrite E in Hh. split_and!; [|done|by rewrite E].
  eapply decided_frame; [|done]. by rewrite Ew.
Qed.

Lemma wp_forced p sid reason Q w :
  agent_inv (w_db w) (w_uuids w) → et_epochId p = None →
  (∀ g w', gr_decision g = V_deny → decided w' g → agent_inv (w_db w') (w_uuids w') → Q g w') →
  wp (forcedDeny p sid reason) Q w.
Proof.
  intros Ha He HQ. apply wp_govern; [done..|]. intros g w' Hg Ha'. apply HQ; [|by eapply governed_decided|done].
  exact (gv_decision _ _ _ _ Hg).
Qed.

Lemma wp_refuse p sid w :
  agent_inv (w_db w) (w_uuids w) → et_epochId p = None →
  wp (refuseControlPlane p sid) (λ r w', agent_inv (w_db w') (w_uuids w') ∧ turned_away w' r) w.
Proof.
  intros Ha He. unfold refuseControlPlane. apply wp_bind, wp_forced; [done..|].
  intros g w1 Hd Hdec Ha1. apply wp_bind. eapply wp_mono; [apply (wp_denied _ _ w1
    (mkExecuteResult g None None None true)); [done| |done]|intros [] w2 H2; by apply wp_ret].
  split_and!; [done|done|]. simpl. by rewrite Hd.
Qed.

Lemma wp_input p sid runId missing w :
  agent_inv (w_db w) (w_uuids w) → et_epochId p = None →
  wp (parkInputHold p sid runId missing)
    (λ r w', agent_inv (w_db w') (w_uuids w') ∧ turned_away w' r) w.
Proof.
  intros Ha He. unfold parkInputHold. cbv zeta. apply wp_bind.
  apply (wp_kept agent_inv); [by apply (keeps_writeAudit agent_inv)|done|].
  apply wp_writeAudit; [apply Ha|done|]. intros row r w1 Hw Ha1 _. apply wp_bind, wp_park; [done|].
  intros h w2 Hp _ Ew2 Ha2. unfold markNeedsInput. apply wp_bind, wp_modify, wp_ret.
  split; [by apply agent_set_runs|]. split_and!; [|done|].
  - eapply decided_frame; [|by eapply written_decided]. simpl. by rewrite Ew2.
  - simpl. exists h. rewrite Ew2, Hp. simpl. split_and!; [set_solver|done|done].
Qed.

Lemma allow_scoped rows r :
  policy_rows_ok rows → r ∈ rows → po_decision r = Allow → scoped_row r.
Proof.
  intros Hok Hr Hd. apply (pr_scoped _ Hok r Hr). intros E. destruct (pr_floor _ Hok) as (t&Ht).
  rewrite (floor_row_unique rows r t Hok Ht Hr E) in Hd. done.
Qed.

Lemma spent_row rows r g at_ :
  policy_rows_ok rows → r ∈ rows → po_decision r = Allow →
  gr_matchedEntryId g = Some (po_id r) → gr_matchedSource g = Some (source_text (po_source r)) →
  spent g at_ = if bool_decide (po_source r = S_task)
    then set_policy_entries (update_where (consumable (po_id r)) (consume at_)) else λ d, d.
Proof.
  intros Hok Hr Hd Ei Es. destruct (allow_scoped rows r Hok Hr Hd) as (_&_&_&_&_&_&Hne).
  unfold spent. rewrite Ei, Es. destruct (po_id r); [done|]. by destruct (po_source r).
Qed.

Lemma keeps_detail J runId detail :
  (∀ p f d n, (∀ r, p r = true → run_evolves r (f r)) → J d n → J (set_commission_runs (update_where p f) d) n) →
  keeps J (appendActionDetail runId detail).
Proof.
  intros HJ. unfold appendActionDetail, readCommissionRun_row. keeps_tac.
  by apply (keeps_run J (W_detail _ _ _)).
Qed.

Lemma keeps_any_govern p sid es : et_epochId p = None → keeps (λ _ _, True) (governBy p sid es).
Proof.
  intros He. unfold governBy, parkHold, insertHeldToolCall, spendTaskGrant, consumeTaskGrant, consumeTaskGrant_row.
  keeps_tac; [by apply (keeps_pipeline (λ _ _, True))|by apply keeps_detail].
Qed.

Lemma wp_govern_gate p sid w :
  agent_inv (w_db w) (w_uuids w) → et_epochId p = None →
  (isControlPlaneTool (et_toolName p) = true → et_runOrigin p = Some RO_internal) →
  wp (govern p sid) (gate_answer p w) w.
Proof.
  intros Ha He Hs. unfold govern. apply wp_bind, wp_query.
  set (nowIso := toISOString (w_clock w (w_ticks w))).
  set (entries := toPolicyEntry <$> _). fold (tick w).
  apply (wp_kept (λ _ _, True)); [by apply keeps_any_govern|done|]. unfold governBy.
  destruct (decision_row (policy_entries (w_db w)) sid nowIso (action_of (pipeline_of p sid entries)))
    as (r&Hr&Ei&Es&Hm&Hv); [apply Ha|]. fold entries in Ei, Es, Hv.
  apply wp_bind, wp_govern; [exact Ha|exact He|]. intros g w2 Hg Ha2.
  pose proof (governed_decided _ _ _ _ Hg) as Hdec. pose proof (governed_db _ _ _ _ Hg) as [row Erow].
  destruct (gv_match _ _ _ _ Hg) as [Emi Ems]. simpl in Emi, Ems.
  destruct (gr_decision g) eqn:Ed.
  - apply wp_bind, wp_spend. intros at_ w3 Ew3 Eu3 Et3. apply wp_ret. intros _ Hmv.
    pose proof (gv_decision _ _ _ _ Hg) as Hgd. rewrite Ed in Hgd. simpl in Hgd.
    destruct (pd_decision (evaluatePolicy entries _)) eqn:Epd; [|by destruct (noAffirmativeGrant _)|done].
    destruct (gr_spendContext g) eqn:Ectx; [done|]. destruct Hv as [Hva Hvl].
    split; [rewrite Ew3, Eu3; by apply agent_spent|]. exists (w_db w), (w_ticks w), r. split.
    + done.
    + eapply decided_frame; [|done]. by rewrite Ew3, spent_log.
    + done.
    + split; [done|]. destruct (gv_row _ _ _ _ Hg) as (?&?&w0&[k ->]&Hwr). pose proof (written_ticks _ _ _ _ _ _ Hwr) as Hlt.
      simpl in Hlt. lia.
    + destruct (allowed_names _ _ Hm Hva) as (?&?&?). done.
    + intros spend Hsp. exact (proj1 (gv_spend _ _ _ _ Hg) Ectx Epd spend Hsp).
    + exact Hs.
    + exists row, at_. rewrite Ew3, Erow. rewrite (spent_row (policy_entries (w_db w)) r); try done;
        [apply Ha|by rewrite Emi|by rewrite Ems, Es].
    + exact (gv_scope _ _ _ _ Hg).
  - apply wp_bind. eapply wp_mono; [apply (wp_denied _ _ w2
      (mkExecuteResult g None (Some policy_denied) None false)); [done| |done]|].
    { split_and!; [done|done|]. simpl. by rewrite Ed. }
    intros [] w3 [? ?]. apply wp_ret. by intros _ _.
  - apply wp_bind, wp_park; [done|]. intros h w3 Hp _ Ew3 Ha3. apply wp_bind, wp_spend.
    intros at_ w4 Ew4 Eu4 _. apply wp_ret. intros _ _.
    split; [rewrite Ew4, Eu4; by apply agent_spent|]. split_and!; [|done|].
    + eapply decided_frame; [|done]. by rewrite Ew4, spent_log, Ew3.
    + simpl. rewrite Ed. exists h. rewrite Ew4, Hp. split_and!; [|done|done].
      assert (∀ d, held_tool_calls (spent g at_ d) = held_tool_calls d) as ->
        by (intros d; unfold spent; by repeat case_match).
      rewrite Ew3. simpl. set_solver.
Qed.

(** What was let through from a later world was let through. *)
Lemma gate_answer_later p w w1 a w' : moved w w1 → gate_answer p w1 a w' → gate_answer p w a w'.
Proof.
  intros [_ Ht _ Ec] [Ha Hg]. split; [done|]. destruct a as [r|sid g]; [done|].
  destruct Hg as (d&k&r&[? ? [? [? Hl]] ? ? Hc ? ? ?]). exists d, k, r. rewrite Ec in Hl, Hc.
  split; try done. lia.
Qed.

Context `{!ScopeReads}.

Lemma wp_scope tool service Q w :
  agent_inv (w_db w) (w_uuids w) →
  (∀ b w', agent_inv (w_db w') (w_uuids w') → moved w w' → Q b w') →
  wp (scope_missing tool service) Q w.
Proof.
  intros Ha HQ. unfold scope_missing. destruct tool as [t|]; [|by apply wp_ret, HQ].
  destruct (tl_requiredScopes t); [by apply wp_ret, HQ|].
  apply wp_bind. apply (wp_kept agent_inv); [apply scopes_keep|done|].
  destruct (scopes_return service w) as (r&w'&E). apply wp_run. exists r, w'. split; [done|].
  intros Ha' Hm. by apply wp_ret, HQ.
Qed.

Lemma wp_preconditions p sid w :
  agent_inv (w_db w) (w_uuids w) → et_epochId p = None →
  (isControlPlaneTool (et_toolName p) = true → et_runOrigin p = Some RO_internal) →
  wp (preconditions p sid) (gate_answer p w) w.
Proof.
  intros Ha He Hs. unfold preconditions, isServiceConnected. cbv zeta. apply wp_bind, wp_select.
  assert (∀ reason why w, agent_inv (w_db w) (w_uuids w) →
    wp (governance ← forcedDeny p sid reason;
        mret (Answer (mkExecuteResult governance None (Some why) None false))) (gate_answer p w) w) as Hf.
  { intros reason why w0 Ha0. apply wp_bind, wp_forced; [done..|]. intros g w1 Hd Hdec Ha1.
    apply wp_ret. split; [done|]. split_and!; [done|done|]. simpl. by rewrite Hd. }
  destruct (_ && _); [by apply Hf|].
  apply wp_bind, wp_scope; [done|]. intros b w1 Ha1 Hm.
  eapply wp_mono; [|intros a w'; by apply gate_answer_later].
  destruct b; [by apply Hf|]. by apply wp_govern_gate.
Qed.

Lemma wp_missing name runId Q w : (∀ l, Q l w) → wp (missingRequiredSlots name runId) Q w.
Proof.
  intros HQ. unfold missingRequiredSlots, readCommissionRun_row. cbv zeta.
  destruct (required_slots name); [by apply wp_ret|]. by apply wp_bind, wp_select, wp_ret.
Qed.

Lemma wp_gate p w :
  agent_inv (w_db w) (w_uuids w) → times_ok (session_state (w_db w)) (w_clock w) →
  et_epochId p = None → wp (gate p) (gate_answer p w) w.
Proof.
  intros Ha Ht He. unfold gate.
  apply wp_bind, (wp_kept agent_inv); [apply (frame_reap agent_inv)|done|].
  apply wp_reaped; [apply Ha|done|]. intros w1 Hr Ha1 Hm1.
  apply wp_bind, (wp_kept agent_inv); [apply (frame_resolve agent_inv)|done|].
  apply wp_resolve; [apply Ha1|by eapply reaped_times; [apply Ha|..]|]. intros s w2 _ Ha2 Hm2.
  eapply wp_mono; [|intros a w'; by apply gate_answer_later; eapply moved_trans].
  assert (∀ m : M ExecuteToolResult,
    wp m (λ r w', agent_inv (w_db w') (w_uuids w') ∧ turned_away w' r) w2 →
    wp (r ← m; mret (Answer r)) (gate_answer p w2) w2) as Hans.
  { intros m Hm. apply wp_bind. eapply wp_mono; [exact Hm|]. intros r w' Hr'. by apply wp_ret. }
  destruct (_ && _) eqn:Eg; [by apply Hans, wp_refuse|].
  assert (isControlPlaneTool (et_toolName p) = true → et_runOrigin p = Some RO_internal) as Hs.
  { intros Ec. rewrite Ec in Eg. by destruct (et_runOrigin p) as [[]|]. }
  apply wp_bind. destruct (truthy_str (et_runId p)) as [runId|]; [|by apply wp_ret, wp_preconditions].
  apply wp_missing. intros [|k ks]; [by apply wp_preconditions|by apply Hans, wp_input].
Qed.
End gate.

(** ** Properties *)

Section properties.
Context `{Platform} `{!PlatformLaws _} `{Catalog} `{!ScopeReads}.

(** C1: nothing is dispatched without a live grant, and everything is recorded
    first. From any store with its invariants the gate always answers. It lets
    a call through only when an allow grant of the call's own session, neither
    expired nor consumed at an instant read during the call, names the call's
    service, verb and noun; when the call's price fits both windows; and, for a
    control-plane tool, on the internal surface. The allow entry is then the
    newest audit row, a single-use grant is already consumed, and no other
    table has moved since the policy was read. Otherwise the newest row is the
    deny or the question itself, nothing was executed, and a question has its
    held call on file. *)
Theorem dispatch_needs_allow p w :
  agent_inv (w_db w) (w_uuids w) → times_ok (session_state (w_db w)) (w_clock w) →
  et_epochId p = None →
  ∃ a w', gate p w = (Ok a, w') ∧ agent_inv (w_db w') (w_uuids w') ∧
    match a with
    | Answer r => turned_away w' r
    | Dispatch sid g => ∃ d k r, let_through p w w' sid g d k r
    end.
Proof. intros Ha Ht He. by apply wp_run, wp_gate. Qed.

Lemma gate_refused p :
  isControlPlaneTool (et_toolName p) = true → et_runOrigin p ≠ Some RO_internal →
  gate p = (reapExpiredSessions ;;
            sid ← resolveActiveSession (et_userId p) (et_agentId p) (et_origin p);
            r ← refuseControlPlane p sid; mret (Answer r)).
Proof.
  intros Hc Ho. unfold gate. rewrite Hc. by destruct (et_runOrigin p) as [[]|].
Qed.

Lemma wp_gate_refused p w :
  agent_inv (w_db w) (w_uuids w) → times_ok (session_state (w_db w)) (w_clock w) →
  et_epochId p = None → isControlPlaneTool (et_toolName p) = true →
  et_runOrigin p ≠ Some RO_internal →
  wp (gate p) (λ a w', ∃ g, a = Answer (mkExecuteResult g None None None true) ∧
    gr_decision g = V_deny ∧ decided w' g) w.
Proof.
  intros Ha Ht He Hc Ho. rewrite gate_refused by done.
  apply wp_bind, (wp_kept agent_inv); [apply (frame_reap agent_inv)|done|].
  apply wp_reaped; [apply Ha|done|]. intros w1 Hr Ha1 _.
  apply wp_bind, (wp_kept agent_inv); [apply (frame_resolve agent_inv)|done|].
  apply wp_resolve; [apply Ha1|by eapply reaped_times; [apply Ha|..]|]. intros s w2 _ Ha2 _.
  unfold refuseControlPlane. do 2 apply wp_bind. apply wp_forced; [done..|].
  intros g w3 Hd Hdec Ha3. apply wp_bind, wp_detail. intros f w4 Ew _. do 2 apply wp_ret.
  exists g. split_and!; [done..|]. eapply decided_frame; [|done]. by rewrite Ew.
Qed.

(** The tables a refusal leaves alone. *)
Definition grants_and_money (d0 d : Db) : Prop :=
  policy_entries d = policy_entries d0 ∧ connected_services d = connected_services d0 ∧
  spend_ledger d = spend_ledger d0 ∧ user_settings d = user_settings d0.

#[export] Instance grants_and_money_off d0 : OffSessions (λ d _, grants_and_money d0 d).
Proof. split; [by intros d n m|done..]. Qed.

(** C30: the control plane is out of reach of every other surface. A call of a
    control-plane tool that does not come in on the internal surface is never
    executed, whatever grants are stored: the answer is a boundary refusal, its
    deny is the newest audit row, it is not parked as a question, and no
    grant, connection, setting or spend has changed. *)
Theorem control_plane_refused p w :
  agent_inv (w_db w) (w_uuids w) → times_ok (session_state (w_db w)) (w_clock w) →
  et_epochId p = None → isControlPlaneTool (et_toolName p) = true →
  et_runOrigin p ≠ Some RO_internal →
  ∃ g w', executeTool p w = (Ok (mkExecuteResult g None None None true), w') ∧
    gr_decision g = V_deny ∧ decided w' g ∧ grants_and_money (w_db w) (w_db w').
Proof.
  intros Ha Ht He Hc Ho.
  assert (keeps (λ d _, grants_and_money (w_db w) d) (gate p)) as Hk.
  { rewrite gate_refused by done. unfold refuseControlPlane, forcedDeny. keeps_tac.
    - by apply (keeps_pipeline (λ d _, grants_and_money (w_db w) d)).
    - by apply keeps_detail. }
  destruct (Hk w) as [Hg _]; [by split_and!|].
  pose proof (wp_gate_refused p w Ha Ht He Hc Ho) as (a&w'&E&g&->&Hd&Hdec)%wp_run.
  exists g, w'. unfold executeTool, mbind, M_bind. rewrite E in Hg |- *. by split_and!.
Qed.
End properties.

(** ** A concrete object *)

Definition param (k : string) (params : fields) : jsstr := json_str (get (js k) params).
Definition demo_tool (service verb : string) (scopes : list jsstr) (spend : option ToolSpend)
    : Tool unit :=
  mkTool (js service) (js verb) [] [mkSlot (js "to") [] true] scopes spend (param "to")
    (λ params _, if bool_decide (param "to" params = js "down") then throw (Exn (js "unreachable"))
                 else mret (mkExec true None None)) JNull.
Definition demo_spend : ToolSpend :=
  mkToolSpend (λ params, get (js "cents") params ≫= safe_num) (λ _, None) (param "quote") (param "key").

(** Three services: mail, a shop with the money verb, and the control plane. *)
#[local] Instance demo_catalog : Catalog := {
  Credential := unit;
  SERVICES := [[demo_tool "mail" "send" [js "send"] None]; [demo_tool "shop" "buy" [] (Some demo_spend)];
               [demo_tool "habenula" "kill" [] None]];
  readGrantedScopes := λ _, mret (Some [js "send"]);
  resolveServiceCredential := λ _ _, mret tt;
  constraintErrorText := js "UNIQUE constraint failed: SQLITE_CONSTRAINT";
}.
#[local] Instance demo_scopes : ScopeReads.
Proof. split; [by do 2 eexists|]. intros s. apply keeps_ret. Qed.

Definition seeded_world : World :=
  with_db (λ d, set_connected_services (λ _, [mkConnected (js "mail") [] None; mkConnected (js "shop") [] None])
    (set_policy_entries (λ _, [floor_row []]) d)) day_world.
Definition open_world : World := snd (createSessionInTxn (js "u") (js "a") O_human seeded_world).
(** One session, with a mail grant and a shop grant. *)
Definition agent_world : World :=
  snd (createSessionGrant (js "shop") (js "buy") (js "cart") demo_sid Allow
    (snd (createSessionGrant (js "mail") (js "send") (js "Bob") demo_sid Allow open_world))).

Definition demo_call (tool : string) (o : option RunOrigin) (params : fields) : ExecuteToolParams :=
  mkExecute (js tool) params (js "u") (js "a") None o None None None.
Definition mail_call : ExecuteToolParams := demo_call "mail_send" None [(js "to", JStr (js "bob"))].
Definition buy_call (cents : Z) : ExecuteToolParams :=
  demo_call "shop_buy" None [(js "to", JStr (js "cart")); (js "cents", jint cents);
    (js "quote", JStr (js "q1")); (js "key", JStr (js "k1"))].
Definition kill_call : ExecuteToolParams := demo_call "habenula_kill" (Some RO_commission) [].

Lemma keeps_agent_grant `{PlatformLaws} service verb noun sid d :
  keeps agent_inv (createSessionGrant service verb noun sid d).
Proof.
  apply agent_inv_keeps; [|apply keeps_session_grant|]; apply keeps_guarded; intros;
    unfold sessionStartedAt, readSessionStartedAt, insertSessionGrant, insertPolicyRow; keeps_tac.
  by intros d0 m _ [? ? ? ? ?].
Qed.

Lemma agent_world_inv : agent_inv (w_db agent_world) (w_uuids agent_world).
Proof.
  assert (agent_inv (w_db seeded_world) (w_uuids seeded_world)) as H0.
  { split_and!; [|split|constructor].
    - destruct day_world_inv. by split.
    - exists []. by left.
    - by intros r ->%list_elem_of_singleton.
    - apply NoDup_singleton. }
  unfold agent_world. do 2 (apply keeps_agent_grant). by apply (sf_create (J := agent_inv)).
Qed.

Lemma agent_world_times : times_ok (session_state (w_db agent_world)) (w_clock agent_world).
Proof.
  split.
  - intros n. change (in_range (1767225600000 + 600000 * Z.of_nat (n mod 144))).
    pose proof (Nat.mod_upper_bound n 144 ltac:(done)). unfold in_range. lia.
  - assert (forallb (λ s, match dateOf (ss_started_at s) with
      | Some t => Z.abs (t + SESSION_LIFETIME_MS) <=? 8640000000000000 | None => true end)
      (session_state (w_db agent_world)) = true) as Hf by (vm_compute; reflexivity).
    rewrite forallb_forall in Hf. intros s t Hs%list_elem_of_In E. specialize (Hf s Hs).
    rewrite E in Hf. by apply Z.leb_le in Hf.
Qed.

Lemma dispatch_needs_allow_witness :
  ∃ a w', gate mail_call agent_world = (Ok a, w') ∧ agent_inv (w_db w') (w_uuids w') ∧
    match a with
    | Answer r => turned_away w' r
    | Dispatch sid g => ∃ d k r, let_through mail_call agent_world w' sid g d k r
    end.
Proof. exact (dispatch_needs_allow mail_call agent_world agent_world_inv agent_world_times eq_refl). Defined.

(** The gate's answers on the example: the granted calls go through, a dearer one
    and an ungranted one are held, an unconnected one is denied. *)
Definition gate_verdict (p : ExecuteToolParams) : option (bool * verdict) :=
  match fst (gate p agent_world) with
  | Ok (Dispatch _ g) => Some (true, gr_decision g)
  | Ok (Answer r) => Some (false, gr_decision (er_governance r))
  | Throw _ => None
  end.
Example gate_on_examples :
  map gate_verdict [mail_call; buy_call 1500; buy_call 2500;
    demo_call "mail_send" None [(js "to", JStr (js "eve"))]; demo_call "nosuch_tool" None []; kill_call] =
  [Some (true, V_allow); Some (true, V_allow); Some (false, V_pending); Some (false, V_pending);
   Some (false, V_deny); Some (false, V_deny)].
Proof. vm_compute. reflexivity. Qed.

Lemma control_plane_refused_witness :
  ∃ g w', executeTool kill_call agent_world = (Ok (mkExecuteResult g None None None true), w') ∧
    gr_decision g = V_deny ∧ decided w' g ∧ grants_and_money (w_db agent_world) (w_db w').
Proof.
  exact (control_plane_refused kill_call agent_world agent_world_inv agent_world_times eq_refl
    eq_refl ltac:(discriminate)).
Defined.
