(* ===== verification/Execution.v ===== *)
(** * The outcome of a dispatch

    The second half of [executeTool] ([packages/engine/src/agent/user-agent.ts]):
    what is written after a dispatch, whatever the tool did, what the spend
    ledger gains, what a whole execution keeps, and how a dispatch stranded by a
    crash is closed. The definitions are those of the pipeline's file. *)

From S2P Require Export Pipeline.
Open Scope Z_scope.

(** ** The outcome *)

Section outcome.
Context `{Platform} `{!PlatformLaws _} `{Catalog}.
Implicit Types (w : World).

Lemma wp_observed params Q w :
  agent_inv (w_db w) (w_uuids w) → p_epochId (rp_fields params) = None →
  (∀ row r w', written (rp_fields params) (Some (rp_decisionEntryId params)) w w' row r →
     agent_inv (w_db w') (w_uuids w') → Q r w') → wp (closeObserved params) Q w.
Proof.
  intros Ha He HQ. unfold closeObserved, closeDecisionEntryInTxn.
  apply wp_bind, wp_bind, wp_ret. cbv iota. apply wp_bind, (wp_kept agent_inv); [by apply sf_insert|done|].
  apply wp_insertRow; [apply Ha|done|]. intros row r w' Hw Ha' _. apply wp_ret, wp_ret.
  exact (HQ row r w' Hw Ha').
Qed.

Definition record_spend (l : SpendLedgerRow) (rows : list SpendLedgerRow) : list SpendLedgerRow :=
  if existsb (same_spend l) rows then rows else rows ++ [l].

(** What is written for a spend of [c] under the outcome [entryId]. *)
Definition spend_row (tool : option (Tool Credential)) (s : ToolSpend) (params : fields)
    (sid : jsstr) (c : Z) (entryId : jsstr) (l : SpendLedgerRow) : Prop :=
  sl_session_id l = sid ∧ sl_amount_cents l = c ∧ sl_audit_entry_id l = entryId ∧
  sl_service l = service_of tool ∧ sl_verb l = verb_of tool ∧
  sl_quote_id l = ts_quoteId s params ∧ sl_idempotency_key l = ts_idempotencyKey s params.

(** Why an insert can fail: the clock's stamp [t] or the drawn identifier. *)
Definition ledger_fault (t : Z) (n : nat) (d : Db) : Prop :=
  iso_utc_millis (toISOString t) = false ∨
  existsb (λ l, eqs (sl_id l) (randomUUID n)) (spend_ledger d) = true.

Lemma insertSpendRow_run tool s params sid c entryId w :
  0 <= c → safe_int c = true →
  ∃ e w', insertSpendRow sid (service_of tool) (verb_of tool) entryId s params c w = (Ok e, w') ∧
    w_uuids w' = S (w_uuids w) ∧
    match e with
    | None => ∃ l, spend_row tool s params sid c entryId l ∧
        w_db w' = set_spend_ledger (record_spend l) (w_db w)
    | Some _ => w_db w' = w_db w ∧ ∃ k, ledger_fault (w_clock w k) (w_uuids w) (w_db w)
    end.
Proof.
  intros Hc Hs. unfold insertSpendRow, try_catch, nowISO, now, newUUID, mbind, M_bind, mret, M_ret.
  cbv beta iota zeta. cbn [w_db w_clock w_ticks w_uuids w_turnInFlight].
  set (l := mkSpend _ _ _ _ _ _ _ _ _ _). unfold insertSpendInTxn, throw, insert_unless.
  change (sl_amount_cents l) with c. rewrite Hs. destruct (Z.ltb_spec c 0); [lia|]. simpl.
  destruct (iso_utc_millis _) eqn:Ei; simpl.
  - destruct (_ && _) eqn:Ec; simpl.
    + do 2 eexists. split; [reflexivity|]. split; [done|]. split; [done|]. exists (w_ticks w). right.
      by apply andb_true_iff in Ec as [? _].
    + do 2 eexists. split; [reflexivity|]. split; [done|]. exists l. split; [by repeat split|]. done.
  - do 2 eexists. split; [reflexivity|]. split; [done|]. split; [done|]. exists (w_ticks w). by left.
Qed.

(** The ledger after an outcome. *)
Definition counted (p : ExecuteToolParams) (sid : jsstr) (success : bool) (row : AuditLogRow)
    w w' : Prop :=
  let tool := lookupTool (et_toolName p) in
  match tool ≫= tl_spend, centsFromSpend (tool ≫= tl_spend) (et_toolParams p) with
  | Some s, Some c =>
      if success then
        (∃ l, spend_row tool s (et_toolParams p) sid c (h_id row) l ∧
           spend_ledger (w_db w') = record_spend l (spend_ledger (w_db w))) ∨
        (spend_ledger (w_db w') = spend_ledger (w_db w) ∧
           (∃ gap : AuditLogRow, gap ∈ audit_log (w_db w') ∧ h_outcome gap = js "error" ∧
              h_decisionEntryId gap = Some (h_id row)) ∧
           ∃ k, ledger_fault (w_clock w k) (S (w_uuids w)) (w_db w))
      else spend_ledger (w_db w') = spend_ledger (w_db w)
  | _, _ => spend_ledger (w_db w') = spend_ledger (w_db w)
  end.

(** The row that closes the decision of [g] after the execution [x]. *)
Record outcome_row (p : ExecuteToolParams) (g : GovernancePipelineResult) (x : Execution)
    (row : AuditLogRow) : Prop := {
  or_closes : h_decisionEntryId row = Some (wellFormed (ae_id (gr_auditEntry g)));
  or_outcome : h_outcome row = outcome_text (if xn_success x then X_success else X_error);
  or_error : h_errorMessage row = wellFormed <$> xn_error x;
  or_cost : h_costUsd row =
    centsToUsd <$> centsFromSpend (lookupTool (et_toolName p) ≫= tl_spend) (et_toolParams p);
}.

(** The outcome's parameters, stamped with the quoted amount. *)
Definition stamped_outcome p sid g x : ReferencingAuditEntryParams :=
  let ap := outcome_params p sid g x in
  match centsFromSpend (lookupTool (et_toolName p) ≫= tl_spend) (et_toolParams p) with
  | Some c => mkCloserParams (with_cost (centsToUsd c) (rp_fields ap)) (rp_decisionEntryId ap)
  | None => ap
  end.

Lemma stamped_ref p sid g x :
  rp_decisionEntryId (stamped_outcome p sid g x) = ae_id (gr_auditEntry g) ∧
  p_epochId (rp_fields (stamped_outcome p sid g x)) = et_epochId p.
Proof. unfold stamped_outcome. by destruct (centsFromSpend _ _). Qed.

Lemma wellFormed_outcome o : wellFormed (outcome_text o) = outcome_text o.
Proof. by destruct o. Qed.

Lemma stamped_row p sid g x w w' row r :
  let sp := stamped_outcome p sid g x in
  written (rp_fields sp) (Some (rp_decisionEntryId sp)) w w' row r → outcome_row p g x row.
Proof.
  intros sp Hw. destruct (written_fields _ _ _ _ _ _ Hw) as (?&?&?&?&?&->&_).
  unfold sp, stamped_outcome, new_row. split; destruct (centsFromSpend _ _); try done; apply wellFormed_outcome.
Qed.

Lemma written_elem params ref w w' row r : written params ref w w' row r → row ∈ audit_log (w_db w').
Proof. intros Hw. rewrite (written_db _ _ _ _ _ _ Hw). simpl. set_solver. Qed.

Lemma written_wf params ref w w' row r : written params ref w w' row r → wellFormed (h_id row) = h_id row.
Proof.
  intros Hw. eapply log_id_wf; [exact (written_inv _ _ _ _ _ _ Hw)|by eapply written_elem].
Qed.

(** A new row's identifier is not one of the log's. *)
Lemma written_fresh params ref w w' row r id :
  written params ref w w' row r → recorded (audit_log (w_db w)) id = true → h_id row ≠ id.
Proof.
  intros Hw (x&Hx%list_elem_of_In&E%eqs_true)%existsb_exists <-.
  pose proof (log_ids _ _ (written_inv _ _ _ _ _ _ Hw)) as Hn. rewrite (written_db _ _ _ _ _ _ Hw) in Hn.
  simpl in Hn. rewrite fmap_app in Hn. apply NoDup_app in Hn as (_&Hn&_).
  apply (Hn (h_id row)); [|set_solver]. apply list_elem_of_fmap. eauto.
Qed.

(** The transaction of the outcome row and of the spend. *)
Definition outcome_txn p sid g x w (e : option exn) (row : AuditLogRow) w' : Prop :=
  let sp := stamped_outcome p sid g x in
  agent_inv (w_db w') (w_uuids w') ∧ outcome_row p g x row ∧
  (∃ w1 r, written (rp_fields sp) (Some (rp_decisionEntryId sp)) w w1 row r ∧
     audit_log (w_db w') = audit_log (w_db w1)) ∧
  match e with
  | None => match lookupTool (et_toolName p) ≫= tl_spend,
                  centsFromSpend (lookupTool (et_toolName p) ≫= tl_spend) (et_toolParams p) with
            | Some s, Some c =>
                if xn_success x
                then ∃ l, spend_row (lookupTool (et_toolName p)) s (et_toolParams p) sid c (h_id row) l ∧
                       spend_ledger (w_db w') = record_spend l (spend_ledger (w_db w))
                else spend_ledger (w_db w') = spend_ledger (w_db w)
            | _, _ => spend_ledger (w_db w') = spend_ledger (w_db w)
            end
  | Some _ => xn_success x = true ∧ spend_ledger (w_db w') = spend_ledger (w_db w) ∧
      is_Some (lookupTool (et_toolName p) ≫= tl_spend) ∧
      is_Some (centsFromSpend (lookupTool (et_toolName p) ≫= tl_spend) (et_toolParams p)) ∧
      ∃ k, ledger_fault (w_clock w k) (S (w_uuids w)) (w_db w)
  end.

Lemma centsFromSpend_safe s ps c : centsFromSpend (Some s) ps = Some c →
  ts_quotedAmountCents s ps = Some c ∧ 0 <= c ∧ safe_int c = true.
Proof.
  unfold centsFromSpend. destruct (ts_quotedAmountCents s ps) as [raw|]; [|done].
  destruct (safe_int raw) eqn:Es, (Z.ltb_spec raw 0); simpl; try done. by intros [= <-].
Qed.

Lemma wp_outcome_txn p sid g x Q w :
  agent_inv (w_db w) (w_uuids w) → et_epochId p = None →
  (∀ (row : AuditLogRow) r e w', r = mkResult (h_id row) (ce_hash row) (h_epochId row) (h_sequenceNum row) →
     outcome_txn p sid g x w e row w' → Q (r, e) w') →
  let tool := lookupTool (et_toolName p) in
  wp (written ← closeObserved (stamped_outcome p sid g x);
      ledgerError ← match tool ≫= tl_spend, centsFromSpend (tool ≫= tl_spend) (et_toolParams p) with
        | Some s, Some c =>
            if bool_decide ((if xn_success x then X_success else X_error) = X_success)
            then insertSpendRow sid (service_of tool) (verb_of tool) (ae_id written) s (et_toolParams p) c
            else mret None
        | _, _ => mret None
        end;
      mret tt ;; mret (written, ledgerError)) Q w.
Proof.
  intros Ha He HQ tool. destruct (stamped_ref p sid g x) as [_ Ee].
  apply wp_bind, wp_observed; [done|by rewrite Ee|]. intros row r w1 Hw Ha1.
  pose proof (stamped_row _ _ _ _ _ _ _ _ Hw) as Hrow.
  pose proof (written_result _ _ _ _ _ _ Hw) as Er.
  assert (spend_ledger (w_db w1) = spend_ledger (w_db w)) as El
    by by rewrite (written_db _ _ _ _ _ _ Hw).
  assert (∀ Q' : option exn → World → Prop, outcome_txn p sid g x w None row w1 → Q' None w1 → wp (mret None) Q' w1)
    as Hnone by done.
  apply wp_bind. unfold outcome_txn in *. fold tool in HQ |- *.
  destruct (tool ≫= tl_spend) as [s|] eqn:Es.
  2:{ apply wp_ret, wp_ret, (HQ row); [done|]. split_and!; eauto. }
  destruct (centsFromSpend (Some s) (et_toolParams p)) as [c|] eqn:Ec.
  2:{ apply wp_ret, wp_ret, (HQ row); [done|]. split_and!; eauto. }
  destruct (xn_success x) eqn:Ex; simpl.
  2:{ apply wp_ret, wp_ret, (HQ row); [done|]. split_and!; eauto. }
  destruct (centsFromSpend_safe _ _ _ Ec) as (_&Hc&Hs).
  destruct (insertSpendRow_run tool s (et_toolParams p) sid c (ae_id r) w1 Hc Hs) as (e&w2&E&Eu&Hspend).
  apply wp_run. do 2 eexists. split; [exact E|]. apply wp_ret, (HQ row); [done|].
  assert (agent_inv (w_db w1) (w_uuids w2)) as Ha2 by (rewrite Eu; eapply supply; [|exact Ha1]; lia).
  destruct e as [e|].
  - destruct Hspend as [Ed (k&Hf)]. rewrite Ed. split_and!; eauto.
    exists k. rewrite (written_clock _ _ _ _ _ _ Hw), (written_uuids _ _ _ _ _ _ Hw) in Hf.
    unfold ledger_fault in *. by rewrite El in Hf.
  - destruct Hspend as (l&Hl&Ed). rewrite Er in Hl. rewrite Ed. split_and!.
    + by apply agent_set_ledger.
    + done.
    + eauto.
    + exists l. split; [exact Hl|]. simpl. by rewrite El.
Qed.

(** The closers of the decision, counted past the outcome and the gap row. *)
Lemma outcome_closes p sid g x w e row w' :
  outcome_txn p sid g x w e row w' → recorded (audit_log (w_db w)) (ae_id (gr_auditEntry g)) = true →
  agent_inv (w_db w) (w_uuids w) →
  closers_in (audit_log (w_db w')) (ae_id (gr_auditEntry g)) =
    S (closers_in (audit_log (w_db w)) (ae_id (gr_auditEntry g))) ∧
  h_id row ≠ ae_id (gr_auditEntry g).
Proof.
  intros (_&_&(w1&r&Hw&El)&_) Hrec Ha. destruct (stamped_ref p sid g x) as [Eref _].
  assert (wellFormed (ae_id (gr_auditEntry g)) = ae_id (gr_auditEntry g)) as Hwf.
  { pose proof Hrec as (y&_&E&Hy)%recorded_row. rewrite <- E.
    eapply log_id_wf; [exact (st_chain _ _ (proj1 Ha))|exact Hy]. }
  rewrite El, (written_closers _ _ _ _ _ _ _ Hw), Eref. simpl. rewrite Hwf, decide_True by done.
  split; [lia|]. by eapply written_fresh.
Qed.

Lemma wp_finish p sid g x Q w :
  agent_inv (w_db w) (w_uuids w) → et_epochId p = None →
  (∀ (row : AuditLogRow) w', row ∈ audit_log (w_db w') → agent_inv (w_db w') (w_uuids w') →
     outcome_row p g x row → counted p sid (xn_success x) row w w' →
     (recorded (audit_log (w_db w)) (ae_id (gr_auditEntry g)) = true →
      closers_in (audit_log (w_db w')) (ae_id (gr_auditEntry g)) =
        S (closers_in (audit_log (w_db w)) (ae_id (gr_auditEntry g)))) →
     Q (mkExecuteResult g (Some x) None None false) w') →
  wp (finish p sid g x) Q w.
Proof.
  intros Ha He HQ. unfold finish, writeOutcomeWithSpend. cbv zeta.
  apply wp_bind, wp_bind, wp_txn. refine (wp_outcome_txn p sid g x _ w Ha He _).
  intros row r e w1 Er Htx. cbv beta iota. pose proof Htx as (Ha1&Hrow&(w0&r0&Hw&El)&Hl).
  pose proof (written_elem _ _ _ _ _ _ Hw) as Hel. rewrite <- El in Hel.
  assert (∀ w2, audit_log (w_db w2) = audit_log (w_db w1) ∨ (∃ gap, audit_log (w_db w2) = audit_log (w_db w1) ++ [gap] ∧
      h_decisionEntryId gap = Some (h_id row)) → agent_inv (w_db w2) (w_uuids w2) →
    counted p sid (xn_success x) row w w2 →
    wp (appendActionDetail (et_runId p) (action_detail (gr_service g) (gr_verb g) (gr_noun g)
          (if xn_success x then TA_executed else TA_errored)) ;;
        mret (mkExecuteResult g (Some x) None None false)) Q w2) as Hend.
  { intros w2 Hlog Ha2 Hc. apply wp_bind, wp_detail. intros f w3 Ew Eu. apply wp_ret, (HQ row).
    - rewrite Ew. simpl. destruct Hlog as [->|(gap&->&_)]; set_solver.
    - rewrite Ew, Eu. by apply agent_set_runs.
    - done.
    - unfold counted in *. by rewrite Ew.
    - intros Hrec. destruct (outcome_closes _ _ _ _ _ _ _ _ Htx Hrec Ha) as [<- Hne]. rewrite Ew. simpl.
      destruct Hlog as [->|(gap&->&Hg)]; [done|]. rewrite closers_in_app. unfold closers_in at 2, closes. simpl.
      rewrite Hg, bool_decide_eq_false_2 by congruence. simpl. lia. }
  destruct e as [e|].
  - destruct Hl as (Hx&Hsl&[s Hs]&[c Hc]&Hf).
    apply wp_bind, wp_bind, wp_txn, wp_observed; [done|exact (eq_trans (proj2 (stamped_ref p sid g x)) He)|].
    intros gap rg w2 Hwg Ha2. apply wp_ret, wp_ret. cbv beta.
    assert (h_decisionEntryId gap = Some (h_id row) ∧ h_outcome gap = js "error") as [Hgid Hgo].
    { destruct (written_fields _ _ _ _ _ _ Hwg) as (?&?&?&?&?&->&_). rewrite Er. simpl. split; [|done].
      f_equal. exact (written_wf _ _ _ _ _ _ Hw). }
    apply Hend; [right; exists gap; split; [by rewrite (written_db _ _ _ _ _ _ Hwg)|done]|done|].
    unfold counted. rewrite Hs in Hc |- *. rewrite Hc, Hx. right. split_and!.
    + by rewrite (written_db _ _ _ _ _ _ Hwg).
    + exists gap. split_and!; [by eapply written_elem|done|done].
    + done.
  - apply wp_bind, wp_ret, wp_ret. apply Hend; [by left|done|]. unfold counted.
    repeat case_match; eauto.
Qed.
End outcome.

(** ** What an execution keeps *)

(** What an execution does to the tables besides the life cycle: the record of a
    task, a disconnect, a consumed grant, a held call, the kill switch. *)
Class ExecutionFrame `{Platform} (J : Db → nat → Prop) : Prop := {
  ef_sessions :: SessionFrame J;
  ef_runs p f d n : (∀ r, p r = true → run_evolves r (f r)) → J d n →
    J (set_commission_runs (update_where p f) d) n;
  ef_connected f d n : J d n → J (set_connected_services f d) n;
  ef_consume id t d n : J d n → J (set_policy_entries (update_where (consumable id) (consume t)) d) n;
  ef_park h d n : J d n → (∃ k, (k < n)%nat ∧ hc_id h = randomUUID k) →
    existsb (is_held (hc_id h)) (held_tool_calls d) = false →
    J (set_held_tool_calls (λ rows, rows ++ [h]) d) n;
  ef_kill : keeps J killSwitch;
}.

Section frame.
Context `{Platform} `{!PlatformLaws _} `{Catalog} (J : Db → nat → Prop) `{!ExecutionFrame J}.

Lemma keeps_park p sid pending kind awaited ctx : keeps J (parkHold p sid pending kind awaited ctx).
Proof.
  intros w Hw. unfold parkHold, newUUID, nowISO, now, insertHeldToolCall, insert_unless, mbind, M_bind,
    mret, M_ret. cbv beta iota zeta. cbn [w_db w_clock w_ticks w_uuids w_turnInFlight hc_id].
  assert (J (w_db w) (S (w_uuids w))) as Hw' by (eapply supply; [|exact Hw]; lia).
  destruct (existsb _ _) eqn:Ec; cbn; (split; [|split; simpl; lia || done]); [done|].
  apply ef_park; [done| |exact Ec]. exists (w_uuids w). split; [lia|done].
Qed.

Lemma keeps_append runId detail : keeps J (appendActionDetail runId detail).
Proof. apply keeps_detail, ef_runs. Qed.
Hint Resolve keeps_park keeps_append ef_kill : wb.

Lemma keeps_spendGrant g : keeps J (spendTaskGrant g).
Proof.
  unfold spendTaskGrant, consumeTaskGrant, consumeTaskGrant_row. keeps_tac. intros. by apply ef_consume.
Qed.
Hint Resolve keeps_spendGrant : wb.

Lemma keeps_forced p sid reason : et_epochId p = None → keeps J (forcedDeny p sid reason).
Proof. intros. by apply (keeps_pipeline J). Qed.

Lemma keeps_refuse p sid : et_epochId p = None → keeps J (refuseControlPlane p sid).
Proof. intros. unfold refuseControlPlane. pose proof (keeps_forced p sid). keeps_tac. Qed.

Lemma keeps_input p sid runId missing : et_epochId p = None → keeps J (parkInputHold p sid runId missing).
Proof.
  intros He. unfold parkInputHold. cbv zeta. apply keeps_bind.
  { by apply (keeps_writeAudit J). }
  intros. keeps_tac. apply (keeps_run J (W_needs_input _ _ _)), ef_runs.
Qed.

Lemma keeps_govern p sid : et_epochId p = None → keeps J (govern p sid).
Proof.
  intros He. unfold govern, queryPolicyEntries, selectActivePolicyEntries, governBy. keeps_tac.
  by apply (keeps_pipeline J).
Qed.

Lemma keeps_missing name runId : keeps J (missingRequiredSlots name runId).
Proof. unfold missingRequiredSlots, readCommissionRun_row. keeps_tac. Qed.

Lemma keeps_status : keeps J readStatusForModel.
Proof.
  unfold readStatusForModel, readStatus, selectActiveGrants, readPendingHeldRecords, readAuditTail,
    selectRecentAuditEntries.
  assert (∀ ids, keeps J (collectRecords ids)) as Hc.
  { intros ids. induction ids; simpl; [keeps_tac|].
    unfold pendingHeldRecordFor, readCommissionRun_row, parse_data. keeps_tac. }
  keeps_tac.
Qed.
Hint Resolve keeps_status : wb.

Lemma keeps_control verb params : keeps J (dispatchControlPlane verb params).
Proof.
  unfold dispatchControlPlane, disconnectService, getStandingEntries, selectStandingEntries.
  keeps_tac. intros. by apply ef_connected.
Qed.
Hint Resolve keeps_control : wb.
End frame.

Section agent_frame.
Context `{Platform} `{!PlatformLaws _} `{Catalog}.

#[export] Instance agent_execution : ExecutionFrame agent_inv.
Proof.
  split; [apply _|..].
  - intros. by apply agent_set_runs.
  - intros. by apply agent_set_connected.
  - intros id t d n Ha. apply agent_set_policy; [done|]. apply policy_rows_consume, Ha.
  - intros. by apply agent_insert_held.
  - apply agent_inv_keeps; [|apply keeps_policy_killed|].
    + apply frame_kill; [apply _| |]; intros d n [? ? ? ? ?]; split; try done. constructor.
    + apply frame_kill; [apply _|done|]. intros d n _. constructor.
Qed.
End agent_frame.

(** ** Under the turn gate *)

(** [gkeeps J m]: run with the turn gate held, [m] keeps [J] and the gate held. *)
Definition gkeeps {A} (J : Db → nat → Prop) (m : M A) : Prop :=
  ∀ w, w_turnInFlight w = true → J (w_db w) (w_uuids w) →
    J (w_db (snd (m w))) (w_uuids (snd (m w))) ∧ w_turnInFlight (snd (m w)) = true.

Section gkeeps.
Context (J : Db → nat → Prop).

Lemma gk_keeps {A} (m : M A) : keeps J m → gkeeps J m.
Proof. intros Hm w Hf Hw. destruct (Hm w Hw) as [? [_ _ Hg _]]. by rewrite Hg. Qed.
Lemma gk_bind {A B} (m : M A) (k : A → M B) : gkeeps J m → (∀ a, gkeeps J (k a)) → gkeeps J (m ≫= k).
Proof.
  intros Hm Hk w Hf Hw. destruct (Hm w Hf Hw) as [H1 H2]. unfold mbind, M_bind.
  destruct (m w) as [[a|e] w']; [by apply Hk|done].
Qed.
Lemma gk_try {A} (m : M A) h : gkeeps J m → (∀ e, gkeeps J (h e)) → gkeeps J (try_catch m h).
Proof.
  intros Hm Hh w Hf Hw. destruct (Hm w Hf Hw) as [H1 H2]. unfold try_catch.
  destruct (m w) as [[a|e] w']; [done|by apply Hh].
Qed.
Lemma gk_ret {A} (a : A) : gkeeps J (mret a).
Proof. apply gk_keeps, keeps_ret. Qed.
End gkeeps.

(** What is served while the credential layer and the tools are awaited, the
    turn gate being held, keeps [J]. *)
Class GatedAwaits `{Catalog} (J : Db → nat → Prop) : Prop := {
  ga_scopes service : gkeeps J (readGrantedScopes service);
  ga_credential userId service : gkeeps J (resolveServiceCredential userId service);
  ga_execute tool params c : tool ∈ allTools → gkeeps J (tl_execute tool params c);
}.

Section gated.
Context `{Platform} `{!PlatformLaws _} `{Catalog} (J : Db → nat → Prop).
Context `{!ExecutionFrame J} `{!GatedAwaits J}.

Lemma gk_scope tool service : gkeeps J (scope_missing tool service).
Proof.
  unfold scope_missing. destruct tool as [t|]; [|apply gk_ret].
  destruct (tl_requiredScopes t); [apply gk_ret|]. apply gk_bind; [apply ga_scopes|]. intros. apply gk_ret.
Qed.

Lemma gk_gate p : et_epochId p = None → gkeeps J (gate p).
Proof.
  intros He. assert (∀ sid, gkeeps J (preconditions p sid)) as Hp.
  { intros sid. unfold preconditions, isServiceConnected. cbv zeta.
    apply gk_bind; [apply gk_keeps, keeps_select|]. intros c.
    assert (∀ reason why, gkeeps J (governance ← forcedDeny p sid reason;
      mret (Answer (mkExecuteResult governance None (Some why) None false)))) as Hf.
    { intros. apply gk_bind; [by apply gk_keeps, keeps_forced|]. intros. apply gk_ret. }
    destruct (_ && _); [apply Hf|]. apply gk_bind; [apply gk_scope|]. intros [].
    - apply Hf.
    - by apply gk_keeps, keeps_govern. }
  unfold gate. apply gk_bind; [apply gk_keeps, (frame_reap J)|]. intros _.
  apply gk_bind; [apply gk_keeps, (frame_resolve J)|]. intros sid. destruct (_ && _).
  - apply gk_bind; [by apply gk_keeps, keeps_refuse|]. intros. apply gk_ret.
  - apply gk_bind; [apply gk_keeps; destruct (truthy_str _); [apply (keeps_missing J)|apply keeps_ret]|].
    intros [|k ks]; [apply Hp|]. apply gk_bind; [by apply gk_keeps, keeps_input|]. intros. apply gk_ret.
Qed.

Lemma gk_dispatch name params userId : gkeeps J (dispatchTool name params userId).
Proof.
  unfold dispatchTool. destruct (lookupTool name) as [t|] eqn:Et; [|apply gk_ret].
  assert (t ∈ allTools) as Ht by (unfold lookupTool in Et; apply find_some in Et as [Et _]; by apply list_elem_of_In).
  destruct (eqs _ _); [by apply gk_keeps, keeps_control|].
  apply gk_bind.
  - apply gk_try; [|intros; apply gk_ret]. apply gk_bind; [apply ga_credential|]. intros. apply gk_ret.
  - intros [m|c]; [apply gk_ret|]. apply gk_try; [|intros; apply gk_ret].
    apply gk_bind; [by apply ga_execute|]. intros. apply gk_ret.
Qed.
End gated.

(** The log has grown from [log]. *)
Definition grown (log : list AuditLogRow) (d : Db) (_ : nat) : Prop := log `prefix_of` audit_log d.

Section growth.
Context `{Platform} `{!PlatformLaws _} `{Catalog}.

Lemma grown_insert log params ref : keeps (grown log) (insertRow params ref).
Proof.
  unfold insertRow, deriveMonotonicEpochId. assert (Supply (grown log)) by by intros d n m.
  keeps_tac. intros d' k _ Hd. by apply prefix_app_r.
Qed.

#[export] Instance grown_session log : SessionFrame (grown log).
Proof.
  split; [by intros d n m|intros params ref _; apply grown_insert|by intros..|].
  intros userId agentId o. unfold createSessionInTxn, insertSessionState, insertAuditEntryInTxn.
  pose proof (grown_insert log). assert (Supply (grown log)) by by intros d n m. keeps_tac.
Qed.
#[export] Instance grown_execution log : ExecutionFrame (grown log).
Proof. split; [apply _|by intros..|]. apply frame_kill; [apply _|by intros..]. Qed.
End growth.

Section properties.
Context `{Platform} `{!PlatformLaws _} `{Catalog}.
Implicit Types (w : World).

Lemma keeps_observed params :
  p_epochId (rp_fields params) = None → keeps agent_inv (closeObserved params).
Proof.
  intros He. unfold closeObserved. apply keeps_bind; [by apply (frame_close agent_inv)|].
  intros. keeps_tac.
Qed.

Lemma keeps_spendRow sid service verb id s params c : keeps agent_inv (insertSpendRow sid service verb id s params c).
Proof. unfold insertSpendRow, insertSpendInTxn. keeps_tac. intros. by apply agent_set_ledger. Qed.

Lemma keeps_finish p sid g x : et_epochId p = None → keeps agent_inv (finish p sid g x).
Proof.
  intros He. pose proof (eq_trans (proj2 (stamped_ref p sid g x)) He) as Ee.
  unfold finish, writeOutcomeWithSpend. cbv zeta. fold (stamped_outcome p sid g x).
  pose proof (keeps_observed (stamped_outcome p sid g x) Ee).
  assert (∀ m id, keeps agent_inv (closeObserved
    (mkCloserParams (with_error m (rp_fields (stamped_outcome p sid g x))) id)))
    by (intros; by apply keeps_observed).
  pose proof keeps_spendRow. keeps_tac. by apply (keeps_append agent_inv).
Qed.

(** An execution keeps the object's invariant and hands the turn gate back.
    Whatever the call is, whatever the tools do and whether they return or
    throw, a direct execution leaves the audit chain, the sessions, the grants
    and the held calls well formed, and the gate as it found it; while another
    turn holds the gate it does nothing at all. *)
Theorem execution_keeps_store p w :
  GatedAwaits agent_inv → et_epochId p = None → agent_inv (w_db w) (w_uuids w) →
  let out := executeToolDirect p w in
  agent_inv (w_db (snd out)) (w_uuids (snd out)) ∧ w_turnInFlight (snd out) = w_turnInFlight w ∧
  (w_turnInFlight w = true → out = (Ok None, w)).
Proof.
  intros Hg He Ha. unfold executeToolDirect, withTurnGate.
  destruct (w_turnInFlight w) eqn:Ef; [done|].
  assert (gkeeps agent_inv (r ← executeTool p; mret (Some r))) as Hk.
  { apply gk_bind; [|intros; apply gk_ret]. unfold executeTool. apply gk_bind; [by apply (gk_gate agent_inv)|].
    intros [r|sid g]; [apply gk_ret|]. apply gk_bind; [apply (gk_dispatch agent_inv)|]. intros x.
    by apply gk_keeps, keeps_finish. }
  destruct (Hk (with_gate true w) eq_refl Ha) as [Ha' _].
  destruct ((r ← executeTool p; mret (Some r)) (with_gate true w)) as [r w']. by split_and!.
Qed.

(** A throw out of a dispatch is the control plane's own. *)
Lemma dispatch_throws name params userId w e w' :
  dispatchTool name params userId w = (Throw e, w') →
  ∃ t, lookupTool name = Some t ∧ tl_service t = CONTROL_PLANE_SERVICE.
Proof.
  unfold dispatchTool. destruct (lookupTool name) as [t|]; [|done].
  destruct (eqs (tl_service t) CONTROL_PLANE_SERVICE) eqn:Ec; [apply eqs_true in Ec; by exists t|].
  unfold try_catch, mbind, M_bind, mret, M_ret. destruct (resolveServiceCredential _ _ w) as [[c|e1] w1]; [|done].
  by destruct (tl_execute t params c w1) as [[r|e2] w2].
Qed.

(** A row on the log stays on it. *)
Lemma recorded_grown log (d : Db) n id : recorded log id = true → grown log d n → recorded (audit_log d) id = true.
Proof. unfold recorded. intros Hr [k ->]. by rewrite existsb_app, Hr. Qed.

Context `{!ScopeReads}.

(** C18: every dispatch that returns is closed, whatever it did. A call is executed from a
    well-formed store, the turn gate held. If the gate answers by itself, that is the
    answer of the call. If it lets the call through, its decision is on the log, and when
    the dispatch then returns, succeeding or failing, the outcome is always written: one
    more closer of that decision, "success" exactly when the tool said so, with the tool's
    error and the quoted amount. A successful money call is in the ledger under its commit
    pair; when the ledger refuses the row, which takes a clock whose stamp is not a
    four-digit year's or an identifier already taken, the outcome stays and a further
    error row names it. The one way a call ends without an outcome is a throw out of the
    dispatch itself, which only a tool of the control plane can do: the call then throws
    the same from where the dispatch left the store. (What is awaited keeps the store
    well formed and appends to the log.) *)
Theorem every_dispatch_closed p w :
  GatedAwaits agent_inv → (∀ log, GatedAwaits (grown log)) →
  agent_inv (w_db w) (w_uuids w) → times_ok (session_state (w_db w)) (w_clock w) →
  et_epochId p = None → w_turnInFlight w = true →
  ∃ a w1, gate p w = (Ok a, w1) ∧
    match a with
    | Answer r => executeTool p w = (Ok r, w1) ∧ er_execution r = None
    | Dispatch sid g =>
        let id := ae_id (gr_auditEntry g) in
        recorded (audit_log (w_db w1)) id = true ∧
        match dispatchTool (et_toolName p) (et_toolParams p) (et_userId p) w1 with
        | (Ok x, w2) => ∃ (row : AuditLogRow) w',
            executeTool p w = (Ok (mkExecuteResult g (Some x) None None false), w') ∧
            row ∈ audit_log (w_db w') ∧ agent_inv (w_db w') (w_uuids w') ∧
            outcome_row p g x row ∧ counted p sid (xn_success x) row w2 w' ∧
            closers_in (audit_log (w_db w')) id = S (closers_in (audit_log (w_db w2)) id)
        | (Throw e, w2) => executeTool p w = (Throw e, w2) ∧
            ∃ t, lookupTool (et_toolName p) = Some t ∧ tl_service t = CONTROL_PLANE_SERVICE
        end
    end.
Proof.
  intros Hga Hgg Ha Ht He Hf. pose proof (wp_gate p w Ha Ht He) as (a&w1&E&Ha1&Hans)%wp_run.
  exists a, w1. split; [exact E|]. pose proof (gk_gate agent_inv p He w Hf Ha) as [_ Hf1].
  rewrite E in Hf1. cbn [snd] in Hf1. unfold executeTool, mbind, M_bind. rewrite E.
  destruct a as [r|sid g]; [split; [done|apply Hans]|]. cbv zeta. destruct Hans as (d&k&r&Hlt).
  assert (recorded (audit_log (w_db w1)) (ae_id (gr_auditEntry g)) = true) as Hrec.
  { destruct (lt_decided _ _ _ _ _ _ _ _ Hlt) as (row&Hl&Hid&_). apply existsb_exists. exists row.
    split; [|rewrite <- Hid; apply eqs_refl]. apply last_Some in Hl as [l ->]. apply in_app_iff. right. by left. }
  split; [exact Hrec|].
  destruct (gk_dispatch agent_inv (et_toolName p) (et_toolParams p) (et_userId p) w1 Hf1 Ha1) as [Ha2 _].
  destruct (gk_dispatch (grown (audit_log (w_db w1))) (et_toolName p) (et_toolParams p) (et_userId p) w1 Hf1)
    as [Hg2 _]; [by exists []; rewrite app_nil_r|].
  destruct (dispatchTool _ _ _ w1) as [[x|e] w2] eqn:Ed; [|split; [done|by eapply dispatch_throws]].
  cbn [snd] in Ha2, Hg2. apply (recorded_grown _ _ _ _ Hrec) in Hg2.
  assert (wp (finish p sid g x) (λ r w', r = mkExecuteResult g (Some x) None None false ∧
    ∃ row : AuditLogRow, row ∈ audit_log (w_db w') ∧ agent_inv (w_db w') (w_uuids w') ∧
    outcome_row p g x row ∧ counted p sid (xn_success x) row w2 w' ∧
    closers_in (audit_log (w_db w')) (ae_id (gr_auditEntry g)) =
      S (closers_in (audit_log (w_db w2)) (ae_id (gr_auditEntry g)))) w2) as Hw.
  { apply wp_finish; [done..|]. intros row w' Q1 Q2 Q3 Q4 Q5. split; [done|]. exists row. split_and!; auto. }
  apply wp_run in Hw as (res&w'&E'&->&row&Hrow). exists row, w'. by split.
Qed.

(** The ledger and the settings. *)
Definition money (ledger : list SpendLedgerRow) (settings : list UserSettingsRow) (d : Db) (_ : nat)
    : Prop := spend_ledger d = ledger ∧ user_settings d = settings.
#[export] Instance money_off l s : OffSessions (money l s).
Proof. split; [by intros d n m|done..]. Qed.
#[export] Instance money_frame l s : ExecutionFrame (money l s).
Proof. split; try done; [apply _|]. by apply frame_kill; [apply _|..]. Qed.

Lemma sum_cents_app l k : sum_cents (l ++ k) = sum_cents l + sum_cents k.
Proof. induction l as [|x l IH]; simpl; [done|]. unfold sum_cents in *. lia. Qed.

(** A recorded spend adds its amount to the sums it falls in, or nothing. *)
Lemma recorded_sum (f : SpendLedgerRow → bool) l rows :
  0 <= sl_amount_cents l →
  sum_cents (List.filter f rows) <= sum_cents (List.filter f (record_spend l rows)) <=
  sum_cents (List.filter f rows) + (if f l then sl_amount_cents l else 0).
Proof.
  intros Hl. unfold record_spend. destruct (existsb _ _); [destruct (f l); lia|].
  rewrite List.filter_app, sum_cents_app. simpl. destruct (f l); simpl; lia.
Qed.

(** What an execution under the gate does to the ledger. *)
Definition capped (sid : jsstr) (ledger ledger' : list SpendLedgerRow) (limit month : Z) (since : jsstr) : Prop :=
  ledger' = ledger ∨
  ∃ l, ledger' = record_spend l ledger ∧ sl_session_id l = sid ∧ 0 <= sl_amount_cents l ∧
    sum_cents (List.filter (λ r, eqs (sl_session_id r) sid) ledger) + sl_amount_cents l <= limit ∧
    sum_cents (List.filter (λ r, negb (sql_lt (sl_created_at r) since)) ledger) + sl_amount_cents l <= month.

Lemma counted_capped p w w' sid g d k r x row w3 w4 L :
  let_through p w w' sid g d k r → spend_ledger d = L → spend_ledger (w_db w3) = L →
  counted p sid (xn_success x) row w3 w4 →
  capped sid L (spend_ledger (w_db w4)) (lr_session (limits_of (user_settings d)))
    (lr_month (limits_of (user_settings d))) (toISOString (month_start (w_clock w (S k)))).
Proof.
  intros Hlt Ed E3 Hc. unfold counted in Hc. unfold capped.
  destruct (lookupTool (et_toolName p) ≫= tl_spend) as [s|] eqn:Es; [|left; congruence].
  destruct (centsFromSpend (Some s) (et_toolParams p)) as [c|] eqn:Ec; [|left; congruence].
  destruct (xn_success x); [|left; congruence].
  destruct Hc as [(l&(Hl1&Hl2&_)&El)|(El&_)]; [|left; congruence]. right. exists l.
  destruct (lt_caps _ _ _ _ _ _ _ _ Hlt s Es) as (a&Ea&Hwc).
  destruct (centsFromSpend_safe _ _ _ Ec) as (Ea'&Hc0&_). rewrite Ea in Ea'. injection Ea' as ->.
  unfold session_cents, cents_since in Hwc. rewrite Ed in Hwc. rewrite El, E3, Hl2. naive_solver.
Qed.

Lemma snd_bind {A B} (m : M A) (k : A → M B) w :
  snd ((m ≫= k) w) = match m w with (Ok a, w') => snd (k a w') | (Throw _, w') => w' end.
Proof. unfold mbind, M_bind. by destruct (m w) as [[a|e] w']. Qed.

Context `{!GatedAwaits agent_inv} `{!∀ l st, GatedAwaits (money l st)}.

Lemma executeTool_capped p w :
  agent_inv (w_db w) (w_uuids w) → times_ok (session_state (w_db w)) (w_clock w) →
  et_epochId p = None → w_turnInFlight w = true →
  let limits := limits_of (user_settings (w_db w)) in
  spend_ledger (w_db (snd (executeTool p w))) = spend_ledger (w_db w) ∨
  ∃ sid k, (w_ticks w <= k < w_ticks (snd (gate p w)))%nat ∧
    capped sid (spend_ledger (w_db w)) (spend_ledger (w_db (snd (executeTool p w))))
      (lr_session limits) (lr_month limits) (toISOString (month_start (w_clock w k))).
Proof.
  intros Ha Ht He Hf limits. set (J := money (spend_ledger (w_db w)) (user_settings (w_db w))).
  pose proof (wp_gate p w Ha Ht He) as (a&w2&E&Ha2&Hans)%wp_run.
  destruct (gk_gate J p He w Hf) as [[HL2 HS2] Hf2]; [done|]. rewrite E in HL2, HS2, Hf2 |- *. simpl in *.
  unfold executeTool. rewrite snd_bind, E. destruct a as [r|sid g].
  { by left. }
  destruct Hans as (d&k&r&Hlt). right. exists sid, (S k).
  split; [destruct (lt_when _ _ _ _ _ _ _ _ Hlt); lia|].
  assert (spend_ledger d = spend_ledger (w_db w) ∧ user_settings d = user_settings (w_db w)) as [HLd HSd].
  { rewrite <- HL2, <- HS2. destruct (lt_tables _ _ _ _ _ _ _ _ Hlt) as (row&at_&->).
    by destruct (bool_decide _). }
  rewrite snd_bind.
  destruct (gk_dispatch J (et_toolName p) (et_toolParams p) (et_userId p) w2 Hf2) as [[HL3 _] _]; [by split|].
  destruct (gk_dispatch agent_inv (et_toolName p) (et_toolParams p) (et_userId p) w2 Hf2 Ha2) as [Ha3 _].
  destruct (dispatchTool _ _ _ w2) as [[x|e] w3]; simpl in *; [|by left].
  assert (wp (finish p sid g x) (λ _ w', ∃ row, counted p sid (xn_success x) row w3 w') w3) as Hw.
  { apply wp_finish; [done..|]. intros row w' _ _ _ Hc _. by exists row. }
  apply wp_run in Hw as (res&w4&E4&row&Hc). rewrite E4. simpl. unfold limits. rewrite <- HSd.
  by eapply counted_capped.
Qed.

(** C7: the spending caps hold under the turn gate. After a direct execution,
    whatever it was, the spend recorded for any session is at most what it was
    or the session limit in force when it began. Either the ledger is as it was, or
    there is a reading of the clock that the gate of this call took while it priced the
    call, and the spend recorded since the start of the month of that instant is at most
    what it was or the monthly limit. What is awaited meanwhile - the credential, the
    scopes, the tool - may serve requests, as long as these keep the store well formed
    and leave the turn gate, the ledger and the settings as they are. *)
Theorem spend_cap_holds p w s :
  agent_inv (w_db w) (w_uuids w) → times_ok (session_state (w_db w)) (w_clock w) →
  et_epochId p = None →
  let d := w_db w in
  let d' := w_db (snd (executeToolDirect p w)) in
  let limits := limits_of (user_settings d) in
  session_cents s d' <= Z.max (session_cents s d) (lr_session limits) ∧
  (spend_ledger d' = spend_ledger d ∨
   ∃ k, (w_ticks w <= k < w_ticks (snd (gate p (with_gate true w))))%nat ∧
     let since := toISOString (month_start (w_clock w k)) in
     cents_since since d' <= Z.max (cents_since since d) (lr_month limits)).
Proof.
  intros Ha Ht He d d' limits. unfold d', executeToolDirect, withTurnGate.
  destruct (w_turnInFlight w) eqn:Ef; [split; [simpl; fold d; lia|by left]|].
  pose proof (executeTool_capped p (with_gate true w) Ha Ht He eq_refl) as Hcap.
  pose proof (snd_bind (executeTool p) (λ r, mret (Some r)) (with_gate true w)) as Eb.
  destruct ((executeTool p ≫= λ r, mret (Some r)) (with_gate true w)) as [r w']. simpl in Eb. cbn [snd w_db with_gate].
  assert (w_db w' = w_db (snd (executeTool p (with_gate true w)))) as ->.
  { rewrite Eb. by destruct (executeTool p _) as [[?|?] ?]. }
  cbn [w_db w_ticks w_clock with_gate] in Hcap. fold d limits in Hcap. unfold session_cents, cents_since.
  destruct Hcap as [->|(sid&k&Hk&[->|(l&->&Hs&Hl&Hcs&Hcm)])]; [split; [lia|by left]..|]. split.
  - pose proof (recorded_sum (λ r, eqs (sl_session_id r) s) l (spend_ledger d) Hl) as Hb. simpl in Hb.
    rewrite Hs in Hb. destruct (eqs sid s) eqn:E; [apply eqs_true in E as ->; lia|lia].
  - right. exists k. split; [exact Hk|].
    pose proof (recorded_sum (λ r, negb (sql_lt (sl_created_at r) (toISOString (month_start (w_clock w k)))))
      l (spend_ledger d) Hl) as Hb. simpl in Hb. destruct (negb _); lia.
Qed.
End properties.

(** ** Recovery *)

Section recovery.
Context `{Platform} `{!PlatformLaws _} `{Catalog}.
Implicit Types (w : World) (h : HeldToolCallsRow).

(** A hold past its session's cap at some reading of the clock. *)
Definition hold_expired (sessions : list SessionStateRow) (clock : nat → Z) h : Prop :=
  ∃ s t k, s ∈ sessions ∧ ss_session_id s = hc_session_id h ∧ dateOf (ss_started_at s) = Some t ∧
    t + SESSION_LIFETIME_MS <= clock k.

Lemma wp_loadHeld h Q w :
  agent_inv (w_db w) (w_uuids w) → h ∈ held_tool_calls (w_db w) →
  (∀ r w', read_only w w' →
     (r = Some h ∨ r = None ∧ hold_expired (session_state (w_db w)) (w_clock w) h) → Q r w') →
  wp (loadHeldCall (hc_id h)) Q w.
Proof.
  intros Ha Hh HQ. unfold loadHeldCall, readHeldCall, holdExpired, sessionStartedAt, readSessionStartedAt.
  apply wp_bind, wp_select.
  assert (List.find (is_held (hc_id h)) (held_tool_calls (w_db w)) = Some h) as ->.
  { destruct (List.find _ _) as [h'|] eqn:E.
    - apply find_some in E as [Hh'%list_elem_of_In E%eqs_true]. f_equal.
      by eapply (nodup_key hc_id); [exact (st_held _ _ (proj1 Ha))|..].
    - apply list_elem_of_In in Hh. eapply find_none in E; [|exact Hh]. unfold is_held in E.
      by rewrite eqs_refl in E. }
  do 3 apply wp_bind. apply wp_select. apply wp_ret.
  destruct (List.find (is_session (hc_session_id h)) (session_state (w_db w))) as [s|] eqn:Es; simpl;
    [|by do 2 apply wp_ret; apply HQ; [apply read_only_refl|left]].
  destruct (dateOf (ss_started_at s)) as [t|] eqn:Et;
    [|by do 2 apply wp_ret; apply HQ; [apply read_only_refl|left]].
  apply wp_bind, wp_now, wp_ret, wp_ret. apply HQ; [exists 1%nat; by rewrite Nat.add_1_r|].
  destruct (Z.leb_spec (t + SESSION_LIFETIME_MS) (w_clock w (w_ticks w))); [right|by left].
  split; [done|]. apply find_some in Es as [Hs%list_elem_of_In Es%eqs_true]. by exists s, t, (w_ticks w).
Qed.

(** The row that closes a stranded dispatch. *)
Definition recovery_row h (row : AuditLogRow) : Prop :=
  h_decisionEntryId row = Some (wellFormed (hc_pending_audit_entry_id h)) ∧
  h_decision row = js "allow" ∧ h_outcome row = js "error" ∧
  h_errorMessage row = Some (wellFormed DISPATCH_RECOVERY_ERROR).

(** [gone] are the rows a pass over [l] healed, [ids] their calls. *)
Record healed (l : list HeldToolCallsRow) w w' (ids : list jsstr) (gone : list HeldToolCallsRow) : Prop := {
  hl_inv : agent_inv (w_db w') (w_uuids w');
  hl_log : ∃ rows, audit_log (w_db w') = audit_log (w_db w) ++ rows ∧ Forall2 recovery_row gone rows;
  hl_calls : Forall2 (λ h id, ∃ name input, stranded_call h = Some (id, name, input)) gone ids;
  hl_held : held_tool_calls (w_db w') =
    List.filter (λ h, negb (existsb (λ g, eqs (hc_id h) (hc_id g)) gone)) (held_tool_calls (w_db w));
  hl_gone : gone ⊆ l;
  hl_left h : h ∈ l → stranded_call h ≠ None → h ∉ gone →
    hold_expired (session_state (w_db w)) (w_clock w) h;
  hl_rest : session_state (w_db w') = session_state (w_db w) ∧ w_clock w' = w_clock w;
}.

Lemma healed_nil w w' : read_only w w' → agent_inv (w_db w) (w_uuids w) → healed [] w w' [] [].
Proof.
  intros (k&->) Ha. split; try done; simpl.
  - exists []. split; [by rewrite app_nil_r|constructor].
  - symmetry. apply list_filter_all, Forall_true. done.
Qed.

Lemma healed_skip h l w w1 w' ids gone :
  read_only w w1 → (stranded_call h ≠ None → hold_expired (session_state (w_db w)) (w_clock w) h) →
  healed l w1 w' ids gone → healed (h :: l) w w' ids gone.
Proof.
  intros (k&->) Hh [? ? ? ? ? Hl ?]. simpl in *. split; try done; [set_solver|].
  intros x [->|Hx]%elem_of_cons; [auto|by apply Hl].
Qed.

Lemma healed_cons h l w w1 w' id name input ids gone row :
  stranded_call h = Some (id, name, input) → recovery_row h row →
  audit_log (w_db w1) = audit_log (w_db w) ++ [row] →
  held_tool_calls (w_db w1) = delete_where (is_held (hc_id h)) (held_tool_calls (w_db w)) →
  session_state (w_db w1) = session_state (w_db w) → w_clock w1 = w_clock w →
  healed l w1 w' ids gone → healed (h :: l) w w' (id :: ids) (h :: gone).
Proof.
  intros Hc Hr El Eh Es Ec [Hi (rows&Elog&Hrows) Hcalls Hheld Hg Hl [Hs1 Hs2]]. split; try done.
  - exists (row :: rows). rewrite Elog, El, <- (assoc_L (++)). split; [done|by constructor].
  - constructor; [|done]. by exists name, input.
  - rewrite Hheld, Eh. unfold delete_where. rewrite list_filter_twice. apply List.filter_ext. intros x. simpl.
    unfold is_held. rewrite negb_orb. done.
  - set_solver.
  - intros x [->|Hx]%elem_of_cons Hsc Hng; [set_solver|]. rewrite <- Es, <- Ec. apply Hl; set_solver.
  - split; congruence.
Qed.

Lemma wp_heal userId agentId l w :
  agent_inv (w_db w) (w_uuids w) → NoDup (hc_id <$> l) → (∀ h, h ∈ l → h ∈ held_tool_calls (w_db w)) →
  wp (healRows userId agentId l) (λ ids w', ∃ gone, healed l w w' ids gone) w.
Proof.
  revert w. induction l as [|h l IH]; intros w Ha Hn Hl; simpl.
  { apply wp_ret. exists []. apply healed_nil; [apply read_only_refl|done]. }
  apply NoDup_cons in Hn as [Hh Hn].
  assert (∀ w1 ids0, agent_inv (w_db w1) (w_uuids w1) → (∀ x, x ∈ l → x ∈ held_tool_calls (w_db w1)) →
    (∀ w' ids gone, healed l w1 w' ids gone → ∃ gone', healed (h :: l) w w' (ids0 ++ ids) gone') →
    wp (more ← healRows userId agentId l; mret (ids0 ++ more))
      (λ ids w', ∃ gone, healed (h :: l) w w' ids gone) w1) as Hnext.
  { intros w1 ids0 Ha1 Hl1 Hk. apply wp_bind. eapply wp_mono; [by apply IH|].
    intros ids w' (gone&Hg). apply wp_ret. by eapply Hk. }
  destruct (stranded_call h) as [[[id name] input]|] eqn:Ec.
  2:{ apply wp_bind, wp_ret, Hnext; [done|set_solver|]. intros w' ids gone Hg. exists gone. simpl.
      eapply healed_skip; [apply read_only_refl| |done]. by rewrite Ec. }
  apply wp_bind, wp_bind, wp_loadHeld; [done|set_solver|]. intros r w1 Hro Hr. pose proof Hro as (k&E1).
  destruct Hr as [->|[-> Hx]].
  2:{ apply wp_ret, Hnext; [by rewrite E1|rewrite E1; set_solver|]. intros w' ids gone Hg. exists gone.
      eapply healed_skip; [exact Hro|by intros _|done]. }
  apply wp_bind, wp_txn, wp_bind, wp_observed; [by rewrite E1|done|].
  intros row r w2 Hw Ha2. unfold deleteHeldToolCall. apply wp_modify, wp_ret. cbn [w_db with_db].
  pose proof (written_db _ _ _ _ _ _ Hw) as Ed. rewrite E1 in Ed. simpl in Ed.
  apply Hnext.
  - by apply (sf_drop (J := agent_inv)).
  - intros x Hx. simpl. rewrite Ed. simpl. apply in_delete_where; [set_solver|]. apply eqs_false.
    intros E. apply Hh, list_elem_of_fmap. eauto.
  - intros w' ids gone Hg. exists (h :: gone). eapply (healed_cons h l w _ w' id name input ids gone row); [exact Ec| | | | | |exact Hg].
    + destruct (written_fields _ _ _ _ _ _ Hw) as (?&?&?&?&?&->&_). unfold recovery_row. by split_and!.
    + simpl. by rewrite Ed.
    + simpl. by rewrite Ed.
    + simpl. by rewrite Ed.
    + simpl. rewrite (written_clock _ _ _ _ _ _ Hw), E1. done.
Qed.

(** A stranded dispatch is closed once and never run again. The recovery pass
    always succeeds. Every human hold that was dispatched and not answered
    leaves the store, unless its session's cap has passed, and exactly one row
    per such hold joins the log, in order: an error that closes its decision and
    says the outcome is unknown. No other hold moves, and the pass reports the
    calls of exactly those it healed. *)
Theorem stranded_holds_healed userId agentId w :
  agent_inv (w_db w) (w_uuids w) →
  ∃ ids gone w', healCrashedDispatchHolds userId agentId w = (Ok ids, w') ∧
    healed (stable_sort held_order (held_tool_calls (w_db w))) w w' ids gone.
Proof.
  intros Ha.
  assert (wp (healCrashedDispatchHolds userId agentId) (λ ids w', ∃ gone,
    healed (stable_sort held_order (held_tool_calls (w_db w))) w w' ids gone) w) as Hw.
  { unfold healCrashedDispatchHolds, selectHeldCalls. apply wp_bind, wp_select, wp_heal; [done|..].
    - rewrite stable_sort_perm. exact (st_held _ _ (proj1 Ha)).
    - intros h. by rewrite elem_of_stable_sort. }
  apply wp_run in Hw as (ids&w'&E&gone&Hg). by exists ids, gone, w'.
Qed.
End recovery.

(** ** On the concrete object *)

#[local] Existing Instance demo_catalog.
#[local] Existing Instance demo_scopes.
#[local] Instance demo_awaits J : GatedAwaits J.
Proof.
  split; [intros; apply gk_ret..|]. intros tool params [] Ht.
  assert (∀ service verb scopes spend, gkeeps J (tl_execute (demo_tool service verb scopes spend) params tt)) as Hd.
  { intros. apply gk_keeps. cbn [demo_tool tl_execute]. destruct (bool_decide _); auto with wb. }
  apply list_elem_of_In in Ht. simpl in Ht. destruct Ht as [<-|[<-|[<-|[]]]]; apply Hd.
Qed.

Lemma execution_keeps_store_witness :
  let out := executeToolDirect (buy_call 1500) agent_world in
  agent_inv (w_db (snd out)) (w_uuids (snd out)) ∧
  w_turnInFlight (snd out) = w_turnInFlight agent_world ∧
  (w_turnInFlight agent_world = true → out = (Ok None, agent_world)).
Proof.
  exact (execution_keeps_store (buy_call 1500) agent_world (demo_awaits agent_inv) eq_refl agent_world_inv).
Defined.

(** A purchase, under the gate. *)
Definition gated_world : World := with_gate true agent_world.
Lemma every_dispatch_closed_witness :
  ∃ sid g w1 x w2 (row : AuditLogRow) w', gate (buy_call 1500) gated_world = (Ok (Dispatch sid g), w1) ∧
    dispatchTool (js "shop_buy") (et_toolParams (buy_call 1500)) (et_userId (buy_call 1500)) w1 = (Ok x, w2) ∧
    executeTool (buy_call 1500) gated_world = (Ok (mkExecuteResult g (Some x) None None false), w') ∧
    row ∈ audit_log (w_db w') ∧ outcome_row (buy_call 1500) g x row ∧
    counted (buy_call 1500) sid (xn_success x) row w2 w' ∧
    closers_in (audit_log (w_db w')) (ae_id (gr_auditEntry g)) =
      S (closers_in (audit_log (w_db w2)) (ae_id (gr_auditEntry g))).
Proof.
  destruct (every_dispatch_closed (buy_call 1500) gated_world (demo_awaits agent_inv) (λ log, demo_awaits (grown log))
    agent_world_inv agent_world_times eq_refl eq_refl) as (a&w1&E&H).
  destruct a as [r|sid g].
  { exfalso. assert (match gate (buy_call 1500) gated_world with (Ok (Dispatch _ _), _) => true | _ => false end = true)
      as Eg by (vm_compute; reflexivity). rewrite E in Eg. discriminate Eg. }
  destruct H as [_ H].
  change (et_toolName (buy_call 1500)) with (js "shop_buy") in H.
  destruct (dispatchTool _ _ _ w1) as [[x|e] w2] eqn:Ed.
  - destruct H as (row&w'&H1&H2&_&H3&H4&H5). exists sid, g, w1, x, w2, row, w'. split_and!; assumption.
  - exfalso. destruct H as [H _].
    assert (match executeTool (buy_call 1500) gated_world with (Ok _, _) => true | _ => false end = true)
      as Eg by (vm_compute; reflexivity). rewrite H in Eg. discriminate Eg.
Defined.

Lemma spend_cap_holds_witness :
  let d := w_db agent_world in
  let d' := w_db (snd (executeToolDirect (buy_call 1500) agent_world)) in
  let limits := limits_of (user_settings d) in
  session_cents demo_sid d' <= Z.max (session_cents demo_sid d) (lr_session limits) ∧
  (spend_ledger d' = spend_ledger d ∨
   ∃ k, (w_ticks agent_world <= k < w_ticks (snd (gate (buy_call 1500) (with_gate true agent_world))))%nat ∧
     let since := toISOString (month_start (w_clock agent_world k)) in
     cents_since since d' <= Z.max (cents_since since d) (lr_month limits)).
Proof.
  exact (spend_cap_holds (buy_call 1500) agent_world demo_sid agent_world_inv agent_world_times eq_refl).
Defined.

(** Two purchases of 15 dollars: the second would pass the session limit of 20
    dollars and is held. *)
Definition after_calls (ps : list ExecuteToolParams) : World :=
  foldl (λ w p, snd (executeToolDirect p w)) agent_world ps.
Definition second_call : ExecuteToolParams :=
  demo_call "shop_buy" None [(js "to", JStr (js "cart")); (js "cents", jint 1500);
    (js "quote", JStr (js "q2")); (js "key", JStr (js "k2"))].
Example spend_on_examples :
  map (λ ps, (session_cents demo_sid (w_db (after_calls ps)),
              length (held_tool_calls (w_db (after_calls ps)))))
    [[buy_call 1500]; [buy_call 1500; buy_call 1500]; [buy_call 1500; second_call]] =
  [(1500, 0%nat); (1500, 1%nat); (1500, 1%nat)].
Proof. vm_compute. reflexivity. Qed.

(** A hold whose dispatch was never answered. *)
Definition stranded_state : json_text :=
  wrapTurnState (JObj [(js "heldCall", JObj [(js "id", JStr (js "use-1")); (js "name", JStr (js "mail_send"));
    (js "input", JObj [(js "to", JStr (js "bob"))])]); (js "dispatched", JBool true)]).
Definition stranded_hold : HeldToolCallsRow :=
  mkHeld (randomUUID 0) demo_sid (randomUUID 1) stranded_state [] None H_confirmation None None.
Definition stranded_world : World :=
  with_db (set_held_tool_calls (λ rows, rows ++ [stranded_hold])) agent_world.

Lemma stranded_world_inv : agent_inv (w_db stranded_world) (w_uuids stranded_world).
Proof.
  refine (agent_insert_held stranded_hold (w_db agent_world) (w_uuids agent_world) agent_world_inv _ _).
  - exists 0%nat. split; [vm_compute; lia|reflexivity].
  - vm_compute. reflexivity.
Qed.

Lemma stranded_holds_healed_witness :
  ∃ ids gone w', healCrashedDispatchHolds (js "u") (js "a") stranded_world = (Ok ids, w') ∧
    healed (stable_sort held_order (held_tool_calls (w_db stranded_world))) stranded_world w' ids gone.
Proof. exact (stranded_holds_healed (js "u") (js "a") stranded_world stranded_world_inv). Defined.

Example stranded_hold_heals :
  let '(r, w') := healCrashedDispatchHolds (js "u") (js "a") stranded_world in
  r = Ok [js "use-1"] ∧ held_tool_calls (w_db w') = [] ∧
  length (audit_log (w_db w')) = S (length (audit_log (w_db stranded_world))).
Proof. vm_compute. done. Qed.
