(* ===== verification/Canonical.v ===== *)
(** * The canonical LLM shape and its persisted form

    The blocks and messages of [packages/engine/src/llm/types.ts], the state of a
    held turn of [llm/conversation.ts], and the JSON a held row stores it as. The
    file proves that a stored held turn reads back as it was, and states what a
    provider accepts as a conversation. *)

From S2P Require Export Execution.
Open Scope Z_scope.

(** ** Data *)

Record LLMToolDefinition := mkToolDefinition {
  td_name : jsstr;
  td_description : jsstr;
  td_input_schema : json;
}.

Record LLMToolUseBlock := mkToolUse { tu_id : jsstr; tu_name : jsstr; tu_input : fields }.
Record LLMToolResultBlock := mkToolResult {
  tr_tool_use_id : jsstr;
  tr_content : jsstr;
  tr_is_error : option bool;
}.
Inductive LLMContentBlock :=
  | TextBlock (text : jsstr)
  | ToolUse (b : LLMToolUseBlock)
  | ToolResult (b : LLMToolResultBlock).

Inductive llm_role := User | Assistant.
Inductive llm_content := Prose (text : jsstr) | Blocks (l : list LLMContentBlock).
Record LLMMessage := mkMessage { m_role : llm_role; m_content : llm_content }.

(** A slot of the message array; [None] is a hole, or the [null] it is stored as. *)
Abbreviation slot := (option LLMMessage).

Inductive stop_reason := SR_end_turn | SR_tool_use | SR_max_tokens | SR_stop_sequence.
#[export] Instance stop_reason_eq_dec : EqDecision stop_reason.
Proof. solve_decision. Defined.
Record LLMUsage := mkUsage { us_input : Z; us_output : Z }.
Record LLMResponse := mkResponse {
  lr_content : list LLMContentBlock;
  lr_stop_reason : option stop_reason;
  lr_usage : LLMUsage;
}.
Record LLMCreateParams := mkCreate {
  lc_model : jsstr;
  lc_max_tokens : Z;
  lc_system : option jsstr;
  lc_messages : list slot;
  lc_tools : option (list LLMToolDefinition);
}.

Inductive ToolCallOutcome :=
  | TC_success | TC_denied | TC_boundary_refused | TC_not_connected | TC_needs_authorization
  | TC_error | TC_held.
#[export] Instance ToolCallOutcome_eq_dec : EqDecision ToolCallOutcome.
Proof. solve_decision. Defined.

Record ToolCallRecord := mkCall {
  tc_name : jsstr;
  tc_id : jsstr;
  tc_outcome : ToolCallOutcome;
  tc_error : option jsstr;
}.

Record HeldTurnState := mkHeldTurn {
  ht_messages : list slot;
  ht_heldCall : LLMToolUseBlock;
  ht_parkedCalls : list LLMToolUseBlock;
  ht_producedResults : list LLMToolResultBlock;
  ht_iterationsUsed : Z;
  ht_toolCalls : list ToolCallRecord;
  ht_usage : LLMUsage;
}.

(** The produced answer of a resolved hold: [answered]. *)
Record Answered := mkAnswered {
  an_resolvedResult : LLMToolResultBlock;
  an_resolvedOutcome : ToolCallOutcome;
  an_resolvedError : option jsstr;
}.

(** ** What is stored *)

(** An optional member is left out when it is [undefined]. *)
Definition opt_field {A} (k : string) (f : A → json) (v : option A) : fields :=
  match v with Some v => [(js k, f v)] | None => [] end.

Definition tool_use_json (b : LLMToolUseBlock) : json :=
  JObj [(js "type", JStr (js "tool_use")); (js "id", JStr (tu_id b)); (js "name", JStr (tu_name b));
        (js "input", JObj (tu_input b))].
Definition tool_result_json (b : LLMToolResultBlock) : json :=
  JObj ([(js "type", JStr (js "tool_result")); (js "tool_use_id", JStr (tr_tool_use_id b));
         (js "content", JStr (tr_content b))] ++ opt_field "is_error" JBool (tr_is_error b)).
Definition block_json (b : LLMContentBlock) : json :=
  match b with
  | TextBlock t => JObj [(js "type", JStr (js "text")); (js "text", JStr t)]
  | ToolUse b => tool_use_json b
  | ToolResult b => tool_result_json b
  end.
Definition role_text (r : llm_role) : jsstr :=
  match r with User => js "user" | Assistant => js "assistant" end.
Definition message_json (m : LLMMessage) : json :=
  JObj [(js "role", JStr (role_text (m_role m)));
        (js "content", match m_content m with
                       | Prose s => JStr s
                       | Blocks l => JArr (block_json <$> l)
                       end)].
Definition slot_json (m : slot) : json :=
  match m with Some m => message_json m | None => JNull end.
Definition usage_json (u : LLMUsage) : json :=
  JObj [(js "inputTokens", jint (us_input u)); (js "outputTokens", jint (us_output u))].
Definition outcome_label (o : ToolCallOutcome) : jsstr :=
  match o with
  | TC_success => js "success" | TC_denied => js "denied"
  | TC_boundary_refused => js "boundary_refused" | TC_not_connected => js "not_connected"
  | TC_needs_authorization => js "needs_authorization" | TC_error => js "error"
  | TC_held => js "held"
  end.
Definition call_json (c : ToolCallRecord) : json :=
  JObj ([(js "name", JStr (tc_name c)); (js "id", JStr (tc_id c));
         (js "outcome", JStr (outcome_label (tc_outcome c)))] ++ opt_field "error" JStr (tc_error c)).

Definition turn_fields (s : HeldTurnState) : fields :=
  [(js "messages", JArr (slot_json <$> ht_messages s));
   (js "heldCall", tool_use_json (ht_heldCall s));
   (js "parkedCalls", JArr (tool_use_json <$> ht_parkedCalls s));
   (js "producedResults", JArr (tool_result_json <$> ht_producedResults s));
   (js "iterationsUsed", jint (ht_iterationsUsed s));
   (js "toolCalls", JArr (call_json <$> ht_toolCalls s));
   (js "usage", usage_json (ht_usage s))].
Definition answered_json (a : Answered) : json :=
  JObj ([(js "resolvedResult", tool_result_json (an_resolvedResult a));
         (js "resolvedOutcome", JStr (outcome_label (an_resolvedOutcome a)))] ++
        opt_field "resolvedError" JStr (an_resolvedError a)).

Definition run_origin_text (o : RunOrigin) : jsstr :=
  match o with
  | RO_internal => js "internal" | RO_human => js "human" | RO_commission => js "commission"
  end.
Definition parse_run_origin (s : jsstr) : option RunOrigin :=
  if decide (s = js "internal") then Some RO_internal
  else if decide (s = js "human") then Some RO_human
  else if decide (s = js "commission") then Some RO_commission
  else None.

(** ** What is read back *)

Definition as_str (v : json) : option jsstr := match v with JStr s => Some s | _ => None end.
Definition as_int (v : json) : option Z := match v with JNum n => num_int n | _ => None end.
Definition as_bool (v : json) : option bool := match v with JBool b => Some b | _ => None end.
Definition as_list (v : json) : option (list json) := match v with JArr l => Some l | _ => None end.
Definition as_object (v : json) : option fields := match v with JObj fs => Some fs | _ => None end.

(** A required member, an optional one, and a list-valued one, read by [f]. *)
Definition req {A} (k : string) (f : json → option A) (v : json) : option A :=
  member (js k) v ≫= f.
Definition opt {A} (k : string) (f : json → option A) (v : json) : option (option A) :=
  match member (js k) v with None => Some None | Some x => Some <$> f x end.
Definition many {A} (k : string) (f : json → option A) (v : json) : option (list A) :=
  req k as_list v ≫= mapM f.

Definition read_tool_use (v : json) : option LLMToolUseBlock :=
  id ← req "id" as_str v; name ← req "name" as_str v; input ← req "input" as_object v;
  Some (mkToolUse id name input).
Definition read_tool_result (v : json) : option LLMToolResultBlock :=
  id ← req "tool_use_id" as_str v; content ← req "content" as_str v;
  is_error ← opt "is_error" as_bool v;
  Some (mkToolResult id content is_error).
Definition read_block (v : json) : option LLMContentBlock :=
  t ← req "type" as_str v;
  if decide (t = js "text") then TextBlock <$> req "text" as_str v
  else if decide (t = js "tool_use") then ToolUse <$> read_tool_use v
  else if decide (t = js "tool_result") then ToolResult <$> read_tool_result v
  else None.
Definition read_role (v : json) : option llm_role :=
  s ← as_str v;
  if decide (s = js "user") then Some User
  else if decide (s = js "assistant") then Some Assistant
  else None.
Definition read_content (v : json) : option llm_content :=
  match v with
  | JStr s => Some (Prose s)
  | JArr l => Blocks <$> mapM read_block l
  | _ => None
  end.
Definition read_slot (v : json) : option slot :=
  match v with
  | JNull => Some None
  | _ => r ← req "role" read_role v; c ← req "content" read_content v; Some (Some (mkMessage r c))
  end.
Definition read_usage (v : json) : option LLMUsage :=
  i ← req "inputTokens" as_int v; o ← req "outputTokens" as_int v; Some (mkUsage i o).
Definition read_outcome (v : json) : option ToolCallOutcome :=
  s ← as_str v;
  List.find (λ o, bool_decide (s = outcome_label o))
    [TC_success; TC_denied; TC_boundary_refused; TC_not_connected; TC_needs_authorization; TC_error;
     TC_held].
Definition read_call (v : json) : option ToolCallRecord :=
  name ← req "name" as_str v; id ← req "id" as_str v; o ← req "outcome" read_outcome v;
  e ← opt "error" as_str v;
  Some (mkCall name id o e).

(** The members the loop uses; [None] on a value of another shape. *)
Definition read_turn (v : json) : option HeldTurnState :=
  messages ← many "messages" read_slot v;
  heldCall ← req "heldCall" read_tool_use v;
  parked ← many "parkedCalls" read_tool_use v;
  produced ← many "producedResults" read_tool_result v;
  used ← req "iterationsUsed" as_int v;
  calls ← many "toolCalls" read_call v;
  usage ← req "usage" read_usage v;
  Some (mkHeldTurn messages heldCall parked produced used calls usage).
Definition read_answered (v : json) : option Answered :=
  r ← req "resolvedResult" read_tool_result v;
  o ← req "resolvedOutcome" read_outcome v;
  e ← opt "resolvedError" as_str v;
  Some (mkAnswered r o e).

(** ** Reading back what was stored *)

Lemma mapM_fmap {A B} (f : A → B) (g : B → option A) (l : list A) :
  (∀ x, g (f x) = Some x) → mapM g (f <$> l) = Some l.
Proof. intros Hg. apply mapM_Some_2, Forall2_fmap_l, Forall_Forall2_diag, Forall_true, Hg. Qed.

Lemma as_int_jint z : as_int (jint z) = Some z.
Proof. apply num_int_of_Z. Qed.

(** Evaluate the reading of an object whose members are literals. *)
Ltac read_literal := unfold req, opt, many, member; cbn [get]; lit_decide.

Lemma read_tool_use_json b : read_tool_use (tool_use_json b) = Some b.
Proof. destruct b. reflexivity. Qed.
Lemma read_tool_result_json b : read_tool_result (tool_result_json b) = Some b.
Proof. by destruct b as [? ? [[]|]]. Qed.
Lemma read_block_json b : read_block (block_json b) = Some b.
Proof.
  destruct b as [t|b|b]; [reflexivity| |].
  - change (ToolUse <$> read_tool_use (tool_use_json b) = Some (ToolUse b)).
    by rewrite read_tool_use_json.
  - change (ToolResult <$> read_tool_result (tool_result_json b) = Some (ToolResult b)).
    by rewrite read_tool_result_json.
Qed.
Lemma read_slot_json m : read_slot (slot_json m) = Some m.
Proof.
  destruct m as [[r c]|]; [|reflexivity].
  change (read_slot (slot_json (Some (mkMessage r c)))) with
    (r0 ← read_role (JStr (role_text r));
     c0 ← read_content (match c with Prose s => JStr s | Blocks l => JArr (block_json <$> l) end);
     Some (Some (mkMessage r0 c0))).
  assert (read_role (JStr (role_text r)) = Some r) as -> by by destruct r.
  destruct c as [s|l]; simpl; [done|]. by rewrite mapM_fmap by apply read_block_json.
Qed.
Lemma read_outcome_label o : read_outcome (JStr (outcome_label o)) = Some o.
Proof. by destruct o. Qed.
Lemma read_call_json c : read_call (call_json c) = Some c.
Proof. by destruct c as [? ? [] [|]]. Qed.
Lemma read_answered_json a : read_answered (answered_json a) = Some a.
Proof.
  destruct a as [r o e].
  assert (req "resolvedResult" read_tool_result (answered_json (mkAnswered r o e)) = Some r) as E1
    by apply read_tool_result_json.
  assert (req "resolvedOutcome" read_outcome (answered_json (mkAnswered r o e)) = Some o) as E2
    by apply read_outcome_label.
  unfold read_answered. rewrite E1. cbn [mbind option_bind]. rewrite E2. by destruct e.
Qed.

Lemma read_usage_json u : read_usage (usage_json u) = Some u.
Proof.
  destruct u as [i o].
  change (read_usage (usage_json (mkUsage i o))) with
    (i0 ← as_int (jint i); o0 ← as_int (jint o); Some (mkUsage i0 o0)).
  by rewrite !as_int_jint.
Qed.

(** The members an object adds to a turn do not change what is read. *)
Lemma read_turn_fields s extra : read_turn (JObj (turn_fields s ++ extra)) = Some s.
Proof.
  destruct s as [ms h ps rs n cs u].
  change (read_turn _) with
    (messages ← mapM read_slot (slot_json <$> ms); heldCall ← read_tool_use (tool_use_json h);
     parked ← mapM read_tool_use (tool_use_json <$> ps);
     produced ← mapM read_tool_result (tool_result_json <$> rs); used ← as_int (jint n);
     calls ← mapM read_call (call_json <$> cs); usage ← read_usage (usage_json u);
     Some (mkHeldTurn messages heldCall parked produced used calls usage)).
  rewrite (mapM_fmap slot_json) by apply read_slot_json.
  rewrite (mapM_fmap tool_use_json) by apply read_tool_use_json.
  rewrite (mapM_fmap tool_result_json) by apply read_tool_result_json.
  rewrite (mapM_fmap call_json) by apply read_call_json.
  cbn [mbind option_bind]. by rewrite read_tool_use_json; cbn [mbind option_bind];
    rewrite as_int_jint; cbn [mbind option_bind]; rewrite read_usage_json.
Qed.

Lemma get_set_field_ne k k' v fs : k ≠ k' → get k (set_field k' v fs) = get k fs.
Proof.
  intros Hk. induction fs as [|[k1 v1] fs IH]; simpl.
  - by rewrite decide_False.
  - unfold eqs. destruct (bool_decide_reflect (k1 = k')) as [->|Hn]; simpl.
    + by rewrite !decide_False.
    + by rewrite IH.
Qed.
Lemma get_set_field k v fs : get k (set_field k v fs) = Some v.
Proof.
  induction fs as [|[k1 v1] fs IH]; simpl; [by rewrite decide_True|].
  unfold eqs. destruct (bool_decide_reflect (k1 = k)) as [->|Hn]; simpl.
  - by rewrite decide_True.
  - by rewrite decide_False.
Qed.

(** ** What a provider accepts

    Both provider wires require that the tool calls of an assistant message are
    answered, all of them and in the next message; that no message and no text is
    empty; and that the conversation starts and ends with the user. [wire] reads a message
    array as a provider does. *)

Definition use_ids (l : list LLMContentBlock) : list jsstr :=
  omap (λ b, match b with ToolUse u => Some (tu_id u) | _ => None end) l.
Definition result_ids (l : list LLMContentBlock) : list jsstr :=
  omap (λ b, match b with ToolResult r => Some (tr_tool_use_id r) | _ => None end) l.

(** A text block holds a text. *)
Definition said (b : LLMContentBlock) : bool := match b with TextBlock [] => false | _ => true end.

Inductive wire_state := AfterUser | AfterAssistant (owed : list jsstr).
#[export] Instance wire_state_eq_dec : EqDecision wire_state.
Proof. solve_decision. Defined.

Definition wire_step (st : wire_state) (m : slot) : option wire_state :=
  match m with
  | None => None
  | Some (mkMessage User c) =>
      let owed := match st with AfterUser => [] | AfterAssistant owed => owed end in
      match c with
      | Prose text => if bool_decide (text ≠ [] ∧ owed = []) then Some AfterUser else None
      | Blocks [] => None
      | Blocks l =>
          if bool_decide (use_ids l = [] ∧ result_ids l = owed) && forallb said l
          then Some AfterUser else None
      end
  | Some (mkMessage Assistant c) =>
      match st, c with
      | AfterUser, Prose text => if bool_decide (text ≠ []) then Some (AfterAssistant []) else None
      | AfterUser, Blocks (b :: l) =>
          if bool_decide (result_ids (b :: l) = []) && forallb said (b :: l)
          then Some (AfterAssistant (use_ids (b :: l))) else None
      | _, _ => None
      end
  end.
Fixpoint wire_from (st : wire_state) (l : list slot) : option wire_state :=
  match l with [] => Some st | m :: l' => st' ← wire_step st m; wire_from st' l' end.
(** Before its first message a conversation owes nothing. *)
Definition wire : list slot → option wire_state := wire_from (AfterAssistant []).
(** A request: it ends with the user, and nothing is owed. *)
Definition sendable (l : list slot) : Prop := wire l = Some AfterUser.
(** A conversation the next user message can be appended to. *)
Definition settled (l : list slot) : Prop :=
  wire l = Some AfterUser ∨ wire l = Some (AfterAssistant []).
Definition wire_ok (l : list slot) : Prop := is_Some (wire l).

Lemma wire_from_app st l k : wire_from st (l ++ k) = wire_from st l ≫= λ st', wire_from st' k.
Proof.
  revert st. induction l as [|m l IH]; intros st; simpl; [done|].
  destruct (wire_step st m); simpl; auto.
Qed.
Lemma wire_snoc l m : wire (l ++ [m]) = wire l ≫= λ st, wire_step st m.
Proof.
  unfold wire. rewrite wire_from_app. destruct (wire_from _ l) as [st|]; simpl; [|done].
  by destruct (wire_step st m).
Qed.
(** What was accepted was accepted up to any point. *)
Lemma wire_ok_prefix l k : wire_ok (l ++ k) → wire_ok l.
Proof. unfold wire_ok, wire. rewrite wire_from_app. by destruct (wire_from _ l). Qed.
Lemma wire_ok_take n l : wire_ok l → wire_ok (take n l).
Proof. intros H. rewrite <- (take_drop n l) in H. by apply wire_ok_prefix in H. Qed.
Lemma wire_ok_no_hole l : wire_ok l → Forall is_Some l.
Proof.
  unfold wire_ok, wire. generalize (AfterAssistant []) as st. induction l as [|m l IH]; intros st H.
  - constructor.
  - change (is_Some (wire_step st m ≫= λ st', wire_from st' l)) in H.
    destruct m as [m|]; [|by destruct H as [? ?]].
    destruct (wire_step st (Some m)) as [st'|]; [|by destruct H as [? ?]].
    constructor; [done|]. by apply (IH st').
Qed.
Lemma settled_prose l text :
  settled l → text ≠ [] → sendable (l ++ [Some (mkMessage User (Prose text))]).
Proof.
  unfold sendable. rewrite wire_snoc. intros [-> | ->] Ht; simpl; by rewrite bool_decide_true.
Qed.
Lemma wire_answers l owed rs :
  wire l = Some (AfterAssistant owed) → rs ≠ [] → tr_tool_use_id <$> rs = owed →
  sendable (l ++ [Some (mkMessage User (Blocks (ToolResult <$> rs)))]).
Proof.
  intros Hl Hn Ho. unfold sendable. rewrite wire_snoc, Hl. destruct rs as [|r rs]; [done|].
  assert (∀ k : list LLMToolResultBlock, use_ids (ToolResult <$> k) = [] ∧
    result_ids (ToolResult <$> k) = tr_tool_use_id <$> k ∧ forallb said (ToolResult <$> k) = true) as Hk.
  { induction k as [|x k (IH1&IH2&IH3)]; [done|]. split; [exact IH1|]. split; [|exact IH3].
    change (tr_tool_use_id x :: result_ids (ToolResult <$> k) = tr_tool_use_id <$> x :: k).
    by rewrite IH2. }
  destruct (Hk (r :: rs)) as (H1&H2&H3).
  change (_ ≫= _) with
    (if bool_decide (use_ids (ToolResult <$> r :: rs) = [] ∧ result_ids (ToolResult <$> r :: rs) = owed) &&
        forallb said (ToolResult <$> r :: rs) then Some AfterUser else None).
  rewrite H1, H2, H3, Ho. by rewrite bool_decide_true.
Qed.
