(* ===== verification/Conversation.v ===== *)
(** * The conversation loop: [packages/engine/src/llm/conversation.ts]

    One turn of the model: requests to the provider, tool calls answered one by
    one, a call that is held and the turn persisted, the turn resumed with the
    answer. The loop runs on a shared message buffer that outlives it. The file
    proves that every request is one the provider accepts, that a held turn
    accounts for each tool call of its message, that a failed request leaves the
    buffer as it was, and what a turn may cost. *)

From S2P Require Export Canonical.
Open Scope Z_scope.

(** ** The buffer, and the monad of a turn

    [cv_requests] is no state of the code: it is the log of the requests sent. *)

Record Conv := mkConv { cv_messages : list slot; cv_requests : list LLMCreateParams }.

Definition C (A : Type) : Type := Conv → World → res A * Conv * World.
#[export] Instance C_ret : MRet C := λ A a s w, (Ok a, s, w).
#[export] Instance C_bind : MBind C := λ A B k c s w,
  match c s w with
  | (Ok a, s', w') => k a s' w'
  | (Throw e, s', w') => (Throw e, s', w')
  end.
Definition lift {A} (m : M A) : C A := λ s w, let '(r, w') := m w in (r, s, w').
Definition raise {A} (e : exn) : C A := λ s w, (Throw e, s, w).
Definition attempt {A} (c : C A) (handler : exn → C A) : C A := λ s w,
  match c s w with (Ok a, s', w') => (Ok a, s', w') | (Throw e, s', w') => handler e s' w' end.
Definition getMessages : C (list slot) := λ s w, (Ok (cv_messages s), s, w).
Definition setMessages (f : list slot → list slot) : C unit := λ s w,
  (Ok tt, mkConv (f (cv_messages s)) (cv_requests s), w).
Definition push (m : LLMMessage) : C unit := setMessages (λ l, l ++ [Some m]).
(** [messages.length = n]: it cuts, and it extends with holes. *)
Definition setLength (n : nat) : C unit := setMessages (resize n None).

(** A provider's adapter: the answer to the n-th request of the object, or the
    error it throws. Other requests to the object are served while it is
    awaited. *)
Class LLMClient := createMessage : nat → LLMCreateParams → M LLMResponse.
(** An assistant's blocks are tool calls and texts that are not empty. *)
Class LLMLaws (client : LLMClient) : Prop :=
  client_blocks : ∀ n params w r w',
    createMessage n params w = (Ok r, w') →
    result_ids (lr_content r) = [] ∧ forallb said (lr_content r) = true.

Definition send `{LLMClient} (params : LLMCreateParams) : C LLMResponse := λ s w,
  let '(r, w') := createMessage (length (cv_requests s)) params w in
  (r, mkConv (cv_messages s) (cv_requests s ++ [params]), w').

(** ** The untrusted-output fence: [llm/untrusted-fence.ts] *)

Definition UNTRUSTED_OPEN_PREFIX : jsstr := js "<<habenula-untrusted-output ".
Definition UNTRUSTED_CLOSE_PREFIX : jsstr := js "<<end-habenula-untrusted-output ".
Definition fenceUntrusted `{Platform} (content : jsstr) : M jsstr :=
  nonce ← newUUID;
  mret (UNTRUSTED_OPEN_PREFIX ++ nonce ++ js ">>" ++ [10%N] ++ content ++ [10%N] ++
        UNTRUSTED_CLOSE_PREFIX ++ nonce ++ js ">>").

(** ** One tool call *)

Definition MAX_ITERATIONS : Z := 10.
Definition UNRECOGNIZED_TOOL_NAME : jsstr := js "<unrecognized>".
Definition recordToolName `{Catalog} (rawName : jsstr) : jsstr :=
  match lookupTool rawName with None => UNRECOGNIZED_TOOL_NAME | Some entry => toolName entry end.

(** What [ExecuteToolFn] answers. *)
Record ToolOutcome := mkToolOutcome {
  xo_success : bool;
  xo_data : option json;
  xo_error : option jsstr;
  xo_denied : bool;
  xo_notConnected : bool;
  xo_needsAuthorization : bool;
  xo_boundaryRefused : bool;
  xo_held : bool;
  xo_heldCallId : option jsstr;
}.

Record Classified := mkClassified {
  cl_content : jsstr; cl_isError : bool; cl_outcome : ToolCallOutcome; cl_error : option jsstr;
}.
Definition classifyToolResult `{Platform} (result : ToolOutcome) : M Classified :=
  if xo_notConnected result then
    mret (mkClassified (js "The required service is not connected " ++ [8212%N] ++
      js " no credential is available. Tell the user the service needs to be connected before this tool can run.")
      true TC_not_connected None)
  else if xo_needsAuthorization result then
    mret (mkClassified (js "The service is connected, but its stored authorization does not cover this action. Tell the user to re-connect the service (e.g. `habenula connect gmail`) to grant the additional access before this tool can run.")
      true TC_needs_authorization None)
  else if xo_boundaryRefused result then
    mret (mkClassified CONTROL_PLANE_REFUSAL true TC_boundary_refused None)
  else if xo_denied result then
    mret (mkClassified (js "Denied by governance policy") true TC_denied None)
  else if negb (xo_success result) then
    let error := default (js "Tool execution failed") (xo_error result) in
    fenced ← fenceUntrusted error;
    mret (mkClassified fenced true TC_error (Some error))
  else
    fenced ← fenceUntrusted (JSON_stringify (default JNull (xo_data result)));
    mret (mkClassified fenced false TC_success None).

(** ** The loop *)

Record ResumeState := mkResume {
  rs_state : HeldTurnState;
  rs_resolvedResult : LLMToolResultBlock;
  rs_resolvedOutcome : ToolCallOutcome;
  rs_resolvedError : option jsstr;
}.

Record ConversationLoopParams := mkLoopParams {
  cp_userMessage : jsstr;
  cp_tools : list LLMToolDefinition;
  cp_executeTool : jsstr → fields → M ToolOutcome;
  cp_model : jsstr;
  cp_maxTokens : Z;
  cp_system : option jsstr;
  cp_persistHeldTurn : option (jsstr → HeldTurnState → M unit);
  cp_resumeState : option ResumeState;
}.

Record ConversationLoopResult := mkLoopResult {
  lp_response : jsstr;
  lp_toolCalls : list ToolCallRecord;
  lp_usage : LLMUsage;
  lp_iterations : Z;
  lp_held : option jsstr;
}.

Section loop.
Context `{Platform} `{Catalog} `{LLMClient}.
Implicit Types (p : ConversationLoopParams).

Definition persist p (heldCallId : jsstr) (state : HeldTurnState) : M unit :=
  match cp_persistHeldTurn p with Some f => f heldCallId state | None => mret tt end.

(** The record of a call, and the block that answers it. *)
Definition call_record (name id : jsstr) (outcome : ToolCallOutcome) (error : option jsstr)
    : ToolCallRecord :=
  mkCall (recordToolName name) id outcome error.
Definition answerCall (block : LLMToolUseBlock) (result : ToolOutcome)
    : M (LLMToolResultBlock * ToolCallRecord) :=
  c ← classifyToolResult result;
  mret (mkToolResult (tu_id block) (cl_content c) (Some (cl_isError c)),
        call_record (tu_name block) (tu_id block) (cl_outcome c) (cl_error c)).

(** Either the turn is held, or every call is answered. *)
Inductive Drained :=
  | DrainHeld (r : ConversationLoopResult)
  | DrainDone (results : list LLMToolResultBlock) (calls : list ToolCallRecord).

(** The calls of one assistant message, in order; the first that is held parks
    itself and the rest. *)
Fixpoint runToolUses p (iterations : Z) (usage : LLMUsage) (blocks : list LLMToolUseBlock)
    (results : list LLMToolResultBlock) (calls : list ToolCallRecord) : C Drained :=
  match blocks with
  | [] => mret (DrainDone results calls)
  | block :: parked =>
      result ← lift (cp_executeTool p (tu_name block) (tu_input block));
      if xo_held result then
        let heldCallId := default (tu_id block) (xo_heldCallId result) in
        let calls := calls ++ [call_record (tu_name block) (tu_id block) TC_held None] in
        messages ← getMessages;
        lift (persist p heldCallId
          (mkHeldTurn messages block parked results iterations calls usage)) ;;
        mret (DrainHeld (mkLoopResult [] calls usage iterations (Some heldCallId)))
      else
        answer ← lift (answerCall block result);
        runToolUses p iterations usage parked (results ++ [fst answer]) (calls ++ [snd answer])
  end.

(** The record of the held call is replaced, or added when there is none. *)
Fixpoint replaceHeld (id : jsstr) (record : ToolCallRecord) (calls : list ToolCallRecord)
    : list ToolCallRecord :=
  match calls with
  | [] => [record]
  | c :: calls' =>
      if bool_decide (tc_id c = id ∧ tc_outcome c = TC_held) then record :: calls'
      else c :: replaceHeld id record calls'
  end.

Definition answerAndDrainParkedCalls p (r : ResumeState) (toolCalls : list ToolCallRecord)
    : C Drained :=
  let base := rs_state r in
  setMessages (λ _, ht_messages base) ;;
  let heldCall := ht_heldCall base in
  let record := call_record (tu_name heldCall) (tu_id heldCall) (rs_resolvedOutcome r)
                  (rs_resolvedError r) in
  drained ← runToolUses p (ht_iterationsUsed base) (ht_usage base) (ht_parkedCalls base)
    (ht_producedResults base ++ [rs_resolvedResult r]) (replaceHeld (tu_id heldCall) record toolCalls);
  match drained with
  | DrainHeld held => mret (DrainHeld held)
  | DrainDone answered calls =>
      push (mkMessage User (Blocks (ToolResult <$> answered))) ;;
      mret (DrainDone answered calls)
  end.

Definition request p (messages : list slot) : LLMCreateParams :=
  mkCreate (cp_model p) (cp_maxTokens p)
    (match cp_system p with Some (c :: s) => Some (c :: s) | _ => None end) messages
    (match cp_tools p with [] => None | tools => Some tools end).

Definition tool_uses (content : list LLMContentBlock) : list LLMToolUseBlock :=
  omap (λ b, match b with ToolUse u => Some u | _ => None end) content.
Definition text_of (content : list LLMContentBlock) : jsstr :=
  mjoin (omap (λ b, match b with TextBlock t => Some t | _ => None end) content).
Definition assistant_content (content : list LLMContentBlock) : list LLMContentBlock :=
  match content with
  | [] => [TextBlock (js "[the model returned an empty response]")]
  | _ => content
  end.
Definition add_usage (u v : LLMUsage) : LLMUsage :=
  mkUsage (us_input u + us_input v) (us_output u + us_output v).

(** [fuel] is what is left of the budget: [MAX_ITERATIONS - i]. *)
Fixpoint llmLoop p (rollbackLength fuel : nat) (toolCalls : list ToolCallRecord) (usage : LLMUsage)
    : C ConversationLoopResult :=
  match fuel with
  | O => mret (mkLoopResult (js "[max iterations reached]") toolCalls usage MAX_ITERATIONS None)
  | S fuel' =>
      let i := MAX_ITERATIONS - Z.of_nat fuel in
      messages ← getMessages;
      response ← attempt (send (request p messages))
        (λ err, setLength rollbackLength ;; raise err);
      let usage := add_usage usage (lr_usage response) in
      push (mkMessage Assistant (Blocks (assistant_content (lr_content response)))) ;;
      let toolUseBlocks := tool_uses (lr_content response) in
      if negb (bool_decide (lr_stop_reason response = Some SR_tool_use)) ||
         (length toolUseBlocks =? 0)%nat
      then mret (mkLoopResult (text_of (lr_content response)) toolCalls usage (i + 1) None)
      else
        drained ← runToolUses p (i + 1) usage toolUseBlocks [] toolCalls;
        match drained with
        | DrainHeld held => mret held
        | DrainDone results toolCalls =>
            push (mkMessage User (Blocks (ToolResult <$> results))) ;;
            llmLoop p rollbackLength fuel' toolCalls usage
        end
  end.

Definition runConversationLoop p : C ConversationLoopResult :=
  messages ← getMessages;
  let rollbackLength := length messages in
  match cp_resumeState p with
  | Some r =>
      let base := rs_state r in
      let toolCalls := (λ c, mkCall (recordToolName (tc_name c)) (tc_id c) (tc_outcome c) (tc_error c))
                         <$> ht_toolCalls base in
      resumed ← answerAndDrainParkedCalls p r toolCalls;
      match resumed with
      | DrainHeld held => mret held
      | DrainDone _ toolCalls =>
          llmLoop p rollbackLength (Z.to_nat (MAX_ITERATIONS - ht_iterationsUsed base)) toolCalls
            (ht_usage base)
      end
  | None =>
      push (mkMessage User (Prose (cp_userMessage p))) ;;
      llmLoop p rollbackLength (Z.to_nat MAX_ITERATIONS) [] (mkUsage 0 0)
  end.
End loop.

(** ** Reasoning about turns

    [cwp c Q s w]: the run of [c] from [s] and [w] satisfies [Q], whether it returns
    or throws. *)

Definition cwp {A} (c : C A) (Q : res A → Conv → World → Prop) (s : Conv) (w : World) : Prop :=
  let '(r, s', w') := c s w in Q r s' w'.

Lemma cwp_mono {A} (c : C A) (Q Q' : res A → Conv → World → Prop) s w :
  cwp c Q s w → (∀ r s' w', Q r s' w' → Q' r s' w') → cwp c Q' s w.
Proof. unfold cwp. destruct (c s w) as [[r s'] w']. auto. Qed.
Lemma cwp_bind {A B} (c : C B) (k : B → C A) (Q : res A → Conv → World → Prop) s w :
  cwp c (λ r s' w', match r with Ok b => cwp (k b) Q s' w' | Throw e => Q (Throw e) s' w' end) s w →
  cwp (c ≫= k) Q s w.
Proof. unfold cwp, mbind, C_bind. by destruct (c s w) as [[[b|e] s'] w']. Qed.
Lemma cwp_lift {A} (m : M A) (Q : res A → Conv → World → Prop) s w :
  (∀ r w', m w = (r, w') → Q r s w') → cwp (lift m) Q s w.
Proof. unfold cwp, lift. destruct (m w) as [r w']. auto. Qed.
Lemma cwp_send `{LLMClient} params (Q : res LLMResponse → Conv → World → Prop) s w :
  (∀ r w', createMessage (length (cv_requests s)) params w = (r, w') →
     Q r (mkConv (cv_messages s) (cv_requests s ++ [params])) w') → cwp (send params) Q s w.
Proof. unfold cwp, send. destruct (createMessage _ params w) as [r w']. auto. Qed.
Lemma cwp_attempt {A} (c : C A) h (Q : res A → Conv → World → Prop) s w :
  cwp c (λ r s' w', match r with Ok _ => Q r s' w' | Throw e => cwp (h e) Q s' w' end) s w →
  cwp (attempt c h) Q s w.
Proof. unfold cwp, attempt. by destruct (c s w) as [[[b|e] s'] w']. Qed.

(** A run that always returns. *)
Definition total {A} (m : M A) : Prop := ∀ w, ∃ a w', m w = (Ok a, w').

(** ** What a turn keeps *)

Lemma tool_use_ids l : tu_id <$> tool_uses l = use_ids l.
Proof.
  induction l as [|[t|u|r] l IH]; [done|exact IH| |exact IH].
  change (tu_id u :: (tu_id <$> tool_uses l) = tu_id u :: use_ids l). by rewrite IH.
Qed.

Section turns.
Context `{Platform} `{Catalog} `{!LLMClient} `{!LLMLaws _}.
Implicit Types (p : ConversationLoopParams).

(** The display name of a call is one the engine authored. *)
Definition closed_name (name : jsstr) : Prop :=
  name = UNRECOGNIZED_TOOL_NAME ∨ name ∈ toolName <$> allTools.
Definition settled_calls (calls : list ToolCallRecord) : Prop :=
  Forall (λ c, closed_name (tc_name c) ∧ tc_outcome c ≠ TC_held) calls.
(** The records of a held turn: the last one, and it alone, is [held]. *)
Definition held_calls (b : LLMToolUseBlock) (calls : list ToolCallRecord) : Prop :=
  ∃ earlier, calls = earlier ++ [call_record (tu_name b) (tu_id b) TC_held None] ∧
    settled_calls earlier.
Definition result_ok (r : ConversationLoopResult) : Prop :=
  match lp_held r with
  | None => settled_calls (lp_toolCalls r)
  | Some _ => ∃ b, held_calls b (lp_toolCalls r)
  end.

(** A held turn accounts for every call of the message it ends with: those
    answered, the one held, those parked. *)
Record held_ok (t : HeldTurnState) : Prop := {
  hk_owed : wire (ht_messages t) = Some (AfterAssistant
    ((tr_tool_use_id <$> ht_producedResults t) ++
     tu_id (ht_heldCall t) :: (tu_id <$> ht_parkedCalls t)));
  hk_budget : 0 <= ht_iterationsUsed t <= MAX_ITERATIONS;
  hk_calls : held_calls (ht_heldCall t) (ht_toolCalls t);
}.

Lemma closed_recordToolName name : closed_name (recordToolName name).
Proof.
  unfold recordToolName, lookupTool, closed_name.
  destruct (List.find _ allTools) as [t|] eqn:E; [right|by left].
  apply List.find_some in E as [Hin _]. apply list_elem_of_fmap. exists t.
  split; [done|]. by apply list_elem_of_In.
Qed.
Lemma settled_snoc calls name id o e :
  settled_calls calls → o ≠ TC_held → settled_calls (calls ++ [call_record name id o e]).
Proof.
  intros Hc Ho. apply Forall_app. split; [done|]. constructor; [|constructor].
  split; [apply closed_recordToolName|done].
Qed.

Lemma classify_not_held result w c w' :
  classifyToolResult result w = (Ok c, w') → cl_outcome c ≠ TC_held.
Proof.
  unfold classifyToolResult, fenceUntrusted, mbind, M_bind, newUUID, mret, M_ret.
  destruct (xo_notConnected result), (xo_needsAuthorization result), (xo_boundaryRefused result),
    (xo_denied result), (xo_success result); intros E; by simplify_eq/=.
Qed.

Lemma replaceHeld_last b record earlier :
  settled_calls earlier →
  replaceHeld (tu_id b) record (earlier ++ [call_record (tu_name b) (tu_id b) TC_held None]) =
  earlier ++ [record].
Proof.
  induction 1 as [|c l [_ Hc] _ IH]; simpl.
  - by rewrite bool_decide_true.
  - rewrite bool_decide_false by naive_solver. by rewrite IH.
Qed.

Section run.
Context (p : ConversationLoopParams) (J : World → Prop).
(** [J] survives a tool call, a request the provider accepts, an identifier
    drawn and the storing of a well-formed held turn. *)
Context (Jexec : ∀ name input w, J w → J (snd (cp_executeTool p name input w)))
  (Jclient : ∀ n params w, sendable (lc_messages params) → J w → J (snd (createMessage n params w)))
  (Juuid : ∀ w, J w → J (snd (newUUID w)))
  (Jpersist : ∀ id st w, held_ok st → J w → J (snd (persist p id st w))).

(** Nothing but the provider can fail. *)
Definition calm : Prop :=
  (∀ name input, total (cp_executeTool p name input)) ∧ (∀ id st, total (persist p id st)).

Lemma wire_assistant l content :
  sendable l → result_ids content = [] ∧ forallb said content = true →
  wire (l ++ [Some (mkMessage Assistant (Blocks (assistant_content content)))]) =
  Some (AfterAssistant (tu_id <$> tool_uses content)).
Proof.
  intros Hl [Hr Hs]. rewrite wire_snoc, Hl. destruct content as [|b content]; [done|].
  change (_ ≫= _) with
    (if bool_decide (result_ids (b :: content) = []) && forallb said (b :: content)
     then Some (AfterAssistant (use_ids (b :: content))) else None).
  rewrite bool_decide_true, Hs by done. cbn [andb]. do 2 f_equal. symmetry. apply tool_use_ids.
Qed.

Lemma answerCall_spec block result w :
  J w → ∃ a w', answerCall block result w = (Ok a, w') ∧ J w' ∧
    tr_tool_use_id (fst a) = tu_id block ∧
    ∀ calls, settled_calls calls → settled_calls (calls ++ [snd a]).
Proof.
  intros Hw. unfold answerCall, mbind, M_bind.
  assert (∃ c w', classifyToolResult result w = (Ok c, w') ∧ (w' = w ∨ w' = snd (newUUID w)))
    as (c&w'&E&Hw').
  { unfold classifyToolResult, fenceUntrusted, mbind, M_bind, newUUID, mret, M_ret.
    destruct (xo_notConnected result), (xo_needsAuthorization result), (xo_boundaryRefused result),
      (xo_denied result), (xo_success result); do 2 eexists; (split; [reflexivity|]); auto. }
  rewrite E. do 2 eexists. split; [reflexivity|]. split; [|split; [done|]].
  - destruct Hw' as [-> | ->]; auto.
  - intros calls Hc. apply settled_snoc; [done|]. by eapply classify_not_held.
Qed.

Lemma runToolUses_spec owed iterations usage blocks results calls s w :
  wire (cv_messages s) = Some (AfterAssistant owed) →
  owed = (tr_tool_use_id <$> results) ++ (tu_id <$> blocks) →
  0 <= iterations <= MAX_ITERATIONS → settled_calls calls → J w →
  cwp (runToolUses p iterations usage blocks results calls) (λ r s' w', s' = s ∧ J w' ∧
    match r with
    | Ok (DrainDone rs cs) => tr_tool_use_id <$> rs = owed ∧ settled_calls cs
    | Ok (DrainHeld h) => result_ok h ∧ is_Some (lp_held h) ∧ lp_iterations h = iterations
    | Throw _ => ¬ calm
    end) s w.
Proof.
  intros Hs Ho Hi. revert results calls Ho w.
  induction blocks as [|b blocks IH]; intros results calls Ho w Hc Hw; simpl.
  { unfold cwp. simpl. rewrite Ho, app_nil_r. done. }
  apply cwp_bind, cwp_lift. intros r w1 E1.
  assert (J w1) as Hw1 by (eapply (f_equal snd) in E1; simpl in E1; subst; auto).
  destruct r as [result|e].
  2:{ split_and!; [done..|]. intros [Ht _]. destruct (Ht (tu_name b) (tu_input b) w) as (?&?&E).
      by rewrite E in E1. }
  destruct (xo_held result).
  - set (st := mkHeldTurn (cv_messages s) b blocks results iterations
      (calls ++ [call_record (tu_name b) (tu_id b) TC_held None]) usage).
    assert (held_ok st) as Hst by (split; [rewrite Ho in Hs; exact Hs|done|by exists calls]).
    apply cwp_bind. unfold getMessages at 1, cwp at 1. apply cwp_bind, cwp_lift. intros r w2 E2.
    assert (J w2) as Hw2 by (eapply (f_equal snd) in E2; simpl in E2; subst; auto).
    destruct r as [[]|e].
    + unfold cwp. simpl. split_and!; [done..| |done|done]. exists b, calls. done.
    + split_and!; [done..|]. intros [_ Ht].
      destruct (Ht (default (tu_id b) (xo_heldCallId result)) st w1) as (?&?&E). unfold st in E. by rewrite E in E2.
  - destruct (answerCall_spec b result w1 Hw1) as ([a c]&w2&E2&Hw2&Hid&Hcs).
    apply cwp_bind, cwp_lift. intros r w2' E2'. rewrite E2 in E2'. simplify_eq/=.
    apply IH; [|auto|done]. by rewrite fmap_app, <- app_assoc, <- Hid.
Qed.

Lemma llmLoop_spec rollback fuel calls usage s w :
  sendable (cv_messages s) →
  Forall (sendable ∘ lc_messages) (cv_requests s) → settled_calls calls →
  (fuel <= Z.to_nat MAX_ITERATIONS)%nat → J w →
  cwp (llmLoop p rollback fuel calls usage) (λ r s' w', J w' ∧
    ((rollback <= length (cv_messages s))%nat ∨ (∃ res, r = Ok res) → wire_ok (cv_messages s')) ∧
    ∃ sent, cv_requests s' = cv_requests s ++ sent ∧ (length sent <= fuel)%nat ∧
      Forall (sendable ∘ lc_messages) sent ∧
      match r with
      | Ok res => result_ok res ∧ lp_iterations res = MAX_ITERATIONS - Z.of_nat fuel + Z.of_nat (length sent)
      | Throw _ => calm → (rollback <= length (cv_messages s))%nat → cv_messages s' = take rollback (cv_messages s)
      end) s w.
Proof.
  revert calls usage s w. induction fuel as [|fuel IH]; intros calls usage s w Hs Hq Hc Hf Hw; simpl.
  { unfold cwp. simpl. split_and!; [done|by eexists|]. exists []. rewrite app_nil_r.
    split_and!; [done|simpl; lia|done|done|simpl; lia]. }
  set (i := MAX_ITERATIONS - _).
  apply cwp_bind. unfold getMessages at 1, cwp at 1.
  apply cwp_bind, cwp_attempt, cwp_send. intros r w1 E1.
  set (q := request p (cv_messages s)) in *.
  assert (J w1) as Hw1 by (eapply (f_equal snd) in E1; simpl in E1; subst; auto).
  destruct r as [resp|e].
  2:{ unfold cwp. simpl. split_and!; [done| |exists [q]; split_and!; [done|simpl; lia|by constructor|]].
      - intros [Hr|[? ?]]; [|done]. rewrite resize_le by lia. apply wire_ok_take. by eexists.
      - intros _ Hr. by rewrite resize_le by lia. }
  pose proof (client_blocks _ _ _ _ _ E1) as Hb.
  apply cwp_bind. unfold push at 1, setMessages at 1, cwp at 1. simpl.
  pose proof (wire_assistant _ _ Hs Hb) as Ha.
  set (s2 := mkConv (cv_messages s ++ _) (cv_requests s ++ [q])) in *.
  assert (∀ r s' w', J w' → s' = s2 → match r with
      | Ok res => result_ok res ∧ lp_iterations res = i + 1 | Throw _ => ¬ calm end →
    J w' ∧ ((rollback <= length (cv_messages s))%nat ∨ (∃ res, r = Ok res) → wire_ok (cv_messages s')) ∧
    ∃ sent, cv_requests s' = cv_requests s ++ sent ∧
      (length sent <= S fuel)%nat ∧ Forall (sendable ∘ lc_messages) sent ∧
      match r with
      | Ok res => result_ok res ∧ lp_iterations res = i + Z.of_nat (length sent)
      | Throw _ => calm → (rollback <= length (cv_messages s))%nat → cv_messages s' = take rollback (cv_messages s)
      end) as Hdone.
  { intros r s' w' HJ -> Hr'. split_and!; [done|intros _; by eexists|]. exists [q].
    split_and!; [done|simpl; lia|by constructor|]. destruct r; [done|]. by intros Hk. }
  destruct (negb _ || _) eqn:Estop; [by apply (Hdone (Ok _))|].
  apply cwp_bind. eapply cwp_mono.
  { apply (runToolUses_spec _ (i + 1) _ _ _ _ s2 w1 Ha); [done|unfold MAX_ITERATIONS in *; lia|done|done]. }
  intros [[h|rs cs]|e] s' w2 (->&Hw2&Hd);
    [by apply Hdone; naive_solver| |by apply (Hdone (Throw e))].
  destruct Hd as [Hids Hcs]. apply cwp_bind. unfold push at 1, setMessages at 1, cwp at 1.
  assert (rs ≠ []) as Hne.
  { intros ->. destruct (tool_uses (lr_content resp)); [|done].
    simpl in Estop. by rewrite orb_true_r in Estop. }
  eapply cwp_mono.
  { apply IH; [by apply (wire_answers _ _ _ Ha)|apply Forall_app; split; [done|by constructor]|done|lia|done]. }
  intros r s'' w3 (HJ&Hwok&sent&Eq&Hlen&Hsent&Hr'). subst s2. cbn [cv_messages] in Hwok, Hr'.
  rewrite <- (assoc_L (++)) in Hwok, Hr'.
  split_and!; [done|intros [Hn|?]; apply Hwok; [left; rewrite length_app; lia|by right]|].
  exists (q :: sent). simpl in Eq. rewrite <- app_assoc in Eq. split_and!; [done|simpl; lia|by constructor|].
  destruct r as [res|e].
  - destruct Hr' as [? ->]. split; [done|]. simpl. lia.
  - intros Hcalm Hn. rewrite (Hr' Hcalm), take_app_le by (rewrite ?length_app; lia). done.
Qed.

(** ** Whole turns *)

(** The buffer and the held turn a turn may start from. *)
Definition ready (s : Conv) : Prop :=
  match cp_resumeState p with
  | None => settled (cv_messages s) ∧ cp_userMessage p ≠ []
  | Some r =>
      held_ok (rs_state r) ∧
      tr_tool_use_id (rs_resolvedResult r) = tu_id (ht_heldCall (rs_state r)) ∧
      rs_resolvedOutcome r ≠ TC_held
  end.
(** The buffer is not longer than the held conversation with its answer: there is no
    message to roll back to that a resumed turn does not hold. *)
Definition room_for (s : Conv) : Prop :=
  match cp_resumeState p with
  | None => True
  | Some r => (length (cv_messages s) <= S (length (ht_messages (rs_state r))))%nat
  end.
(** The requests the turn has sent before this run of the loop. *)
Definition spent_before : Z :=
  match cp_resumeState p with None => 0 | Some r => ht_iterationsUsed (rs_state r) end.
(** The messages a failed turn goes back to. *)
Definition turn_start (s : Conv) : list slot :=
  match cp_resumeState p with
  | None => cv_messages s
  | Some r => take (length (cv_messages s)) (ht_messages (rs_state r))
  end.

(** What one run of the loop does to the conversation. *)
Definition turn_post (s : Conv) (r : res ConversationLoopResult) (s' : Conv) : Prop :=
  (room_for s ∨ (∃ res, r = Ok res) → wire_ok (cv_messages s')) ∧
  ∃ sent, cv_requests s' = cv_requests s ++ sent ∧
    Forall (sendable ∘ lc_messages) sent ∧
    spent_before + Z.of_nat (length sent) <= MAX_ITERATIONS ∧
    match r with
    | Ok res => result_ok res ∧ lp_iterations res = spent_before + Z.of_nat (length sent)
    | Throw _ => calm →
        (length (cv_messages s) <= length (turn_start s))%nat → cv_messages s' = turn_start s
    end.

Lemma resumed_calls b calls record :
  held_calls b calls → closed_name (tc_name record) → tc_outcome record ≠ TC_held →
  settled_calls (replaceHeld (tu_id b) record
    ((λ c, mkCall (recordToolName (tc_name c)) (tc_id c) (tc_outcome c) (tc_error c)) <$> calls)).
Proof.
  intros (earlier&->&He) Hn Ho. rewrite fmap_app.
  set (resolved := (λ c, _) : ToolCallRecord → ToolCallRecord).
  assert (settled_calls (resolved <$> earlier)) as Hr.
  { apply Forall_fmap. eapply Forall_impl; [exact He|]. intros c [_ Hc].
    split; [apply closed_recordToolName|done]. }
  simpl. induction Hr as [|c l [Hc1 Hc2] _ IH]; simpl.
  - rewrite bool_decide_true by done. by constructor.
  - rewrite bool_decide_false by naive_solver. constructor; [done|exact IH].
Qed.

Lemma fresh_turn s w :
  cp_resumeState p = None → ready s → Forall (sendable ∘ lc_messages) (cv_requests s) → J w →
  cwp (runConversationLoop p) (λ r s' w', turn_post s r s' ∧ J w') s w.
Proof.
  unfold ready, turn_post, room_for, spent_before, turn_start. intros E. rewrite E. intros Hs Hq Hw.
  unfold runConversationLoop. apply cwp_bind. unfold getMessages at 1, cwp at 1. rewrite E.
  apply cwp_bind. unfold push, setMessages at 1, cwp at 1.
  eapply cwp_mono.
  { apply llmLoop_spec; [by apply settled_prose; apply Hs|done|by constructor|done|done]. }
  assert (length (cv_messages s) <= length (cv_messages s ++ [Some (mkMessage User (Prose (cp_userMessage p)))]))%nat as Hl
    by (rewrite length_app; lia).
  intros r s' w' (HJ&Hwok&sent&Eq&Hlen&Hsent&Hr).
  split; [|done]. split; [intros _; apply Hwok; by left|]. exists sent. unfold MAX_ITERATIONS in *.
  split_and!; [done|done|lia|]. destruct r as [res|e].
  - destruct Hr as [? ->]. split; [done|lia].
  - intros Hc _. rewrite (Hr Hc Hl). cbn [cv_messages]. by rewrite take_app_length.
Qed.

Lemma resumed_turn t s w :
  cp_resumeState p = Some t → ready s → Forall (sendable ∘ lc_messages) (cv_requests s) → J w →
  cwp (runConversationLoop p) (λ r s' w', turn_post s r s' ∧ J w') s w.
Proof.
  unfold ready, turn_post, room_for, spent_before, turn_start. intros E. rewrite E.
  intros ([Howed Hb Hcalls]&Hid&Ho) Hq Hw.
  unfold runConversationLoop. apply cwp_bind. unfold getMessages at 1, cwp at 1. rewrite E.
  unfold answerAndDrainParkedCalls. apply cwp_bind, cwp_bind. unfold setMessages at 1, cwp at 1.
  apply cwp_bind. eapply cwp_mono.
  { apply (runToolUses_spec _ _ _ _ _ _ (mkConv (ht_messages (rs_state t)) (cv_requests s)) w Howed);
      [|done| |done].
    - by rewrite fmap_app, <- app_assoc, <- Hid.
    - apply resumed_calls; [done|apply closed_recordToolName|done]. }
  intros [[h|rs cs]|e] s1 w1 (->&Hw1&Hd).
  - unfold cwp. simpl. destruct Hd as (Hh&_&->). split; [|done]. split; [intros _; by eexists|].
    exists []. rewrite app_nil_r. split_and!; [done|done|simpl; lia|done|simpl; lia].
  - destruct Hd as [Hids Hcs]. apply cwp_bind. unfold push at 1, setMessages at 1, cwp at 1.
    unfold cwp at 1. simpl. unfold cwp at 1. simpl.
    eapply cwp_mono.
    { apply llmLoop_spec; [|done|done| |done].
      - apply (wire_answers _ _ _ Howed); [|done]. intros ->. symmetry in Hids.
        by destruct (tr_tool_use_id <$> ht_producedResults (rs_state t)).
      - unfold MAX_ITERATIONS in *. lia. }
    intros r s' w' (HJ&Hwok&sent&Eq&Hn&Hsent&Hr). split; [|done]. cbn [cv_messages] in Hwok, Hr.
    split; [intros [Hl|?]; apply Hwok; [left; rewrite length_app; simpl; lia|by right]|].
    exists sent. split_and!; [done|done|lia|]. destruct r as [res|e].
    + destruct Hr as [? ->]. split; [done|lia].
    + intros Hc Hl. rewrite length_take in Hl.
      rewrite (Hr Hc), take_app_le by (rewrite ?length_app; lia). done.
  - unfold cwp. simpl. split; [|done]. split; [intros _; by eexists|]. exists []. rewrite app_nil_r.
    split_and!; [done|done|simpl; lia|done].
Qed.

Lemma turn_spec s w :
  ready s → Forall (sendable ∘ lc_messages) (cv_requests s) → J w →
  cwp (runConversationLoop p) (λ r s' w', turn_post s r s' ∧ J w') s w.
Proof.
  destruct (cp_resumeState p) as [t|] eqn:E; [by apply (resumed_turn t)|by apply fresh_turn].
Qed.
End run.

Lemma turn_run p s w :
  ready p s → Forall (sendable ∘ lc_messages) (cv_requests s) →
  let '(r, s', _) := runConversationLoop p s w in turn_post p s r s'.
Proof.
  intros Hs Hq. pose proof (turn_spec p (λ _, True)) as Ht. unfold cwp in Ht.
  specialize (Ht ltac:(done) ltac:(done) ltac:(done) ltac:(done) s w Hs Hq I).
  destruct (runConversationLoop p s w) as [[r s'] w']. apply Ht.
Qed.
End turns.

(** ** Properties *)

Section properties.
Context `{Platform} `{Catalog} `{!LLMClient} `{!LLMLaws _}.
Implicit Types (p : ConversationLoopParams).


(** A turn that the provider fails - the tools and the store do not - leaves the
    buffer as it was before the turn, or, for a resumed turn whose buffer is still
    the held conversation, as that conversation. *)
Theorem failed_turn_restores p s w e s' w' :
  ready p s → Forall (sendable ∘ lc_messages) (cv_requests s) → calm p →
  (∀ t, cp_resumeState p = Some t → cv_messages s = ht_messages (rs_state t)) →
  runConversationLoop p s w = (Throw e, s', w') →
  cv_messages s' = cv_messages s.
Proof.
  intros Hs Hq Hc Hwarm E. pose proof (turn_run p s w Hs Hq) as Hp. rewrite E in Hp. destruct Hp as (_&sent&_&_&_&Hr).
  assert (turn_start p s = cv_messages s) as Hst.
  { unfold turn_start. destruct (cp_resumeState p) as [t|] eqn:Et; [|done].
    rewrite (Hwarm t eq_refl). by rewrite firstn_all. }
  rewrite Hst in Hr. by apply Hr.
Qed.

(** A held turn is only ever stored with every tool call of its last message
    accounted for - answered, held or parked, in order - with its budget within
    bounds and with exactly its held call recorded as [held]: an invariant that
    storing such turns keeps is kept by the turn. *)
Theorem stored_holds_account p (J : World → Prop) s w :
  (∀ name input w, J w → J (snd (cp_executeTool p name input w))) →
  (∀ n params w, sendable (lc_messages params) → J w → J (snd (createMessage n params w))) →
  (∀ w, J w → J (snd (newUUID w))) →
  (∀ id st w, held_ok st → J w → J (snd (persist p id st w))) →
  ready p s → Forall (sendable ∘ lc_messages) (cv_requests s) → J w →
  J (snd (runConversationLoop p s w)).
Proof.
  intros He Hc Hu Hp Hs Hq Hw. pose proof (turn_spec p J He Hc Hu Hp s w Hs Hq Hw) as Ht.
  unfold cwp in Ht. destruct (runConversationLoop p s w) as [[r s'] w']. apply Ht.
Qed.

(** Resuming a held turn into a buffer that has grown past the held conversation,
    with the provider failing, leaves a buffer with a hole in it, which no message
    repairs: every later request of the conversation is refused. *)
Theorem long_buffer_resume_leaves_hole p t s w e w' :
  cp_resumeState p = Some t → ht_parkedCalls (rs_state t) = [] →
  ht_iterationsUsed (rs_state t) < MAX_ITERATIONS →
  (S (length (ht_messages (rs_state t))) < length (cv_messages s))%nat →
  (∀ n params, createMessage n params w = (Throw e, w')) →
  ∃ s', runConversationLoop p s w = (Throw e, s', w') ∧
    length (cv_messages s') = length (cv_messages s) ∧
    ∀ later, ¬ wire_ok (cv_messages s' ++ later).
Proof.
  intros E Hp Hb Hl Hc.
  set (rs := ht_producedResults (rs_state t) ++ [rs_resolvedResult t]).
  set (msgs := ht_messages (rs_state t) ++ [Some (mkMessage User (Blocks (ToolResult <$> rs)))]).
  exists (mkConv (resize (length (cv_messages s)) None msgs) (cv_requests s ++ [request p msgs])).
  split_and!.
  - unfold runConversationLoop, getMessages, mbind, C_bind. rewrite E.
    unfold answerAndDrainParkedCalls, setMessages, push, mbind, C_bind. rewrite Hp. simpl.
    destruct (Z.to_nat (MAX_ITERATIONS - _)) eqn:En; [unfold MAX_ITERATIONS in *; lia|]. simpl.
    unfold mbind, C_bind, attempt, send, getMessages. simpl. rewrite Hc. done.
  - simpl. by rewrite length_resize.
  - intros later [Hh _]%wire_ok_no_hole%Forall_app. simpl in Hh.
    assert (length msgs = S (length (ht_messages (rs_state t)))) as Hm
      by (unfold msgs; rewrite length_app; simpl; lia).
    rewrite resize_ge in Hh by lia. apply Forall_app in Hh as [_ Hh].
    destruct (length (cv_messages s) - length msgs)%nat eqn:Ed; [lia|].
    simpl in Hh. apply Forall_cons in Hh as [[? ?] _]. done.
Qed.

(** A held turn read back from the row it was stored in is the turn that was
    stored, whatever members the row has gained since, and so is its answer. *)
Theorem held_turn_roundtrip st origin extra a :
  let stored := set_field (js "origin") (JStr (run_origin_text origin)) (turn_fields st) ++ extra in
  parseTurnState (wrapTurnState (JObj stored)) = TurnOk (JObj stored) ∧
  read_turn (JObj stored) = Some st ∧
  read_answered (answered_json a) = Some a ∧
  (member (js "origin") (JObj stored) ≫= as_str) ≫= parse_run_origin = Some origin.
Proof.
  cbv zeta. change (set_field _ _ _) with (turn_fields st ++ [(js "origin", JStr (run_origin_text origin))]).
  rewrite <- app_assoc. split_and!.
  - done.
  - apply read_turn_fields.
  - apply read_answered_json.
  - by destruct origin.
Qed.
End properties.
