(* ===== verification/Adapter.v ===== *)
(** * The provider adapters: [packages/engine/src/llm/]

    The selection of a provider from the deployment's environment, the
    OpenAI-compatible adapter's two mappings and its classification of failures.
    The file proves that a request the conversation loop may send is one the
    chat-completions wire accepts, and that what the adapter returns is what the
    loop relies on. *)

From S2P Require Export Conversation.
Open Scope Z_scope.

(** ** Selection: [create-llm-client.ts] *)

Inductive provider := P_anthropic | P_openai_compatible.
Record LLMConfig := mkConfig {
  lg_provider : provider;
  lg_model : jsstr;
  lg_maxTokens : Z;
  lg_endpoint : option jsstr;
  lg_apiKey : option jsstr;
}.
Record LLMEnv := mkEnv {
  env_LLM_PROVIDER : option jsstr;
  env_LLM_MODEL : option jsstr;
  env_LLM_ENDPOINT : option jsstr;
  env_LLM_API_KEY : option jsstr;
  env_ANTHROPIC_API_KEY : option jsstr;
}.
Definition DEFAULT_ANTHROPIC_MODEL : jsstr := js "claude-sonnet-4-6".
Definition DEFAULT_MAX_TOKENS : Z := 1024.

(** [inl] is the error it throws. *)
Definition readLLMConfig (env : LLMEnv) : jsstr + LLMConfig :=
  let provider := default (js "anthropic") (env_LLM_PROVIDER env) in
  if bool_decide (provider = js "anthropic") then
    inr (mkConfig P_anthropic (default DEFAULT_ANTHROPIC_MODEL (env_LLM_MODEL env)) DEFAULT_MAX_TOKENS
      None (match env_ANTHROPIC_API_KEY env with Some k => Some k | None => env_LLM_API_KEY env end))
  else if bool_decide (provider = js "openai-compatible") then
    match truthy_str (env_LLM_ENDPOINT env), truthy_str (env_LLM_MODEL env) with
    | None, _ => inl (js "LLM_PROVIDER=openai-compatible requires LLM_ENDPOINT")
    | _, None => inl (js "LLM_PROVIDER=openai-compatible requires LLM_MODEL")
    | Some endpoint, Some model =>
        inr (mkConfig P_openai_compatible model DEFAULT_MAX_TOKENS (Some endpoint) (env_LLM_API_KEY env))
    end
  else inl (js "Unknown LLM_PROVIDER " ++ [34%N] ++ provider ++ [34%N] ++ js " " ++ [8212%N] ++
            js " expected " ++ [34%N] ++ js "anthropic" ++ [34%N] ++ js " or " ++ [34%N] ++
            js "openai-compatible" ++ [34%N]).

(** The error of [createLLMClient], if it throws. *)
Definition createLLMClient (config : LLMConfig) : option jsstr :=
  match lg_provider config with
  | P_anthropic =>
      match truthy_str (lg_apiKey config) with
      | Some _ => None
      | None => Some (js "Anthropic provider requires an API key (ANTHROPIC_API_KEY or LLM_API_KEY)")
      end
  | P_openai_compatible =>
      match truthy_str (lg_endpoint config) with
      | Some _ => None
      | None => Some (js "openai-compatible provider requires an endpoint")
      end
  end.

(** ** Errors: [errors.ts] *)

(** Three kinds reach the boundary: retryable, unusable, and the engine's own. *)
Inductive llm_error := UpstreamLLMError | UpstreamResponseError (message : jsstr) | PlainError.

Definition UPSTREAM_UNAVAILABLE_MESSAGE : jsstr := js "The assistant is temporarily unavailable".
Definition UPSTREAM_INVALID_RESPONSE_MESSAGE : jsstr :=
  js "The assistant returned a response Habenula could not use".
Definition isRetryableLLMStatus (status : option Z) : bool :=
  match status with None => true | Some s => (s =? 408) || (s =? 429) || (500 <=? s) end.

(** ** The chat-completions wire *)

Record WireToolCall := mkWireCall { wc_id : jsstr; wc_name : jsstr; wc_arguments : jsstr }.
Inductive wire_role := WR_system | WR_user | WR_assistant.
#[export] Instance wire_role_eq_dec : EqDecision wire_role.
Proof. solve_decision. Defined.
Inductive WireMessage :=
  | WText (role : wire_role) (content : jsstr)
  | WAssistant (content : option jsstr) (tool_calls : list WireToolCall)
  | WTool (content tool_call_id : jsstr).

Definition textOf (blocks : list LLMContentBlock) : jsstr := text_of blocks.

Definition wire_calls (blocks : list LLMContentBlock) : list WireToolCall :=
  (λ u, mkWireCall (tu_id u) (tu_name u) (JSON_stringify (JObj (tu_input u)))) <$> tool_uses blocks.
Definition wire_tools_of (blocks : list LLMContentBlock) : list WireMessage :=
  omap (λ b, match b with
             | ToolResult r => Some (WTool
                 (if default false (tr_is_error r) then js "[tool error] " ++ tr_content r else tr_content r)
                 (tr_tool_use_id r))
             | _ => None
             end) blocks.

(** What [pushWireMessages] adds for one message. *)
Definition pushWireMessages (message : LLMMessage) : list WireMessage :=
  match m_content message with
  | Prose s => [WText (match m_role message with User => WR_user | Assistant => WR_assistant end) s]
  | Blocks blocks =>
      match m_role message with
      | Assistant =>
          [WAssistant (match textOf blocks with [] => None | t => Some t end) (wire_calls blocks)]
      | User =>
          wire_tools_of blocks ++
          match textOf blocks with [] => [] | t => [WText WR_user t] end
      end
  end.

(** The messages of a request; [None] where reading a hole throws. *)
Definition toWireMessages (params : LLMCreateParams) : option (list WireMessage) :=
  ms ← mapM id (lc_messages params);
  Some ((match lc_system params with Some s => [WText WR_system s] | None => [] end) ++
        mjoin (pushWireMessages <$> ms)).

(** What the wire requires: the tool calls of an assistant message are answered by
    the [tool] messages that directly follow it, and what the user or the assistant
    sends says something or calls a tool. *)
Definition chat_step (owed : list jsstr) (m : WireMessage) : option (list jsstr) :=
  match m, owed with
  | WTool _ id, id' :: owed' => if decide (id = id') then Some owed' else None
  | WTool _ _, [] => None
  | WText WR_user [], _ | WText WR_assistant [], _ => None
  | WText _ _, [] => Some []
  | WAssistant None [], _ | WAssistant (Some []) [], _ => None
  | WAssistant _ calls, [] => Some (wc_id <$> calls)
  | _, _ :: _ => None
  end.
Fixpoint chat_from (owed : list jsstr) (l : list WireMessage) : option (list jsstr) :=
  match l with [] => Some owed | m :: l' => o ← chat_step owed m; chat_from o l' end.
(** An acceptable request: from no message to no call left unanswered. *)
Definition chat_accepts (l : list WireMessage) : Prop := chat_from [] l = Some [].

(** What some wire messages say: the text under a role, the calls made and the answers
    given, in order. *)
Definition wire_said (role : wire_role) (l : list WireMessage) : jsstr :=
  mjoin (omap (λ m, match m with
    | WText r s => if decide (r = role) then Some s else None
    | WAssistant (Some s) _ => if decide (role = WR_assistant) then Some s else None
    | _ => None end) l).
Definition wire_called (l : list WireMessage) : list WireToolCall :=
  mjoin ((λ m, match m with WAssistant _ calls => calls | _ => [] end) <$> l).
Definition wire_answered (l : list WireMessage) : list (jsstr * jsstr) :=
  omap (λ m, match m with WTool content id => Some (id, content) | _ => None end) l.

(** The blocks of a message, prose being one block of text. *)
Definition blocks_of (m : LLMMessage) : list LLMContentBlock :=
  match m_content m with Prose s => [TextBlock s] | Blocks l => l end.
Definition other_role (r : llm_role) : wire_role := match r with User => WR_assistant | Assistant => WR_user end.
Definition same_role (r : llm_role) : wire_role := match r with User => WR_user | Assistant => WR_assistant end.
Definition results_said (l : list LLMContentBlock) : list (jsstr * jsstr) :=
  omap (λ b, match b with
    | ToolResult r => Some (tr_tool_use_id r,
        if default false (tr_is_error r) then js "[tool error] " ++ tr_content r else tr_content r)
    | _ => None end) l.

(** Wire messages that carry a message: its whole text under its role and none under the
    other, its tool calls with their input as JSON text, its answers. *)
Record carries (m : LLMMessage) (l : list WireMessage) : Prop := {
  cr_said : wire_said (same_role (m_role m)) l = text_of (blocks_of m);
  cr_silent : wire_said (other_role (m_role m)) l = [];
  cr_called : wire_called l =
    (λ u, mkWireCall (tu_id u) (tu_name u) (JSON_stringify (JObj (tu_input u)))) <$> tool_uses (blocks_of m);
  cr_answered : wire_answered l = results_said (blocks_of m);
}.

(** ** The response mapping *)

(** A response body as the wire declares it; the arguments of a call are a text
    that should hold JSON. *)
Record WireReplyCall := mkReplyCall { wr_id : jsstr; wr_name : jsstr; wr_arguments : json_text }.
Inductive WireContent := WC_text (s : jsstr) | WC_parts (parts : list (jsstr * option jsstr)) | WC_none.
Record WireChoice := mkChoice {
  wh_content : WireContent;
  wh_tool_calls : list WireReplyCall;
  wh_finish_reason : option jsstr;
}.
Record WireResponse := mkWireResponse {
  wp_message : option WireChoice;
  wp_prompt_tokens : option Z;
  wp_completion_tokens : option Z;
}.

Definition toCanonicalStopReason (reason : option jsstr) : option stop_reason :=
  match reason with
  | None => None
  | Some r =>
      if decide (r = js "stop") then Some SR_end_turn
      else if decide (r = js "tool_calls") then Some SR_tool_use
      else if decide (r = js "length") then Some SR_max_tokens
      else None
  end.

Definition responseText (c : WireContent) : jsstr :=
  match c with
  | WC_text s => s
  | WC_parts parts =>
      mjoin (omap (λ part, if decide (fst part = js "text") then snd part else None) parts)
  | WC_none => []
  end.

Definition parseToolArguments (call : WireReplyCall) : llm_error + fields :=
  match JSON_parse (wr_arguments call) with
  | None => inl (UpstreamResponseError (js "Model returned malformed JSON arguments for tool " ++
                  [34%N] ++ wr_name call ++ [34%N]))
  | Some (JObj fs) => inr fs
  | Some _ => inl (UpstreamResponseError (js "Model returned non-object arguments for tool " ++
                    [34%N] ++ wr_name call ++ [34%N]))
  end.
Fixpoint reply_calls (calls : list WireReplyCall) : llm_error + list LLMContentBlock :=
  match calls with
  | [] => inr []
  | call :: rest =>
      match parseToolArguments call with
      | inl e => inl e
      | inr input =>
          match reply_calls rest with
          | inl e => inl e
          | inr blocks => inr (ToolUse (mkToolUse (wr_id call) (wr_name call) input) :: blocks)
          end
      end
  end.

Definition toCanonicalResponse (wire : WireResponse) : llm_error + LLMResponse :=
  match wp_message wire with
  | None => inl (UpstreamResponseError (js "chat/completions response carried no choices[0].message"))
  | Some choice =>
      match reply_calls (wh_tool_calls choice) with
      | inl e => inl e
      | inr calls =>
          let text := responseText (wh_content choice) in
          inr (mkResponse
            ((match text with [] => [] | _ => [TextBlock text] end) ++ calls)
            (match wh_tool_calls choice with
             | _ :: _ => Some SR_tool_use
             | [] => if bool_decide (wh_finish_reason choice = Some (js "tool_calls")) then None
                     else toCanonicalStopReason (wh_finish_reason choice)
             end)
            (mkUsage (default 0 (wp_prompt_tokens wire)) (default 0 (wp_completion_tokens wire))))
      end
  end.

(** What the transport answers: no response, or a status with its body, [None]
    where the body is not JSON. *)
Inductive FetchResult := Unreachable | Status (code : Z) (body : option WireResponse).

(** [createMessage] on an answer of the transport. *)
Definition readReply (r : FetchResult) : llm_error + LLMResponse :=
  match r with
  | Unreachable => inl UpstreamLLMError
  | Status code body =>
      if (300 <=? code) && (code <? 400) then inl PlainError
      else if negb ((200 <=? code) && (code <? 300)) then
        inl (if isRetryableLLMStatus (Some code) then UpstreamLLMError else PlainError)
      else
        match body with
        | None => inl (UpstreamResponseError UPSTREAM_INVALID_RESPONSE_MESSAGE)
        | Some wire => toCanonicalResponse wire
        end
  end.

(** The text the error carries; the engine's own errors describe the status. *)
Definition llm_exn (e : llm_error) : exn :=
  match e with
  | UpstreamLLMError => Exn UPSTREAM_UNAVAILABLE_MESSAGE
  | UpstreamResponseError m => Exn m
  | PlainError => Exn (js "chat/completions")
  end.
(** Reading a hole of the messages: [message.content] of [undefined]. *)
Definition TypeError : exn := Exn (js "Cannot read properties of undefined (reading 'content')").

(** The adapter over a transport, which is awaited. *)
Definition openAICompatibleClient (fetch : nat → list WireMessage → LLMCreateParams → M FetchResult)
    : LLMClient := λ n params,
  match toWireMessages params with
  | None => throw TypeError
  | Some messages =>
      reply ← fetch n messages params;
      match readReply reply with
      | inl e => throw (llm_exn e)
      | inr response => mret response
      end
  end.

(** ** The two mappings are sound *)

Definition owed_of (st : wire_state) : list jsstr :=
  match st with AfterUser => [] | AfterAssistant owed => owed end.

Lemma chat_from_app owed l k : chat_from owed (l ++ k) = chat_from owed l ≫= λ o, chat_from o k.
Proof.
  revert owed. induction l as [|m l IH]; intros owed; simpl; [done|].
  destruct (chat_step owed m); simpl; auto.
Qed.
Lemma chat_tools blocks rest : chat_from (result_ids blocks ++ rest) (wire_tools_of blocks) = Some rest.
Proof.
  induction blocks as [|[t|u|r] l IH]; [done|exact IH..|].
  change (chat_from (tr_tool_use_id r :: result_ids l ++ rest) (WTool
    (if default false (tr_is_error r) then js "[tool error] " ++ tr_content r else tr_content r)
    (tr_tool_use_id r) :: wire_tools_of l) = Some rest).
  cbn [chat_from chat_step]. by rewrite decide_True by done.
Qed.
Lemma wire_call_ids blocks : wc_id <$> wire_calls blocks = use_ids blocks.
Proof.
  unfold wire_calls. rewrite <- list_fmap_compose. apply tool_use_ids.
Qed.
(** An assistant message that is accepted says something or calls a tool. *)
Lemma speaks b l :
  result_ids (b :: l) = [] → forallb said (b :: l) = true →
  textOf (b :: l) ≠ [] ∨ wire_calls (b :: l) ≠ [].
Proof.
  intros Hr [Hs _]%andb_true_iff. destruct b as [[|c t]|u|r]; [done|by left|by right|done].
Qed.

Lemma push_accepted st m st' :
  wire_step st (Some m) = Some st' → chat_from (owed_of st) (pushWireMessages m) = Some (owed_of st').
Proof.
  destruct m as [[] [text|blocks]]; unfold pushWireMessages; cbn [m_role m_content wire_step].
  - case_bool_decide as Hb; [|done]. intros [= <-]. destruct Hb as [Ht Ho].
    replace (owed_of st) with (@nil jsstr) by by destruct st. by destruct text.
  - destruct blocks as [|b l]; [done|]. destruct (_ && _) eqn:E; [|done]. intros [= <-].
    apply andb_true_iff in E as [[_ Hr]%bool_decide_eq_true _].
    assert (owed_of st = result_ids (b :: l)) as -> by by destruct st.
    rewrite chat_from_app, <- (app_nil_r (result_ids (b :: l))), chat_tools. cbn [mbind option_bind].
    by destruct (textOf (b :: l)) as [|c t].
  - destruct st; [|done]. case_bool_decide as Ht; [|done]. intros [= <-]. by destruct text.
  - destruct st; [|done]. destruct blocks as [|b l]; [done|]. destruct (_ && _) eqn:E; [|done].
    intros Est. assert (st' = AfterAssistant (use_ids (b :: l))) as -> by congruence.
    apply andb_true_iff in E as [Hr%bool_decide_eq_true Hs].
    pose proof (speaks b l Hr Hs) as Hp. pose proof (wire_call_ids (b :: l)) as Hi.
    cbn [owed_of]. rewrite <- Hi. revert Hp. generalize (textOf (b :: l)) (wire_calls (b :: l)).
    intros [|c t] [|call calls] [Hp|Hp]; done.
Qed.

Lemma wire_said_app role l k : wire_said role (l ++ k) = wire_said role l ++ wire_said role k.
Proof. unfold wire_said. by rewrite omap_app, join_app. Qed.
Lemma wire_called_app l k : wire_called (l ++ k) = wire_called l ++ wire_called k.
Proof. unfold wire_called. by rewrite fmap_app, join_app. Qed.
Lemma wire_answered_app l k : wire_answered (l ++ k) = wire_answered l ++ wire_answered k.
Proof. apply omap_app. Qed.
Lemma tools_silent role l : wire_said role (wire_tools_of l) = [] ∧ wire_called (wire_tools_of l) = [].
Proof. induction l as [|[t|u|r] l [IH1 IH2]]; done. Qed.
Lemma tools_answered l : wire_answered (wire_tools_of l) = results_said l.
Proof.
  induction l as [|[t|u|r] l IH]; [done..|].
  change ((tr_tool_use_id r, if default false (tr_is_error r) then js "[tool error] " ++ tr_content r else tr_content r)
    :: wire_answered (wire_tools_of l) = results_said (ToolResult r :: l)). by rewrite IH.
Qed.
Lemma no_results l : result_ids l = [] → results_said l = [].
Proof. by induction l as [|[t|u|r] l IH]. Qed.
Lemma no_uses l : use_ids l = [] → tool_uses l = [].
Proof. by induction l as [|[t|u|r] l IH]. Qed.

(** An accepted message is carried whole by what is pushed for it. *)
Lemma user_blocks_carried l :
  use_ids l = [] → carries (mkMessage User (Blocks l)) (pushWireMessages (mkMessage User (Blocks l))).
Proof.
  intros Hu. destruct (tools_silent WR_user l) as [Hs Hc]. destruct (tools_silent WR_assistant l) as [Hs' _].
  unfold pushWireMessages, textOf. cbn [m_role m_content].
  split; cbn [m_role same_role other_role blocks_of m_content]; destruct (text_of l);
    rewrite ?wire_said_app, ?wire_called_app, ?wire_answered_app, ?Hs, ?Hs', ?Hc, ?tools_answered, ?(no_uses _ Hu);
    unfold wire_said, wire_called, wire_answered; simpl; rewrite ?app_nil_r; done.
Qed.
Lemma assistant_blocks_carried l :
  result_ids l = [] → carries (mkMessage Assistant (Blocks l)) (pushWireMessages (mkMessage Assistant (Blocks l))).
Proof.
  intros Hr. unfold pushWireMessages, textOf. cbn [m_role m_content].
  split; cbn [m_role same_role other_role blocks_of m_content]; destruct (text_of l);
    rewrite ?(no_results _ Hr); unfold wire_said, wire_called, wire_answered; simpl; rewrite ?app_nil_r; done.
Qed.
Lemma push_carries st m st' : wire_step st (Some m) = Some st' → carries m (pushWireMessages m).
Proof.
  destruct m as [[] [text|blocks]]; cbn [wire_step].
  - intros _. split; simpl; unfold wire_said, text_of; simpl; by rewrite ?app_nil_r.
  - intros E. apply user_blocks_carried. destruct blocks as [|b l]; [done|]. destruct (_ && _) eqn:E'; [|done].
    by apply andb_true_iff in E' as [[Hu _]%bool_decide_eq_true _].
  - intros _. split; simpl; unfold wire_said, text_of; simpl; by rewrite ?app_nil_r.
  - intros E. apply assistant_blocks_carried. destruct st, blocks as [|b l]; try done.
    destruct (_ && _) eqn:E'; [|done]. by apply andb_true_iff in E' as [Hr%bool_decide_eq_true _].
Qed.

Lemma flatten_accepted st l st' :
  wire_from st l = Some st' → ∃ ms, mapM id l = Some ms ∧
    chat_from (owed_of st) (mjoin (pushWireMessages <$> ms)) = Some (owed_of st') ∧
    Forall (λ m, carries m (pushWireMessages m)) ms.
Proof.
  revert st. induction l as [|[m|] l IH]; intros st H.
  - exists []. simpl in *. by simplify_eq.
  - change (wire_step st (Some m) ≫= (λ st1, wire_from st1 l) = Some st') in H.
    apply bind_Some in H as (st1&H1&H2). destruct (IH _ H2) as (ms&Em&Hc&Hk).
    exists (m :: ms). split; [by simpl; rewrite Em|]. split; [|constructor; [by eapply push_carries|done]].
    change (mjoin (pushWireMessages <$> m :: ms)) with
      (pushWireMessages m ++ mjoin (pushWireMessages <$> ms)).
    rewrite chat_from_app, (push_accepted _ _ _ H1). exact Hc.
  - done.
Qed.

(** A hole stops every request that carries it. *)
Lemma hole_refused fetch n params w :
  ¬ Forall is_Some (lc_messages params) →
  openAICompatibleClient fetch n params w = (Throw TypeError, w).
Proof.
  intros Hh. unfold openAICompatibleClient, toWireMessages.
  destruct (mapM id (lc_messages params)) as [ms|] eqn:E; [|done].
  destruct Hh. apply mapM_Some in E. induction E; constructor; [by eexists|done].
Qed.

Lemma reply_calls_blocks calls blocks :
  reply_calls calls = inr blocks →
  result_ids blocks = [] ∧ forallb said blocks = true ∧ length blocks = length calls ∧
  use_ids blocks = wr_id <$> calls.
Proof.
  revert blocks. induction calls as [|call rest IH]; intros blocks E; simpl in E; [by simplify_eq|].
  destruct (parseToolArguments call); [done|]. destruct (reply_calls rest) as [|bs] eqn:Er; [done|].
  simplify_eq. destruct (IH bs eq_refl) as (H1&H2&H3&H4). split_and!; [done|done|simpl; lia|].
  change (wr_id call :: use_ids bs = wr_id call :: (wr_id <$> rest)). by rewrite H4.
Qed.

Lemma readReply_canonical reply r :
  readReply reply = inr r →
  result_ids (lr_content r) = [] ∧ forallb said (lr_content r) = true ∧
  (lr_stop_reason r = Some SR_tool_use ↔ use_ids (lr_content r) ≠ []) ∧
  ∃ code wire choice, reply = Status code (Some wire) ∧ 200 <= code < 300 ∧
    wp_message wire = Some choice ∧ use_ids (lr_content r) = wr_id <$> wh_tool_calls choice.
Proof.
  unfold readReply. destruct reply as [|code body]; [done|].
  destruct (_ && _) eqn:E3; [done|]. destruct (negb _) eqn:E2; [done|].
  destruct body as [wire|]; [|done]. unfold toCanonicalResponse.
  destruct (wp_message wire) as [choice|] eqn:Ew; [|done].
  destruct (reply_calls (wh_tool_calls choice)) as [|calls] eqn:Ec; [done|]. intros [= <-].
  destruct (reply_calls_blocks _ _ Ec) as (H1&H2&H3&H4). cbn [lr_content lr_stop_reason].
  set (text := responseText (wh_content choice)).
  assert (∀ A (f : LLMContentBlock → option A), f (TextBlock text) = None →
    omap f ((match text with [] => [] | _ => [TextBlock text] end) ++ calls) = omap f calls) as Hx.
  { intros A f Hf. destruct text; [done|]. simpl. by rewrite Hf. }
  assert (use_ids ((match text with [] => [] | _ => [TextBlock text] end) ++ calls) =
    wr_id <$> wh_tool_calls choice) as Hu by (unfold use_ids; rewrite Hx by done; exact H4).
  split_and!.
  - unfold result_ids. by rewrite Hx.
  - by destruct text.
  - rewrite Hu. destruct (wh_tool_calls choice); [|done]. simpl. split; [|done].
    case_bool_decide; [done|]. unfold toCanonicalStopReason.
    destruct (wh_finish_reason choice) as [f|]; [|done]. repeat (case_decide; [by try congruence|]). done.
  - exists code, wire, choice. split_and!; try done; apply negb_false_iff, andb_true_iff in E2; lia.
Qed.


(** The adapter keeps the loop's interface. *)
#[export] Instance openAI_laws fetch : LLMLaws (openAICompatibleClient fetch).
Proof.
  intros n params w r w'. unfold createMessage, openAICompatibleClient, mbind, M_bind.
  destruct (toWireMessages params); [|done]. destruct (fetch n l params w) as [[reply|e] w1]; [|done].
  destruct (readReply reply) as [e|response] eqn:E; [done|]. intros [= <- <-].
  by destruct (readReply_canonical _ _ E) as (?&?&_).
Qed.

(** ** Properties *)

(** C35: a request the conversation loop may send is accepted by the
    chat-completions wire, and arrives whole. It flattens without an error to the
    system prompt followed by one group of wire messages per message, in order; each
    group carries its message - all its text under its role and none under the other,
    its tool calls with their input as JSON text, its tool results under their call
    identifiers - and in the whole each tool call of an assistant message is answered
    by the [tool] messages that directly follow it, in order, no [tool] message stands
    elsewhere, and every user or assistant message has text or a tool call. *)
Theorem request_flattens_accepted params :
  sendable (lc_messages params) →
  ∃ ms groups messages, mapM id (lc_messages params) = Some ms ∧ toWireMessages params = Some messages ∧
    messages = (match lc_system params with Some s => [WText WR_system s] | None => [] end) ++ mjoin groups ∧
    Forall2 carries ms groups ∧ chat_accepts messages.
Proof.
  intros (ms&Em&Hc&Hk)%flatten_accepted. unfold toWireMessages. rewrite Em. exists ms. do 2 eexists.
  split_and!; [done|reflexivity|reflexivity|by apply Forall2_fmap_r, Forall_Forall2_diag|].
  unfold chat_accepts. by destruct (lc_system params).
Qed.

(** What the adapter returns is what the loop relies on: the reply's blocks are
    texts that are not empty and tool calls with object arguments, one per call
    of the wire in order; and it stops for [tool_use] exactly when there is a
    tool call, whatever reason the provider gives. *)
Theorem reply_is_canonical reply r :
  readReply reply = inr r →
  result_ids (lr_content r) = [] ∧ forallb said (lr_content r) = true ∧
  (lr_stop_reason r = Some SR_tool_use ↔ use_ids (lr_content r) ≠ []) ∧
  ∃ code wire choice, reply = Status code (Some wire) ∧ 200 <= code < 300 ∧
    wp_message wire = Some choice ∧ use_ids (lr_content r) = wr_id <$> wh_tool_calls choice.
Proof. apply readReply_canonical. Qed.
