(* ===== verification/Turns.v ===== *)
(** * Chat turns and confirmations

    The entry points of [packages/engine/src/agent/user-agent.ts] that drive the
    conversation loop: [chat], with its healing and repair of what a sweep or a
    crash left behind, and [resolveConfirmation], with the resumption of the held
    turn. The state of the object is its store and its conversation buffer. *)

From S2P Require Export SystemPrompt Paging.
Open Scope Z_scope.

(** ** What a dispatch says to the model *)

Definition nullable {A} (f : A → json) (v : option A) : json :=
  match v with Some v => f v | None => JNull end.

Definition session_view_json (v : ActiveSessionView) : json :=
  JObj [(js "sessionId", JStr (av_sessionId v)); (js "startedAt", JStr (av_startedAt v));
        (js "expiry", nullable JStr (av_expiry v))].
Definition grant_view_json (g : GrantView) : json :=
  JObj [(js "service", JStr (gv_service g)); (js "verb", JStr (gv_verb g)); (js "noun", JStr (gv_noun g));
        (js "source", JStr (source_text (gv_source g))); (js "expiresAt", nullable JStr (gv_expiresAt g))].
Definition held_record_json (r : HeldCallRecord) : json :=
  JObj ([(js "heldCallId", JStr (hr_heldCallId r)); (js "service", JStr (hr_service r));
         (js "verb", JStr (hr_verb r)); (js "noun", JStr (hr_noun r))] ++
        opt_field "params" id (hr_params r) ++
        opt_field "origin" (JStr ∘ AuditLog.origin_text) (hr_origin r) ++
        opt_field "goal" JStr (hr_goal r) ++ opt_field "spend" spend_json (hr_spend r)).
Definition status_json (s : StatusResponse) : json :=
  JObj [(js "session", nullable session_view_json (st_session s));
        (js "grants", JArr (grant_view_json <$> st_grants s));
        (js "held", JArr (held_record_json <$> st_heldRecords s));
        (js "auditTail", nullable (λ t, JObj [(js "hash", JStr (at_hash t));
          (js "prevHash", JStr (at_prevHash t))]) (st_auditTail s))].
Definition policy_entry_json (e : PolicyEntry) : json :=
  JObj ([(js "id", JStr (pe_id e)); (js "source", JStr (pe_source e))] ++
        opt_field "sessionId" JStr (pe_sessionId e) ++
        [(js "service", JStr (pe_service e)); (js "verb", JStr (pe_verb e)); (js "noun", JStr (pe_noun e));
         (js "decision", JStr (match pe_decision e with Allow => js "allow" | Deny => js "deny" end));
         (js "priority", nullable jint (pe_priority e)); (js "createdAt", JStr (pe_createdAt e))] ++
        opt_field "expiresAt" JStr (pe_expiresAt e)).
Definition execution_json (d : ExecutionData) : json :=
  match d with
  | D_tool v => v
  | D_status s => status_json s
  | D_killed => JObj [(js "killed", JBool true)]
  | D_disconnected service b => JObj [(js "service", JStr service); (js "disconnected", JBool b)]
  | D_ended b => JObj [(js "ended", JBool b)]
  | D_entries es => JObj [(js "entries", JArr (policy_entry_json <$> es))]
  end.

(** ** The turn's monad over the object *)

(** The turn gate around a turn. *)
Definition withTurnGateC {A} (busy : A) (run : C A) : C A := λ s w,
  if w_turnInFlight w then (Ok busy, s, w)
  else let '(r, s', w') := run s (with_gate true w) in (r, s', with_gate false w').

(** A turn on a buffer of its own, dropped at its end. *)
Definition onThrowaway {A} (c : C A) : C A := λ s w,
  let '(r, s', w') := c (mkConv [] (cv_requests s)) w in
  (r, mkConv (cv_messages s) (cv_requests s'), w').

(** The deployment's environment. *)
Class LLMEnvironment := llm_env : LLMEnv.

Inductive choice := Ch_deny | Ch_tell_more | Ch_task | Ch_session | Ch_approve_once.
#[export] Instance choice_eq_dec : EqDecision choice.
Proof. solve_decision. Defined.

Record ToolMetadata := mkMetadata {
  mt_service : jsstr; mt_verb : jsstr; mt_noun : jsstr; mt_description : jsstr;
}.
Inductive ConfirmationResolution :=
  | Res_not_found
  | Res_busy
  | Res_invalid_choice (reason : jsstr)
  | Res_info (metadata : ToolMetadata)
  | Res_resumed (result : ConversationLoopResult).

(** [{ ...state, k: v }] on a parsed turn state. *)
Definition with_member (k : string) (v : json) (st : json) : json :=
  match st with JObj fs => JObj (set_field (js k) v fs) | _ => st end.
Definition turn_json (state : HeldTurnState) (o : RunOrigin) : json :=
  JObj (set_field (js "origin") (JStr (run_origin_text o)) (turn_fields state)).
Definition turn_origin (st : json) : option RunOrigin :=
  (member (js "origin") st ≫= as_str) ≫= parse_run_origin.
Definition is_direct (st : json) : bool :=
  match member (js "directExecute") st with Some (JBool true) => true | _ => false end.
(** [if (turnState.answered)]. *)
Definition answered_of (st : json) : option json :=
  match member (js "answered") st with
  | Some (JObj fs) => Some (JObj fs)
  | _ => None
  end.
(** A value of the type the code casts it to, or the error of using it as one. *)
Definition cast {A} (v : option A) : M A :=
  match v with Some a => mret a | None => throw TypeError end.

Definition DISPATCH_RECOVERY_RESULT : jsstr :=
  js "Tool completed (result unavailable after interruption).".
Definition ORPHAN_RESULT : jsstr :=
  js "The session ended before this call was resolved; its result was not recorded and it may or may not have executed.".

Definition MAX_NOUN_LEN : nat := 80.
Definition sanitizeNoun (noun : jsstr) : jsstr :=
  let stripped := trim ((λ c, if ((c <? 32) || (c =? 127))%N then 32%N else c) <$> noun) in
  if (MAX_NOUN_LEN <? length stripped)%nat then take MAX_NOUN_LEN stripped ++ [8230%N] else stripped.

(** [none succeeded]: what a finished run is recorded as. *)
Definition commissionTerminalStatus (toolCalls : list ToolCallRecord) : run_status :=
  let attempted := List.filter (λ c, negb (bool_decide (tc_outcome c = TC_held))) toolCalls in
  match attempted with
  | [] => R_completed
  | _ =>
      if existsb (λ c, bool_decide (tc_outcome c = TC_success)) attempted then R_completed
      else if existsb (λ c, bool_decide (tc_outcome c = TC_error)) attempted then R_failed
      else R_denied
  end.

Section turns.
Context `{Platform} `{Catalog} `{!LLMClient} `{!LLMEnvironment}.

Definition getLLMConfig : M LLMConfig :=
  match readLLMConfig llm_env with inr c => mret c | inl m => throw (Exn m) end.
(** The client of the configuration; the error of building one. *)
Definition getLLMClient : M unit :=
  config ← getLLMConfig;
  match createLLMClient config with None => mret tt | Some m => throw (Exn m) end.

(** ** The offered tools: [llm/tool-definitions.ts] *)

Definition CONNECTED_TAG : jsstr := js "[CONNECTED]".
Definition NOT_CONNECTED_TAG : jsstr := js "[NOT CONNECTED]".
Definition buildToolDefinitions (connectedServices : list jsstr) (allowControlPlane : bool)
    : list LLMToolDefinition :=
  (λ tool,
    let control := eqs (tl_service tool) CONTROL_PLANE_SERVICE in
    let tag := if control || existsb (eqs (tl_service tool)) connectedServices
               then CONNECTED_TAG else NOT_CONNECTED_TAG in
    mkToolDefinition (toolName tool) (tag ++ js " " ++ tl_description tool) (tl_inputSchema tool)) <$>
  List.filter (λ tool, negb (eqs (tl_service tool) CONTROL_PLANE_SERVICE) || allowControlPlane) listTools.

(** ** One tool call of a turn *)

Definition substituteRunData (runId : jsstr) (params : fields) : M fields :=
  run ← readCommissionRun_row runId;
  match run ≫= cr_data with
  | Some d =>
      if truthy (Some d)
      then data ← parse_data d; mret (as_fields (substituteDataPlaceholders (JObj params) data))
      else mret params
  | None => mret params
  end.

Definition loop_outcome (result : ExecuteToolResult) : ToolOutcome :=
  let denied := bool_decide (gr_decision (er_governance result) = V_deny) in
  match gr_decision (er_governance result), er_held result with
  | V_pending, Some held => mkToolOutcome false None None false false false false true (Some (fst held))
  | _, _ =>
      mkToolOutcome (default false (xn_success <$> er_execution result))
        (execution_json <$> (er_execution result ≫= xn_data))
        (er_execution result ≫= xn_error) denied
        (denied && match er_denyReason result with Some not_connected => true | _ => false end)
        (denied && match er_denyReason result with Some needs_authorization => true | _ => false end)
        (denied && er_boundaryRefused result) false None
  end.

Definition executeToolForLoop (userId agentId : jsstr) (o : option origin) (runOrigin : RunOrigin)
    (runId : option jsstr) (name : jsstr) (toolParams : fields) : M ToolOutcome :=
  toolParams ← match truthy_str runId with
               | Some r => substituteRunData r toolParams
               | None => mret toolParams
               end;
  result ← executeTool (mkExecute name toolParams userId agentId o (Some runOrigin) runId None None);
  mret (loop_outcome result).

(** ** Repair of the buffer *)

Fixpoint discardRows (ids : list jsstr) (rows : list HeldToolCallsRow) : M unit :=
  match rows with
  | [] => mret tt
  | row :: rest =>
      match parseTurnState (hc_turn_state row) with
      | TurnOk st =>
          match ts_heldCall st with
          | Some call =>
              when (ts_answered st && existsb (eqs (json_str (member (js "id") call))) ids)
                (deleteHeldCall (hc_id row))
          | None => mret tt
          end
      | _ => mret tt
      end ;;
      discardRows ids rest
  end.
Definition discardResolvedHeldCalls (orphanToolUseIds : list jsstr) : M unit :=
  rows ← selectHeldCalls; discardRows orphanToolUseIds rows.

(** The answers to the calls the buffer ends with. *)
Definition orphan_answer (healed : list jsstr) (t : LLMToolUseBlock) : LLMToolResultBlock :=
  let isHealed := existsb (eqs (tu_id t)) healed in
  mkToolResult (tu_id t) (if isHealed then DISPATCH_RECOVERY_RESULT else ORPHAN_RESULT)
    (Some (negb isHealed)).
Definition orphans_of (messages : list slot) : list LLMToolUseBlock :=
  match last messages with
  | Some (Some (mkMessage Assistant (Blocks blocks))) => tool_uses blocks
  | _ => []
  end.
Definition repairOrphanedToolUse (healed : list jsstr) : C unit :=
  messages ← getMessages;
  match orphans_of messages with
  | [] => mret tt
  | orphans =>
      push (mkMessage User (Blocks (ToolResult <$> (orphan_answer healed <$> orphans)))) ;;
      lift (discardResolvedHeldCalls (tu_id <$> orphans))
  end.

(** [persistHeldTurn]: the hold keeps the surface its run came in on. *)
Definition persistWith (o : RunOrigin) (heldCallId : jsstr) (state : HeldTurnState) : M unit :=
  storeHeldTurnState heldCallId (wrapTurnState (turn_json state o)).

(** ** A chat turn *)

Definition AWAITING_RESPONSE : jsstr :=
  js "A tool call is awaiting your confirmation. Please resolve the pending request before sending another message.".

(** The connected services, as the offer reads them. *)
Definition offeredTools (o : RunOrigin) : M (list LLMToolDefinition) :=
  connected ← listConnectedServices;
  mret (buildToolDefinitions (fst <$> connected) (controlPlaneAllowed o)).

Definition chatTurn (message userId agentId : jsstr) (o : RunOrigin) : C ConversationLoopResult :=
  tools ← lift (offeredTools o);
  config ← lift getLLMConfig;
  lift getLLMClient ;;
  runConversationLoop (mkLoopParams message tools
    (executeToolForLoop userId agentId None o None) (lg_model config) (lg_maxTokens config)
    (Some HABENULA_SYSTEM_PROMPT) (Some (persistWith o)) None).

(** Inside the gate; [None] of the gate is busy. *)
Definition chatGated (message userId agentId : jsstr) (o : RunOrigin) : C ConversationLoopResult :=
  lift reapExpiredSessions ;;
  healed ← lift (healCrashedDispatchHolds userId agentId);
  outstanding ← lift (firstUnresolvedHeldCallId (λ r, bool_decide (hc_run_id r = None)));
  match outstanding with
  | Some (c :: id) =>
      mret (mkLoopResult AWAITING_RESPONSE [] (mkUsage 0 0) 0 (Some (c :: id)))
  | _ =>
      repairOrphanedToolUse healed ;;
      lift (resolveActiveSession userId agentId None) ;;
      chatTurn message userId agentId o
  end.

Definition chat (message userId : jsstr) (agentId : option jsstr) (o : option RunOrigin)
    : C (option ConversationLoopResult) :=
  withTurnGateC None (r ← chatGated message userId (default (js "default") agentId) (default RO_human o);
                      mret (Some r)).

Definition resetConversation : C unit := setMessages (λ _, []).

(** ** Resuming a held turn *)

Record Resume := mkResumeParams {
  re_heldCallId : jsstr;
  re_turnState : json;
  re_userId : jsstr;
  re_agentId : jsstr;
  re_origin : origin;
  re_runId : option jsstr;
  re_answered : Answered;
}.

Definition recordRunAfterResolve (runId : option jsstr) (resolution : ConfirmationResolution) : M unit :=
  match truthy_str runId, resolution with
  | Some r, Res_resumed result =>
      t ← nowISO;
      updateCommissionStatus r
        (match lp_held result with
         | Some _ => R_awaiting_confirmation
         | None => commissionTerminalStatus (lp_toolCalls result)
         end) t
  | _, _ => mret tt
  end.

Definition directExecuteResolution (st : json) (a : Answered) : M ConfirmationResolution :=
  heldCall ← cast (req "heldCall" read_tool_use st);
  mret (Res_resumed (mkLoopResult []
    [call_record (tu_name heldCall) (tu_id heldCall) (an_resolvedOutcome a) (an_resolvedError a)]
    (mkUsage 0 0) 0 None)).

Definition resumeHeldTurn (r : Resume) : C ConfirmationResolution :=
  if is_direct (re_turnState r) then
    raise (Exn (js "resumeHeldTurn reached for a directExecute hold " ++ [8212%N] ++
                js " must resolve via directExecuteResolution"))
  else
    let resumeOrigin := heldRunOrigin (turn_origin (re_turnState r)) (re_runId r) in
    tools ← lift (offeredTools resumeOrigin);
    config ← lift getLLMConfig;
    lift getLLMClient ;;
    state ← lift (cast (read_turn (re_turnState r)));
    let a := re_answered r in
    let params := mkLoopParams [] tools
      (executeToolForLoop (re_userId r) (re_agentId r) (Some (re_origin r)) resumeOrigin (re_runId r))
      (lg_model config) (lg_maxTokens config)
      (Some (match truthy_str (re_runId r) with Some _ => commission_prompt | None => HABENULA_SYSTEM_PROMPT end))
      (Some (persistWith resumeOrigin))
      (Some (mkResume state (an_resolvedResult a) (an_resolvedOutcome a) (an_resolvedError a))) in
    result ← match re_runId r with
             | None => runConversationLoop params
             | Some _ => onThrowaway (runConversationLoop params)
             end;
    mret (Res_resumed result).

Definition resumeAndFinalize (r : Resume) : C ConfirmationResolution :=
  resolution ← (if is_direct (re_turnState r)
                then lift (directExecuteResolution (re_turnState r) (re_answered r))
                else resumeHeldTurn r);
  lift (deleteHeldCall (re_heldCallId r)) ;;
  mret resolution.

(** ** Resolving a held call *)

(** The identity a closing entry of the hold carries. *)
Record HeldAction := mkHeldAction {
  ha_held : HeldToolCallsRow;
  ha_state : json;
  ha_call : LLMToolUseBlock;
  ha_input : fields;
  ha_userId : jsstr;
  ha_agentId : jsstr;
}.
Definition ha_tool (h : HeldAction) : option (Tool Credential) := lookupTool (tu_name (ha_call h)).
Definition ha_noun (h : HeldAction) : jsstr := noun_of (ha_tool h) (ha_input h).
Definition ha_origin (h : HeldAction) : origin :=
  match truthy_str (hc_run_id (ha_held h)) with Some _ => O_mcp_commission | None => O_human end.
Definition held_entry (h : HeldAction) (decision : verdict) (metadata : fields) (outcome : audit_outcome)
    (error : option jsstr) (costUsd : option jsnum) : AuditEntryFields :=
  mkParams (ha_userId h) (ha_agentId h) (hc_session_id (ha_held h)) (tu_name (ha_call h))
    (service_of (ha_tool h)) (verb_of (ha_tool h)) (ha_noun h) decision (Some (ha_origin h)) metadata
    outcome error 0 costUsd None None.
(** The entry that closes the hold's pending decision. *)
Definition held_closer (h : HeldAction) (decision : verdict) (outcome : audit_outcome)
    (error : option jsstr) : ReferencingAuditEntryParams :=
  mkCloserParams (held_entry h decision (extractMetadata (ha_input h)) outcome error None)
    (hc_pending_audit_entry_id (ha_held h)).

(** A hold written by a newer engine: closed with a deny, and deleted. *)
Definition refuseFutureVersion (held : HeldToolCallsRow) (userId agentId : jsstr) : M unit :=
  transactionSync (closeObserved (mkCloserParams
    (mkParams userId agentId (hc_session_id held) (js "unknown") (js "unknown") (js "execute")
      (js "unknown") V_deny
      (Some (match truthy_str (hc_run_id held) with Some _ => O_mcp_commission | None => O_human end))
      (extractMetadata []) X_error
      (Some (js "Held call unresumable: turn_state was written by a newer engine version")) 0 None
      None None)
    (hc_pending_audit_entry_id held))) ;;
  deleteHeldCall (hc_id held) ;;
  match truthy_str (hc_run_id held) with
  | Some r => t ← nowISO; updateCommissionStatus r R_denied t
  | None => mret tt
  end.

Definition resume_of (h : HeldAction) (st : json) (a : Answered) : Resume :=
  mkResumeParams (hc_id (ha_held h)) st (ha_userId h) (ha_agentId h) (ha_origin h)
    (hc_run_id (ha_held h)) a.
Definition resumeAndRecord (h : HeldAction) (st : json) (a : Answered) : C ConfirmationResolution :=
  resolution ← resumeAndFinalize (resume_of h st a);
  lift (recordRunAfterResolve (hc_run_id (ha_held h)) resolution) ;;
  mret resolution.

(** A dispatch that a crash cut off: closed and answered, never repeated. *)
Definition recovered_answer (h : HeldAction) : Answered :=
  mkAnswered (mkToolResult (tu_id (ha_call h)) DISPATCH_RECOVERY_RESULT (Some false)) TC_error
    (Some DISPATCH_RECOVERY_ERROR).
Definition recoverDispatched (h : HeldAction) : C ConfirmationResolution :=
  let st := with_member "answered" (answered_json (recovered_answer h)) (ha_state h) in
  lift (transactionSync (
    closeObserved (dispatchRecoveryAuditParams (tu_name (ha_call h)) (ha_input h) (ha_userId h)
      (ha_agentId h) (hc_session_id (ha_held h)) (hc_pending_audit_entry_id (ha_held h)) (ha_origin h)) ;;
    updateHeldTurnState (hc_id (ha_held h)) (wrapTurnState st))) ;;
  resumeAndRecord h st (recovered_answer h).

(** No dispatch: the user's deny, or the boundary's refusal. *)
Definition denyHeld (h : HeldAction) (boundaryRefused : bool) : C ConfirmationResolution :=
  let refusal := if boundaryRefused then CONTROL_PLANE_REFUSAL else js "Denied by user" in
  let a := mkAnswered (mkToolResult (tu_id (ha_call h)) refusal (Some true))
             (if boundaryRefused then TC_boundary_refused else TC_denied) None in
  lift (transactionSync (closeObserved (held_closer h V_deny X_error (Some refusal)))) ;;
  lift (appendActionDetail (hc_run_id (ha_held h))
    (action_detail (service_of (ha_tool h)) (verb_of (ha_tool h)) (ha_noun h) TA_denied)) ;;
  let st := with_member "answered" (answered_json a) (ha_state h) in
  lift (storeHeldTurnState (hc_id (ha_held h)) (wrapTurnState st)) ;;
  resumeAndRecord h st a.

(** The grant of an affirmative choice. *)
Definition grantFor (h : HeldAction) (c : choice) : M (option jsstr) :=
  let service := service_of (ha_tool h) in
  let verb := verb_of (ha_tool h) in
  let sid := hc_session_id (ha_held h) in
  match c with
  | Ch_task => id ← createTaskGrant service verb (ha_noun h) (Some sid) Allow; mret (Some id)
  | Ch_session => createSessionGrant service verb (ha_noun h) sid Allow ;; mret None
  | _ => mret None
  end.

(** A spending question instead of a dispatch, on the same row. *)
Definition rehold (h : HeldAction) (taskGrantId : option jsstr) (costUsd : option jsnum)
    (context : SpendHoldContext) : C ConfirmationResolution :=
  lift (transactionSync (
    closeObserved (held_closer h V_pending X_success (Some (js "Superseded by a spending confirmation"))) ;;
    entry ← insertAuditEntryInTxn (held_entry h V_pending
      (parameters_metadata (ha_input h) (Some context)) X_success None costUsd);
    reholdForSpend (hc_id (ha_held h)) (ae_id entry) (Parsed (spend_json context)) ;;
    match taskGrantId with
    | Some id => t ← nowISO; consumeTaskGrant_row id t
    | None => mret tt
    end)) ;;
  let resolution := Res_resumed (mkLoopResult []
    [call_record (tu_name (ha_call h)) (tu_id (ha_call h)) TC_held None] (mkUsage 0 0) 0
    (Some (hc_id (ha_held h)))) in
  lift (recordRunAfterResolve (hc_run_id (ha_held h)) resolution) ;;
  mret resolution.

Definition same_context (a b : SpendHoldContext) : bool :=
  eqs (JSON_stringify (spend_json a)) (JSON_stringify (spend_json b)).
(** The second spend check: the question to ask, if one is due. *)
Definition spendOnResume (h : HeldAction) (c : choice) (spendCtx : option (option SpendHoldContext))
    : M (option (option jsnum * SpendHoldContext)) :=
  match ha_tool h ≫= tl_spend with
  | None => mret None
  | Some spend =>
      stage ← runSpendStage spend (ha_input h) (hc_session_id (ha_held h));
      mret match snd stage with
           | None => None
           | Some context =>
               let alreadyAnswered := bool_decide (c = Ch_approve_once) &&
                 match spendCtx with Some (Some asked) => same_context context asked | _ => false end in
               if alreadyAnswered then None else Some (fst stage, context)
           end
  end.

(** The answer of a dispatch, fenced for the model. *)
Definition dispatch_answer (h : HeldAction) (execution : Execution) : M Answered :=
  let error := default (js "Tool execution failed") (xn_error execution) in
  content ← fenceUntrusted
    (if xn_success execution
     then JSON_stringify (default JNull (execution_json <$> xn_data execution)) else error);
  mret (mkAnswered (mkToolResult (tu_id (ha_call h)) content (Some (negb (xn_success execution))))
    (if xn_success execution then TC_success else TC_error)
    (if xn_success execution then None else Some error)).

(** Before the dispatch: the single-use grant is spent and the row is marked. *)
Definition markDispatched (h : HeldAction) (taskGrantId : option jsstr) : M unit :=
  match taskGrantId with Some (c :: id) => consumeTaskGrant (c :: id) | _ => mret tt end ;;
  storeHeldTurnState (hc_id (ha_held h))
    (wrapTurnState (with_member "dispatched" (JBool true) (ha_state h))).
Definition runMarked (h : HeldAction) : C ConfirmationResolution :=
  execution ← lift (dispatchTool (tu_name (ha_call h)) (ha_input h) (ha_userId h));
  a ← lift (dispatch_answer h execution);
  let st := with_member "answered" (answered_json a) (ha_state h) in
  lift (writeOutcomeWithSpend
    (held_closer h V_allow (if xn_success execution then X_success else X_error) (xn_error execution))
    (ha_tool h) (ha_input h) (Some (hc_id (ha_held h), wrapTurnState st))) ;;
  lift (appendActionDetail (hc_run_id (ha_held h))
    (action_detail (service_of (ha_tool h)) (verb_of (ha_tool h)) (ha_noun h)
      (if xn_success execution then TA_executed else TA_errored))) ;;
  resumeAndRecord h st a.
Definition dispatchHeld (h : HeldAction) (taskGrantId : option jsstr) : C ConfirmationResolution :=
  lift (markDispatched h taskGrantId) ;; runMarked h.

Definition affirmHeld (h : HeldAction) (c : choice) (spendCtx : option (option SpendHoldContext))
    : C ConfirmationResolution :=
  taskGrantId ← lift (grantFor h c);
  question ← lift (spendOnResume h c spendCtx);
  match question with
  | Some (costUsd, context) => rehold h taskGrantId costUsd context
  | None => dispatchHeld h taskGrantId
  end.

Definition SPEND_CHOICES : jsstr := js "a spending hold accepts only deny, tell_more, or approve_once".
Definition APPROVE_ONCE_ONLY : jsstr := js "approve_once applies only to a spending hold".

Definition tell_more (h : HeldAction) : ToolMetadata :=
  mkMetadata (service_of (ha_tool h)) (verb_of (ha_tool h)) (sanitizeNoun (ha_noun h))
    (match ha_tool h with Some t => tl_description t | None => js "No description available." end).

(** What is done with a hold, inside the gate. *)
Definition resolveHeld (h : HeldAction) (c : choice) : C ConfirmationResolution :=
  let boundaryRefused := isControlPlaneTool (tu_name (ha_call h)) &&
    negb (controlPlaneAllowed (heldRunOrigin (turn_origin (ha_state h)) (hc_run_id (ha_held h)))) in
  let spendCtx := parseSpendContext (hc_spend_context (ha_held h)) in
  match spendCtx, c with
  | Some _, Ch_task | Some _, Ch_session => mret (Res_invalid_choice SPEND_CHOICES)
  | None, Ch_approve_once => mret (Res_invalid_choice APPROVE_ONCE_ONLY)
  | _, _ =>
      match answered_of (ha_state h) with
      | Some answered => a ← lift (cast (read_answered answered)); resumeAndRecord h (ha_state h) a
      | None =>
          if ts_dispatched (ha_state h) then recoverDispatched h
          else if bool_decide (c = Ch_tell_more) then mret (Res_info (tell_more h))
          else if bool_decide (c = Ch_deny) || boundaryRefused then denyHeld h boundaryRefused
          else affirmHeld h c spendCtx
      end
  end.

(** The call a hold parks, with the run's values bound. *)
Definition held_action (held : HeldToolCallsRow) (st : json) (userId agentId : jsstr) : M HeldAction :=
  heldCall ← cast (req "heldCall" read_tool_use st);
  input ← match truthy_str (hc_run_id held) with
          | Some r => substituteRunData r (tu_input heldCall)
          | None => mret (tu_input heldCall)
          end;
  mret (mkHeldAction held st heldCall input userId agentId).

Definition resolveConfirmation (heldCallId : jsstr) (c : choice) (userId : jsstr)
    (agentId : option jsstr) : C ConfirmationResolution :=
  held ← lift (loadHeldCall heldCallId);
  match held with
  | None => mret Res_not_found
  | Some held =>
      let agentId := default (js "default") agentId in
      match parseTurnState (hc_turn_state held) with
      | TurnFutureVersion =>
          if bool_decide (c = Ch_tell_more) then mret Res_not_found
          else lift (refuseFutureVersion held userId agentId) ;; mret Res_not_found
      | TurnUnparseable => mret Res_not_found
      | TurnOk st =>
          match ts_heldCall st with
          | None => mret Res_not_found
          | Some _ =>
              withTurnGateC Res_busy (h ← lift (held_action held st userId agentId); resolveHeld h c)
          end
      end
  end.
End turns.

(** ** The buffer of the object *)

Section buffer.
Context `{Platform} `{!PlatformLaws _} `{Catalog} `{!LLMClient} `{!LLMLaws _} `{!LLMEnvironment}.

Lemma cwp_lift_any {A} (m : M A) (Q : res A → Conv → World → Prop) s w :
  (∀ r w', Q r s w') → cwp (lift m) Q s w.
Proof. intros HQ. apply cwp_lift. intros. apply HQ. Qed.

(** What an accepted buffer owes is what the repair answers. *)
Lemma orphans_owed l st :
  wire l = Some st → tu_id <$> orphans_of l = match st with AfterUser => [] | AfterAssistant owed => owed end.
Proof.
  destruct l as [|m l _] using rev_ind; [by intros [= <-]|].
  rewrite wire_snoc. intros (st0&_&Hs)%bind_Some. unfold orphans_of. rewrite last_snoc.
  destruct m as [[[] [text|blocks]]|]; [..|done]; simpl in Hs.
  - by case_bool_decide; simplify_eq.
  - destruct blocks; [done|]. by destruct (_ && _); simplify_eq.
  - destruct st0; [|done]. by case_bool_decide; simplify_eq.
  - destruct st0; [|done]. destruct blocks as [|b blocks]; [done|]. destruct (_ && _); simplify_eq.
    apply tool_use_ids.
Qed.

Lemma repair_settles healed s w :
  wire_ok (cv_messages s) →
  cwp (repairOrphanedToolUse healed) (λ r s' _, cv_requests s' = cv_requests s ∧
    wire_ok (cv_messages s') ∧ (r = Ok tt → settled (cv_messages s'))) s w.
Proof.
  intros [st Hs]. pose proof (orphans_owed _ _ Hs) as Ho.
  unfold repairOrphanedToolUse. apply cwp_bind. unfold getMessages at 1, cwp at 1.
  destruct (orphans_of (cv_messages s)) as [|t ts].
  - unfold cwp. simpl. split_and!; [done|by eexists|]. intros _. unfold settled. rewrite Hs.
    destruct st; [by left|right]. simpl in Ho. by rewrite <- Ho.
  - apply cwp_bind. unfold push at 1, setMessages at 1, cwp at 1. apply cwp_lift_any. intros r w'.
    assert (sendable (cv_messages s ++ [Some (mkMessage User
      (Blocks (ToolResult <$> (orphan_answer healed <$> t :: ts))))])) as Hsend.
    { destruct st as [|owed]; [done|]. apply (wire_answers _ _ _ Hs); [done|].
      rewrite <- list_fmap_compose. exact Ho. }
    split_and!; [done|by eexists|]. intros _. by left.
Qed.

(** What a turn asks of the conversation and leaves. *)
Definition conv_ok (s : Conv) : Prop :=
  wire_ok (cv_messages s) ∧ Forall (sendable ∘ lc_messages) (cv_requests s).

Lemma turn_conv_ok p s w :
  ready p s → room_for p s → Forall (sendable ∘ lc_messages) (cv_requests s) →
  cwp (runConversationLoop p) (λ _ s' _, conv_ok s') s w.
Proof.
  intros Hr Hf Hq. pose proof (turn_run p s w Hr Hq) as Ht. unfold cwp.
  destruct (runConversationLoop p s w) as [[r s'] w']. destruct Ht as (Hw&sent&Eq&Hs&_).
  split; [apply Hw; by left|]. rewrite Eq. by apply Forall_app.
Qed.

Lemma chatTurn_conv_ok message userId agentId o s w :
  message ≠ [] → settled (cv_messages s) → conv_ok s →
  cwp (chatTurn message userId agentId o) (λ _ s' _, conv_ok s') s w.
Proof.
  intros Hm Hs [Hw Hq]. unfold chatTurn. apply cwp_bind, cwp_lift_any. intros [tools|e] w1; [|done].
  apply cwp_bind, cwp_lift_any. intros [config|e] w2; [|done].
  apply cwp_bind, cwp_lift_any. intros [[]|e] w3; [|done].
  by apply turn_conv_ok.
Qed.

Lemma chatGated_conv_ok message userId agentId o s w :
  message ≠ [] → conv_ok s →
  cwp (chatGated message userId agentId o) (λ _ s' _, conv_ok s') s w.
Proof.
  intros Hm Hs. unfold chatGated. apply cwp_bind, cwp_lift_any. intros [[]|e] w1; [|done].
  apply cwp_bind, cwp_lift_any. intros [healed|e] w2; [|done].
  apply cwp_bind, cwp_lift_any. intros [outstanding|e] w3; [|done].
  assert (cwp (repairOrphanedToolUse healed ;; lift (resolveActiveSession userId agentId None) ;;
    chatTurn message userId agentId o) (λ _ s' _, conv_ok s') s w3) as Hgo.
  { apply cwp_bind. eapply cwp_mono; [apply repair_settles, Hs|].
    intros r s1 w4 (Eq&Hw&Hset). assert (conv_ok s1) as Hs1 by (split; [done|rewrite Eq; apply Hs]).
    destruct r as [[]|e]; [|done]. apply cwp_bind, cwp_lift_any. intros [sid|e] w5; [|done].
    by apply chatTurn_conv_ok; [|apply Hset|]. }
  by destruct outstanding as [[|c id]|].
Qed.
End buffer.
