(* ===== verification/TurnStore.v ===== *)
(** * What turns keep of the store

    An invariant of the tables that survives an execution, the creation of a grant
    and a change to a hold survives chat turns and resolutions, whatever the model
    answers and the tools do. [TurnFrame] states those obligations; the object's
    own invariant and the growth of the audit log discharge them. *)

From S2P Require Export Turns.
Open Scope Z_scope.

(** ** Obligations *)

Class TurnFrame `{Platform} (J : Db → nat → Prop) : Prop := {
  tf_exec :: ExecutionFrame J;
  tf_held p f d n : (∀ h, hc_id (f h) = hc_id h) → J d n →
    J (set_held_tool_calls (update_where p f) d) n;
  tf_ledger f d n : J d n → J (set_spend_ledger f d) n;
}.
(** The answer to a question may also grant. *)
Class GrantFrame `{Platform} (J : Db → nat → Prop) : Prop := {
  gf_turn :: TurnFrame J;
  gf_grant r d n : scoped_row r → existsb (is_policy (po_id r)) (policy_entries d) = false → J d n →
    J (set_policy_entries (λ rows, rows ++ [r]) d) n;
}.
(** What is served while the provider is awaited keeps [J]. *)
Class GatedClient `{!LLMClient} (J : Db → nat → Prop) : Prop :=
  gc_client n params : gkeeps J (createMessage n params).

Section store.
Context `{Platform} `{!PlatformLaws _} `{Catalog} (J : Db → nat → Prop) `{!TurnFrame J}.

Lemma keeps_storeTurn id t : keeps J (updateHeldTurnState id t).
Proof. unfold updateHeldTurnState. keeps_tac. intros. by apply tf_held. Qed.
Lemma keeps_deleteHeld id : keeps J (deleteHeldCall id).
Proof. unfold deleteHeldCall, deleteHeldToolCall. keeps_tac. intros. by apply (sf_drop (J := J)). Qed.
Lemma keeps_closeObserved params :
  p_epochId (rp_fields params) = None → keeps J (closeObserved params).
Proof. intros He. unfold closeObserved. apply keeps_bind; [by apply (frame_close J)|]. intros. keeps_tac. Qed.
Lemma keeps_status_write id status t : keeps J (updateCommissionStatus id status t).
Proof. apply (keeps_run J (W_status id status t)), ef_runs. Qed.
Hint Resolve keeps_storeTurn keeps_deleteHeld keeps_status_write : wb.
Hint Extern 1 (keeps _ (appendActionDetail _ _)) => apply keeps_append; apply _ : wb.

Lemma keeps_ledger sid service verb id s params c : keeps J (insertSpendRow sid service verb id s params c).
Proof. unfold insertSpendRow, insertSpendInTxn. keeps_tac. intros. by apply tf_ledger. Qed.

Lemma keeps_outcome ap tool params answered :
  p_epochId (rp_fields ap) = None → keeps J (writeOutcomeWithSpend ap tool params answered).
Proof.
  intros He. unfold writeOutcomeWithSpend. cbv zeta. pose proof keeps_ledger.
  set (ap' := match centsFromSpend _ _ with Some c => _ | None => _ end).
  assert (p_epochId (rp_fields ap') = None) as He'.
  { unfold ap'. by destruct (centsFromSpend _ _). }
  pose proof (keeps_closeObserved ap' He').
  assert (∀ m id, keeps J (closeObserved (mkCloserParams (with_error m (rp_fields ap')) id)))
    by (intros; by apply keeps_closeObserved).
  keeps_tac.
Qed.

Lemma keeps_run_outcome p sid g x : et_epochId p = None → keeps J (finish p sid g x).
Proof. intros He. unfold finish. keeps_tac. by apply keeps_outcome. Qed.

Lemma keeps_consume id : keeps J (consumeTaskGrant id).
Proof.
  unfold consumeTaskGrant, consumeTaskGrant_row. keeps_tac. intros. by apply ef_consume.
Qed.
Hint Resolve keeps_consume : wb.

Lemma keeps_heal userId agentId : keeps J (healCrashedDispatchHolds userId agentId).
Proof.
  unfold healCrashedDispatchHolds, selectHeldCalls. apply keeps_bind; [keeps_tac|]. intros rows.
  induction rows as [|row rows IH]; simpl; [keeps_tac|].
  assert (∀ name input h, keeps J (closeObserved (dispatchRecoveryAuditParams name input userId agentId
    (hc_session_id h) (hc_pending_audit_entry_id h) O_human))) by (intros; by apply keeps_closeObserved).
  keeps_tac.
Qed.

Lemma keeps_discard ids : keeps J (discardResolvedHeldCalls ids).
Proof.
  unfold discardResolvedHeldCalls, selectHeldCalls. apply keeps_bind; [keeps_tac|]. intros rows.
  induction rows as [|row rows IH]; simpl; keeps_tac.
Qed.

Lemma keeps_cast {A} (v : option A) : keeps J (cast v).
Proof. unfold cast. keeps_tac. Qed.
Lemma keeps_substitute runId params : keeps J (substituteRunData runId params).
Proof. unfold substituteRunData, readCommissionRun_row, parse_data. keeps_tac. Qed.
Lemma keeps_stage_read spend params sid : keeps J (runSpendStage spend params sid).
Proof. by apply (keeps_stage J). Qed.
End store.

Section grants.
Context `{Platform} `{!PlatformLaws _} (J : Db → nat → Prop) `{!GrantFrame J}.

Lemma keeps_granted r : scoped_row r → keeps J (insertPolicyRow r).
Proof. intros Hr. unfold insertPolicyRow. apply keeps_insert. intros. by apply gf_grant. Qed.
Lemma keeps_sessionGrant service verb noun sid d : keeps J (createSessionGrant service verb noun sid d).
Proof.
  apply keeps_guarded. intros. unfold sessionStartedAt, readSessionStartedAt, insertSessionGrant.
  keeps_tac. apply keeps_granted. split_and!; try done. apply randomUUID_nonempty.
Qed.
Lemma keeps_taskGrant service verb noun sid d : keeps J (createTaskGrant service verb noun sid d).
Proof.
  apply keeps_guarded. intros. unfold insertTaskGrant. keeps_tac.
  apply keeps_granted. split_and!; try done. apply randomUUID_nonempty.
Qed.
End grants.

(** ** Runs of the conversation under the gate *)

(** [ck J c]: run with the gate held, [c] keeps [J] and the gate held. *)
Definition ck {A} (J : Db → nat → Prop) (c : C A) : Prop :=
  ∀ s w, w_turnInFlight w = true → J (w_db w) (w_uuids w) →
    J (w_db (snd (c s w))) (w_uuids (snd (c s w))) ∧ w_turnInFlight (snd (c s w)) = true.

Section ck.
Context (J : Db → nat → Prop).

Lemma ck_ret {A} (a : A) : ck J (mret a).
Proof. by intros s w. Qed.
Lemma ck_raise {A} e : ck J (raise (A := A) e).
Proof. by intros s w. Qed.
Lemma ck_bind {A B} (c : C A) (k : A → C B) : ck J c → (∀ a, ck J (k a)) → ck J (c ≫= k).
Proof.
  intros Hc Hk s w Hf Hw. destruct (Hc s w Hf Hw) as [H1 H2]. unfold mbind, C_bind.
  destruct (c s w) as [[[a|e] s'] w']; [by apply Hk|done].
Qed.
Lemma ck_lift {A} (m : M A) : gkeeps J m → ck J (lift m).
Proof. intros Hm s w Hf Hw. destruct (Hm w Hf Hw) as [H1 H2]. unfold lift. by destruct (m w). Qed.
Lemma ck_keeps {A} (m : M A) : keeps J m → ck J (lift m).
Proof. intros Hm. by apply ck_lift, gk_keeps. Qed.
Lemma ck_attempt {A} (c : C A) h : ck J c → (∀ e, ck J (h e)) → ck J (attempt c h).
Proof.
  intros Hc Hh s w Hf Hw. destruct (Hc s w Hf Hw) as [H1 H2]. unfold attempt.
  destruct (c s w) as [[[a|e] s'] w']; [done|by apply Hh].
Qed.
Lemma ck_set f : ck J (setMessages f).
Proof. by intros s w. Qed.
Lemma ck_get : ck J getMessages.
Proof. by intros s w. Qed.
Lemma ck_throwaway {A} (c : C A) : ck J c → ck J (onThrowaway c).
Proof.
  intros Hc s w Hf Hw. destruct (Hc (mkConv [] (cv_requests s)) w Hf Hw) as [H1 H2].
  unfold onThrowaway. by destruct (c _ w) as [[r s'] w'].
Qed.
Lemma ck_send `{!LLMClient} `{!GatedClient J} params : ck J (send params).
Proof.
  intros s w Hf Hw. destruct (gc_client (length (cv_requests s)) params w Hf Hw) as [H1 H2].
  unfold send. by destruct (createMessage _ params w).
Qed.
End ck.

Ltac ck_tac := repeat match goal with
  | |- ck _ (mret _) => apply ck_ret
  | |- ck _ (raise _) => apply ck_raise
  | |- ck _ (_ ≫= _) => apply ck_bind; [|intros]
  | |- ck _ (attempt _ _) => apply ck_attempt; [|intros]
  | |- ck _ (push _) => apply ck_set
  | |- ck _ (setLength _) => apply ck_set
  | |- ck _ (setMessages _) => apply ck_set
  | |- ck _ getMessages => apply ck_get
  | |- ck _ (onThrowaway _) => apply ck_throwaway
  | |- ck _ (send _) => apply ck_send; apply _
  | |- ck _ (if _ then _ else _) => case_match
  | |- ck _ (match _ with _ => _ end) => case_match
  end.

Lemma keeps_mark `{Platform} `{!PlatformLaws _} `{Catalog} J `{!TurnFrame J} h g : keeps J (markDispatched h g).
Proof.
  unfold markDispatched, storeHeldTurnState. pose proof (keeps_consume J). pose proof (keeps_storeTurn J).
  keeps_tac.
Qed.

Section turns.
Context `{Platform} `{!PlatformLaws _} `{Catalog} `{!LLMClient} `{!LLMEnvironment}.
Context (J : Db → nat → Prop) `{!TurnFrame J} `{!GatedAwaits J} `{!GatedClient J}.

Lemma gk_execute p : et_epochId p = None → gkeeps J (executeTool p).
Proof.
  intros He. unfold executeTool. apply gk_bind; [by apply (gk_gate J)|].
  intros [r|sid g]; [apply gk_ret|]. apply gk_bind; [apply (gk_dispatch J)|]. intros x.
  by apply gk_keeps, keeps_run_outcome.
Qed.

Lemma gk_forLoop userId agentId o ro runId name params :
  gkeeps J (executeToolForLoop userId agentId o ro runId name params).
Proof.
  unfold executeToolForLoop. apply gk_bind.
  - apply gk_keeps. destruct (truthy_str runId); [apply (keeps_substitute J)|apply keeps_ret].
  - intros ps. apply gk_bind; [by apply gk_execute|]. intros. apply gk_ret.
Qed.

Lemma keeps_answer block result : keeps J (answerCall block result).
Proof.
  unfold answerCall. apply keeps_bind; [|intros; apply keeps_ret].
  unfold classifyToolResult, fenceUntrusted. cbv zeta. repeat case_match; keeps_tac.
Qed.

Section loop.
Context (p : ConversationLoopParams).
Context (Hexec : ∀ name params, gkeeps J (cp_executeTool p name params))
  (Hpersist : ∀ id st, gkeeps J (persist p id st)).

Lemma ck_toolUses iterations usage blocks results calls :
  ck J (runToolUses p iterations usage blocks results calls).
Proof.
  revert results calls. induction blocks as [|b blocks IH]; intros; simpl; [ck_tac|].
  apply ck_bind; [by apply ck_lift|]. intros result. destruct (xo_held result).
  - ck_tac. by apply ck_lift.
  - apply ck_bind; [apply ck_keeps, keeps_answer|]. intros. apply IH.
Qed.

Lemma ck_llmLoop rollback fuel calls usage : ck J (llmLoop p rollback fuel calls usage).
Proof.
  revert calls usage. induction fuel as [|fuel IH]; intros; simpl; [ck_tac|].
  ck_tac; [apply ck_toolUses|apply IH].
Qed.

Lemma ck_loop : ck J (runConversationLoop p).
Proof.
  unfold runConversationLoop, answerAndDrainParkedCalls. cbv zeta. apply ck_bind; [apply ck_get|].
  intros messages. destruct (cp_resumeState p) as [r|].
  - ck_tac; [apply ck_toolUses|apply ck_llmLoop].
  - ck_tac. apply ck_llmLoop.
Qed.
End loop.

Lemma keeps_llm : keeps J getLLMConfig ∧ keeps J getLLMClient.
Proof.
  assert (keeps J getLLMConfig) as Hc by (unfold getLLMConfig; keeps_tac).
  split; [done|]. unfold getLLMClient. keeps_tac.
Qed.
Lemma keeps_offer o : keeps J (offeredTools o).
Proof. unfold offeredTools, listConnectedServices. keeps_tac. Qed.

Lemma ck_chatGated message userId agentId o : ck J (chatGated message userId agentId o).
Proof.
  destruct keeps_llm as [Hc1 Hc2]. unfold chatGated.
  apply ck_bind; [apply ck_keeps, (frame_reap J)|]. intros _.
  apply ck_bind; [apply ck_keeps, (keeps_heal J)|]. intros healed.
  apply ck_bind; [apply ck_keeps|]. { unfold firstUnresolvedHeldCallId. pose proof (frame_unresolved J). keeps_tac. }
  intros outstanding.
  assert (ck J (repairOrphanedToolUse healed ;; lift (resolveActiveSession userId agentId None) ;;
    chatTurn message userId agentId o)) as Hgo.
  { unfold repairOrphanedToolUse, chatTurn. apply ck_bind.
    - ck_tac. apply ck_keeps, (keeps_discard J).
    - intros _. apply ck_bind; [apply ck_keeps, (frame_resolve J)|]. intros _.
      apply ck_bind; [apply ck_keeps, keeps_offer|]. intros tools.
      apply ck_bind; [by apply ck_keeps|]. intros config. apply ck_bind; [by apply ck_keeps|]. intros _.
      apply ck_loop; [intros; apply gk_forLoop|]. intros. apply gk_keeps, (keeps_storeTurn J). }
  destruct outstanding as [[|c id]|]; [done| |done]. apply ck_ret.
Qed.

Lemma ck_finalize r : ck J (resumeAndFinalize r).
Proof.
  destruct keeps_llm as [Hc1 Hc2]. unfold resumeAndFinalize, resumeHeldTurn. apply ck_bind.
  - destruct (is_direct (re_turnState r)) eqn:Ed.
    + apply ck_keeps. unfold directExecuteResolution. pose proof (@keeps_cast J). keeps_tac.
    + rewrite ?Ed. apply ck_bind; [apply ck_keeps, keeps_offer|]. intros tools.
      apply ck_bind; [by apply ck_keeps|]. intros config. apply ck_bind; [by apply ck_keeps|]. intros _.
      apply ck_bind; [apply ck_keeps, keeps_cast|]. intros state. cbv zeta.
      apply ck_bind; [|intros; apply ck_ret].
      assert (∀ p, (∀ name params, gkeeps J (cp_executeTool p name params)) →
        (∀ id st, gkeeps J (persist p id st)) → ck J (runConversationLoop p)) as Hl by apply ck_loop.
      destruct (re_runId r); [apply ck_throwaway|]; apply Hl; intros;
        first [apply gk_forLoop|apply gk_keeps, (keeps_storeTurn J)].
  - intros res. apply ck_bind; [apply ck_keeps, (keeps_deleteHeld J)|]. intros. apply ck_ret.
Qed.

Lemma ck_record h st a : ck J (resumeAndRecord h st a).
Proof.
  unfold resumeAndRecord. apply ck_bind; [apply ck_finalize|]. intros res. apply ck_bind; [|intros; apply ck_ret].
  apply ck_keeps. unfold recordRunAfterResolve. pose proof (keeps_status_write J). keeps_tac.
Qed.

End turns.

Section answers.
Context `{Platform} `{!PlatformLaws _} `{Catalog} `{!LLMClient} `{!LLMEnvironment}.
Context (J : Db → nat → Prop) `{!GrantFrame J} `{!GatedAwaits J} `{!GatedClient J}.

Lemma ck_resolveHeld h c : ck J (resolveHeld h c).
Proof.
  pose proof (ck_record J h) as Hr. pose proof (keeps_closeObserved J) as Hclose.
  pose proof (keeps_storeTurn J) as Hst.
  assert (∀ refused, ck J (denyHeld h refused)) as Hdeny.
  { intros refused. unfold denyHeld. cbv zeta. ck_tac; [..|apply Hr]; apply ck_keeps; try apply Hst.
    - apply keeps_txn; [apply _|]. by apply Hclose.
    - by apply (keeps_append J). }
  assert (ck J (recoverDispatched h)) as Hrec.
  { unfold recoverDispatched. cbv zeta. ck_tac; [|apply Hr]. apply ck_keeps, keeps_txn; [apply _|].
    apply keeps_bind; [by apply Hclose|]. intros. apply Hst. }
  assert (∀ g, ck J (dispatchHeld h g)) as Hdisp.
  { intros g. unfold dispatchHeld, runMarked. cbv zeta. ck_tac; [..|apply Hr].
    - apply ck_keeps, (keeps_mark J).
    - apply ck_lift, (gk_dispatch J).
    - apply ck_keeps. unfold dispatch_answer, fenceUntrusted. cbv zeta. keeps_tac.
    - apply ck_keeps. by apply (keeps_outcome J).
    - apply ck_keeps. by apply (keeps_append J). }
  assert (∀ g cost ctx, ck J (rehold h g cost ctx)) as Hre.
  { intros g cost ctx. unfold rehold. cbv zeta. ck_tac.
    - apply ck_keeps, keeps_txn; [apply _|]. apply keeps_bind; [by apply Hclose|]. intros _.
      apply keeps_bind; [by apply (frame_entry J)|]. intros e. unfold reholdForSpend, consumeTaskGrant_row.
      keeps_tac; intros; [by apply tf_held|by apply ef_consume].
    - apply ck_keeps. unfold recordRunAfterResolve. pose proof (keeps_status_write J). keeps_tac. }
  assert (∀ ctx, ck J (affirmHeld h c ctx)) as Haff.
  { intros ctx. unfold affirmHeld. apply ck_bind.
    - apply ck_keeps. unfold grantFor. cbv zeta. pose proof (keeps_taskGrant J). pose proof (keeps_sessionGrant J).
      keeps_tac.
    - intros g. apply ck_bind; [|intros [[cost context]|]; [apply Hre|apply Hdisp]].
      apply ck_keeps. unfold spendOnResume. pose proof (keeps_stage_read J). keeps_tac. }
  unfold resolveHeld. cbv zeta.
  assert (∀ (b : bool) ctx, ck J (match answered_of (ha_state h) with
    | Some answered => a ← lift (cast (read_answered answered)); resumeAndRecord h (ha_state h) a
    | None => if ts_dispatched (ha_state h) then recoverDispatched h
              else if bool_decide (c = Ch_tell_more) then mret (Res_info (tell_more h))
              else if bool_decide (c = Ch_deny) || b then denyHeld h b
              else affirmHeld h c ctx end)) as Hgo.
  { intros b ctx. ck_tac; auto. apply ck_keeps, keeps_cast. }
  destruct (parseSpendContext _) as [ctx|], c; first [apply ck_ret|apply Hgo].
Qed.
End answers.

(** ** The two invariants *)

Section invariants.
Context `{Platform} `{!PlatformLaws _}.

#[export] Instance agent_turn_frame : GrantFrame agent_inv.
Proof.
  split; [split; [apply _|..]|].
  - intros p f d n Hf ([? ? ? ? Hn]&?&Hh). split_and!; [split; simpl; try done| |].
    + by rewrite update_where_ids.
    + done.
    + unfold held_supply. simpl. unfold update_where. apply Forall_fmap. eapply Forall_impl; [exact Hh|].
      intros h Hk. simpl. destruct (p h); by rewrite ?Hf.
  - intros f d n. apply agent_set_ledger.
  - intros r d n Hr Hc Ha. apply agent_set_policy; [done|]. apply policy_rows_insert; [apply Ha|done..].
Qed.

#[export] Instance grown_turns log : GrantFrame (grown log).
Proof. split; [split; [apply _|by intros..]|by intros]. Qed.
End invariants.

(** ** A sequence of turns *)

Inductive turn_op :=
  | Op_chat (message userId : jsstr) (agentId : option jsstr) (o : option RunOrigin)
  | Op_resolve (heldCallId : jsstr) (c : choice) (userId : jsstr) (agentId : option jsstr)
  | Op_reset.

Section ops.
Context `{Platform} `{!PlatformLaws _} `{Catalog} `{!LLMClient} `{!LLMEnvironment}.

(** The object after one operation, whether it returned or threw. *)
Definition after {A} (c : C A) (x : Conv * World) : Conv * World :=
  let '(_, s, w) := c (fst x) (snd x) in (s, w).
Definition run_op (op : turn_op) : Conv * World → Conv * World :=
  match op with
  | Op_chat m u a o => after (chat m u a o)
  | Op_resolve id c u a => after (resolveConfirmation id c u a)
  | Op_reset => after resetConversation
  end.

(** Under the gate, and through it. *)
Lemma gated_after {A} J (busy : A) (c : C A) x :
  ck J c → J (w_db (snd x)) (w_uuids (snd x)) →
  J (w_db (snd (after (withTurnGateC busy c) x))) (w_uuids (snd (after (withTurnGateC busy c) x))) ∧
  w_turnInFlight (snd (after (withTurnGateC busy c) x)) = w_turnInFlight (snd x).
Proof.
  intros Hc Hx. unfold after, withTurnGateC. destruct x as [s w]. cbn [fst snd] in *.
  destruct (w_turnInFlight w) eqn:Ef; [done|].
  destruct (Hc s (with_gate true w) eq_refl Hx) as [Ha1 _].
  destruct (c s (with_gate true w)) as [[r s'] w']. done.
Qed.

Lemma op_keeps J `{!GrantFrame J} `{!GatedAwaits J} `{!GatedClient J} op x :
  J (w_db (snd x)) (w_uuids (snd x)) →
  J (w_db (snd (run_op op x))) (w_uuids (snd (run_op op x))) ∧
  w_turnInFlight (snd (run_op op x)) = w_turnInFlight (snd x).
Proof.
  intros Hx. destruct op as [m u a o|id c u a|]; [| |by destruct x]; unfold run_op.
  - apply gated_after; [|done]. apply ck_bind; [apply (ck_chatGated J)|]. intros. apply ck_ret.
  - destruct x as [s w]. unfold after, resolveConfirmation, mbind, C_bind, lift. cbn [fst snd] in *.
    destruct (frame_loadHeld J id w Hx) as [Ha1 [_ _ Hg _]].
    destruct (loadHeldCall id w) as [[held|e] w1]; [|done]. cbn [snd] in *.
    destruct held as [h|]; [|done]. rewrite <- Hg. destruct (parseTurnState (hc_turn_state h)) as [st| |]; [|done|].
    + destruct (ts_heldCall st); [|done].
      pose proof (gated_after J Res_busy (ha ← lift (held_action h st u (default (js "default") a));
        resolveHeld ha c) (s, w1)) as Hgo. unfold after in Hgo. cbn [fst snd] in Hgo. apply Hgo; [|done].
      apply ck_bind; [|intros; apply (ck_resolveHeld J)]. apply ck_keeps. unfold held_action.
      pose proof (@keeps_cast J). pose proof (keeps_substitute J). keeps_tac.
    + destruct (bool_decide _); [done|].
      assert (keeps J (refuseFutureVersion h u (default (js "default") a))) as Hk.
      { unfold refuseFutureVersion. pose proof (keeps_deleteHeld J). pose proof (keeps_status_write J).
        apply keeps_bind; [apply keeps_txn; [apply _|]; by apply (keeps_closeObserved J)|]. intros. keeps_tac. }
      destruct (Hk w1 Ha1) as [Ha2 [_ _ Hg' _]].
      destruct (refuseFutureVersion _ _ _ w1) as [[[]|e] w2]; split; done || congruence.
Qed.

End ops.

(** ** What a resolution settles

    [cpw] is [pw] over the conversation. *)

Definition cpw {A} (c : C A) (Q : A → World → Prop) (s : Conv) (w : World) : Prop :=
  ∀ a s' w', c s w = (Ok a, s', w') → Q a w'.

Lemma cpw_bind {A B} (c : C B) (k : B → C A) Q s w :
  cpw c (λ b w', ∀ s', cpw (k b) Q s' w') s w → cpw (c ≫= k) Q s w.
Proof.
  intros Hc a s' w' E. unfold mbind, C_bind in E. destruct (c s w) as [[[b|e] s1] w1] eqn:Ec; [|done].
  exact (Hc b s1 w1 Ec s1 a s' w' E).
Qed.
Lemma cpw_lift {A} (m : M A) Q s w : pw m Q w → cpw (lift m) Q s w.
Proof.
  intros Hm a s' w' E. unfold lift in E. destruct (m w) as [r w1] eqn:Em. simplify_eq. by apply Hm.
Qed.
Lemma cpw_ret {A} (a : A) (Q : A → World → Prop) s w : Q a w → cpw (mret a) Q s w.
Proof. intros HQ a' s' w' E. unfold mret, C_ret in E. by simplify_eq. Qed.

(** The log is [log] with rows appended, one of which closes the decision. *)
Definition wrote_closer (log : list AuditLogRow) (pending : jsstr) (w : World) : Prop :=
  ∃ rows row, audit_log (w_db w) = log ++ rows ∧ row ∈ rows ∧ closes (wellFormed pending) row = true.
(** The hold is not in the store. *)
Definition gone (id : jsstr) (w : World) : Prop :=
  existsb (is_held id) (held_tool_calls (w_db w)) = false.

Section settles.
Context `{Platform} `{!PlatformLaws _} `{Catalog} `{!LLMClient} `{!LLMEnvironment}.
Context `{!GatedAwaits agent_inv} `{!GatedClient agent_inv}.
Context `{!∀ log, GatedAwaits (grown log)} `{!∀ log, GatedClient (grown log)}.

(** The log the resolution found. *)
Variable log : list AuditLogRow.

(** Where a turn stands: the gate held, the store well formed, the log grown; and where it
    stands once the decision is closed. *)
Definition live (w : World) : Prop :=
  w_turnInFlight w = true ∧ agent_inv (w_db w) (w_uuids w) ∧ grown log (w_db w) (w_uuids w).
Definition standing (pending : jsstr) (w : World) : Prop :=
  wrote_closer log pending w ∧ w_turnInFlight w = true ∧ agent_inv (w_db w) (w_uuids w).

Lemma closer_grown pending w w' :
  wrote_closer log pending w → grown (audit_log (w_db w)) (w_db w') (w_uuids w') → wrote_closer log pending w'.
Proof.
  intros (rows&row&E&Hin&Hc) [k Ek]. exists (rows ++ k), row. rewrite Ek, E. split; [by rewrite (assoc_L (++))|].
  split; [|done]. apply elem_of_app. by left.
Qed.

Lemma standing_m {A} pending (m : M A) w :
  (∀ J, TurnFrame J → keeps J m) → standing pending w → pw m (λ _ w', standing pending w') w.
Proof.
  intros Hm (Hc&Hg&Ha) a w' E.
  destruct (Hm agent_inv _ w Ha) as [Ha' [_ _ Hg' _]]. destruct (Hm (grown (audit_log (w_db w))) _ w) as [Hl _].
  { by exists []; rewrite app_nil_r. }
  rewrite E in *. cbn [snd] in *. split_and!; [by eapply closer_grown|congruence|done].
Qed.
Lemma standing_c {A} pending (c : C A) s w :
  (∀ J, TurnFrame J → GatedAwaits J → GatedClient J → ck J c) → standing pending w →
  cpw c (λ _ w', standing pending w') s w.
Proof.
  intros Hm (Hc&Hg&Ha) a s' w' E.
  destruct (Hm agent_inv _ _ _ s w Hg Ha) as [Ha' Hg'].
  destruct (Hm (grown (audit_log (w_db w))) _ _ _ s w Hg) as [Hl _].
  { by exists []; rewrite app_nil_r. }
  rewrite E in *. cbn [snd] in *. split_and!; [by eapply closer_grown|done|done].
Qed.

Lemma close_stands params w :
  p_epochId (rp_fields params) = None → live w →
  pw (closeObserved params) (λ _ w', standing (rp_decisionEntryId params) w') w.
Proof.
  intros He (Hg&Ha&[k Hk]) r w' E.
  pose proof (wp_observed params (λ _ w', standing (rp_decisionEntryId params) w') w Ha He) as Hw.
  unfold wp in Hw. rewrite E in Hw. apply Hw. intros row r' w1 Hwr Ha1.
  split_and!; [|by rewrite (written_gate _ _ _ _ _ _ Hwr)|done].
  exists (k ++ [row]), row. rewrite (written_db _ _ _ _ _ _ Hwr). simpl. rewrite Hk.
  split; [by rewrite (assoc_L (++))|]. split; [apply elem_of_app; right; by apply list_elem_of_singleton|].
  destruct (written_fields _ _ _ _ _ _ Hwr) as (?&?&?&?&?&->&_). simpl.
  by apply bool_decide_eq_true.
Qed.

(** A transaction that closes the decision first. *)
Lemma close_then {A} params (k : AuditEntryResult → M A) w :
  p_epochId (rp_fields params) = None → (∀ r J, TurnFrame J → keeps J (k r)) → live w →
  pw (transactionSync (closeObserved params ≫= k)) (λ _ w', standing (rp_decisionEntryId params) w') w.
Proof.
  intros He Hk Hl. apply pw_txn, pw_bind. eapply pw_mono; [by apply close_stands|].
  intros r w' Hst. apply standing_m; auto.
Qed.

Lemma outcome_stands ap tool params answered w :
  p_epochId (rp_fields ap) = None → live w →
  pw (writeOutcomeWithSpend ap tool params answered) (λ _ w', standing (rp_decisionEntryId ap) w') w.
Proof.
  intros He Hl. unfold writeOutcomeWithSpend. cbv zeta.
  set (ap' := match centsFromSpend _ _ with Some c => _ | None => _ end).
  assert (p_epochId (rp_fields ap') = None ∧ rp_decisionEntryId ap' = rp_decisionEntryId ap) as [He' <-].
  { unfold ap'. by destruct (centsFromSpend _ _). }
  apply pw_bind. eapply pw_mono.
  - apply close_then; [done| |done]. intros r J HJ. pose proof (keeps_ledger J).
    pose proof (keeps_storeTurn J). keeps_tac.
  - intros [entry ledgerError] w1 Hst. apply standing_m; [|done]. intros J HJ.
    assert (∀ m id, keeps J (closeObserved (mkCloserParams (with_error m (rp_fields ap')) id)))
      by (intros; by apply (keeps_closeObserved J)). keeps_tac.
Qed.

Lemma gone_deleted id w : gone id (with_db (set_held_tool_calls (delete_where (is_held id))) w).
Proof.
  unfold gone. simpl. apply not_true_iff_false. intros (h&Hh&Hi)%existsb_exists.
  apply filter_In in Hh as [_ Hn]. by rewrite Hi in Hn.
Qed.

Lemma record_gone h st a s w :
  cpw (resumeAndRecord h st a) (λ _ w', gone (hc_id (ha_held h)) w') s w.
Proof.
  unfold resumeAndRecord, resumeAndFinalize. apply cpw_bind, cpw_bind.
  intros b s1 w1 _ s2. apply cpw_bind, cpw_lift. intros [] w2 E2 s3. apply cpw_ret.
  assert (gone (hc_id (ha_held h)) w2) as Hg.
  { unfold deleteHeldCall, deleteHeldToolCall, modify in E2. simplify_eq. apply gone_deleted. }
  intros s4. apply cpw_bind, cpw_lift. intros [] w3 E3 s5. apply cpw_ret. revert E3.
  unfold recordRunAfterResolve, updateCommissionStatus.
  destruct (truthy_str _); [|intros E3; unfold mret, M_ret in E3; by simplify_eq].
  destruct b; intros E3; unfold nowISO, now, modify, mbind, M_bind, mret, M_ret in E3; by simplify_eq.
Qed.

Lemma record_settles h st a pending s w :
  standing pending w →
  cpw (resumeAndRecord h st a) (λ _ w', wrote_closer log pending w' ∧ gone (hc_id (ha_held h)) w') s w.
Proof.
  intros Hst b s' w' E. split; [|by eapply record_gone].
  refine (proj1 (standing_c pending _ s w _ Hst b s' w' E)). intros. by apply ck_record.
Qed.

Lemma live_m {A} (m : M A) w :
  gkeeps agent_inv m → gkeeps (grown log) m → live w → pw m (λ _ w', live w') w.
Proof.
  intros Hm Hl (Hg&Ha&Hk) a w' E. destruct (Hm w Hg Ha), (Hl w Hg Hk). rewrite E in *. done.
Qed.
Lemma live_k {A} (m : M A) w : (∀ J, GrantFrame J → keeps J m) → live w → pw m (λ _ w', live w') w.
Proof. intros Hm. apply live_m; apply gk_keeps, Hm; apply _. Qed.

(** What the three answers of a hold do to it. *)
Definition settled_hold (h : HeldAction) (w : World) : Prop :=
  wrote_closer log (hc_pending_audit_entry_id (ha_held h)) w ∧ gone (hc_id (ha_held h)) w.

Lemma deny_settles h b s w : live w → cpw (denyHeld h b) (λ _ w', settled_hold h w') s w.
Proof.
  intros Hl. unfold denyHeld. cbv zeta. apply cpw_bind, cpw_lift, pw_txn.
  eapply pw_mono; [by apply close_stands|]. intros r w1 Hst s1.
  apply cpw_bind, cpw_lift. eapply pw_mono.
  { apply (standing_m (hc_pending_audit_entry_id (ha_held h))); [|exact Hst]. intros J HJ. apply (keeps_append J). }
  intros [] w2 Hst2 s2. apply cpw_bind, cpw_lift. eapply pw_mono.
  { apply (standing_m (hc_pending_audit_entry_id (ha_held h))); [|exact Hst2]. intros J HJ. apply (keeps_storeTurn J). }
  intros [] w3 Hst3 s3. by apply record_settles.
Qed.

Lemma recover_settles h s w : live w → cpw (recoverDispatched h) (λ _ w', settled_hold h w') s w.
Proof.
  intros Hl. unfold recoverDispatched. cbv zeta. apply cpw_bind, cpw_lift. eapply pw_mono.
  { apply close_then; [done| |done]. intros r J HJ. apply (keeps_storeTurn J). }
  intros [] w1 Hst s1. by apply record_settles.
Qed.

Lemma dispatch_settles h g s w : live w → cpw (dispatchHeld h g) (λ _ w', settled_hold h w') s w.
Proof.
  intros Hl. unfold dispatchHeld, runMarked. cbv zeta. apply cpw_bind, cpw_lift.
  eapply pw_mono; [apply live_k; [intros; apply (keeps_mark J)|exact Hl]|].
  intros [] w2 Hl2 s2. apply cpw_bind, cpw_lift.
  eapply pw_mono; [apply live_m; [apply (gk_dispatch agent_inv)|apply (gk_dispatch (grown log))|exact Hl2]|].
  intros x w3 Hl3 s3. apply cpw_bind, cpw_lift. eapply pw_mono; [apply live_k; [|exact Hl3]|].
  { intros J HJ. unfold dispatch_answer, fenceUntrusted. cbv zeta. keeps_tac. }
  intros a w4 Hl4 s4. apply cpw_bind, cpw_lift. eapply pw_mono; [by apply outcome_stands|].
  intros e w5 Hst s5. apply cpw_bind, cpw_lift. eapply pw_mono.
  { apply (standing_m (hc_pending_audit_entry_id (ha_held h))); [|exact Hst]. intros J HJ. apply (keeps_append J). }
  intros [] w6 Hst6 s6. by apply record_settles.
Qed.

Lemma affirm_settles h c ctx s w :
  live w →
  cpw (affirmHeld h c ctx) (λ res w', match res with
    | Res_resumed r => lp_held r ≠ Some (hc_id (ha_held h)) → settled_hold h w'
    | _ => settled_hold h w'
    end) s w.
Proof.
  intros Hl. unfold affirmHeld. apply cpw_bind, cpw_lift. eapply pw_mono; [apply live_k; [|exact Hl]|].
  { intros J HJ. unfold grantFor. cbv zeta. pose proof (keeps_taskGrant J). pose proof (keeps_sessionGrant J).
    keeps_tac. }
  intros g w1 Hl1 s1. apply cpw_bind, cpw_lift. eapply pw_mono; [apply live_k; [|exact Hl1]|].
  { intros J HJ. unfold spendOnResume. pose proof (keeps_stage_read J). keeps_tac. }
  intros [[cost context]|] w2 Hl2 s2.
  - unfold rehold. cbv zeta. apply cpw_bind. intros [] s3 w3 _ s4. apply cpw_bind. intros [] s5 w5 _ s6.
    apply cpw_ret. by intros Hn.
  - intros res s' w' E. pose proof (dispatch_settles h g s2 w2 Hl2 res s' w' E). by destruct res.
Qed.

Lemma resolve_settles h c s w r s' w' :
  live w → resolveHeld h c s w = (Ok (Res_resumed r), s', w') → lp_held r ≠ Some (hc_id (ha_held h)) →
  gone (hc_id (ha_held h)) w' ∧
  (answered_of (ha_state h) = None → wrote_closer log (hc_pending_audit_entry_id (ha_held h)) w').
Proof.
  intros Hl E Hn.
  assert (∀ b ctx, (match answered_of (ha_state h) with
    | Some answered => a ← lift (cast (read_answered answered)); resumeAndRecord h (ha_state h) a
    | None => if ts_dispatched (ha_state h) then recoverDispatched h
              else if bool_decide (c = Ch_tell_more) then mret (Res_info (tell_more h))
              else if bool_decide (c = Ch_deny) || b then denyHeld h b
              else affirmHeld h c ctx end) s w = (Ok (Res_resumed r), s', w') →
    gone (hc_id (ha_held h)) w' ∧
    (answered_of (ha_state h) = None → wrote_closer log (hc_pending_audit_entry_id (ha_held h)) w')) as Hgo.
  { intros b ctx. destruct (answered_of (ha_state h)) as [answered|].
    - intros E'. split; [|done]. revert E'.
      apply (cpw_bind (lift (cast (read_answered answered))) _ (λ _ w', gone (hc_id (ha_held h)) w')).
      intros a s1 w1 _ s2. apply record_gone.
    - assert (∀ (P : ConfirmationResolution → World → Prop) (d : C ConfirmationResolution),
        cpw d P s w → d s w = (Ok (Res_resumed r), s', w') →
        (P (Res_resumed r) w' → settled_hold h w') → gone (hc_id (ha_held h)) w' ∧
        (@None json = None → wrote_closer log (hc_pending_audit_entry_id (ha_held h)) w')) as Hd.
      { intros P d Hd E' Hp. by destruct (Hp (Hd _ _ _ E')). }
      destruct (ts_dispatched (ha_state h)); [intros E'; by eapply Hd; [apply recover_settles| |]|].
      destruct (bool_decide _); [done|]. destruct (_ || b).
      + intros E'. by eapply Hd; [apply deny_settles| |].
      + intros E'. eapply Hd; [by apply affirm_settles|exact E'|auto]. }
  revert E. unfold resolveHeld. cbv zeta. destruct (parseSpendContext _) as [ctx|], c; first [apply Hgo|done].
Qed.
End settles.

(** ** Only a resumed answer changes anything *)

Section refusals.
Context `{Platform} `{!PlatformLaws _} `{Catalog} `{!LLMClient} `{!LLMEnvironment}.

Definition resumes (res : ConfirmationResolution) (_ : World) : Prop := ∃ r, res = Res_resumed r.

Lemma cpw_skip {A B} (c : C B) (k : B → C A) Q s w : (∀ b s w, cpw (k b) Q s w) → cpw (c ≫= k) Q s w.
Proof. intros Hk. apply cpw_bind. intros b s1 w1 _ s2. apply Hk. Qed.

Lemma record_resumes h st a s w : cpw (resumeAndRecord h st a) resumes s w.
Proof.
  unfold resumeAndRecord. apply cpw_bind. intros res s1 w1 E s2. apply cpw_skip. intros [] s3 w3. apply cpw_ret.
  revert res s1 w1 E. change (cpw (resumeAndFinalize (resume_of h st a)) resumes s w).
  unfold resumeAndFinalize. apply cpw_bind. intros res s1 w1 E s4. apply cpw_skip. intros [] s5 w5. apply cpw_ret.
  revert res s1 w1 E. destruct (is_direct (re_turnState (resume_of h st a))) eqn:Ed.
  - apply (cpw_lift _ resumes). unfold directExecuteResolution. apply pw_bind. intros c w1 _ res w2 E.
    unfold mret, M_ret in E. simplify_eq. by eexists.
  - unfold resumeHeldTurn. rewrite Ed.
    do 4 (apply cpw_skip; intros ? ? ?). cbv zeta. apply cpw_skip. intros r ? ?. apply cpw_ret. by exists r.
Qed.

Lemma affirm_resumes h c ctx s w : cpw (affirmHeld h c ctx) resumes s w.
Proof.
  unfold affirmHeld. apply cpw_skip. intros g s1 w1. apply cpw_skip. intros [[cost context]|] s2 w2.
  - unfold rehold. cbv zeta. do 2 (apply cpw_skip; intros [] ? ?). apply cpw_ret. by eexists.
  - unfold dispatchHeld, runMarked. cbv zeta. do 5 (apply cpw_skip; intros ? ? ?). apply record_resumes.
Qed.

Lemma resolveHeld_refusal h c s w res s' w' :
  resolveHeld h c s w = (Ok res, s', w') → (∀ r, res ≠ Res_resumed r) → s' = s ∧ w' = w.
Proof.
  intros E Hn.
  assert (∀ d : C ConfirmationResolution, cpw d resumes s w → d s w = (Ok res, s', w') → s' = s ∧ w' = w) as Hd.
  { intros d Hd E'. destruct (Hd _ _ _ E') as [r Hr]. by destruct (Hn r). }
  assert (∀ b ctx, (match answered_of (ha_state h) with
    | Some answered => a ← lift (cast (read_answered answered)); resumeAndRecord h (ha_state h) a
    | None => if ts_dispatched (ha_state h) then recoverDispatched h
              else if bool_decide (c = Ch_tell_more) then mret (Res_info (tell_more h))
              else if bool_decide (c = Ch_deny) || b then denyHeld h b
              else affirmHeld h c ctx end) s w = (Ok res, s', w') → s' = s ∧ w' = w) as Hgo.
  { intros b ctx. destruct (answered_of (ha_state h)) as [answered|].
    { apply Hd. apply cpw_skip. intros. apply record_resumes. }
    destruct (ts_dispatched (ha_state h)).
    { apply Hd. unfold recoverDispatched. cbv zeta. apply cpw_skip. intros. apply record_resumes. }
    destruct (bool_decide _); [by intros [= <- <- <-]|]. destruct (_ || b).
    - apply Hd. unfold denyHeld. cbv zeta. do 3 (apply cpw_skip; intros ? ? ?). apply record_resumes.
    - apply Hd, affirm_resumes. }
  revert E. unfold resolveHeld. cbv zeta.
  destruct (parseSpendContext _) as [ctx|], c; first [apply Hgo|by intros [= <- <- <-]].
Qed.
End refusals.

(** ** Properties *)

Section properties.
Context `{Platform} `{!PlatformLaws _} `{Catalog} `{!LLMClient} `{!LLMEnvironment}.

(** A chat keeps the conversation one the provider accepts. Whatever state the
    buffer is left in by a held call that was swept, a call the provider cut off
    or a crash, the next chat repairs it before it sends anything: every request
    it sends is accepted, and so is what it leaves. *)
Theorem chat_requests_accepted `{!LLMLaws _} message userId agentId o s w :
  message ≠ [] → conv_ok s → conv_ok (fst (after (chat message userId agentId o) (s, w))).
Proof.
  intros Hm Hs. unfold after, chat, withTurnGateC. cbn [fst snd]. destruct (w_turnInFlight w); [done|].
  pose proof (chatGated_conv_ok message userId (default (js "default") agentId) (default RO_human o) s
    (with_gate true w) Hm Hs) as Hc.
  unfold cwp in Hc. unfold mbind, C_bind. destruct (chatGated _ _ _ _ s _) as [[[r|e] s'] w']; exact Hc.
Qed.

Lemma gate_body {A} (out : res A * Conv * World) r s w :
  (let '(r, s, w) := out in (r, s, with_gate false w)) = (r, s, w) →
  ∃ w2, out = (r, s, w2) ∧ w = with_gate false w2.
Proof. destruct out as [[r1 s1] w2]. intros [= <- <- <-]. by exists w2. Qed.

(** Finding a hold and reading the call it parks only read. *)
Lemma loadHeld_reads id w r w1 :
  loadHeldCall id w = (r, w1) → w_db w1 = w_db w ∧
    match r with Ok (Some h) => h ∈ held_tool_calls (w_db w) ∧ hc_id h = id | _ => True end.
Proof.
  intros El. unfold loadHeldCall, readHeldCall, holdExpired, sessionStartedAt, readSessionStartedAt,
    select, now, mbind, M_bind, mret, M_ret in El.
  destruct (List.find (is_held id) (held_tool_calls (w_db w))) as [h|] eqn:Ef; [|by simplify_eq].
  apply find_some in Ef as [Hh%list_elem_of_In He%eqs_true]. cbv beta iota in El.
  destruct (ss_started_at <$> _) as [t|]; [destruct (dateOf t)|]; cbn in El;
    repeat case_match; simplify_eq; done.
Qed.
Lemma held_action_reads h st u a w r w1 :
  held_action h st u a w = (r, w1) → w1 = w ∧
    match r with Ok ha => ha_held ha = h ∧ ha_state ha = st | _ => True end.
Proof.
  unfold held_action, cast, substituteRunData, readCommissionRun_row, parse_data, select, mbind, M_bind, mret,
    M_ret, throw. intros Eh. repeat (case_match; simplify_eq/=; try done).
Qed.

(** A resolution that resumes a turn: which hold it resolved, and from where. *)
Lemma resumed_from id c userId agentId s w r s' w' :
  resolveConfirmation id c userId agentId s w = (Ok (Res_resumed r), s', w') →
  ∃ h st ha w1 w2, h ∈ held_tool_calls (w_db w) ∧ hc_id h = id ∧ parseTurnState (hc_turn_state h) = TurnOk st ∧
    ha_held ha = h ∧ ha_state ha = st ∧ w1 = with_gate true (snd (loadHeldCall id w)) ∧ w_db w1 = w_db w ∧
    resolveHeld ha c s w1 = (Ok (Res_resumed r), s', w2) ∧ w' = with_gate false w2.
Proof.
  intros E. unfold resolveConfirmation, mbind, C_bind, lift in E.
  destruct (loadHeldCall id w) as [r1 w1] eqn:El. destruct (loadHeld_reads _ _ _ _ El) as [Hdb Hr].
  destruct r1 as [[h|]|]; [|done..]. destruct Hr as [Hh Hid].
  destruct (parseTurnState (hc_turn_state h)) as [st| |] eqn:Ep; [|done|].
  2:{ destruct (bool_decide _); [done|]. destruct (refuseFutureVersion _ _ _ w1) as [[[]|e] w2]; done. }
  destruct (ts_heldCall st); [|done]. unfold withTurnGateC in E. destruct (w_turnInFlight w1) eqn:Ef; [done|].
  destruct (gate_body _ _ _ _ E) as (w2&E1&->). cbv beta in E1.
  destruct (held_action _ _ _ _ (with_gate true w1)) as [[ha|e] w3] eqn:Eh; [|done].
  apply held_action_reads in Eh as [-> [Hha Hst]].
  exists h, st, ha, (with_gate true w1), w2. done.
Qed.

(** With an answer on record the resolution only resumes the turn from it. *)
Lemma resolve_answered h c s w v r s' w' :
  answered_of (ha_state h) = Some v → resolveHeld h c s w = (Ok (Res_resumed r), s', w') →
  ∃ a, read_answered v = Some a ∧ resumeAndRecord h (ha_state h) a s w = (Ok (Res_resumed r), s', w').
Proof.
  intros Ea E. unfold resolveHeld in E. rewrite Ea in E.
  assert ((a ← lift (cast (read_answered v)); resumeAndRecord h (ha_state h) a) s w = (Ok (Res_resumed r), s', w')) as E'.
  { revert E. cbv zeta. by destruct (parseSpendContext _) as [ctx|], c. }
  unfold mbind, C_bind, lift, cast in E'. destruct (read_answered v) as [a|]; [|done]. by exists a.
Qed.

(** C3: a resolution settles its hold. When one returns a resumed turn that is not waiting
    on the same hold again, the hold was in the store under the answered identifier, with
    a turn state this version reads, and it is in the store no more. If no answer was on
    record in it, the log is the one the resolution found with rows appended, and one of
    those rows closes the hold's pending decision: the resolution wrote its closer. If an
    answer was on record (an earlier resolution recorded it and was cut off), the
    resolution is the resumption of the turn from exactly that recorded answer, from an
    unchanged store: nothing is decided a second time. (Assumed: what tools and the
    provider do to the store while they are awaited keeps it well formed and appends to
    the log only.) *)
Theorem resolution_settles id c userId agentId s w r s' w' :
  GatedAwaits agent_inv → GatedClient agent_inv →
  (∀ log, GatedAwaits (grown log)) → (∀ log, GatedClient (grown log)) →
  agent_inv (w_db w) (w_uuids w) →
  resolveConfirmation id c userId agentId s w = (Ok (Res_resumed r), s', w') → lp_held r ≠ Some id →
  ∃ h st, h ∈ held_tool_calls (w_db w) ∧ hc_id h = id ∧ parseTurnState (hc_turn_state h) = TurnOk st ∧
    gone id w' ∧
    (answered_of st = None → wrote_closer (audit_log (w_db w)) (hc_pending_audit_entry_id h) w') ∧
    (∀ v, answered_of st = Some v → ∃ a ha w1 w2, read_answered v = Some a ∧ ha_held ha = h ∧ ha_state ha = st ∧
       w_db w1 = w_db w ∧ resumeAndRecord ha st a s w1 = (Ok (Res_resumed r), s', w2) ∧ w' = with_gate false w2).
Proof.
  intros Ha Hc Hag Hcg Hw (h&st&ha&w1&w2&Hh&<-&Ep&<-&<-&Ew1&Hdb&E&->)%resumed_from Hn.
  exists (ha_held ha), (ha_state ha).
  assert (live (audit_log (w_db w)) w1) as Hl.
  { split; [by rewrite Ew1|]. split; [|exists []; by rewrite Hdb, app_nil_r].
    rewrite Ew1. by destruct (frame_loadHeld agent_inv (hc_id (ha_held ha)) w Hw). }
  destruct (resolve_settles (audit_log (w_db w)) ha c s w1 r s' w2 Hl E Hn) as [Hg Hcl].
  split_and!; [done..|]. intros v Hv. destruct (resolve_answered _ _ _ _ _ _ _ _ Hv E) as (a&Hra&Er).
  by exists a, ha, w1, w2.
Qed.

(** An answer that is refused changes nothing. Unless it resumes the turn, a
    resolution leaves the conversation and every table as they were: an
    identifier that names no live hold, a choice the hold does not take, a turn
    already in flight, the question about the call. The one exception is a hold
    written by a newer engine, which any choice but the question closes. *)
Theorem refused_answers_change_nothing id c userId agentId s w res s' w' :
  resolveConfirmation id c userId agentId s w = (Ok res, s', w') → (∀ r, res ≠ Res_resumed r) →
  (c = Ch_tell_more ∨
   ∀ h, h ∈ held_tool_calls (w_db w) → hc_id h = id → parseTurnState (hc_turn_state h) ≠ TurnFutureVersion) →
  s' = s ∧ w_db w' = w_db w.
Proof.
  intros E Hn Hf. unfold resolveConfirmation, mbind, C_bind, lift in E.
  destruct (loadHeldCall id w) as [r1 w1] eqn:El. destruct (loadHeld_reads _ _ _ _ El) as [Hdb Hr].
  destruct r1 as [[h|]|e]; [|by injection E as <- <- <-|done]. destruct Hr as [Hh Hid].
  destruct (parseTurnState (hc_turn_state h)) as [st| |] eqn:Ep; [|by injection E as <- <- <-|].
  2:{ destruct Hf as [->|Hf]; [|by destruct (Hf h Hh Hid)]. by injection E as <- <- <-. }
  destruct (ts_heldCall st); [|by injection E as <- <- <-]. unfold withTurnGateC in E.
  destruct (w_turnInFlight w1); [by injection E as <- <- <-|].
  destruct (gate_body _ _ _ _ E) as (w2&E1&->). cbv beta in E1.
  destruct (held_action _ _ _ _ (with_gate true w1)) as [[ha|e] w3] eqn:Eh; [|done].
  apply held_action_reads in Eh as [-> _]. destruct (resolveHeld_refusal _ _ _ _ _ _ _ E1 Hn) as [-> ->].
  done.
Qed.

(** A held call is run only once its hold is marked and its single-use grant is
    spent: the dispatch starts from a store in which the row carries
    [dispatched], so that a crash during it is found, and in which no task grant
    of the answer is left to use. *)
Theorem dispatch_is_marked h g s w :
  ha_held h ∈ held_tool_calls (w_db w) → (∃ fs, ha_state h = JObj fs) →
  ∃ w1, dispatchHeld h g s w = runMarked h s w1 ∧
    (∃ row st, row ∈ held_tool_calls (w_db w1) ∧ hc_id row = hc_id (ha_held h) ∧
       parseTurnState (hc_turn_state row) = TurnOk st ∧ ts_dispatched st = true) ∧
    (∀ id r, g = Some id → id ≠ [] → r ∈ policy_entries (w_db w1) → po_id r = id →
       po_source r = S_task → po_consumed_at r ≠ None).
Proof.
  intros Hh [fs Hst]. set (t := wrapTurnState (with_member "dispatched" (JBool true) (ha_state h))).
  set (mark := set_held_tool_calls (update_where (is_held (hc_id (ha_held h))) (set_turn_state t))).
  set (w0 := match g with
    | Some (c :: id) => with_db (set_policy_entries (update_where (consumable (c :: id))
        (consume (toISOString (w_clock w (w_ticks w))))))
        (mkWorld (w_db w) (w_clock w) (S (w_ticks w)) (w_uuids w) (w_turnInFlight w))
    | _ => w end).
  assert (held_tool_calls (w_db w0) = held_tool_calls (w_db w)) as Eh by by destruct g as [[|]|].
  exists (with_db mark w0). split_and!.
  - unfold dispatchHeld, markDispatched, storeHeldTurnState, updateHeldTurnState, lift, mbind, C_bind, M_bind.
    destruct g as [[|c id]|]; reflexivity.
  - exists (set_turn_state t (ha_held h)), (with_member "dispatched" (JBool true) (ha_state h)).
    split_and!; [|done|..].
    + simpl. rewrite Eh. unfold update_where. apply list_elem_of_fmap. exists (ha_held h).
      split; [|done]. unfold is_held. by rewrite eqs_refl.
    + unfold t. simpl. rewrite Hst. reflexivity.
    + rewrite Hst. unfold ts_dispatched. simpl. by rewrite get_set_field.
  - intros id r -> Hne Hr Hid Hsrc. destruct id as [|c id]; [done|]. simpl in Hr.
    unfold update_where in Hr. apply list_elem_of_fmap in Hr as (r0&->&Hr0).
    destruct (consumable (c :: id) r0) eqn:Ec; [done|]. unfold consumable, unconsumed in Ec.
    unfold is_policy in Ec. rewrite Hid, eqs_refl, Hsrc in Ec. simpl in Ec.
    by apply bool_decide_eq_false in Ec.
Qed.

(** C32: a direct call that was dispatched, answered or denied is never run again. Its
    resolution keeps every fact about the store that the coordinator's own writes
    keep, whatever the tools and the provider would do: neither is called. *)
Theorem settled_call_not_rerun J `{!TurnFrame J} h c s w :
  is_direct (ha_state h) = true →
  ts_dispatched (ha_state h) = true ∨ answered_of (ha_state h) ≠ None ∨ c = Ch_deny →
  w_turnInFlight w = true → J (w_db w) (w_uuids w) →
  let w' := snd (resolveHeld h c s w) in J (w_db w') (w_uuids w') ∧ w_turnInFlight w' = true.
Proof.
  intros Hd Hs Hg Hj.
  assert (∀ st a, is_direct st = true → ck J (resumeAndRecord h st a)) as Hr.
  { intros st a Ed. unfold resumeAndRecord, resumeAndFinalize.
    change (re_turnState (resume_of h st a)) with st. rewrite Ed. ck_tac; apply ck_keeps.
    - unfold directExecuteResolution. pose proof (@keeps_cast J). keeps_tac.
    - apply (keeps_deleteHeld J).
    - unfold recordRunAfterResolve. pose proof (keeps_status_write J). keeps_tac. }
  assert (∀ v, is_direct (with_member "answered" v (ha_state h)) = true) as Hm.
  { intros v. revert Hd. unfold is_direct. destruct (ha_state h); try done. simpl. by rewrite get_set_field_ne. }
  pose proof (keeps_closeObserved J) as Hclose. pose proof (keeps_storeTurn J) as Hst.
  assert (∀ b ctx, ck J (match answered_of (ha_state h) with
    | Some answered => a ← lift (cast (read_answered answered)); resumeAndRecord h (ha_state h) a
    | None => if ts_dispatched (ha_state h) then recoverDispatched h
              else if bool_decide (c = Ch_tell_more) then mret (Res_info (tell_more h))
              else if bool_decide (c = Ch_deny) || b then denyHeld h b
              else affirmHeld h c ctx end)) as Hgo.
  { intros b ctx. destruct (answered_of (ha_state h)) as [answered|].
    { apply ck_bind; [apply ck_keeps, keeps_cast|]. intros a. by apply Hr. }
    destruct (ts_dispatched (ha_state h)).
    { unfold recoverDispatched. cbv zeta. apply ck_bind; [|intros; by apply Hr]. apply ck_keeps, keeps_txn; [apply _|].
      apply keeps_bind; [by apply Hclose|]. intros. apply Hst. }
    destruct Hs as [Hs|[Hs| ->]]; [done..|]. cbn [bool_decide]. rewrite bool_decide_false by done.
    rewrite bool_decide_true by done. cbn [orb]. unfold denyHeld. cbv zeta. ck_tac; [..|by apply Hr]; apply ck_keeps.
    - apply keeps_txn; [apply _|]. by apply Hclose.
    - by apply (keeps_append J).
    - apply Hst. }
  revert s w Hg Hj. change (ck J (resolveHeld h c)). unfold resolveHeld. cbv zeta.
  destruct (parseSpendContext _) as [ctx|], c; first [apply ck_ret|apply Hgo].
Qed.
End properties.
