(* ===== verification/Tasks.v ===== *)
(** * Commissioned tasks

    The task surface of [packages/engine/src/agent/user-agent.ts]: a goal that an
    external client commissions, the reads of its run, the input it may still
    provide or amend, and its cancellation. *)

From S2P Require Export TurnStore.
Open Scope Z_scope.

(** ** Data *)

Definition COMMISSION_GOAL_MAX_CHARS : nat := 4000.
Definition COMMISSION_DATA_MAX_CHARS : nat := 16000.
Definition MAX_PENDING_COMMISSIONS : nat := 8.

(** A map of strings, in the order of its keys. *)
Abbreviation data_map := (list (jsstr * jsstr)).
Definition data_json (data : data_map) : json := JObj ((λ kv, (fst kv, JStr (snd kv))) <$> data).
(** The stored map; the engine stores maps of strings. *)
Definition read_data (v : json) : option data_map :=
  fs ← as_object v; mapM (λ kv, s ← as_str (snd kv); Some (fst kv, s)) fs.
(** [{ ...a, ...b }]. *)
Definition merge (a b : data_map) : data_map := foldl (λ m kv, map_set (fst kv) (snd kv) m) a b.
(** The characters of its values. *)
Definition data_size (data : data_map) : nat := sum_list ((λ kv, length (snd kv)) <$> data).

Inductive busy_reason := Busy_turn_in_flight | Busy_commission_pending.
Inductive CommissionOutcome :=
  | Co_busy (reason : busy_reason)
  | Co_run (runId : jsstr) (status : run_status).
Record CommissionRunView := mkRunView {
  rv_runId : jsstr;
  rv_status : run_status;
  rv_statusDetail : option (list json);
  rv_awaitedSlotKeys : option (list jsstr);
}.
Record TaskDetailResponse := mkTaskDetail {
  td_task : TaskSummary;
  td_statusDetail : option (list json);
  td_awaitedSlotKeys : option (list jsstr);
}.
Inductive ProvideTaskInputResult :=
  | Pr_busy
  | Pr_not_found
  | Pr_not_awaiting_input (current : run_status)
  | Pr_no_matching_slot (awaited : list jsstr)
  | Pr_provided (status : run_status).
Inductive CancelTaskResult :=
  | Ca_cancelled (previous : run_status)
  | Ca_running
  | Ca_busy
  | Ca_resolving
  | Ca_not_cancellable (current : run_status)
  | Ca_not_found
  | Ca_forbidden.
Inductive AmendTaskResult :=
  | Am_busy
  | Am_not_found
  | Am_forbidden
  | Am_running
  | Am_not_amendable (current : run_status)
  | Am_amended (status : run_status).

(** A list of strings, which is what the engine writes. *)
Definition parseAwaitedSlotKeys (raw : option json_text) : option (list jsstr) :=
  t ← raw; v ← JSON_parse t; l ← as_list v; mapM as_str l.

Definition turnInFlight : M bool := λ w, (Ok (w_turnInFlight w), w).
(** [row!]: using [undefined] throws. *)
Definition expect {A} (m : M (option A)) : M A := v ← m; cast v.

Section tasks.
Context `{Platform} `{Catalog} `{!LLMClient} `{!LLMEnvironment}.

(** ** Admission *)

(** The checks on a client's map, by the name of the caller. *)
Definition assertPublishedData (data : data_map) (caller : string) : M unit :=
  published ← match publishedDataSlots with inr m => mret m | inl e => throw (Exn e) end;
  let unknown := List.filter (λ k, negb (existsb (λ kv, eqs (fst kv) k) published)) (fst <$> data) in
  match unknown with
  | _ :: _ => throw (Exn (js caller ++ js ": unpublished data keys: " ++ Json.join (js ", ") unknown))
  | [] =>
      if (COMMISSION_DATA_MAX_CHARS <? data_size data)%nat
      then throw (Exn (js caller ++ js ": data values exceed 16000 characters"))
      else mret tt
  end.

Fixpoint data_lines (data : data_map) : M (list jsstr) :=
  match data with
  | [] => mret []
  | (key, value) :: rest =>
      fenced ← fenceUntrusted value;
      lines ← data_lines rest;
      mret ((js "data." ++ key ++ js " (client-supplied verbatim value; pass unchanged with {{data." ++
             key ++ js "}}):") :: fenced :: lines)
  end.
Definition composeCommissionMessage (goal : jsstr) (data : option data_map) : M jsstr :=
  lines ← data_lines (default [] data);
  mret (Json.join [10%N] ([js "[Relayed from an external client via Habenula's commission surface " ++ [8212%N] ++
                       js " not typed by your user]"; js "Goal (client-authored):"; goal] ++ lines)).

(** The reconciliation of the runs that are not terminal, and how many of the
    external surface still wait. *)
Fixpoint countPending (now : jsstr) (runs : list CommissionRunsRow) : M nat :=
  match runs with
  | [] => mret 0%nat
  | r :: rest =>
      let mine := bool_decide (cr_origin r = O_mcp_commission) in
      counted ←
        (if bool_decide (cr_status r = R_running) then
           liveHold ← selectHeldCallForRun (cr_run_id r);
           let live := match truthy_str liveHold with Some _ => true | None => false end in
           updateCommissionStatus (cr_run_id r) (if live then R_awaiting_confirmation else R_failed) now ;;
           mret (live && mine)
         else
           endedAt ← readSessionEndedAt (cr_session_id r);
           match endedAt with
           | Some _ => expireRun (cr_run_id r) now ;; mret false
           | None => mret mine
           end);
      n ← countPending now rest;
      mret ((if counted : bool then 1 else 0) + n)%nat
  end.

Definition countQueue : M nat :=
  nonTerminal ← selectNonTerminalRuns; now ← nowISO; countPending now nonTerminal.

(** The row's status, whatever was meant to be written. *)
Definition commissionOutcomeFor (runId : jsstr) : M CommissionOutcome :=
  row ← expect (readCommissionRun_row runId);
  mret (Co_run runId (cr_status row)).

(** The turn of an admitted goal, on a buffer of its own. *)
Definition commissionTurn (goal : jsstr) (data : option data_map) (userId agentId runId : jsstr)
    (tools : list LLMToolDefinition) : C ConversationLoopResult :=
  config ← lift getLLMConfig;
  message ← lift (composeCommissionMessage goal data);
  lift getLLMClient ;;
  onThrowaway (runConversationLoop (mkLoopParams message tools
    (executeToolForLoop userId agentId (Some O_mcp_commission) RO_commission (Some runId))
    (lg_model config) (lg_maxTokens config) (Some commission_prompt)
    (Some (persistWith RO_commission)) None)).
Definition settleRun (runId : jsstr) (status : run_status) : M CommissionOutcome :=
  t ← nowISO; updateCommissionStatus runId status t ;; commissionOutcomeFor runId.

Definition runAdmitted (goal : jsstr) (data : option data_map) (userId agentId runId : jsstr)
    : C CommissionOutcome :=
  tools ← lift (offeredTools RO_commission);
  attempt
    (result ← commissionTurn goal data userId agentId runId tools;
     lift (settleRun runId (match lp_held result with
                            | Some _ => R_awaiting_confirmation
                            | None => commissionTerminalStatus (lp_toolCalls result)
                            end)))
    (λ _, lift (settleRun runId R_failed)).

Definition startRun (goal : jsstr) (data : option data_map) (sessionId : jsstr) : M (option jsstr) :=
  runId ← newUUID;
  createdAt ← nowISO;
  insertCommissionRun runId goal ((Parsed ∘ data_json) <$> data) sessionId createdAt ;;
  mret (Some runId).
(** The admission: [None] when the queue is full. *)
Definition admit_run (goal : jsstr) (data : option data_map) (userId agentId : jsstr) : M (option jsstr) :=
  reapExpiredSessions ;;
  pendingCount ← countQueue;
  if (MAX_PENDING_COMMISSIONS <=? pendingCount)%nat then mret None
  else
    sessionId ← resolveActiveSession userId agentId (Some O_mcp_commission);
    startRun goal data sessionId.
Definition commissionGated (goal : jsstr) (data : option data_map) (userId agentId : jsstr)
    : C CommissionOutcome :=
  admitted ← lift (admit_run goal data userId agentId);
  match admitted with
  | None => mret (Co_busy Busy_commission_pending)
  | Some runId => runAdmitted goal data userId agentId runId
  end.

Definition goal_in_bounds (goal : jsstr) : bool :=
  (0 <? length goal)%nat && (length goal <=? COMMISSION_GOAL_MAX_CHARS)%nat.
Definition commissionGoal (goal : jsstr) (data : option data_map) (userId agentId : jsstr)
    : C CommissionOutcome :=
  if negb (goal_in_bounds goal) then raise (Exn (js "commissionGoal: goal length out of bounds (1..4000)"))
  else
    match data with
    | Some data => lift (assertPublishedData data "commissionGoal")
    | None => mret tt
    end ;;
    withTurnGateC (Co_busy Busy_turn_in_flight) (commissionGated goal data userId agentId).

(** ** Reads of a run *)

Definition readCommissionRun (runId : jsstr) : M (option CommissionRunView) :=
  reapExpiredSessions ;;
  found ← readCommissionRun_row runId;
  match found with
  | None => mret None
  | Some run =>
      busy ← turnInFlight;
      run ← (if bool_decide (cr_status run = R_running) && negb busy then
               liveHold ← selectHeldCallForRun runId;
               t ← nowISO;
               updateCommissionStatus runId
                 (match truthy_str liveHold with Some _ => R_awaiting_confirmation | None => R_failed end) t ;;
               expect (readCommissionRun_row runId)
             else mret run);
      run ← (if has_run_status open_statuses run then
               endedAt ← readSessionEndedAt (cr_session_id run);
               match endedAt with
               | None => mret run
               | Some _ => t ← nowISO; expireRun runId t ;; expect (readCommissionRun_row runId)
               end
             else mret run);
      mret (Some (mkRunView (cr_run_id run) (cr_status run) (parseStatusDetail (cr_status_detail run))
        (parseAwaitedSlotKeys (cr_awaited_slot_keys run))))
  end.

Definition readTaskDetail (taskId : jsstr) : M (option TaskDetailResponse) :=
  view ← readCommissionRun taskId;
  match view with
  | None => mret None
  | Some view =>
      row ← readCommissionRun_row taskId;
      mret ((λ r, mkTaskDetail
        (taskSummaryFromRow (set_run (rv_status view) (cr_data r) (cr_status_detail r) (cr_awaited_slot_keys r)
          (cr_updated_at r) r))
        (rv_statusDetail view) (rv_awaitedSlotKeys view)) <$> row)
  end.

(** ** Input of the client *)

(** The stored map with the client's values over it, within the cap. *)
Definition mergedDataFor (caller : string) (run : CommissionRunsRow) (data : data_map) : M data_map :=
  existing ← match cr_data run with
             | Some d => if truthy (Some d) then v ← parse_data d; cast (read_data v) else mret []
             | None => mret []
             end;
  let merged := merge existing data in
  if (COMMISSION_DATA_MAX_CHARS <? data_size merged)%nat
  then throw (Exn (js caller ++ js ": merged data values exceed 16000 characters"))
  else mret merged.

Definition without (ks : list string) (st : json) : json :=
  match st with
  | JObj fs => JObj (List.filter (λ kv, negb (existsb (λ k, eqs (fst kv) (js k)) ks)) fs)
  | _ => st
  end.

(** What the model and the client are told of the re-attempt. *)
Definition provided_answer (heldCall : LLMToolUseBlock) (result : ToolOutcome) : M Answered :=
  let error := default (js "Tool execution failed") (xo_error result) in
  let outcome := if xo_boundaryRefused result then TC_boundary_refused
                 else if xo_denied result then TC_denied
                 else if xo_success result then TC_success else TC_error in
  content ← (if xo_boundaryRefused result then mret CONTROL_PLANE_REFUSAL
             else if xo_denied result then mret (js "Denied by policy")
             else fenceUntrusted (if xo_success result then JSON_stringify (default JNull (xo_data result))
                                  else error));
  mret (mkAnswered (mkToolResult (tu_id heldCall) content (Some (xo_denied result || negb (xo_success result))))
    outcome (if bool_decide (outcome = TC_error) then Some error else None)).

Definition provideGated (taskId : jsstr) (merged : data_map) (hold : HeldToolCallsRow) (turnState : json)
    (userId agentId : jsstr) : C ProvideTaskInputResult :=
  now ← lift nowISO;
  lift (updateRunData taskId (Parsed (data_json merged)) now) ;;
  lift (clearNeedsInput taskId now) ;;
  heldCall ← lift (cast (req "heldCall" read_tool_use turnState));
  lift (storeHeldTurnState (hc_id hold) (wrapTurnState (with_member "dispatched" (JBool true) turnState))) ;;
  result ← lift (executeToolForLoop userId agentId (Some O_mcp_commission) RO_commission (Some taskId)
    (tu_name heldCall) (tu_input heldCall));
  lift (closeInputParkAudit (hc_pending_audit_entry_id hold) now) ;;
  (if xo_held result then
     let grafted := without ["dispatched"; "answered"; "directExecute"] turnState in
     lift (storeHeldTurnState (default [] (xo_heldCallId result)) (wrapTurnState grafted)) ;;
     lift (deleteHeldToolCall (hc_id hold)) ;;
     reRead ← lift (expect (readCommissionRun_row taskId));
     lift (when (negb (bool_decide (cr_status reRead = R_needs_input)))
       (updateCommissionStatus taskId R_awaiting_confirmation now))
   else
     a ← lift (provided_answer heldCall result);
     let answeredState := with_member "answered" (answered_json a) turnState in
     lift (storeHeldTurnState (hc_id hold) (wrapTurnState answeredState)) ;;
     resolution ← resumeAndFinalize (mkResumeParams (hc_id hold) answeredState userId agentId
       O_mcp_commission (Some taskId) a);
     lift (recordRunAfterResolve (Some taskId) resolution)) ;;
  finalRun ← lift (expect (readCommissionRun_row taskId));
  mret (Pr_provided (cr_status finalRun)).

Definition provideTaskInput (taskId : jsstr) (data : data_map) (userId : jsstr) (agentId : option jsstr)
    : C ProvideTaskInputResult :=
  lift (assertPublishedData data "provideTaskInput") ;;
  lift reapExpiredSessions ;;
  found ← lift (readCommissionRun_row taskId);
  match found with
  | None => mret Pr_not_found
  | Some run =>
      if negb (bool_decide (cr_status run = R_needs_input)) then mret (Pr_not_awaiting_input (cr_status run))
      else
        let awaited := default [] (parseAwaitedSlotKeys (cr_awaited_slot_keys run)) in
        if (0 <? length awaited)%nat && negb (existsb (λ kv, existsb (eqs (fst kv)) awaited) data)
        then mret (Pr_no_matching_slot awaited)
        else
          merged ← lift (mergedDataFor "provideTaskInput" run data);
          hold ← lift (selectInputHoldForTask taskId);
          match hold with
          | None => mret Pr_not_found
          | Some hold =>
              match parseTurnState (hc_turn_state hold) with
              | TurnOk st =>
                  match ts_heldCall st with
                  | None => mret Pr_not_found
                  | Some _ =>
                      withTurnGateC Pr_busy
                        (provideGated taskId merged hold st userId (default (js "default") agentId))
                  end
              | _ => mret Pr_not_found
              end
          end
  end.

Definition amendReaped (taskId : jsstr) (data : data_map) : M AmendTaskResult :=
  found ← readCommissionRun_row taskId;
  match found with
  | None => mret Am_not_found
  | Some run =>
      if negb (bool_decide (cr_origin run = O_mcp_commission)) then mret Am_forbidden
      else if bool_decide (cr_status run = R_running) then mret Am_running
      else if negb (bool_decide (cr_status run = R_needs_input)) then mret (Am_not_amendable (cr_status run))
      else
        merged ← mergedDataFor "amendTask" run data;
        t ← nowISO;
        updateRunData taskId (Parsed (data_json merged)) t ;;
        mret (Am_amended (cr_status run))
  end.
Definition amendTask (taskId : jsstr) (data : data_map) : M AmendTaskResult :=
  assertPublishedData data "amendTask" ;;
  withTurnGate Am_busy (reapExpiredSessions ;; amendReaped taskId data).

(** ** Cancellation *)

(** Each hold is closed and dropped. *)
Definition cancelHolds (now : jsstr) (s : surface) (holds : list HeldToolCallsRow) : M unit :=
  for_each (λ h, writeHeldCancelOutcome (hc_pending_audit_entry_id h) now s ;; deleteHeldToolCall (hc_id h)) holds.
Definition cancelReaped (taskId : jsstr) (s : surface) (userId agentId : jsstr) : M CancelTaskResult :=
  found ← readCommissionRun_row taskId;
  match found with
  | None => mret Ca_not_found
  | Some row =>
      let status := cr_status row in
      if match s with Sf_mcp => true | Sf_human => false end && negb (bool_decide (cr_origin row = O_mcp_commission)) then mret Ca_forbidden
      else if bool_decide (status = R_running) then mret Ca_running
      else if negb (has_run_status parked_statuses row) then mret (Ca_not_cancellable status)
      else
        now ← nowISO;
        holds ← selectHeldCallsForRun taskId;
        if existsb (λ h, turnStateHasResolution (hc_turn_state h)) holds then mret Ca_resolving
        else
          transactionSync
            (cancelHolds now s holds ;;
             writeTaskCancelAudit userId agentId (cr_session_id row) taskId s now ;;
             cancelRun taskId now) ;;
          mret (Ca_cancelled status)
  end.
Definition cancelGated (taskId : jsstr) (s : surface) (userId agentId : jsstr) : M CancelTaskResult :=
  reapExpiredSessions ;; cancelReaped taskId s userId agentId.
Definition cancelTask (taskId : jsstr) (s : surface) (userId : jsstr) (agentId : option jsstr)
    : M CancelTaskResult :=
  withTurnGate Ca_busy (cancelGated taskId s userId (default (js "default") agentId)).
End tasks.
