(* ===== verification/TaskStore.v ===== *)
(** * What the object's operations keep

    An invariant that survives a turn and the admission of a run survives every
    operation of the object in any order: [TaskFrame] adds that obligation to
    those of a turn. The object's own invariant, the growth of the audit log, the
    life of the runs and the grants on file discharge them. *)

From S2P Require Export Tasks.
Open Scope Z_scope.

(** ** Obligations *)

Definition fresh_run (id goal : jsstr) (data : option json_text) (sessionId t : jsstr) : CommissionRunsRow :=
  mkRun id O_mcp_commission goal data R_running sessionId t t None None None.
Class TaskFrame `{Platform} (J : Db → nat → Prop) : Prop := {
  xf_turn :: TurnFrame J;
  xf_run id goal data sid t d n : (∃ k, (k < n)%nat ∧ id = randomUUID k) →
    existsb (is_run id) (commission_runs d) = false → J d n →
    J (set_commission_runs (λ rows, rows ++ [fresh_run id goal data sid t]) d) n;
}.

Section frame.
Context `{Platform} `{!PlatformLaws _} `{Catalog} (J : Db → nat → Prop) `{!TurnFrame J}.

Lemma keeps_expire id t : keeps J (expireRun id t).
Proof. apply (keeps_run J (W_expire id t)), ef_runs. Qed.
Lemma keeps_clear id t : keeps J (clearNeedsInput id t).
Proof. apply (keeps_run J (W_clear id t)), ef_runs. Qed.
Lemma keeps_data id v t : keeps J (updateRunData id v t).
Proof. apply (keeps_run J (W_data id v t)), ef_runs. Qed.
Lemma keeps_cancelRun id t : keeps J (cancelRun id t).
Proof. apply (keeps_run J (W_cancel id t)), ef_runs. Qed.
Hint Resolve keeps_expire keeps_clear keeps_data keeps_cancelRun keeps_status_write keeps_storeTurn
  keeps_deleteHeld : wb.

Lemma keeps_expect {A} (m : M (option A)) : keeps J m → keeps J (expect m).
Proof. intros Hm. unfold expect. apply keeps_bind; [done|]. intros. apply keeps_cast. Qed.
Lemma keeps_rereads id : keeps J (expect (readCommissionRun_row id)).
Proof. apply keeps_expect. unfold readCommissionRun_row. keeps_tac. Qed.
Hint Resolve keeps_rereads : wb.
Lemma keeps_gateRead : keeps J turnInFlight.
Proof. by intros w Hw. Qed.
Hint Resolve keeps_gateRead : wb.

Lemma keeps_published data caller : keeps J (assertPublishedData data caller).
Proof. unfold assertPublishedData. keeps_tac. Qed.
Lemma keeps_lines data : keeps J (data_lines data).
Proof. induction data as [|[k v] rest IH]; simpl; unfold fenceUntrusted; keeps_tac. Qed.
Lemma keeps_compose goal data : keeps J (composeCommissionMessage goal data).
Proof. unfold composeCommissionMessage. pose proof keeps_lines. keeps_tac. Qed.
Lemma keeps_count now runs : keeps J (countPending now runs).
Proof. induction runs as [|r rest IH]; simpl; unfold selectHeldCallForRun, readSessionEndedAt; keeps_tac. Qed.
Lemma keeps_settleRun runId status : keeps J (settleRun runId status).
Proof. unfold settleRun, commissionOutcomeFor. keeps_tac. Qed.
Lemma keeps_readRun runId : keeps J (readCommissionRun runId).
Proof.
  unfold readCommissionRun, readCommissionRun_row, selectHeldCallForRun, readSessionEndedAt.
  pose proof (frame_reap J). pose proof keeps_rereads. unfold readCommissionRun_row in *. keeps_tac.
Qed.
Lemma keeps_merged caller run data : keeps J (mergedDataFor caller run data).
Proof. unfold mergedDataFor, parse_data. pose proof (@keeps_cast J). keeps_tac. Qed.
Lemma keeps_inputAudit pending t : keeps J (closeInputParkAudit pending t).
Proof.
  unfold closeInputParkAudit, auditEntryIdentity, readAuditEntryIdentity. keeps_tac. by apply (frame_close J).
Qed.
Lemma keeps_cancelOutcome pending t s : keeps J (writeHeldCancelOutcome pending t s).
Proof.
  unfold writeHeldCancelOutcome, auditEntryIdentity, readAuditEntryIdentity. keeps_tac. by apply (frame_close J).
Qed.
Lemma keeps_cancelAudit userId agentId sid taskId s t : keeps J (writeTaskCancelAudit userId agentId sid taskId s t).
Proof. unfold writeTaskCancelAudit. keeps_tac. by apply (frame_entry J). Qed.
Lemma keeps_cancelHolds now s holds : keeps J (cancelHolds now s holds).
Proof.
  unfold cancelHolds. pose proof keeps_cancelOutcome. keeps_tac.
Qed.
Lemma keeps_cancel taskId s userId agentId : keeps J (cancelGated taskId s userId agentId).
Proof.
  unfold cancelGated, cancelReaped, readCommissionRun_row, selectHeldCallsForRun. pose proof (frame_reap J).
  pose proof keeps_cancelHolds. pose proof keeps_cancelAudit. keeps_tac.
Qed.
End frame.

Section turns.
Context `{Platform} `{!PlatformLaws _} `{Catalog} `{!LLMClient} `{!LLMEnvironment}.
Context (J : Db → nat → Prop) `{!TurnFrame J} `{!GatedAwaits J} `{!GatedClient J}.

Lemma keeps_recordRun runId res : keeps J (recordRunAfterResolve runId res).
Proof. unfold recordRunAfterResolve. pose proof (keeps_status_write J). keeps_tac. Qed.

Lemma ck_turn p :
  (∀ name params, gkeeps J (cp_executeTool p name params)) → (∀ id st, gkeeps J (persist p id st)) →
  ck J (runConversationLoop p).
Proof. intros. by apply (ck_loop J). Qed.

Lemma ck_commissionTurn goal data userId agentId runId tools :
  ck J (commissionTurn goal data userId agentId runId tools).
Proof.
  destruct (keeps_llm J) as [Hc1 Hc2]. unfold commissionTurn.
  apply ck_bind; [by apply ck_keeps|]. intros config.
  apply ck_bind; [apply ck_keeps, (keeps_compose J)|]. intros message.
  apply ck_bind; [by apply ck_keeps|]. intros _. apply ck_throwaway, ck_turn; intros.
  - apply (gk_forLoop J).
  - apply gk_keeps, (keeps_storeTurn J).
Qed.
Lemma ck_runAdmitted goal data userId agentId runId : ck J (runAdmitted goal data userId agentId runId).
Proof.
  unfold runAdmitted. apply ck_bind; [apply ck_keeps, (keeps_offer J)|]. intros tools.
  apply ck_attempt; [|intros; apply ck_keeps, (keeps_settleRun J)].
  apply ck_bind; [apply ck_commissionTurn|intros; apply ck_keeps, (keeps_settleRun J)].
Qed.

Lemma ck_provide taskId merged hold st userId agentId : ck J (provideGated taskId merged hold st userId agentId).
Proof.
  unfold provideGated, storeHeldTurnState. apply ck_bind; [apply ck_keeps; keeps_tac|]. intros now.
  apply ck_bind; [apply ck_keeps, (keeps_data J)|]. intros _.
  apply ck_bind; [apply ck_keeps, (keeps_clear J)|]. intros _.
  apply ck_bind; [apply ck_keeps, (keeps_cast J)|]. intros heldCall.
  apply ck_bind; [apply ck_keeps, (keeps_storeTurn J)|]. intros _.
  apply ck_bind; [apply ck_lift, (gk_forLoop J)|]. intros result.
  apply ck_bind; [apply ck_keeps, (keeps_inputAudit J)|]. intros _.
  apply ck_bind.
  - destruct (xo_held result).
    + cbv zeta. apply ck_bind; [apply ck_keeps, (keeps_storeTurn J)|]. intros _.
      apply ck_bind; [apply ck_keeps, (keeps_deleteHeld J)|]. intros _.
      apply ck_bind; [apply ck_keeps, (keeps_rereads J)|]. intros r.
      apply ck_keeps. pose proof (keeps_status_write J). keeps_tac.
    + apply ck_bind; [apply ck_keeps; unfold provided_answer, fenceUntrusted; keeps_tac|]. intros a. cbv zeta.
      apply ck_bind; [apply ck_keeps, (keeps_storeTurn J)|]. intros _.
      apply ck_bind; [apply (ck_finalize J)|]. intros res. apply ck_keeps, keeps_recordRun.
  - intros _. apply ck_bind; [apply ck_keeps, (keeps_rereads J)|]. intros. apply ck_ret.
Qed.
End turns.

Section admission.
Context `{Platform} `{!PlatformLaws _} `{Catalog} `{!LLMClient} `{!LLMEnvironment}.
Context (J : Db → nat → Prop) `{!TaskFrame J}.

Lemma keeps_startRun goal data sid : keeps J (startRun goal data sid).
Proof.
  intros w Hw. unfold startRun, newUUID, nowISO, now, insertCommissionRun, insert_unless, mbind, M_bind, mret, M_ret.
  cbv beta iota zeta. cbn [w_db w_clock w_ticks w_uuids w_turnInFlight].
  assert (J (w_db w) (S (w_uuids w))) as Hw' by (eapply supply; [|exact Hw]; lia).
  destruct (existsb _ _) eqn:Ec; cbn; (split; [|split; simpl; lia || done]); [done|].
  apply (xf_run (J := J)); [|exact Ec|done]. exists (w_uuids w). split; [lia|done].
Qed.

Lemma keeps_admit goal data userId agentId : keeps J (admit_run goal data userId agentId).
Proof.
  unfold admit_run, countQueue, selectNonTerminalRuns. apply keeps_bind; [apply (frame_reap J)|]. intros _.
  apply keeps_bind; [pose proof (keeps_count J); keeps_tac|]. intros n. destruct (_ <=? n)%nat; [keeps_tac|].
  apply keeps_bind; [apply (frame_resolve J)|]. intros sid. apply keeps_startRun.
Qed.

Lemma ck_commission `{!GatedAwaits J} `{!GatedClient J} goal data userId agentId :
  ck J (commissionGated goal data userId agentId).
Proof.
  unfold commissionGated. apply ck_bind; [apply ck_keeps, keeps_admit|].
  intros [runId|]; [apply (ck_runAdmitted J)|apply ck_ret].
Qed.
End admission.

(** ** The operations of the object *)

Inductive object_op :=
  | Ob_turn (t : turn_op)
  | Ob_commission (goal : jsstr) (data : option data_map) (userId agentId : jsstr)
  | Ob_provide (taskId : jsstr) (data : data_map) (userId : jsstr) (agentId : option jsstr)
  | Ob_amend (taskId : jsstr) (data : data_map)
  | Ob_cancel (taskId : jsstr) (s : surface) (userId : jsstr) (agentId : option jsstr)
  | Ob_readRun (taskId : jsstr)
  | Ob_execute (p : ExecuteToolParams)
  | Ob_startSession (userId agentId : jsstr)
  | Ob_endSession (reason : end_reason)
  | Ob_kill.
(** Only tests set the epoch of an entry. *)
Definition op_admissible (op : object_op) : Prop :=
  match op with Ob_execute p => et_epochId p = None | _ => True end.

(** An answer to a question. *)
Definition is_answer (op : object_op) : bool :=
  match op with Ob_turn (Op_resolve _ _ _ _) => true | _ => false end.

Definition is_commission (op : object_op) : bool := match op with Ob_commission _ _ _ _ => true | _ => false end.

Section ops.
Context `{Platform} `{!PlatformLaws _} `{Catalog} `{!LLMClient} `{!LLMEnvironment}.

Definition run_object (op : object_op) : Conv * World → Conv * World :=
  match op with
  | Ob_turn t => run_op t
  | Ob_commission goal data u a => after (commissionGoal goal data u a)
  | Ob_provide taskId data u a => after (provideTaskInput taskId data u a)
  | Ob_amend taskId data => after (lift (amendTask taskId data))
  | Ob_cancel taskId s u a => after (lift (cancelTask taskId s u a))
  | Ob_readRun taskId => after (lift (readTaskDetail taskId))
  | Ob_execute p => after (lift (executeToolDirect p))
  | Ob_startSession u a => after (lift (startSession u a))
  | Ob_endSession r => after (lift (endSession r))
  | Ob_kill => after (lift killSwitch)
  end.
Definition run_objects (ops : list object_op) (x : Conv * World) : Conv * World :=
  foldl (λ x op, run_object op x) x ops.
End ops.

Section object.
Context `{Platform} `{!PlatformLaws _} `{Catalog} `{!LLMClient} `{!LLMEnvironment}.
Context (J : Db → nat → Prop).

(** [J] holds of the store, and the gate is as in [x0]. *)
Definition held_from (x0 x : Conv * World) : Prop :=
  J (w_db (snd x)) (w_uuids (snd x)) ∧ w_turnInFlight (snd x) = w_turnInFlight (snd x0).

Lemma after_keeps {A} (m : M A) x :
  keeps J m → J (w_db (snd x)) (w_uuids (snd x)) → held_from x (after (lift m) x).
Proof.
  intros Hm Hx. destruct x as [s w]. destruct (Hm w Hx) as [Hj [_ _ Hg _]]. unfold held_from, after, lift.
  cbn [fst snd] in *. by destruct (m w) as [r w'].
Qed.
(** A gated operation of the store alone. *)
Lemma after_gated {A} (busy : A) (m : M A) x :
  gkeeps J m → J (w_db (snd x)) (w_uuids (snd x)) → held_from x (after (lift (withTurnGate busy m)) x).
Proof.
  intros Hm Hx. destruct x as [s w]. unfold held_from, after, lift, withTurnGate. cbn [fst snd] in *.
  destruct (w_turnInFlight w) eqn:Ef; [done|]. destruct (Hm (with_gate true w) eq_refl Hx) as [Hj _].
  destruct (m (with_gate true w)) as [r w']. done.
Qed.
(** What happens before the gate, and then through it. *)
Lemma after_bind {A B} (m : M B) (k : B → C A) x :
  keeps J m → J (w_db (snd x)) (w_uuids (snd x)) →
  (∀ b y, held_from x y → held_from y (after (k b) y)) →
  held_from x (after (lift m ≫= k) x).
Proof.
  intros Hm Hx Hk. destruct x as [s w]. pose proof (after_keeps m (s, w) Hm Hx) as Hy.
  unfold after, lift, mbind, C_bind in *. cbn [fst snd] in *. destruct (m w) as [[b|e] w1]; [|done].
  specialize (Hk b (s, w1) Hy). destruct Hk as [Hj Hg]. split; [exact Hj|]. etrans; [exact Hg|]. apply Hy.
Qed.
Lemma after_lift_bind {A B} (m : M B) (k : B → M A) x :
  after (lift (m ≫= k)) x = after (lift m ≫= λ b, lift (k b)) x.
Proof. unfold after, lift, mbind, C_bind, M_bind. by destruct (m (snd x)) as [[b|e] w]. Qed.
Lemma after_ret {A} (a : A) y : J (w_db (snd y)) (w_uuids (snd y)) → held_from y (after (mret a) y).
Proof. by destruct y. Qed.

Context `{!TurnFrame J} `{!GatedAwaits J} `{!GatedClient J}.

Lemma provide_keeps taskId data u a x :
  J (w_db (snd x)) (w_uuids (snd x)) → held_from x (after (provideTaskInput taskId data u a) x).
Proof.
  intros Hx. unfold provideTaskInput. apply after_bind; [apply (keeps_published J)|done|]. intros _ y [Hy _].
  apply after_bind; [apply (frame_reap J)|done|]. intros _ z [Hz _].
  apply after_bind; [unfold readCommissionRun_row; keeps_tac|done|]. intros found y1 [Hy1 _].
  destruct found as [run|]; [|by apply after_ret]. destruct (negb _); [by apply after_ret|].
  cbv zeta. destruct (_ && _); [by apply after_ret|].
  apply after_bind; [apply (keeps_merged J)|done|]. intros merged y2 [Hy2 _].
  apply after_bind; [unfold selectInputHoldForTask; keeps_tac|done|]. intros hold y3 [Hy3 _].
  destruct hold as [hold|]; [|by apply after_ret].
  destruct (parseTurnState _) as [st| |]; [|by apply after_ret..].
  destruct (ts_heldCall st); [|by apply after_ret]. apply gated_after; [apply (ck_provide J)|done].
Qed.

(** Only an answer needs leave to grant, and only a commission leave to admit. *)
Lemma object_keeps op x :
  (is_answer op = true → GrantFrame J) → (is_commission op = true → TaskFrame J) → op_admissible op →
  J (w_db (snd x)) (w_uuids (snd x)) → held_from x (run_object op x).
Proof.
  intros Hg Ht Ha Hx. destruct op as [[m u a o|id c u a|]|goal data u a|taskId data u a|taskId data|taskId s u a|
    taskId|p|u a|r|]; unfold run_object, run_op.
  - apply gated_after; [|done]. apply ck_bind; [apply (ck_chatGated J)|]. intros. apply ck_ret.
  - pose proof (Hg eq_refl). apply (op_keeps J (Op_resolve id c u a)). done.
  - by destruct x.
  - pose proof (Ht eq_refl). unfold commissionGoal. destruct (negb _); [by destruct x|].
    assert (∀ y, J (w_db (snd y)) (w_uuids (snd y)) → held_from y (after (withTurnGateC
      (Co_busy Busy_turn_in_flight) (commissionGated goal data u a)) y)) as Hgo.
    { intros y Hy. apply gated_after; [apply (ck_commission J)|done]. }
    destruct data as [data|]; [|by apply Hgo].
    apply after_bind; [apply (keeps_published J)|done|]. intros _ y [Hy _]. by apply Hgo.
  - by apply provide_keeps.
  - unfold amendTask. rewrite after_lift_bind. apply after_bind; [apply (keeps_published J)|done|].
    intros _ y [Hy _]. apply after_gated; [|done]. apply gk_keeps. unfold amendReaped, readCommissionRun_row.
    pose proof (frame_reap J). pose proof (keeps_merged J). pose proof (keeps_data J). keeps_tac.
  - unfold cancelTask. apply after_gated; [|done]. apply gk_keeps, (keeps_cancel J).
  - apply after_keeps; [|done]. unfold readTaskDetail, readCommissionRun_row. pose proof (keeps_readRun J). keeps_tac.
  - unfold executeToolDirect. apply after_gated; [|done]. apply gk_bind; [by apply (gk_execute J)|].
    intros. apply gk_ret.
  - apply after_keeps; [apply (frame_start J)|done].
  - apply after_keeps; [apply (frame_end J)|done].
  - apply after_keeps; [apply (ef_kill (J := J))|done].
Qed.

Lemma objects_keep `{!TaskFrame J} ops x :
  Forall (λ op, is_answer op = true → GrantFrame J) ops → Forall op_admissible ops →
  J (w_db (snd x)) (w_uuids (snd x)) → held_from x (run_objects ops x).
Proof.
  revert x. induction ops as [|op ops IH]; intros x Hg Ho Hx; [done|].
  apply Forall_cons in Hg as [Hg1 Hg]. apply Forall_cons in Ho as [Ha Ho].
  destruct (object_keeps op x Hg1 (λ _, _) Ha Hx) as [Hy Ht].
  destruct (IH (run_object op x) Hg Ho Hy) as [Hz Ht']. split; [done|]. by rewrite <- Ht.
Qed.
End object.

(** ** The invariants *)

(** An invariant that the log, the sessions and the dropping of holds leave alone. *)
Lemma runs_frame `{Platform} J :
  Supply J → (∀ f d n, J d n → J (set_audit_log f d) n) → (∀ f d n, J d n → J (set_session_state f d) n) →
  (∀ p d n, J d n → J (drop_held p d) n) → (∀ sid t d n, J d n → J (stop_runs sid t d) n) → SessionFrame J.
Proof.
  intros Hs Hlog Hss Hd Hr.
  assert (∀ params ref, keeps J (insertRow params ref)) as Hi.
  { intros. apply keeps_insertRow_frame; [done|]. intros. by apply Hlog. }
  split; [done|by intros|done|intros; by apply Hss|done|].
  intros. unfold createSessionInTxn, insertSessionState, insertAuditEntryInTxn. keeps_tac.
Qed.
Lemma stop_evolves sid t rows :
  Forall2 run_evolves rows (update_where (λ r, eqs (cr_session_id r) sid && has_run_status open_statuses r)
    (to_status R_expired t) rows).
Proof. exact (run_exec_evolves (W_expire_session sid t) (with_db (set_commission_runs (λ _, rows)) demo_world)). Qed.

(** The runs on file carry identifiers of their own. *)
Definition runs_ok `{Platform} (d : Db) (n : nat) : Prop :=
  NoDup (cr_run_id <$> commission_runs d) ∧
  Forall (λ r, ∃ k, (k < n)%nat ∧ cr_run_id r = randomUUID k) (commission_runs d).
(** The life of the runs from [rows]. *)
Definition lives (rows : list CommissionRunsRow) (d : Db) (_ : nat) : Prop :=
  ∃ old new, commission_runs d = old ++ new ∧ Forall2 run_evolves rows old.
(** A row of [rows], but for its consumption. *)
Definition granted_by (rows : list PolicyEntriesRow) (r : PolicyEntriesRow) : Prop :=
  ∃ r0, r0 ∈ rows ∧ (r = r0 ∨ ∃ t, r = consume t r0).
Definition grants_from (rows : list PolicyEntriesRow) (d : Db) (_ : nat) : Prop :=
  Forall (granted_by rows) (policy_entries d).

Section invariants.
Context `{Platform} `{!PlatformLaws _}.

#[export] Instance agent_task_frame : TaskFrame agent_inv.
Proof. split; [apply _|]. intros id goal data sid t d n _ _. apply agent_set_runs. Qed.
#[export] Instance grown_task_frame log : TaskFrame (grown log).
Proof. split; [apply _|by intros]. Qed.

Lemma evolved_ids rows rows' : Forall2 run_evolves rows rows' → cr_run_id <$> rows' = cr_run_id <$> rows.
Proof. induction 1 as [|r r' l l' Hr _ IH]; [done|]. cbn. f_equal; [apply Hr|exact IH]. Qed.
Lemma runs_ok_evolved rows d n :
  Forall2 run_evolves (commission_runs d) rows → runs_ok d n → runs_ok (set_commission_runs (λ _, rows) d) n.
Proof.
  intros He [Hn Hs]. split; simpl; [by rewrite (evolved_ids _ _ He)|].
  revert Hs. clear Hn. induction He as [|r r' l l' Hr _ IH]; [done|]. intros [(k&?&?) Hl]%Forall_cons.
  constructor; [|by apply IH]. exists k. split; [done|]. etrans; [apply Hr|done].
Qed.
#[export] Instance runs_ok_grants : GrantFrame runs_ok.
Proof.
  assert (Supply runs_ok) as Hsup.
  { intros d n m Hnm [Hn Hs]. split; [done|]. eapply Forall_impl; [exact Hs|]. intros r (k&?&?). exists k. split; [lia|done]. }
  assert (SessionFrame runs_ok) as Hsf.
  { apply runs_frame; [done || by intros d n m|by intros..|]. intros sid t d n Hj. by apply (runs_ok_evolved _ d n (stop_evolves sid t _)). }
  split; [split; [split; [done|..]|by intros|by intros]|by intros].
  - intros p f d n Hf Hj. by apply (runs_ok_evolved _ d n (update_evolves p f _ Hf)).
  - by intros.
  - by intros.
  - by intros.
  - apply (frame_kill runs_ok); by intros.
Qed.
#[export] Instance runs_ok_tasks : TaskFrame runs_ok.
Proof.
  split; [apply _|]. intros id goal data sid t d n Hid Hc [Hn Hs]. split; simpl.
  - rewrite fmap_app. apply NoDup_app. split_and!; [done| |apply NoDup_singleton].
    intros x (r&->&Hr)%list_elem_of_fmap Hx. apply list_elem_of_singleton in Hx. simpl in Hx.
    apply not_true_iff_false in Hc. apply Hc, existsb_exists. exists r.
    split; [by apply list_elem_of_In|]. unfold is_run. by rewrite Hx, eqs_refl.
  - apply Forall_app. split; [done|]. by constructor.
Qed.

Lemma lives_evolved rows0 rows d n :
  Forall2 run_evolves (commission_runs d) rows → lives rows0 d n → lives rows0 (set_commission_runs (λ _, rows) d) n.
Proof.
  intros He (old&new&E&Ho). rewrite E in He. apply Forall2_app_inv_l in He as (old'&new'&Ho'&_&->).
  exists old', new'. split; [done|]. by eapply transitivity; [exact Ho|].
Qed.
#[export] Instance lives_grants rows : GrantFrame (lives rows).
Proof.
  assert (SessionFrame (lives rows)) as Hsf.
  { apply runs_frame; [done || by intros d n m|by intros..|]. intros sid t d n Hj. by apply (lives_evolved _ _ d n (stop_evolves sid t _)). }
  split; [split; [split; [done|..]|by intros|by intros]|by intros].
  - intros p f d n Hf Hj. by apply (lives_evolved _ _ d n (update_evolves p f _ Hf)).
  - by intros.
  - by intros.
  - by intros.
  - apply (frame_kill (lives rows)); by intros.
Qed.
#[export] Instance lives_tasks rows : TaskFrame (lives rows).
Proof.
  split; [apply _|]. intros id goal data sid t d n _ _ (old&new&E&Ho).
  exists old, (new ++ [fresh_run id goal data sid t]). simpl. by rewrite E, app_assoc.
Qed.

#[export] Instance grants_off rows : OffSessions (grants_from rows).
Proof. split; [by intros d n m|by intros..]. Qed.
#[export] Instance grants_turns rows : TaskFrame (grants_from rows).
Proof.
  split; [split; [split; [apply _|..]|by intros|by intros]|by intros]; try by intros.
  - intros id t d n Hj. unfold grants_from. simpl. unfold update_where. apply Forall_fmap.
    eapply Forall_impl; [exact Hj|]. intros r (r0&H0&Hr). simpl. destruct (consumable id r) eqn:Ec; [|by exists r0].
    exists r0. split; [done|right; exists t]. destruct Hr as [->|[t' ->]]; [done|].
    unfold consumable, unconsumed in Ec. simpl in Ec. wb_bool. done.
  - apply (frame_kill (grants_from rows)); [|by intros]. intros d n Hj.
    unfold grants_from. simpl. unfold delete_where. apply Forall_forall. intros r Hr.
    apply list_elem_of_In, filter_In in Hr as [Hr _]. unfold grants_from in Hj.
    rewrite Forall_forall in Hj. by apply Hj, list_elem_of_In.
Qed.
End invariants.

(** ** Properties *)

(** What is served while a turn is awaited keeps every invariant that the
    operations of a turn keep. *)
Class Served `{Platform} `{Catalog} `{!LLMClient} : Prop :=
  served J : TurnFrame J → GatedAwaits J ∧ GatedClient J.

Section properties.
Context `{Platform} `{!PlatformLaws _} `{Catalog} `{!LLMClient} `{!LLMEnvironment} `{!Served}.
Implicit Types (ops : list object_op) (x : Conv * World).

Lemma ops_hold J `{!TaskFrame J} ops x :
  Forall (λ op, is_answer op = true → GrantFrame J) ops → Forall op_admissible ops →
  J (w_db (snd x)) (w_uuids (snd x)) → held_from J x (run_objects ops x).
Proof. destruct (served J ltac:(apply _)). by apply (objects_keep J). Qed.
Lemma ops_hold_all J `{!TaskFrame J} `{!GrantFrame J} ops x :
  Forall op_admissible ops → J (w_db (snd x)) (w_uuids (snd x)) → held_from J x (run_objects ops x).
Proof. intros Ho Hx. apply (ops_hold J); [by apply Forall_true|done..]. Qed.

(** C5: the operations of the object - chats, answers, resets, commissions, client
    input, cancellations, reads, direct executions, sessions and the kill switch
    - keep its store, in any number and order, whatever the model answers,
    the tools do and is served in between, and whether each returns or throws:
    the audit chain, the sessions, the grants, the holds and the runs stay well
    formed, the audit log only grows, and the turn gate is handed back. *)
Theorem object_keeps_store ops x :
  Forall op_admissible ops →
  agent_inv (w_db (snd x)) (w_uuids (snd x)) → runs_ok (w_db (snd x)) (w_uuids (snd x)) →
  let x' := run_objects ops x in
  agent_inv (w_db (snd x')) (w_uuids (snd x')) ∧ runs_ok (w_db (snd x')) (w_uuids (snd x')) ∧
  audit_log (w_db (snd x)) `prefix_of` audit_log (w_db (snd x')) ∧
  w_turnInFlight (snd x') = w_turnInFlight (snd x).
Proof.
  intros Ho Ha Hr x'. destruct (ops_hold_all agent_inv ops x Ho Ha) as [Ha' Hg].
  destruct (ops_hold_all runs_ok ops x Ho Hr) as [Hr' _].
  destruct (ops_hold_all (grown (audit_log (w_db (snd x)))) ops x Ho) as [Hl _]; [by exists []; rewrite app_nil_r|].
  done.
Qed.

(** C2: only an answer grants. Without an answer to a question no operation adds a
    permission: whatever chats, commissions, client input, executions and
    sessions run, every policy entry on file was on file before them, with its
    scope, decision and expiry, and at most consumed since. *)
Theorem only_answers_grant ops x :
  Forall op_admissible ops → Forall (λ op, is_answer op = false) ops →
  Forall (granted_by (policy_entries (w_db (snd x)))) (policy_entries (w_db (snd (run_objects ops x)))).
Proof.
  intros Ho Hn. apply (ops_hold (grants_from (policy_entries (w_db (snd x)))) ops x); [|done|].
  - eapply Forall_impl; [exact Hn|]. by intros op ->.
  - apply Forall_forall. intros r Hr. exists r. split; [done|by left].
Qed.

(** C33: no operation of the object loses, renames or reopens a run: each run on file
    keeps its goal, origin and session, its status only moves along the life
    cycle, and a completed, failed, denied, expired or cancelled run stays so. *)
Theorem runs_never_reopen ops x :
  Forall op_admissible ops →
  ∃ old new, commission_runs (w_db (snd (run_objects ops x))) = old ++ new ∧
    Forall2 (λ r r',
      cr_run_id r' = cr_run_id r ∧ cr_origin r' = cr_origin r ∧ cr_goal r' = cr_goal r ∧
      cr_session_id r' = cr_session_id r ∧ rtc run_step (cr_status r) (cr_status r') ∧
      (terminal (cr_status r) → cr_status r' = cr_status r)) (commission_runs (w_db (snd x))) old.
Proof.
  intros Ho. destruct (ops_hold_all (lives (commission_runs (w_db (snd x)))) ops x Ho) as [(old&new&E&He) _].
  { exists (commission_runs (w_db (snd x))), []. rewrite app_nil_r. split; [done|].
    apply Forall_Forall2_diag, Forall_true. reflexivity. }
  exists old, new. split; [exact E|]. eapply Forall2_impl; [exact He|].
  intros r r' (?&?&?&?&?&Hs). split_and!; try done. intros Ht. by apply run_step_terminal.
Qed.
End properties.
