(* ===== verification/TaskRuns.v ===== *)
(** * Admission, amendment and cancellation of runs

    What the queue of commissioned runs may hold, that an admitted goal always
    ends in an answer that reports its row, what a client may still change of a
    run, and what a cancellation settles. *)

From S2P Require Export TaskStore.
Open Scope Z_scope.

(** ** The runs that wait *)

Definition open_mine (r : CommissionRunsRow) : bool :=
  bool_decide (cr_origin r = O_mcp_commission) && has_run_status open_statuses r.
Definition pending (d : Db) : list CommissionRunsRow := List.filter open_mine (commission_runs d).
Definition pend_le (n : nat) (d : Db) (_ : nat) : Prop := (length (pending d) <= n)%nat.

Lemma evolved_open r r' : run_evolves r r' → open_mine r' = true → open_mine r = true.
Proof.
  intros (_&Eo&_&_&_&Hs) [Ho Hst]%andb_true_iff. unfold open_mine. rewrite <- Eo, Ho. simpl.
  unfold has_run_status in *. apply bool_decide_eq_true in Hst. apply bool_decide_eq_true.
  destruct (decide (cr_status r ∈ open_statuses)) as [Hin|Hn]; [done|].
  by rewrite (run_step_terminal _ _ Hn Hs) in Hst.
Qed.
Lemma evolved_pending rows rows' :
  Forall2 run_evolves rows rows' →
  (length (List.filter open_mine rows') <= length (List.filter open_mine rows))%nat.
Proof.
  induction 1 as [|r r' l l' Hr _ IH]; simpl; [done|].
  destruct (open_mine r') eqn:E; [rewrite (evolved_open _ _ Hr E); simpl; lia|].
  destruct (open_mine r); simpl; lia.
Qed.

#[export] Instance pend_turns `{Platform} `{!PlatformLaws _} n : TurnFrame (pend_le n).
Proof.
  assert (∀ rows d k, Forall2 run_evolves (commission_runs d) rows → pend_le n d k →
    pend_le n (set_commission_runs (λ _, rows) d) k) as He.
  { intros rows d k Hr Hj. unfold pend_le, pending in *. simpl. pose proof (evolved_pending _ _ Hr). lia. }
  assert (SessionFrame (pend_le n)) as Hsf.
  { apply runs_frame; [by intros d k m|by intros..|]. intros sid t d k. apply (He _ d k), stop_evolves. }
  split; [split; [done|..]|by intros|by intros]; try by intros.
  - intros p f d k Hf. apply (He _ d k), update_evolves, Hf.
  - apply (frame_kill (pend_le n)); by intros.
Qed.

(** *** The count *)

(** How many of the runs listed wait. *)
Definition waiting (l rows : list CommissionRunsRow) : nat :=
  length (List.filter (λ r, open_mine r && existsb (λ x, eqs (cr_run_id r) (cr_run_id x)) l) rows).

Lemma waiting_other r l rows :
  cr_run_id r ∉ cr_run_id <$> l →
  waiting (r :: l) rows = (waiting [r] rows + waiting l rows)%nat.
Proof.
  intros Hn. unfold waiting. induction rows as [|x rows IH]; simpl; [done|].
  destruct (open_mine x) eqn:Eo; simpl; [|exact IH]. simpl in IH.
  destruct (eqs (cr_run_id x) (cr_run_id r)) eqn:E; simpl.
  - apply eqs_true in E. assert (existsb (λ y, eqs (cr_run_id x) (cr_run_id y)) l = false) as ->.
    { apply not_true_iff_false. intros (y&Hy&Ey%eqs_true)%existsb_exists. apply Hn.
      rewrite <- E, Ey. apply list_elem_of_fmap. exists y. split; [done|by apply list_elem_of_In]. }
    simpl. lia.
  - destruct (existsb _ l); simpl; lia.
Qed.
(** A run on file is one. *)
Lemma waiting_one r x rows :
  NoDup (cr_run_id <$> rows) → x ∈ rows → cr_run_id x = cr_run_id r →
  waiting [r] rows = if open_mine x then 1%nat else 0%nat.
Proof.
  intros Hn Hx Ex. unfold waiting. simpl. induction rows as [|y rows IH]; [set_solver|].
  apply NoDup_cons in Hn as [Hy Hn]. apply elem_of_cons in Hx as [->|Hx].
  - simpl. rewrite Ex, eqs_refl. simpl. rewrite andb_true_r.
    assert (List.filter (λ z, open_mine z && (eqs (cr_run_id z) (cr_run_id r) || false)) rows = []) as E.
    { apply list_filter_none. apply Forall_forall. intros z Hz. apply andb_false_iff. right.
      rewrite orb_false_r. apply eqs_false. intros Ez. apply Hy. rewrite Ex, <- Ez. apply list_elem_of_fmap. eauto. }
    destruct (open_mine y); simpl; by rewrite E.
  - simpl. assert (eqs (cr_run_id y) (cr_run_id r) = false) as ->.
    { apply eqs_false. intros Ey. apply Hy. rewrite Ey, <- Ex. apply list_elem_of_fmap. eauto. }
    rewrite andb_false_r. by apply IH.
Qed.

(** What the count makes of the runs: each moves along its life cycle, those not
    listed stay, and the number is that of the listed ones that wait. *)
Record recounted (l rows rows' : list CommissionRunsRow) (n : nat) : Prop := {
  rc_evolved : Forall2 run_evolves rows rows';
  rc_rest x : x ∈ rows → cr_run_id x ∉ cr_run_id <$> l → x ∈ rows';
  rc_waiting : waiting l rows' = n;
}.

Lemma refl_evolved rows : Forall2 run_evolves rows rows.
Proof. apply Forall_Forall2_diag, Forall_true. reflexivity. Qed.
Lemma with_runs_id w : with_db (set_commission_runs (λ _, commission_runs (w_db w))) w = w.
Proof. by destruct w as [[] ? ? ? ?]. Qed.
Lemma with_runs_twice rows rows' w :
  with_db (set_commission_runs (λ _, rows')) (with_db (set_commission_runs (λ _, rows)) w) =
  with_db (set_commission_runs (λ _, rows')) w.
Proof. by destruct w as [[] ? ? ? ?]. Qed.

(** One more run, whose row has become [x]. *)
Lemma recounted_cons r x l rows rows1 rows' n :
  NoDup (cr_run_id <$> rows) → cr_run_id r ∉ cr_run_id <$> l →
  Forall2 run_evolves rows rows1 → x ∈ rows1 → cr_run_id x = cr_run_id r →
  (∀ y, y ∈ rows → cr_run_id y ≠ cr_run_id r → y ∈ rows1) →
  recounted l rows1 rows' n →
  recounted (r :: l) rows rows' ((if open_mine x then 1 else 0) + n)%nat.
Proof.
  intros Hn Hr He Hx Ex Hrest [He' Hrest' Hw]. assert (Forall2 run_evolves rows rows') as He2 by by etrans.
  split; [done|..].
  - intros y Hy [Hy1 Hy2]%not_elem_of_cons. apply Hrest'; [|done]. by apply Hrest.
  - rewrite waiting_other, Hw by done. f_equal. apply waiting_one; [by rewrite (evolved_ids _ _ He2)| |done].
    apply Hrest'; [done|]. by rewrite Ex.
Qed.
(** The row after the update of one run. *)
Lemma update_run p (f : CommissionRunsRow → CommissionRunsRow) r rows :
  r ∈ rows → p r = true →
  f r ∈ update_where (λ y, is_run (cr_run_id r) y && p y) f rows ∧
  (∀ y, y ∈ rows → cr_run_id y ≠ cr_run_id r → y ∈ update_where (λ y, is_run (cr_run_id r) y && p y) f rows).
Proof.
  intros Hr Hp. split.
  - apply list_elem_of_fmap. exists r. unfold is_run. by rewrite eqs_refl, Hp.
  - intros y Hy Hne. apply in_update_where; [done|]. apply andb_false_iff. left. by apply eqs_false.
Qed.

Lemma wp_count `{Platform} now l Q w :
  NoDup (cr_run_id <$> commission_runs (w_db w)) → NoDup (cr_run_id <$> l) →
  (∀ r, r ∈ l → r ∈ commission_runs (w_db w) ∧ has_run_status open_statuses r = true) →
  (∀ n rows', recounted l (commission_runs (w_db w)) rows' n →
     Q n (with_db (set_commission_runs (λ _, rows')) w)) →
  wp (countPending now l) Q w.
Proof.
  revert Q w. induction l as [|r l IH]; intros Q w Hn Hl Hin HQ.
  { apply wp_ret. rewrite <- (with_runs_id w). apply HQ. split; [apply refl_evolved|done|].
    unfold waiting. rewrite list_filter_none; [done|]. apply Forall_true. intros x. by rewrite andb_false_r. }
  apply NoDup_cons in Hl as [Hr Hl]. destruct (Hin r) as [Hrin Hopen]; [left|].
  assert (∀ rows1 x (b : bool), Forall2 run_evolves (commission_runs (w_db w)) rows1 → x ∈ rows1 →
    cr_run_id x = cr_run_id r → open_mine x = b →
    (∀ y, y ∈ commission_runs (w_db w) → cr_run_id y ≠ cr_run_id r → y ∈ rows1) →
    wp (n ← countPending now l; mret ((if b then 1 else 0) + n)%nat) Q
      (with_db (set_commission_runs (λ _, rows1)) w)) as Hgo.
  { intros rows1 x b He Hx Ex Eb Hrest. apply wp_bind, IH; simpl.
    - by rewrite (evolved_ids _ _ He).
    - done.
    - intros y Hy. destruct (Hin y) as [Hy1 Hy2]; [by right|]. split; [|done]. apply Hrest; [done|].
      intros E. apply Hr. rewrite <- E. apply list_elem_of_fmap. eauto.
    - intros n rows' Hc. apply wp_ret. rewrite with_runs_twice. apply HQ. rewrite <- Eb.
      by eapply recounted_cons. }
  set (rows := commission_runs (w_db w)) in *.
  simpl. apply wp_bind. case_bool_decide as Es.
  - unfold selectHeldCallForRun, updateCommissionStatus. apply wp_bind, wp_select, wp_bind, wp_modify, wp_ret.
    set (live := match truthy_str _ with Some _ => true | None => false end).
    destruct (update_run (has_run_status active_statuses) (to_status (if live then R_awaiting_confirmation else R_failed) now)
      r rows Hrin) as [Hx Hrest].
    { unfold has_run_status. rewrite Es. by apply bool_decide_eq_true; left. }
    apply (Hgo _ _ (live && bool_decide (cr_origin r = O_mcp_commission)) (run_exec_evolves (W_status _ _ _) w) Hx);
      [done| |exact Hrest].
    unfold open_mine. destruct live; simpl; [by rewrite andb_true_r|by rewrite andb_false_r].
  - unfold readSessionEndedAt. apply wp_bind, wp_select. destruct (_ ≫= _) as [t|].
    + unfold expireRun. apply wp_bind, wp_modify, wp_ret.
      destruct (update_run (has_run_status open_statuses) (to_status R_expired now) r rows Hrin Hopen) as [Hx Hrest].
      apply (Hgo _ _ false (run_exec_evolves (W_expire _ _) w) Hx); [done| |exact Hrest].
      unfold open_mine. simpl. by rewrite andb_false_r.
    + apply wp_ret. rewrite <- (with_runs_id w). apply (Hgo _ r (bool_decide (cr_origin r = O_mcp_commission))); [apply refl_evolved|done|done| |done].
      unfold open_mine. by rewrite Hopen, andb_true_r.
Qed.

Lemma counted_pending rows rows' n :
  recounted (List.filter (has_run_status open_statuses) rows) rows rows' n →
  length (List.filter open_mine rows') = n.
Proof.
  intros [He _ <-]. unfold waiting. f_equal. apply filter_ext_in. intros x Hx.
  destruct (open_mine x) eqn:Eo; [|done]. symmetry.
  apply list_elem_of_In, list_elem_of_lookup in Hx as [i Hi].
  destruct (Forall2_lookup_r _ _ _ _ _ He Hi) as (z&Hz&Hzx).
  apply existsb_exists. exists z. split.
  - apply filter_In. split; [by eapply list_elem_of_In, list_elem_of_lookup_2|].
    pose proof (evolved_open _ _ Hzx Eo) as Ez. by apply andb_true_iff in Ez as [_ Ez].
  - unfold eqs. apply bool_decide_eq_true. apply Hzx.
Qed.

(** ** Admission *)

(** What a run leaves, whether it returns or throws. *)
Definition ends {A} (m : M A) (Q : res A → World → Prop) (w : World) : Prop :=
  let '(r, w') := m w in Q r w'.
Lemma ends_bind {A B} (m : M B) (k : B → M A) Q w :
  ends m (λ r w', match r with Ok b => ends (k b) Q w' | Throw e => Q (Throw e) w' end) w → ends (m ≫= k) Q w.
Proof. unfold ends, mbind, M_bind. by destruct (m w) as [[b|e] w']. Qed.
Lemma ends_keeps {A} J (m : M A) (Q : res A → World → Prop) w :
  keeps J m → J (w_db w) (w_uuids w) → (∀ r w', J (w_db w') (w_uuids w') → Q r w') → ends m Q w.
Proof. intros Hm Hw HQ. destruct (Hm w Hw) as [Hj _]. unfold ends. destruct (m w) as [r w']. auto. Qed.
Lemma ends_wp {A} (m : M A) (Q : res A → World → Prop) w : wp m (λ a, Q (Ok a)) w → ends m Q w.
Proof. unfold ends, wp. by destruct (m w) as [[a|e] w']. Qed.

Section admission.
Context `{Platform} `{!PlatformLaws _} `{Catalog} `{!LLMClient} `{!LLMEnvironment}.
Implicit Types (goal userId agentId : jsstr) (data : option data_map).

(** The count, and what it makes of the runs. *)
Lemma wp_recount (Q : nat → World → Prop) w :
  runs_ok (w_db w) (w_uuids w) →
  (∀ n rows', let w' := mkWorld (set_commission_runs (λ _, rows') (w_db w)) (w_clock w) (S (w_ticks w)) (w_uuids w)
     (w_turnInFlight w) in
   Forall2 run_evolves (commission_runs (w_db w)) rows' → length (pending (w_db w')) = n → Q n w') →
  wp countQueue Q w.
Proof.
  intros [Hn _] HQ. unfold countQueue, selectNonTerminalRuns. apply wp_bind, wp_select, wp_bind, wp_nowISO.
  apply wp_count; [done|by apply filter_nodup|..].
  - intros r Hr. apply list_elem_of_In, filter_In in Hr as [Hr ?]. by apply list_elem_of_In in Hr.
  - intros n rows' Hc. cbn [w_db] in *. apply HQ; [apply Hc|]. by apply counted_pending in Hc.
Qed.

Lemma start_bound goal data sid m w :
  pend_le m (w_db w) (w_uuids w) → ends (startRun goal data sid) (λ _ w', pend_le (S m) (w_db w') (w_uuids w')) w.
Proof.
  unfold pend_le, ends, startRun, newUUID, nowISO, now, insertCommissionRun, insert_unless, mbind, M_bind, mret, M_ret.
  intros Hp. cbv beta iota zeta. cbn [w_db w_clock w_ticks w_uuids w_turnInFlight].
  destruct (existsb _ _); cbn; [lia|]. unfold pending in *. cbn. rewrite List.filter_app, length_app. simpl. lia.
Qed.

(** Whether it admits, refuses or throws. *)
Lemma admit_bound goal data userId agentId m w :
  runs_ok (w_db w) (w_uuids w) → pend_le m (w_db w) (w_uuids w) → (MAX_PENDING_COMMISSIONS <= m)%nat →
  ends (admit_run goal data userId agentId) (λ r w', pend_le m (w_db w') (w_uuids w') ∧
    ∀ id, r = Ok (Some id) → pend_le MAX_PENDING_COMMISSIONS (w_db w') (w_uuids w')) w.
Proof.
  intros Hr Hp Hm. unfold admit_run. apply ends_bind.
  apply (ends_keeps _ _ _ _ (keeps_and _ _ _ (frame_reap runs_ok) (frame_reap (pend_le m))) (conj Hr Hp)).
  intros [[]|e] w1 [Hr1 Hp1]; [|done]. apply ends_bind, ends_wp, wp_recount; [done|].
  intros n rows' w2 He Hn. assert (pend_le m (w_db w2) (w_uuids w2)) as Hp2.
  { unfold pend_le, pending in *. pose proof (evolved_pending _ _ He). simpl. lia. }
  assert (pend_le n (w_db w2) (w_uuids w2)) as Hpn by (unfold pend_le; lia).
  destruct (Nat.leb_spec MAX_PENDING_COMMISSIONS n) as [Hf|Hf]; [done|].
  apply ends_bind. apply (ends_keeps _ _ _ _ (frame_resolve (pend_le n) _ _ _) Hpn).
  intros [sid|e] w3 Hp3; [|unfold pend_le in *; split; [lia|done]].
  pose proof (start_bound goal data sid n w3 Hp3) as Hs. unfold ends, pend_le in *.
  destruct (startRun _ _ _ w3) as [r w4]. split; [lia|]. intros. lia.
Qed.

#[export] Instance pend_grants m : GrantFrame (pend_le m).
Proof. split; [apply _|by intros]. Qed.

(** One operation of the object. *)
Lemma op_bound `{!Served} op x m :
  op_admissible op → (MAX_PENDING_COMMISSIONS <= m)%nat →
  runs_ok (w_db (snd x)) (w_uuids (snd x)) → pend_le m (w_db (snd x)) (w_uuids (snd x)) →
  pend_le m (w_db (snd (run_object op x))) (w_uuids (snd (run_object op x))).
Proof.
  intros Ho Hm Hr Hp. destruct (served (pend_le m) _) as [Hga Hgc].
  destruct (is_commission op) eqn:Ec.
  2:{ apply (object_keeps (pend_le m) op x); [intros; apply _|congruence|done..]. }
  destruct op as [|goal data u a| | | | | | | |]; try done. unfold run_object, commissionGoal.
  destruct (negb _); [by destruct x|].
  assert (∀ y, runs_ok (w_db (snd y)) (w_uuids (snd y)) → pend_le m (w_db (snd y)) (w_uuids (snd y)) →
    let z := after (withTurnGateC (Co_busy Busy_turn_in_flight) (commissionGated goal data u a)) y in
    pend_le m (w_db (snd z)) (w_uuids (snd z))) as Hgo.
  { clear -Hm Hga Hgc PlatformLaws0. intros [s w] Hr Hp. unfold after, withTurnGateC. cbn [fst snd] in *.
    destruct (w_turnInFlight w); [done|]. pose proof (admit_bound goal data u a m (with_gate true w) Hr Hp Hm) as Hb.
    pose proof (keeps_admit runs_ok goal data u a (with_gate true w) Hr) as [_ [_ _ Hg _]].
    unfold commissionGated, mbind, C_bind, lift, ends in *.
    destruct (admit_run goal data u a (with_gate true w)) as [[[id|]|e] w1]; destruct Hb as [Hb _]; [|exact Hb..].
    destruct (ck_runAdmitted (pend_le m) goal data u a id s w1 Hg Hb) as [Hj _].
    by destruct (runAdmitted goal data u a id s w1) as [[r s'] w']. }
  destruct data as [data|]; [|by apply Hgo].
  destruct x as [s w]. unfold after, mbind, C_bind, lift in *. cbn [fst snd] in *.
  destruct (keeps_published runs_ok data "commissionGoal" w Hr) as [Hr1 _].
  destruct (keeps_published (pend_le m) data "commissionGoal" w Hp) as [Hp1 _].
  destruct (assertPublishedData data "commissionGoal" w) as [[[]|e] w1]; [|done].
  exact (Hgo (s, w1) Hr1 Hp1).
Qed.

(** *** An admitted goal is answered *)

Lemma run_is_new d n k : runs_ok d n → (n <= k)%nat → existsb (is_run (randomUUID k)) (commission_runs d) = false.
Proof.
  intros [_ Hs] Hk. apply not_true_iff_false. intros (r&Hr%list_elem_of_In&Er%eqs_true)%existsb_exists.
  rewrite Forall_forall in Hs. destruct (Hs r Hr) as (j&Hj&E). rewrite E in Er. apply randomUUID_inj in Er. lia.
Qed.
Lemma find_snoc {A} p (l : list A) x : existsb p l = false → p x = true → List.find p (l ++ [x]) = Some x.
Proof.
  intros Hl Hx. induction l as [|y l IH]; simpl in *; [by rewrite Hx|].
  apply orb_false_iff in Hl as [-> Hl]. by apply IH.
Qed.
Lemma find_updated id p f rows :
  (∀ r, cr_run_id (f r) = cr_run_id r) →
  List.find (is_run id) (update_where p f rows) =
  (λ r, if p r then f r else r) <$> List.find (is_run id) rows.
Proof.
  intros Hf. unfold update_where. induction rows as [|r rows IH]; simpl; [done|].
  assert (is_run id (if p r then f r else r) = is_run id r) as -> by (unfold is_run; by destruct (p r); rewrite ?Hf).
  by destruct (is_run id r).
Qed.
Lemma lives_find rows d n id r :
  lives rows d n → List.find (is_run id) rows = Some r →
  ∃ r', List.find (is_run id) (commission_runs d) = Some r' ∧ run_evolves r r'.
Proof.
  intros (old&new&->&He). revert r. induction He as [|x x' l l' Hx _ IH]; intros r; simpl; [done|].
  assert (is_run id x' = is_run id x) as -> by (unfold is_run; destruct Hx as [-> _]; done).
  destruct (is_run id x); [intros [= <-]; by exists x'|]. apply IH.
Qed.

(** An admission of the goal at hand: a new row, or a full queue. *)
Definition admitted goal data w (r : option jsstr) w' : Prop :=
  agent_inv (w_db w') (w_uuids w') ∧
  match r with
  | None => (MAX_PENDING_COMMISSIONS <= length (pending (w_db w')))%nat
  | Some id => existsb (is_run id) (commission_runs (w_db w)) = false ∧
      ∃ sid t, List.find (is_run id) (commission_runs (w_db w')) =
        Some (fresh_run id goal ((Parsed ∘ data_json) <$> data) sid t)
  end.

Lemma wp_start goal data sid w0 w :
  agent_inv (w_db w) (w_uuids w) → runs_ok (w_db w) (w_uuids w) → runs_ok (w_db w0) (w_uuids w0) →
  (w_uuids w0 <= w_uuids w)%nat → wp (startRun goal data sid) (admitted goal data w0) w.
Proof.
  intros Ha Hr Hr0 Hu. unfold startRun, insertCommissionRun. apply wp_bind, wp_uuid, wp_bind, wp_nowISO.
  pose proof (run_is_new _ _ (w_uuids w) Hr ltac:(done)) as Hn.
  apply wp_bind, wp_insert; [exact Hn|]. apply wp_ret. split.
  - apply agent_set_runs. simpl. apply supply with (w_uuids w); [lia|done].
  - split; [by apply run_is_new with (w_uuids w0)|]. do 2 eexists. cbn.
    apply find_snoc; [exact Hn|]. unfold is_run. apply eqs_refl.
Qed.

Lemma wp_admit goal data userId agentId w :
  agent_inv (w_db w) (w_uuids w) → runs_ok (w_db w) (w_uuids w) →
  times_ok (session_state (w_db w)) (w_clock w) →
  wp (admit_run goal data userId agentId) (admitted goal data w) w.
Proof.
  intros Ha Hr Ht. pose (K := λ d n, agent_inv d n ∧ runs_ok d n). unfold admit_run.
  apply wp_bind, (wp_kept K); [apply keeps_and; [apply (frame_reap agent_inv)|apply (frame_reap runs_ok)]|done|].
  apply wp_reaped; [apply Ha|done|]. intros w1 Hre [Ha1 Hr1] Hm1.
  apply wp_bind, wp_recount; [done|]. intros n rows' w2 He Hn.
  assert (agent_inv (w_db w2) (w_uuids w2)) as Ha2 by by apply agent_set_runs.
  assert (runs_ok (w_db w2) (w_uuids w2)) as Hr2 by by apply (runs_ok_evolved rows' (w_db w1)).
  destruct (Nat.leb_spec MAX_PENDING_COMMISSIONS n) as [Hf|Hf]; [apply wp_ret; split; [done|lia]|].
  apply wp_bind, (wp_kept K); [apply keeps_and; [apply (frame_resolve agent_inv)|apply (frame_resolve runs_ok)]|done|].
  apply wp_resolve; [apply Ha2| |].
  { change (times_ok (session_state (w_db w1)) (w_clock w1)). by eapply reaped_times; [apply Ha|..]. }
  intros sess w3 _ [Ha3 Hr3] Hm3. apply wp_start; [done..|].
  pose proof (mv_uuids _ _ Hm1). pose proof (mv_uuids _ _ Hm3). simpl in *. lia.
Qed.

(** What the client is told of an admitted run. *)
Definition reported goal (id : jsstr) (out : CommissionOutcome) (w : World) : Prop :=
  ∃ row, out = Co_run id (cr_status row) ∧ List.find (is_run id) (commission_runs (w_db w)) = Some row ∧
    cr_goal row = goal ∧ cr_origin row = O_mcp_commission ∧ cr_status row ≠ R_running.

Lemma wp_settleRun goal id status row w :
  List.find (is_run id) (commission_runs (w_db w)) = Some row → status ≠ R_running →
  cr_goal row = goal → cr_origin row = O_mcp_commission →
  wp (settleRun id status) (reported goal id) w.
Proof.
  intros Hf Hs Hg Ho. unfold settleRun, updateCommissionStatus. apply wp_bind, wp_nowISO, wp_bind, wp_modify.
  set (w1 := with_db _ _).
  assert (∃ r, List.find (is_run id) (commission_runs (w_db w1)) = Some r ∧ cr_goal r = goal ∧
    cr_origin r = O_mcp_commission ∧ cr_status r ≠ R_running) as (r&Hf1&?&?&?).
  { unfold w1. cbn [w_db with_db commission_runs set_commission_runs]. rewrite find_updated by done. rewrite Hf.
    eexists. split; [reflexivity|].
    destruct (is_run id row && has_run_status active_statuses row) eqn:E; [done|].
    split_and!; [done..|]. intros Er. apply andb_false_iff in E as [E|E].
    - apply find_some in Hf as [_ Hf]. congruence.
    - unfold has_run_status in E. rewrite Er in E. by vm_compute in E. }
  unfold commissionOutcomeFor, expect, readCommissionRun_row. apply wp_bind, wp_bind, wp_select. rewrite Hf1.
  do 2 apply wp_ret. by exists r.
Qed.

Lemma terminal_not_running calls : commissionTerminalStatus calls ≠ R_running.
Proof. unfold commissionTerminalStatus. cbv zeta. by repeat case_match. Qed.

Lemma ck_cwp {A} J (c : C A) s w :
  ck J c → w_turnInFlight w = true → J (w_db w) (w_uuids w) →
  cwp c (λ _ _ w', J (w_db w') (w_uuids w') ∧ w_turnInFlight w' = true) s w.
Proof. intros Hc Ht Hj. specialize (Hc s w Ht Hj). unfold cwp. by destruct (c s w) as [[r s'] w']. Qed.

(** The turn itself, which leaves the buffer alone. *)
Lemma commissionTurn_buffer goal data userId agentId id tools s w :
  cwp (commissionTurn goal data userId agentId id tools) (λ _ s' _, cv_messages s' = cv_messages s) s w.
Proof.
  unfold commissionTurn. apply cwp_bind, cwp_lift_any. intros [config|e] w1; [|done].
  apply cwp_bind, cwp_lift_any. intros [message|e] w2; [|done].
  apply cwp_bind, cwp_lift_any. intros [[]|e] w3; [|done].
  unfold cwp, onThrowaway. by destruct (runConversationLoop _ _ w3) as [[r s'] w'].
Qed.
Lemma cwp_and {A} (c : C A) (Q R : res A → Conv → World → Prop) s w :
  cwp c Q s w → cwp c R s w → cwp c (λ r s' w', Q r s' w' ∧ R r s' w') s w.
Proof. unfold cwp. by destruct (c s w) as [[r s'] w']. Qed.

Lemma admitted_reports `{!Served} goal data userId agentId id row s w :
  List.find (is_run id) (commission_runs (w_db w)) = Some row →
  cr_goal row = goal → cr_origin row = O_mcp_commission → w_turnInFlight w = true →
  cwp (runAdmitted goal data userId agentId id)
    (λ r s' w', cv_messages s' = cv_messages s ∧ ∃ out, r = Ok out ∧ reported goal id out w') s w.
Proof.
  intros Hf Hg Ho Ht. set (J := lives (commission_runs (w_db w))). destruct (served J _) as [Hga Hgc].
  assert (J (w_db w) (w_uuids w)) as Hj.
  { exists (commission_runs (w_db w)), []. rewrite app_nil_r. split; [done|apply refl_evolved]. }
  assert (∀ status s1 w1, status ≠ R_running → J (w_db w1) (w_uuids w1) →
    cwp (lift (settleRun id status)) (λ r s' w', cv_messages s' = cv_messages s1 ∧
      ∃ out, r = Ok out ∧ reported goal id out w') s1 w1) as Hsettle.
  { intros status s1 w1 Hs Hj1. destruct (lives_find _ _ (w_uuids w1) _ _ Hj1 Hf) as (r1&Hf1&_&Eo&Eg&_).
    apply cwp_lift. intros r w' E.
    assert (wp (settleRun id status) (reported goal id) w1) as (out&w2&E2&Hr)%wp_run
      by (eapply wp_settleRun; [exact Hf1|done|congruence..]).
    rewrite E2 in E. injection E as <- <-. split; [done|]. by exists out. }
  assert (∃ tools, offeredTools RO_commission w = (Ok tools, w)) as [tools Et] by by eexists.
  unfold runAdmitted. apply cwp_bind, cwp_lift. rewrite Et. intros r1 w1 [= <- <-].
  apply cwp_attempt, cwp_bind. eapply cwp_mono.
  { apply cwp_and; [apply commissionTurn_buffer|]. apply (ck_cwp J); [apply (ck_commissionTurn J)|done..]. }
  intros [result|e] s1 w1 (Em&Hj1&_).
  - eapply cwp_mono; [apply Hsettle; [|exact Hj1]|].
    { destruct (lp_held result); [done|apply terminal_not_running]. }
    intros r s2 w2 (Em2&out&->&Hr). split; [congruence|]. by exists out.
  - eapply cwp_mono; [by apply Hsettle|]. intros r s2 w2 (Em2&Hr). split; [congruence|done].
Qed.
End admission.

(** ** Cancellation *)

Section cancel.
Context `{Platform} `{!PlatformLaws _}.

Lemma wp_cancelHolds at_ s l w :
  chain_inv (w_db w) (w_uuids w) →
  wp (cancelHolds at_ s l) (λ _ w',
    audited (drop_held (λ r, existsb (λ h, eqs (hc_id r) (hc_id h)) l)) w w' ∧
    Forall (settled_held w w') l ∧ same_ends w w') w.
Proof.
  intros Hi. apply wp_drop_each; [|done]. clear w Hi. intros h w Hi. apply wp_bind.
  eapply wp_mono; [apply wp_inferred; [done|by destruct s; intros []]|].
  intros _ w1 (Ha&Hs&He). apply wp_modify.
  pose proof (audited_modify (drop_held (is_held (hc_id h))) w1 (au_inv _ _ _ Ha)) as Hb.
  split_and!; [exact (audited_trans _ _ _ _ _ Ha Hb)| |exact He].
  eapply (settled_held_mono _ _ w w w1 _ _ (audited_refl _ Hi) Hb). intros _ Hr. by apply Hs.
Qed.

(** The row that records the cancellation of a run. *)
Definition cancel_row (taskId : jsstr) (s : surface) (row : AuditLogRow) : Prop :=
  h_toolName row = js "task.cancel" ∧ h_noun row = wellFormed taskId ∧
  h_decision row = js "allow" ∧
  h_origin row = AuditLog.origin_text (match s with Sf_mcp => O_mcp_commission | Sf_human => O_human end).

(** What a cancellation makes of the store. *)
Record cancelled (taskId : jsstr) (s : surface) (run : CommissionRunsRow) (w w' : World) : Prop := {
  cn_run : ∃ t, List.find (is_run taskId) (commission_runs (w_db w')) = Some (to_status R_cancelled t run);
  cn_others r : r ∈ commission_runs (w_db w) → cr_run_id r ≠ taskId → r ∈ commission_runs (w_db w');
  cn_held : held_tool_calls (w_db w') =
    List.filter (λ h, negb (held_by_run taskId h)) (held_tool_calls (w_db w));
  cn_settled h : h ∈ held_tool_calls (w_db w) → held_by_run taskId h = true →
    recorded (audit_log (w_db w)) (hc_pending_audit_entry_id h) = true →
    (1 <= closers_in (audit_log (w_db w')) (hc_pending_audit_entry_id h))%nat;
  cn_log : ∃ rows row, audit_log (w_db w') = audit_log (w_db w) ++ rows ++ [row] ∧ cancel_row taskId s row;
  cn_rest : policy_entries (w_db w') = policy_entries (w_db w) ∧ session_state (w_db w') = session_state (w_db w) ∧
    spend_ledger (w_db w') = spend_ledger (w_db w);
}.

Lemma cancel_run_rows taskId t run rows :
  List.find (is_run taskId) rows = Some run → has_run_status parked_statuses run = true →
  let rows' := update_where (λ r, is_run taskId r && has_run_status parked_statuses r) (to_status R_cancelled t) rows in
  List.find (is_run taskId) rows' = Some (to_status R_cancelled t run) ∧
  (∀ r, r ∈ rows → cr_run_id r ≠ taskId → r ∈ rows').
Proof.
  intros Hf Hp rows'. split.
  - unfold rows'. rewrite find_updated by done. rewrite Hf. cbn. apply find_some in Hf as [_ ->]. by rewrite Hp.
  - intros r Hr Hn. apply in_update_where; [done|]. apply andb_false_iff. left. by apply eqs_false.
Qed.

(** The transaction of a cancellation. *)
Lemma wp_cancel_txn taskId s userId agentId sid at_ run w :
  agent_inv (w_db w) (w_uuids w) →
  List.find (is_run taskId) (commission_runs (w_db w)) = Some run →
  has_run_status parked_statuses run = true →
  let holds := stable_sort held_order (List.filter (held_by_run taskId) (held_tool_calls (w_db w))) in
  existsb (λ h, turnStateHasResolution (hc_turn_state h)) holds = false →
  wp (transactionSync (cancelHolds at_ s holds ;; writeTaskCancelAudit userId agentId sid taskId s at_ ;;
       cancelRun taskId at_)) (λ _ w', cancelled taskId s run w w') w.
Proof.
  intros Ha Hf Hp holds Hn. apply wp_txn, wp_bind. eapply wp_mono; [apply wp_cancelHolds, Ha|].
  intros _ w1 (Hau&Hs&_). apply wp_bind. unfold writeTaskCancelAudit. apply wp_bind, wp_insertRow; [apply Hau|done|].
  intros row res w2 Hw. apply wp_ret. unfold cancelRun. apply wp_modify.
  destruct (au_db _ _ _ Hau) as [rows E1]. pose proof (written_db _ _ _ _ _ _ Hw) as E2. rewrite E1 in E2.
  destruct (cancel_run_rows taskId at_ run (commission_runs (w_db w)) Hf Hp) as [Hr1 Hr2].
  assert (audit_log (w_db w2) = audit_log (w_db w1) ++ [row]) as El by by rewrite (written_db _ _ _ _ _ _ Hw).
  split; cbn [w_db with_db]; rewrite ?E2.
  - exists at_. exact Hr1.
  - exact Hr2.
  - simpl. unfold delete_where. apply filter_ext_in. intros h Hh%list_elem_of_In. f_equal.
    apply eq_true_iff_eq. rewrite existsb_exists. split.
    + intros (x&Hx%list_elem_of_In&Ex%eqs_true). apply elem_of_stable_sort, list_elem_of_In, filter_In in Hx as [Hx Hr].
      by rewrite (nodup_key hc_id _ h x (st_held _ _ (proj1 Ha)) Hh (proj2 (list_elem_of_In _ _) Hx) Ex).
    + intros Hr. exists h. split; [|apply eqs_refl]. apply list_elem_of_In, elem_of_stable_sort, list_elem_of_In, filter_In.
      split; [by apply list_elem_of_In|done].
  - intros h Hh Hr Hrec. assert (h ∈ holds) as Hin.
    { apply elem_of_stable_sort, list_elem_of_In, filter_In. split; [by apply list_elem_of_In|done]. }
    rewrite Forall_forall in Hs. pose proof (Hs h Hin) as Hc. cbn [w_db with_db].
    change (audit_log (set_commission_runs _ ?d)) with (audit_log d).
    assert (undecided h = true) as Hu.
    { unfold undecided. apply negb_true_iff. destruct (turnStateHasResolution _) eqn:Et; [|done].
      exfalso. revert Hn. apply not_false_iff_true, existsb_exists. exists h. split; [by apply list_elem_of_In|done]. }
    specialize (Hc Hu Hrec). rewrite <- E2, El, closers_in_app. lia.
  - exists rows, row. cbn. split; [by rewrite <- app_assoc|].
    destruct (written_fields _ _ _ _ _ _ Hw) as (?&?&?&?&?&->&_). split_and!; [done..|]. by destruct s.
  - done.
Qed.
End cancel.

(** ** Amendment *)

(** The value of a key. *)
Definition value_of (k : jsstr) (m : data_map) : option jsstr := snd <$> List.find (λ kv, eqs (fst kv) k) m.

Lemma map_set_value k v m k' :
  value_of k' (map_set k v m) = if eqs k k' then Some v else value_of k' m.
Proof.
  unfold value_of. induction m as [|[k1 v1] m IH]; simpl.
  - by destruct (eqs k k').
  - destruct (eqs k1 k) eqn:E; simpl.
    + apply eqs_true in E as ->. by destruct (eqs k k').
    + destruct (eqs k1 k') eqn:E'; [|exact IH]. apply eqs_true in E' as ->.
      destruct (eqs k k') eqn:Ek; [|done]. apply eqs_true in Ek as ->. by rewrite eqs_refl in E.
Qed.
(** The client's values win, the others stay. *)
Lemma merge_value a b k :
  NoDup (fst <$> b) → value_of k (merge a b) = match value_of k b with Some v => Some v | None => value_of k a end.
Proof.
  unfold merge. revert a. induction b as [|[k1 v1] b IH]; intros a Hn; [done|].
  apply NoDup_cons in Hn as [Hk Hn]. cbn [foldl fst snd]. rewrite IH by done. rewrite map_set_value.
  unfold value_of at 3. cbn [List.find fst]. destruct (eqs k1 k) eqn:E; [|done]. apply eqs_true in E as ->.
  assert (value_of k b = None) as ->; [|done]. unfold value_of.
  destruct (List.find _ b) as [[k2 v2]|] eqn:Ef; [|done]. apply find_some in Ef as [Hin E2%eqs_true].
  exfalso. apply Hk, list_elem_of_fmap. exists (k2, v2). split; [done|by apply list_elem_of_In].
Qed.

Section amend.
Context `{Platform} `{Catalog}.

(** What an amendment does from the store the reap leaves. *)
Definition amended (taskId : jsstr) (data : data_map) (w : World) (r : res AmendTaskResult) (w' : World) : Prop :=
  match r with
  | Ok (Am_amended st) => ∃ run merged t, st = R_needs_input ∧
      List.find (is_run taskId) (commission_runs (w_db w)) = Some run ∧
      cr_origin run = O_mcp_commission ∧ cr_status run = R_needs_input ∧
      (data_size merged <= COMMISSION_DATA_MAX_CHARS)%nat ∧
      (NoDup (fst <$> data) → ∀ k v, (k, v) ∈ data → value_of k merged = Some v) ∧
      w_db w' = set_commission_runs (update_where (is_run taskId) (λ r,
        set_run (cr_status r) (Some (Parsed (data_json merged))) (cr_status_detail r) (cr_awaited_slot_keys r) t r)) (w_db w)
  | _ => w_db w' = w_db w
  end.

Lemma value_in (data : data_map) k v : NoDup (fst <$> data) → (k, v) ∈ data → value_of k data = Some v.
Proof.
  unfold value_of. induction data as [|[k1 v1] m IH]; intros Hn Hin; [set_solver|].
  apply NoDup_cons in Hn as [Hk Hn]. simpl. apply elem_of_cons in Hin as [[= -> ->]|Hin]; [by rewrite eqs_refl|].
  destruct (eqs k1 k) eqn:E; [|by apply IH]. apply eqs_true in E as ->.
  exfalso. apply Hk, list_elem_of_fmap. by exists (k, v).
Qed.

Lemma merged_data caller run data w :
  ends (mergedDataFor caller run data) (λ r w', w_db w' = w_db w ∧ match r with
    | Ok m => (data_size m <= COMMISSION_DATA_MAX_CHARS)%nat ∧ ∃ old, m = merge old data
    | Throw _ => True end) w.
Proof.
  unfold mergedDataFor. match goal with |- ends (?e ≫= _) _ _ => set (existing := e) end. apply ends_bind.
  assert (ends existing (λ _ w', w' = w) w) as Hex.
  { unfold existing. destruct (cr_data run) as [d|]; [|done]. destruct (truthy _); [|done]. apply ends_bind.
    unfold parse_data, ends. destruct (JSON_parse d) as [v|]; [|done]. unfold mret, M_ret, cast.
    by destruct (read_data v). }
  unfold ends in *. destruct (existing w) as [[old|e] w1]; [|by subst].
  subst. cbv zeta. destruct (Nat.ltb_spec COMMISSION_DATA_MAX_CHARS (data_size (merge old data))); [done|].
  unfold mret, M_ret. split; [done|]. split; [lia|]. by exists old.
Qed.

Lemma amend_reaped taskId data w : ends (amendReaped taskId data) (amended taskId data w) w.
Proof.
  unfold amendReaped, readCommissionRun_row. apply ends_bind, ends_wp, wp_select.
  destruct (List.find _ _) as [run|] eqn:Ef; [|done].
  destruct (negb (bool_decide (cr_origin run = _))) eqn:Eo; [done|].
  destruct (bool_decide (cr_status run = R_running)); [done|].
  destruct (negb (bool_decide (cr_status run = R_needs_input))) eqn:Es; [done|].
  apply negb_false_iff, bool_decide_eq_true in Eo. apply negb_false_iff, bool_decide_eq_true in Es.
  apply ends_bind. pose proof (merged_data "amendTask" run data w) as Hm. unfold ends in Hm |- *.
  destruct (mergedDataFor "amendTask" run data w) as [[m|e] w1]; destruct Hm as [Hdb Hm]; [|done].
  destruct Hm as (Hsize&old&->). unfold nowISO, now, updateRunData, modify, mbind, M_bind, mret, M_ret.
  simpl. eexists run, (merge old data), _. split_and!; try done.
  - intros Hn k v Hkv. rewrite merge_value by done. by rewrite (value_in data k v Hn Hkv).
  - by rewrite Hdb.
Qed.
End amend.

(** ** Properties *)

(** The store a gated operation finds after its reap. *)
Definition reaped_from `{Platform} (w : World) : World := snd (reapExpiredSessions (with_gate true w)).

Section properties.
Context `{Platform} `{!PlatformLaws _} `{Catalog} `{!LLMClient} `{!LLMEnvironment}.

(** C19: the queue is bounded. No operation of the object, in any order, brings the
    commissioned runs that wait past eight: not a flood of commissions, not
    runs that are answered, provided or cancelled meanwhile, and not turns that
    crash and leave their run behind. A store that already holds more gains
    none. *)
Theorem queue_bounded `{!Served} ops x :
  Forall op_admissible ops → runs_ok (w_db (snd x)) (w_uuids (snd x)) →
  (length (pending (w_db (snd (run_objects ops x)))) <=
   Nat.max MAX_PENDING_COMMISSIONS (length (pending (w_db (snd x)))))%nat.
Proof.
  set (m := Nat.max _ _). intros Ho Hr. assert (pend_le m (w_db (snd x)) (w_uuids (snd x))) as Hp
    by (unfold pend_le, m; lia).
  assert (MAX_PENDING_COMMISSIONS <= m)%nat as Hm by lia. clearbody m.
  revert x Hr Hp. induction Ho as [|op ops Hop _ IH]; intros x Hr Hp; [exact Hp|].
  apply (IH (run_object op x)).
  - destruct (served runs_ok _) as [Hga Hgc]. by apply (object_keeps runs_ok op x (λ _, _) (λ _, _)).
  - by apply op_bound.
Qed.

(** Inside the gate a commission is answered. *)
Lemma gated_reports `{!Served} goal data userId agentId s w :
  agent_inv (w_db w) (w_uuids w) → runs_ok (w_db w) (w_uuids w) →
  times_ok (session_state (w_db w)) (w_clock w) →
  ∃ out s' w', commissionGated goal data userId agentId s (with_gate true w) = (Ok out, s', w') ∧
    cv_messages s' = cv_messages s ∧
    (out = Co_busy Busy_commission_pending ∧ (MAX_PENDING_COMMISSIONS <= length (pending (w_db w')))%nat ∨
     ∃ id, existsb (is_run id) (commission_runs (w_db w)) = false ∧ reported goal id out w').
Proof.
  intros Ha Hr Ht.
  assert (wp (admit_run goal data userId agentId) (admitted goal data (with_gate true w)) (with_gate true w))
    as (r&w1&E&Ha1&Hadm)%wp_run by by apply wp_admit.
  destruct (keeps_admit agent_inv goal data userId agentId (with_gate true w) Ha) as [_ [_ _ Hg1 _]].
  unfold commissionGated, mbind, C_bind, lift. rewrite E in Hg1 |- *. cbn [snd] in Hg1. destruct r as [id|].
  - destruct Hadm as [Hnew (sid&t&Hf)].
    pose proof (admitted_reports goal data userId agentId id _ s w1 Hf eq_refl eq_refl Hg1) as Hrep. unfold cwp in Hrep.
    destruct (runAdmitted goal data userId agentId id s w1) as [[r s'] w'].
    destruct Hrep as (Hm&out&->&Hrep). exists out, s', w'. split_and!; [done..|]. right.
    by exists id.
  - exists (Co_busy Busy_commission_pending), s, w1. split_and!; [done..|]. by left.
Qed.

(** A commission is well formed: a goal within bounds and, if data come with it, keys the
    registered tools publish and values within the cap. *)
Definition data_published (data : data_map) : Prop :=
  ∃ slots, publishedDataSlots = inr slots ∧ (∀ k, k ∈ data.*1 → k ∈ slots.*1) ∧
    (data_size data <= COMMISSION_DATA_MAX_CHARS)%nat.
Definition commission_ok (goal : jsstr) (data : option data_map) : Prop :=
  goal_in_bounds goal = true ∧ ∀ d, data = Some d → data_published d.

Lemma assert_published data caller w :
  (assertPublishedData data caller w = (Ok tt, w) ∧ data_published data) ∨
  (∃ e, assertPublishedData data caller w = (Throw e, w)) ∧ ¬ data_published data.
Proof.
  unfold assertPublishedData, data_published, mbind, M_bind.
  destruct publishedDataSlots as [e|slots] eqn:Es; [right; split; [by eexists|naive_solver]|].
  unfold mret at 1 3, M_ret. cbv zeta. set (unknown := List.filter _ _).
  assert (unknown = [] ↔ ∀ k, k ∈ data.*1 → k ∈ slots.*1) as Hu.
  { assert (∀ k, existsb (λ kv : jsstr * _, eqs (fst kv) k) slots = true ↔ k ∈ slots.*1) as Hk.
    { intros k. rewrite existsb_exists, list_elem_of_fmap. split.
      - intros (kv&Hin&He%eqs_true). exists kv. split; [done|by apply list_elem_of_In].
      - intros (kv&->&Hin%list_elem_of_In). exists kv. split; [done|apply eqs_refl]. }
    unfold unknown. split.
    - intros E k Hin. apply Hk. destruct (existsb _ _) eqn:Ek; [done|].
      assert (k ∈ @nil jsstr) as Hnil; [|by apply not_elem_of_nil in Hnil].
      rewrite <- E. apply list_elem_of_In, filter_In. split; [by apply list_elem_of_In|]. by rewrite Ek.
    - intros Hall. destruct (List.filter _ _) as [|k l] eqn:E; [done|].
      assert (k ∈ k :: l) as Hin by by left.
      rewrite <- E in Hin. apply list_elem_of_In, filter_In in Hin as [Hin Hn].
      apply list_elem_of_In, Hall, Hk in Hin. by rewrite Hin in Hn. }
  destruct unknown as [|k l].
  - destruct (Nat.ltb_spec COMMISSION_DATA_MAX_CHARS (data_size data)).
    + right. split; [by eexists|]. intros (slots'&_&_&?). lia.
    + left. split; [done|]. exists slots. split_and!; [done|by apply Hu|done].
  - right. split; [by eexists|]. intros (slots'&[= <-]&Hall&_). by apply Hu in Hall.
Qed.

(** C34: a commission is always answered. Whatever the model, the provider, the tools and
    the configuration do, and in every case: a goal out of bounds, or data with an
    unpublished key or over the cap, is an error, and nothing has changed; a well-formed
    commission while a turn is in flight is told so, and nothing has changed; any other
    ends in an answer - the queue is full, with eight runs waiting, or the goal has a new
    run on file, under the identifier the client is told and with the status it is told,
    which is not [running]. The conversation of the human is left alone and the turn gate
    is as it was. (The store is well formed, and its session times are ones the clock can
    have written.) *)
Theorem commission_reports `{!Served} goal data userId agentId s w :
  agent_inv (w_db w) (w_uuids w) → runs_ok (w_db w) (w_uuids w) →
  times_ok (session_state (w_db w)) (w_clock w) →
  ∃ r s' w', commissionGoal goal data userId agentId s w = (r, s', w') ∧
    cv_messages s' = cv_messages s ∧ w_turnInFlight w' = w_turnInFlight w ∧
    (¬ commission_ok goal data ∧ (∃ e, r = Throw e) ∧ s' = s ∧ w' = w ∨
     commission_ok goal data ∧ w_turnInFlight w = true ∧ r = Ok (Co_busy Busy_turn_in_flight) ∧ s' = s ∧ w' = w ∨
     commission_ok goal data ∧ w_turnInFlight w = false ∧ ∃ out, r = Ok out ∧
       (out = Co_busy Busy_commission_pending ∧ (MAX_PENDING_COMMISSIONS <= length (pending (w_db w')))%nat ∨
        ∃ id, existsb (is_run id) (commission_runs (w_db w)) = false ∧ reported goal id out w')).
Proof.
  intros Ha Hr Ht. unfold commissionGoal. destruct (goal_in_bounds goal) eqn:Hgoal; simpl negb; cbv iota.
  2:{ do 3 eexists. split; [done|]. split_and!; [done|done|]. left. split_and!; [|by eexists|done|done].
      intros [? _]. congruence. }
  assert ((∃ e, (match data with Some d => lift (assertPublishedData d "commissionGoal") | None => mret tt end : C unit) s w =
      (Throw e, s, w)) ∧ ¬ commission_ok goal data ∨
    (match data with Some d => lift (assertPublishedData d "commissionGoal") | None => mret tt end : C unit) s w = (Ok tt, s, w) ∧
      commission_ok goal data) as [[[e E] Hn]|[E Hok]].
  { destruct data as [d|]; [|by right].
    destruct (assert_published d "commissionGoal" w) as [[E Hd]|[[e E] Hd]]; unfold lift; rewrite E.
    - right. split; [done|]. split; [done|]. by intros d' [= <-].
    - left. split; [by eexists|]. intros [_ Hp]. by apply Hd, Hp. }
  { unfold mbind, C_bind. cbn [negb]. cbv beta. rewrite E. do 3 eexists. split; [done|]. split_and!; [done|done|]. left.
    split_and!; [done|by eexists|done|done]. }
  unfold mbind at 1, C_bind. cbn [negb]. cbv beta. rewrite E. unfold withTurnGateC. destruct (w_turnInFlight w) eqn:Hg.
  { do 3 eexists. split; [done|]. split_and!; [done|by rewrite Hg|]. right. by left. }
  destruct (gated_reports goal data userId agentId s w Ha Hr Ht) as (out&s'&w'&->&Hm&Hout).
  exists (Ok out), s', (with_gate false w'). split_and!; [done..|]. right. right. split; [done|]. split; [done|].
  by exists out.
Qed.

(** C20: a cancellation settles the run and nothing else. When a cancellation is
    carried out the run waited and, for the external surface, was its own; it
    is now cancelled, each of its holds is gone and its decision closed, the
    cancellation itself is the newest audit row, and no other run, hold, grant,
    session or spend has changed. A run with a call already dispatched or
    answered is not cancelled; and a refused cancellation changes nothing but
    what the lapse of sessions already had. *)
Theorem cancel_settles taskId s userId agentId w res w' :
  agent_inv (w_db w) (w_uuids w) → w_turnInFlight w = false →
  cancelTask taskId s userId agentId w = (Ok res, w') →
  let w1 := reaped_from w in
  match res with
  | Ca_cancelled previous => ∃ run, List.find (is_run taskId) (commission_runs (w_db w1)) = Some run ∧
      previous = cr_status run ∧ has_run_status parked_statuses run = true ∧
      (s = Sf_mcp → cr_origin run = O_mcp_commission) ∧
      (∀ h, h ∈ held_tool_calls (w_db w1) → held_by_run taskId h = true →
         turnStateHasResolution (hc_turn_state h) = false) ∧
      cancelled taskId s run w1 w'
  | _ => w_db w' = w_db w1
  end.
Proof.
  intros Ha Hg E w1. unfold cancelTask, withTurnGate in E. rewrite Hg in E.
  destruct (frame_reap agent_inv (with_gate true w) Ha) as [Ha1 _]. fold w1 in Ha1.
  unfold cancelGated, mbind, M_bind, w1, reaped_from in E |- *. unfold w1, reaped_from in Ha1. clear w1.
  destruct (reapExpiredSessions (with_gate true w)) as [[[]|e] w1]; [|done]. cbn [snd] in *.
  pose (Q := λ (r : CancelTaskResult) w2, match r with
    | Ca_cancelled previous => ∃ run, List.find (is_run taskId) (commission_runs (w_db w1)) = Some run ∧
        previous = cr_status run ∧ has_run_status parked_statuses run = true ∧
        (s = Sf_mcp → cr_origin run = O_mcp_commission) ∧
        (∀ h, h ∈ held_tool_calls (w_db w1) → held_by_run taskId h = true →
           turnStateHasResolution (hc_turn_state h) = false) ∧
        cancelled taskId s run w1 w2
    | _ => w_db w2 = w_db w1 end).
  assert (wp (cancelReaped taskId s userId (default (js "default") agentId)) Q w1) as (r&w2&E2&Hq)%wp_run.
  { unfold cancelReaped, readCommissionRun_row. apply wp_bind, wp_select.
    destruct (List.find _ _) as [run|] eqn:Ef; [|by apply wp_ret]. cbv zeta.
    destruct (_ && _) eqn:Es; [by apply wp_ret|]. destruct (bool_decide (cr_status run = R_running)); [by apply wp_ret|].
    destruct (has_run_status parked_statuses run) eqn:Ep; [|by apply wp_ret]. cbn [negb].
    apply wp_bind, wp_nowISO. unfold selectHeldCallsForRun. apply wp_bind, wp_select. cbn [w_db].
    destruct (existsb _ _) eqn:Er; [by apply wp_ret|]. apply wp_bind.
    match goal with |- wp _ _ ?w2 =>
      eapply wp_mono; [exact (wp_cancel_txn taskId s _ _ _ _ run w2 Ha1 Ef Ep Er)|] end.
    intros [] w3 Hc. apply wp_ret. exists run. split_and!; [done..| | |].
    - intros ->. cbn in Es. by apply negb_false_iff, bool_decide_eq_true in Es.
    - intros h Hh Hr. destruct (turnStateHasResolution _) eqn:Et; [|done]. exfalso. revert Er.
      apply not_false_iff_true, existsb_exists. exists h. split; [|done].
      apply list_elem_of_In, elem_of_stable_sort, list_elem_of_In, filter_In. split; [by apply list_elem_of_In|done].
    - destruct Hc. split; assumption. }
  rewrite E2 in E. injection E as <- <-. destruct r; try exact Hq. destruct Hq as (run&?&?&?&?&?&Hc).
  exists run. split_and!; try done. destruct Hc; split; assumption.
Qed.

(** An amendment touches nothing but the data of a run that awaits input. It
    succeeds only on a commissioned run in [needs_input]: the client's values
    then replace those of the same keys, the map stays within its cap, and no
    status, hold, grant or other run changes. A run whose question is before
    the human, or any other, keeps its data; a refused or failed amendment
    changes nothing but what the lapse of sessions already had. *)
Theorem amend_only_awaiting taskId data w r w' :
  w_turnInFlight w = false → amendTask taskId data w = (r, w') →
  w_turnInFlight w' = false ∧ (w' = w ∨ amended taskId data (reaped_from w) r w').
Proof.
  intros Hg. unfold amendTask, mbind, M_bind.
  assert (∃ r, assertPublishedData data "amendTask" w = (r, w)) as [r0 Er].
  { unfold assertPublishedData, mbind, M_bind. destruct publishedDataSlots; [by eexists|].
    cbv beta iota zeta delta [mret M_ret]. destruct (List.filter _ _); [|by eexists]. destruct (_ <? _)%nat; by eexists. }
  rewrite Er. destruct r0 as [[]|e]; [|intros [= <- <-]; by split; [|left]].
  unfold withTurnGate. rewrite Hg. unfold reaped_from.
  pose proof (amend_reaped taskId data (snd (reapExpiredSessions (with_gate true w)))) as Ha. unfold ends in Ha.
  destruct (reapExpiredSessions (with_gate true w)) as [[[]|e] w1]; cbn [snd] in *;
    [|intros [= <- <-]; split; [done|right; reflexivity]].
  destruct (amendReaped taskId data w1) as [r1 w2]. intros [= <- <-]. split; [done|right].
  destruct r1 as [[| | | | |st]|e]; exact Ha.
Qed.
End properties.
