(* ===== verification/Scenarios.v ===== *)
(** * Turns on a concrete object

    The turns of the object on a small catalog with a scripted provider: the
    instances at which the theorems on the conversation, the adapter and the
    turns are applied, and whole runs evaluated by the kernel. *)

From S2P Require Export TaskRuns.
Open Scope Z_scope.

#[local] Existing Instance demo_catalog.
#[local] Existing Instance demo_scopes.
#[local] Existing Instance demo_awaits.

(** ** A provider *)

Definition demo_use (id : string) (to : jsstr) : LLMContentBlock :=
  ToolUse (mkToolUse (js id) (js "mail_send") [(js "to", JStr to)]).
Definition reply (stop : stop_reason) (content : list LLMContentBlock) : LLMResponse :=
  mkResponse content (Some stop) (mkUsage 1 1).
(** A message was said in the conversation. *)
Definition mentions (text : string) (l : list slot) : bool :=
  existsb (λ m, match m with Some (mkMessage User (Prose t)) => eqs t (js text) | _ => false end) l.
(** It refuses a conversation with a hole, as the adapters do. It mails whom the
    message names, or, on a relayed goal, whom the client's data name; [two]
    mails two; [fail] fails; in a conversation with [late] the answer to a
    tool's result fails. *)
Definition demo_reply (params : LLMCreateParams) : res LLMResponse :=
  let l := lc_messages params in
  if existsb (λ m, match m with None => true | _ => false end) l then Throw TypeError
  else
    match last l with
    | Some (Some (mkMessage User (Prose t))) =>
        if eqs t (js "fail") then Throw (Exn UPSTREAM_UNAVAILABLE_MESSAGE)
        else if eqs t (js "two") then
          Ok (reply SR_tool_use [demo_use "use-1" (js "eve"); demo_use "use-2" (js "bob")])
        else if eqs t (js "late") then Ok (reply SR_tool_use [demo_use "use-1" (js "eve")])
        else if bool_decide (head t = Some 91%N) then Ok (reply SR_tool_use [demo_use "use-1" (js "{{data.to}}")])
        else Ok (reply SR_tool_use [demo_use "use-1" t])
    | _ =>
        if mentions "late" l then Throw (Exn UPSTREAM_UNAVAILABLE_MESSAGE)
        else Ok (reply SR_end_turn [TextBlock (js "done")])
    end.
#[local] Instance demo_client : LLMClient := λ _ params,
  match demo_reply params with Ok r => mret r | Throw e => throw e end.
#[local] Instance demo_client_laws : LLMLaws demo_client.
Proof.
  intros n params w r w'. unfold createMessage, demo_client, demo_reply.
  unfold mret, M_ret, throw. repeat case_match; intros; by simplify_eq.
Qed.
#[local] Instance demo_gated J : GatedClient J.
Proof.
  intros n params. unfold createMessage, demo_client. destruct (demo_reply params); apply gk_keeps.
  - apply keeps_ret.
  - apply keeps_throw.
Qed.
#[local] Instance demo_llm_env : LLMEnvironment := mkEnv None None None None (Some (js "key")).

(** ** The conversation *)

Definition said_user (t : string) : slot := Some (mkMessage User (Prose (js t))).
Definition asked (l : list LLMContentBlock) : slot := Some (mkMessage Assistant (Blocks l)).
Definition quiet_outcome : ToolOutcome :=
  mkToolOutcome true (Some (JBool true)) None false false false false false None.
Definition holding_outcome : ToolOutcome :=
  mkToolOutcome false None None false false false false true (Some (randomUUID 0)).
Definition loop_params (message : string) (run : jsstr → fields → M ToolOutcome)
    (resume : option ResumeState) : ConversationLoopParams :=
  mkLoopParams (js message) [] run (js "model") 1024 None (Some (persistWith RO_human)) resume.
Definition object_call : jsstr → fields → M ToolOutcome :=
  executeToolForLoop (js "u") (js "a") None RO_human None.

(** A turn held at the first of two calls. *)
Definition held_turn : HeldTurnState :=
  mkHeldTurn [said_user "two"; asked [demo_use "use-1" (js "eve"); demo_use "use-2" (js "bob")]]
    (mkToolUse (js "use-1") (js "mail_send") [(js "to", JStr (js "eve"))])
    [mkToolUse (js "use-2") (js "mail_send") [(js "to", JStr (js "bob"))]] [] 1
    [call_record (js "mail_send") (js "use-1") TC_held None] (mkUsage 1 1).
Definition held_answer : ResumeState :=
  mkResume held_turn (mkToolResult (js "use-1") (js "sent") (Some false)) TC_success None.

Lemma held_turn_ok : held_ok held_turn.
Proof.
  split; [reflexivity|unfold MAX_ITERATIONS; simpl; lia|]. exists []. split; [reflexivity|constructor].
Qed.


(** The resumed turn drains the parked call and asks once more. *)
Example resumed_turn_runs :
  let '(r, s', w') := runConversationLoop (loop_params "" object_call (Some held_answer)) (mkConv [] [])
    agent_world in
  r = Ok (mkLoopResult (js "done")
    [call_record (js "mail_send") (js "use-1") TC_success None;
     call_record (js "mail_send") (js "use-2") TC_success None] (mkUsage 2 2) 2 None) ∧
  length (cv_messages s') = 4%nat ∧ length (cv_requests s') = 1%nat.
Proof. vm_compute. done. Qed.

Lemma failed_turn_restores_witness :
  let p := loop_params "fail" (λ _ _, mret quiet_outcome) None in
  let s := mkConv [said_user "hello"; asked [TextBlock (js "hi")]] [] in
  ∃ e s' w', runConversationLoop p s agent_world = (Throw e, s', w') ∧
    cv_messages s' = cv_messages s.
Proof.
  intros p s. destruct (runConversationLoop p s agent_world) as [[[r|e] s'] w'] eqn:E.
  { assert (fst (fst (runConversationLoop p s agent_world)) = Throw (Exn UPSTREAM_UNAVAILABLE_MESSAGE)) as Ef
      by (vm_compute; reflexivity). rewrite E in Ef. discriminate. }
  exists e, s', w'. split; [reflexivity|].
  refine (failed_turn_restores p s agent_world e s' w' _ _ _ _ E).
  - split; [|discriminate]. right. reflexivity.
  - constructor.
  - split; intros; intros w; do 2 eexists; reflexivity.
  - discriminate.
Defined.

(** The turns on file account for their calls. *)
Definition accounted (w : World) : Prop :=
  Forall (λ h, ∀ v st, parseTurnState (hc_turn_state h) = TurnOk v → read_turn v = Some st → held_ok st)
    (held_tool_calls (w_db w)).

Definition demo_stranded : json :=
  JObj [(js "heldCall", JObj [(js "id", JStr (js "use-1")); (js "name", JStr (js "mail_send"));
    (js "input", JObj [(js "to", JStr (js "bob"))])]); (js "dispatched", JBool true)].

Lemma stored_holds_account_witness :
  accounted (snd (runConversationLoop (loop_params "two" (λ _ _, mret holding_outcome) None)
    (mkConv [] []) stranded_world)).
Proof.
  refine (stored_holds_account (loop_params "two" (λ _ _, mret holding_outcome) None) accounted
    (mkConv [] []) stranded_world _ _ _ _ _ _ _).
  - intros name input w Hw. exact Hw.
  - intros n params w _ Hw. unfold createMessage, demo_client. destruct (demo_reply params); exact Hw.
  - intros w Hw. exact Hw.
  - intros id st w Hst Hw. unfold accounted. cbn. unfold update_where. apply Forall_fmap.
    eapply Forall_impl; [exact Hw|]. intros h Hh. unfold compose. destruct (is_held id h); [|exact Hh].
    intros v st' Ep Er. cbn [set_turn_state hc_turn_state] in Ep.
    assert (v = JObj (turn_fields st ++ [(js "origin", JStr (js "human"))])) as ->
      by (change (TurnOk (turn_json st RO_human) = TurnOk v) in Ep; injection Ep as <-; reflexivity).
    rewrite read_turn_fields in Er. by injection Er as <-.
  - split; [|discriminate]. right. reflexivity.
  - constructor.
  - unfold accounted. assert (held_tool_calls (w_db stranded_world) = [stranded_hold]) as ->
      by (vm_compute; reflexivity).
    constructor; [|constructor]. intros v st Ep Er. exfalso. revert Er.
    assert (v = demo_stranded) as -> by (by injection Ep). vm_compute. discriminate.
Defined.

(** A buffer that grew after the call was held. *)
Definition grown_buffer : list slot :=
  [said_user "hello"; asked [TextBlock (js "hi")]; said_user "more"; asked [TextBlock (js "ok")]].
Definition late_turn : HeldTurnState :=
  mkHeldTurn [said_user "late"; asked [demo_use "use-1" (js "eve")]]
    (mkToolUse (js "use-1") (js "mail_send") [(js "to", JStr (js "eve"))]) [] [] 1
    [call_record (js "mail_send") (js "use-1") TC_held None] (mkUsage 1 1).
Definition late_answer : ResumeState :=
  mkResume late_turn (mkToolResult (js "use-1") (js "sent") (Some false)) TC_success None.

(** A provider that is down. *)
Definition down_client : LLMClient := λ _ _, throw (Exn UPSTREAM_UNAVAILABLE_MESSAGE).

Lemma long_buffer_resume_leaves_hole_witness :
  ∃ s', runConversationLoop (H1 := down_client) (loop_params "" object_call (Some late_answer))
      (mkConv grown_buffer []) agent_world = (Throw (Exn UPSTREAM_UNAVAILABLE_MESSAGE), s', agent_world) ∧
    length (cv_messages s') = 4%nat ∧ ∀ later, ¬ wire_ok (cv_messages s' ++ later).
Proof.
  refine (long_buffer_resume_leaves_hole (loop_params "" object_call (Some late_answer)) late_answer
    (mkConv grown_buffer []) agent_world _ agent_world _ _ _ _ _);
    [reflexivity|reflexivity|unfold MAX_ITERATIONS; simpl; lia|simpl; lia|reflexivity].
Defined.

(** ** The object *)

Definition demo_chat (message : string) : Conv * World → Conv * World :=
  after (chat (js message) (js "u") (Some (js "a")) None).
Definition demo_resolve (id : jsstr) (c : choice) : Conv * World → Conv * World :=
  after (resolveConfirmation id c (js "u") (Some (js "a"))).
(** A clock of one second a reading, an hour after the session was opened. *)
Definition fresh_object : Conv * World :=
  (mkConv [] [], mkWorld (w_db agent_world) (λ n, 1767229200000 + 1000 * Z.of_nat n) 0
    (w_uuids agent_world) false).
(** A call of [eve], for whom there is no grant, is held. *)
Definition held_object : Conv * World := demo_chat "eve" fresh_object.
Definition hold_of (x : Conv * World) : jsstr :=
  match held_tool_calls (w_db (snd x)) with h :: _ => hc_id h | [] => [] end.

Lemma fresh_object_inv : agent_inv (w_db (snd fresh_object)) (w_uuids (snd fresh_object)).
Proof. exact agent_world_inv. Qed.
Lemma chat_inv message x :
  agent_inv (w_db (snd x)) (w_uuids (snd x)) →
  agent_inv (w_db (snd (demo_chat message x))) (w_uuids (snd (demo_chat message x))).
Proof. apply (op_keeps agent_inv (Op_chat (js message) (js "u") (Some (js "a")) None)). Qed.
Lemma held_object_inv : agent_inv (w_db (snd held_object)) (w_uuids (snd held_object)).
Proof. apply chat_inv, fresh_object_inv. Qed.

Lemma chat_requests_accepted_witness :
  let s := mkConv [said_user "two"; asked [demo_use "use-1" (js "eve"); demo_use "use-2" (js "bob")]] [] in
  conv_ok (fst (after (chat (js "bob") (js "u") None None) (s, snd fresh_object))).
Proof.
  intros s. refine (chat_requests_accepted (js "bob") (js "u") None None s (snd fresh_object) _ _);
    [discriminate|split; [eexists; reflexivity|constructor]].
Defined.

(** What a resolution answered: where the turn stands, and how it ended. *)
Definition resumed_as (x : res ConfirmationResolution * Conv * World) : option (option jsstr * Z) :=
  match fst (fst x) with Ok (Res_resumed r) => Some (lp_held r, lp_iterations r) | _ => None end.

Lemma resolution_settles_witness :
  let out := resolveConfirmation (hold_of held_object) Ch_task (js "u") None (fst held_object) (snd held_object) in
  ∃ r s' w', out = (Ok (Res_resumed r), s', w') ∧
    ∃ h st, h ∈ held_tool_calls (w_db (snd held_object)) ∧ hc_id h = hold_of held_object ∧
      parseTurnState (hc_turn_state h) = TurnOk st ∧ gone (hold_of held_object) w' ∧
      (answered_of st = None →
        wrote_closer (audit_log (w_db (snd held_object))) (hc_pending_audit_entry_id h) w') ∧
      (∀ v, answered_of st = Some v → ∃ a ha w1 w2, read_answered v = Some a ∧ ha_held ha = h ∧ ha_state ha = st ∧
         w_db w1 = w_db (snd held_object) ∧
         resumeAndRecord ha st a (fst held_object) w1 = (Ok (Res_resumed r), s', w2) ∧ w' = with_gate false w2).
Proof.
  intros out. assert (resumed_as out = Some (None, 2)) as Er by (vm_compute; reflexivity). revert Er. unfold out.
  clear out. intros Er. destruct (resolveConfirmation _ _ _ _ _ _) as [[res s'] w'] eqn:E. destruct res as [[| | | |r]|]; try discriminate Er.
  exists r, s', w'. split; [reflexivity|].
  refine (resolution_settles (hold_of held_object) Ch_task (js "u") None (fst held_object) (snd held_object)
    r s' w' _ _ _ _ held_object_inv E _).
  injection Er as -> _. discriminate.
Defined.

Lemma refused_answers_change_nothing_witness :
  let out := resolveConfirmation (hold_of held_object) Ch_approve_once (js "u") None (fst held_object) (snd held_object) in
  ∃ res s' w', out = (Ok res, s', w') ∧ s' = fst held_object ∧ w_db w' = w_db (snd held_object).
Proof.
  intros out.
  assert (fst (fst out) = Ok (Res_invalid_choice APPROVE_ONCE_ONLY)) as Er by (vm_compute; reflexivity).
  revert Er. unfold out. clear out. intros Er. destruct (resolveConfirmation _ _ _ _ _ _) as [[res s'] w'] eqn:E. cbn in Er. subst res. do 3 eexists. split; [reflexivity|].
  refine (refused_answers_change_nothing (hold_of held_object) Ch_approve_once (js "u") None (fst held_object)
    (snd held_object) (Res_invalid_choice APPROVE_ONCE_ONLY) s' w' E _ _);
    [discriminate|right].
  assert (forallb (λ h, match parseTurnState (hc_turn_state h) with TurnFutureVersion => false | _ => true end)
    (held_tool_calls (w_db (snd held_object))) = true) as Hf by (vm_compute; reflexivity).
  rewrite forallb_forall in Hf. intros h Hh%list_elem_of_In _ Ef. specialize (Hf h Hh). rewrite Ef in Hf.
  discriminate Hf.
Defined.

(** The hold's action, as [resolveConfirmation] reads it. *)
Definition demo_action (h : HeldToolCallsRow) (st : json) : HeldAction :=
  mkHeldAction h st (mkToolUse (js "use-1") (js "mail_send") [(js "to", JStr (js "eve"))])
    [(js "to", JStr (js "eve"))] (js "u") (js "a").
Definition direct_state (extra : fields) : json :=
  JObj ([(js "heldCall", tool_use_json (mkToolUse (js "use-1") (js "mail_send") [(js "to", JStr (js "eve"))]));
         (js "directExecute", JBool true)] ++ extra).
Definition direct_hold : HeldToolCallsRow :=
  mkHeld (randomUUID 0) demo_sid (randomUUID 1) (wrapTurnState (direct_state [])) [] None H_confirmation None None.
Definition direct_world : World := with_db (set_held_tool_calls (λ rows, rows ++ [direct_hold])) agent_world.

Lemma dispatch_is_marked_witness :
  let h := demo_action direct_hold (direct_state []) in
  let g := Some (js "grant") in
  ∃ w1, dispatchHeld h g (mkConv [] []) direct_world = runMarked h (mkConv [] []) w1 ∧
    (∃ row st, row ∈ held_tool_calls (w_db w1) ∧ hc_id row = hc_id (ha_held h) ∧
       parseTurnState (hc_turn_state row) = TurnOk st ∧ ts_dispatched st = true) ∧
    (∀ id r, g = Some id → id ≠ [] → r ∈ policy_entries (w_db w1) → po_id r = id →
       po_source r = S_task → po_consumed_at r ≠ None).
Proof.
  refine (dispatch_is_marked (demo_action direct_hold (direct_state [])) (Some (js "grant")) (mkConv [] [])
    direct_world _ _); [|eexists; reflexivity].
  apply list_elem_of_In. vm_compute. left. reflexivity.
Defined.

Lemma settled_call_not_rerun_witness :
  let h := demo_action direct_hold (direct_state [(js "dispatched", JBool true)]) in
  let w := with_gate true direct_world in
  let w' := snd (resolveHeld h Ch_task (mkConv [] []) w) in
  grown (audit_log (w_db w)) (w_db w') (w_uuids w') ∧ w_turnInFlight w' = true.
Proof.
  refine (settled_call_not_rerun (grown (audit_log (w_db direct_world)))
    (demo_action direct_hold (direct_state [(js "dispatched", JBool true)])) Ch_task (mkConv [] [])
    (with_gate true direct_world) _ _ _ _); [reflexivity|left; reflexivity|reflexivity|].
  exists []. rewrite app_nil_r. reflexivity.
Defined.

(** ** Whole runs *)

(** An approval runs the call, resumes the turn and leaves no hold; a deny the same
    without a dispatch. *)
Example resolutions_on_examples :
  map (λ c, let out := resolveConfirmation (hold_of held_object) c (js "u") None (fst held_object) (snd held_object) in
    (resumed_as out, length (cv_messages (snd (fst out))), length (held_tool_calls (w_db (snd out)))))
    [Ch_deny; Ch_task; Ch_session; Ch_tell_more; Ch_approve_once] =
  [(Some (None, 2), 4%nat, 0%nat); (Some (None, 2), 4%nat, 0%nat); (Some (None, 2), 4%nat, 0%nat);
   (None, 2%nat, 1%nat); (None, 2%nat, 1%nat)].
Proof. vm_compute. reflexivity. Qed.

(** A cold start and two failures of the provider break the conversation: the buffer
    is lost while a call is held, the answer's turn fails, the user goes on
    chatting, and the answer is given again. *)
Definition cold (x : Conv * World) : Conv * World := (mkConv [] [], snd x).
Definition late_hold : Conv * World := demo_chat "late" fresh_object.
Definition broken_object : Conv * World :=
  demo_resolve (hold_of late_hold) Ch_task
    (demo_chat "bob" (demo_chat "bob" (demo_resolve (hold_of late_hold) Ch_task (cold late_hold)))).

Example cold_start_breaks_conversation :
  (λ m : slot, bool_decide (is_Some m)) <$> cv_messages (fst broken_object) =
    [true; true; true; false; false; false; false; false] ∧
  fst (fst (chat (js "bob") (js "u") None None (fst broken_object) (snd broken_object))) = Throw TypeError.
Proof. vm_compute. done. Qed.

(** ** The adapter *)

Definition demo_params : LLMCreateParams :=
  mkCreate (js "model") 1024 (Some (js "be brief"))
    [said_user "two"; asked [TextBlock (js "on it"); demo_use "use-1" (js "eve"); demo_use "use-2" (js "bob")];
     Some (mkMessage User (Blocks [ToolResult (mkToolResult (js "use-1") (js "no") (Some true));
                                   ToolResult (mkToolResult (js "use-2") (js "yes") None)]))] None.
Lemma request_flattens_accepted_witness :
  ∃ ms groups messages, mapM id (lc_messages demo_params) = Some ms ∧ toWireMessages demo_params = Some messages ∧
    messages = [WText WR_system (js "be brief")] ++ mjoin groups ∧
    Forall2 carries ms groups ∧ chat_accepts messages.
Proof. exact (request_flattens_accepted demo_params eq_refl). Defined.

Definition demo_wire (arguments : json_text) : FetchResult :=
  Status 200 (Some (mkWireResponse
    (Some (mkChoice (WC_text (js "on it")) [mkReplyCall (js "use-1") (js "mail_send") arguments] (Some (js "stop"))))
    (Some 3) None)).
Lemma reply_is_canonical_witness :
  let r := mkResponse [TextBlock (js "on it"); ToolUse (mkToolUse (js "use-1") (js "mail_send") [])]
    (Some SR_tool_use) (mkUsage 3 0) in
  readReply (demo_wire (Parsed (JObj []))) = inr r ∧
  (lr_stop_reason r = Some SR_tool_use ↔ use_ids (lr_content r) ≠ []).
Proof.
  intros r. assert (readReply (demo_wire (Parsed (JObj []))) = inr r) as E by reflexivity.
  split; [exact E|]. exact (proj1 (proj2 (proj2 (reply_is_canonical _ r E)))).
Defined.

(** ** Tasks *)

#[local] Instance demo_served : Served.
Proof. intros J _. split; apply _. Qed.

Lemma fresh_object_runs : runs_ok (w_db (snd fresh_object)) (w_uuids (snd fresh_object)).
Proof.
  assert (commission_runs (w_db agent_world) = []) as E by (vm_compute; reflexivity).
  unfold runs_ok. cbn [fresh_object snd w_db]. rewrite E. split; constructor.
Qed.

(** A goal without its required input, the provider up: the run waits for input. *)
Definition goal_text : jsstr := js "send the report".
Definition commissioned : Conv * World := run_object (Ob_commission goal_text None (js "u") (js "a")) fresh_object.
Definition run_of (x : Conv * World) : jsstr :=
  match commission_runs (w_db (snd x)) with r :: _ => cr_run_id r | [] => [] end.
Definition task_view (x : Conv * World) : list run_status * list jsstr :=
  (cr_status <$> commission_runs (w_db (snd x)), hc_id <$> held_tool_calls (w_db (snd x))).
Definition bob_data : data_map := [(js "to", JsString.js "bob")].

Definition many_ops : list object_op :=
  [Ob_commission goal_text None (js "u") (js "a"); Ob_amend (run_of commissioned) bob_data;
   Ob_provide (run_of commissioned) bob_data (js "u") None; Ob_readRun (run_of commissioned);
   Ob_turn (Op_chat (js "eve") (js "u") None None); Ob_execute mail_call;
   Ob_cancel (run_of commissioned) Sf_mcp (js "u") None; Ob_endSession E_quit; Ob_kill].
Lemma many_ops_admissible : Forall op_admissible many_ops.
Proof. repeat constructor. Qed.

Lemma object_keeps_store_witness :
  let x' := run_objects many_ops fresh_object in
  agent_inv (w_db (snd x')) (w_uuids (snd x')) ∧ runs_ok (w_db (snd x')) (w_uuids (snd x')) ∧
  audit_log (w_db (snd fresh_object)) `prefix_of` audit_log (w_db (snd x')) ∧
  w_turnInFlight (snd x') = w_turnInFlight (snd fresh_object).
Proof.
  exact (object_keeps_store many_ops fresh_object many_ops_admissible fresh_object_inv fresh_object_runs).
Defined.

Lemma only_answers_grant_witness :
  Forall (granted_by (policy_entries (w_db (snd fresh_object))))
    (policy_entries (w_db (snd (run_objects many_ops fresh_object)))).
Proof.
  refine (only_answers_grant many_ops fresh_object many_ops_admissible _). repeat constructor.
Defined.

Lemma runs_never_reopen_witness :
  ∃ old new, commission_runs (w_db (snd (run_objects many_ops commissioned))) = old ++ new ∧
    Forall2 (λ r r',
      cr_run_id r' = cr_run_id r ∧ cr_origin r' = cr_origin r ∧ cr_goal r' = cr_goal r ∧
      cr_session_id r' = cr_session_id r ∧ rtc run_step (cr_status r) (cr_status r') ∧
      (terminal (cr_status r) → cr_status r' = cr_status r)) (commission_runs (w_db (snd commissioned))) old.
Proof. exact (runs_never_reopen many_ops commissioned many_ops_admissible). Defined.

Lemma queue_bounded_witness :
  (length (pending (w_db (snd (run_objects many_ops fresh_object)))) <=
   Nat.max MAX_PENDING_COMMISSIONS (length (pending (w_db (snd fresh_object)))))%nat.
Proof. exact (queue_bounded many_ops fresh_object many_ops_admissible fresh_object_runs). Defined.

Lemma fresh_object_times :
  times_ok (session_state (w_db agent_world)) (w_clock agent_world).
Proof. exact agent_world_times. Qed.
(** A commission that is admitted, and one with a key no tool publishes. *)
Lemma commission_reports_witness :
  ∃ r s' w', commissionGoal goal_text (Some bob_data) (js "u") (js "a") (mkConv [] []) agent_world = (r, s', w') ∧
    cv_messages s' = [] ∧ w_turnInFlight w' = w_turnInFlight agent_world ∧
    (¬ commission_ok goal_text (Some bob_data) ∧ (∃ e, r = Throw e) ∧ s' = mkConv [] [] ∧ w' = agent_world ∨
     commission_ok goal_text (Some bob_data) ∧ w_turnInFlight agent_world = true ∧
       r = Ok (Co_busy Busy_turn_in_flight) ∧ s' = mkConv [] [] ∧ w' = agent_world ∨
     commission_ok goal_text (Some bob_data) ∧ w_turnInFlight agent_world = false ∧ ∃ out, r = Ok out ∧
       (out = Co_busy Busy_commission_pending ∧ (MAX_PENDING_COMMISSIONS <= length (pending (w_db w')))%nat ∨
        ∃ id, existsb (is_run id) (commission_runs (w_db agent_world)) = false ∧ reported goal_text id out w')).
Proof.
  exact (commission_reports goal_text (Some bob_data) (js "u") (js "a") (mkConv [] []) agent_world
    agent_world_inv fresh_object_runs agent_world_times).
Defined.
Example commissions_answered :
  let commission data := fst (fst (commissionGoal goal_text (Some data) (js "u") (js "a") (mkConv [] []) agent_world)) in
  (∃ out, commission bob_data = Ok out) ∧ (∃ e, commission [(js "unheard-of", js "x")] = Throw e).
Proof. split; eexists; vm_compute; reflexivity. Qed.

Definition cancelled_by (x : Conv * World) (s : surface) : res CancelTaskResult * World :=
  cancelTask (run_of x) s (js "u") None (snd x).
Lemma commissioned_inv : agent_inv (w_db (snd commissioned)) (w_uuids (snd commissioned)).
Proof.
  destruct (demo_served agent_inv _). unfold commissioned.
  by apply (object_keeps agent_inv (Ob_commission goal_text None (js "u") (js "a")) fresh_object
    (λ _, _) (λ _, _) I fresh_object_inv).
Qed.

Lemma cancel_settles_witness :
  let out := cancelTask (run_of commissioned) Sf_mcp (js "u") None (snd commissioned) in
  ∃ w', out = (Ok (Ca_cancelled R_needs_input), w') ∧
    let w1 := reaped_from (snd commissioned) in
    ∃ run, List.find (is_run (run_of commissioned)) (commission_runs (w_db w1)) = Some run ∧
      R_needs_input = cr_status run ∧ has_run_status parked_statuses run = true ∧
      (Sf_mcp = Sf_mcp → cr_origin run = O_mcp_commission) ∧
      (∀ h, h ∈ held_tool_calls (w_db w1) → held_by_run (run_of commissioned) h = true →
         turnStateHasResolution (hc_turn_state h) = false) ∧
      cancelled (run_of commissioned) Sf_mcp run w1 w'.
Proof.
  intros out. assert (fst out = Ok (Ca_cancelled R_needs_input)) as Er by (vm_compute; reflexivity).
  assert (w_turnInFlight (snd commissioned) = false) as Hg by (vm_compute; reflexivity).
  revert Er. unfold out. clear out. intros Er.
  destruct (cancelTask (run_of commissioned) Sf_mcp (js "u") None (snd commissioned)) as [res w'] eqn:E.
  cbn [fst] in Er. subst res. exists w'. split; [reflexivity|].
  exact (cancel_settles (run_of commissioned) Sf_mcp (js "u") None (snd commissioned) (Ca_cancelled R_needs_input) w'
    commissioned_inv Hg E).
Defined.

Lemma amend_only_awaiting_witness :
  ∃ r w', amendTask (run_of commissioned) bob_data (snd commissioned) = (r, w') ∧
    w_turnInFlight w' = false ∧
    (w' = snd commissioned ∨ amended (run_of commissioned) bob_data (reaped_from (snd commissioned)) r w').
Proof.
  assert (w_turnInFlight (snd commissioned) = false) as Hg by (vm_compute; reflexivity).
  destruct (amendTask (run_of commissioned) bob_data (snd commissioned)) as [r w'] eqn:E.
  exists r, w'. split; [reflexivity|].
  exact (amend_only_awaiting (run_of commissioned) bob_data (snd commissioned) r w' Hg E).
Defined.

(** Ten commissions: eight wait, two are refused. *)
Example eight_wait :
  let x := run_objects (replicate 10 (Ob_commission goal_text None (js "u") (js "a"))) fresh_object in
  length (pending (w_db (snd x))) = 8%nat ∧ length (commission_runs (w_db (snd x))) = 8%nat.
Proof. vm_compute. done. Qed.

(** The input arrives and the call runs to its end; or the task is cancelled. *)
Example input_on_examples :
  map (λ op, task_view (run_object op commissioned))
    [Ob_provide (run_of commissioned) bob_data (js "u") None;
     Ob_cancel (run_of commissioned) Sf_human (js "u") None] =
  [([R_completed], []); ([R_cancelled], [])].
Proof. vm_compute. reflexivity. Qed.

(** The question of a run that waits for input can also be answered as if it asked
    for permission. It is listed among the confirmations; after either answer
    the hold is gone, the run still reads [needs_input] and no input is
    accepted for it any more. *)
Example input_hold_answered :
  let answered c := demo_resolve (hold_of commissioned) c commissioned in
  (length <$> match fst (readPendingHeldRecords (snd commissioned)) with Ok l => Some l | _ => None end) = Some 1%nat ∧
  map (λ c, task_view (answered c)) [Ch_deny; Ch_task] = [([R_needs_input], []); ([R_needs_input], [])] ∧
  map (λ c, fst (fst (provideTaskInput (run_of commissioned) bob_data (js "u") None (fst (answered c)) (snd (answered c)))))
    [Ch_deny; Ch_task] = [Ok Pr_not_found; Ok Pr_not_found].
Proof. vm_compute. done. Qed.

(** And the approved call runs although its value is still missing, with the text of
    its placeholder; an amendment between the question and the answer swaps the
    value that runs. *)
Definition executed_noun (x : Conv * World) : option jsstr := (λ r : AuditLogRow, h_noun r) <$> last (audit_log (w_db (snd x))).
Example input_hold_swapped :
  let answer := demo_resolve (hold_of commissioned) Ch_task in
  [executed_noun (answer commissioned);
   executed_noun (answer (run_object (Ob_amend (run_of commissioned) bob_data) commissioned))] =
  [Some (js "{{data.to}}"); Some (js "bob")].
Proof. vm_compute. reflexivity. Qed.
