(* ===== verification/Learning.v ===== *)
(** * Refinement artifacts: [packages/contracts/src/refinements.ts]

    The records of governed learning - the guidance a workflow may be given, its
    provenance, its validation and the transitions it goes through - with the
    conditions their schemas put on them, the canonical JSON they are stored and
    hashed as ([packages/engine/src/refinements/canonical.ts]), and the check of a
    validation report ([refinements/validation.ts]). *)

From S2P Require Export Canonical.
Open Scope Z_scope.

(** ** Canonical JSON *)

Definition is_well_formed (s : jsstr) : bool := bool_decide (toWellFormed s = s).
Definition member_lt (a b : jsstr * json) : bool := js_lt (fst a) (fst b).

(** The value [canonicalJson] writes: keys sorted by their code units; [None] where
    it throws. *)
Fixpoint canonical_value (v : json) (depth : nat) : option json :=
  if (32 <? depth)%nat then None else
  match v with
  | JNull | JBool _ | JNum _ => Some v
  | JStr s => if is_well_formed s then Some v else None
  | JArr l => JArr <$> mapM id (map (λ x, canonical_value x (S depth)) l)
  | JObj fs =>
      fs' ← mapM id (map (λ kv,
        if (32 <? S depth)%nat || negb (is_well_formed (fst kv)) then None
        else pair (fst kv) <$> canonical_value (snd kv) (S depth)) fs);
      Some (JObj (stable_sort member_lt fs'))
  end.
Definition canonicalJson (v : json) : option jsstr := JSON_stringify <$> canonical_value v 0.

(** A throw of [RefinementError]. *)
Definition refuse {A} (code : RefinementErrorCode) : M A := throw (RefinementError code).
Definition or_refuse {A} (code : RefinementErrorCode) (v : option A) : M A :=
  match v with Some a => mret a | None => refuse code end.
Definition require (code : RefinementErrorCode) (b : bool) : M unit := if b then mret tt else refuse code.

Definition refinementHash `{Platform} (v : json) : M jsstr :=
  text ← or_refuse RE_INVALID_REQUEST (canonicalJson v);
  mret (sha256_hex (utf8 text)).
(** A TEXT column that is given [canonicalJson(v)]. *)
Definition canonical_column (v : json) : M json_text :=
  c ← or_refuse RE_INVALID_REQUEST (canonical_value v 0); mret (Parsed c).
Definition same_json (a b : json) : M bool :=
  x ← or_refuse RE_INVALID_REQUEST (canonicalJson a);
  y ← or_refuse RE_INVALID_REQUEST (canonicalJson b);
  mret (eqs x y).

(** ** Records *)

Record RefinementScope := mkScope { sc_workflowId : jsstr; sc_workflowContractHash : jsstr }.
Record RefinementContent := mkContent {
  co_title : jsstr; co_rationale : jsstr; co_scope : RefinementScope; co_steps : list jsstr;
}.
Inductive source_kind := Src_learning_fixture | Src_correction | Src_run_outcome.
Record RefinementSourceRef := mkSourceRef { sr_kind : source_kind; sr_id : jsstr }.
Record RefinementSource := mkSource {
  so_ref : RefinementSourceRef; so_sha256 : option jsstr; so_auditEntryId : option jsstr; so_resolved : bool;
}.
Inductive producer_kind := Pk_operator_import | Pk_engine_model | Pk_deterministic_mock.
Record RefinementProvenance := mkProvenance {
  pv_createdAt : jsstr; pv_producerKind : producer_kind; pv_producerRunId : option jsstr;
  pv_modelConfigHash : option jsstr; pv_sources : list RefinementSource;
}.
Record RefinementEnvelope := mkEnvelope {
  ev_versionId : jsstr; ev_familyId : jsstr; ev_revision : Z; ev_parentVersionId : option jsstr;
  ev_content : RefinementContent; ev_provenance : RefinementProvenance;
}.
Inductive RefinementAction := Ra_propose | Ra_validate | Ra_approve | Ra_activate | Ra_disable | Ra_rollback.
#[export] Instance refinement_action_eq_dec : EqDecision RefinementAction.
Proof. solve_decision. Defined.
Inductive RefinementExecutionKind := Ek_schema_contract | Ek_deterministic_mock | Ek_real_model.
#[export] Instance execution_kind_eq_dec : EqDecision RefinementExecutionKind.
Proof. solve_decision. Defined.
Record RefinementQualification := mkQualification {
  ql_suiteId : jsstr; ql_suiteHash : jsstr; ql_learningManifestHash : jsstr; ql_validationManifestHash : jsstr;
  ql_caseIds : list jsstr; ql_checkIds : list jsstr; ql_executionKind : RefinementExecutionKind;
  ql_modelConfigHash : option jsstr;
}.
Record RefinementValidationBindings := mkBindings {
  bi_versionId : jsstr; bi_versionHash : jsstr; bi_scopeKey : jsstr; bi_workflowContractHash : jsstr;
  bi_workflowBuildHash : jsstr; bi_validatorBuildHash : jsstr; bi_qualification : RefinementQualification;
}.
Record report_check := mkCheck { ck_checkId : jsstr; ck_passed : bool }.
Record report_case := mkCase {
  ca_caseId : jsstr; ca_inputHash : jsstr; ca_outputHash : jsstr; ca_checks : list report_check;
}.
Inductive accounting := Ac_none | Ac_synthetic | Ac_provider_reported.
#[export] Instance accounting_eq_dec : EqDecision accounting.
Proof. solve_decision. Defined.
Inductive call_role := Role_root | Role_child.
Record report_call := mkReportCall {
  ll_callId : jsstr; ll_parentCallId : option jsstr; ll_role : call_role; ll_inputTokens : Z; ll_outputTokens : Z;
}.
Record report_usage := mkReportUsage {
  lu_accounting : accounting; lu_calls : list report_call; lu_inputTokens : Z; lu_outputTokens : Z;
}.
Record RefinementValidationReport := mkReport {
  rt_cases : list report_case; rt_elapsedMs : Z; rt_usage : report_usage;
}.
Record RefinementValidation := mkValidation {
  vl_id : jsstr; vl_bindings : RefinementValidationBindings; vl_status : RefinementStatus;
  vl_assurance : RefinementAssurance; vl_report : option RefinementValidationReport;
  vl_reportHash : option jsstr; vl_reason : option jsstr; vl_startedAt : jsstr; vl_deadlineAt : jsstr;
  vl_completedAt : option jsstr;
}.
Record RefinementVersion := mkVersion {
  vr_envelope : RefinementEnvelope; vr_versionHash : jsstr; vr_scopeKey : jsstr; vr_state : RefinementState;
  vr_latestAttemptId : option jsstr; vr_validatedAttemptId : option jsstr; vr_approvalAuditId : option jsstr;
  vr_lastTransitionAuditId : jsstr; vr_updatedAt : jsstr;
}.
Record RefinementScopeState := mkScopeState {
  ss_scopeKey : jsstr; ss_activeVersionId : option jsstr; ss_generation : Z;
  ss_lastTransitionAuditId : option jsstr;
}.
Record RefinementPin := mkPin {
  pi_versionId : jsstr; pi_versionHash : jsstr; pi_validationId : jsstr; pi_scopeKey : jsstr;
  pi_scopeGeneration : Z;
}.
Record RefinementMutationResponse := mkMutation {
  mu_versionId : jsstr; mu_versionHash : jsstr; mu_state : RefinementState; mu_scopeGeneration : Z;
  mu_auditEntryId : jsstr;
}.
Record RefinementTransitionRecord := mkTransition {
  tn_action : RefinementAction; tn_requestHash : jsstr; tn_response : RefinementMutationResponse;
}.

(** The requests. [RefinementActivateRequest] and [RefinementRollbackRequest] extend
    [RefinementApproveRequest]. *)
Record RefinementProposeRequest := mkPropose {
  pq_userId : jsstr; pq_content : RefinementContent; pq_parentVersionId : option jsstr;
  pq_sources : list RefinementSourceRef;
}.
Record RefinementValidateRequest := mkValidate {
  vq_userId : jsstr; vq_versionId : jsstr; vq_versionHash : jsstr; vq_suiteId : jsstr;
}.
Record RefinementApproveRequest := mkApprove {
  aq_userId : jsstr; aq_versionId : jsstr; aq_versionHash : jsstr; aq_validationId : jsstr;
  aq_reportHash : jsstr; aq_expectedScopeGeneration : Z;
}.
Inductive switch_request :=
  | ActivateRequest (r : RefinementApproveRequest) (approvalAuditId : jsstr)
  | RollbackRequest (r : RefinementApproveRequest) (reason : jsstr).
Record RefinementDisableRequest := mkDisable {
  dq_userId : jsstr; dq_versionId : jsstr; dq_versionHash : jsstr; dq_expectedScopeGeneration : Z;
  dq_reason : jsstr;
}.

(** ** The conditions of the schemas *)

Definition text_ok (max : nat) (s : jsstr) : bool :=
  is_well_formed s && (1 <=? length s)%nat && (length s <=? max)%nat.
Definition id_ok : jsstr → bool := text_ok 160.
Definition is_hex (c : N) : bool := ((48 <=? c) && (c <=? 57) || (97 <=? c) && (c <=? 102))%N.
Definition hash_ok (s : jsstr) : bool := (length s =? 64)%nat && forallb is_hex s.
Definition count_ok (z : Z) : bool := (0 <=? z) && (z <=? max_safe).
Definition or_null {A} (f : A → bool) (v : option A) : bool := match v with None => true | Some a => f a end.
Definition between {A} (lo hi : nat) (l : list A) : bool := (lo <=? length l)%nat && (length l <=? hi)%nat.
Definition distinct (l : list jsstr) : bool := bool_decide (NoDup l).

Definition text_of_slot : jsstr := js "reasoning".
Definition enum_json {A} (text : A → jsstr) (a : A) : json := JStr (text a).
Definition source_kind_text (k : source_kind) : jsstr :=
  match k with Src_learning_fixture => js "learning_fixture" | Src_correction => js "correction" | Src_run_outcome => js "run_outcome" end.
Definition producer_text (k : producer_kind) : jsstr :=
  match k with Pk_operator_import => js "operator_import" | Pk_engine_model => js "engine_model" | Pk_deterministic_mock => js "deterministic_mock" end.
Definition state_text (s : RefinementState) : jsstr :=
  match s with RS_proposed => js "proposed" | RS_validated => js "validated" | RS_approved => js "approved"
  | RS_active => js "active" | RS_disabled => js "disabled" end.
Definition action_text (a : RefinementAction) : jsstr :=
  match a with Ra_propose => js "propose" | Ra_validate => js "validate" | Ra_approve => js "approve"
  | Ra_activate => js "activate" | Ra_disable => js "disable" | Ra_rollback => js "rollback" end.
Definition execution_text (k : RefinementExecutionKind) : jsstr :=
  match k with Ek_schema_contract => js "schema_contract" | Ek_deterministic_mock => js "deterministic_mock"
  | Ek_real_model => js "real_model" end.
Definition accounting_text (a : accounting) : jsstr :=
  match a with Ac_none => js "none" | Ac_synthetic => js "synthetic" | Ac_provider_reported => js "provider_reported" end.
Definition role_of_text (r : call_role) : jsstr := match r with Role_root => js "root" | Role_child => js "child" end.
Definition status_text (s : RefinementStatus) : jsstr :=
  match s with VS_running => js "running" | VS_passed => js "passed" | VS_failed => js "failed" | VS_error => js "error" end.

(** ** What is written: the values the hashes and the columns are made from *)

Definition jstrs (l : list jsstr) : json := JArr (JStr <$> l).
Definition jopt : option jsstr → json := λ v, match v with Some s => JStr s | None => JNull end.

Definition scope_json (s : RefinementScope) : json :=
  JObj [(js "workflowId", JStr (sc_workflowId s)); (js "slot", JStr text_of_slot);
        (js "workflowContractHash", JStr (sc_workflowContractHash s))].
Definition content_json (c : RefinementContent) : json :=
  JObj [(js "schemaVersion", jint 1); (js "kind", JStr (js "workflow-guidance")); (js "title", JStr (co_title c));
        (js "rationale", JStr (co_rationale c)); (js "scope", scope_json (co_scope c));
        (js "procedure", JObj [(js "steps", jstrs (co_steps c))])].
Definition source_ref_fields (r : RefinementSourceRef) : fields :=
  [(js "kind", JStr (source_kind_text (sr_kind r))); (js "id", JStr (sr_id r))].
Definition source_json (s : RefinementSource) : json :=
  JObj (source_ref_fields (so_ref s) ++
        [(js "sha256", jopt (so_sha256 s)); (js "auditEntryId", jopt (so_auditEntryId s)); (js "resolved", JBool (so_resolved s))]).
Definition provenance_json (p : RefinementProvenance) : json :=
  JObj [(js "createdAt", JStr (pv_createdAt p)); (js "producerKind", JStr (producer_text (pv_producerKind p)));
        (js "producerRunId", jopt (pv_producerRunId p)); (js "modelConfigHash", jopt (pv_modelConfigHash p));
        (js "sources", JArr (source_json <$> pv_sources p))].
Definition envelope_json (e : RefinementEnvelope) : json :=
  JObj [(js "versionId", JStr (ev_versionId e)); (js "familyId", JStr (ev_familyId e));
        (js "revision", jint (ev_revision e)); (js "parentVersionId", jopt (ev_parentVersionId e));
        (js "content", content_json (ev_content e)); (js "provenance", provenance_json (ev_provenance e))].
Definition qualification_json (q : RefinementQualification) : json :=
  JObj [(js "suiteId", JStr (ql_suiteId q)); (js "suiteHash", JStr (ql_suiteHash q));
        (js "learningManifestHash", JStr (ql_learningManifestHash q));
        (js "validationManifestHash", JStr (ql_validationManifestHash q));
        (js "caseIds", jstrs (ql_caseIds q)); (js "checkIds", jstrs (ql_checkIds q));
        (js "executionKind", JStr (execution_text (ql_executionKind q)));
        (js "modelConfigHash", jopt (ql_modelConfigHash q))].
Definition bindings_json (b : RefinementValidationBindings) : json :=
  JObj [(js "versionId", JStr (bi_versionId b)); (js "versionHash", JStr (bi_versionHash b));
        (js "scopeKey", JStr (bi_scopeKey b)); (js "workflowContractHash", JStr (bi_workflowContractHash b));
        (js "workflowBuildHash", JStr (bi_workflowBuildHash b));
        (js "validatorBuildHash", JStr (bi_validatorBuildHash b));
        (js "qualification", qualification_json (bi_qualification b))].
Definition check_json (c : report_check) : json :=
  JObj [(js "checkId", JStr (ck_checkId c)); (js "passed", JBool (ck_passed c))].
Definition case_json (c : report_case) : json :=
  JObj [(js "caseId", JStr (ca_caseId c)); (js "inputHash", JStr (ca_inputHash c));
        (js "outputHash", JStr (ca_outputHash c)); (js "checks", JArr (check_json <$> ca_checks c))].
Definition report_call_json (c : report_call) : json :=
  JObj [(js "callId", JStr (ll_callId c)); (js "parentCallId", jopt (ll_parentCallId c));
        (js "role", JStr (role_of_text (ll_role c))); (js "inputTokens", jint (ll_inputTokens c));
        (js "outputTokens", jint (ll_outputTokens c))].
Definition report_usage_json (u : report_usage) : json :=
  JObj [(js "accounting", JStr (accounting_text (lu_accounting u))); (js "calls", JArr (report_call_json <$> lu_calls u));
        (js "inputTokens", jint (lu_inputTokens u)); (js "outputTokens", jint (lu_outputTokens u))].
Definition report_json (r : RefinementValidationReport) : json :=
  JObj [(js "cases", JArr (case_json <$> rt_cases r)); (js "elapsedMs", jint (rt_elapsedMs r));
        (js "usage", report_usage_json (rt_usage r))].
Definition mutation_json (m : RefinementMutationResponse) : json :=
  JObj [(js "versionId", JStr (mu_versionId m)); (js "versionHash", JStr (mu_versionHash m));
        (js "state", JStr (state_text (mu_state m))); (js "scopeGeneration", jint (mu_scopeGeneration m));
        (js "auditEntryId", JStr (mu_auditEntryId m))].
Definition transition_json (t : RefinementTransitionRecord) : json :=
  JObj [(js "action", JStr (action_text (tn_action t))); (js "requestHash", JStr (tn_requestHash t));
        (js "response", mutation_json (tn_response t))].

Definition propose_json (q : RefinementProposeRequest) : json :=
  JObj [(js "userId", JStr (pq_userId q)); (js "content", content_json (pq_content q));
        (js "parentVersionId", jopt (pq_parentVersionId q));
        (js "sources", JArr ((λ r, JObj (source_ref_fields r)) <$> pq_sources q))].
Definition validate_json (q : RefinementValidateRequest) : json :=
  JObj [(js "userId", JStr (vq_userId q)); (js "versionId", JStr (vq_versionId q));
        (js "versionHash", JStr (vq_versionHash q)); (js "suiteId", JStr (vq_suiteId q))].
Definition approve_fields (q : RefinementApproveRequest) : fields :=
  [(js "userId", JStr (aq_userId q)); (js "versionId", JStr (aq_versionId q));
   (js "versionHash", JStr (aq_versionHash q)); (js "validationId", JStr (aq_validationId q));
   (js "reportHash", JStr (aq_reportHash q)); (js "expectedScopeGeneration", jint (aq_expectedScopeGeneration q))].
Definition approve_json (q : RefinementApproveRequest) : json := JObj (approve_fields q).
Definition switch_json (q : switch_request) : json :=
  match q with
  | ActivateRequest r a => JObj (approve_fields r ++ [(js "approvalAuditId", JStr a)])
  | RollbackRequest r reason => JObj (approve_fields r ++ [(js "reason", JStr reason)])
  end.
Definition disable_json (q : RefinementDisableRequest) : json :=
  JObj [(js "userId", JStr (dq_userId q)); (js "versionId", JStr (dq_versionId q));
        (js "versionHash", JStr (dq_versionHash q));
        (js "expectedScopeGeneration", jint (dq_expectedScopeGeneration q)); (js "reason", JStr (dq_reason q))].

(** ** What is read back: [safeParse] of a stored value

    [strict] refuses a member the schema does not name. *)

Definition strict (ks : list string) (v : json) : option unit :=
  fs ← as_object v; guard (forallb (λ kv, existsb (λ k, eqs (fst kv) (js k)) ks) fs) ;; Some tt.
Definition literal (k : string) (x : jsstr) (v : json) : option unit :=
  s ← req k as_str v; guard (eqs s x) ;; Some tt.
Definition nullable_member {A} (k : string) (f : json → option A) (v : json) : option (option A) :=
  req k (λ x, match x with JNull => Some None | _ => Some <$> f x end) v.
Definition one_of {A} (text : A → jsstr) (l : list A) (v : json) : option A :=
  s ← as_str v; List.find (λ a, eqs (text a) s) l.
Definition parsed_by {A} (ok : A → bool) (v : option A) : option A := a ← v; guard (ok a) ;; Some a.

Section schemas.
Context `{Platform}.

(** Canonical UTC text: [Date.parse] reads it and [toISOString] writes it back. *)
Definition instant_ok (s : jsstr) : bool :=
  match dateOf s with Some t => eqs (toISOString t) s | None => false end.

Definition scope_ok (s : RefinementScope) : bool :=
  text_ok 64 (sc_workflowId s) && hash_ok (sc_workflowContractHash s).
Definition REFINEMENT_CONTENT_MAX_BYTES : N := 16384.
Definition REFINEMENT_REPORT_MAX_BYTES : N := 131072.
Definition byte_length (v : json) : N := N.of_nat (length (utf8 (JSON_stringify v))).
Definition content_ok (c : RefinementContent) : bool :=
  text_ok 80 (co_title c) && text_ok 1024 (co_rationale c) && scope_ok (co_scope c) &&
  between 1 8 (co_steps c) && forallb (text_ok 512) (co_steps c) &&
  (byte_length (content_json c) <=? REFINEMENT_CONTENT_MAX_BYTES)%N.
Definition source_ok (s : RefinementSource) : bool :=
  id_ok (sr_id (so_ref s)) && or_null hash_ok (so_sha256 s) && or_null id_ok (so_auditEntryId s) &&
  Bool.eqb (so_resolved s) (bool_decide (is_Some (so_sha256 s))).
Definition provenance_ok (p : RefinementProvenance) : bool :=
  instant_ok (pv_createdAt p) && or_null id_ok (pv_producerRunId p) && or_null hash_ok (pv_modelConfigHash p) &&
  between 1 16 (pv_sources p) && forallb source_ok (pv_sources p).
Definition envelope_ok (e : RefinementEnvelope) : bool :=
  id_ok (ev_versionId e) && id_ok (ev_familyId e) && count_ok (ev_revision e) && (0 <? ev_revision e) &&
  or_null id_ok (ev_parentVersionId e) && content_ok (ev_content e) && provenance_ok (ev_provenance e).
Definition qualification_ok (q : RefinementQualification) : bool :=
  id_ok (ql_suiteId q) && hash_ok (ql_suiteHash q) && hash_ok (ql_learningManifestHash q) &&
  hash_ok (ql_validationManifestHash q) && between 1 128 (ql_caseIds q) && forallb id_ok (ql_caseIds q) &&
  between 1 32 (ql_checkIds q) && forallb id_ok (ql_checkIds q) && or_null hash_ok (ql_modelConfigHash q) &&
  distinct (ql_caseIds q) && distinct (ql_checkIds q) &&
  negb (eqs (ql_learningManifestHash q) (ql_validationManifestHash q)) &&
  Bool.eqb (bool_decide (ql_executionKind q = Ek_schema_contract)) (bool_decide (ql_modelConfigHash q = None)).
Definition bindings_ok (b : RefinementValidationBindings) : bool :=
  id_ok (bi_versionId b) && hash_ok (bi_versionHash b) && hash_ok (bi_scopeKey b) &&
  hash_ok (bi_workflowContractHash b) && hash_ok (bi_workflowBuildHash b) &&
  hash_ok (bi_validatorBuildHash b) && qualification_ok (bi_qualification b).
Definition case_ok (c : report_case) : bool :=
  id_ok (ca_caseId c) && hash_ok (ca_inputHash c) && hash_ok (ca_outputHash c) &&
  between 1 32 (ca_checks c) && forallb (λ k, id_ok (ck_checkId k)) (ca_checks c).
Definition report_call_ok (c : report_call) : bool :=
  id_ok (ll_callId c) && or_null id_ok (ll_parentCallId c) && count_ok (ll_inputTokens c) && count_ok (ll_outputTokens c).
Definition report_ok (r : RefinementValidationReport) : bool :=
  between 1 128 (rt_cases r) && forallb case_ok (rt_cases r) && count_ok (rt_elapsedMs r) &&
  (length (lu_calls (rt_usage r)) <=? 512)%nat && forallb report_call_ok (lu_calls (rt_usage r)) &&
  count_ok (lu_inputTokens (rt_usage r)) && count_ok (lu_outputTokens (rt_usage r)) &&
  (byte_length (report_json r) <=? REFINEMENT_REPORT_MAX_BYTES)%N.
(** The reasons a validation may carry. *)
Definition reasons : list jsstr :=
  js <$> ["CHECK_FAILED"; "VALIDATOR_ERROR"; "VALIDATOR_TIMEOUT"; "INCOMPATIBLE"; "PROVENANCE_UNRESOLVED";
          "EVALUATION_OVERLAP"; "REPORT_INVALID"].
Definition validation_ok (v : RefinementValidation) : bool :=
  id_ok (vl_id v) && bindings_ok (vl_bindings v) && or_null report_ok (vl_report v) &&
  or_null hash_ok (vl_reportHash v) && or_null (λ r, existsb (eqs r) reasons) (vl_reason v) &&
  instant_ok (vl_startedAt v) && instant_ok (vl_deadlineAt v) && or_null instant_ok (vl_completedAt v).
Definition version_ok (v : RefinementVersion) : bool :=
  envelope_ok (vr_envelope v) && hash_ok (vr_versionHash v) && hash_ok (vr_scopeKey v) &&
  or_null id_ok (vr_latestAttemptId v) && or_null id_ok (vr_validatedAttemptId v) &&
  or_null id_ok (vr_approvalAuditId v) && id_ok (vr_lastTransitionAuditId v) && instant_ok (vr_updatedAt v).
Definition scope_state_ok (s : RefinementScopeState) : bool :=
  hash_ok (ss_scopeKey s) && or_null id_ok (ss_activeVersionId s) && count_ok (ss_generation s) &&
  or_null id_ok (ss_lastTransitionAuditId s).
Definition mutation_ok (m : RefinementMutationResponse) : bool :=
  id_ok (mu_versionId m) && hash_ok (mu_versionHash m) && count_ok (mu_scopeGeneration m) && id_ok (mu_auditEntryId m).
Definition transition_ok (t : RefinementTransitionRecord) : bool :=
  hash_ok (tn_requestHash t) && mutation_ok (tn_response t).
Definition pin_ok (p : RefinementPin) : bool :=
  id_ok (pi_versionId p) && hash_ok (pi_versionHash p) && id_ok (pi_validationId p) && hash_ok (pi_scopeKey p) &&
  count_ok (pi_scopeGeneration p).

Definition propose_ok (q : RefinementProposeRequest) : bool :=
  is_well_formed (pq_userId q) && content_ok (pq_content q) && or_null id_ok (pq_parentVersionId q) &&
  between 1 16 (pq_sources q) && forallb (λ r, id_ok (sr_id r)) (pq_sources q).
Definition validate_ok (q : RefinementValidateRequest) : bool :=
  is_well_formed (vq_userId q) && id_ok (vq_versionId q) && hash_ok (vq_versionHash q) && id_ok (vq_suiteId q).
Definition approve_ok (q : RefinementApproveRequest) : bool :=
  is_well_formed (aq_userId q) && id_ok (aq_versionId q) && hash_ok (aq_versionHash q) && id_ok (aq_validationId q) &&
  hash_ok (aq_reportHash q) && count_ok (aq_expectedScopeGeneration q).
Definition switch_base (q : switch_request) : RefinementApproveRequest :=
  match q with ActivateRequest r _ | RollbackRequest r _ => r end.
Definition switch_ok (q : switch_request) : bool :=
  approve_ok (switch_base q) &&
  match q with ActivateRequest _ a => id_ok a | RollbackRequest _ reason => text_ok 512 reason end.
Definition disable_ok (q : RefinementDisableRequest) : bool :=
  is_well_formed (dq_userId q) && id_ok (dq_versionId q) && hash_ok (dq_versionHash q) &&
  count_ok (dq_expectedScopeGeneration q) && text_ok 512 (dq_reason q).

Definition strings (v : json) : option (list jsstr) := as_list v ≫= mapM as_str.
Definition read_scope (v : json) : option RefinementScope :=
  strict ["workflowId"; "slot"; "workflowContractHash"] v ;;
  w ← req "workflowId" as_str v; literal "slot" text_of_slot v ;; h ← req "workflowContractHash" as_str v;
  Some (mkScope w h).
Definition read_guidance (v : json) : option RefinementContent :=
  strict ["schemaVersion"; "kind"; "title"; "rationale"; "scope"; "procedure"] v ;;
  n ← req "schemaVersion" as_int v; guard (n = 1) ;; literal "kind" (js "workflow-guidance") v ;;
  t ← req "title" as_str v; r ← req "rationale" as_str v; s ← req "scope" read_scope v;
  p ← member (js "procedure") v; strict ["steps"] p ;; steps ← req "steps" strings p;
  Some (mkContent t r s steps).
Definition read_source (v : json) : option RefinementSource :=
  strict ["kind"; "id"; "sha256"; "auditEntryId"; "resolved"] v ;;
  k ← req "kind" (one_of source_kind_text [Src_learning_fixture; Src_correction; Src_run_outcome]) v;
  i ← req "id" as_str v; h ← nullable_member "sha256" as_str v; a ← nullable_member "auditEntryId" as_str v;
  b ← req "resolved" as_bool v;
  Some (mkSource (mkSourceRef k i) h a b).
Definition read_provenance (v : json) : option RefinementProvenance :=
  strict ["createdAt"; "producerKind"; "producerRunId"; "modelConfigHash"; "sources"] v ;;
  c ← req "createdAt" as_str v;
  k ← req "producerKind" (one_of producer_text [Pk_operator_import; Pk_engine_model; Pk_deterministic_mock]) v;
  r ← nullable_member "producerRunId" as_str v; m ← nullable_member "modelConfigHash" as_str v;
  s ← many "sources" read_source v;
  Some (mkProvenance c k r m s).
Definition read_envelope (v : json) : option RefinementEnvelope :=
  strict ["versionId"; "familyId"; "revision"; "parentVersionId"; "content"; "provenance"] v ;;
  i ← req "versionId" as_str v; f ← req "familyId" as_str v; r ← req "revision" as_int v;
  p ← nullable_member "parentVersionId" as_str v; c ← req "content" read_guidance v;
  o ← req "provenance" read_provenance v;
  Some (mkEnvelope i f r p c o).
Definition read_qualification (v : json) : option RefinementQualification :=
  strict ["suiteId"; "suiteHash"; "learningManifestHash"; "validationManifestHash"; "caseIds"; "checkIds";
          "executionKind"; "modelConfigHash"] v ;;
  i ← req "suiteId" as_str v; h ← req "suiteHash" as_str v; l ← req "learningManifestHash" as_str v;
  m ← req "validationManifestHash" as_str v; cs ← req "caseIds" strings v; ks ← req "checkIds" strings v;
  k ← req "executionKind" (one_of execution_text [Ek_schema_contract; Ek_deterministic_mock; Ek_real_model]) v;
  c ← nullable_member "modelConfigHash" as_str v;
  Some (mkQualification i h l m cs ks k c).
Definition read_bindings (v : json) : option RefinementValidationBindings :=
  strict ["versionId"; "versionHash"; "scopeKey"; "workflowContractHash"; "workflowBuildHash"; "validatorBuildHash";
          "qualification"] v ;;
  i ← req "versionId" as_str v; h ← req "versionHash" as_str v; s ← req "scopeKey" as_str v;
  c ← req "workflowContractHash" as_str v; w ← req "workflowBuildHash" as_str v;
  b ← req "validatorBuildHash" as_str v; q ← req "qualification" read_qualification v;
  Some (mkBindings i h s c w b q).
Definition read_check (v : json) : option report_check :=
  strict ["checkId"; "passed"] v ;;
  i ← req "checkId" as_str v; p ← req "passed" as_bool v; Some (mkCheck i p).
Definition read_case (v : json) : option report_case :=
  strict ["caseId"; "inputHash"; "outputHash"; "checks"] v ;;
  i ← req "caseId" as_str v; a ← req "inputHash" as_str v; b ← req "outputHash" as_str v;
  c ← many "checks" read_check v;
  Some (mkCase i a b c).
Definition read_report_call (v : json) : option report_call :=
  strict ["callId"; "parentCallId"; "role"; "inputTokens"; "outputTokens"] v ;;
  i ← req "callId" as_str v; p ← nullable_member "parentCallId" as_str v;
  r ← req "role" (one_of role_of_text [Role_root; Role_child]) v;
  a ← req "inputTokens" as_int v; b ← req "outputTokens" as_int v;
  Some (mkReportCall i p r a b).
Definition read_report_usage (v : json) : option report_usage :=
  strict ["accounting"; "calls"; "inputTokens"; "outputTokens"] v ;;
  a ← req "accounting" (one_of accounting_text [Ac_none; Ac_synthetic; Ac_provider_reported]) v;
  c ← many "calls" read_report_call v; i ← req "inputTokens" as_int v; o ← req "outputTokens" as_int v;
  Some (mkReportUsage a c i o).
Definition read_report (v : json) : option RefinementValidationReport :=
  strict ["cases"; "elapsedMs"; "usage"] v ;;
  c ← many "cases" read_case v; e ← req "elapsedMs" as_int v; u ← req "usage" read_report_usage v;
  Some (mkReport c e u).
Definition read_mutation (v : json) : option RefinementMutationResponse :=
  strict ["versionId"; "versionHash"; "state"; "scopeGeneration"; "auditEntryId"] v ;;
  i ← req "versionId" as_str v; h ← req "versionHash" as_str v;
  s ← req "state" (one_of state_text [RS_proposed; RS_validated; RS_approved; RS_active; RS_disabled]) v;
  g ← req "scopeGeneration" as_int v; a ← req "auditEntryId" as_str v;
  Some (mkMutation i h s g a).
Definition read_transition (v : json) : option RefinementTransitionRecord :=
  strict ["action"; "requestHash"; "response"] v ;;
  a ← req "action" (one_of action_text [Ra_propose; Ra_validate; Ra_approve; Ra_activate; Ra_disable; Ra_rollback]) v;
  h ← req "requestHash" as_str v; r ← req "response" read_mutation v;
  Some (mkTransition a h r).

(** ** [validation.ts] *)

Definition sameSet (values expected : list jsstr) : bool :=
  (length values =? length expected)%nat && distinct values && forallb (λ v, existsb (eqs v) expected) values.
Definition accounting_of (k : RefinementExecutionKind) : accounting :=
  match k with Ek_schema_contract => Ac_none | Ek_deterministic_mock => Ac_synthetic | Ek_real_model => Ac_provider_reported end.
(** The calls of the usage ledger: fresh identifiers, a parent seen before, and the
    totals; [None] where the report is invalid. *)
Fixpoint ledger_totals (seen : list jsstr) (input output : Z) (calls : list report_call) : option (Z * Z) :=
  match calls with
  | [] => Some (input, output)
  | c :: calls' =>
      if existsb (eqs (ll_callId c)) seen then None
      else if match ll_role c, ll_parentCallId c with
              | Role_root, p => bool_decide (p ≠ None)
              | Role_child, None => true
              | Role_child, Some p => negb (existsb (eqs p) seen)
              end then None
      else ledger_totals (ll_callId c :: seen) (input + ll_inputTokens c) (output + ll_outputTokens c) calls'
  end.
(** [Some (report, passed)] for a valid report. *)
Definition inspectRefinementReport (bindings : RefinementValidationBindings) (raw : json)
    : option (RefinementValidationReport * bool) :=
  if negb (bindings_ok bindings) then None
  else
    report ← parsed_by report_ok (read_report raw);
    let profile := bi_qualification bindings in
    if negb (sameSet (ca_caseId <$> rt_cases report) (ql_caseIds profile)) ||
       existsb (λ c, negb (sameSet (ck_checkId <$> ca_checks c) (ql_checkIds profile))) (rt_cases report) then None
    else
      let ledger := rt_usage report in
      if negb (bool_decide (lu_accounting ledger = accounting_of (ql_executionKind profile))) then None
      else if (if bool_decide (ql_executionKind profile = Ek_schema_contract)
               then negb (length (lu_calls ledger) =? 0)%nat else (length (lu_calls ledger) =? 0)%nat) then None
      else
        match ledger_totals [] 0 0 (lu_calls ledger) with
        | None => None
        | Some (input, output) =>
            if negb (safe_int input) || negb (safe_int output) || negb (input =? lu_inputTokens ledger) ||
               negb (output =? lu_outputTokens ledger) then None
            else Some (report, forallb (λ c, forallb ck_passed (ca_checks c)) (rt_cases report))
        end.
End schemas.

(** ** What a passing report shows *)

Lemma sameSet_perm values expected :
  sameSet values expected = true → NoDup values ∧ values ≡ₚ expected.
Proof.
  unfold sameSet, distinct. intros [[Hl Hn]%andb_true_iff Hs]%andb_true_iff.
  apply Nat.eqb_eq in Hl. apply bool_decide_eq_true in Hn. split; [done|].
  apply submseteq_length_Permutation; [|lia]. apply NoDup_submseteq; [done|]. intros x Hx.
  rewrite forallb_forall in Hs. apply list_elem_of_In in Hx. apply Hs, existsb_exists in Hx as (y&Hy&E%eqs_true).
  subst. by apply list_elem_of_In.
Qed.

(** The tokens of the calls of a ledger. *)
Definition tokens (f : report_call → Z) (calls : list report_call) : Z := foldr Z.add 0 (f <$> calls).
Lemma tokens_cons f c calls : tokens f (c :: calls) = f c + tokens f calls.
Proof. done. Qed.
Lemma ledger_exact seen i o calls i' o' :
  ledger_totals seen i o calls = Some (i', o') →
  i' = i + tokens ll_inputTokens calls ∧ o' = o + tokens ll_outputTokens calls ∧
  NoDup (ll_callId <$> calls) ∧ (∀ c, c ∈ calls → ll_callId c ∉ seen) ∧
  (∀ k c, calls !! k = Some c → match ll_role c with
     | Role_root => ll_parentCallId c = None
     | Role_child => ∃ p, ll_parentCallId c = Some p ∧ (p ∈ seen ∨ p ∈ ll_callId <$> take k calls)
     end).
Proof.
  revert seen i o. induction calls as [|c calls IH]; intros seen i o; simpl.
  { intros [= <- <-]. split_and!; [unfold tokens; simpl; lia..|constructor|set_solver|done]. }
  destruct (existsb (eqs (ll_callId c)) seen) eqn:Es; [done|].
  assert (ll_callId c ∉ seen) as Hc.
  { intros Hin. apply not_true_iff_false in Es. apply Es, existsb_exists. exists (ll_callId c).
    split; [by apply list_elem_of_In|by apply eqs_true]. }
  destruct (match ll_role c, ll_parentCallId c with Role_root, p => _ | Role_child, None => _ | Role_child, Some p => _ end) eqn:Er; [done|].
  intros (Hi&Ho&Hn&Hs&Hr)%IH. split_and!.
  - rewrite tokens_cons. lia.
  - rewrite tokens_cons. lia.
  - apply NoDup_cons. split; [|done]. intros (x&Ex&Hx)%list_elem_of_fmap. apply (Hs x Hx). rewrite <- Ex. by left.
  - intros x [->|Hx]%elem_of_cons; [done|]. specialize (Hs x Hx). set_solver.
  - intros [|k] x; simpl.
    + intros [= <-]. destruct (ll_role c).
      * by apply bool_decide_eq_false, dec_stable in Er.
      * destruct (ll_parentCallId c) as [p|]; [|done]. exists p. split; [done|]. left.
        apply negb_false_iff, existsb_exists in Er as (y&Hy&->%eqs_true). by apply list_elem_of_In.
    + intros Hx. specialize (Hr k x Hx). destruct (ll_role x); [done|]. destruct Hr as (p&Hp&[Hp'|Hp']); exists p; set_solver.
Qed.

(** A report that passes covers the suite: it has exactly one case for every
    case of the qualification and in it exactly one check, which passed, for every
    check of the qualification, and nothing else; and its usage ledger names each
    call once, every child after its parent, with the accounting its kind of
    execution asks for and totals that are the sums of its calls. *)
Theorem passing_report_covers_suite `{Platform} b raw r :
  inspectRefinementReport b raw = Some (r, true) →
  let q := bi_qualification b in let u := rt_usage r in
  NoDup (ca_caseId <$> rt_cases r) ∧ (ca_caseId <$> rt_cases r) ≡ₚ ql_caseIds q ∧
  (∀ c, c ∈ rt_cases r → NoDup (ck_checkId <$> ca_checks c) ∧ (ck_checkId <$> ca_checks c) ≡ₚ ql_checkIds q ∧
     ∀ k, k ∈ ca_checks c → ck_passed k = true) ∧
  lu_accounting u = accounting_of (ql_executionKind q) ∧
  (lu_calls u = [] ↔ ql_executionKind q = Ek_schema_contract) ∧
  lu_inputTokens u = tokens ll_inputTokens (lu_calls u) ∧ lu_outputTokens u = tokens ll_outputTokens (lu_calls u) ∧
  NoDup (ll_callId <$> lu_calls u) ∧
  (∀ k c p, lu_calls u !! k = Some c → ll_parentCallId c = Some p → p ∈ ll_callId <$> take k (lu_calls u)).
Proof.
  unfold inspectRefinementReport. destruct (negb _); [done|]. destruct (parsed_by _ _) as [r'|]; [|done]. cbv beta iota zeta delta [mbind option_bind].
  destruct (negb (sameSet _ _) || _) eqn:Es; [done|]. destruct (negb (bool_decide _)) eqn:Ea; [done|].
  match goal with |- (if ?x then _ else _) = _ → _ => destruct x eqn:Ek; [done|] end.
  destruct (ledger_totals _ _ _ _) as [[i o]|] eqn:El; [|done]. destruct (_ || _ || _ || _) eqn:Et; [done|].
  intros [= <- Hp]. apply orb_false_iff in Es as [Hc Hs]. apply negb_false_iff in Hc, Ea.
  apply sameSet_perm in Hc as [Hn Hperm]. apply bool_decide_eq_true in Ea.
  apply ledger_exact in El as (Hi&Ho&Hnc&_&Hr). repeat (apply orb_false_iff in Et as [Et ?]).
  split_and!; [done..| |done| |lia|lia|done|].
  - intros c Hin. rewrite forallb_forall in Hp. apply list_elem_of_In in Hin as Hin'. specialize (Hp c Hin').
    assert (sameSet (ck_checkId <$> ca_checks c) (ql_checkIds (bi_qualification b)) = true) as Hsc.
    { apply not_true_iff_false in Hs. destruct (sameSet _ _) eqn:E; [done|]. exfalso. apply Hs, existsb_exists.
      exists c. by rewrite E. }
    apply sameSet_perm in Hsc as [? ?]. split_and!; [done..|]. intros k Hk. rewrite forallb_forall in Hp.
    by apply Hp, list_elem_of_In.
  - case_bool_decide as Hkind; destruct (lu_calls (rt_usage r')); simpl in *; naive_solver.
  - intros k c p Hk Hpar. specialize (Hr k c Hk). destruct (ll_role c); [congruence|]. destruct Hr as (p'&Hp'&[Hin|Hin]);
      [by apply elem_of_nil in Hin|congruence].
Qed.
