(* ===== verification/Refinements.v ===== *)
(** * The refinement manager: [packages/engine/src/refinements/manager.ts]

    The life of a refinement - proposed, validated, approved, active, disabled -
    with its receipts and its audit entries, over the three tables of
    [data/helpers/refinement-store.ts]. Every operation runs in one transaction;
    a stored row is decoded and cross-parsed_by before it is used. The workflow
    registry, the source resolver and a registration's runner are given to the
    manager from outside, as in the source; its audit sink is the one the
    coordinator wires ([agent/user-agent.ts]). *)

From S2P Require Export Learning.
Open Scope Z_scope.

(** ** The store: [refinement-store.ts] *)

Definition is_version (id : jsstr) (r : RefinementVersionsRow) : bool := eqs (rv_id r) id.
Definition is_attempt (id : jsstr) (r : RefinementValidationsRow) : bool := eqs (va_id r) id.
Definition is_scope (key : jsstr) (r : RefinementScopesRow) : bool := eqs (rc_scope_key r) key.

Definition readVersion (id : jsstr) : M (option RefinementVersionsRow) :=
  select (λ d, List.find (is_version id) (refinement_versions d)).
Definition readProposal (hash : jsstr) : M (option RefinementVersionsRow) :=
  select (λ d, List.find (λ r, eqs (rv_proposal_request_hash r) hash) (refinement_versions d)).
Definition versionCount : M nat := select (λ d, length (refinement_versions d)).
Definition nextRevision (familyId : jsstr) : M Z :=
  select (λ d, foldl Z.max 0 (rv_revision <$> List.filter (λ r, eqs (rv_family_id r) familyId) (refinement_versions d)) + 1).

Definition is_active (r : RefinementVersionsRow) : bool := bool_decide (rv_state r = RS_active).
(** The primary key, the two unique columns and the partial unique index. *)
Definition version_clash (r : RefinementVersionsRow) (d : Db) : bool :=
  existsb (λ r', is_version (rv_id r) r' || eqs (rv_proposal_request_hash r') (rv_proposal_request_hash r) ||
    eqs (rv_family_id r') (rv_family_id r) && (rv_revision r' =? rv_revision r) ||
    is_active r && is_active r' && eqs (rv_scope_key r') (rv_scope_key r)) (refinement_versions d).
Definition insertVersion (row : RefinementVersionsRow) : M unit :=
  insert_unless (λ d, negb (0 <? rv_revision row) || version_clash row d)
    (set_refinement_versions (λ rows, rows ++ [row])).
(** The columns [updateVersionState] writes; identity, content and hash are not among them. *)
Definition with_state_of (row r : RefinementVersionsRow) : RefinementVersionsRow :=
  mkVersionRow (rv_id r) (rv_family_id r) (rv_revision r) (rv_parent_id r) (rv_scope_key r) (rv_version_hash r)
    (rv_proposal_request_hash r) (rv_envelope_json r) (rv_state row) (rv_latest_attempt_id row)
    (rv_validated_attempt_id row) (rv_approval_audit_id row) (rv_last_transition_audit_id row)
    (rv_last_transition_json row) (rv_created_at r) (rv_updated_at row).
Definition second_active (row : RefinementVersionsRow) (d : Db) : bool :=
  is_active row &&
  existsb (λ r, is_version (rv_id row) r &&
    existsb (λ r', negb (is_version (rv_id row) r') && is_active r' && eqs (rv_scope_key r') (rv_scope_key r))
      (refinement_versions d)) (refinement_versions d).
Definition updateVersionState (row : RefinementVersionsRow) : M unit :=
  insert_unless (second_active row)
    (set_refinement_versions (update_where (is_version (rv_id row)) (with_state_of row))).
(** [ORDER BY created_at DESC, id DESC]. *)
Definition created_desc (date id : RefinementVersionsRow → jsstr) (a b : RefinementVersionsRow) : bool :=
  sql_lt (date b) (date a) || eqs (date a) (date b) && sql_lt (id b) (id a).
Definition listVersions (limit : nat) (scopeKey : option jsstr) (cursor : option (jsstr * jsstr))
    : M (list RefinementVersionsRow) :=
  select (λ d, take limit (stable_sort (created_desc rv_created_at rv_id)
    (List.filter (λ r, or_null (eqs (rv_scope_key r)) scopeKey &&
       or_null (λ c, sql_lt (rv_created_at r) (fst c) || eqs (rv_created_at r) (fst c) && sql_lt (rv_id r) (snd c)) cursor)
      (refinement_versions d)))).

Definition readScope (key : jsstr) : M (option RefinementScopesRow) :=
  select (λ d, List.find (is_scope key) (refinement_scopes d)).
(** [INSERT OR IGNORE]. *)
Definition insertScope (key : jsstr) : M unit :=
  modify (set_refinement_scopes (λ rows,
    if existsb (is_scope key) rows then rows else rows ++ [mkScopeRow key None 0 None None])).
Definition updateScope (row : RefinementScopesRow) : M unit :=
  insert_unless (λ _, negb (0 <=? rc_generation row))
    (set_refinement_scopes (update_where (is_scope (rc_scope_key row)) (λ r,
      mkScopeRow (rc_scope_key r) (rc_active_version_id row) (rc_generation row)
        (rc_last_transition_audit_id row) (rc_last_transition_json row)))).

Definition readValidation (id : jsstr) : M (option RefinementValidationsRow) :=
  select (λ d, List.find (is_attempt id) (refinement_validations d)).
Definition attempts_desc (a b : RefinementValidationsRow) : bool :=
  sql_lt (va_started_at b) (va_started_at a) || eqs (va_started_at a) (va_started_at b) && sql_lt (va_id b) (va_id a).
Definition listValidations (versionId : jsstr) : M (list RefinementValidationsRow) :=
  select (λ d, take 33 (stable_sort attempts_desc
    (List.filter (λ r, eqs (va_version_id r) versionId) (refinement_validations d)))).
Definition is_running (r : RefinementValidationsRow) : bool := bool_decide (va_status r = VS_running).
Definition attempt_clash (row : RefinementValidationsRow) (d : Db) : bool :=
  existsb (λ r, is_attempt (va_id row) r ||
    is_running row && is_running r && eqs (va_version_id r) (va_version_id row)) (refinement_validations d).
Definition insertValidation (row : RefinementValidationsRow) : M unit :=
  insert_unless (attempt_clash row)
    (set_refinement_validations (λ rows, rows ++ [row])).
Definition with_result_of (row r : RefinementValidationsRow) : RefinementValidationsRow :=
  mkValidationRow (va_id r) (va_version_id r) (va_version_hash r) (va_status row) (va_assurance row)
    (va_bindings_json r) (va_report_json row) (va_report_hash row) (va_reason row) (va_started_at r)
    (va_deadline_at r) (va_completed_at row).
Definition finishValidation (row : RefinementValidationsRow) : M bool :=
  let p r := is_attempt (va_id row) r && is_running r in
  found ← select (λ d, existsb p (refinement_validations d));
  modify (set_refinement_validations (update_where p (with_result_of row))) ;;
  mret found.

(** ** The audit sink *)

Definition audit_verb (action : option RefinementAction) : jsstr :=
  match action with Some a => action_text a | None => js "use" end.
(** The keys of an event's metadata that reach the log. *)
Definition audit_keys : list string :=
  ["versionHash"; "requestHash"; "scopeGeneration"; "parentVersionId"; "attemptId"; "phase"; "reportHash"; "status";
   "reason"; "validationId"; "actorKind"; "rollback"; "replacementVersionId"; "approvalAuditId"; "reasonHash"; "runId"]%string.
Definition refinementAuditMetadata (versionId scopeKey : jsstr) (metadata : fields) : fields :=
  [(js "versionId", JStr versionId); (js "scopeKey", JStr scopeKey)] ++
  omap (λ k, pair (js k) <$> get (js k) metadata) audit_keys ++
  match get (js "sourceCount") metadata ≫= as_int with
  | Some n => if safe_int n && (0 <=? n) then [(js "sourceCount", jint n)] else []
  | None => []
  end.

(** ** The manager *)

Inductive RunOutcome := Reported (raw : json) | RunnerThrew | RunnerTimedOut.
Record RefinementWorkflowRegistration `{Platform} := mkRegistration {
  rg_workflowId : jsstr; rg_workflowContractHash : jsstr; rg_workflowBuildHash : jsstr;
  rg_validatorBuildHash : jsstr; rg_qualification : RefinementQualification;
  rg_runValidation : option (RefinementEnvelope → RefinementValidationBindings → M RunOutcome);
}.
(** What the constructor is given. [registry] may read anything; [None] where it
    answers null or throws. *)
Class RefinementManagerDependencies `{Platform} := {
  ownerId : jsstr;
  registry : jsstr → World → option RefinementWorkflowRegistration;
  resolveSource : RefinementSourceRef → M (option (jsstr * option jsstr));
  validationTimeoutMs : Z;
}.

Definition MAX_VERSIONS : nat := 128.
Definition MAX_ATTEMPTS : nat := 32.

Record RefinementDetailResponse := mkDetail {
  dr_version : RefinementVersion; dr_scope : RefinementScopeState; dr_validations : list RefinementValidation;
  dr_compatible : bool; dr_qualification : option RefinementQualification;
}.
Record RefinementListResponse := mkRefinementList {
  lr_refinements : list RefinementVersion; lr_nextCursor : option jsstr;
}.
Record RefinementValidationResponse := mkValidationResponse {
  vp_validation : RefinementValidation; vp_version : RefinementVersion; vp_scope : RefinementScopeState;
}.

(** A transaction whose only errors are the manager's own. *)
Definition atomic {A} (body : M A) : M A :=
  try_catch (transactionSync body) (λ e, match e with RefinementError c => refuse c | _ => refuse RE_UNAVAILABLE end).

(** [Date.parse(a) <= Date.parse(b)] and [<]: false on NaN. *)
Definition date_le (a b : option Z) : bool := match a, b with Some x, Some y => x <=? y | _, _ => false end.

Section manager.
Context `{Platform} `{!RefinementManagerDependencies}.

Definition owner (userId : jsstr) : M unit := require RE_NOT_FOUND (eqs userId ownerId).

Definition has_runner (r : RefinementWorkflowRegistration) : bool :=
  match rg_runValidation r with Some _ => true | None => false end.
Definition descriptor_ok (r : RefinementWorkflowRegistration) : bool :=
  id_ok (rg_workflowId r) && hash_ok (rg_workflowContractHash r) && hash_ok (rg_workflowBuildHash r) &&
  hash_ok (rg_validatorBuildHash r) && qualification_ok (rg_qualification r).
Definition registration (workflowId : jsstr) (requireRunner : bool) : M RefinementWorkflowRegistration := λ w,
  match registry workflowId w with
  | None => refuse RE_UNAVAILABLE w
  | Some r =>
      (require RE_UNAVAILABLE (descriptor_ok r && eqs (rg_workflowId r) workflowId &&
         negb (requireRunner && negb (has_runner r))) ;; mret r) w
  end.

Definition bindings (version : RefinementVersion) (requireRunner : bool) : M RefinementValidationBindings :=
  let scope := co_scope (ev_content (vr_envelope version)) in
  r ← registration (sc_workflowId scope) requireRunner;
  require RE_INELIGIBLE (eqs (rg_workflowContractHash r) (sc_workflowContractHash scope)) ;;
  mret (mkBindings (ev_versionId (vr_envelope version)) (vr_versionHash version) (vr_scopeKey version)
    (rg_workflowContractHash r) (rg_workflowBuildHash r) (rg_validatorBuildHash r) (rg_qualification r)).
Definition compatible (version : RefinementVersion) (attempt : option RefinementValidation) : M bool :=
  try_catch
    (binding ← bindings version true;
     match attempt with
     | None => mret true
     | Some a => same_json (bindings_json binding) (bindings_json (vl_bindings a))
     end) (λ _, mret false).

(** A stored JSON column, parsed by its schema. *)
Definition json_column {A} (read : json → option A) (ok : A → bool) (t : json_text) : M A :=
  v ← or_refuse RE_CORRUPT (JSON_parse t); or_refuse RE_CORRUPT (parsed_by ok (read v)).

(** The cross-checks of a version row. *)
Definition version_sound (row : RefinementVersionsRow) (e : RefinementEnvelope)
    (t : RefinementTransitionRecord) (versionHash scopeKey : jsstr) : bool :=
  eqs (ev_versionId e) (rv_id row) && eqs (ev_familyId e) (rv_family_id row) && (ev_revision e =? rv_revision row) &&
  bool_decide (ev_parentVersionId e = rv_parent_id row) && eqs (pv_createdAt (ev_provenance e)) (rv_created_at row) &&
  eqs versionHash (rv_version_hash row) && eqs scopeKey (rv_scope_key row) &&
  eqs (mu_versionId (tn_response t)) (rv_id row) && eqs (mu_versionHash (tn_response t)) (rv_version_hash row) &&
  bool_decide (mu_state (tn_response t) = rv_state row) &&
  eqs (mu_auditEntryId (tn_response t)) (rv_last_transition_audit_id row) &&
  or_null (λ v, bool_decide (rv_latest_attempt_id row = Some v)) (rv_validated_attempt_id row) &&
  or_null (λ _, bool_decide (rv_validated_attempt_id row ≠ None)) (rv_approval_audit_id row) &&
  match rv_state row with
  | RS_approved | RS_active => bool_decide (rv_approval_audit_id row ≠ None)
  | RS_validated => bool_decide (rv_validated_attempt_id row ≠ None) && bool_decide (rv_approval_audit_id row = None)
  | RS_proposed => bool_decide (rv_validated_attempt_id row = None) && bool_decide (rv_approval_audit_id row = None)
  | RS_disabled => true
  end.
Definition view_of (row : RefinementVersionsRow) (envelope : RefinementEnvelope) : RefinementVersion :=
  mkVersion envelope (rv_version_hash row) (rv_scope_key row) (rv_state row) (rv_latest_attempt_id row)
    (rv_validated_attempt_id row) (rv_approval_audit_id row) (rv_last_transition_audit_id row) (rv_updated_at row).
Definition decodeVersion (row : RefinementVersionsRow) : M (RefinementVersionsRow * RefinementVersion) :=
  envelope ← json_column read_envelope envelope_ok (rv_envelope_json row);
  transition ← json_column read_transition transition_ok (rv_last_transition_json row);
  let view := view_of row envelope in
  require RE_CORRUPT (version_ok view) ;;
  versionHash ← refinementHash (envelope_json envelope);
  scopeKey ← refinementHash (scope_json (co_scope (ev_content envelope)));
  require RE_CORRUPT (version_sound row envelope transition versionHash scopeKey) ;;
  mret (row, view).
Definition version (id : jsstr) : M (RefinementVersionsRow * RefinementVersion) :=
  found ← readVersion id; row ← or_refuse RE_NOT_FOUND found; decodeVersion row.

Definition scope (key : jsstr) : M (RefinementScopesRow * RefinementScopeState) :=
  raw ← readScope key;
  row ← or_refuse RE_CORRUPT raw;
  let view := mkScopeState (rc_scope_key row) (rc_active_version_id row) (rc_generation row)
                (rc_last_transition_audit_id row) in
  require RE_CORRUPT (scope_state_ok view) ;;
  require RE_CORRUPT (bool_decide (rc_last_transition_json row = None ↔ rc_last_transition_audit_id row = None)) ;;
  match rc_last_transition_json row with
  | None => mret tt
  | Some t =>
      record ← json_column read_transition transition_ok t;
      require RE_CORRUPT ((mu_scopeGeneration (tn_response record) =? rc_generation row) &&
        bool_decide (Some (mu_auditEntryId (tn_response record)) = rc_last_transition_audit_id row))
  end ;;
  match rc_active_version_id row with
  | None => mret tt
  | Some id =>
      active ← version id;
      require RE_CORRUPT (bool_decide (vr_state (snd active) = RS_active) && eqs (vr_scopeKey (snd active)) key)
  end ;;
  mret (row, view).

Definition measured (report : option RefinementValidationReport) (b : RefinementValidationBindings) : RefinementAssurance :=
  if bool_decide (is_Some report) && bool_decide (ql_executionKind (bi_qualification b) = Ek_real_model)
  then As_behavior_measured else As_contract_only.
Definition is_none {A} (v : option A) : bool := match v with None => true | Some _ => false end.
(** The cross-checks of a receipt, but for the report's own. *)
Definition receipt_sound (row : RefinementValidationsRow) (a : RefinementValidation) : bool :=
  let b := vl_bindings a in
  eqs (bi_versionId b) (va_version_id row) && eqs (bi_versionHash b) (va_version_hash row) &&
  bool_decide (vl_assurance a = measured (vl_report a) b) &&
  negb (date_le (dateOf (vl_deadlineAt a)) (dateOf (vl_startedAt a))) &&
  match dateOf (vl_deadlineAt a), dateOf (vl_startedAt a) with Some d, Some s => d - s <=? 300000 | _, _ => true end &&
  Bool.eqb (bool_decide (vl_status a = VS_running)) (is_none (vl_completedAt a)) &&
  match vl_status a with
  | VS_running => is_none (vl_report a) && is_none (vl_reportHash a) && is_none (vl_reason a)
  | VS_error => negb (is_none (vl_reason a)) && is_none (vl_report a) && is_none (vl_reportHash a)
  | _ => true
  end.
Definition report_value (r : option RefinementValidationReport) : json :=
  match r with Some r => report_json r | None => JNull end.
(** What a receipt with a verdict must hold. *)
Definition verdict_sound (a : RefinementValidation) : M unit :=
  match vl_status a with
  | VS_passed | VS_failed =>
      let passed := bool_decide (vl_status a = VS_passed) in
      p ← or_refuse RE_CORRUPT (inspectRefinementReport (vl_bindings a) (report_value (vl_report a)));
      h ← refinementHash (report_value (vl_report a));
      require RE_CORRUPT (bool_decide (Some h = vl_reportHash a) && Bool.eqb (snd p) passed &&
        bool_decide (vl_reason a = if passed then None else Some (js "CHECK_FAILED")))
  | _ => mret tt
  end.
Definition decodeValidation (row : RefinementValidationsRow) : M RefinementValidation :=
  b ← json_column read_bindings bindings_ok (va_bindings_json row);
  report ← match va_report_json row with
           | None => mret None
           | Some t => r ← json_column read_report report_ok t; mret (Some r)
           end;
  let a := mkValidation (va_id row) b (va_status row) (va_assurance row) report (va_report_hash row)
             (va_reason row) (va_started_at row) (va_deadline_at row) (va_completed_at row) in
  require RE_CORRUPT (validation_ok a && receipt_sound row a) ;;
  verdict_sound a ;;
  mret a.
Definition readAttempt (id : jsstr) : M RefinementValidation :=
  raw ← readValidation id; row ← or_refuse RE_CORRUPT raw; decodeValidation row.

(** One audit entry, in the running transaction; its identifier. *)
Definition emit (action : option RefinementAction) (v : RefinementVersion) (metadata : fields) (outcome : audit_outcome)
    : M jsstr :=
  t ← nowISO;
  let versionId := ev_versionId (vr_envelope v) in
  result ← insertAuditEntryInTxn (mkParams ownerId (js "governed-learning") (js "refinement-control")
    (js "refinement." ++ audit_verb action) (js "refinement") (audit_verb action) (vr_scopeKey v) V_allow
    (Some O_human)
    (refinementAuditMetadata versionId (vr_scopeKey v) ((js "versionHash", JStr (vr_versionHash v)) :: metadata))
    outcome None 0 None None (Some t));
  match ae_id result with [] => refuse RE_UNAVAILABLE | id => mret id end.

(** The row after a transition, and the response it records. *)
Definition transition (row : RefinementVersionsRow) (generation : Z) (action : RefinementAction)
    (requestHash auditId : jsstr) : M (RefinementVersionsRow * RefinementMutationResponse) :=
  updated_at ← nowISO;
  let response := mkMutation (rv_id row) (rv_version_hash row) (rv_state row) generation auditId in
  record ← canonical_column (transition_json (mkTransition action requestHash response));
  mret (mkVersionRow (rv_id row) (rv_family_id row) (rv_revision row) (rv_parent_id row) (rv_scope_key row)
    (rv_version_hash row) (rv_proposal_request_hash row) (rv_envelope_json row) (rv_state row)
    (rv_latest_attempt_id row) (rv_validated_attempt_id row) (rv_approval_audit_id row) auditId record
    (rv_created_at row) updated_at, response).
(** The recorded response, when the request is the one that made it and the scope
    has not changed since. *)
Definition repeated (row : RefinementVersionsRow) (s : RefinementScopesRow) (action : RefinementAction)
    (requestHash : jsstr) : M (option RefinementMutationResponse) :=
  record ← json_column read_transition transition_ok (rv_last_transition_json row);
  mret (if bool_decide (tn_action record = action) && eqs (tn_requestHash record) requestHash &&
           (mu_scopeGeneration (tn_response record) =? rc_generation s)
        then Some (tn_response record) else None).
Definition boundVersion (versionId versionHash : jsstr) : M (RefinementVersionsRow * RefinementVersion) :=
  v ← version versionId;
  require RE_CONFLICT (eqs (vr_versionHash (snd v)) versionHash) ;;
  mret v.
Definition expectGeneration (s : RefinementScopesRow) (expected : Z) : M unit :=
  require RE_CONFLICT (rc_generation s =? expected).
Definition passed (v : RefinementVersion) (id hash : jsstr) : M RefinementValidation :=
  require RE_INELIGIBLE (bool_decide (vr_validatedAttemptId v = Some id) && bool_decide (vr_latestAttemptId v = Some id)) ;;
  a ← readAttempt id;
  require RE_INELIGIBLE (bool_decide (vl_status a = VS_passed) && bool_decide (vl_reportHash a = Some hash) &&
    eqs (bi_versionId (vl_bindings a)) (ev_versionId (vr_envelope v)) &&
    eqs (bi_versionHash (vl_bindings a)) (vr_versionHash v)) ;;
  c ← compatible v (Some a);
  require RE_INELIGIBLE c ;;
  mret a.

(** [row.state], [row.latest_attempt_id], ... assigned on a row. *)
Definition set_state (s : RefinementState) (latest validated approval : option jsstr) (r : RefinementVersionsRow)
    : RefinementVersionsRow :=
  mkVersionRow (rv_id r) (rv_family_id r) (rv_revision r) (rv_parent_id r) (rv_scope_key r) (rv_version_hash r)
    (rv_proposal_request_hash r) (rv_envelope_json r) s latest validated approval (rv_last_transition_audit_id r)
    (rv_last_transition_json r) (rv_created_at r) (rv_updated_at r).
Definition become (s : RefinementState) (r : RefinementVersionsRow) : RefinementVersionsRow :=
  set_state s (rv_latest_attempt_id r) (rv_validated_attempt_id r) (rv_approval_audit_id r) r.
Definition attemptRow (a : RefinementValidation) : M RefinementValidationsRow :=
  b ← canonical_column (bindings_json (vl_bindings a));
  r ← match vl_report a with
      | None => mret None
      | Some r => c ← canonical_column (report_json r); mret (Some c)
      end;
  mret (mkValidationRow (vl_id a) (bi_versionId (vl_bindings a)) (bi_versionHash (vl_bindings a)) (vl_status a)
    (vl_assurance a) b r (vl_reportHash a) (vl_reason a) (vl_startedAt a) (vl_deadlineAt a) (vl_completedAt a)).

(** ** Validation *)

(** The receipt a finished run leaves, and whether it passed. *)
Definition completed_receipt (a : RefinementValidation) (raw : option json) (failure : option jsstr)
    : M (RefinementValidation * bool) :=
  let inspected := match failure with
                   | None => Some (raw ≫= inspectRefinementReport (vl_bindings a))
                   | Some _ => None
                   end in
  let failure := match inspected with Some None => Some (js "REPORT_INVALID") | _ => failure end in
  let report := fst <$> mjoin inspected in
  let passed := match mjoin inspected with Some (_, b) => b | None => false end in
  h ← match report with
      | None => mret None
      | Some r => h ← refinementHash (report_json r); mret (Some h)
      end;
  completedAt ← nowISO;
  mret (mkValidation (vl_id a) (vl_bindings a)
    (match failure with Some _ => VS_error | None => if passed then VS_passed else VS_failed end)
    (measured report (vl_bindings a)) report h
    (match failure with Some f => Some f | None => if passed then None else Some (js "CHECK_FAILED") end)
    (vl_startedAt a) (vl_deadlineAt a) (Some completedAt), passed && is_none failure).

(** The version's row once its attempt has ended. *)
Definition ended_row (id : jsstr) (ok : bool) (row : RefinementVersionsRow) : RefinementVersionsRow :=
  if ok then set_state RS_validated (rv_latest_attempt_id row) (Some id) None row
  else set_state (if bool_decide (rv_state row = RS_disabled) then RS_disabled else RS_proposed)
         (rv_latest_attempt_id row) None None row.
Definition jopt_status (a : RefinementValidation) : fields :=
  [(js "phase", JStr (js "completed")); (js "attemptId", JStr (vl_id a)); (js "reportHash", jopt (vl_reportHash a));
   (js "status", JStr (status_text (vl_status a))); (js "reason", jopt (vl_reason a))].

(** [complete]: [None] is the runner's [undefined]. *)
Definition complete (id : jsstr) (raw : option json) (failure : option jsstr) : M unit :=
  a ← readAttempt id;
  if negb (bool_decide (vl_status a = VS_running)) then mret tt
  else
    v ← version (bi_versionId (vl_bindings a));
    require RE_CORRUPT (bool_decide (rv_latest_attempt_id (fst v) = Some id) &&
      eqs (vr_versionHash (snd v)) (bi_versionHash (vl_bindings a))) ;;
    t ← nowISO;
    let failure := if date_le (dateOf (vl_deadlineAt a)) (dateOf t) then Some (js "VALIDATOR_TIMEOUT") else failure in
    c ← compatible (snd v) (Some a);
    let failure := if c : bool then failure else Some (js "INCOMPATIBLE") in
    r ← completed_receipt a raw failure;
    row ← attemptRow (fst r);
    written ← finishValidation row;
    if negb written then mret tt
    else
      let vrow := ended_row id (snd r) (fst v) in
      s ← scope (vr_scopeKey (snd v));
      requestHash ← refinementHash (JObj [(js "attemptId", JStr id); (js "reportHash", jopt (vl_reportHash (fst r)));
        (js "status", JStr (status_text (vl_status (fst r))))]);
      audit ← emit (Some Ra_validate) (snd v) (jopt_status (fst r) ++ [(js "requestHash", JStr requestHash)])
        (if bool_decide (vl_status (fst r) = VS_passed) then X_success else X_error);
      tr ← transition vrow (rc_generation (fst s)) Ra_validate requestHash audit;
      updateVersionState (fst tr).
Definition recover (versionId : jsstr) : M unit :=
  v ← version versionId;
  match vr_latestAttemptId (snd v) with
  | Some (c :: id) =>
      a ← readAttempt (c :: id);
      t ← nowISO;
      when (bool_decide (vl_status a = VS_running) && date_le (dateOf (vl_deadlineAt a)) (dateOf t))
        (complete (vl_id a) None (Some (js "VALIDATOR_TIMEOUT")))
  | _ => mret tt
  end.

(** ** Reads *)

Definition is_latest_of (v : RefinementVersion) (a : RefinementValidation) : bool :=
  eqs (bi_versionId (vl_bindings a)) (ev_versionId (vr_envelope v)) && eqs (bi_versionHash (vl_bindings a)) (vr_versionHash v).
Fixpoint decode_all {A B} (decode : A → M B) (l : list A) : M (list B) :=
  match l with
  | [] => mret []
  | x :: l' => y ← decode x; ys ← decode_all decode l'; mret (y :: ys)
  end.
Definition detail (id : jsstr) : M RefinementDetailResponse :=
  v ← version id;
  rows ← listValidations id;
  validations ← decode_all decodeValidation rows;
  require RE_CORRUPT (length validations <=? MAX_ATTEMPTS)%nat ;;
  latest ← match vr_latestAttemptId (snd v) with
           | None => mret None
           | Some l => a ← readAttempt l; mret (Some a)
           end;
  require RE_CORRUPT (or_null (is_latest_of (snd v)) latest) ;;
  qualification ← try_catch
    (r ← registration (sc_workflowId (co_scope (ev_content (vr_envelope (snd v))))) false; mret (Some (rg_qualification r)))
    (λ _, mret None);
  s ← scope (vr_scopeKey (snd v));
  c ← compatible (snd v) latest;
  mret (mkDetail (snd v) (snd s) validations c qualification).
Definition getRefinement (versionId : jsstr) : M RefinementDetailResponse :=
  atomic (recover versionId ;; detail versionId).
Definition listRefinements (userId : jsstr) (scopeKey : option jsstr) (limit : option nat) (cursor : option jsstr)
    : M RefinementListResponse :=
  require RE_INVALID_REQUEST (is_well_formed userId && or_null hash_ok scopeKey &&
    or_null (λ n, (1 <=? n)%nat && (n <=? 50)%nat) limit && or_null id_ok cursor) ;;
  owner userId ;;
  atomic
    (c ← match cursor with None => mret None | Some id => v ← version id; mret (Some (fst v)) end;
     require RE_INVALID_REQUEST (match c, scopeKey with Some r, Some k => eqs (rv_scope_key r) k | _, _ => true end) ;;
     let limit := default 20%nat limit in
     rows ← listVersions (S limit) scopeKey ((λ r, (rv_created_at r, rv_id r)) <$> c);
     page ← decode_all (λ r, recover (rv_id r) ;; v ← version (rv_id r); mret (snd v)) (take limit rows);
     mret (mkRefinementList page
       (if (limit <? length rows)%nat then (λ v, ev_versionId (vr_envelope v)) <$> last page else None))).

(** ** Proposing *)

Fixpoint resolve_sources (refs : list RefinementSourceRef) : M (list RefinementSource) :=
  match refs with
  | [] => mret []
  | r :: refs' =>
      resolved ← try_catch (resolveSource r) (λ _, refuse RE_UNAVAILABLE);
      let s := mkSource r (fst <$> resolved) (resolved ≫= snd) (bool_decide (is_Some resolved)) in
      require RE_INVALID_REQUEST (source_ok s) ;;
      rest ← resolve_sources refs';
      mret (s :: rest)
  end.
(** The envelope of a new version, and its family. *)
Definition new_envelope (q : RefinementProposeRequest) (sources : list RefinementSource) (parent : option RefinementVersion)
    : M RefinementEnvelope :=
  familyId ← match parent with Some p => mret (ev_familyId (vr_envelope p)) | None => newUUID end;
  versionId ← newUUID;
  revision ← nextRevision familyId;
  createdAt ← nowISO;
  let e := mkEnvelope versionId familyId revision (pq_parentVersionId q) (pq_content q)
             (mkProvenance createdAt Pk_operator_import None None sources) in
  require RE_INVALID_REQUEST (envelope_ok e) ;;
  mret e.
(** The row of a new version, before its first transition. *)
Definition proposed_row (e : RefinementEnvelope) (scopeKey versionHash requestHash auditId : jsstr) (column : json_text)
    : RefinementVersionsRow :=
  mkVersionRow (ev_versionId e) (ev_familyId e) (ev_revision e) (ev_parentVersionId e) scopeKey versionHash requestHash
    column RS_proposed None None None auditId (NotJson []) (pv_createdAt (ev_provenance e)) (pv_createdAt (ev_provenance e)).
Definition record_proposal (q : RefinementProposeRequest) (sources : list RefinementSource) (requestHash : jsstr)
    : M RefinementDetailResponse :=
  count ← versionCount;
  require RE_CAPACITY (count <? MAX_VERSIONS)%nat ;;
  scopeKey ← refinementHash (scope_json (co_scope (pq_content q)));
  parent ← match pq_parentVersionId q with
           | None => mret None
           | Some id => v ← version id; mret (Some (snd v))
           end;
  require RE_INELIGIBLE (or_null (λ p, eqs (vr_scopeKey p) scopeKey) parent) ;;
  e ← new_envelope q sources parent;
  insertScope scopeKey ;;
  s ← scope scopeKey;
  versionHash ← refinementHash (envelope_json e);
  let v := mkVersion e versionHash scopeKey RS_proposed None None None (js "pending") (pv_createdAt (ev_provenance e)) in
  auditId ← emit (Some Ra_propose) v [(js "requestHash", JStr requestHash); (js "scopeGeneration", jint (rc_generation (fst s)));
    (js "sourceCount", jint (Z.of_nat (length sources))); (js "parentVersionId", jopt (pq_parentVersionId q))] X_success;
  column ← canonical_column (envelope_json e);
  tr ← transition (proposed_row e scopeKey versionHash requestHash auditId column) (rc_generation (fst s)) Ra_propose requestHash auditId;
  insertVersion (fst tr) ;;
  detail (ev_versionId e).
Definition propose (q : RefinementProposeRequest) : M RefinementDetailResponse :=
  require RE_INVALID_REQUEST (propose_ok q) ;;
  owner (pq_userId q) ;;
  let workflowId := sc_workflowId (co_scope (pq_content q)) in
  r ← registration workflowId false;
  require RE_INELIGIBLE (eqs (rg_workflowContractHash r) (sc_workflowContractHash (co_scope (pq_content q)))) ;;
  texts ← or_refuse RE_INVALID_REQUEST (mapM (λ s, canonicalJson (JObj (source_ref_fields s))) (pq_sources q));
  require RE_INVALID_REQUEST (distinct texts) ;;
  sources ← resolve_sources (pq_sources q);
  requestHash ← refinementHash (JObj [(js "request", propose_json q); (js "sources", JArr (source_json <$> sources))]);
  atomic
    (r' ← registration workflowId false;
     require RE_CONFLICT (eqs (rg_workflowContractHash r') (rg_workflowContractHash r)) ;;
     prior ← readProposal requestHash;
     match prior with
     | Some row => recover (rv_id row) ;; detail (rv_id row)
     | None => record_proposal q sources requestHash
     end).

(** ** Validating *)

Inductive admission :=
  | Existing (attemptId : jsstr)
  | Started (a : RefinementValidation) (e : RefinementEnvelope)
      (runner : RefinementEnvelope → RefinementValidationBindings → M RunOutcome).
(** An attempt on the same bindings that is running, or has a verdict that still
    stands, is answered with. *)
Definition reusable (v : RefinementVersion) (a : RefinementValidation) : bool :=
  bool_decide (vl_status a = VS_running) ||
  negb (bool_decide (vr_state v = RS_disabled)) &&
  (bool_decide (vl_status a = VS_passed) || bool_decide (vl_status a = VS_failed)).
Definition start_attempt (v : RefinementVersionsRow * RefinementVersion) (b : RefinementValidationBindings) (digest : jsstr)
    : M admission :=
  earlier ← listValidations (rv_id (fst v));
  require RE_CAPACITY (length earlier <? MAX_ATTEMPTS)%nat ;;
  startedAt ← nowISO;
  id ← newUUID;
  deadlineAt ← match dateOf startedAt with Some t => isoOf (t + validationTimeoutMs) | None => throw RangeError end;
  let a := mkValidation id b VS_running As_contract_only None None None startedAt deadlineAt None in
  row ← attemptRow a;
  insertValidation row ;;
  let vrow := set_state (if bool_decide (rv_state (fst v) = RS_disabled) then RS_disabled else RS_proposed)
                (Some id) None None (fst v) in
  s ← scope (vr_scopeKey (snd v));
  audit ← emit (Some Ra_validate) (snd v)
    [(js "attemptId", JStr id); (js "phase", JStr (js "started")); (js "requestHash", JStr digest)] X_success;
  tr ← transition vrow (rc_generation (fst s)) Ra_validate digest audit;
  updateVersionState (fst tr) ;;
  r ← registration (sc_workflowId (co_scope (ev_content (vr_envelope (snd v))))) true;
  match rg_runValidation r with
  | Some runner => mret (Started a (vr_envelope (snd v)) runner)
  | None => mret (Started a (vr_envelope (snd v)) (λ _ _, mret RunnerThrew))
  end.
Definition admit_attempt (q : RefinementValidateRequest) : M admission :=
  recover (vq_versionId q) ;;
  v ← boundVersion (vq_versionId q) (vq_versionHash q);
  b ← bindings (snd v) true;
  require RE_INELIGIBLE (eqs (ql_suiteId (bi_qualification b)) (vq_suiteId q)) ;;
  require RE_INELIGIBLE (negb (bool_decide (vr_state (snd v) = RS_active) || bool_decide (vr_state (snd v) = RS_approved))) ;;
  previous ← match vr_latestAttemptId (snd v) with
             | Some (c :: id) => a ← readAttempt (c :: id); mret (Some a)
             | _ => mret None
             end;
  same ← match previous with
         | Some a => same_json (bindings_json (vl_bindings a)) (bindings_json b)
         | None => mret false
         end;
  match previous with
  | Some a =>
      if same && reusable (snd v) a then mret (Existing (vl_id a))
      else
        require RE_CONFLICT (negb (bool_decide (vl_status a = VS_running))) ;;
        digest ← refinementHash (validate_json q);
        start_attempt v b digest
  | None => digest ← refinementHash (validate_json q); start_attempt v b digest
  end.
Definition validationResponse (versionId attemptId : jsstr) : M RefinementValidationResponse :=
  atomic (a ← readAttempt attemptId; v ← version versionId; v' ← version versionId; s ← scope (vr_scopeKey (snd v'));
          mret (mkValidationResponse a (snd v) (snd s))).
(** The run of an admitted attempt: refused without running when a source is
    unresolved or is one of the evaluation's own cases. *)
Definition run_attempt (a : RefinementValidation) (e : RefinementEnvelope)
    (runner : RefinementEnvelope → RefinementValidationBindings → M RunOutcome) : M (option json * option jsstr) :=
  let sources := pv_sources (ev_provenance e) in
  if existsb (λ s, negb (so_resolved s)) sources then mret (None, Some (js "PROVENANCE_UNRESOLVED"))
  else if existsb (λ s, existsb (eqs (sr_id (so_ref s))) (ql_caseIds (bi_qualification (vl_bindings a)))) sources
  then mret (None, Some (js "EVALUATION_OVERLAP"))
  else
    outcome ← try_catch (runner e (vl_bindings a)) (λ _, mret RunnerThrew);
    mret match outcome with
         | Reported raw => (Some raw, None)
         | RunnerThrew => (None, Some (js "VALIDATOR_ERROR"))
         | RunnerTimedOut => (None, Some (js "VALIDATOR_TIMEOUT"))
         end.
Definition validate (q : RefinementValidateRequest) : M RefinementValidationResponse :=
  require RE_INVALID_REQUEST (validate_ok q) ;;
  owner (vq_userId q) ;;
  admitted ← atomic (admit_attempt q);
  match admitted with
  | Existing id => validationResponse (vq_versionId q) id
  | Started a e runner =>
      r ← run_attempt a e runner;
      atomic (complete (vl_id a) (fst r) (snd r)) ;;
      validationResponse (vq_versionId q) (vl_id a)
  end.

(** ** Approval, activation, rollback, disabling *)

Definition actor : fields := [(js "actorKind", JStr (js "local_token_holder"))].
Definition evidence (q : RefinementApproveRequest) : fields :=
  [(js "validationId", JStr (aq_validationId q)); (js "reportHash", JStr (aq_reportHash q))].
Definition approve (q : RefinementApproveRequest) : M RefinementMutationResponse :=
  require RE_INVALID_REQUEST (approve_ok q) ;;
  owner (aq_userId q) ;;
  atomic
    (v ← boundVersion (aq_versionId q) (aq_versionHash q);
     s ← scope (vr_scopeKey (snd v));
     digest ← refinementHash (approve_json q);
     earlier ← repeated (fst v) (fst s) Ra_approve digest;
     match earlier with
     | Some response => mret response
     | None =>
         expectGeneration (fst s) (aq_expectedScopeGeneration q) ;;
         require RE_INELIGIBLE (bool_decide (vr_state (snd v) = RS_validated)) ;;
         passed (snd v) (aq_validationId q) (aq_reportHash q) ;;
         audit ← emit (Some Ra_approve) (snd v) ([(js "requestHash", JStr digest)] ++ evidence q ++
           [(js "scopeGeneration", jint (rc_generation (fst s)))] ++ actor) X_success;
         tr ← transition (set_state RS_approved (rv_latest_attempt_id (fst v)) (rv_validated_attempt_id (fst v)) (Some audit) (fst v))
                (rc_generation (fst s)) Ra_approve digest audit;
         updateVersionState (fst tr) ;;
         mret (snd tr)
     end).

(** The scope's row after a change of its active version. *)
Definition moved_scope (active : option jsstr) (generation : Z) (audit : jsstr) (record : json_text)
    (s : RefinementScopesRow) : RefinementScopesRow :=
  mkScopeRow (rc_scope_key s) active generation (Some audit) (Some record).
Definition switch_action (q : switch_request) : RefinementAction :=
  match q with ActivateRequest _ _ => Ra_activate | RollbackRequest _ _ => Ra_rollback end.
(** What makes the version eligible, and the row with the approval it is activated
    under. *)
Definition authorize_switch (q : switch_request) (v : RefinementVersionsRow * RefinementVersion)
    (s : RefinementScopesRow) (digest : jsstr) : M RefinementVersionsRow :=
  let row := fst v in
  match q with
  | ActivateRequest _ approvalAuditId =>
      require RE_INELIGIBLE (bool_decide (rv_state row = RS_approved) &&
        bool_decide (rv_approval_audit_id row = Some approvalAuditId)) ;;
      mret row
  | RollbackRequest r _ =>
      require RE_INELIGIBLE (bool_decide (rv_state row = RS_disabled) && bool_decide (rv_approval_audit_id row ≠ None)) ;;
      active ← or_refuse RE_INELIGIBLE (rc_active_version_id s);
      current ← version active;
      require RE_INELIGIBLE (eqs (ev_familyId (vr_envelope (snd current))) (ev_familyId (vr_envelope (snd v))) &&
        (ev_revision (vr_envelope (snd v)) <? ev_revision (vr_envelope (snd current)))) ;;
      audit ← emit (Some Ra_approve) (snd v) ([(js "rollback", JBool true); (js "requestHash", JStr digest)] ++ evidence r ++
        [(js "scopeGeneration", jint (rc_generation s))] ++ actor) X_success;
      mret (set_state (rv_state row) (rv_latest_attempt_id row) (rv_validated_attempt_id row) (Some audit) row)
  end.
(** The version that was active is disabled. *)
Definition disable_prior (active : option jsstr) (replacement : jsstr) (generation : Z) (digest : jsstr) : M unit :=
  match active with
  | None => mret tt
  | Some id =>
      prior ← version id;
      audit ← emit (Some Ra_disable) (snd prior) [(js "reason", JStr (js "superseded"));
        (js "replacementVersionId", JStr replacement); (js "scopeGeneration", jint generation);
        (js "requestHash", JStr digest)] X_success;
      tr ← transition (become RS_disabled (fst prior)) generation Ra_disable digest audit;
      updateVersionState (fst tr)
  end.
Definition perform_switch (q : switch_request) (v : RefinementVersionsRow * RefinementVersion)
    (s : RefinementScopesRow) (digest : jsstr) : M RefinementMutationResponse :=
  let r := switch_base q in
  expectGeneration s (aq_expectedScopeGeneration r) ;;
  passed (snd v) (aq_validationId r) (aq_reportHash r) ;;
  row ← authorize_switch q v s digest;
  let generation := rc_generation s + 1 in
  require RE_CAPACITY (safe_int generation) ;;
  disable_prior (rc_active_version_id s) (rv_id row) generation digest ;;
  audit ← emit (Some (switch_action q)) (snd v) ([(js "requestHash", JStr digest)] ++ evidence r ++
    [(js "approvalAuditId", jopt (rv_approval_audit_id row)); (js "scopeGeneration", jint generation)]) X_success;
  tr ← transition (become RS_active row) generation (switch_action q) digest audit;
  updateVersionState (fst tr) ;;
  updateScope (moved_scope (Some (rv_id row)) generation audit (rv_last_transition_json (fst tr)) s) ;;
  mret (snd tr).
Definition switchVersion (q : switch_request) : M RefinementMutationResponse :=
  v ← boundVersion (aq_versionId (switch_base q)) (aq_versionHash (switch_base q));
  s ← scope (vr_scopeKey (snd v));
  digest ← refinementHash (switch_json q);
  earlier ← repeated (fst v) (fst s) (switch_action q) digest;
  match earlier with
  | Some response => mret response
  | None => perform_switch q v (fst s) digest
  end.
(** [activate] and [rollback]. *)
Definition switch (q : switch_request) : M RefinementMutationResponse :=
  require RE_INVALID_REQUEST (switch_ok q) ;;
  owner (aq_userId (switch_base q)) ;;
  atomic (switchVersion q).

Definition perform_disable (q : RefinementDisableRequest) (v : RefinementVersionsRow * RefinementVersion)
    (s : RefinementScopesRow) (digest : jsstr) : M RefinementMutationResponse :=
  expectGeneration s (dq_expectedScopeGeneration q) ;;
  require RE_INELIGIBLE (bool_decide (vr_state (snd v) = RS_active) || bool_decide (vr_state (snd v) = RS_approved)) ;;
  let generation := rc_generation s + 1 in
  require RE_CAPACITY (safe_int generation) ;;
  reasonHash ← refinementHash (JStr (dq_reason q));
  audit ← emit (Some Ra_disable) (snd v) [(js "requestHash", JStr digest); (js "reasonHash", JStr reasonHash);
    (js "scopeGeneration", jint generation)] X_success;
  tr ← transition (become RS_disabled (fst v)) generation Ra_disable digest audit;
  updateVersionState (fst tr) ;;
  updateScope (moved_scope
    (if bool_decide (rc_active_version_id s = Some (rv_id (fst v))) then None else rc_active_version_id s)
    generation audit (rv_last_transition_json (fst tr)) s) ;;
  mret (snd tr).
Definition disable (q : RefinementDisableRequest) : M RefinementMutationResponse :=
  require RE_INVALID_REQUEST (disable_ok q) ;;
  owner (dq_userId q) ;;
  atomic
    (v ← boundVersion (dq_versionId q) (dq_versionHash q);
     s ← scope (vr_scopeKey (snd v));
     digest ← refinementHash (disable_json q);
     earlier ← repeated (fst v) (fst s) Ra_disable digest;
     match earlier with
     | Some response => mret response
     | None => perform_disable q v (fst s) digest
     end).

(** ** Selection and pins *)

Definition pin_of (key : jsstr) : M (option RefinementPin) :=
  found ← readScope key;
  match found with
  | None => mret None
  | Some _ =>
      current ← scope key;
      match ss_activeVersionId (snd current) with
      | None => mret None
      | Some id =>
          active ← version id;
          validated ← or_refuse RE_CORRUPT (vr_validatedAttemptId (snd active));
          a ← readAttempt validated;
          passed (snd active) (vl_id a) (default [] (vl_reportHash a)) ;;
          mret (Some (mkPin (ev_versionId (vr_envelope (snd active))) (vr_versionHash (snd active)) (vl_id a) key
            (ss_generation (snd current))))
      end
  end.
Definition select_refinement (s : RefinementScope) : M (option RefinementPin) :=
  require RE_INVALID_REQUEST (scope_ok s) ;;
  atomic (key ← refinementHash (scope_json s); pin_of key).
Definition readPin (pin : RefinementPin) : M RefinementContent :=
  current ← scope (pi_scopeKey pin);
  require RE_CHANGED ((ss_generation (snd current) =? pi_scopeGeneration pin) &&
    bool_decide (ss_activeVersionId (snd current) = Some (pi_versionId pin))) ;;
  v ← version (pi_versionId pin);
  require RE_CHANGED (eqs (vr_versionHash (snd v)) (pi_versionHash pin) && bool_decide (vr_state (snd v) = RS_active) &&
    bool_decide (vr_validatedAttemptId (snd v) = Some (pi_validationId pin))) ;;
  a ← readAttempt (pi_validationId pin);
  passed (snd v) (pi_validationId pin) (default [] (vl_reportHash a)) ;;
  mret (ev_content (vr_envelope (snd v))).
Definition assertPin (pin : RefinementPin) : M RefinementContent :=
  require RE_INVALID_REQUEST (pin_ok pin) ;; atomic (readPin pin).
Definition recordUse (pin : RefinementPin) (runId : jsstr) : M jsstr :=
  atomic
    (require RE_INVALID_REQUEST (pin_ok pin) ;;
     readPin pin ;;
     v ← version (pi_versionId pin);
     emit None (snd v) [(js "runId", JStr runId); (js "validationId", JStr (pi_validationId pin));
       (js "scopeGeneration", jint (pi_scopeGeneration pin))] X_success).
End manager.
