(* ===== verification/RefinementLife.v ===== *)
(** * The life of a refinement

    What the operations of the manager keep, whatever the registry, the source
    resolver and the runners do: artifacts and receipts are never rewritten, at
    most one version of a scope is active, and what a pin denotes never changes. *)

From S2P Require Export Refinements.
Open Scope Z_scope.

(** ** The operations *)

Inductive refinement_op :=
  | Ro_propose (q : RefinementProposeRequest)
  | Ro_validate (q : RefinementValidateRequest)
  | Ro_approve (q : RefinementApproveRequest)
  | Ro_switch (q : switch_request)
  | Ro_disable (q : RefinementDisableRequest)
  | Ro_get (versionId : jsstr)
  | Ro_list (userId : jsstr) (scopeKey : option jsstr) (limit : option nat) (cursor : option jsstr)
  | Ro_select (s : RefinementScope)
  | Ro_assertPin (pin : RefinementPin)
  | Ro_recordUse (pin : RefinementPin) (runId : jsstr).

Definition run_refinement `{Platform} `{!RefinementManagerDependencies} (op : refinement_op) (w : World) : World :=
  match op with
  | Ro_propose q => snd (propose q w)
  | Ro_validate q => snd (validate q w)
  | Ro_approve q => snd (approve q w)
  | Ro_switch q => snd (switch q w)
  | Ro_disable q => snd (disable q w)
  | Ro_get id => snd (getRefinement id w)
  | Ro_list u k l c => snd (listRefinements u k l c w)
  | Ro_select s => snd (select_refinement s w)
  | Ro_assertPin p => snd (assertPin p w)
  | Ro_recordUse p r => snd (recordUse p r w)
  end.
Definition run_refinements `{Platform} `{!RefinementManagerDependencies} (ops : list refinement_op) (w : World) : World :=
  foldl (λ w op, run_refinement op w) w ops.

(** ** Invariants the manager keeps *)

(** An invariant survives an audit entry and each write of the manager. *)
Class RefineFrame `{Platform} (J : Db → nat → Prop) : Prop := {
  rf_supply :: Supply J;
  rf_insert params ref : p_epochId params = None → keeps J (insertRow params ref);
  rf_version r d n : version_clash r d = false → J d n → J (set_refinement_versions (λ rows, rows ++ [r]) d) n;
  rf_state row d n : second_active row d = false → J d n →
    J (set_refinement_versions (update_where (is_version (rv_id row)) (with_state_of row)) d) n;
  rf_scope f d n : J d n → J (set_refinement_scopes f d) n;
  rf_attempt r d n : attempt_clash r d = false → J d n →
    J (set_refinement_validations (λ rows, rows ++ [r]) d) n;
  rf_finish row d n : J d n →
    J (set_refinement_validations
        (update_where (λ r, is_attempt (va_id row) r && is_running r) (with_result_of row)) d) n;
}.
(** What runs while a source is resolved or a validation runs keeps it too. *)
Class RefineAwaits `{Platform} `{!RefinementManagerDependencies} (J : Db → nat → Prop) : Prop := {
  ra_source r : keeps J (resolveSource r);
  ra_runner id w r run e b : registry id w = Some r → rg_runValidation r = Some run → keeps J (run e b);
}.

Section keeps.
Context `{Platform} `{!RefinementManagerDependencies} (J : Db → nat → Prop) `{!RefineFrame J}.

Lemma keeps_require code b : keeps J (require code b).
Proof. unfold require. case_match; [apply keeps_ret|apply keeps_throw]. Qed.
Lemma keeps_or_refuse {A} code (v : option A) : keeps J (or_refuse code v).
Proof. unfold or_refuse. case_match; [apply keeps_ret|apply keeps_throw]. Qed.
Lemma keeps_hash v : keeps J (refinementHash v).
Proof. unfold refinementHash. apply keeps_bind; [apply keeps_or_refuse|]. intros. apply keeps_ret. Qed.
Lemma keeps_column v : keeps J (canonical_column v).
Proof. unfold canonical_column. apply keeps_bind; [apply keeps_or_refuse|]. intros. apply keeps_ret. Qed.
Lemma keeps_same a b : keeps J (same_json a b).
Proof. unfold same_json. repeat (apply keeps_bind; [apply keeps_or_refuse|intros]). apply keeps_ret. Qed.
Lemma keeps_json {A} read (ok : A → bool) t : keeps J (json_column read ok t).
Proof. unfold json_column. apply keeps_bind; [apply keeps_or_refuse|]. intros. apply keeps_or_refuse. Qed.
Lemma keeps_registration id b : keeps J (registration id b).
Proof.
  intros w Hw. unfold registration. destruct (registry id w) as [r|].
  - apply (keeps_bind J (require _ _)); [apply keeps_require|intros; apply keeps_ret|exact Hw].
  - by apply keeps_throw.
Qed.
Hint Resolve keeps_require keeps_or_refuse keeps_hash keeps_column keeps_same keeps_json keeps_registration : wb.

Lemma keeps_bindings v b : keeps J (bindings v b).
Proof. unfold bindings. keeps_tac. Qed.
Hint Resolve keeps_bindings : wb.
Lemma keeps_compatible v a : keeps J (compatible v a).
Proof. unfold compatible. keeps_tac. Qed.
Lemma keeps_version id : keeps J (version id).
Proof. unfold version, readVersion, decodeVersion. keeps_tac. Qed.
Hint Resolve keeps_compatible keeps_version : wb.
Lemma keeps_scope key : keeps J (scope key).
Proof. unfold scope, readScope. keeps_tac. Qed.
Lemma keeps_verdict a : keeps J (verdict_sound a).
Proof. unfold verdict_sound. keeps_tac. Qed.
Hint Resolve keeps_scope keeps_verdict : wb.
Lemma keeps_decode row : keeps J (decodeValidation row).
Proof. unfold decodeValidation. keeps_tac. Qed.
Hint Resolve keeps_decode : wb.
Lemma keeps_attempt id : keeps J (readAttempt id).
Proof. unfold readAttempt, readValidation. keeps_tac. Qed.
Hint Resolve keeps_attempt : wb.
Lemma keeps_decodes {A B} (decode : A → M B) l : (∀ x, keeps J (decode x)) → keeps J (decode_all decode l).
Proof. intros Hd. induction l; simpl; keeps_tac. Qed.
Lemma keeps_emit action v md o : keeps J (emit action v md o).
Proof.
  unfold emit, insertAuditEntryInTxn, refuse. keeps_tac. by apply rf_insert.
Qed.
Lemma keeps_transition row g a h i : keeps J (transition row g a h i).
Proof. unfold transition. keeps_tac. Qed.
Lemma keeps_repeated row s a h : keeps J (repeated row s a h).
Proof. unfold repeated. keeps_tac. Qed.
Lemma keeps_bound i h : keeps J (boundVersion i h).
Proof. unfold boundVersion. keeps_tac. Qed.
Lemma keeps_expects s g : keeps J (expectGeneration s g).
Proof. apply keeps_require. Qed.
Lemma keeps_passed v i h : keeps J (passed v i h).
Proof. unfold passed. keeps_tac. Qed.
Lemma keeps_attemptRow a : keeps J (attemptRow a).
Proof. unfold attemptRow. keeps_tac. Qed.
Lemma keeps_stateUpdate row : keeps J (updateVersionState row).
Proof. unfold updateVersionState. apply keeps_insert. intros. by apply rf_state. Qed.
Lemma keeps_scopeUpdate row : keeps J (updateScope row).
Proof. unfold updateScope. apply keeps_insert. intros. by apply rf_scope. Qed.
Lemma keeps_finishing row : keeps J (finishValidation row).
Proof. unfold finishValidation. keeps_tac. intros. by apply rf_finish. Qed.
Hint Resolve keeps_emit keeps_transition keeps_repeated keeps_bound keeps_expects keeps_passed keeps_attemptRow
  keeps_stateUpdate keeps_scopeUpdate keeps_finishing : wb.

Lemma keeps_receipt a raw f : keeps J (completed_receipt a raw f).
Proof. unfold completed_receipt. keeps_tac. Qed.
Hint Resolve keeps_receipt : wb.
Lemma keeps_complete id raw f : keeps J (complete id raw f).
Proof. unfold complete. keeps_tac. Qed.
Hint Resolve keeps_complete : wb.
Lemma keeps_recover id : keeps J (recover id).
Proof. unfold recover. keeps_tac. Qed.
Lemma keeps_detail_of id : keeps J (detail id).
Proof.
  unfold detail, listValidations. keeps_tac. apply keeps_decodes. auto with wb.
Qed.
Hint Resolve keeps_recover keeps_detail_of : wb.
Lemma keeps_atomic {A} (m : M A) : keeps J m → keeps J (atomic m).
Proof. intros Hm. unfold atomic. apply keeps_try; [by apply keeps_txn; [apply _|]|]. intros []; apply keeps_throw. Qed.
Hint Resolve keeps_atomic : wb.
Lemma keeps_newEnvelope q s p : keeps J (new_envelope q s p).
Proof. unfold new_envelope, nextRevision. keeps_tac. Qed.
Hint Resolve keeps_newEnvelope : wb.
Lemma keeps_proposal q s h : keeps J (record_proposal q s h).
Proof.
  unfold record_proposal, versionCount, insertScope, insertVersion. keeps_tac; intros; [by apply rf_scope|].
  apply rf_version; [|done]. by apply orb_false_iff in H1 as [_ ?].
Qed.
Hint Resolve keeps_proposal : wb.
Lemma keeps_authorize q v s h : keeps J (authorize_switch q v s h).
Proof. unfold authorize_switch. keeps_tac. Qed.
Lemma keeps_prior a r g h : keeps J (disable_prior a r g h).
Proof. unfold disable_prior. keeps_tac. Qed.
Hint Resolve keeps_authorize keeps_prior : wb.
Lemma keeps_switching q : keeps J (switchVersion q).
Proof. unfold switchVersion, perform_switch. keeps_tac. Qed.
Lemma keeps_readPin p : keeps J (readPin p).
Proof. unfold readPin. keeps_tac. Qed.
Hint Resolve keeps_switching keeps_readPin : wb.
Lemma keeps_start v b h : keeps J (start_attempt v b h).
Proof. unfold start_attempt, listValidations, insertValidation. keeps_tac. intros. by apply rf_attempt. Qed.
Hint Resolve keeps_start : wb.
Lemma keeps_admitting q : keeps J (admit_attempt q).
Proof. unfold admit_attempt. keeps_tac. Qed.
Lemma keeps_response i a : keeps J (validationResponse i a).
Proof. unfold validationResponse. apply keeps_atomic. keeps_tac. Qed.
Hint Resolve keeps_admitting keeps_response : wb.

Lemma keeps_get id : keeps J (getRefinement id).
Proof. unfold getRefinement. apply keeps_atomic. keeps_tac. Qed.
Lemma keeps_owner u : keeps J (owner u).
Proof. apply keeps_require. Qed.
Hint Resolve keeps_owner : wb.
Lemma keeps_listing u k l c : keeps J (listRefinements u k l c).
Proof.
  unfold listRefinements, listVersions. keeps_tac. apply keeps_atomic. keeps_tac. apply keeps_decodes. intros. keeps_tac.
Qed.
Lemma keeps_approving q : keeps J (approve q).
Proof. unfold approve. keeps_tac. apply keeps_atomic. keeps_tac. Qed.
Lemma keeps_switch q : keeps J (switch q).
Proof. unfold switch. keeps_tac. Qed.
Lemma keeps_disabling q : keeps J (disable q).
Proof. unfold disable, perform_disable. keeps_tac. apply keeps_atomic. keeps_tac. Qed.
Lemma keeps_select_refinement s : keeps J (select_refinement s).
Proof. unfold select_refinement, pin_of, readScope. keeps_tac. apply keeps_atomic. keeps_tac. Qed.
Lemma keeps_assertPin p : keeps J (assertPin p).
Proof. unfold assertPin. keeps_tac. Qed.
Lemma keeps_use p r : keeps J (recordUse p r).
Proof. unfold recordUse. apply keeps_atomic. keeps_tac. Qed.
Lemma keeps_sources refs `{!RefineAwaits J} : keeps J (resolve_sources refs).
Proof. induction refs; simpl; unfold refuse; keeps_tac. by apply ra_source. Qed.
Lemma keeps_propose q `{!RefineAwaits J} : keeps J (propose q).
Proof. pose proof keeps_sources. unfold propose, readProposal. keeps_tac. apply keeps_atomic. keeps_tac. Qed.

(** The runner of an admitted attempt is a registered one. *)
Definition registered (a : admission) : Prop :=
  match a with
  | Existing _ => True
  | Started _ _ run => ∀ e b, keeps J (run e b)
  end.
Lemma registration_found id b w : pw (registration id b) (λ r _, ∃ w', registry id w' = Some r) w.
Proof.
  intros r w' E. unfold registration in E. destruct (registry id w) as [r'|] eqn:Er; [|done].
  revert r w' E. apply pw_skip. intros. apply pw_ret. eauto.
Qed.
Lemma start_registered `{!RefineAwaits J} v b h w : pw (start_attempt v b h) (λ a _, registered a) w.
Proof.
  unfold start_attempt. do 11 (apply pw_skip; intros ? ?). apply pw_bind.
  eapply pw_mono; [apply registration_found|]. intros r ? (?&Hr). destruct (rg_runValidation r) eqn:E.
  - apply pw_ret. intros e b'. by eapply (ra_runner (J := J)).
  - apply pw_ret. intros e b'. apply keeps_ret.
Qed.
Lemma admit_registered `{!RefineAwaits J} q w : pw (admit_attempt q) (λ a _, registered a) w.
Proof.
  pose proof start_registered as Hs. unfold admit_attempt. repeat (apply pw_skip; intros ? ?).
  repeat case_match; repeat first [by apply pw_ret|apply Hs|apply pw_skip; intros ? ?].
Qed.
Lemma keeps_validate q `{!RefineAwaits J} : keeps J (validate q).
Proof.
  unfold validate. apply keeps_bind; [auto with wb|]. intros _. apply keeps_bind; [auto with wb|]. intros _.
  apply (keeps_bind_post J _ _ registered).
  - auto with wb.
  - intros w. apply pw_try; [apply pw_txn, admit_registered|]. intros [] ?; apply pw_throw.
  - intros [id|a e run] Ha; [auto with wb|]. unfold run_attempt. keeps_tac.
Qed.

Lemma run_keeps op w `{!RefineAwaits J} :
  J (w_db w) (w_uuids w) →
  J (w_db (run_refinement op w)) (w_uuids (run_refinement op w)) ∧ moved w (run_refinement op w).
Proof.
  destruct op; simpl; [apply keeps_propose|apply keeps_validate|apply keeps_approving|apply keeps_switch|
    apply keeps_disabling|apply keeps_get|apply keeps_listing|apply keeps_select_refinement|apply keeps_assertPin|
    apply keeps_use]; auto.
Qed.
Lemma runs_keep ops w `{!RefineAwaits J} :
  J (w_db w) (w_uuids w) →
  J (w_db (run_refinements ops w)) (w_uuids (run_refinements ops w)) ∧ moved w (run_refinements ops w).
Proof.
  revert w. induction ops as [|op ops IH]; intros w Hw; [by split|].
  destruct (run_keeps op w Hw) as [H1 H2], (IH _ H1) as [H3 H4]. split; [exact H3|by eapply moved_trans].
Qed.
End keeps.
#[export] Hint Resolve keeps_require keeps_or_refuse keeps_hash keeps_column keeps_same keeps_json
  keeps_registration keeps_bindings keeps_compatible keeps_version keeps_scope keeps_verdict keeps_decode
  keeps_attempt keeps_emit keeps_transition keeps_repeated keeps_bound keeps_expects keeps_passed
  keeps_attemptRow keeps_stateUpdate keeps_scopeUpdate keeps_finishing keeps_receipt keeps_complete
  keeps_recover keeps_detail_of keeps_atomic keeps_newEnvelope keeps_proposal keeps_authorize keeps_prior
  keeps_switching keeps_readPin keeps_start keeps_admitting keeps_response keeps_owner : wb.
#[export] Hint Extern 1 (RefineFrame _) => apply _ : wb.

(** ** What evolves: rows are appended, and kept up to [R] *)

Definition evolves {A} (R : A → A → Prop) (l l' : list A) : Prop :=
  ∃ olds new, l' = olds ++ new ∧ Forall2 R l olds.

Section evolves.
Context {A} (R : A → A → Prop) `{!PreOrder R}.
Implicit Types (l : list A).

Lemma evolves_refl l : evolves R l l.
Proof. exists l, []. split; [by rewrite app_nil_r|]. by apply Forall_Forall2_diag, Forall_true. Qed.
Lemma evolves_snoc l l' x : evolves R l l' → evolves R l (l' ++ [x]).
Proof. intros (olds&new&->&HF). exists olds, (new ++ [x]). by rewrite (assoc_L (++)). Qed.
Lemma evolves_update l l' p f :
  (∀ r, p r = true → R r (f r)) → evolves R l l' → evolves R l (update_where p f l').
Proof.
  intros Hf (olds&new&->&HF). exists (update_where p f olds), (update_where p f new).
  unfold update_where. split; [apply fmap_app|]. apply Forall2_fmap_r. eapply Forall2_impl; [exact HF|].
  intros x y Hxy. simpl. destruct (p y) eqn:E; [etrans; eauto|done].
Qed.
Lemma evolves_find l l' (p : A → bool) x :
  (∀ r r', R r r' → p r' = p r) → evolves R l l' → List.find p l = Some x →
  ∃ x', List.find p l' = Some x' ∧ R x x'.
Proof.
  intros Hp (olds&new&->&HF) Hx. revert Hx. induction HF as [|r r' l olds Hr _ IH]; simpl; [done|].
  rewrite (Hp _ _ Hr). destruct (p r); [|done]. intros [= <-]. eauto.
Qed.
End evolves.

(** *** Artifacts, receipts and scopes *)

(** What a version is: everything but its place in the life cycle. *)
Definition artifact (r : RefinementVersionsRow) :=
  (rv_id r, rv_family_id r, rv_revision r, rv_parent_id r, rv_scope_key r, rv_version_hash r,
   rv_proposal_request_hash r, rv_envelope_json r, rv_created_at r).
Definition same_artifact (r r' : RefinementVersionsRow) : Prop := artifact r = artifact r'.
(** What an attempt was started on. *)
Definition attempted (r : RefinementValidationsRow) :=
  (va_id r, va_version_id r, va_version_hash r, va_bindings_json r, va_started_at r, va_deadline_at r).
(** A receipt is written once: only a running attempt changes. *)
Definition receipt_step (r r' : RefinementValidationsRow) : Prop :=
  attempted r = attempted r' ∧ (va_status r ≠ VS_running → r = r').
#[export] Instance same_artifact_pre : PreOrder same_artifact.
Proof. split; [done|]. intros r r' r''. unfold same_artifact. congruence. Qed.
#[export] Instance receipt_step_pre : PreOrder receipt_step.
Proof.
  split; [done|]. intros r r' r'' [E1 H1] [E2 H2]. split; [congruence|]. intros Hr.
  specialize (H1 Hr) as <-. by apply H2.
Qed.

(** The versions of [d0] are still those of [d], in order, and so are its receipts. *)
Definition history (d0 d : Db) (_ : nat) : Prop :=
  evolves same_artifact (refinement_versions d0) (refinement_versions d) ∧
  evolves receipt_step (refinement_validations d0) (refinement_validations d).
(** The tables but the manager's own and the log. *)
Definition elsewhere (d : Db) : Db :=
  set_audit_log (λ _, []) (set_refinement_versions (λ _, []) (set_refinement_validations (λ _, [])
    (set_refinement_scopes (λ _, []) d))).
Definition local (d0 d : Db) (_ : nat) : Prop :=
  elsewhere d = elsewhere d0 ∧ audit_log d0 `prefix_of` audit_log d.

Section frames.
Context `{Platform}.

#[export] Instance history_supply d0 : Supply (history d0).
Proof. by intros d n m. Qed.
#[export] Instance history_frame d0 : RefineFrame (history d0).
Proof.
  split; try done; [by intros d n m|..].
  - intros params ref _. apply keeps_insertRow_frame; [apply _|]. by intros.
  - intros r d n _ [H1 H2]. split; [by apply evolves_snoc|done].
  - intros row d n _ [H1 H2]. split; [apply evolves_update; done || apply _|done].
  - intros r d n _ [H1 H2]. split; [done|by apply evolves_snoc].
  - intros row d n [H1 H2]. split; [done|]. apply evolves_update; [apply _| |done].
    intros r [_ Hr]%andb_true_iff. split; [done|]. apply bool_decide_eq_true in Hr. congruence.
Qed.

#[export] Instance local_supply d0 : Supply (local d0).
Proof. by intros d n m. Qed.
Lemma local_insert d0 params ref : keeps (local d0) (insertRow params ref).
Proof.
  unfold insertRow, deriveMonotonicEpochId. keeps_tac;
    intros ? ? _ [He Hl]; split; try exact He; by apply prefix_app_r.
Qed.
#[export] Instance local_frame d0 : RefineFrame (local d0).
Proof. split; [by intros d n m|intros params ref _; apply local_insert|done..]. Qed.

Context `{!PlatformLaws _}.
#[export] Instance agent_refine_frame : RefineFrame agent_inv.
Proof.
  split; [apply _|intros; by apply sf_insert|..]; intros;
    match goal with H : agent_inv _ _ |- _ => destruct H as ([]&?&?) end; split_and!; [by split|done..].
Qed.
End frames.

(** ** The theorems *)

Section theorems.
Context `{Platform} `{!PlatformLaws _} `{!RefinementManagerDependencies}.

(** C29: Whatever the manager is asked and in whatever order, it never rewrites
    what was decided on: every version on file keeps its identity, content, hash
    and provenance, a receipt changes only while its attempt runs, and the
    invariant of the object - the audit chain among it - is kept. *)
Theorem refinements_never_rewritten ops w
  `{!∀ d, RefineAwaits (history d)} `{!RefineAwaits agent_inv} :
  agent_inv (w_db w) (w_uuids w) →
  let w' := run_refinements ops w in
  evolves same_artifact (refinement_versions (w_db w)) (refinement_versions (w_db w')) ∧
  evolves receipt_step (refinement_validations (w_db w)) (refinement_validations (w_db w')) ∧
  agent_inv (w_db w') (w_uuids w').
Proof.
  intros Hw w'. destruct (runs_keep agent_inv ops w Hw) as [Ha _].
  destruct (runs_keep (history (w_db w)) ops w) as [[Hv Hr] _]; [split; apply evolves_refl; apply _|].
  done.
Qed.

(** The manager reaches no policy, hold, credential, session, run or ledger:
    its operations leave every table but its own three and the audit log as it
    was, and the log only grows. *)
Theorem refinements_stay_local ops w `{!∀ d, RefineAwaits (local d)} :
  let w' := run_refinements ops w in
  elsewhere (w_db w') = elsewhere (w_db w) ∧ audit_log (w_db w) `prefix_of` audit_log (w_db w') ∧
  w_turnInFlight w' = w_turnInFlight w.
Proof.
  intros w'. destruct (runs_keep (local (w_db w)) ops w) as [[He Hl] [_ _ Hg _]]; [done|].
  done.
Qed.
End theorems.
