(* ===== verification/RefinementReads.v ===== *)
(** * What the manager's reads establish

    Each read of [refinements/manager.ts] that succeeds has cross-checked the row
    it returns; these lemmas say what its caller may rely on. A read leaves the
    world as it was. *)

From S2P Require Export RefinementLife.
Open Scope Z_scope.

(** ** Stepping through a body *)

Section steps.
Context {A B : Type}.
Implicit Types (Q : B → World → Prop) (k : A → M B) (w : World).

Lemma pw_or_refuse code (v : option A) k Q w :
  (∀ a, v = Some a → pw (k a) Q w) → pw (or_refuse code v ≫= k) Q w.
Proof. intros Hk. apply pw_bind. destruct v; [by apply pw_ret, Hk|apply pw_throw]. Qed.
Lemma pw_or_refuse_last code (v : option B) Q w : (∀ a, v = Some a → Q a w) → pw (or_refuse code v) Q w.
Proof. intros Hk. destruct v; [by apply pw_ret, Hk|apply pw_throw]. Qed.
Lemma pw_require code b (k : unit → M B) Q w :
  (b = true → pw (k tt) Q w) → pw (require code b ≫= k) Q w.
Proof. intros Hk. apply pw_bind. destruct b; [by apply pw_ret, Hk|apply pw_throw]. Qed.
Lemma pw_pick (f : Db → A) k Q w : pw (k (f (w_db w))) Q w → pw (select f ≫= k) Q w.
Proof. intros Hk. by apply pw_bind, pw_select. Qed.
(** A step whose postcondition is known. *)
Lemma pw_step (m : M A) (P : A → World → Prop) k Q w :
  pw m P w → (∀ a w', P a w' → pw (k a) Q w') → pw (m ≫= k) Q w.
Proof. intros Hm Hk. apply pw_bind. eapply pw_mono; eauto. Qed.
End steps.

(** A run that leaves the world as it was, whether it returns or throws. *)
Definition quiet {A} (m : M A) : Prop := ∀ w, snd (m w) = w.
Lemma quiet_ret {A} (a : A) : quiet (mret a).
Proof. done. Qed.
Lemma quiet_bind {A B} (m : M A) (k : A → M B) : quiet m → (∀ a, quiet (k a)) → quiet (m ≫= k).
Proof.
  intros Hm Hk w. specialize (Hm w). unfold mbind, M_bind. destruct (m w) as [[a|e] w']; simpl in *; subst; [|done].
  apply Hk.
Qed.
Lemma quiet_require code b : quiet (require code b).
Proof. by destruct b. Qed.
Lemma quiet_or_refuse {A} code (v : option A) : quiet (or_refuse code v).
Proof. by destruct v. Qed.
Lemma pw_try_quiet {A} (m : M A) h Q w : quiet m → pw m Q w → (∀ e, pw (h e) Q w) → pw (try_catch m h) Q w.
Proof.
  intros Hq Hm Hh a w' E. specialize (Hq w). unfold try_catch in E. destruct (m w) as [[b|e] w1] eqn:Em; simplify_eq/=.
  - by apply Hm.
  - by eapply Hh.
Qed.

Section reads.
Context `{Platform} `{!RefinementManagerDependencies}.
Implicit Types (w : World) (d : Db).

Definition digest_of (v : json) (h : jsstr) : Prop :=
  ∃ t, canonicalJson v = Some t ∧ h = sha256_hex (utf8 t).
Lemma pw_hash {B} v (k : jsstr → M B) Q w :
  (∀ h, digest_of v h → pw (k h) Q w) → pw (refinementHash v ≫= k) Q w.
Proof.
  intros Hk. eapply pw_step with (P := λ h w', w' = w ∧ digest_of v h).
  - unfold refinementHash. apply pw_or_refuse. intros t Ht. apply pw_ret. split; [done|by exists t].
  - by intros h ? [-> Hh]; apply Hk.
Qed.
Lemma pw_same {B} a b (k : bool → M B) Q w :
  (∀ x y, canonicalJson a = Some x → canonicalJson b = Some y → pw (k (eqs x y)) Q w) → pw (same_json a b ≫= k) Q w.
Proof.
  intros Hk. eapply pw_step with (P := λ c w', w' = w ∧ ∃ x y, canonicalJson a = Some x ∧ canonicalJson b = Some y ∧ c = eqs x y).
  - unfold same_json. apply pw_or_refuse. intros x Hx. apply pw_or_refuse. intros y Hy. apply pw_ret. eauto 6.
  - intros c ? [-> (x&y&Hx&Hy&->)]. by apply Hk.
Qed.

(** A stored column, as its schema reads it. *)
Definition column {A} (read : json → option A) (ok : A → bool) (t : json_text) : option A :=
  JSON_parse t ≫= λ v, parsed_by ok (read v).
Lemma pw_column {A B} read (ok : A → bool) t (k : A → M B) Q w :
  (∀ a, column read ok t = Some a → pw (k a) Q w) → pw (json_column read ok t ≫= k) Q w.
Proof.
  intros Hk. eapply pw_step with (P := λ a w', w' = w ∧ column read ok t = Some a).
  - unfold json_column, column. apply pw_or_refuse. intros v ->. apply pw_or_refuse_last. by intros a Ha.
  - intros a ? [-> Ha]. by apply Hk.
Qed.

(** *** A version *)

(** What a row read as [v] has gone through. *)
Record decoded (v : RefinementVersionsRow * RefinementVersion) : Prop := {
  dc_envelope : column read_envelope envelope_ok (rv_envelope_json (fst v)) = Some (vr_envelope (snd v));
  dc_view : snd v = view_of (fst v) (vr_envelope (snd v));
  dc_hash : digest_of (envelope_json (vr_envelope (snd v))) (rv_version_hash (fst v));
  dc_scope : digest_of (scope_json (co_scope (ev_content (vr_envelope (snd v))))) (rv_scope_key (fst v));
  dc_sound : ∃ t, version_sound (fst v) (vr_envelope (snd v)) t (rv_version_hash (fst v)) (rv_scope_key (fst v)) = true;
}.
Definition version_found (d : Db) (id : jsstr) (v : RefinementVersionsRow * RefinementVersion) : Prop :=
  List.find (is_version id) (refinement_versions d) = Some (fst v) ∧ decoded v.

Lemma sound_fields row e t h k :
  version_sound row e t h k = true →
  ev_versionId e = rv_id row ∧ h = rv_version_hash row ∧ k = rv_scope_key row.
Proof.
  unfold version_sound. intros Hs. repeat (apply andb_true_iff in Hs as [Hs ?]).
  split_and!; by apply eqs_true.
Qed.

Lemma pw_version id w : pw (version id) (λ v w', w' = w ∧ version_found (w_db w) id v) w.
Proof.
  unfold version, readVersion. apply pw_pick, pw_or_refuse. intros row Hrow. unfold decodeVersion.
  apply pw_column. intros e He. apply pw_column. intros t _. apply pw_require. intros _.
  apply pw_hash. intros h Hh. apply pw_hash. intros s Hs. apply pw_require. intros Hv.
  apply pw_ret. split; [done|]. split; [done|]. destruct (sound_fields _ _ _ _ _ Hv) as (_&->&->).
  by split; [..|exists t].
Qed.

(** *** A scope, an attempt *)

Definition scope_found (d : Db) (key : jsstr) (s : RefinementScopesRow * RefinementScopeState) : Prop :=
  List.find (is_scope key) (refinement_scopes d) = Some (fst s) ∧
  snd s = mkScopeState (rc_scope_key (fst s)) (rc_active_version_id (fst s)) (rc_generation (fst s))
    (rc_last_transition_audit_id (fst s)) ∧
  (∀ id, rc_active_version_id (fst s) = Some id →
     ∃ v, version_found d id v ∧ rv_state (fst v) = RS_active ∧ rv_scope_key (fst v) = key).
Lemma pw_scope key w : pw (scope key) (λ s w', w' = w ∧ scope_found (w_db w) key s) w.
Proof.
  unfold scope, readScope. apply pw_pick, pw_or_refuse. intros row Hrow. cbv zeta.
  do 2 (apply pw_require; intros _). apply pw_step with (P := λ _ w', w' = w).
  { destruct (rc_last_transition_json row); [|by apply pw_ret]. apply pw_column. intros t _.
    unfold require. case_match; [by apply pw_ret|apply pw_throw]. }
  intros _ ? ->. apply pw_step with (P := λ _ w', w' = w ∧ ∀ id, rc_active_version_id row = Some id →
     ∃ v, version_found (w_db w) id v ∧ rv_state (fst v) = RS_active ∧ rv_scope_key (fst v) = key).
  - destruct (rc_active_version_id row) as [id|]; [|by apply pw_ret].
    eapply pw_step; [apply pw_version|]. intros v ? [-> Hv]. unfold require. case_match eqn:E; [|apply pw_throw].
    apply pw_ret. split; [done|]. intros ? [= <-]. exists v. apply andb_true_iff in E as [E1 E2].
    apply bool_decide_eq_true in E1. apply eqs_true in E2. destruct Hv as [Hf Hd].
    rewrite (dc_view _ Hd) in E1, E2. done.
  - intros _ ? [-> Ha]. by apply pw_ret.
Qed.

(** The verdict of a receipt: the report inspected under its bindings, and hashed. *)
Definition verdict (a : RefinementValidation) : Prop :=
  (vl_status a = VS_passed ∨ vl_status a = VS_failed) →
  ∃ r h, inspectRefinementReport (vl_bindings a) (report_value (vl_report a)) =
           Some (r, bool_decide (vl_status a = VS_passed)) ∧
         digest_of (report_value (vl_report a)) h ∧ vl_reportHash a = Some h.
Definition attempt_found (d : Db) (id : jsstr) (a : RefinementValidation) : Prop :=
  (∃ row, List.find (is_attempt id) (refinement_validations d) = Some row ∧ va_status row = vl_status a ∧
     va_id row = vl_id a) ∧ verdict a.
Lemma pw_verdict a w : pw (verdict_sound a) (λ _ w', w' = w ∧ verdict a) w.
Proof.
  unfold verdict_sound, verdict. destruct (vl_status a) eqn:Es; try (apply pw_ret; split; [done|]; intuition congruence).
  all: apply pw_or_refuse; intros [r b] Hr; apply pw_hash; intros h Hh; unfold require; case_match eqn:E; [|apply pw_throw].
  all: apply pw_ret; split; [done|]; intros _; exists r, h.
  all: apply andb_true_iff in E as [[E1 E2]%andb_true_iff _]; apply bool_decide_eq_true in E1.
  all: apply Bool.eqb_prop in E2; simpl in E2; subst b; by rewrite Hr.
Qed.
Lemma pw_attempt id w : pw (readAttempt id) (λ a w', w' = w ∧ attempt_found (w_db w) id a) w.
Proof.
  unfold readAttempt, readValidation. apply pw_pick, pw_or_refuse. intros row Hrow. unfold decodeValidation.
  apply pw_column. intros b _. apply pw_step with (P := λ _ w', w' = w).
  { destruct (va_report_json row); [|by apply pw_ret]. apply pw_column. intros r _. by apply pw_ret. }
  intros report ? ->. cbv zeta. apply pw_require. intros _. eapply pw_step; [apply pw_verdict|].
  intros _ ? [-> Hv]. apply pw_ret. split; [done|]. split; [|done]. by exists row.
Qed.

(** *** Passing *)

(** The workflow registered now is the one [b] names, and it has a runner. *)
Definition bound_now (v : RefinementVersion) (b : RefinementValidationBindings) (w : World) : Prop :=
  ∃ r, registry (sc_workflowId (co_scope (ev_content (vr_envelope v)))) w = Some r ∧ has_runner r = true ∧
    rg_workflowContractHash r = sc_workflowContractHash (co_scope (ev_content (vr_envelope v))) ∧
    b = mkBindings (ev_versionId (vr_envelope v)) (vr_versionHash v) (vr_scopeKey v) (rg_workflowContractHash r)
          (rg_workflowBuildHash r) (rg_validatorBuildHash r) (rg_qualification r).
Lemma pw_registration id w :
  pw (registration id true) (λ r w', w' = w ∧ registry id w = Some r ∧ has_runner r = true) w.
Proof.
  intros r w' E. unfold registration in E. destruct (registry id w) as [r'|] eqn:Er; [|done].
  revert r w' E. apply pw_require. intros Hr. apply pw_ret. split_and!; [done..|].
  apply andb_true_iff in Hr as [_ Hr]. simpl in Hr. by destruct (has_runner r').
Qed.
Lemma quiet_registration id b : quiet (registration id b).
Proof.
  intros w. unfold registration. destruct (registry id w) as [r|]; [|done].
  apply (quiet_bind (require _ _)); [apply quiet_require|intros; apply quiet_ret].
Qed.
Lemma pw_bindings v w : pw (bindings v true) (λ b w', w' = w ∧ bound_now v b w) w.
Proof.
  unfold bindings. eapply pw_step; [apply pw_registration|]. intros r ? (->&Hr&Hrun). apply pw_require.
  intros Hc%eqs_true. apply pw_ret. split; [done|]. by exists r.
Qed.
Lemma quiet_bindings v b : quiet (bindings v b).
Proof.
  unfold bindings. apply quiet_bind; [apply quiet_registration|]. intros.
  apply quiet_bind; [apply quiet_require|intros; apply quiet_ret].
Qed.
Lemma pw_compatible v a w :
  pw (compatible v (Some a)) (λ c w', w' = w ∧ (c = true →
    ∃ b t, bound_now v b w ∧ canonicalJson (bindings_json b) = Some t ∧
      canonicalJson (bindings_json (vl_bindings a)) = Some t)) w.
Proof.
  unfold compatible. apply pw_try_quiet.
  - apply quiet_bind; [apply quiet_bindings|]. intros b. unfold same_json.
    repeat (apply quiet_bind; [apply quiet_or_refuse|intros]). apply quiet_ret.
  - eapply pw_step; [apply pw_bindings|]. intros b ? [-> Hb]. unfold same_json.
    apply pw_or_refuse. intros x Hx. apply pw_or_refuse. intros y Hy. apply pw_ret. split; [done|].
    intros ->%eqs_true. eauto.
  - intros _. by apply pw_ret.
Qed.

(** The evidence an activation asks for. *)
Record evidenced (v : RefinementVersion) (id hash : jsstr) (a : RefinementValidation) (w : World) : Prop := {
  ed_validated : vr_validatedAttemptId v = Some id;
  ed_latest : vr_latestAttemptId v = Some id;
  ed_found : attempt_found (w_db w) id a;
  ed_passed : vl_status a = VS_passed;
  ed_hash : vl_reportHash a = Some hash;
  ed_version : bi_versionId (vl_bindings a) = ev_versionId (vr_envelope v);
  ed_content : bi_versionHash (vl_bindings a) = vr_versionHash v;
  ed_current : ∃ b t, bound_now v b w ∧ canonicalJson (bindings_json b) = Some t ∧
    canonicalJson (bindings_json (vl_bindings a)) = Some t;
}.
Lemma pw_passed v id hash w :
  pw (passed v id hash) (λ a w', w' = w ∧ evidenced v id hash a w) w.
Proof.
  unfold passed. apply pw_require. intros [Hv Hl]%andb_true_iff. apply bool_decide_eq_true in Hv, Hl.
  eapply pw_step; [apply pw_attempt|]. intros a ? [-> Ha]. apply pw_require.
  intros [[[Hs Hh]%andb_true_iff Hi]%andb_true_iff Hc]%andb_true_iff.
  apply bool_decide_eq_true in Hs, Hh. apply eqs_true in Hi, Hc.
  eapply pw_step; [apply pw_compatible|]. intros c ? [-> Hcc]. apply pw_require. intros Ht.
  apply pw_ret. split; [done|]. by split; auto.
Qed.

(** *** Pins *)

Lemma pw_atomic {A} (m : M A) Q w : pw m Q w → pw (atomic m) Q w.
Proof. intros Hm. apply pw_try; [by apply pw_txn|]. intros [] w'; apply pw_throw. Qed.

(** What a pin that is still good names. *)
Record pinned (p : RefinementPin) (c : RefinementContent) (w : World) : Prop := {
  pn_scope : ∃ s, scope_found (w_db w) (pi_scopeKey p) s ∧ rc_generation (fst s) = pi_scopeGeneration p ∧
    rc_active_version_id (fst s) = Some (pi_versionId p);
  pn_version : ∃ v, version_found (w_db w) (pi_versionId p) v ∧ vr_versionHash (snd v) = pi_versionHash p ∧
    ev_content (vr_envelope (snd v)) = c;
}.
Lemma pw_readPin p w : pw (readPin p) (λ c w', w' = w ∧ pinned p c w) w.
Proof.
  unfold readPin. eapply pw_step; [apply pw_scope|]. intros s ? [-> Hs]. apply pw_require.
  intros [Hg Ha]%andb_true_iff. apply Z.eqb_eq in Hg. apply bool_decide_eq_true in Ha.
  eapply pw_step; [apply pw_version|]. intros v ? [-> Hv]. apply pw_require. intros [[Hh _]%andb_true_iff _]%andb_true_iff.
  apply eqs_true in Hh. eapply pw_step; [apply pw_attempt|]. intros a ? [-> _].
  eapply pw_step; [apply pw_passed|]. intros ? ? [-> _]. apply pw_ret. split; [done|]. split; [|by exists v].
  exists s. destruct Hs as (?&Es&?). rewrite Es in Hg, Ha. done.
Qed.
Lemma pw_assertPin p w : pw (assertPin p) (λ c w', w' = w ∧ pinned p c w) w.
Proof. unfold assertPin. apply pw_require. intros _. apply pw_atomic, pw_readPin. Qed.

(** A version found again later is the same artifact. *)
Lemma found_later d d' n id v v' :
  history d d' n → version_found d id v → version_found d' id v' →
  same_artifact (fst v) (fst v') ∧ vr_envelope (snd v) = vr_envelope (snd v').
Proof.
  intros [Hh _] [Hf Hd] [Hf' Hd']. assert (∀ r r', same_artifact r r' → is_version id r' = is_version id r) as Hp.
  { unfold same_artifact, artifact, is_version. intros r r' E. by simplify_eq; f_equal. }
  destruct (evolves_find same_artifact _ _ _ _ Hp Hh Hf) as (r&Hr&Hs). rewrite Hf' in Hr. injection Hr as Er.
  rewrite Er. split; [done|]. pose proof (dc_envelope _ Hd) as He. pose proof (dc_envelope _ Hd') as He'.
  unfold same_artifact, artifact in Hs. rewrite <- Er in Hs. congruence.
Qed.
Lemma found_id d id v : version_found d id v → rv_id (fst v) = id ∧ ev_versionId (vr_envelope (snd v)) = id.
Proof.
  intros [Hf Hd]. apply List.find_some in Hf as [_ Hf%eqs_true]. destruct (dc_sound _ Hd) as (t&Ht).
  destruct (sound_fields _ _ _ _ _ Ht) as (->&_). done.
Qed.
End reads.

(** C21: A pin denotes one content: what [assertPin] returns is the content of an
    envelope that names the pin's version and whose canonical JSON has the pin's
    hash, and a later [assertPin] of the same pin, whatever the manager did in
    between, either fails or returns the same content. *)
Theorem pin_denotes_content `{Platform} `{!RefinementManagerDependencies} pin c w w'
  `{!∀ d, RefineAwaits (history d)} :
  assertPin pin w = (Ok c, w') →
  (∃ e t, ev_content e = c ∧ ev_versionId e = pi_versionId pin ∧
     canonicalJson (envelope_json e) = Some t ∧ sha256_hex (utf8 t) = pi_versionHash pin) ∧
  ∀ ops c' w'', assertPin pin (run_refinements ops w') = (Ok c', w'') → c' = c.
Proof.
  intros E. destruct (pw_assertPin _ _ _ _ E) as [-> [_ (v&Hv&Hh&<-)]]. split.
  - destruct (dc_hash _ (proj2 Hv)) as (t&Ht&Eh). exists (vr_envelope (snd v)), t. split_and!; [done| |done|].
    + apply (found_id _ _ _ Hv).
    + rewrite <- Hh, (dc_view _ (proj2 Hv)). done.
  - intros ops c' w'' E'. destruct (pw_assertPin _ _ _ _ E') as [_ [_ (v'&Hv'&_&<-)]].
    assert (history (w_db w) (w_db w) (w_uuids w)) as Hw by (split; apply evolves_refl; apply _).
    destruct (runs_keep (history (w_db w)) ops w Hw) as [Hh' _].
    destruct (found_later _ _ _ _ _ _ Hh' Hv Hv') as [_ Ee]. by rewrite Ee.
Qed.
