(* ===== verification/RefinementStates.v ===== *)
(** * Which refinement is active

    The version a scope points at is the one version of that scope that is active,
    whatever sequence of operations ran: each transaction of the manager keeps the
    two tables in step, and moves the generation of a scope whenever it moves the
    pointer. *)

From S2P Require Export RefinementReads.
Open Scope Z_scope.

Lemma elem_of_update_where {R} (p : R → bool) f rows (x : R) :
  x ∈ update_where p f rows ↔ ∃ r, r ∈ rows ∧ x = if p r then f r else r.
Proof. unfold update_where. rewrite list_elem_of_fmap. split; intros (r&?&?); by exists r. Qed.

(** ** The invariant *)

(** A scope changes its pointer only with its generation. *)
Definition scope_step (s s' : RefinementScopesRow) : Prop :=
  rc_scope_key s = rc_scope_key s' ∧ (s = s' ∨ rc_generation s < rc_generation s').
#[export] Instance scope_step_pre : PreOrder scope_step.
Proof.
  split; [split; auto|]. intros s s' s'' [E1 H1] [E2 H2]. split; [congruence|].
  destruct H1 as [->|?], H2 as [->|?]; auto. right. lia.
Qed.

Definition points_at (s : RefinementScopesRow) (r : RefinementVersionsRow) : Prop :=
  rc_scope_key s = rv_scope_key r ∧ rc_active_version_id s = Some (rv_id r).
Record in_step (d : Db) : Prop := {
  is_versions : NoDup (rv_id <$> refinement_versions d);
  is_scopes : NoDup (rc_scope_key <$> refinement_scopes d);
  is_attempts : NoDup (va_id <$> refinement_validations d);
  is_pointed r : r ∈ refinement_versions d → is_active r = true → ∃ s, s ∈ refinement_scopes d ∧ points_at s r;
  is_pointing s id : s ∈ refinement_scopes d → rc_active_version_id s = Some id →
    ∃ r, r ∈ refinement_versions d ∧ is_active r = true ∧ points_at s r;
  (** the attempt a version was validated by has ended *)
  is_settled r a : r ∈ refinement_versions d → rv_validated_attempt_id r = Some a →
    ∃ v, v ∈ refinement_validations d ∧ va_id v = a ∧ is_running v = false;
}.

(** ** What a write does to it *)

Section writes.
Implicit Types (d : Db) (r row : RefinementVersionsRow) (s : RefinementScopesRow).

Definition settled_in d (a : option jsstr) : Prop :=
  ∀ x, a = Some x → ∃ v, v ∈ refinement_validations d ∧ va_id v = x ∧ is_running v = false.

(** What the update of a version makes of the rows. *)
Definition set_version row d : Db :=
  set_refinement_versions (update_where (is_version (rv_id row)) (with_state_of row)) d.

Lemma in_set_version row d x :
  x ∈ refinement_versions (set_version row d) →
  ∃ r, r ∈ refinement_versions d ∧
    (rv_id r = rv_id row ∧ x = with_state_of row r ∨ rv_id r ≠ rv_id row ∧ x = r).
Proof.
  simpl. rewrite elem_of_update_where. intros (r&Hr&->). exists r. split; [done|].
  unfold is_version. destruct (eqs (rv_id r) (rv_id row)) eqn:E; [left; by apply eqs_true in E|right].
  split; [|done]. intros Heq. apply eqs_true in Heq. congruence.
Qed.
Lemma set_version_in row d r :
  r ∈ refinement_versions d →
  (if eqs (rv_id r) (rv_id row) then with_state_of row r else r) ∈ refinement_versions (set_version row d).
Proof. intros Hr. simpl. rewrite elem_of_update_where. by exists r. Qed.
Lemma set_version_ids row d : rv_id <$> refinement_versions (set_version row d) = rv_id <$> refinement_versions d.
Proof. by apply update_where_ids. Qed.

(** A version that is not active changes its state to one that is not either. *)
Lemma step_version row d r :
  in_step d → r ∈ refinement_versions d → rv_id r = rv_id row → is_active r = false → is_active row = false →
  settled_in d (rv_validated_attempt_id row) → in_step (set_version row d).
Proof.
  intros [Hv Hs Hn Hp Hq Ht] Hr Hid Hna Hnr Hset. split; [by rewrite set_version_ids|done|done|..].
  - intros x (r'&Hr'&[[E ->]|[E ->]])%in_set_version Hx; [by unfold is_active in *; simpl in *; congruence|].
    apply Hp; auto.
  - intros s id Hs' Ha. destruct (Hq s id Hs' Ha) as (r'&Hr'&Hact&Hpt).
    exists r'. split_and!; [|done..]. pose proof (set_version_in row d r' Hr') as Hin.
    destruct (eqs (rv_id r') (rv_id row)) eqn:E; [|done]. apply eqs_true in E.
    assert (r' = r) as -> by (eapply nodup_key; [exact Hv|done..|congruence]). congruence.
  - intros x a (r'&Hr'&[[E ->]|[E ->]])%in_set_version Hx; [by apply Hset|by eapply Ht].
Qed.

Lemma step_insert row d :
  in_step d → version_clash row d = false → is_active row = false → rv_validated_attempt_id row = None →
  in_step (set_refinement_versions (λ rows, rows ++ [row]) d).
Proof.
  intros [Hv Hs Hn Hp Hq Ht] Hc Hna Hval. split; simpl; [|done|done|..].
  - rewrite fmap_app. apply NoDup_app. split_and!; [done| |apply NoDup_singleton].
    intros x (r&->&Hr)%list_elem_of_fmap Hx%list_elem_of_singleton. apply not_true_iff_false in Hc. apply Hc.
    unfold version_clash. apply existsb_exists. exists r. split; [by apply list_elem_of_In|].
    unfold is_version. apply eqs_true in Hx. by rewrite Hx.
  - intros r [Hr|Hr%list_elem_of_singleton]%elem_of_app Ha; [by apply Hp|congruence].
  - intros s id Hs' Ha. destruct (Hq s id Hs' Ha) as (r&Hr&?). exists r. split; [|done]. apply elem_of_app. by left.
  - intros r a [Hr|Hr%list_elem_of_singleton]%elem_of_app Hx; [by eapply Ht|congruence].
Qed.

(** What the update of a scope makes of the rows. *)
Definition put_scope s (r : RefinementScopesRow) : RefinementScopesRow :=
  mkScopeRow (rc_scope_key r) (rc_active_version_id s) (rc_generation s) (rc_last_transition_audit_id s)
    (rc_last_transition_json s).
Definition set_scope s d : Db := set_refinement_scopes (update_where (is_scope (rc_scope_key s)) (put_scope s)) d.
Lemma in_set_scope s d x :
  x ∈ refinement_scopes (set_scope s d) →
  x = s ∨ rc_scope_key x ≠ rc_scope_key s ∧ x ∈ refinement_scopes d.
Proof.
  simpl. rewrite elem_of_update_where. intros (r&Hr&->). unfold is_scope.
  destruct (eqs (rc_scope_key r) (rc_scope_key s)) eqn:E; [left|right].
  - apply eqs_true in E. unfold put_scope. rewrite E. by destruct s.
  - split; [|done]. intros Heq. apply eqs_true in Heq. congruence.
Qed.
Lemma set_scope_in s d x :
  x ∈ refinement_scopes d →
  (if eqs (rc_scope_key x) (rc_scope_key s) then s else x) ∈ refinement_scopes (set_scope s d).
Proof.
  intros Hx. simpl. rewrite elem_of_update_where. exists x. split; [done|]. unfold is_scope.
  destruct (eqs (rc_scope_key x) (rc_scope_key s)) eqn:E; [|done]. apply eqs_true in E.
  unfold put_scope. rewrite E. by destruct s.
Qed.

(** One scope changes hands: its versions are now active as its new pointer says,
    and those of the other scopes as before. *)
Lemma step_switch d vs s s' :
  in_step d → s ∈ refinement_scopes d → rc_scope_key s' = rc_scope_key s →
  rv_id <$> vs = rv_id <$> refinement_versions d →
  (∀ x, x ∈ vs → settled_in d (rv_validated_attempt_id x) ∧
     ∃ r, r ∈ refinement_versions d ∧ rv_id r = rv_id x ∧ rv_scope_key r = rv_scope_key x ∧
       (rv_scope_key x ≠ rc_scope_key s → is_active x = is_active r)) →
  (∀ x, x ∈ vs → rv_scope_key x = rc_scope_key s →
     is_active x = true ↔ rc_active_version_id s' = Some (rv_id x)) →
  (∀ id, rc_active_version_id s' = Some id → ∃ x, x ∈ vs ∧ rv_id x = id ∧ rv_scope_key x = rc_scope_key s) →
  in_step (set_scope s' (set_refinement_versions (λ _, vs) d)).
Proof.
  intros [Hv Hs Hn Hp Hq Ht] Hin Hk Hids Hrows Hact Hnew. split; [by simpl; rewrite Hids| |done|..].
  - simpl. by rewrite update_where_ids.
  - intros x Hx Ha. destruct (Hrows x Hx) as (_&r&Hr&Ei&Ek&Hsame).
    destruct (decide (rv_scope_key x = rc_scope_key s)) as [E|E].
    + exists s'. pose proof (set_scope_in s' (set_refinement_versions (λ _, vs) d) s Hin) as H'.
      rewrite Hk, eqs_refl in H'. split; [exact H'|]. split; [congruence|]. by apply Hact.
    + destruct (Hp r Hr) as (s2&Hs2&Hk2&Hp2); [by rewrite <- Hsame|]. exists s2.
      pose proof (set_scope_in s' (set_refinement_versions (λ _, vs) d) s2 Hs2) as H'.
      destruct (eqs (rc_scope_key s2) (rc_scope_key s')) eqn:E2; [apply eqs_true in E2; congruence|].
      split; [exact H'|]. split; congruence.
  - intros s2 id [->|[Hne Hs2]]%in_set_scope Ha.
    + destruct (Hnew id Ha) as (x&Hx&<-&Ek). exists x. split_and!; [done|by apply Hact|]. split; congruence.
    + destruct (Hq s2 id Hs2 Ha) as (r&Hr&Hra&Hrk&Hrp). assert (rv_id r ∈ rv_id <$> vs) as Hri.
      { rewrite Hids. by apply list_elem_of_fmap_2. }
      apply list_elem_of_fmap in Hri as (x&Ei&Hx). destruct (Hrows x Hx) as (_&r'&Hr'&Ei'&Ek'&Hsame).
      assert (r' = r) as -> by (eapply nodup_key; [exact Hv|done..|congruence]).
      exists x. split; [done|]. split; [rewrite Hsame; [done|congruence]|]. split; congruence.
  - intros x a Hx Ha. by apply (proj1 (Hrows x Hx)).
Qed.

(** A version of the scope is updated, the one that was active having been
    disabled: [prior] is that version's row, if the scope had one. *)
Definition replace_prior (prior : option RefinementVersionsRow) d : Db :=
  match prior with Some p => set_version p d | None => d end.
Lemma in_replaced prior d x :
  x ∈ refinement_versions (replace_prior prior d) →
  ∃ r, r ∈ refinement_versions d ∧ rv_id r = rv_id x ∧ rv_scope_key r = rv_scope_key x ∧
    (match prior with Some p => rv_id r = rv_id p ∧ x = with_state_of p r | None => False end ∨
     (∀ p, prior = Some p → rv_id r ≠ rv_id p) ∧ x = r).
Proof.
  destruct prior as [p|]; simpl; [|intros Hx; exists x; naive_solver].
  intros (r&Hr&[[E ->]|[E ->]])%in_set_version; exists r; split_and!; try done; [by left|right].
  split; [|done]. by intros p' [= <-].
Qed.
Definition activated row prior d : list RefinementVersionsRow :=
  refinement_versions (set_version row (replace_prior prior d)).
Lemma activated_eq row prior d :
  set_version row (replace_prior prior d) = set_refinement_versions (λ _, activated row prior d) d.
Proof. by destruct prior. Qed.
Lemma activated_ids row prior d : rv_id <$> activated row prior d = rv_id <$> refinement_versions d.
Proof. unfold activated. rewrite set_version_ids. destruct prior; [apply set_version_ids|done]. Qed.
Lemma in_activated row prior d r x :
  NoDup (rv_id <$> refinement_versions d) → r ∈ refinement_versions d → rv_id r = rv_id row →
  x ∈ activated row prior d →
  ∃ y, y ∈ refinement_versions d ∧ rv_id y = rv_id x ∧ rv_scope_key y = rv_scope_key x ∧
    (y = r ∧ x = with_state_of row x ∨
     rv_id y ≠ rv_id row ∧ (∃ p, prior = Some p ∧ rv_id y = rv_id p ∧ x = with_state_of p y) ∨
     rv_id y ≠ rv_id row ∧ (∀ p, prior = Some p → rv_id y ≠ rv_id p) ∧ x = y).
Proof.
  intros Hv Hr Hid (z&Hz&Hxz)%in_set_version. destruct (in_replaced _ _ _ Hz) as (y&Hy&Ei&Ek&Hc).
  exists y. split; [done|]. destruct Hxz as [[E ->]|[E ->]]; simpl.
  - split_and!; [done..|]. left. split; [|done]. eapply nodup_key; [exact Hv|done..|congruence].
  - split_and!; [done..|]. right.
    assert (rv_id y ≠ rv_id row) as Hne by congruence. destruct Hc as [Hc|[Hnp ->]]; [left|by right].
    destruct prior as [p|]; [|done]. destruct Hc. split; [done|]. by exists p.
Qed.
Lemma step_activate d r row prior s s' :
  in_step d → s ∈ refinement_scopes d → rc_scope_key s' = rc_scope_key s →
  r ∈ refinement_versions d → rv_id r = rv_id row → rv_scope_key r = rc_scope_key s →
  rc_active_version_id s = rv_id <$> prior →
  (∀ p, prior = Some p → is_active p = false ∧ settled_in d (rv_validated_attempt_id p)) →
  settled_in d (rv_validated_attempt_id row) → is_active row = true → rc_active_version_id s' = Some (rv_id row) →
  in_step (set_scope s' (set_version row (replace_prior prior d))).
Proof.
  intros Hd Hs Hk Hr Hid Hrk Hpr Hprior Hset Hrow Hs'. pose proof Hd as [Hv Hsk Hn Hp Hq Ht].
  pose proof (λ x, in_activated row prior d r x Hv Hr Hid) as Hx.
  rewrite activated_eq. apply (step_switch d _ s s'); [done..|apply activated_ids| | |].
  - intros x Hin. destruct (Hx x Hin) as (y&Hy&Ei&Ek&Hc). split.
    + destruct Hc as [[-> ->]|[(_&p&Ep&_&->)|(_&_&->)]]; [exact Hset|by apply (Hprior p)|intros a; by apply Ht].
    + exists y. split_and!; [done..|]. intros Hne. destruct Hc as [[-> _]|[(_&p&->&Eyp&->)|(_&_&->)]]; [congruence| |done].
      destruct (Hq s _ Hs Hpr) as (y2&Hy2&_&Hk3&Hp3). simpl in Hpr.
      assert (y2 = y) as -> by (eapply nodup_key; [exact Hv|done..|congruence]). simpl in Hne. congruence.
  - intros x Hin Hxk. rewrite Hs'. destruct (Hx x Hin) as (y&Hy&Ei&Ek&Hc).
    destruct Hc as [[-> ->]|[(Hne&p&->&Eyp&->)|(Hne&Hnp&->)]].
    + unfold is_active in *. simpl. split; [congruence|done].
    + destruct (Hprior p eq_refl) as [Hna _]. unfold is_active in *. simpl in *. rewrite Hna. split; [done|congruence].
    + split; [|congruence]. intros Ha. destruct (Hp y Hy Ha) as (s2&Hs2&Hk2&Hp2). exfalso.
      assert (s2 = s) as -> by (eapply nodup_key; [exact Hsk|done..|congruence]).
      rewrite Hpr in Hp2. destruct prior as [p|]; [|done]. simplify_eq/=. by apply (Hnp p eq_refl).
  - rewrite Hs'. intros id [= <-]. assert (rv_id r ∈ rv_id <$> activated row prior d) as Hi.
    { rewrite activated_ids. by apply list_elem_of_fmap_2. }
    apply list_elem_of_fmap in Hi as (x&Ei&Hxin). exists x. split_and!; [done|congruence|].
    destruct (Hx x Hxin) as (y&Hy&Ei'&Ek&_). assert (y = r) as -> by (eapply nodup_key; [exact Hv|done..|congruence]).
    congruence.
Qed.

(** A version is disabled; the scope points at it no more. *)
Lemma step_disable d r row s s' :
  in_step d → s ∈ refinement_scopes d → rc_scope_key s' = rc_scope_key s →
  r ∈ refinement_versions d → rv_id r = rv_id row → rv_scope_key r = rc_scope_key s →
  settled_in d (rv_validated_attempt_id row) → is_active row = false →
  rc_active_version_id s' =
    (if bool_decide (rc_active_version_id s = Some (rv_id row)) then None else rc_active_version_id s) →
  in_step (set_scope s' (set_version row d)).
Proof.
  intros Hd Hs Hk Hr Hid Hrk Hset Hrow Hs'. pose proof Hd as [Hv Hsk Hn Hp Hq Ht].
  change (set_version row d) with (set_refinement_versions (λ _, refinement_versions (set_version row d)) d).
  apply (step_switch d _ s s'); [done..|apply set_version_ids| | |].
  - intros x (y&Hy&[[E ->]|[E ->]])%in_set_version; (split; [|exists y; split_and!; try done]).
    + exact Hset.
    + intros Hne. assert (y = r) as -> by (eapply nodup_key; [exact Hv|done..|congruence]). simpl in Hne. congruence.
    + intros a. by apply Ht.
  - intros x (y&Hy&[[E ->]|[E ->]])%in_set_version Hxk; rewrite Hs'.
    + unfold is_active in *. simpl. rewrite Hrow. split; [done|]. rewrite E. case_bool_decide; [done|congruence].
    + case_bool_decide as Hb.
      * split; [|done]. intros Ha. destruct (Hp y Hy Ha) as (s2&Hs2&Hk2&Hp2).
        assert (s2 = s) as -> by (eapply nodup_key; [exact Hsk|done..|congruence]). congruence.
      * split; intros Ha.
        -- destruct (Hp y Hy Ha) as (s2&Hs2&Hk2&Hp2).
           assert (s2 = s) as -> by (eapply nodup_key; [exact Hsk|done..|congruence]). done.
        -- destruct (Hq s _ Hs Ha) as (y2&Hy2&?&_&Hp3).
           assert (y2 = y) as -> by (eapply nodup_key; [exact Hv|done..|congruence]). done.
  - rewrite Hs'. intros id Ha. case_bool_decide as Hb; [done|]. destruct (Hq s id Hs Ha) as (y&Hy&?&Hk2&Hp2).
    exists y. split_and!; [|congruence|congruence]. simpl. rewrite elem_of_update_where. exists y. split; [done|].
    unfold is_version. destruct (eqs (rv_id y) (rv_id row)) eqn:E; [apply eqs_true in E; congruence|done].
Qed.

(** The tables of the attempts and the missing row of a scope. *)
Lemma step_scope_row key d :
  in_step d → in_step (set_refinement_scopes (λ rows,
    if existsb (is_scope key) rows then rows else rows ++ [mkScopeRow key None 0 None None]) d).
Proof.
  intros [Hv Hs Hn Hp Hq Ht]. split; simpl; [done| |done|..|done].
  - destruct (existsb _ _) eqn:E; [done|]. rewrite fmap_app. apply NoDup_app. split_and!; [done| |apply NoDup_singleton].
    intros x (s&->&Hs')%list_elem_of_fmap Hx%list_elem_of_singleton. apply not_true_iff_false in E. apply E.
    apply existsb_exists. exists s. split; [by apply list_elem_of_In|]. by apply eqs_true.
  - intros r Hr Ha. destruct (Hp r Hr Ha) as (s&Hs'&?). exists s. split; [|done].
    destruct (existsb _ _); [done|]. apply elem_of_app. by left.
  - intros s id Hs' Ha. apply (Hq s id); [|done]. destruct (existsb _ _); [done|].
    apply elem_of_app in Hs' as [?|Hs'%list_elem_of_singleton]; [done|by subst].
Qed.
Lemma step_attempts f d :
  in_step d → NoDup (va_id <$> f (refinement_validations d)) →
  (∀ v, v ∈ refinement_validations d → is_running v = false → v ∈ f (refinement_validations d)) →
  in_step (set_refinement_validations f d).
Proof.
  intros [Hv Hs Hn Hp Hq Ht] Hn' Hf. split; simpl; [done..|]. intros r a Hr Ha. destruct (Ht r a Hr Ha) as (v&?&?&?).
  exists v. auto.
Qed.

Lemma step_attempt att d :
  in_step d → attempt_clash att d = false → in_step (set_refinement_validations (λ rows, rows ++ [att]) d).
Proof.
  intros Hd Hc. apply step_attempts; [done| |].
  - rewrite fmap_app. apply NoDup_app. split_and!; [apply Hd| |apply NoDup_singleton].
    intros x (v&->&Hv)%list_elem_of_fmap Hx%list_elem_of_singleton. apply not_true_iff_false in Hc. apply Hc.
    unfold attempt_clash. apply existsb_exists. exists v. split; [by apply list_elem_of_In|].
    unfold is_attempt. apply eqs_true in Hx. by rewrite Hx.
  - intros v Hv _. apply elem_of_app. by left.
Qed.
Definition finish_attempt att d : Db :=
  set_refinement_validations (update_where (λ x, is_attempt (va_id att) x && is_running x) (with_result_of att)) d.
Lemma step_finish att d : in_step d → in_step (finish_attempt att d).
Proof.
  intros Hd. apply step_attempts; [done|rewrite update_where_ids; [apply Hd|done]|].
  intros v Hv Hr. apply elem_of_update_where. exists v. split; [done|]. by rewrite Hr, andb_false_r.
Qed.
(** The attempt is no longer running then. *)
Lemma finished_settles att d a :
  va_id att = a → is_running att = false → existsb (λ x, is_attempt (va_id att) x && is_running x) (refinement_validations d) = true →
  settled_in (finish_attempt att d) (Some a).
Proof.
  intros <- Hr (v&Hv%list_elem_of_In&Hp)%existsb_exists x [= <-]. exists (with_result_of att v).
  split_and!; [|apply andb_true_iff in Hp as [Hp _]; by apply eqs_true in Hp|done].
  simpl. apply elem_of_update_where. exists v. by rewrite Hp.
Qed.
End writes.
