(* ===== verification/RefinementActive.v ===== *)
(** * One active version per scope

    The transactions of the manager, one by one, against the invariant of
    [RefinementStates]. *)

From S2P Require Export RefinementStates.
Open Scope Z_scope.

(** ** Transactions *)

(** An invariant that a body re-establishes where it returns survives the
    transaction: a throw restores the tables. *)
Lemma keeps_atomic_pw (J : Db → nat → Prop) `{!Supply J} {A} (m : M A) :
  keeps (λ _ _, True) m →
  (∀ w, J (w_db w) (w_uuids w) → pw m (λ _ w', J (w_db w') (w_uuids w')) w) → keeps J (atomic m).
Proof.
  intros Ht Hm w Hw. destruct (Ht w I) as [_ Hmv]. specialize (Hm w Hw).
  unfold atomic, try_catch, transactionSync. destruct (m w) as [[a|e] w'] eqn:E; simpl in *; [split; [by eapply Hm|done]|].
  assert (J (w_db w) (w_uuids w')) by (eapply supply; [|exact Hw]; apply Hmv).
  assert (moved w (with_db (λ _, w_db w) w')) by (destruct Hmv; by split).
  by destruct e.
Qed.

(** The three tables of the manager. *)
Definition tables (d : Db) := (refinement_versions d, refinement_validations d, refinement_scopes d).
Definition same_tables (d0 d : Db) (_ : nat) : Prop := tables d = tables d0.
(** The scopes have moved on from those of [d0], and the tables are in step. *)
Definition linked (d0 d : Db) (_ : nat) : Prop :=
  in_step d ∧ evolves scope_step (refinement_scopes d0) (refinement_scopes d).

#[export] Instance linked_supply d0 : Supply (linked d0).
Proof. by intros d n m. Qed.
#[export] Instance same_tables_supply d0 : Supply (same_tables d0).
Proof. by intros d n m. Qed.
Lemma in_step_tables d d' : tables d' = tables d → in_step d → in_step d'.
Proof.
  unfold tables. intros [= E1 E2 E3] [Hv Hs Hn Hp Hq Ht].
  split; rewrite ?E1, ?E2, ?E3; [done..|]. intros r a Hr Ha. rewrite ?E1, ?E2 in *. by eapply Ht.
Qed.
Lemma linked_tables d0 d d' n m : tables d' = tables d → linked d0 d n → linked d0 d' m.
Proof.
  intros E [Hs He]. split; [by eapply in_step_tables|]. unfold tables in E. by injection E as _ _ ->.
Qed.

Section active.
Context `{Platform} `{!PlatformLaws _} `{!RefinementManagerDependencies}.
Implicit Types (w : World) (d : Db).

#[export] Instance any_refine_frame : RefineFrame (λ _ _, True).
Proof. split; [by intros d n m|intros; by apply keeps_insertRow_frame|done..]. Qed.

(** *** The steps of a body *)

Lemma pw_keeps J {A} (m : M A) w :
  keeps J m → J (w_db w) (w_uuids w) → pw m (λ _ w', J (w_db w') (w_uuids w')) w.
Proof. intros Hm Hw a w' E. destruct (Hm w Hw) as [H1 _]. by rewrite E in H1. Qed.
(** [id] is the entry that records [action] on a version of scope [key], next on
    the log. *)
Definition logged (action : option RefinementAction) (key id : jsstr) (w w' : World) : Prop :=
  chain_inv (w_db w) (w_uuids w) → chain_inv (w_db w') (w_uuids w') ∧
  ∃ row, audit_log (w_db w') = audit_log (w_db w) ++ [row] ∧ h_id row = id ∧
    h_verb row = wellFormed (audit_verb action) ∧ h_noun row = wellFormed key.
Lemma pw_emit action v md o w :
  pw (emit action v md o)
     (λ id w', tables (w_db w') = tables (w_db w) ∧ logged action (vr_scopeKey v) id w w') w.
Proof.
  intros id w' E. split.
  - assert (keeps (same_tables (w_db w)) (emit action v md o)) as Hk.
    { unfold emit, insertAuditEntryInTxn, refuse. keeps_tac. apply keeps_insertRow_frame; [apply _|]. by intros. }
    by apply (pw_keeps _ _ w Hk eq_refl _ _ E).
  - intros Hc. revert id w' E. unfold emit. apply pw_bind. intros t w1 E1. unfold nowISO, now, mbind, M_bind, mret, M_ret in E1.
    simplify_eq/=. apply pw_bind. set (w1 := mkWorld _ _ _ _ _). set (params := mkParams _ _ _ _ _ _ _ _ _ _ _ _ _ _ _ _).
    destruct (insertRow_spec params None w1 Hc eq_refl) as (row&r&w2&E2&Hw). unfold insertAuditEntryInTxn. intros r' w' E'.
    rewrite E2 in E'. simplify_eq. pose proof (written_inv _ _ _ _ _ _ Hw) as Hi.
    pose proof (written_db _ _ _ _ _ _ Hw) as Hdb. destruct (written_fields _ _ _ _ _ _ Hw) as (?&?&?&?&?&Er&_).
    rewrite (written_result _ _ _ _ _ _ Hw). simpl ae_id. destruct (h_id row) as [|c l] eqn:Eid; [apply pw_throw|].
    apply pw_ret. split; [exact Hi|]. exists row. rewrite Hdb, Eid. split_and!; [done..|by rewrite Er|by rewrite Er].
Qed.
Lemma pw_now {B} (k : jsstr → M B) Q w :
  (∀ t w', w_db w' = w_db w → w_uuids w' = w_uuids w → pw (k t) Q w') → pw (nowISO ≫= k) Q w.
Proof.
  intros Hk. eapply pw_step with (P := λ _ w', w_db w' = w_db w ∧ w_uuids w' = w_uuids w); [|intros ? ? []; auto].
  intros a w' E. unfold nowISO, now, mbind, M_bind, mret, M_ret in E. by simplify_eq/=.
Qed.

(** What a transition leaves of the row it is given. *)
Definition transitioned (row row' : RefinementVersionsRow) (g : Z) (auditId : jsstr) (r : RefinementMutationResponse) : Prop :=
  row' = mkVersionRow (rv_id row) (rv_family_id row) (rv_revision row) (rv_parent_id row) (rv_scope_key row)
    (rv_version_hash row) (rv_proposal_request_hash row) (rv_envelope_json row) (rv_state row)
    (rv_latest_attempt_id row) (rv_validated_attempt_id row) (rv_approval_audit_id row) auditId
    (rv_last_transition_json row') (rv_created_at row) (rv_updated_at row') ∧
  r = mkMutation (rv_id row) (rv_version_hash row) (rv_state row) g auditId.
Lemma transitioned_place row row' g id r :
  transitioned row row' g id r →
  rv_id row' = rv_id row ∧ rv_state row' = rv_state row ∧ rv_validated_attempt_id row' = rv_validated_attempt_id row.
Proof. intros [E _]. by rewrite E. Qed.
Lemma pw_transition row g action h auditId w :
  pw (transition row g action h auditId)
     (λ tr w', w_db w' = w_db w ∧ w_uuids w' = w_uuids w ∧ transitioned row (fst tr) g auditId (snd tr)) w.
Proof.
  unfold transition. apply pw_now. intros t w1 E1 U1. cbv zeta. eapply pw_step with (P := λ _ w', w' = w1).
  - unfold canonical_column. apply pw_or_refuse. intros c _. by apply pw_ret.
  - intros c ? ->. by apply pw_ret.
Qed.
Lemma pw_update row w : pw (updateVersionState row) (λ _ w', w_db w' = set_version row (w_db w) ∧ w_uuids w' = w_uuids w) w.
Proof. unfold updateVersionState. apply pw_insert. by intros _. Qed.
Lemma pw_updateScope s w : pw (updateScope s) (λ _ w', w_db w' = set_scope s (w_db w) ∧ w_uuids w' = w_uuids w) w.
Proof. unfold updateScope. apply pw_insert. by intros _. Qed.

Lemma tables_set_version row d d' : tables d' = tables d → tables (set_version row d') = tables (set_version row d).
Proof. unfold tables. simpl. by intros [= -> -> ->]. Qed.
Lemma tables_set_scope s d d' : tables d' = tables d → tables (set_scope s d') = tables (set_scope s d).
Proof. unfold tables. simpl. by intros [= -> -> ->]. Qed.

(** The end of every transaction: the entry, the record, the row. *)
Lemma pw_move_end action v md o row g act h (Q : unit → World → Prop) w :
  (∀ id tr w', tables (w_db w') = tables (set_version (fst tr) (w_db w)) → logged action (vr_scopeKey v) id w w' →
     transitioned (row id) (fst tr) g id (snd tr) → Q tt w') →
  pw (id ← emit action v md o; tr ← transition (row id) g act h id; updateVersionState (fst tr)) Q w.
Proof.
  intros Hk. eapply pw_step; [apply pw_emit|]. intros id w1 [E1 Hl]. eapply pw_step; [apply pw_transition|].
  intros tr w2 (E2&U2&Ht). eapply pw_mono; [apply pw_update|]. intros [] w3 [E3 U3]. apply (Hk id tr); [| |done].
  - rewrite E3, E2. by apply tables_set_version.
  - intros Hc. specialize (Hl Hc). by rewrite E3, E2, U3, U2.
Qed.
Lemma pw_move {B} action v md o row g act h (k : jsstr → RefinementVersionsRow * RefinementMutationResponse → M B) Q w :
  (∀ id tr w', tables (w_db w') = tables (set_version (fst tr) (w_db w)) → logged action (vr_scopeKey v) id w w' →
     transitioned (row id) (fst tr) g id (snd tr) → pw (k id tr) Q w') →
  pw (id ← emit action v md o; tr ← transition (row id) g act h id; updateVersionState (fst tr) ;; k id tr) Q w.
Proof.
  intros Hk. eapply pw_step; [apply pw_emit|]. intros id w1 [E1 Hl]. eapply pw_step; [apply pw_transition|].
  intros tr w2 (E2&U2&Ht). eapply pw_step; [apply pw_update|]. intros _ w3 [E3 U3]. apply Hk; [| |done].
  - rewrite E3, E2. by apply tables_set_version.
  - intros Hc. specialize (Hl Hc). by rewrite E3, E2, U3, U2.
Qed.

(** *** Facts about the rows read *)

Lemma found_in d id v : version_found d id v → fst v ∈ refinement_versions d.
Proof. intros [Hf _]. apply list_elem_of_In. by apply List.find_some in Hf as [? _]. Qed.
Lemma scope_in d key s : scope_found d key s → fst s ∈ refinement_scopes d ∧ rc_scope_key (fst s) = key.
Proof.
  intros (Hf&_). apply List.find_some in Hf as [Hin Hk%eqs_true]. split; [by apply list_elem_of_In|done].
Qed.
Lemma found_state d id v : version_found d id v →
  vr_state (snd v) = rv_state (fst v) ∧ vr_scopeKey (snd v) = rv_scope_key (fst v) ∧
  vr_latestAttemptId (snd v) = rv_latest_attempt_id (fst v) ∧ vr_validatedAttemptId (snd v) = rv_validated_attempt_id (fst v) ∧
  vr_versionHash (snd v) = rv_version_hash (fst v).
Proof. intros [_ Hd]. by rewrite (dc_view _ Hd). Qed.
(** An active version was validated, by its latest attempt. *)
Lemma found_active d id v :
  version_found d id v → rv_state (fst v) = RS_active →
  ∃ a, rv_validated_attempt_id (fst v) = Some a ∧ rv_latest_attempt_id (fst v) = Some a.
Proof.
  intros [_ Hd] Hs. destruct (dc_sound _ Hd) as (t&Ht). unfold version_sound in Ht. rewrite Hs in Ht.
  apply andb_true_iff in Ht as [Ht Ha]. apply andb_true_iff in Ht as [Ht Hav]. apply andb_true_iff in Ht as [_ Hl].
  apply bool_decide_eq_true in Ha. destruct (rv_approval_audit_id (fst v)) as [p|]; [|done]. simpl in Hav.
  apply bool_decide_eq_true in Hav. destruct (rv_validated_attempt_id (fst v)) as [a|]; [|done]. simpl in Hl.
  apply bool_decide_eq_true in Hl. eauto.
Qed.
Lemma not_active r : rv_state r ≠ RS_active → is_active r = false.
Proof. intros Hs. unfold is_active. by apply bool_decide_eq_false. Qed.
Lemma settled_row d id v : in_step d → version_found d id v → settled_in d (rv_validated_attempt_id (fst v)).
Proof. intros Hd Hv a Ha. by eapply is_settled, Ha; [|eapply found_in]. Qed.

Lemma pw_bound id h w :
  pw (boundVersion id h) (λ v w', w' = w ∧ version_found (w_db w) id v ∧ vr_versionHash (snd v) = h) w.
Proof.
  unfold boundVersion. eapply pw_step; [apply pw_version|]. intros v ? [-> Hv]. apply pw_require.
  intros E%eqs_true. by apply pw_ret.
Qed.
Lemma pw_repeated row s act h w :
  pw (repeated row s act h) (λ r w', w' = w ∧ ∀ m, r = Some m →
    ∃ t, column read_transition transition_ok (rv_last_transition_json row) = Some t ∧ tn_action t = act ∧
      tn_requestHash t = h ∧ mu_scopeGeneration (tn_response t) = rc_generation s ∧ tn_response t = m) w.
Proof.
  unfold repeated. apply pw_column. intros t Ht. apply pw_ret. split; [done|]. intros m Hm. case_match eqn:E; [|done].
  injection Hm as <-. exists t. apply andb_true_iff in E as [[E1 E2]%andb_true_iff E3].
  apply bool_decide_eq_true in E1. apply eqs_true in E2. apply Z.eqb_eq in E3. done.
Qed.

(** ** The transactions *)

(** A version that was not active goes to a state that is not either. *)
Lemma linked_version d0 d d' id v row n m :
  linked d0 d n → version_found d id v → rv_state (fst v) ≠ RS_active →
  rv_id row = rv_id (fst v) → rv_state row ≠ RS_active → settled_in d (rv_validated_attempt_id row) →
  tables d' = tables (set_version row d) → linked d0 d' m.
Proof.
  intros [Hs He] Hv Hna Hid Hnr Hset Ht. eapply (linked_tables _ (set_version row d) _ n); [exact Ht|]. split; [|done].
  by eapply (step_version row d (fst v)); eauto using not_active, found_in.
Qed.

Lemma linked_approve d0 q : keeps (linked d0) (approve q).
Proof.
  unfold approve. do 2 (apply keeps_bind; [auto using keeps_require, keeps_owner|intros _]).
  apply keeps_atomic_pw; [apply _|keeps_tac|]. intros w Hw.
  eapply pw_step; [apply pw_bound|]. intros v ? (->&Hv&_). eapply pw_step; [apply pw_scope|]. intros s ? [-> Hs].
  apply pw_hash. intros h _. eapply pw_step; [apply pw_repeated|]. intros [m|] ? [-> _]; [by apply pw_ret|].
  apply pw_bind. unfold expectGeneration, require. case_match; [|apply pw_throw]. apply pw_ret.
  apply pw_require. intros Hst%bool_decide_eq_true. eapply pw_step; [apply pw_passed|]. intros a ? [-> _].
  apply pw_move. intros id tr w' Ht _ (Ei&Ep&Ea)%transitioned_place. apply pw_ret. destruct (found_state _ _ _ Hv) as (Es&_).
  apply (linked_version d0 (w_db w) _ (aq_versionId q) v (fst tr) (w_uuids w)); try done; [congruence|by rewrite Ep|].
  rewrite Ea. by eapply settled_row; [apply Hw|].
Qed.

(** *** Activation and rollback *)

(** The chain still holds and the log has only grown. *)
Definition log_on (w w' : World) : Prop :=
  chain_inv (w_db w) (w_uuids w) → chain_inv (w_db w') (w_uuids w') ∧ audit_log (w_db w) `prefix_of` audit_log (w_db w').
Lemma log_on_refl w : log_on w w.
Proof. by intros ?. Qed.
Lemma log_on_trans w1 w2 w3 : log_on w1 w2 → log_on w2 w3 → log_on w1 w3.
Proof. intros H1 H2 [Hc Hp]%H1. destruct (H2 Hc). split; [done|by etrans]. Qed.
Lemma logged_on act key id w w' : logged act key id w w' → log_on w w'.
Proof. intros Hl [Hc (row&E&_)]%Hl. split; [done|]. rewrite E. by apply prefix_app_r. Qed.

(** What makes a version eligible: its approval, or for a rollback a later version
    of its family that is active. *)
Definition eligible (q : switch_request) (v : RefinementVersionsRow * RefinementVersion)
    (s : RefinementScopesRow) (w : World) : Prop :=
  match q with
  | ActivateRequest _ approval => rv_state (fst v) = RS_approved ∧ rv_approval_audit_id (fst v) = Some approval
  | RollbackRequest _ _ =>
      rv_state (fst v) = RS_disabled ∧ rv_approval_audit_id (fst v) ≠ None ∧
      ∃ id cur, rc_active_version_id s = Some id ∧ version_found (w_db w) id cur ∧
        ev_familyId (vr_envelope (snd cur)) = ev_familyId (vr_envelope (snd v)) ∧
        ev_revision (vr_envelope (snd v)) < ev_revision (vr_envelope (snd cur))
  end.
Lemma pw_authorize q v s h w :
  pw (authorize_switch q v s h)
     (λ row w', tables (w_db w') = tables (w_db w) ∧ log_on w w' ∧ eligible q v s w ∧
        ∃ approval, row = set_state (rv_state (fst v)) (rv_latest_attempt_id (fst v))
          (rv_validated_attempt_id (fst v)) (Some approval) (fst v)) w.
Proof.
  unfold authorize_switch. destruct q as [r approval|r reason].
  - apply pw_require. intros [Hs Ha]%andb_true_iff. apply bool_decide_eq_true in Hs, Ha. apply pw_ret.
    split_and!; [done|apply log_on_refl|done|]. exists approval. unfold set_state. rewrite <- Ha. by destruct (fst v).
  - apply pw_require. intros [Hs Ha]%andb_true_iff. apply bool_decide_eq_true in Hs, Ha.
    apply pw_or_refuse. intros id Hid. eapply pw_step; [apply pw_version|]. intros cur ? [-> Hc].
    apply pw_require. intros [Hf Hr]%andb_true_iff. apply eqs_true in Hf. apply Z.ltb_lt in Hr.
    eapply pw_step; [apply pw_emit|]. intros audit w' [Ht Hl]. apply pw_ret.
    split_and!; [done|by eapply logged_on|split_and!; try done; by exists id, cur|by exists audit].
Qed.

Lemma pw_prior active replacement g h w :
  pw (disable_prior active replacement g h)
     (λ _ w', log_on w w' ∧ ∃ prior, active = rv_id <$> prior ∧ tables (w_db w') = tables (replace_prior prior (w_db w)) ∧
        ∀ p, prior = Some p → rv_state p = RS_disabled ∧
          ∃ v, version_found (w_db w) (rv_id p) v ∧ rv_validated_attempt_id p = rv_validated_attempt_id (fst v)) w.
Proof.
  unfold disable_prior. destruct active as [id|]; [|apply pw_ret; split; [apply log_on_refl|by exists None]].
  eapply pw_step; [apply pw_version|]. intros v ? [-> Hv]. apply (pw_move_end _ _ _ _ (λ _, become RS_disabled (fst v))).
  intros a tr w1 Ht Hl (Ei&Es&Ea)%transitioned_place. split; [by eapply logged_on|]. exists (Some (fst tr)).
  destruct (found_id _ _ _ Hv) as [Hid _]. simpl in *. rewrite Ei. split_and!; [congruence|done|].
  intros p [= <-]. split; [done|]. exists v. rewrite Ei. by rewrite Hid.
Qed.

(** What an activation or a rollback that was not answered from the record did. *)
Record switched (q : switch_request) (v : RefinementVersionsRow * RefinementVersion)
    (s : RefinementScopesRow) (w w' : World) (m : RefinementMutationResponse) : Prop := {
  sw_generation : rc_generation s = aq_expectedScopeGeneration (switch_base q);
  sw_evidence : ∃ a, evidenced (snd v) (aq_validationId (switch_base q)) (aq_reportHash (switch_base q)) a w;
  sw_eligible : eligible q v s w;
  sw_response : m = mkMutation (rv_id (fst v)) (rv_version_hash (fst v)) RS_active (rc_generation s + 1) (mu_auditEntryId m);
  sw_tables : ∃ row prior t,
    tables (w_db w') = tables (set_scope (moved_scope (Some (rv_id (fst v))) (rc_generation s + 1) (mu_auditEntryId m) t s)
      (set_version row (replace_prior prior (w_db w)))) ∧
    rv_id row = rv_id (fst v) ∧ rv_state row = RS_active ∧
    rv_validated_attempt_id row = rv_validated_attempt_id (fst v) ∧
    rc_active_version_id s = rv_id <$> prior ∧
    ∀ p, prior = Some p → rv_state p = RS_disabled ∧
      ∃ u, version_found (w_db w) (rv_id p) u ∧ rv_validated_attempt_id p = rv_validated_attempt_id (fst u);
  sw_log : ∃ w1 w2, log_on w w1 ∧ logged (Some (switch_action q)) (vr_scopeKey (snd v)) (mu_auditEntryId m) w1 w2 ∧
    audit_log (w_db w') = audit_log (w_db w2) ∧ w_uuids w' = w_uuids w2;
}.
Lemma tables_replace prior d d' : tables d' = tables d → tables (replace_prior prior d') = tables (replace_prior prior d).
Proof. intros E. destruct prior; [by apply tables_set_version|done]. Qed.
Lemma found_tables d d' id v :
  refinement_versions d' = refinement_versions d → version_found d' id v → version_found d id v.
Proof. unfold version_found. by intros ->. Qed.
Lemma tables_versions d d' : tables d' = tables d → refinement_versions d' = refinement_versions d.
Proof. by intros [= ? ? ?]. Qed.
Lemma pw_perform q v s h w :
  pw (perform_switch q v s h) (λ m w', switched q v s w w' m) w.
Proof.
  unfold perform_switch. cbv zeta. apply pw_bind. unfold expectGeneration, require at 1.
  destruct (Z.eqb_spec (rc_generation s) (aq_expectedScopeGeneration (switch_base q))) as [Hg|]; [|apply pw_throw].
  apply pw_ret. eapply pw_step; [apply pw_passed|]. intros a ? [-> Ha]. eapply pw_step; [apply pw_authorize|].
  intros row w1 (Ht1&Hl1&He&approval&->). apply pw_require. intros _. eapply pw_step; [apply pw_prior|].
  intros _ w2 [Hl2 (prior&Hpr&Ht2&Hp)]. apply (pw_move _ _ _ _ (λ _, become RS_active _)).
  intros id tr w3 Ht3 Hl3 Htr. eapply pw_step; [apply pw_updateScope|]. intros _ w4 [E4 U4]. apply pw_ret.
  pose proof (transitioned_place _ _ _ _ _ Htr) as (Ei&Es&Ea). destruct Htr as [Er Em]. rewrite Em.
  split; [done|by exists a|done|done|..].
  - exists (fst tr), prior, (rv_last_transition_json (fst tr)). rewrite E4. split_and!; [|done..|].
    + apply tables_set_scope. rewrite Ht3. apply tables_set_version. rewrite Ht2.
      by apply tables_replace.
    + intros p Hpp. destruct (Hp p Hpp) as (Hd&u&Hu&Hv). split; [done|]. exists u. split; [|done].
      by eapply found_tables, Hu; apply tables_versions.
  - exists w2, w3. split_and!; [by eapply log_on_trans|done|by rewrite E4|done].
Qed.

(** The scope moved on, with its generation. *)
Lemma scopes_moved d0 d s s' d' :
  in_step d → s ∈ refinement_scopes d → rc_scope_key s' = rc_scope_key s → rc_generation s < rc_generation s' →
  evolves scope_step (refinement_scopes d0) (refinement_scopes d) → refinement_scopes d' = refinement_scopes d →
  evolves scope_step (refinement_scopes d0) (refinement_scopes (set_scope s' d')).
Proof.
  intros Hd Hs Hk Hg (olds&new&Eq&HF) E. simpl. rewrite E, Eq.
  exists (update_where (is_scope (rc_scope_key s')) (put_scope s') olds), (update_where (is_scope (rc_scope_key s')) (put_scope s') new).
  split; [apply fmap_app|]. apply Forall2_fmap_r. apply Forall2_same_length_lookup. split; [by eapply Forall2_length|].
  intros i x y Hx Hy. pose proof (Forall2_lookup_lr _ _ _ _ _ _ HF Hx Hy) as Hxy. simpl.
  unfold is_scope. destruct (eqs (rc_scope_key y) (rc_scope_key s')) eqn:Ey; [|done]. apply eqs_true in Ey.
  assert (y = s) as ->.
  { eapply nodup_key; [apply (is_scopes _ Hd)| |done|congruence]. rewrite Eq. apply elem_of_app. left.
    by eapply list_elem_of_lookup_2. }
  etrans; [exact Hxy|]. split; [done|]. by right.
Qed.
Lemma linked_switched d0 q v s w w' m id :
  linked d0 (w_db w) (w_uuids w) → version_found (w_db w) id v → scope_found (w_db w) (vr_scopeKey (snd v)) s →
  switched q v (fst s) w w' m → linked d0 (w_db w') (w_uuids w').
Proof.
  intros [Hd He] Hv Hs [_ _ _ _ (row&prior&t&Ht&Ei&Es&Ea&Hpr&Hp) _]. destruct (scope_in _ _ _ Hs) as [Hin Hk].
  destruct (found_state _ _ _ Hv) as (_&Ek&_). eapply (linked_tables _ _ _ 0); [exact Ht|]. split.
  - apply (step_activate (w_db w) (fst v) row prior (fst s)); simpl; try done.
    + by eapply found_in.
    + by rewrite <- Ek.
    + intros p Hpp. destruct (Hp p Hpp) as (Hds&u&Hu&->). split; [apply not_active; congruence|by eapply settled_row].
    + rewrite Ea. by eapply settled_row.
    + unfold is_active. by rewrite Es.
    + by rewrite Ei.
  - eapply (scopes_moved d0 (w_db w) (fst s)); try done; [simpl; lia|by destruct prior].
Qed.
(** What a switch that returns did: it moved the scope, or answered from the record. *)
Definition switch_outcome (q : switch_request) (w : World) (m : RefinementMutationResponse) (w' : World) : Prop :=
  ∃ v s, version_found (w_db w) (aq_versionId (switch_base q)) v ∧
    vr_versionHash (snd v) = aq_versionHash (switch_base q) ∧ scope_found (w_db w) (vr_scopeKey (snd v)) s ∧
    (switched q v (fst s) w w' m ∨
     w' = w ∧ ∃ t h, digest_of (switch_json q) h ∧
       column read_transition transition_ok (rv_last_transition_json (fst v)) = Some t ∧
       tn_action t = switch_action q ∧ tn_requestHash t = h ∧
       mu_scopeGeneration (tn_response t) = rc_generation (fst s) ∧ tn_response t = m).
Lemma pw_switchVersion q w : pw (switchVersion q) (switch_outcome q w) w.
Proof.
  unfold switchVersion. eapply pw_step; [apply pw_bound|]. intros v ? (->&Hv&Hh). eapply pw_step; [apply pw_scope|].
  intros s ? [-> Hs]. apply pw_hash. intros h Hd. eapply pw_step; [apply pw_repeated|]. intros [m|] ? [-> Hr].
  - apply pw_ret. exists v, s. split_and!; [done..|]. right. split; [done|]. destruct (Hr m eq_refl) as (t&Hm). by exists t, h.
  - eapply pw_mono; [apply pw_perform|]. intros m w' Hm. exists v, s. split_and!; [done..|]. by left.
Qed.
Lemma pw_switch q w : pw (switch q) (switch_outcome q w) w.
Proof.
  unfold switch. apply pw_require. intros _. apply pw_require. intros _. apply pw_atomic, pw_switchVersion.
Qed.
Lemma linked_switch d0 q : keeps (linked d0) (switch q).
Proof.
  unfold switch. do 2 (apply keeps_bind; [auto using keeps_require, keeps_owner|intros _]).
  apply keeps_atomic_pw; [apply _|keeps_tac|]. intros w Hw. eapply pw_mono; [apply pw_switchVersion|].
  intros m w' (v&s&Hv&_&Hs&[Hm|[-> _]]); [by eapply linked_switched|done].
Qed.

(** *** Disabling *)

Lemma linked_disable d0 q : keeps (linked d0) (disable q).
Proof.
  unfold disable. do 2 (apply keeps_bind; [auto using keeps_require, keeps_owner|intros _]).
  apply keeps_atomic_pw; [apply _|unfold perform_disable; keeps_tac|]. intros w Hw.
  eapply pw_step; [apply pw_bound|]. intros v ? (->&Hv&_). eapply pw_step; [apply pw_scope|]. intros s ? [-> Hs].
  apply pw_hash. intros h _. eapply pw_step; [apply pw_repeated|]. intros [m|] ? [-> _]; [by apply pw_ret|].
  unfold perform_disable. cbv zeta. apply pw_bind. unfold expectGeneration, require at 1. case_match; [|apply pw_throw].
  apply pw_ret. apply pw_require. intros _. apply pw_require. intros _. apply pw_hash. intros rh _.
  apply (pw_move _ _ _ _ (λ _, become RS_disabled (fst v))). intros id tr w1 Ht _ (Ei&Es&Ea)%transitioned_place.
  eapply pw_step; [apply pw_updateScope|]. intros _ w2 [E2 _]. apply pw_ret.
  destruct (scope_in _ _ _ Hs) as [Hin Hk], Hw as [Hd He], (found_state _ _ _ Hv) as (_&Ek&_). simpl in Ei, Es, Ea.
  rewrite E2. eapply (linked_tables _ (set_scope _ (set_version (fst tr) (w_db w))) _ 0); [by apply tables_set_scope|].
  split.
  - apply (step_disable (w_db w) (fst v) (fst tr) (fst s)); simpl; try done.
    + by eapply found_in.
    + by rewrite <- Ek.
    + rewrite Ea. by eapply settled_row.
    + apply not_active. by rewrite Es.
    + by rewrite Ei.
  - eapply (scopes_moved d0 (w_db w) (fst s)); try done. simpl. lia.
Qed.

(** *** Validation *)

Lemma pw_completed a raw f w :
  pw (completed_receipt a raw f)
     (λ r w', w_db w' = w_db w ∧ vl_id (fst r) = vl_id a ∧ vl_status (fst r) ≠ VS_running) w.
Proof.
  unfold completed_receipt. cbv zeta. apply pw_step with (P := λ _ w', w' = w).
  - case_match; [|by apply pw_ret]. apply pw_hash. intros h _. by apply pw_ret.
  - intros h ? ->. apply pw_now. intros t w1 E1 _. apply pw_ret. simpl. split_and!; [done..|]. by repeat case_match.
Qed.
Lemma pw_attemptRow a w :
  pw (attemptRow a) (λ r w', w' = w ∧ va_id r = vl_id a ∧ va_status r = vl_status a) w.
Proof.
  unfold attemptRow. apply pw_step with (P := λ _ w', w' = w).
  - unfold canonical_column. apply pw_or_refuse. intros. by apply pw_ret.
  - intros b ? ->. apply pw_step with (P := λ _ w', w' = w); [|intros r ? ->; by apply pw_ret].
    case_match; [|by apply pw_ret]. unfold canonical_column. eapply pw_step with (P := λ _ w', w' = w).
    + apply pw_or_refuse. intros. by apply pw_ret.
    + intros c ? ->. by apply pw_ret.
Qed.
Lemma pw_finish att w :
  pw (finishValidation att) (λ b w', w_db w' = finish_attempt att (w_db w) ∧
    b = existsb (λ x, is_attempt (va_id att) x && is_running x) (refinement_validations (w_db w))) w.
Proof. unfold finishValidation. apply pw_pick. apply pw_bind, pw_modify. by apply pw_ret. Qed.

(** A version whose latest attempt runs is not active. *)
Lemma running_not_active d id v a :
  in_step d → version_found d (bi_versionId (vl_bindings a)) v → rv_latest_attempt_id (fst v) = Some id →
  attempt_found d id a → vl_status a = VS_running → rv_state (fst v) ≠ RS_active.
Proof.
  intros Hd Hv Hl [(row&Hf&Hs&_) _] Hr Ha. destruct (found_active _ _ _ Hv Ha) as (x&Hx&Hx').
  assert (x = id) as -> by congruence. destruct (settled_row _ _ _ Hd Hv id Hx) as (y&Hy&Ey&Hny).
  apply List.find_some in Hf as [Hin%list_elem_of_In Ei%eqs_true].
  assert (y = row) as -> by (eapply nodup_key; [apply (is_attempts _ Hd)|done..|congruence]).
  unfold is_running in Hny. apply bool_decide_eq_false in Hny. congruence.
Qed.
Lemma ended_place id ok row :
  rv_id (ended_row id ok row) = rv_id row ∧ rv_state (ended_row id ok row) ≠ RS_active ∧
  (rv_validated_attempt_id (ended_row id ok row) = None ∨ rv_validated_attempt_id (ended_row id ok row) = Some id).
Proof. unfold ended_row. destruct ok; simpl; [naive_solver|]. case_bool_decide; naive_solver. Qed.

Lemma linked_finish d0 d n att : linked d0 d n → linked d0 (finish_attempt att d) n.
Proof. intros [Hd He]. split; [by apply step_finish|done]. Qed.
Lemma pw_complete d0 id raw f w :
  linked d0 (w_db w) (w_uuids w) → pw (complete id raw f) (λ _ w', linked d0 (w_db w') (w_uuids w')) w.
Proof.
  intros Hw. unfold complete. eapply pw_step; [apply pw_attempt|]. intros a ? [-> Ha].
  destruct (bool_decide (vl_status a = VS_running)) eqn:Er; simpl; [|by apply pw_ret]. apply bool_decide_eq_true in Er.
  eapply pw_step; [apply pw_version|]. intros v ? [-> Hv]. apply pw_require. intros [Hl _]%andb_true_iff.
  apply bool_decide_eq_true in Hl. apply pw_now. intros t w1 E1 _. cbv zeta. eapply pw_step; [apply pw_compatible|].
  intros c ? [-> _]. eapply pw_step; [apply pw_completed|]. intros r w2 (E2&Ei&Es).
  eapply pw_step; [apply pw_attemptRow|]. intros att ? (->&Eai&Eas). eapply pw_step; [apply pw_finish|].
  intros b w3 [E3 Eb]. rewrite E2, E1 in E3, Eb.
  pose proof (linked_finish d0 (w_db w) (w_uuids w) att Hw) as Hf. rewrite <- E3 in Hf.
  destruct b; simpl; [|by apply pw_ret]. eapply pw_step; [apply pw_scope|]. intros s ? [-> _]. apply pw_hash. intros h _.
  apply (pw_move_end _ _ _ _ (λ _, ended_row id (snd r) (fst v))). intros audit tr w4 Ht _ (Ti&Ts&Ta)%transitioned_place.
  destruct (ended_place id (snd r) (fst v)) as (Pi&Ps&Pa).
  assert (version_found (w_db w3) (bi_versionId (vl_bindings a)) v) as Hv3 by (rewrite E3; exact Hv).
  apply (linked_version d0 (w_db w3) _ (bi_versionId (vl_bindings a)) v (fst tr) (w_uuids w)); try done; try congruence.
  - eapply running_not_active; [apply Hw|done..].
  - rewrite Ta. destruct Pa as [-> | ->]; [by intros x|]. rewrite E3. apply finished_settles; [|by unfold is_running; rewrite Eas; apply bool_decide_eq_false|done].
    destruct Ha as [(row&Hfr&_&Eid) _]. apply List.find_some in Hfr as [_ Hfr%eqs_true]. congruence.
Qed.
Lemma pw_recover d0 id w :
  linked d0 (w_db w) (w_uuids w) → pw (recover id) (λ _ w', linked d0 (w_db w') (w_uuids w')) w.
Proof.
  intros Hw. unfold recover. eapply pw_step; [apply pw_version|]. intros v ? [-> _].
  destruct (vr_latestAttemptId (snd v)) as [[|c l]|]; [by apply pw_ret| |by apply pw_ret].
  eapply pw_step; [apply pw_attempt|]. intros a ? [-> _]. apply pw_now. intros t w1 E1 E2. unfold when.
  case_match; [|apply pw_ret; by rewrite E1]. apply pw_complete. by rewrite E1.
Qed.

(** *** The reads *)

Lemma quiet_select {A} (f : Db → A) : quiet (select f).
Proof. done. Qed.
Lemma quiet_throw {A} e : quiet (throw (A := A) e).
Proof. done. Qed.
Lemma quiet_try {A} (m : M A) h : quiet m → (∀ e, quiet (h e)) → quiet (try_catch m h).
Proof.
  intros Hm Hh w. specialize (Hm w). unfold try_catch. destruct (m w) as [[a|e] w']; simpl in *; subst; [done|apply Hh].
Qed.
Lemma quiet_decodes {A B} (f : A → M B) l : (∀ x, quiet (f x)) → quiet (decode_all f l).
Proof. intros Hf. induction l; simpl; repeat first [apply quiet_bind; [done|intros]|done|apply quiet_ret]. Qed.
Hint Resolve quiet_ret quiet_throw quiet_select quiet_require quiet_or_refuse quiet_registration quiet_bindings : quiet.
Ltac quiet_tac := repeat match goal with
  | |- quiet (_ ≫= _) => apply quiet_bind; [|intros]
  | |- quiet (try_catch _ _) => apply quiet_try; [|intros]
  | |- quiet (decode_all _ _) => apply quiet_decodes; intros
  | |- quiet (if _ then _ else _) => case_match
  | |- quiet (match _ with _ => _ end) => case_match
  | |- quiet (same_json _ _) => unfold same_json
  | |- quiet (json_column _ _ _) => unfold json_column
  | |- quiet (refinementHash _) => unfold refinementHash
  | |- quiet _ => solve [auto with quiet]
  end.
Lemma quiet_version id : quiet (version id).
Proof. unfold version, readVersion, decodeVersion. quiet_tac. Qed.
Hint Resolve quiet_version : quiet.
Lemma quiet_scope key : quiet (scope key).
Proof. unfold scope, readScope. quiet_tac. Qed.
Lemma quiet_decode row : quiet (decodeValidation row).
Proof. unfold decodeValidation, verdict_sound. quiet_tac. Qed.
Hint Resolve quiet_scope quiet_decode : quiet.
Lemma quiet_attempt id : quiet (readAttempt id).
Proof. unfold readAttempt, readValidation. quiet_tac. Qed.
Lemma quiet_compatible v a : quiet (compatible v a).
Proof. unfold compatible. quiet_tac. Qed.
Hint Resolve quiet_attempt quiet_compatible : quiet.
Lemma quiet_passed v i h : quiet (passed v i h).
Proof. unfold passed. quiet_tac. Qed.
Lemma quiet_detail id : quiet (detail id).
Proof. unfold detail, listValidations. quiet_tac. Qed.
Hint Resolve quiet_passed quiet_detail : quiet.
Lemma quiet_readPin p : quiet (readPin p).
Proof. unfold readPin. quiet_tac. Qed.
Lemma pw_quiet {A} (m : M A) (Q : A → World → Prop) w : quiet m → (∀ a, Q a w) → pw m Q w.
Proof. intros Hm HQ a w' E. specialize (Hm w). rewrite E in Hm. simpl in Hm. by subst. Qed.

Lemma linked_atomic d0 {A} (m : M A) :
  keeps (λ _ _, True) m →
  (∀ w, linked d0 (w_db w) (w_uuids w) → pw m (λ _ w', linked d0 (w_db w') (w_uuids w')) w) → keeps (linked d0) (atomic m).
Proof. apply keeps_atomic_pw, _. Qed.
Lemma linked_get d0 id : keeps (linked d0) (getRefinement id).
Proof.
  apply linked_atomic; [keeps_tac|]. intros w Hw. eapply pw_step; [by apply pw_recover|]. intros ? w1 H1.
  apply pw_quiet; [auto with quiet|done].
Qed.
Lemma pw_decodes {A B} (J : World → Prop) (f : A → M B) l w :
  J w → (∀ x w, J w → pw (f x) (λ _ w', J w') w) → pw (decode_all f l) (λ _ w', J w') w.
Proof.
  intros Hw Hf. revert w Hw. induction l as [|x l IH]; intros w Hw; simpl; [by apply pw_ret|].
  eapply pw_step; [by apply Hf|]. intros y w1 H1. eapply pw_step; [by apply IH|]. intros ys w2 H2. by apply pw_ret.
Qed.
Lemma linked_list d0 u k l c : keeps (linked d0) (listRefinements u k l c).
Proof.
  unfold listRefinements. do 2 (apply keeps_bind; [auto using keeps_require, keeps_owner|intros _]).
  apply linked_atomic.
  { unfold listVersions. keeps_tac. apply keeps_decodes. intros. keeps_tac. }
  intros w Hw. eapply pw_step with (P := λ _ w', w' = w).
  { apply pw_quiet; [quiet_tac|done]. }
  intros cur ? ->. apply pw_require. intros _. cbv zeta. apply pw_pick.
  eapply pw_step; [apply (pw_decodes (λ w, linked d0 (w_db w) (w_uuids w))); [done|]|intros page w1 H1; by apply pw_ret].
  intros r w1 H1. eapply pw_step; [by apply pw_recover|]. intros ? w2 H2. apply pw_quiet; [quiet_tac|done].
Qed.
Lemma linked_select d0 s : keeps (linked d0) (select_refinement s).
Proof.
  unfold select_refinement. apply keeps_bind; [apply keeps_require|intros _]. apply linked_atomic.
  { unfold pin_of, readScope. keeps_tac. }
  intros w Hw. apply pw_quiet; [unfold pin_of, readScope; quiet_tac|done].
Qed.
Lemma linked_assert d0 p : keeps (linked d0) (assertPin p).
Proof.
  unfold assertPin. apply keeps_bind; [apply keeps_require|intros _]. apply linked_atomic; [keeps_tac|].
  intros w Hw. apply pw_quiet; [apply quiet_readPin|done].
Qed.
Lemma linked_use d0 p r : keeps (linked d0) (recordUse p r).
Proof.
  unfold recordUse. apply linked_atomic; [keeps_tac|]. intros w Hw. apply pw_require. intros _.
  eapply pw_step; [apply pw_readPin|]. intros _ ? [-> _]. eapply pw_step; [apply pw_version|]. intros v ? [-> _].
  eapply pw_mono; [apply pw_emit|]. intros id w' [Ht _]. by eapply linked_tables.
Qed.

(** *** Proposing and validating *)

Lemma linked_insert d0 d d' row n m :
  linked d0 d n → version_clash row d = false → rv_state row = RS_proposed → rv_validated_attempt_id row = None →
  tables d' = tables (set_refinement_versions (λ rows, rows ++ [row]) d) → linked d0 d' m.
Proof.
  intros [Hd He] Hc Hs Hv Ht. eapply (linked_tables _ _ _ n); [exact Ht|]. split; [|done].
  apply step_insert; [done..| |done]. by apply not_active; rewrite Hs.
Qed.
Lemma linked_scope_row d0 d key n :
  linked d0 d n → linked d0 (set_refinement_scopes (λ rows,
    if existsb (is_scope key) rows then rows else rows ++ [mkScopeRow key None 0 None None]) d) n.
Proof.
  intros [Hd He]. split; [by apply step_scope_row|]. simpl. case_match; [done|by apply evolves_snoc].
Qed.
Lemma clash_tables row d d' : tables d' = tables d → version_clash row d' = version_clash row d.
Proof. unfold tables, version_clash. by intros [= -> _ _]. Qed.
Lemma pw_newEnvelope d0 q s p w :
  linked d0 (w_db w) (w_uuids w) → pw (new_envelope q s p) (λ _ w', linked d0 (w_db w') (w_uuids w')) w.
Proof.
  intros Hw. eapply (pw_mono _ (λ _ w', w_db w' = w_db w)); [|intros e w' ->; exact Hw].
  assert (∀ w, pw newUUID (λ _ w', w_db w' = w_db w) w) as Hu by (by intros ? ? ? [= <- <-]).
  unfold new_envelope, nextRevision. eapply pw_step with (P := λ _ w', w_db w' = w_db w).
  { destruct p; [by apply pw_ret|apply Hu]. }
  intros f w1 E1. eapply pw_step; [apply Hu|]. intros i w2 E2. apply pw_pick. apply pw_now. intros t w3 E3 _.
  cbv zeta. apply pw_require. intros _. apply pw_ret. congruence.
Qed.
Lemma pw_proposal d0 q s h w :
  linked d0 (w_db w) (w_uuids w) → pw (record_proposal q s h) (λ _ w', linked d0 (w_db w') (w_uuids w')) w.
Proof.
  intros Hw. unfold record_proposal, versionCount. apply pw_pick, pw_require. intros _. apply pw_hash. intros key _.
  eapply pw_step with (P := λ _ w', w' = w); [apply pw_quiet; [quiet_tac|done]|]. intros p ? ->. apply pw_require. intros _.
  eapply pw_step; [by apply pw_newEnvelope|]. intros e w1 H1. eapply pw_bind, pw_modify.
  eapply pw_step; [apply pw_scope|]. intros sc ? [-> _]. apply pw_hash. intros vh _. cbv zeta.
  eapply pw_step; [apply pw_emit|]. intros audit w2 [E2 _]. eapply pw_step with (P := λ _ w', w' = w2).
  { apply pw_quiet; [unfold canonical_column; quiet_tac|done]. }
  intros col ? ->. eapply pw_step; [apply pw_transition|]. intros tr w3 (E3&_&(Ti&Ts&Ta)%transitioned_place).
  apply pw_bind, pw_insert. intros [_ Hc]%orb_false_iff. apply pw_quiet; [auto with quiet|]. intros _.
  apply (linked_scope_row _ _ key) in H1. rewrite E3, (clash_tables _ _ _ E2) in Hc.
  eapply linked_insert; [exact H1|exact Hc|by rewrite Ts|by rewrite Ta|]. unfold tables in *. simpl. rewrite E3.
  simpl in E2. by injection E2 as -> -> ->.
Qed.
Lemma quiet_keeps J {A} (m : M A) : quiet m → keeps J m.
Proof. intros Hm w Hw. rewrite Hm. split; [done|apply moved_refl]. Qed.
Lemma linked_propose d0 q `{!RefineAwaits (linked d0)} : keeps (linked d0) (propose q).
Proof.
  unfold propose. do 2 (apply keeps_bind; [auto using keeps_require, keeps_owner|intros _]). cbv zeta.
  apply keeps_bind; [apply quiet_keeps, quiet_registration|]. intros r.
  apply keeps_bind; [apply keeps_require|]. intros _. apply keeps_bind; [apply keeps_or_refuse|]. intros texts.
  apply keeps_bind; [apply keeps_require|]. intros _. apply keeps_bind; [by apply keeps_sources|]. intros sources.
  apply keeps_bind; [apply keeps_hash|]. intros h. apply linked_atomic; [keeps_tac|]. intros w Hw.
  eapply pw_step with (P := λ _ w', w' = w); [apply pw_quiet; [quiet_tac|done]|]. intros r' ? ->. apply pw_require. intros _.
  unfold readProposal. apply pw_pick. destruct (List.find _ _) as [row|]; [|by apply pw_proposal].
  eapply pw_step; [by apply pw_recover|]. intros ? w1 H1. apply pw_quiet; [auto with quiet|done].
Qed.

Lemma pw_start d0 v b h w id :
  linked d0 (w_db w) (w_uuids w) → version_found (w_db w) id v → rv_state (fst v) ≠ RS_active →
  pw (start_attempt v b h) (λ _ w', linked d0 (w_db w') (w_uuids w')) w.
Proof.
  intros Hw Hv Hna. unfold start_attempt, listValidations. apply pw_pick, pw_require. intros _.
  apply pw_now. intros t w1 E1 _. eapply pw_step with (P := λ _ w', w_db w' = w_db w1).
  { by intros ? ? [= <- <-]. }
  intros aid w2 E2. eapply pw_step with (P := λ _ w', w' = w2).
  { apply pw_quiet; [unfold isoOf; quiet_tac|done]. }
  intros dl ? ->. cbv zeta. eapply pw_step; [apply pw_attemptRow|]. intros att ? (->&_&_).
  apply pw_bind, pw_insert. intros Hc. rewrite E2, E1 in Hc.
  eapply pw_step; [apply pw_scope|]. intros s ? [-> _].
  set (row := set_state _ _ _ _ _).
  apply (pw_move _ _ _ _ (λ _, row)). intros audit tr w4 Ht _ (Ti&Ts&Ta)%transitioned_place.
  assert (linked d0 (w_db w4) (w_uuids w4)) as H4.
  { destruct Hw as [Hd He]. rewrite <- E1, <- E2 in Hv.
    apply (linked_version d0 (set_refinement_validations (λ rows, rows ++ [att]) (w_db w2)) _ id v (fst tr) 0); try done.
    - rewrite E2, E1. split; [by apply step_attempt|done].
    - rewrite Ts. subst row. simpl. by case_bool_decide.
    - rewrite Ta. by intros x. }
  eapply pw_step with (P := λ _ w', w' = w4); [apply pw_quiet; [quiet_tac|done]|]. intros r ? ->.
  by destruct (rg_runValidation r); apply pw_ret.
Qed.
Lemma pw_admit d0 q w :
  linked d0 (w_db w) (w_uuids w) → pw (admit_attempt q) (λ _ w', linked d0 (w_db w') (w_uuids w')) w.
Proof.
  intros Hw. unfold admit_attempt. eapply pw_step; [by apply pw_recover|]. intros ? w1 H1.
  eapply pw_step; [apply pw_bound|]. intros v ? (->&Hv&_). eapply pw_step with (P := λ _ w', w' = w1).
  { apply pw_quiet; [quiet_tac|done]. }
  intros b ? ->. apply pw_require. intros _. apply pw_require. intros Hst. destruct (found_state _ _ _ Hv) as (Es&_).
  assert (rv_state (fst v) ≠ RS_active) as Hna.
  { rewrite <- Es. intros Hs. by rewrite Hs in Hst. }
  eapply pw_step with (P := λ _ w', w' = w1); [apply pw_quiet; [quiet_tac|done]|]. intros prev ? ->.
  eapply pw_step with (P := λ _ w', w' = w1); [apply pw_quiet; [quiet_tac|done]|]. intros same ? ->.
  destruct prev as [x|]; [case_match; [by apply pw_ret|apply pw_require; intros _]|];
    apply pw_hash; intros h _; by eapply pw_start.
Qed.
Lemma quiet_atomic {A} (m : M A) : quiet m → quiet (atomic m).
Proof.
  intros Hm w. specialize (Hm w). unfold atomic, try_catch, transactionSync.
  destruct (m w) as [[a|e] w'] eqn:E; simpl in *; subst; [done|]. by destruct w, e.
Qed.
Lemma quiet_response vid aid : quiet (validationResponse vid aid).
Proof. apply quiet_atomic. quiet_tac. Qed.
Lemma linked_validate d0 q `{!RefineAwaits (linked d0)} : keeps (linked d0) (validate q).
Proof.
  unfold validate. do 2 (apply keeps_bind; [auto using keeps_require, keeps_owner|intros _]).
  apply (keeps_bind_post _ _ _ (registered (linked d0))).
  - apply linked_atomic; [keeps_tac|]. intros w. apply pw_admit.
  - intros w. apply pw_atomic, admit_registered. apply _.
  - intros [id|a e run] Ha; [apply quiet_keeps, quiet_response|]. apply keeps_bind.
    + unfold run_attempt. keeps_tac.
    + intros r. apply keeps_bind; [apply linked_atomic; [keeps_tac|intros; by apply pw_complete]|].
      intros _. apply quiet_keeps, quiet_response.
Qed.

Lemma run_linked d0 op w `{!RefineAwaits (linked d0)} :
  linked d0 (w_db w) (w_uuids w) →
  linked d0 (w_db (run_refinement op w)) (w_uuids (run_refinement op w)).
Proof.
  intros Hw. destruct op; simpl; [apply linked_propose|apply linked_validate|apply linked_approve|apply linked_switch|
    apply linked_disable|apply linked_get|apply linked_list|apply linked_select|apply linked_assert|
    apply linked_use]; auto.
Qed.
Lemma runs_linked d0 ops w `{!RefineAwaits (linked d0)} :
  linked d0 (w_db w) (w_uuids w) →
  linked d0 (w_db (run_refinements ops w)) (w_uuids (run_refinements ops w)).
Proof. revert w. induction ops as [|op ops IH]; intros w Hw; [done|]. by apply IH, run_linked. Qed.
End active.

(** ** The theorems *)

(** The version a scope points at, and the versions of a scope that are active. *)
Definition pointer (d : Db) (key : jsstr) : option jsstr :=
  List.find (is_scope key) (refinement_scopes d) ≫= rc_active_version_id.
Definition actives (d : Db) (key : jsstr) : list jsstr :=
  rv_id <$> List.filter (λ r, is_active r && eqs (rv_scope_key r) key) (refinement_versions d).
Definition generation_of (d : Db) (key : jsstr) : option Z :=
  rc_generation <$> List.find (is_scope key) (refinement_scopes d).

Lemma find_scope d s : in_step d → s ∈ refinement_scopes d →
  List.find (is_scope (rc_scope_key s)) (refinement_scopes d) = Some s.
Proof.
  intros Hd Hs. destruct (List.find _ _) as [x|] eqn:E.
  - apply List.find_some in E as [Hx%list_elem_of_In Ek%eqs_true]. f_equal.
    by eapply nodup_key; [apply (is_scopes _ Hd)|done..].
  - apply List.find_none with (x := s) in E; [|by apply list_elem_of_In]. unfold is_scope in E. by rewrite eqs_refl in E.
Qed.
Lemma actives_pointed d key id : in_step d → id ∈ actives d key ↔ pointer d key = Some id.
Proof.
  intros Hd. unfold actives, pointer. split.
  - intros (r&->&Hr)%list_elem_of_fmap. apply list_elem_of_In, filter_In in Hr as [Hr%list_elem_of_In [Ha Hk%eqs_true]%andb_true_iff].
    destruct (is_pointed _ Hd r Hr Ha) as (s&Hs&Ek&Ep). rewrite <- Hk, <- Ek, (find_scope d s Hd Hs). done.
  - destruct (List.find _ _) as [s|] eqn:E; [|done]. simpl. intros Hp.
    apply List.find_some in E as [Hs%list_elem_of_In Ek%eqs_true]. destruct (is_pointing _ Hd s id Hs Hp) as (r&Hr&Ha&Erk&Erp).
    apply list_elem_of_fmap. exists r. split; [congruence|]. apply list_elem_of_In, filter_In.
    split; [by apply list_elem_of_In|]. rewrite Ha. simpl. apply eqs_true. congruence.
Qed.
Lemma actives_eq d key : in_step d → actives d key = option_list (pointer d key).
Proof.
  intros Hd. assert (NoDup (actives d key)) as Hn.
  { unfold actives. generalize (is_versions _ Hd). generalize (refinement_versions d). intros l.
    induction l as [|r l IH]; simpl; [done|]. intros [Hr Hl]%NoDup_cons. case_match; [|by apply IH].
    simpl. apply NoDup_cons. split; [|by apply IH]. intros (x&Ex&Hx)%list_elem_of_fmap. apply Hr. rewrite Ex.
    apply list_elem_of_fmap_2. apply list_elem_of_In. by apply list_elem_of_In, filter_In in Hx as [? _]. }
  assert (∀ x, x ∈ actives d key ↔ pointer d key = Some x) as Hi by (intros x; by apply actives_pointed).
  destruct (pointer d key) as [id|]; simpl.
  - destruct (actives d key) as [|x [|y l]].
    + exfalso. assert (id ∈ @nil jsstr) as Hx by by apply Hi. by apply elem_of_nil in Hx.
    + assert (Some id = Some x) as [= ->] by (apply Hi; by left). done.
    + assert (Some id = Some x) as [= ->] by (apply Hi; by left).
      assert (Some x = Some y) as [= ->] by (apply Hi; right; left). apply NoDup_cons in Hn as [Hn _]. exfalso. apply Hn. by left.
  - destruct (actives d key) as [|x l]; [done|]. assert (None = Some x) by (apply Hi; by left). done.
Qed.

(** C9: One version per scope: from tables in step, whatever the manager is asked,
    the versions of a scope that are active are exactly the one the scope points
    at, and a scope that is later found with the generation it had is the row it
    was - so a generation names one selection, and a decision that expects a
    generation is taken on the selection it was formed on. *)
Theorem one_active_refinement `{Platform} `{!PlatformLaws _} `{!RefinementManagerDependencies} ops w
  `{!∀ d, RefineAwaits (linked d)} :
  in_step (w_db w) →
  let w' := run_refinements ops w in
  in_step (w_db w') ∧ (∀ key, actives (w_db w') key = option_list (pointer (w_db w') key)) ∧
  evolves scope_step (refinement_scopes (w_db w)) (refinement_scopes (w_db w')).
Proof.
  intros Hd w'. destruct (runs_linked (w_db w) ops w) as [Hd' He]; [split; [done|apply evolves_refl, _]|].
  split_and!; [done| |done]. intros key. by apply actives_eq.
Qed.

(** C8: No version is activated without its evidence: an [activate] or [rollback]
    that answers anew found the version, under the hash it was asked by, with a
    passing receipt that is its latest one, has the report hash the request names,
    and was produced under the bindings of the workflow registered now; the version
    was approved under the named entry, or is an earlier disabled one of the
    active version's family; and the generation was the expected one. The scope
    then points at that version alone, one generation on, with the entry of the
    answer last on a log whose chain holds. Otherwise the answer is the one on
    record for this very request and nothing changes. *)
Theorem activation_needs_evidence `{Platform} `{!PlatformLaws _} `{!RefinementManagerDependencies} q w m w' :
  in_step (w_db w) → chain_inv (w_db w) (w_uuids w) → switch q w = (Ok m, w') →
  let r := switch_base q in
  ∃ v s, version_found (w_db w) (aq_versionId r) v ∧ vr_versionHash (snd v) = aq_versionHash r ∧
    scope_found (w_db w) (vr_scopeKey (snd v)) s ∧
    ((∃ a (row : AuditLogRow) (log : list AuditLogRow),
       rc_generation (fst s) = aq_expectedScopeGeneration r ∧
       evidenced (snd v) (aq_validationId r) (aq_reportHash r) a w ∧ eligible q v (fst s) w ∧
       m = mkMutation (aq_versionId r) (aq_versionHash r) RS_active (rc_generation (fst s) + 1) (h_id row) ∧
       actives (w_db w') (vr_scopeKey (snd v)) = [aq_versionId r] ∧
       generation_of (w_db w') (vr_scopeKey (snd v)) = Some (rc_generation (fst s) + 1) ∧
       audit_log (w_db w') = audit_log (w_db w) ++ log ++ [row] ∧
       h_verb row = wellFormed (action_text (switch_action q)) ∧ chain_inv (w_db w') (w_uuids w')) ∨
     w' = w ∧ ∃ t, column read_transition transition_ok (rv_last_transition_json (fst v)) = Some t ∧
       tn_action t = switch_action q ∧ digest_of (switch_json q) (tn_requestHash t) ∧
       mu_scopeGeneration (tn_response t) = rc_generation (fst s) ∧ tn_response t = m).
Proof.
  intros Hd Hc E r. subst r. destruct (pw_switch _ _ _ _ E) as (v&s&Hv&Hh&Hf&Hm). exists v, s. split_and!; [done..|].
  destruct Hm as [Hm|[-> (t&h&Hdg&Hcol&Ha&<-&Hg&Hr)]]; [left|right; split; [done|by exists t]].
  pose proof (linked_switched (w_db w) q v s w w' m _ (conj Hd (evolves_refl _ _)) Hv Hf Hm) as [Hd' _].
  destruct Hm as [Hgen (a&Hev) Hel Hres (row&prior&t&Ht&_) (w1&w2&Hl1&Hl2&Elog&Eu)].
  destruct (Hl1 Hc) as [Hc1 (rows&Hp)], (Hl2 Hc1) as (Hc2&last&El2&Eid&Everb&_).
  destruct (scope_in _ _ _ Hf) as [Hin Hk], (found_id _ _ _ Hv) as [Hid _], (found_state _ _ _ Hv) as (_&_&_&_&Evh).
  set (s' := moved_scope _ _ _ _ _) in Ht. assert (refinement_scopes (w_db w') = refinement_scopes (set_scope s' (w_db w))) as Es.
  { unfold tables in Ht. injection Ht as _ _ ->. by destruct prior. }
  assert (List.find (is_scope (vr_scopeKey (snd v))) (refinement_scopes (w_db w')) = Some s') as Hfind.
  { rewrite <- Hk. change (rc_scope_key (fst s)) with (rc_scope_key s'). apply find_scope; [done|]. rewrite Es.
    pose proof (set_scope_in s' (w_db w) (fst s) Hin) as Hs'. by rewrite eqs_refl in Hs'. }
  exists a, last, rows. split_and!; try done.
  - rewrite Hres, Eid. f_equal; congruence.
  - rewrite (actives_eq _ _ Hd'). unfold pointer. rewrite Hfind. simpl. by rewrite Hid.
  - unfold generation_of. by rewrite Hfind.
  - rewrite Elog, El2, Hp. by rewrite (assoc_L (++)).
  - unfold chain_inv in *. by rewrite Elog, Eu.
Qed.
