(* ===== verification/RefinementScenarios.v ===== *)
(** * A refinement put into use

    A concrete manager on which the hypotheses of the theorems on refinements are
    met: one version proposed, validated by a registered runner, approved and
    activated, and a second one that replaces it. The digest is a stand-in of the
    width the schemas ask for. *)

From S2P Require Import RefinementActive.
Open Scope Z_scope.

Definition digest64 (bs : list N) : jsstr :=
  let n := foldl (λ acc b, N.land (acc * 257 + b + 1) (N.ones 256)) 0%N bs in
  (λ i, hex_digit (N.shiftr n (4 * N.of_nat i) mod 16)%N) <$> rev (seq 0 64).
Definition learning_platform : Platform := {|
  sha256_hex := digest64;
  toLowerCase := @toLowerCase demo_platform;
  sqliteText := @sqliteText demo_platform;
  legacyDate := @legacyDate demo_platform;
  randomUUID := @randomUUID demo_platform;
|}.
Lemma learning_laws : PlatformLaws learning_platform.
Proof.
  destruct demo_platform_laws. split; try done.
  intros bs. apply Forall_fmap. apply Forall_forall. intros i _. apply hex_digit_ascii.
Qed.
#[local] Existing Instance learning_platform.
#[local] Existing Instance learning_laws.

Definition h64 (c : N) : jsstr := repeat c 64.
Definition demo_contract : jsstr := h64 97.
Definition demo_qualification : RefinementQualification :=
  mkQualification (js "suite-1") (h64 98) (h64 99) (h64 100) [js "case-1"; js "case-2"] [js "grounded"]
    Ek_deterministic_mock (Some (h64 101)).
Definition demo_case (id : jsstr) : report_case := mkCase id (h64 48) (h64 49) [mkCheck (js "grounded") true].
Definition demo_report : RefinementValidationReport :=
  mkReport [demo_case (js "case-2"); demo_case (js "case-1")] 12
    (mkReportUsage Ac_synthetic [mkReportCall (js "c1") None Role_root 10 4; mkReportCall (js "c2") (Some (js "c1")) Role_child 5 1] 15 5).
Definition demo_registration : RefinementWorkflowRegistration :=
  mkRegistration _ (js "triage") demo_contract (h64 50) (h64 51) demo_qualification
    (Some (λ _ _, mret (Reported (report_json demo_report)))).
#[local] Instance demo_manager : RefinementManagerDependencies := {|
  ownerId := js "user-1";
  registry id _ := if eqs id (js "triage") then Some demo_registration else None;
  resolveSource _ := mret (Some (h64 52, None));
  validationTimeoutMs := 60000;
|}.

(** A store fresh from its boot, under a clock of ten milliseconds a reading. *)
Definition learning_clock (n : nat) : Z := Z.of_nat n * 10 + 1767225600000.
Definition world_of (x : Db * nat * nat) : World :=
  let '(d, ticks, uuids) := x in mkWorld d learning_clock ticks uuids false.
Definition state_of (w : World) : Db * nat * nat := (w_db w, w_ticks w, w_uuids w).
Definition learning_world : World := world_of (set_policy_entries (λ _, [floor_row []]) empty_db, 0%nat, 0%nat).
Definition demo_scope : RefinementScope := mkScope (js "triage") demo_contract.
Definition demo_content (step : string) : RefinementContent :=
  mkContent (js "Check twice") (js "A correction asked for it") demo_scope [js step].
Definition demo_propose (step : string) (parent : option jsstr) : RefinementProposeRequest :=
  mkPropose (js "user-1") (demo_content step) parent [mkSourceRef Src_correction (js "note-1")].

(** Proposed, validated, approved: the requests made so far, and the activation to
    ask for. *)
Definition prepare (step : string) (parent : option jsstr) (generation : Z) : M (list refinement_op * switch_request) :=
  let q := demo_propose step parent in
  d ← propose q;
  let id := ev_versionId (vr_envelope (dr_version d)) in
  let hash := vr_versionHash (dr_version d) in
  let vq := mkValidate (js "user-1") id hash (js "suite-1") in
  p ← validate vq;
  let r := mkApprove (js "user-1") id hash (vl_id (vp_validation p)) (default [] (vl_reportHash (vp_validation p))) generation in
  m ← approve r;
  mret ([Ro_propose q; Ro_validate vq; Ro_approve r], ActivateRequest r (mu_auditEntryId m)).
Definition answer {A} (a : A) (r : res A * World) : A := match r with (Ok a, _) => a | _ => a end.
Definition no_switch : switch_request := ActivateRequest (mkApprove [] [] [] [] [] 0) [].

(** A first version, prepared and then in use; its pin; and a second one made from
    it. *)
Definition ready_state := Eval vm_compute in state_of (snd (prepare "Ask first" None 0 learning_world)).
Definition ready_world : World := world_of ready_state.
Definition first_life : list refinement_op * switch_request :=
  Eval vm_compute in answer ([], no_switch) (prepare "Ask first" None 0 learning_world).
Definition first_switch : switch_request := snd first_life.
Definition used_state := Eval vm_compute in state_of (snd (switch first_switch ready_world)).
Definition used_world : World := world_of used_state.
Definition first_pin : RefinementPin :=
  Eval vm_compute in default (mkPin [] [] [] [] 0) (answer None (select_refinement demo_scope used_world)).
Definition second_life : list refinement_op * switch_request :=
  Eval vm_compute in answer ([], no_switch) (prepare "Ask first, then act" (Some (pi_versionId first_pin)) 1 used_world).
(** What happens after the first version is in use. *)
Definition later_ops : list refinement_op := fst second_life ++ [Ro_select demo_scope; Ro_switch (snd second_life)].

(** ** The hypotheses *)

Lemma demo_awaits J : RefineAwaits J.
Proof.
  split; [intros r; apply keeps_ret|]. intros id w r run e b. simpl. case_match; [|done].
  intros [= <-] [= <-]. apply keeps_ret.
Qed.
#[local] Existing Instance demo_awaits.

Lemma learning_agent : agent_inv (w_db learning_world) (w_uuids learning_world).
Proof.
  split_and!; [|split|constructor].
  - split; [by apply fresh_inv|constructor..].
  - exists []. by left.
  - by intros r ->%list_elem_of_singleton.
  - apply NoDup_singleton.
Qed.
Lemma learning_step : in_step (w_db learning_world).
Proof. split; simpl; [constructor..| | |]; intros ? ?; set_solver. Qed.

Lemma ready_reached : state_of (run_refinements (fst first_life) learning_world) = ready_state.
Proof. vm_compute. reflexivity. Qed.
Lemma used_reached : state_of (run_refinement (Ro_switch first_switch) ready_world) = used_state.
Proof. vm_compute. reflexivity. Qed.
(** What a run of the manager keeps holds where it leads. *)
Lemma reached J ops x w :
  RefineFrame J → state_of (run_refinements ops w) = x → J (w_db w) (w_uuids w) →
  J (w_db (world_of x)) (w_uuids (world_of x)).
Proof. intros Hf <- Hw. exact (proj1 (runs_keep J ops w Hw)). Qed.
Lemma reached_step ops x w : state_of (run_refinements ops w) = x → in_step (w_db w) → in_step (w_db (world_of x)).
Proof.
  intros <- Hw. destruct (runs_linked (w_db w) ops w) as [Hd _]; [|exact Hd]. split; [done|apply evolves_refl, _].
Qed.
Lemma ready_agent : agent_inv (w_db ready_world) (w_uuids ready_world).
Proof. exact (reached agent_inv _ _ _ _ ready_reached learning_agent). Qed.
Lemma used_agent : agent_inv (w_db used_world) (w_uuids used_world).
Proof. exact (reached agent_inv [Ro_switch first_switch] _ _ _ used_reached ready_agent). Qed.
Lemma ready_step : in_step (w_db ready_world).
Proof. exact (reached_step _ _ _ ready_reached learning_step). Qed.
Lemma used_step : in_step (w_db used_world).
Proof. exact (reached_step [Ro_switch first_switch] _ _ used_reached ready_step). Qed.

(** ** The witnesses *)

Lemma refinements_never_rewritten_witness :
  let w' := run_refinements later_ops used_world in
  (rv_state <$> refinement_versions (w_db used_world)) = [RS_active] ∧
  (rv_state <$> refinement_versions (w_db w')) = [RS_disabled; RS_active] ∧
  evolves same_artifact (refinement_versions (w_db used_world)) (refinement_versions (w_db w')) ∧
  evolves receipt_step (refinement_validations (w_db used_world)) (refinement_validations (w_db w')) ∧
  agent_inv (w_db w') (w_uuids w').
Proof.
  intros w'. do 2 (split; [vm_compute; reflexivity|]).
  exact (refinements_never_rewritten later_ops used_world used_agent).
Defined.

Lemma refinements_stay_local_witness :
  let w' := run_refinements later_ops used_world in
  length (audit_log (w_db used_world)) = 5%nat ∧ length (audit_log (w_db w')) = 11%nat ∧
  elsewhere (w_db w') = elsewhere (w_db used_world) ∧ audit_log (w_db used_world) `prefix_of` audit_log (w_db w') ∧
  w_turnInFlight w' = w_turnInFlight used_world.
Proof.
  intros w'. do 2 (split; [vm_compute; reflexivity|]). exact (refinements_stay_local later_ops used_world).
Defined.

Lemma first_pin_good : assertPin first_pin used_world = (Ok (demo_content "Ask first"), used_world).
Proof. vm_compute. reflexivity. Qed.
Lemma pin_denotes_content_witness :
  (∃ e t, ev_content e = demo_content "Ask first" ∧ ev_versionId e = pi_versionId first_pin ∧
     canonicalJson (envelope_json e) = Some t ∧ sha256_hex (utf8 t) = pi_versionHash first_pin) ∧
  ∀ ops c' w'', assertPin first_pin (run_refinements ops used_world) = (Ok c', w'') → c' = demo_content "Ask first".
Proof. exact (pin_denotes_content first_pin _ used_world used_world first_pin_good). Defined.

Lemma one_active_refinement_witness :
  let w' := run_refinements later_ops used_world in
  actives (w_db used_world) (pi_scopeKey first_pin) = [pi_versionId first_pin] ∧
  generation_of (w_db used_world) (pi_scopeKey first_pin) = Some 1 ∧
  generation_of (w_db w') (pi_scopeKey first_pin) = Some 2 ∧
  in_step (w_db w') ∧ (∀ key, actives (w_db w') key = option_list (pointer (w_db w') key)) ∧
  evolves scope_step (refinement_scopes (w_db used_world)) (refinement_scopes (w_db w')).
Proof.
  intros w'. do 3 (split; [vm_compute; reflexivity|]). exact (one_active_refinement later_ops used_world used_step).
Defined.

Definition first_answer : RefinementMutationResponse :=
  Eval vm_compute in answer (mkMutation [] [] RS_proposed 0 []) (switch first_switch ready_world).
Lemma first_switched : switch first_switch ready_world = (Ok first_answer, used_world).
Proof. vm_compute. reflexivity. Qed.
Lemma activation_needs_evidence_witness :
  let q := first_switch in let r := switch_base q in let w := ready_world in let m := first_answer in let w' := used_world in
  ∃ v s, version_found (w_db w) (aq_versionId r) v ∧ vr_versionHash (snd v) = aq_versionHash r ∧
    scope_found (w_db w) (vr_scopeKey (snd v)) s ∧
    ((∃ a (row : AuditLogRow) (log : list AuditLogRow),
       rc_generation (fst s) = aq_expectedScopeGeneration r ∧
       evidenced (snd v) (aq_validationId r) (aq_reportHash r) a w ∧ eligible q v (fst s) w ∧
       m = mkMutation (aq_versionId r) (aq_versionHash r) RS_active (rc_generation (fst s) + 1) (h_id row) ∧
       actives (w_db w') (vr_scopeKey (snd v)) = [aq_versionId r] ∧
       generation_of (w_db w') (vr_scopeKey (snd v)) = Some (rc_generation (fst s) + 1) ∧
       audit_log (w_db w') = audit_log (w_db w) ++ log ++ [row] ∧
       h_verb row = wellFormed (action_text (switch_action q)) ∧ chain_inv (w_db w') (w_uuids w')) ∨
     w' = w ∧ ∃ t, column read_transition transition_ok (rv_last_transition_json (fst v)) = Some t ∧
       tn_action t = switch_action q ∧ digest_of (switch_json q) (tn_requestHash t) ∧
       mu_scopeGeneration (tn_response t) = rc_generation (fst s) ∧ tn_response t = m).
Proof.
  exact (activation_needs_evidence first_switch ready_world first_answer used_world ready_step
    (st_chain _ _ (proj1 ready_agent)) first_switched).
Defined.

Definition demo_bindings : RefinementValidationBindings :=
  mkBindings (js "v1") (h64 48) (h64 49) demo_contract (h64 50) (h64 51) demo_qualification.
Lemma passing_report_covers_suite_witness :
  let q := demo_qualification in let u := rt_usage demo_report in
  NoDup (ca_caseId <$> rt_cases demo_report) ∧ (ca_caseId <$> rt_cases demo_report) ≡ₚ ql_caseIds q ∧
  (∀ c, c ∈ rt_cases demo_report → NoDup (ck_checkId <$> ca_checks c) ∧ (ck_checkId <$> ca_checks c) ≡ₚ ql_checkIds q ∧
     ∀ k, k ∈ ca_checks c → ck_passed k = true) ∧
  lu_accounting u = accounting_of (ql_executionKind q) ∧
  (lu_calls u = [] ↔ ql_executionKind q = Ek_schema_contract) ∧
  lu_inputTokens u = tokens ll_inputTokens (lu_calls u) ∧ lu_outputTokens u = tokens ll_outputTokens (lu_calls u) ∧
  NoDup (ll_callId <$> lu_calls u) ∧
  (∀ k c p, lu_calls u !! k = Some c → ll_parentCallId c = Some p → p ∈ ll_callId <$> take k (lu_calls u)).
Proof.
  refine (passing_report_covers_suite demo_bindings (report_json demo_report) demo_report _). vm_compute. reflexivity.
Defined.
