(* ===== verification/BoundedCopy.v ===== *)
(** * Bounded copies of untrusted values

    [boundedCopy] and the shape tests of
    [packages/engine/src/workflows/model-budget.ts]: a value handed in from
    outside is copied into plain JSON data while the bytes its serialisation will
    take are counted, and refused as soon as they exceed a limit. The values are
    JavaScript ones, so they live in a heap: objects may be shared or cyclic, may
    hold accessors and holes, and may be of a class of their own. *)

From S2P Require Export Json.
Open Scope Z_scope.

(** ** Values and the heap they live in *)

Inductive jsval :=
  | VUndefined | VNull | VBool (b : bool) | VNum (x : jsnum) | VNotFinite | VStr (s : jsstr)
  | VOther (** a bigint or a symbol *)
  | VRef (a : N).

(** An own property: data, or a getter with what it would return. *)
Inductive slot := Data (v : jsval) | Accessor (got : jsval).

(** An array with its holes; an object whose prototype is [Object.prototype] or
    null, with whether each property is enumerable; anything else. *)
Inductive jsobj :=
  | Arr (items : list (option slot))
  | Plain (props : list (jsstr * (bool * slot)))
  | Exotic.
Abbreviation heap := (gmap N jsobj).

#[export] Instance jsval_eq_dec : EqDecision jsval.
Proof. solve_decision. Defined.

(** An object literal evaluates to a reference nothing else holds. *)
Definition alloc (h : heap) (o : jsobj) : heap * jsval :=
  let a := fresh (dom h) in (<[a := o]> h, VRef a).

Definition isRecord (h : heap) (v : jsval) : bool :=
  match v with
  | VRef a => match h !! a with Some (Plain _) => true | _ => false end
  | _ => false
  end.

(** The own property [Object.getOwnPropertyDescriptor] describes. *)
Fixpoint own (k : jsstr) (props : list (jsstr * (bool * slot))) : option slot :=
  match props with
  | [] => None
  | (k', (_, s)) :: props => if decide (k' = k) then Some s else own k props
  end.
Definition descriptor (h : heap) (v : jsval) (k : jsstr) : option slot :=
  match v with
  | VRef a => match h !! a with Some (Plain props) => own k props | _ => None end
  | _ => None
  end.

Definition dataField (h : heap) (v : jsval) (k : jsstr) : jsval :=
  match descriptor h v k with Some (Data x) => x | _ => VUndefined end.

(** ** Errors *)

Inductive ModelBudgetErrorCode :=
  | INVALID_LIMITS | INVALID_MODEL | MODEL_MISMATCH | INVALID_REQUEST
  | ATTEMPT_LIMIT | CONCURRENCY_LIMIT | REQUEST_BYTES_LIMIT
  | INPUT_TOKEN_LIMIT | OUTPUT_TOKEN_LIMIT | RESPONSE_BYTES_LIMIT
  | INVALID_RESPONSE | UNKNOWN_USAGE | PROVIDER_ERROR
  | CANCELLED | DEADLINE | DISPOSED.
#[export] Instance ModelBudgetErrorCode_eq_dec : EqDecision ModelBudgetErrorCode.
Proof. solve_decision. Defined.

Record ModelBudgetError := mkBudgetError {
  be_code : ModelBudgetErrorCode;
  be_observedBytes : option Z;
}.
#[export] Instance ModelBudgetError_eq_dec : EqDecision ModelBudgetError.
Proof. solve_decision. Defined.

(** ** The copy *)

(** The running count [bytes], and the error that ends it. *)
Definition Count (A : Type) : Type := Z → A * Z + ModelBudgetError.
#[export] Instance Count_ret : MRet Count := λ A a bytes, inl (a, bytes).
#[export] Instance Count_bind : MBind Count := λ A B k m bytes,
  match m bytes with inl (a, bytes') => k a bytes' | inr e => inr e end.

Definition data (s : slot) : option jsval := match s with Data v => Some v | Accessor _ => None end.

Section copy.
Context (h : heap) (limit : Z) (invalid exceeded : ModelBudgetErrorCode).

Definition invalid_value {A} : Count A := λ _, inr (mkBudgetError invalid None).

Definition add (count : Z) : Count () := λ bytes,
  let bytes := bytes + count in
  if limit <? bytes then inr (mkBudgetError exceeded (Some bytes)) else inl (tt, bytes).

Fixpoint count_units (text : jsstr) : Count () :=
  match text with
  | [] => mret tt
  | c :: rest =>
      if ((c =? 34) || (c =? 92) || (c =? 8) || (c =? 9) || (c =? 10) || (c =? 12) || (c =? 13))%N
      then add 2 ;; count_units rest
      else if (c <? 32)%N then add 6 ;; count_units rest
      else if (c <? 128)%N then add 1 ;; count_units rest
      else if (c <? 2048)%N then add 2 ;; count_units rest
      else if is_high c then
        match rest with
        | d :: rest' =>
            if is_low d then add 4 ;; count_units rest' else add 6 ;; count_units rest
        | [] => add 6
        end
      else if is_low c then add 6 ;; count_units rest
      else add 3 ;; count_units rest
  end.
Definition count_string (text : jsstr) : Count () := add 2 ;; count_units text.

Section loops.
Context (visit : jsval → Count json).

Fixpoint visit_items (first : bool) (items : list (option slot)) : Count (list json) :=
  match items with
  | [] => mret []
  | item :: items =>
      (if first then mret tt else add 1) ;;
      match item ≫= data with
      | Some v => j ← visit v; js ← visit_items false items; mret (j :: js)
      | None => invalid_value
      end
  end.

Fixpoint visit_props (first : bool) (props : list (jsstr * (bool * slot))) : Count fields :=
  match props with
  | [] => mret []
  | (key, (enumerable, s)) :: props =>
      if negb enumerable then visit_props first props
      else
        (if first then mret tt else add 1) ;;
        count_string key ;; add 1 ;;
        match data s with
        | Some v => j ← visit v; js ← visit_props false props; mret ((key, j) :: js)
        | None => invalid_value
        end
  end.
End loops.

(** [fuel] is what is left of the 33 levels the depth test allows: it runs out
    exactly where the code refuses. *)
Fixpoint visit (fuel : nat) (ancestors : gset N) (item : jsval) : Count json :=
  match fuel with
  | O => invalid_value
  | S fuel =>
      match item with
      | VNull => add 4 ;; mret JNull
      | VStr s => count_string s ;; mret (JStr s)
      | VBool b => add (if b then 4 else 5) ;; mret (JBool b)
      | VNum x => add (Z.of_nat (length (num_to_string x))) ;; mret (JNum x)
      | VRef a =>
          match h !! a with
          | Some (Arr items) =>
              if decide (a ∈ ancestors) then invalid_value
              else add 2 ;; l ← visit_items (visit fuel ({[a]} ∪ ancestors)) true items; mret (JArr l)
          | Some (Plain props) =>
              if decide (a ∈ ancestors) then invalid_value
              else add 2 ;; l ← visit_props (visit fuel ({[a]} ∪ ancestors)) true props; mret (JObj l)
          | _ => invalid_value
          end
      | _ => invalid_value
      end
  end.

Definition MAX_DEPTH : nat := 32.
Definition boundedCopy (value : jsval) : json * Z + ModelBudgetError :=
  visit (S MAX_DEPTH) ∅ value 0.
End copy.

(** ** Shape tests on the copy *)

Definition is_record (v : json) : bool := match v with JObj _ => true | _ => false end.
Definition is_string (v : option json) : bool := match v with Some (JStr _) => true | _ => false end.
Definition absent_or (p : json → bool) (v : option json) : bool := from_option p true v.
Definition says (s : jsstr) (v : option json) : bool :=
  match v with Some (JStr t) => bool_decide (t = s) | _ => false end.

Definition validBlock (block : json) : bool :=
  match block with
  | JObj b =>
      if says (js "text") (get (js "type") b) then is_string (get (js "text") b)
      else if says (js "tool_use") (get (js "type") b) then
        is_string (get (js "id") b) && is_string (get (js "name") b) &&
        from_option is_record false (get (js "input") b)
      else if says (js "tool_result") (get (js "type") b) then
        is_string (get (js "tool_use_id") b) && is_string (get (js "content") b) &&
        absent_or (λ v, match v with JBool _ => true | _ => false end) (get (js "is_error") b)
      else false
  | _ => false
  end.
Definition validContent (content : option json) : bool :=
  match content with Some (JArr blocks) => forallb validBlock blocks | _ => false end.

Definition validMessage (message : json) : bool :=
  match message with
  | JObj m =>
      (says (js "user") (get (js "role") m) || says (js "assistant") (get (js "role") m)) &&
      (is_string (get (js "content") m) || validContent (get (js "content") m))
  | _ => false
  end.
Definition validTool (tool : json) : bool :=
  match tool with
  | JObj t =>
      is_string (get (js "name") t) && is_string (get (js "description") t) &&
      from_option is_record false (get (js "input_schema") t)
  | _ => false
  end.
Definition all_of (p : json → bool) (v : json) : bool :=
  match v with JArr l => forallb p l | _ => false end.
Definition validRequest (request : json) : bool :=
  absent_or (λ v, is_string (Some v)) (member (js "system") request) &&
  from_option (all_of validMessage) false (member (js "messages") request) &&
  absent_or (all_of validTool) (member (js "tools") request).

Definition validStop (v : option json) : bool :=
  match v with
  | Some JNull => true
  | Some (JStr s) =>
      bool_decide (s ∈ [js "end_turn"; js "tool_use"; js "max_tokens"; js "stop_sequence"])
  | _ => false
  end.
Definition validResponse (copy : json) : bool :=
  is_record copy && is_string (member (js "id") copy) && validContent (member (js "content") copy) &&
  validStop (member (js "stop_reason") copy).

(** ** What is copied: the data a value stands for

    The reference: the tree of plain data below a value, where there is one of at
    most [depth] levels. *)
Section tree.
Context (h : heap).

Definition enumerable (kp : jsstr * (bool * slot)) : Prop := fst (snd kp) = true.
#[export] Instance enumerable_dec kp : Decision (enumerable kp).
Proof. unfold enumerable. apply _. Defined.

Fixpoint tree (depth : nat) (v : jsval) : option json :=
  match depth with
  | O => None
  | S depth =>
      match v with
      | VNull => Some JNull
      | VStr s => Some (JStr s)
      | VBool b => Some (JBool b)
      | VNum x => Some (JNum x)
      | VRef a =>
          match h !! a with
          | Some (Arr items) => JArr <$> mapM (λ s, (s ≫= data) ≫= tree depth) items
          | Some (Plain props) =>
              JObj <$> mapM (λ kp, pair (fst kp) <$> (data (snd (snd kp)) ≫= tree depth))
                            (filter enumerable props)
          | _ => None
          end
      | _ => None
      end
  end.
End tree.

(** The bytes a value takes on the wire. *)
Definition json_bytes (v : json) : Z := Z.of_nat (length (utf8 (JSON_stringify v))).

(** Strings are made of 16-bit code units. *)
Definition val_units (v : jsval) : Prop := match v with VStr s => units s | _ => True end.
Definition slot_units (s : slot) : Prop := match s with Data v => val_units v | Accessor _ => True end.
Definition obj_units (o : jsobj) : Prop :=
  match o with
  | Arr items => Forall (λ s, from_option slot_units True s) items
  | Plain props => Forall (λ kp, units (fst kp) ∧ slot_units (snd (snd kp))) props
  | Exotic => True
  end.
Definition heap_units (h : heap) : Prop := map_Forall (λ _, obj_units) h.

#[export] Instance val_units_dec v : Decision (val_units v).
Proof. destruct v; apply _. Defined.
#[export] Instance slot_units_dec s : Decision (slot_units s).
Proof. destruct s; apply _. Defined.
#[export] Instance obj_units_dec o : Decision (obj_units o).
Proof.
  destruct o; [|apply _|apply _]. apply Forall_dec. intros [s|]; simpl; apply _.
Defined.
#[export] Instance heap_units_dec h : Decision (heap_units h).
Proof. unfold heap_units. apply _. Defined.

(** One object holds a reference to another, where the copy would follow it. *)
Definition holds (h : heap) (a b : N) : Prop :=
  match h !! a with
  | Some (Arr items) => Some (Data (VRef b)) ∈ items
  | Some (Plain props) => ∃ k, (k, (true, Data (VRef b))) ∈ props
  | _ => False
  end.
