(* ===== verification/CopyExact.v ===== *)
(** * Bounded copies are exact

    [boundedCopy] of [BoundedCopy.v] against its reference: the copy is the tree of
    data below the value and the count is the size of its serialisation, for every heap,
    cyclic ones included. *)

From S2P Require Export JsonText BoundedCopy.
Open Scope Z_scope.

(** ** Facts: sizes of serialised text *)

Definition opens_plain (t : jsstr) : Prop := match t with c :: _ => is_low c = false | [] => True end.
Definition usize (s : jsstr) : Z := Z.of_nat (length (utf8 s)).

Lemma usize_app s t : opens_plain t → usize (s ++ t) = usize s + usize t.
Proof. intros H. unfold usize. rewrite utf8_app, length_app by done. lia. Qed.

Lemma usize_ascii s : ascii_only s → usize s = Z.of_nat (length s).
Proof. intros H. unfold usize. by rewrite utf8_ascii. Qed.

Lemma usize_nonneg s : 0 <= usize s.
Proof. unfold usize. lia. Qed.

Lemma opens_plain_app s t : opens_plain s → opens_plain t → opens_plain (s ++ t).
Proof. by destruct s. Qed.

Lemma ascii_opens s : ascii_only s → opens_plain s.
Proof.
  destruct s as [|c s]; simpl; [done|]. intros [H _]%Forall_cons.
  apply is_low_false. lia.
Qed.

Lemma u_escape_length c : length (u_escape c) = 6%nat.
Proof. reflexivity. Qed.

Lemma escape_unit_opens c : is_low c = false → opens_plain (escape_unit c).
Proof. intros H. unfold escape_unit. repeat case_match; simpl; try done. Qed.

Lemma escape_opens s : opens_plain (escape s).
Proof.
  by_surrogates s; try done; try (by apply escape_unit_opens);
    try (apply opens_plain_app; [by apply escape_unit_opens|done]).
  unfold opens_plain. apply is_low_false. surrogates. lia.
Qed.

Lemma usize_u_escape c t : opens_plain t → usize (u_escape c ++ t) = 6 + usize t.
Proof.
  intros H. rewrite usize_app by done. rewrite usize_ascii by apply u_escape_ascii.
  by rewrite u_escape_length.
Qed.

(** One unpaired code unit, by its range. *)
Lemma usize_unit c t :
  (c < 0x10000)%N → is_high c = false → is_low c = false → opens_plain t →
  usize (escape_unit c ++ t) = usize t +
    (if ((c =? 34) || (c =? 92) || (c =? 8) || (c =? 9) || (c =? 10) || (c =? 12) || (c =? 13))%N
     then 2 else if (c <? 32)%N then 6 else if (c <? 128)%N then 1 else if (c <? 2048)%N then 2 else 3).
Proof.
  intros Hc Hh Hl Ht. rewrite usize_app by done. rewrite Z.add_comm. f_equal.
  unfold escape_unit.
  destruct (c =? 8)%N eqn:E8; [by rewrite !orb_true_r|].
  destruct (c =? 9)%N eqn:E9; [by rewrite !orb_true_r|].
  destruct (c =? 10)%N eqn:E10; [by rewrite !orb_true_r|].
  destruct (c =? 12)%N eqn:E12; [by rewrite !orb_true_r|].
  destruct (c =? 13)%N eqn:E13; [by rewrite !orb_true_r|].
  destruct (c =? 34)%N eqn:E34; [done|].
  destruct (c =? 92)%N eqn:E92; [done|]. simpl.
  destruct (N.ltb_spec c 32).
  { rewrite usize_ascii by apply u_escape_ascii. by rewrite u_escape_length. }
  unfold usize, utf8. simpl. rewrite Hh, Hl. simpl. unfold utf8_scalar.
  destruct (N.ltb_spec c 128), (N.ltb_spec c 2048); try lia; simpl; try done.
  by rewrite (proj2 (N.ltb_lt c 65536)).
Qed.

Lemma usize_pair c d t :
  is_high c = true → is_low d = true → opens_plain t → usize (c :: d :: t) = 4 + usize t.
Proof.
  intros Hh Hl Ht. change (c :: d :: t) with ([c; d] ++ t). rewrite usize_app by done.
  f_equal. unfold usize, utf8. simpl. rewrite Hh, Hl. simpl.
  unfold utf8_scalar, astral. surrogates.
  by rewrite !(proj2 (N.ltb_ge _ _)) by lia.
Qed.

(** ** Facts: what counting costs *)

Section charges.
Context (h : heap) (limit : Z) (invalid exceeded : ModelBudgetErrorCode).

(** [m] makes [a] for [n] bytes: from any count it ends with [n] more, unless that
    passes the limit. *)
Definition charges {A} (a : A) (n : Z) (m : Count A) : Prop := ∀ bytes,
  (bytes + n <= limit → m bytes = inl (a, bytes + n)) ∧
  (limit < bytes + n → bytes <= limit → ∃ o, m bytes = inr (mkBudgetError exceeded (Some o)) ∧ limit < o <= bytes + n).

Lemma charges_ret {A} (a : A) : charges a 0 (mret a).
Proof. intros b. split; [|lia]. intros _. by rewrite Z.add_0_r. Qed.

Lemma charges_add n : charges tt n (add limit exceeded n).
Proof.
  intros b. unfold add. split; intros H.
  - by rewrite (proj2 (Z.ltb_ge _ _)).
  - intros _. rewrite (proj2 (Z.ltb_lt _ _)) by done. eexists. split; [done|]. lia.
Qed.

Lemma charges_bind {A C} (a : A) (c : C) n n' (m : Count A) (k : A → Count C) :
  0 <= n → 0 <= n' → charges a n m → charges c n' (k a) → charges c (n + n') (m ≫= k).
Proof.
  intros H0 H0' Hm Hk b. destruct (Hm b) as [Ho Hf]. unfold mbind, Count_bind.
  rewrite Z.add_assoc. destruct (decide (b + n <= limit)) as [Hb|Hb].
  - rewrite Ho by done. destruct (Hk (b + n)) as [Ho' Hf']. split; [exact Ho'|].
    intros Hl _. by apply Hf'.
  - split; [lia|]. intros _ Hle. destruct Hf as (o&->&Ho'); [lia|done|].
    exists o. split; [done|]. lia.
Qed.

Lemma charges_eq {A} (a : A) n n' m : charges a n m → n = n' → charges a n' m.
Proof. by intros ? <-. Qed.

(** What [count_units] adds for a unit that is not part of a pair. *)
Definition unit_cost (c : N) : Z :=
  if ((c =? 34) || (c =? 92) || (c =? 8) || (c =? 9) || (c =? 10) || (c =? 12) || (c =? 13))%N then 2
  else if (c <? 32)%N then 6 else if (c <? 128)%N then 1 else if (c <? 2048)%N then 2
  else if is_high c || is_low c then 6 else 3.

Lemma count_units_pair c d s :
  is_high c = true → is_low d = true →
  count_units limit exceeded (c :: d :: s) = (add limit exceeded 4 ;; count_units limit exceeded s).
Proof.
  intros Hc Hd. cbn [count_units]. rewrite Hc, Hd. surrogates.
  rewrite !(proj2 (N.eqb_neq c _)), !(proj2 (N.ltb_ge c _)) by lia. done.
Qed.

Lemma count_units_single c s b :
  (is_high c = true → match s with d :: _ => is_low d = false | [] => True end) →
  count_units limit exceeded (c :: s) b = (add limit exceeded (unit_cost c) ;; count_units limit exceeded s) b.
Proof.
  intros Hs. cbn [count_units]. unfold unit_cost.
  do 4 match goal with |- (if ?x then _ else _) _ = _ => destruct x; [done|] end.
  destruct (is_high c) eqn:Hh; simpl; [|by destruct (is_low c)].
  destruct s as [|d s]; [|by rewrite Hs].
  unfold mbind, Count_bind, add. simpl. by destruct (limit <? b + 6).
Qed.

Lemma charges_ext {A} (a : A) n m m' : (∀ b, m b = m' b) → charges a n m' → charges a n m.
Proof. intros E H b. rewrite !E. apply H. Qed.

Lemma charges_step n s t m :
  0 <= n → usize s = n + usize t → charges tt (usize t) m → charges tt (usize s) (add limit exceeded n ;; m).
Proof. intros Hn -> Hm. eapply charges_bind; [done|apply usize_nonneg|apply charges_add|done]. Qed.

Lemma unit_cost_surrogate c : (0xD800 <= c <= 0xDFFF)%N → unit_cost c = 6.
Proof.
  intros H. unfold unit_cost. rewrite !(proj2 (N.eqb_neq c _)), !(proj2 (N.ltb_ge c _)) by lia. simpl.
  destruct (is_high c) eqn:?, (is_low c) eqn:?; simpl; try done. surrogates. lia.
Qed.

Lemma usize_lone c s : (c < 0x10000)%N → lone c s → usize (escape (c :: s)) = unit_cost c + usize (escape s).
Proof.
  intros Hc Hs. rewrite escape_lone by done. pose proof (escape_opens s).
  destruct (is_high c) eqn:Hh; cbn [orb]; [|destruct (is_low c) eqn:Hl].
  - rewrite usize_u_escape by done. rewrite unit_cost_surrogate; [done|]. surrogates. lia.
  - rewrite usize_u_escape by done. rewrite unit_cost_surrogate; [done|]. surrogates. lia.
  - rewrite usize_unit by done. unfold unit_cost. by rewrite Hh, Hl, Z.add_comm.
Qed.

Lemma charges_lone c s :
  (c < 0x10000)%N → lone c s → charges tt (usize (escape s)) (count_units limit exceeded s) →
  charges tt (usize (escape (c :: s))) (count_units limit exceeded (c :: s)).
Proof.
  intros Hc Hs H. eapply charges_ext; [intros b; by apply count_units_single|].
  eapply charges_step; [|by apply usize_lone|exact H]. unfold unit_cost. by repeat case_match.
Qed.

Lemma charges_units s : units s → charges tt (usize (escape s)) (count_units limit exceeded s).
Proof.
  unfold units. induction s as [|c|c d s IH IHd] using jsstr_ind2.
  - intros _. apply charges_ret.
  - intros [H _]%Forall_cons. apply (charges_lone c []); [done|done|]. apply charges_ret.
  - intros [Hu1 [Hu2 Hu]%Forall_cons]%Forall_cons. destruct (is_high c && is_low d) eqn:E.
    + apply andb_true_iff in E as [Hc Hd]. rewrite count_units_pair by done.
      cbn [escape]. rewrite Hc, Hd. eapply charges_step; [done| |by apply IH].
      apply usize_pair; [done|done|apply escape_opens].
    + apply (charges_lone c (d :: s)); [done| |by apply IHd; constructor].
      intros Hc. by rewrite Hc in E.
Qed.

Lemma usize_quote s t : opens_plain t → usize (quote s ++ t) = 2 + usize (escape s) + usize t.
Proof.
  intros H. unfold quote. rewrite <- !app_assoc.
  rewrite usize_app by (apply opens_plain_app; [apply escape_opens|done]).
  rewrite usize_app by done. rewrite usize_app by done. change (usize [34%N]) with 1. lia.
Qed.

Lemma charges_string s :
  units s → charges tt (usize (quote s)) (count_string limit exceeded s).
Proof.
  intros H. rewrite <- (app_nil_r (quote s)). unfold count_string.
  eapply charges_step; [done| |by apply charges_units]. rewrite usize_quote by done.
  change (usize []) with 0. lia.
Qed.
End charges.

(** ** Facts: the size of a value from the sizes of its parts *)

Fixpoint list_bytes (first : bool) (l : list Z) : Z :=
  match l with
  | [] => 0
  | n :: l => (if first then 0 else 1) + (n + list_bytes false l)
  end.

Lemma list_bytes_nonneg first l : Forall (λ n, 0 <= n) l → 0 <= list_bytes first l.
Proof. intros H. revert first. induction H; intros first; simpl; [done|]. pose proof (IHForall false). case_match; lia. Qed.

Lemma join_opens l : Forall opens_plain l → opens_plain (join (js ",") l).
Proof.
  intros H. induction H as [|x l Hx Hl IH]; [done|]. destruct l; [done|].
  simpl. by apply opens_plain_app.
Qed.

Lemma usize_join l t :
  Forall opens_plain l → opens_plain t →
  usize (join (js ",") l ++ t) = list_bytes true (usize <$> l) + usize t.
Proof.
  intros H Ht. induction H as [|x l Hx Hl IH]; [done|]. destruct l as [|y l].
  { simpl. rewrite usize_app by done. lia. }
  change (join (js ",") (x :: y :: l)) with (x ++ js "," ++ join (js ",") (y :: l)).
  rewrite <- !app_assoc, usize_app by done.
  rewrite usize_app by (apply opens_plain_app; [by apply join_opens|done]).
  rewrite IH. change (usize (js ",")) with 1. simpl. lia.
Qed.

Lemma prop_bytes k t : opens_plain t → usize (quote k ++ js ":" ++ t) = usize (quote k) + (1 + usize t).
Proof.
  intros H. rewrite usize_app by done. rewrite usize_app by done. done.
Qed.

Lemma stringify_opens j : opens_plain (JSON_stringify j).
Proof. destruct j as [|[]|n| | |]; try done. apply ascii_opens, num_to_string_ascii. Qed.

Lemma json_bytes_nonneg j : 0 <= json_bytes j.
Proof. unfold json_bytes. lia. Qed.

Lemma json_bytes_arr l : json_bytes (JArr l) = 2 + list_bytes true (json_bytes <$> l).
Proof.
  change (json_bytes (JArr l)) with
    (usize (js "[" ++ join (js ",") (map JSON_stringify l) ++ js "]")).
  assert (Forall opens_plain (map JSON_stringify l)) as Hl.
  { apply Forall_forall. intros s Hs. apply list_elem_of_In, in_map_iff in Hs as (j&<-&_).
    apply stringify_opens. }
  rewrite usize_app by (apply opens_plain_app; [by apply join_opens|done]).
  rewrite usize_join by done. change (usize (js "[")) with 1. change (usize (js "]")) with 1.
  change (map JSON_stringify l) with (JSON_stringify <$> l). rewrite <- list_fmap_compose.
  change (usize ∘ JSON_stringify) with json_bytes. lia.
Qed.

Definition member_bytes (kj : jsstr * json) : Z := usize (quote (fst kj)) + (1 + json_bytes (snd kj)).

Lemma json_bytes_obj fs : json_bytes (JObj fs) = 2 + list_bytes true (member_bytes <$> fs).
Proof.
  set (text := λ kv : jsstr * json, quote (fst kv) ++ js ":" ++ JSON_stringify (snd kv)).
  change (json_bytes (JObj fs)) with (usize (js "{" ++ join (js ",") (map text fs) ++ js "}")).
  assert (Forall opens_plain (map text fs)) as Hl.
  { apply Forall_forall. intros s Hs. by apply list_elem_of_In, in_map_iff in Hs as (kv&<-&_). }
  rewrite usize_app by (apply opens_plain_app; [by apply join_opens|done]).
  rewrite usize_join by done. change (usize (js "{")) with 1. change (usize (js "}")) with 1.
  change (map text fs) with (text <$> fs). rewrite <- list_fmap_compose.
  rewrite (list_fmap_ext (usize ∘ text) member_bytes fs); [lia|].
  intros i [k j] _. apply prop_bytes, stringify_opens.
Qed.

Lemma list_bytes_elem n l first : n ∈ l → Forall (λ n, 0 <= n) l → n <= list_bytes first l.
Proof.
  intros Hn Hl. revert first. induction Hl as [|m l Hm Hl IH]; intros first; [set_solver|].
  simpl. apply elem_of_cons in Hn as [->|Hn].
  - pose proof (list_bytes_nonneg false l Hl). case_match; lia.
  - specialize (IH Hn false). case_match; lia.
Qed.

Lemma items_nonneg l first : 0 <= list_bytes first (json_bytes <$> l).
Proof. apply list_bytes_nonneg, Forall_fmap, Forall_true. intros; apply json_bytes_nonneg. Qed.
Lemma member_bytes_nonneg kj : 0 <= member_bytes kj.
Proof. unfold member_bytes. pose proof (usize_nonneg (quote (fst kj))). pose proof (json_bytes_nonneg (snd kj)). lia. Qed.
Lemma members_nonneg fs first : 0 <= list_bytes first (member_bytes <$> fs).
Proof. apply list_bytes_nonneg, Forall_fmap, Forall_true. intros; apply member_bytes_nonneg. Qed.

(** A part is smaller than the whole. *)
Lemma arr_bytes_lt j l : j ∈ l → json_bytes j < json_bytes (JArr l).
Proof.
  intros Hj. rewrite json_bytes_arr.
  assert (json_bytes j <= list_bytes true (json_bytes <$> l)); [|lia].
  apply list_bytes_elem; [set_solver|]. apply Forall_fmap, Forall_true. intros; apply json_bytes_nonneg.
Qed.
Lemma obj_bytes_lt k j fs : (k, j) ∈ fs → json_bytes j < json_bytes (JObj fs).
Proof.
  intros Hj. rewrite json_bytes_obj.
  assert (member_bytes (k, j) <= list_bytes true (member_bytes <$> fs)) as H.
  { apply list_bytes_elem; [by apply list_elem_of_fmap_2|].
    apply Forall_fmap, Forall_true. intros; apply member_bytes_nonneg. }
  unfold member_bytes in H at 1. simpl in H. pose proof (usize_nonneg (quote k)). lia.
Qed.

(** ** Facts: the copy is the tree *)

Section exact.
Context (h : heap) (limit : Z) (invalid exceeded : ModelBudgetErrorCode).
Notation charges := (charges limit exceeded).

Lemma items_charges vis items l first :
  Forall2 (λ s j, ∃ v, s ≫= data = Some v ∧ charges j (json_bytes j) (vis v)) items l →
  charges l (list_bytes first (json_bytes <$> l)) (visit_items limit invalid exceeded vis first items).
Proof.
  intros H. revert first. induction H as [|s j items l (v&Hv&Hj) _ IH]; intros first; simpl.
  { apply charges_ret. }
  pose proof (items_nonneg l) as Hl. pose proof (json_bytes_nonneg j). rewrite Hv. eapply (charges_bind _ _ tt); [by case_match| | |].
  { apply Z.add_nonneg_nonneg; [done|apply Hl]. }
  { destruct first; [apply charges_ret|apply charges_add]. }
  eapply charges_bind; [done|done|exact Hj|].
  rewrite <- (Z.add_0_r (list_bytes _ _)).
  eapply charges_bind; [done|done|apply IH|]. apply charges_ret.
Qed.

Lemma props_charges vis props l first :
  Forall2 (λ kp kj, fst kj = fst kp ∧ units (fst kp) ∧
             ∃ v, data (snd (snd kp)) = Some v ∧ charges (snd kj) (json_bytes (snd kj)) (vis v))
    (filter enumerable props) l →
  charges l (list_bytes first (member_bytes <$> l)) (visit_props limit invalid exceeded vis first props).
Proof.
  revert l first. induction props as [|[k [e s]] props IH]; intros l first; simpl.
  { intros ->%Forall2_nil_inv_l. apply charges_ret. }
  rewrite filter_cons. unfold enumerable at 1. simpl. destruct e; simpl; [|apply IH].
  intros (j&l'&(Hk&Hu&v&Hv&Hj)&H&->)%Forall2_cons_inv_l. destruct j as [k' j]. simpl in *. subst k'.
  pose proof (members_nonneg l') as Hl. pose proof (json_bytes_nonneg j). pose proof (usize_nonneg (quote k)).
  rewrite Hv. eapply (charges_bind _ _ tt); [by case_match| | |].
  { apply Z.add_nonneg_nonneg; [apply member_bytes_nonneg|apply Hl]. }
  { destruct first; [apply charges_ret|apply charges_add]. }
  pose proof (Hl false). unfold member_bytes at 1. simpl.
  change (list_fmap _ _ member_bytes l') with (member_bytes <$> l'). rewrite <- Z.add_assoc.
  eapply (charges_bind _ _ tt); [done|lia|by apply charges_string|]. rewrite <- Z.add_assoc.
  eapply (charges_bind _ _ tt); [done|lia|apply charges_add|].
  eapply charges_bind; [done|done|exact Hj|].
  rewrite <- (Z.add_0_r (list_bytes _ _)).
  eapply charges_bind; [done|done|by apply IH|]. apply charges_ret.
Qed.

Lemma mapM_mono {A C} (f g : A → option C) l k :
  (∀ x y, f x = Some y → g x = Some y) → mapM f l = Some k → mapM g l = Some k.
Proof. intros Hfg H%mapM_Some_1. apply mapM_Some_2. eapply Forall2_impl; [exact H|]. simpl. auto. Qed.

Lemma tree_mono d d' v j : (d <= d')%nat → tree h d v = Some j → tree h d' v = Some j.
Proof.
  revert d' v j. induction d as [|d IH]; intros d' v j Hd; [done|].
  destruct d' as [|d']; [lia|]. destruct v; simpl; try done.
  destruct (h !! a) as [[items|props|]|]; [| |done|done].
  - intros (l&Hl&->)%fmap_Some. erewrite mapM_mono; [done| |exact Hl]. intros s y (v&Hv&Hy)%bind_Some.
    rewrite Hv. simpl. apply IH; [lia|done].
  - intros (l&Hl&->)%fmap_Some. erewrite mapM_mono; [done| |exact Hl]. intros kp y Hy. simpl in *.
    apply fmap_Some in Hy as (z&(v&Hv&Hz)%bind_Some&->).
    rewrite Hv. simpl. rewrite (IH d' v z); [done|lia|done].
Qed.

Lemma tree_unique d d' v j j' : tree h d v = Some j → tree h d' v = Some j' → j = j'.
Proof.
  intros H H'. apply (tree_mono _ (d + d')) in H; [|lia]. apply (tree_mono _ (d + d')) in H'; [|lia].
  congruence.
Qed.
(** Every object on the path stands for something larger than [j]. *)
Definition above (ancestors : gset N) (j : json) : Prop := ∀ a,
  a ∈ ancestors → ∃ d ja, tree h d (VRef a) = Some ja ∧ json_bytes j < json_bytes ja.

Lemma above_not_in ancestors a d j : above ancestors j → tree h d (VRef a) = Some j → a ∉ ancestors.
Proof.
  intros Ha Hj Hin. destruct (Ha a Hin) as (d'&ja&Hja&Hlt).
  rewrite (tree_unique _ _ _ _ _ Hj Hja) in Hlt. lia.
Qed.

Lemma above_part ancestors a d j j' :
  above ancestors j → tree h d (VRef a) = Some j → json_bytes j' < json_bytes j →
  above ({[a]} ∪ ancestors) j'.
Proof.
  intros Ha Hj Hlt b [->%elem_of_singleton|Hb]%elem_of_union; [eauto|].
  destruct (Ha b Hb) as (d'&jb&Hjb&Hb'). exists d', jb. split; [done|]. lia.
Qed.

Lemma data_units s v : data s = Some v → slot_units s → val_units v.
Proof. destruct s; simpl; [|done]. by intros [= ->]. Qed.

Lemma visit_charges d ancestors v j :
  heap_units h → val_units v → tree h d v = Some j → above ancestors j →
  charges j (json_bytes j) (visit h limit invalid exceeded d ancestors v).
Proof.
  intros Hh. revert ancestors v j. induction d as [|d IH]; intros anc v j Hv; [done|].
  intros Hj Ha. pose proof Hj as Htree. revert Hj. destruct v as [| |b|x| |s| |a]; simpl; try done.
  1-4: intros [= <-]; rewrite <- (Z.add_0_r (json_bytes _));
    (eapply (charges_bind _ _ tt); [apply json_bytes_nonneg|done| |apply charges_ret]).
  - apply charges_add.
  - by destruct b; apply charges_add.
  - eapply charges_eq; [apply charges_add|]. symmetry. apply usize_ascii, num_to_string_ascii.
  - by apply charges_string.
  - destruct (h !! a) as [[items|props|]|] eqn:Eo; [| |done|done]; pose proof (Hh _ _ Eo) as Hu;
      rewrite decide_False by (by eapply above_not_in).
    + intros (l&Hl&->)%fmap_Some. rewrite json_bytes_arr.
      eapply (charges_bind _ _ tt); [done| |apply charges_add|].
      { apply items_nonneg. }
      rewrite <- (Z.add_0_r (list_bytes _ _)).
      eapply (charges_bind _ _ l); [|done| |apply charges_ret].
      { apply items_nonneg. }
      apply items_charges. apply mapM_Some_1 in Hl. simpl in Hu.
      apply Forall2_same_length_lookup. split; [by eapply Forall2_length|].
      intros i s j Hs Hji. pose proof (Forall2_lookup_lr _ _ _ _ _ _ Hl Hs Hji) as (v&Hsv&Hvj)%bind_Some.
      exists v. split; [done|]. apply IH; [|done|].
      * apply (Forall_lookup_1 _ _ _ _ Hu) in Hs. destruct s as [s|]; [|done]. by eapply data_units.
      * eapply above_part; [done|exact Htree|]. by eapply arr_bytes_lt, list_elem_of_lookup_2.
    + intros (l&Hl&->)%fmap_Some. rewrite json_bytes_obj.
      eapply (charges_bind _ _ tt); [done| |apply charges_add|].
      { apply members_nonneg. }
      rewrite <- (Z.add_0_r (list_bytes _ _)).
      eapply (charges_bind _ _ l); [|done| |apply charges_ret].
      { apply members_nonneg. }
      apply props_charges. apply mapM_Some_1 in Hl. simpl in Hu.
      apply Forall2_same_length_lookup. split; [by eapply Forall2_length|].
      intros i kp [k j] Hs Hji. pose proof (Forall2_lookup_lr _ _ _ _ _ _ Hl Hs Hji) as Hk. simpl in Hk.
      apply fmap_Some in Hk as (j'&(v&Hsv&Hvj)%bind_Some&[= -> <-]). split; [done|].
      assert (kp ∈ props) as Hin by (by apply list_elem_of_lookup_2, list_elem_of_filter in Hs as []).
      rewrite Forall_forall in Hu. destruct (Hu _ Hin) as [Hk Hsu]. split; [done|].
      exists v. split; [done|]. apply IH; [by eapply data_units|done|].
      eapply above_part; [done|exact Htree|]. by eapply obj_bytes_lt, list_elem_of_lookup_2.
Qed.

Lemma items_sound vis (f : jsval → option json) items first bytes l bytes' :
  (∀ v b j b', vis v b = inl (j, b') → f v = Some j) →
  visit_items limit invalid exceeded vis first items bytes = inl (l, bytes') →
  mapM (λ s, (s ≫= data) ≫= f) items = Some l.
Proof.
  intros Hf. revert first bytes l bytes'.
  induction items as [|s items IH]; intros first b l b'; cbn [visit_items].
  { by intros [= <- <-]. }
  unfold mbind at 1, Count_bind. case_match eqn:E0; [|done]. destruct p as [[] b0].
  destruct (s ≫= data) as [v|] eqn:Es; [|done]. unfold mbind at 1, Count_bind.
  destruct (vis v b0) as [[j b1]|] eqn:E1; [|done]. apply Hf in E1.
  assert ((s ≫= data) ≫= f = Some j) as E1' by (by rewrite Es). unfold mbind, Count_bind.
  destruct (visit_items _ _ _ _ _ _ _) as [[l1 b2]|] eqn:E2; [|done]. apply IH in E2.
  intros [= <- <-]. apply mapM_Some_2. constructor; [exact E1'|by apply mapM_Some_1].
Qed.

Lemma props_sound vis (f : jsval → option json) props first bytes l bytes' :
  (∀ v b j b', vis v b = inl (j, b') → f v = Some j) →
  visit_props limit invalid exceeded vis first props bytes = inl (l, bytes') →
  mapM (λ kp, pair (fst kp) <$> (data (snd (snd kp)) ≫= f)) (filter enumerable props) = Some l.
Proof.
  intros Hf. revert first bytes l bytes'.
  induction props as [|[k [e s]] props IH]; intros first b l b'; cbn [visit_props].
  { by intros [= <- <-]. }
  destruct e; cbn [negb]; [|rewrite filter_cons_False by done; apply IH].
  rewrite filter_cons_True by done. unfold mbind at 1, Count_bind. case_match eqn:E0; [|done]. destruct p as [[] b0].
  unfold mbind at 1, Count_bind. destruct (count_string _ _ k b0) as [[[] b1]|]; [|done].
  unfold mbind at 1, Count_bind. destruct (add _ _ 1 b1) as [[[] b2]|]; [|done].
  destruct (data s) as [v|] eqn:Es; [|done]. unfold mbind at 1, Count_bind.
  destruct (vis v b2) as [[j b3]|] eqn:E1; [|done]. apply Hf in E1.
  assert (pair k <$> (data s ≫= f) = Some (k, j)) as E1' by (rewrite Es; simpl; by rewrite E1). unfold mbind, Count_bind.
  destruct (visit_props _ _ _ _ _ _ _) as [[l1 b4]|] eqn:E2; [|done]. apply IH in E2.
  intros [= <- <-]. apply mapM_Some_2. constructor; [exact E1'|by apply mapM_Some_1].
Qed.

Lemma count_inl {A C} (m : Count A) (k : A → Count C) b c b' :
  (m ≫= k) b = inl (c, b') → ∃ a b1, m b = inl (a, b1) ∧ k a b1 = inl (c, b').
Proof. unfold mbind, Count_bind. destruct (m b) as [[a b1]|]; [eauto|done]. Qed.

Lemma visit_sound d ancestors v bytes j bytes' :
  visit h limit invalid exceeded d ancestors v bytes = inl (j, bytes') → tree h d v = Some j.
Proof.
  revert ancestors v bytes j bytes'. induction d as [|d IH]; intros anc v b j b'; [done|].
  destruct v as [| |x|x| |s| |a]; simpl; try done.
  1-4: intros (?&?&_&[= <- <-])%count_inl; done.
  destruct (h !! a) as [[items|props|]|]; [| |done|done]; (case_decide; [done|]);
    intros ([]&b1&_&(l&b2&Hl&[= <- <-])%count_inl)%count_inl.
  - apply (items_sound _ (tree h d)) in Hl; [by rewrite Hl|]. eauto.
  - apply (props_sound _ (tree h d)) in Hl; [by rewrite Hl|]. eauto.
Qed.

(** A refusal is one of the two the caller named. *)
Definition refusal (e : ModelBudgetError) : Prop :=
  e = mkBudgetError invalid None ∨ ∃ o, e = mkBudgetError exceeded (Some o) ∧ limit < o.
Definition refuses {A} (m : Count A) : Prop := ∀ b e, m b = inr e → refusal e.

Lemma refuses_bind {A C} (m : Count A) (k : A → Count C) :
  refuses m → (∀ a, refuses (k a)) → refuses (m ≫= k).
Proof.
  intros Hm Hk b e. unfold mbind, Count_bind. destruct (m b) as [[a b']|] eqn:E; [apply Hk|].
  intros [= <-]. eauto.
Qed.
Lemma refuses_ret {A} (a : A) : refuses (mret a).
Proof. intros b e. done. Qed.
Lemma refuses_refuse {A} : refuses (@invalid_value invalid A).
Proof. intros b e [= <-]. by left. Qed.
Lemma refuses_add n : refuses (add limit exceeded n).
Proof.
  intros b e. unfold add. simpl. destruct (Z.ltb_spec limit (b + n)); [|done].
  intros [= <-]. right. eauto.
Qed.
Lemma refuses_units s : refuses (count_units limit exceeded s).
Proof.
  assert (∀ c s, lone c s → refuses (count_units limit exceeded s) →
    refuses (count_units limit exceeded (c :: s))) as Hlone.
  { intros c k Hc Hk b e. rewrite count_units_single by done. revert b e.
    apply refuses_bind; [apply refuses_add|]. by intros []. }
  induction s as [|c|c d s IH IHd] using jsstr_ind2; [apply refuses_ret|by apply Hlone|].
  destruct (is_high c && is_low d) eqn:E.
  - apply andb_true_iff in E as [Hc Hd]. rewrite count_units_pair by done.
    apply refuses_bind; [apply refuses_add|]. by intros [].
  - apply Hlone; [|done]. intros Hc. by rewrite Hc in E.
Qed.

Lemma refuses_string s : refuses (count_string limit exceeded s).
Proof. apply refuses_bind; [apply refuses_add|]. intros []. apply refuses_units. Qed.

Lemma refuses_items vis items first :
  (∀ v, refuses (vis v)) → refuses (visit_items limit invalid exceeded vis first items).
Proof.
  intros Hv. revert first. induction items as [|s items IH]; intros first; cbn [visit_items]; [apply refuses_ret|].
  apply refuses_bind; [destruct first; [apply refuses_ret|apply refuses_add]|]. intros [].
  destruct (s ≫= data) as [v|]; [|apply refuses_refuse].
  apply refuses_bind; [apply Hv|]. intros j. apply refuses_bind; [apply IH|]. intros l. apply refuses_ret.
Qed.

Lemma refuses_props vis props first :
  (∀ v, refuses (vis v)) → refuses (visit_props limit invalid exceeded vis first props).
Proof.
  intros Hv. revert first. induction props as [|[k [e s]] props IH]; intros first; cbn [visit_props]; [apply refuses_ret|].
  destruct e; cbn [negb]; [|apply IH].
  apply refuses_bind; [destruct first; [apply refuses_ret|apply refuses_add]|]. intros [].
  apply refuses_bind; [apply refuses_string|]. intros []. apply refuses_bind; [apply refuses_add|]. intros [].
  destruct (data s) as [v|]; [|apply refuses_refuse].
  apply refuses_bind; [apply Hv|]. intros j. apply refuses_bind; [apply IH|]. intros l. apply refuses_ret.
Qed.

Lemma refuses_visit d ancestors v : refuses (visit h limit invalid exceeded d ancestors v).
Proof.
  revert ancestors v. induction d as [|d IH]; intros anc v; cbn [visit]; [apply refuses_refuse|].
  destruct v as [| |x|x| |s| |a]; try apply refuses_refuse;
    try (apply refuses_bind; [first [apply refuses_add|apply refuses_string]|]; intros []; apply refuses_ret).
  destruct (h !! a) as [[items|props|]|]; try apply refuses_refuse;
    (case_decide; [apply refuses_refuse|]); (apply refuses_bind; [apply refuses_add|]; intros []);
    (apply refuses_bind; [|intros l; apply refuses_ret]); [apply refuses_items|apply refuses_props]; intros v; apply IH.
Qed.

(** The copy in one statement: it is the tree, at its size, when that fits. *)
Lemma boundedCopy_tree v :
  heap_units h → val_units v → 0 <= limit →
  match tree h (S MAX_DEPTH) v with
  | Some j =>
      if json_bytes j <=? limit then boundedCopy h limit invalid exceeded v = inl (j, json_bytes j)
      else ∃ o, boundedCopy h limit invalid exceeded v = inr (mkBudgetError exceeded (Some o)) ∧
                limit < o <= json_bytes j
  | None => ∃ e, boundedCopy h limit invalid exceeded v = inr e ∧ refusal e
  end.
Proof.
  intros Hh Hv Hl. unfold boundedCopy. generalize (S MAX_DEPTH). intros d.
  destruct (tree h d v) as [j|] eqn:E.
  - assert (above ∅ j) as Ha by (intros a; set_solver).
    destruct (visit_charges d ∅ v j Hh Hv E Ha 0) as [Ho Hf]. rewrite Z.add_0_l in *.
    destruct (Z.leb_spec (json_bytes j) limit); [by apply Ho|]. apply Hf; lia.
  - destruct (visit _ _ _ _ _ _ _ _) as [[k b]|e] eqn:Ec.
    + apply visit_sound in Ec. congruence.
    + exists e. split; [done|]. by eapply refuses_visit.
Qed.

(** What every successful copy promises, whatever the heap. *)
Lemma boundedCopy_inl v j n :
  heap_units h → val_units v → 0 <= limit → boundedCopy h limit invalid exceeded v = inl (j, n) →
  tree h (S MAX_DEPTH) v = Some j ∧ n = json_bytes j ∧ n <= limit.
Proof.
  intros Hh Hv Hl E. pose proof (boundedCopy_tree v Hh Hv Hl) as H.
  destruct (tree h (S MAX_DEPTH) v) as [k|].
  - destruct (Z.leb_spec (json_bytes k) limit) as [Hle|Hlt].
    + rewrite E in H. injection H as -> ->. done.
    + destruct H as (o&H&_). congruence.
  - destruct H as (e&H&_). congruence.
Qed.

(** *** Cycles *)

Lemma tree_holds d a b j :
  tree h d (VRef a) = Some j → holds h a b →
  ∃ d' j', tree h d' (VRef b) = Some j' ∧ json_bytes j' < json_bytes j.
Proof.
  destruct d as [|d]; [done|]. simpl. unfold holds.
  destruct (h !! a) as [[items|props|]|]; [| |done|done].
  - intros (l&Hl%mapM_Some_1&->)%fmap_Some (i&Hi)%list_elem_of_lookup_1.
    destruct (Forall2_lookup_l _ _ _ _ _ Hl Hi) as (j&Hj&Hb). exists d, j.
    split; [exact Hb|]. by eapply arr_bytes_lt, list_elem_of_lookup_2.
  - intros (l&Hl%mapM_Some_1&->)%fmap_Some (k&Hk).
    assert ((k, (true, Data (VRef b))) ∈ filter enumerable props) as (i&Hi)%list_elem_of_lookup_1
      by (by apply list_elem_of_filter).
    destruct (Forall2_lookup_l _ _ _ _ _ Hl Hi) as ([k' j]&Hj&(j'&Hb&[= -> ->])%fmap_Some).
    exists d, j'. split; [exact Hb|]. by eapply obj_bytes_lt, list_elem_of_lookup_2.
Qed.

Lemma tree_reaches d a b j :
  tree h d (VRef a) = Some j → rtc (holds h) a b →
  ∃ d' j', tree h d' (VRef b) = Some j' ∧ json_bytes j' <= json_bytes j.
Proof.
  intros Hj Hr. revert d j Hj. induction Hr as [a|a b c Hab Hbc IH]; intros d j Hj; [exists d, j; split; [done|lia]|].
  destruct (tree_holds _ _ _ _ Hj Hab) as (d1&j1&H1&Hlt). destruct (IH _ _ H1) as (d2&j2&H2&Hle).
  exists d2, j2. split; [done|lia].
Qed.

Lemma cycle_has_no_tree d a b : rtc (holds h) a b → tc (holds h) b b → tree h d (VRef a) = None.
Proof.
  intros Hab Hbb. destruct (tree h d (VRef a)) as [j|] eqn:E; [exfalso|done].
  destruct (tree_reaches _ _ _ _ E Hab) as (d1&j1&H1&_).
  assert (∃ c, holds h b c ∧ rtc (holds h) c b) as (c&Hbc&Hcb).
  { inversion Hbb; subst; eauto using rtc_refl, tc_rtc. }
  destruct (tree_holds _ _ _ _ H1 Hbc) as (d2&j2&H2&Hlt).
  destruct (tree_reaches _ _ _ _ H2 Hcb) as (d3&j3&H3&Hle).
  rewrite (tree_unique _ _ _ _ _ H1 H3) in Hlt. lia.
Qed.
End exact.

(** ** Properties *)

(** C36: [boundedCopy] is exactly the reference: it returns a copy just when the value
    is plain data of at most 33 levels whose serialisation fits the limit, and then the
    copy is that data and the count is the length of the UTF-8 of [JSON.stringify] of
    it, computed without building the text. Data that is too long is refused with the
    code for that and a count above the limit and no larger than the real size;
    everything else (holes, accessors, undefined, class instances, non-finite
    numbers, more levels) is refused with one of the two codes, and so is every value
    that reaches a cycle of objects. *)
Theorem bounded_copy_exact h limit invalid exceeded v :
  heap_units h → val_units v → 0 <= limit →
  (∀ j n, boundedCopy h limit invalid exceeded v = inl (j, n) ↔
          tree h 33 v = Some j ∧ n = json_bytes j ∧ n <= limit) ∧
  (∀ j, tree h 33 v = Some j → limit < json_bytes j →
        ∃ o, boundedCopy h limit invalid exceeded v = inr (mkBudgetError exceeded (Some o)) ∧
             limit < o <= json_bytes j) ∧
  (∀ e, boundedCopy h limit invalid exceeded v = inr e → refusal limit invalid exceeded e) ∧
  (∀ a b, v = VRef a → rtc (holds h) a b → tc (holds h) b b →
          ∃ e, boundedCopy h limit invalid exceeded v = inr e).
Proof.
  intros Hh Hv Hl. pose proof (boundedCopy_tree h limit invalid exceeded v Hh Hv Hl) as H.
  change 33%nat with (S MAX_DEPTH). split_and!.
  - intros j n. split; [by apply boundedCopy_inl|]. intros (Hj&->&Hle). rewrite Hj in H.
    by rewrite (proj2 (Z.leb_le _ _)) in H.
  - intros j Hj Hlt. rewrite Hj in H. by rewrite (proj2 (Z.leb_gt _ _)) in H.
  - intros e. apply refuses_visit.
  - intros a b -> Hab Hbb. rewrite (cycle_has_no_tree h _ a b Hab Hbb) in H.
    destruct H as (e&H&_). eauto.
Qed.

(** An object holding one array twice, and an array that holds itself. *)
Definition demo_heap : heap :=
  {[ 1%N := Plain [(js "a", (true, Data (VRef 2))); (js "b", (true, Data (VRef 2)));
                   (js "hidden", (false, Data VOther))];
     2%N := Arr [Some (Data (VStr [0xD800%N; 233%N])); Some (Data VNull)];
     3%N := Arr [Some (Data (VRef 3))] ]}.

Lemma bounded_copy_exact_witness :
  let inner := JArr [JStr [0xD800%N; 233%N]; JNull] in
  boundedCopy demo_heap 45 INVALID_REQUEST REQUEST_BYTES_LIMIT (VRef 1) =
    inl (JObj [(js "a", inner); (js "b", inner)], 45) ∧
  (∃ o, boundedCopy demo_heap 44 INVALID_REQUEST REQUEST_BYTES_LIMIT (VRef 1) =
          inr (mkBudgetError REQUEST_BYTES_LIMIT (Some o)) ∧ 44 < o <= 45) ∧
  (∃ e, boundedCopy demo_heap 1000 INVALID_REQUEST REQUEST_BYTES_LIMIT (VRef 3) = inr e).
Proof.
  intros inner. assert (heap_units demo_heap) as Hh by by_compute. split_and!.
  - apply (bounded_copy_exact demo_heap 45 _ _ (VRef 1) Hh I ltac:(lia)). split_and!; by vm_compute.
  - apply (proj1 (proj2 (bounded_copy_exact demo_heap 44 INVALID_REQUEST REQUEST_BYTES_LIMIT
      (VRef 1) Hh I ltac:(lia))) (JObj [(js "a", inner); (js "b", inner)])); vm_compute; done.
  - apply (proj2 (proj2 (proj2 (bounded_copy_exact demo_heap 1000 INVALID_REQUEST REQUEST_BYTES_LIMIT
      (VRef 3) Hh I ltac:(lia)))) 3%N 3%N); [done|done|]. apply tc_once. by apply list_elem_of_here.
Defined.
