(* ===== verification/NativeScope.v ===== *)
(** * Native operation scopes

    [createNativeOperationScope] of [packages/engine/src/llm/native-operation-scope.ts]:
    the register of the transports a workflow has open and of the native operations
    (fetches, reads, cancels) still pending on them, which a host joins to know that
    nothing is left running; and [bindAttempt] of
    [packages/engine/src/workflows/model-budget.ts], the view of one register each
    model call gets. *)

From S2P Require Export Prelude.
Open Scope Z_scope.

(** ** The register *)

Inductive NativeIoObservation := UNOBSERVED | TRACKED_PENDING | SETTLED.
#[export] Instance NativeIoObservation_eq_dec : EqDecision NativeIoObservation.
Proof. solve_decision. Defined.
Inductive NativeIoKind := io_fetch | io_read | io_cancel.
Inductive native_error :=
  | NATIVE_SCOPE_SEALED | NATIVE_TRANSPORT_CAP | NATIVE_TRANSPORT_CLOSED
  | NATIVE_PENDING_CAP | NATIVE_JOIN_CAP | NATIVE_ATTEMPT_CANNOT_SEAL
  | START_THREW (** what the operation itself threw *).
#[export] Instance native_error_eq_dec : EqDecision native_error.
Proof. solve_decision. Defined.

Definition SAT : Z := 2147483647.
Definition PENDING_CAP : nat := 64.
Definition TRANSPORT_CAP : nat := 16.
Definition JOIN_CAP : nat := 16.
Definition satInc (n : Z) : Z := if SAT <=? n then SAT else n + 1.

(** [nsc_producers] holds every transport object made, by id, with its
    [producerOpen]; [nsc_transports] and [nsc_pending] are the two collections of
    the closure. Operations and join promises are known by [nsc_fresh], the next
    identity; [nsc_resolved] are the promises [join] has resolved. *)
Record Scope := mkScope {
  nsc_producers : gmap N bool;
  nsc_transports : gset N;
  nsc_pending : gmap N NativeIoKind;
  nsc_waiters : list N;
  nsc_resolved : list N;
  nsc_nextId : N;
  nsc_fresh : N;
  nsc_sealed : bool;
  nsc_instrumented : bool;
  nsc_registered : Z;
  nsc_settled : Z;
}.

Definition createNativeOperationScope : Scope :=
  mkScope ∅ ∅ ∅ [] [] 1 0 false false 0 0.

Definition isSettled (s : Scope) : bool :=
  nsc_instrumented s && nsc_sealed s && bool_decide (nsc_transports s = ∅) &&
  bool_decide (nsc_pending s = ∅).

Record NativeIoSnapshot := mkNativeSnapshot {
  ns_observation : NativeIoObservation;
  ns_sealed : bool;
  ns_openTransports : nat;
  ns_pendingOperations : nat;
  ns_registeredOperations : Z;
  ns_settledOperations : Z;
}.
Definition scopeSnapshot (s : Scope) : NativeIoSnapshot :=
  let observation :=
    if negb (nsc_instrumented s) then UNOBSERVED
    else if isSettled s then SETTLED else TRACKED_PENDING in
  mkNativeSnapshot observation (nsc_sealed s) (size (nsc_transports s)) (size (nsc_pending s))
    (nsc_registered s) (nsc_settled s).

(** Resolve whoever waits, once nothing is left. *)
Definition notify (s : Scope) : Scope :=
  if negb (isSettled s) then s
  else mkScope (nsc_producers s) (nsc_transports s) (nsc_pending s) [] (nsc_resolved s ++ nsc_waiters s)
         (nsc_nextId s) (nsc_fresh s) (nsc_sealed s) (nsc_instrumented s) (nsc_registered s) (nsc_settled s).

Definition settleOp (op : N) (s : Scope) : Scope :=
  match nsc_pending s !! op with
  | None => s
  | Some _ =>
      notify (mkScope (nsc_producers s) (nsc_transports s) (delete op (nsc_pending s)) (nsc_waiters s)
        (nsc_resolved s) (nsc_nextId s) (nsc_fresh s) (nsc_sealed s) (nsc_instrumented s)
        (nsc_registered s) (satInc (nsc_settled s)))
  end.

Definition openTransport (s : Scope) : Scope * (N + native_error) :=
  if nsc_sealed s then (s, inr NATIVE_SCOPE_SEALED)
  else if (TRANSPORT_CAP <=? size (nsc_transports s))%nat then (s, inr NATIVE_TRANSPORT_CAP)
  else
    let id := nsc_nextId s in
    (mkScope (<[id := true]> (nsc_producers s)) ({[id]} ∪ nsc_transports s) (nsc_pending s)
       (nsc_waiters s) (nsc_resolved s) (id + 1) (nsc_fresh s) (nsc_sealed s) true
       (nsc_registered s) (nsc_settled s), inl id).

(** [session.trackPromise]; [throws] when [start] throws before it returns its
    promise. Otherwise the operation stays pending until its promise settles, which
    is [settleOp]. *)
Definition trackPromise (transport : N) (kind : NativeIoKind) (throws : bool) (s : Scope)
    : Scope * (N + native_error) :=
  match nsc_producers s !! transport with
  | Some true =>
      if (PENDING_CAP <=? size (nsc_pending s))%nat then (s, inr NATIVE_PENDING_CAP)
      else
        let op := nsc_fresh s in
        let s := mkScope (nsc_producers s) (nsc_transports s) (<[op := kind]> (nsc_pending s))
                   (nsc_waiters s) (nsc_resolved s) (nsc_nextId s) (op + 1) (nsc_sealed s)
                   (nsc_instrumented s) (satInc (nsc_registered s)) (nsc_settled s) in
        if throws then (settleOp op s, inr START_THREW) else (s, inl op)
  | _ => (s, inr NATIVE_TRANSPORT_CLOSED)
  end.

Definition closeProducer (transport : N) (s : Scope) : Scope :=
  match nsc_producers s !! transport with
  | Some true =>
      notify (mkScope (<[transport := false]> (nsc_producers s)) (nsc_transports s ∖ {[transport]})
        (nsc_pending s) (nsc_waiters s) (nsc_resolved s) (nsc_nextId s) (nsc_fresh s) (nsc_sealed s)
        (nsc_instrumented s) (nsc_registered s) (nsc_settled s))
  | _ => s
  end.

Definition seal (s : Scope) : Scope :=
  notify (mkScope (nsc_producers s) (nsc_transports s) (nsc_pending s) (nsc_waiters s) (nsc_resolved s)
    (nsc_nextId s) (nsc_fresh s) true (nsc_instrumented s) (nsc_registered s) (nsc_settled s)).

(** The second test, after the push, finds nothing new: nothing ran in between. *)
Definition joinScope (s : Scope) : Scope * (N + native_error) :=
  let promise := nsc_fresh s in
  let s' := λ waiters resolved,
    mkScope (nsc_producers s) (nsc_transports s) (nsc_pending s) waiters resolved (nsc_nextId s)
      (promise + 1) (nsc_sealed s) (nsc_instrumented s) (nsc_registered s) (nsc_settled s) in
  if isSettled s then (s' (nsc_waiters s) (nsc_resolved s ++ [promise]), inl promise)
  else if (JOIN_CAP <=? length (nsc_waiters s))%nat then (s, inr NATIVE_JOIN_CAP)
  else (s' (nsc_waiters s ++ [promise]) (nsc_resolved s), inl promise).

(** [fireTrackedCancel]: whether the cleanup was admitted. Without a session the
    cancel is just started, and what it throws at once is thrown. *)
Definition fireTrackedCancel (session : option N) (throws : bool) (s : Scope)
    : Scope * (bool + native_error) :=
  match session with
  | None => (s, if throws then inr START_THREW else inl true)
  | Some transport =>
      match trackPromise transport io_cancel throws s with
      | (s, inl _) => (s, inl true)
      | (s, inr _) => (s, inl false)
      end
  end.

(** ** The view of one attempt: [bindAttempt] *)

Record NativeAttemptState := mkNativeAttempt {
  na_instrumented : bool;
  na_openProducers : Z;
  na_pendingOps : Z;
}.
Definition fresh_attempt : NativeAttemptState := mkNativeAttempt false 0 0.

(** The shared scope, the record of each attempt, and the two kinds of object the
    closures of [bindAttempt] keep: a wrapped session and a wrapped promise, each with
    the attempt it belongs to and whether its end is still to be noted. *)
Record Natives := mkNatives {
  nt_scope : Scope;
  nt_attempts : gmap N NativeAttemptState;
  nt_sessions : gmap N (N * bool);
  nt_promises : gmap N (N * bool);
}.

Definition with_scope (s : Scope) (n : Natives) : Natives :=
  mkNatives s (nt_attempts n) (nt_sessions n) (nt_promises n).

(** [nativeAttempts.set(entry.id, ...)]. *)
Definition newAttempt (id : N) (n : Natives) : Natives :=
  mkNatives (nt_scope n) (<[id := fresh_attempt]> (nt_attempts n)) (nt_sessions n) (nt_promises n).

Definition boundOpen (id : N) (n : Natives) : Natives * (N + native_error) :=
  match openTransport (nt_scope n) with
  | (s, inr e) => (with_scope s n, inr e)
  | (s, inl session) =>
      (mkNatives s
         (alter (λ rec, mkNativeAttempt true (na_openProducers rec + 1) (na_pendingOps rec)) id (nt_attempts n))
         (<[session := (id, true)]> (nt_sessions n)) (nt_promises n), inl session)
  end.

(** [rec.pendingOps += 1], undone when the registration or the start throws. *)
Definition boundTrack (session : N) (kind : NativeIoKind) (throws : bool) (n : Natives)
    : Natives * (N + native_error) :=
  match nt_sessions n !! session with
  | None => (n, inr NATIVE_TRANSPORT_CLOSED)
  | Some (id, _) =>
      match trackPromise session kind throws (nt_scope n) with
      | (s, inr e) => (with_scope s n, inr e)
      | (s, inl op) =>
          (mkNatives s
             (alter (λ rec, mkNativeAttempt (na_instrumented rec) (na_openProducers rec) (na_pendingOps rec + 1))
                    id (nt_attempts n))
             (nt_sessions n) (<[op := (id, true)]> (nt_promises n)), inl op)
      end
  end.

(** The reactions on the session's promise, once per promise. *)
Definition boundSettled (op : N) (n : Natives) : Natives :=
  match nt_promises n !! op with
  | Some (id, true) =>
      mkNatives (nt_scope n)
        (alter (λ rec, mkNativeAttempt (na_instrumented rec) (na_openProducers rec) (na_pendingOps rec - 1))
               id (nt_attempts n))
        (nt_sessions n) (<[op := (id, false)]> (nt_promises n))
  | _ => n
  end.

Definition boundClose (session : N) (n : Natives) : Natives :=
  match nt_sessions n !! session with
  | Some (id, true) =>
      mkNatives (closeProducer session (nt_scope n))
        (alter (λ rec, mkNativeAttempt (na_instrumented rec) (na_openProducers rec - 1) (na_pendingOps rec))
               id (nt_attempts n))
        (<[session := (id, false)]> (nt_sessions n)) (nt_promises n)
  | _ => n
  end.

Definition boundSeal (n : Natives) : Natives * (unit + native_error) := (n, inr NATIVE_ATTEMPT_CANNOT_SEAL).

Definition attemptObservation (id : N) (n : Natives) : NativeIoObservation :=
  match nt_attempts n !! id with
  | Some rec =>
      if negb (na_instrumented rec) then UNOBSERVED
      else if (0 <? na_openProducers rec) || (0 <? na_pendingOps rec) then TRACKED_PENDING
      else SETTLED
  | None => UNOBSERVED
  end.

(** ** One use of a scope after another *)

Inductive scope_event :=
  | OpenTransport | Track (transport : N) (kind : NativeIoKind) (throws : bool) | SettleOp (op : N)
  | CloseProducer (transport : N) | Seal | Join | FireCancel (session : option N) (throws : bool).

Definition use_scope (s : Scope) (e : scope_event) : Scope :=
  match e with
  | OpenTransport => fst (openTransport s)
  | Track t kind throws => fst (trackPromise t kind throws s)
  | SettleOp op => settleOp op s
  | CloseProducer t => closeProducer t s
  | Seal => seal s
  | Join => fst (joinScope s)
  | FireCancel session throws => fst (fireTrackedCancel session throws s)
  end.
Definition scope_run (s : Scope) (es : list scope_event) : Scope := foldl use_scope s es.

Example join_waits_for_the_last_operation :
  let s := scope_run createNativeOperationScope
             [OpenTransport; Track 1 io_fetch false; Join; Seal; CloseProducer 1] in
  ns_observation (scopeSnapshot s) = TRACKED_PENDING ∧ nsc_resolved s = [] ∧
  nsc_resolved (use_scope s (SettleOp 0)) = [1%N] ∧
  ns_observation (scopeSnapshot (use_scope s (SettleOp 0))) = SETTLED.
Proof. vm_compute. done. Qed.

(** What can happen to a scope the attempts share: an attempt is admitted, opens,
    tracks or closes through its own view; a promise settles, and later its wrapped
    reaction runs; and anyone who holds the scope itself uses it, but no session that
    a view keeps to itself. *)
Inductive native_event :=
  | NewAttempt (id : N) | BoundOpen (id : N) | BoundTrack (session : N) (kind : NativeIoKind) (throws : bool)
  | BoundSettled (op : N) | BoundClose (session : N) | OnScope (e : scope_event).

Definition event_session (e : scope_event) : option N :=
  match e with Track t _ _ | CloseProducer t | FireCancel (Some t) _ => Some t | _ => None end.

Definition native_ok (n : Natives) (e : native_event) : bool :=
  match e with
  | NewAttempt id => bool_decide (nt_attempts n !! id = None)
  | BoundOpen id => bool_decide (is_Some (nt_attempts n !! id))
  | BoundTrack session _ _ => true
  | BoundSettled op => bool_decide (nsc_pending (nt_scope n) !! op = None)
  | BoundClose session => true
  | OnScope e =>
      match event_session e with
      | Some t => bool_decide (nt_sessions n !! t = None)
      | None => true
      end
  end.
Definition native_step (n : Natives) (e : native_event) : Natives :=
  if negb (native_ok n e) then n
  else match e with
  | NewAttempt id => newAttempt id n
  | BoundOpen id => fst (boundOpen id n)
  | BoundTrack session kind throws => fst (boundTrack session kind throws n)
  | BoundSettled op => boundSettled op n
  | BoundClose session => boundClose session n
  | OnScope e => with_scope (use_scope (nt_scope n) e) n
  end.

(** ** The invariant *)

(** Counters are exact until they saturate. *)
Definition counts_ok (s : Scope) : Prop :=
  0 <= nsc_settled s <= nsc_registered s ∧ nsc_registered s <= SAT ∧
  (nsc_registered s = SAT ∨ nsc_registered s = nsc_settled s + Z.of_nat (size (nsc_pending s))).

Record scope_inv (s : Scope) : Prop := {
  si_open : ∀ t, t ∈ nsc_transports s ↔ nsc_producers s !! t = Some true;
  si_transports : (size (nsc_transports s) <= TRANSPORT_CAP)%nat;
  si_pending : (size (nsc_pending s) <= PENDING_CAP)%nat;
  si_waiters : (length (nsc_waiters s) <= JOIN_CAP)%nat;
  si_counted : counts_ok s;
  si_ids : ∀ t, nsc_producers s !! t ≠ None → (t < nsc_nextId s)%N;
  si_ops : ∀ op, nsc_pending s !! op ≠ None → (op < nsc_fresh s)%N;
  si_unused : nsc_instrumented s = false → nsc_transports s = ∅ ∧ nsc_pending s = ∅;
  si_nobody_waits : isSettled s = true → nsc_waiters s = [];
  si_resolved : nsc_resolved s ≠ [] → isSettled s = true;
}.

Lemma isSettled_spec s : isSettled s = true ↔
  nsc_instrumented s = true ∧ nsc_sealed s = true ∧ nsc_transports s = ∅ ∧ nsc_pending s = ∅.
Proof. unfold isSettled. rewrite !andb_true_iff, !bool_decide_eq_true. tauto. Qed.

(** Everything of the invariant that [notify] restores. *)
Lemma notify_inv s :
  (∀ t, t ∈ nsc_transports s ↔ nsc_producers s !! t = Some true) →
  (size (nsc_transports s) <= TRANSPORT_CAP)%nat → (size (nsc_pending s) <= PENDING_CAP)%nat →
  (length (nsc_waiters s) <= JOIN_CAP)%nat → counts_ok s →
  (∀ t, nsc_producers s !! t ≠ None → (t < nsc_nextId s)%N) →
  (∀ op, nsc_pending s !! op ≠ None → (op < nsc_fresh s)%N) →
  (nsc_instrumented s = false → nsc_transports s = ∅ ∧ nsc_pending s = ∅) →
  (nsc_resolved s ≠ [] → isSettled s = true) →
  scope_inv (notify s).
Proof.
  intros. unfold notify. destruct (isSettled s) eqn:E; simpl; split; simpl; try done.
  - apply Nat.le_0_l.
  - congruence.
  - intros Hres. by specialize (H7 Hres).
Qed.

Lemma satInc_register r k n :
  0 <= k <= r → r <= SAT → (r = SAT ∨ r = k + Z.of_nat n) →
  0 <= k <= satInc r ∧ satInc r <= SAT ∧ (satInc r = SAT ∨ satInc r = k + Z.of_nat (S n)).
Proof. unfold satInc. destruct (Z.leb_spec SAT r); lia. Qed.

Lemma satInc_settle r k n :
  0 <= k <= r → r <= SAT → (r = SAT ∨ r = k + Z.of_nat (S n)) →
  0 <= satInc k <= r ∧ r <= SAT ∧ (r = SAT ∨ r = satInc k + Z.of_nat n).
Proof. unfold satInc. destruct (Z.leb_spec SAT k); lia. Qed.

Lemma create_inv : scope_inv createNativeOperationScope.
Proof.
  split; simpl; try done; try apply Nat.le_0_l.
  split_and!; simpl; try done. by right.
Qed.

Lemma settleOp_inv op s : scope_inv s → scope_inv (settleOp op s).
Proof.
  intros [Ho Ht Hp Hw Hc Hi Hops Hu Hn Hr]. unfold settleOp.
  destruct (nsc_pending s !! op) as [k|] eqn:E; [|by split].
  assert (size (nsc_pending s) = S (size (delete op (nsc_pending s)))) as Hsize.
  { rewrite <- (insert_delete_id _ _ _ E) at 1. by rewrite map_size_insert_None by apply lookup_delete_eq. }
  apply notify_inv; simpl; try done.
  - lia.
  - destruct Hc as (?&?&Hc). rewrite Hsize in Hc. by apply satInc_settle.
  - intros o Ho'. apply Hops. intros E'. apply Ho'. by rewrite lookup_delete_None; right.
  - intros Hf. destruct (Hu Hf) as [? Hp0]. by rewrite Hp0 in E.
  - intros Hres. apply Hr, isSettled_spec in Hres as (_&_&_&Hp0). by rewrite Hp0 in E.
Qed.

Lemma openTransport_inv s : scope_inv s → scope_inv (fst (openTransport s)).
Proof.
  intros Hs. pose proof Hs as [Ho Ht Hp Hw Hc Hi Hops Hu Hn Hr]. unfold openTransport.
  destruct (nsc_sealed s) eqn:Es; [done|]. destruct (Nat.leb_spec TRANSPORT_CAP (size (nsc_transports s))); [done|].
  assert (nsc_producers s !! nsc_nextId s = None) as Hfresh.
  { destruct (nsc_producers s !! nsc_nextId s) eqn:E; [|done].
    assert (nsc_producers s !! nsc_nextId s ≠ None) as Hlt%Hi by congruence. lia. }
  split; simpl; try done.
  - intros t. rewrite elem_of_union, elem_of_singleton, Ho.
    destruct (decide (t = nsc_nextId s)) as [->|]; [rewrite lookup_insert_eq; tauto|].
    rewrite lookup_insert_ne by done. naive_solver.
  - rewrite size_union_alt, size_singleton.
    pose proof (subseteq_size (nsc_transports s ∖ {[nsc_nextId s]}) (nsc_transports s) ltac:(set_solver)). lia.
  - intros t. destruct (decide (t = nsc_nextId s)) as [->|]; [intros _; lia|].
    rewrite lookup_insert_ne by done. intros Ht'%Hi. lia.
  - intros Hres. apply Hr, isSettled_spec in Hres as (_&Hseal&_). congruence.
Qed.

(** Registering an operation, before it is started. *)
Lemma register_inv t kind s :
  scope_inv s → nsc_producers s !! t = Some true → (size (nsc_pending s) < PENDING_CAP)%nat →
  scope_inv (mkScope (nsc_producers s) (nsc_transports s) (<[nsc_fresh s := kind]> (nsc_pending s))
    (nsc_waiters s) (nsc_resolved s) (nsc_nextId s) (nsc_fresh s + 1) (nsc_sealed s)
    (nsc_instrumented s) (satInc (nsc_registered s)) (nsc_settled s)).
Proof.
  intros [Ho Ht Hp Hw Hc Hi Hops Hu Hn Hr] Hopen Hlt.
  assert (nsc_pending s !! nsc_fresh s = None) as Hfresh.
  { destruct (nsc_pending s !! nsc_fresh s) eqn:E; [|done].
    assert (nsc_pending s !! nsc_fresh s ≠ None) as Hl%Hops by congruence. lia. }
  assert (t ∈ nsc_transports s) as Hin by (by apply Ho).
  split; simpl; try done.
  - rewrite map_size_insert_None by done. lia.
  - unfold counts_ok. simpl. rewrite map_size_insert_None by done. destruct Hc as (?&?&?). by apply satInc_register.
  - intros o. destruct (decide (o = nsc_fresh s)) as [->|]; [intros _; lia|].
    rewrite lookup_insert_ne by done. intros Hl%Hops. lia.
  - intros Hf. destruct (Hu Hf). set_solver.
  - intros (_&_&H0&_)%isSettled_spec. simpl in H0. set_solver.
  - intros Hres. apply Hr, isSettled_spec in Hres as (_&_&H0&_). set_solver.
Qed.

Lemma trackPromise_inv t kind throws s : scope_inv s → scope_inv (fst (trackPromise t kind throws s)).
Proof.
  intros Hs. unfold trackPromise. destruct (nsc_producers s !! t) as [[]|] eqn:E; [|done|done].
  destruct (Nat.leb_spec PENDING_CAP (size (nsc_pending s))); [done|].
  destruct throws; simpl; [apply settleOp_inv|]; by apply (register_inv t).
Qed.

Lemma closeProducer_inv t s : scope_inv s → scope_inv (closeProducer t s).
Proof.
  intros Hs. pose proof Hs as [Ho Ht Hp Hw Hc Hi Hops Hu Hn Hr]. unfold closeProducer.
  destruct (nsc_producers s !! t) as [[]|] eqn:E; [|done|done].
  assert (t ∈ nsc_transports s) as Hin by (by apply Ho).
  apply notify_inv; simpl; try done.
  - intros t'. rewrite elem_of_difference, elem_of_singleton, Ho.
    destruct (decide (t' = t)) as [->|]; [rewrite lookup_insert_eq; naive_solver|].
    rewrite lookup_insert_ne by done. tauto.
  - pose proof (subseteq_size (nsc_transports s ∖ {[t]}) (nsc_transports s) ltac:(set_solver)). lia.
  - intros t'. destruct (decide (t' = t)) as [->|]; [intros _; apply Hi; congruence|].
    rewrite lookup_insert_ne by done. apply Hi.
  - intros Hf. destruct (Hu Hf). set_solver.
  - intros Hres. apply Hr, isSettled_spec in Hres as (_&_&H0&_). set_solver.
Qed.

Lemma seal_inv s : scope_inv s → scope_inv (seal s).
Proof.
  intros [Ho Ht Hp Hw Hc Hi Hops Hu Hn Hr]. apply notify_inv; simpl; try done.
  intros Hres. apply Hr, isSettled_spec in Hres as (?&_&?&?). by apply isSettled_spec.
Qed.

Lemma joinScope_inv s : scope_inv s → scope_inv (fst (joinScope s)).
Proof.
  intros Hs. pose proof Hs as [Ho Ht Hp Hw Hc Hi Hops Hu Hn Hr]. unfold joinScope.
  destruct (isSettled s) eqn:E; [|destruct (Nat.leb_spec JOIN_CAP (length (nsc_waiters s))); [done|]];
    split; simpl; try done; try (intros o Ho'; specialize (Hops o Ho'); lia).
  - by intros _; apply Hn.
  - rewrite length_app. simpl. lia.
  - change (isSettled s = true → nsc_waiters s ++ [nsc_fresh s] = []). congruence.
  - intros Hres. by specialize (Hr Hres).
Qed.

Lemma use_scope_inv s e : scope_inv s → scope_inv (use_scope s e).
Proof.
  destruct e; simpl; auto using openTransport_inv, trackPromise_inv, settleOp_inv, closeProducer_inv,
    seal_inv, joinScope_inv.
  intros Hs. destruct session as [t|]; simpl; [|done].
  pose proof (trackPromise_inv t io_cancel throws s Hs). by destruct (trackPromise _ _ _ _) as [s' []].
Qed.

Lemma scope_run_inv s es : scope_inv s → scope_inv (scope_run s es).
Proof. revert s. induction es as [|e es IH]; intros s Hs; simpl; [done|]. by apply IH, use_scope_inv. Qed.

(** ** Settled is final *)

Lemma notify_settled s : isSettled (notify s) = isSettled s.
Proof. unfold notify. by destruct (isSettled s) eqn:E. Qed.
Lemma notify_registered s : nsc_registered (notify s) = nsc_registered s.
Proof. unfold notify. by destruct (isSettled s). Qed.

Lemma settled_track t kind throws s :
  scope_inv s → isSettled s = true → trackPromise t kind throws s = (s, inr NATIVE_TRANSPORT_CLOSED).
Proof.
  intros Hs (_&_&Ht&_)%isSettled_spec. unfold trackPromise.
  destruct (nsc_producers s !! t) as [[]|] eqn:E; [|done|done].
  apply (si_open s Hs) in E. set_solver.
Qed.

Lemma settled_step s e :
  scope_inv s → isSettled s = true →
  isSettled (use_scope s e) = true ∧ nsc_registered (use_scope s e) = nsc_registered s.
Proof.
  intros Hs E. pose proof E as (Hi&Hseal&Ht&Hp)%isSettled_spec. destruct e; simpl.
  - unfold openTransport. by rewrite Hseal.
  - by rewrite settled_track.
  - unfold settleOp. by rewrite Hp.
  - unfold closeProducer. destruct (nsc_producers s !! transport) as [[]|] eqn:Eo; [|done|done].
    apply (si_open s Hs) in Eo. set_solver.
  - unfold seal. rewrite notify_settled, notify_registered. split; [|done]. by apply isSettled_spec.
  - unfold joinScope. by rewrite E.
  - destruct session as [t|]; simpl; [|done]. by rewrite settled_track.
Qed.

Lemma settled_run s es :
  scope_inv s → isSettled s = true →
  isSettled (scope_run s es) = true ∧ nsc_registered (scope_run s es) = nsc_registered s.
Proof.
  revert s. induction es as [|e es IH]; intros s Hs E; [done|]. simpl.
  destruct (settled_step s e Hs E) as [E' <-]. apply IH; [by apply use_scope_inv|done].
Qed.

Lemma observes_settled s : ns_observation (scopeSnapshot s) = SETTLED ↔ isSettled s = true.
Proof.
  unfold scopeSnapshot. simpl. split; [by repeat case_match|].
  intros E. pose proof E as (Hi&_)%isSettled_spec. by rewrite Hi, E.
Qed.

(** ** The views and the scope agree *)

(** How many of an attempt's sessions (or promises) are not over. *)
Definition unfinished (id : N) (m : gmap N (N * bool)) : Z :=
  Z.of_nat (size (filter (λ kv : N * (N * bool), snd kv = (id, true)) m)).

Definition one (b : bool) : Z := if b then 1 else 0.

Lemma unfinished_new id id' k m :
  m !! k = None → unfinished id (<[k := (id', true)]> m) = unfinished id m + one (bool_decide (id' = id)).
Proof.
  intros Hk. unfold unfinished. destruct (decide (id' = id)) as [->|Hne].
  - rewrite bool_decide_eq_true_2, map_filter_insert_True by done.
    rewrite map_size_insert_None by (apply map_lookup_filter_None; by left). simpl. lia.
  - rewrite bool_decide_eq_false_2, map_filter_insert_False by (simpl; congruence).
    rewrite delete_id by done. simpl. lia.
Qed.

Lemma unfinished_end id id' k m :
  m !! k = Some (id', true) → unfinished id (<[k := (id', false)]> m) = unfinished id m - one (bool_decide (id' = id)).
Proof.
  intros Hk. unfold unfinished. rewrite map_filter_insert_False by done.
  rewrite <- (insert_id m k (id', true)) at 2 by done. rewrite <- insert_delete_eq.
  destruct (decide (id' = id)) as [->|Hne].
  - rewrite bool_decide_eq_true_2, map_filter_insert_True by done.
    rewrite map_size_insert_None by (apply map_lookup_filter_None; left; apply lookup_delete_eq).
    simpl. lia.
  - rewrite bool_decide_eq_false_2, map_filter_insert_False by (simpl; congruence).
    rewrite delete_delete_eq. simpl. lia.
Qed.

Lemma unfinished_none id k m : unfinished id m <= 0 → m !! k = Some (id, true) → False.
Proof.
  unfold unfinished. intros Hl Hk.
  assert (filter (λ kv : N * (N * bool), snd kv = (id, true)) m !! k = Some (id, true)) as Hf
    by (by apply map_lookup_filter_Some).
  destruct (size _) eqn:E; [|lia]. apply map_size_empty_inv in E. by rewrite E in Hf.
Qed.

Lemma unfinished_fresh id m : (∀ k b, m !! k ≠ Some (id, b)) → unfinished id m = 0.
Proof.
  intros H. unfold unfinished. rewrite map_empty_filter_2; [done|].
  intros k [i b] Hk [= -> ->]. by apply (H k true).
Qed.

(** What a use of the scope keeps of the objects it is not about. *)
Record scope_frame (target : option N) (s s' : Scope) : Prop := {
  fr_fresh : (nsc_fresh s <= nsc_fresh s')%N;
  fr_pending : ∀ op, (op < nsc_fresh s)%N → nsc_pending s !! op = None → nsc_pending s' !! op = None;
  fr_producers : ∀ t b, target ≠ Some t → nsc_producers s !! t = Some b → nsc_producers s' !! t = Some b;
}.

Lemma frame_refl target s : scope_frame target s s.
Proof. by split. Qed.
Lemma frame_notify target s s' : scope_frame target s s' → scope_frame target s (notify s').
Proof. intros [??]. unfold notify. by case_match. Qed.
Lemma frame_settleOp target op s s' : scope_frame target s s' → scope_frame target s (settleOp op s').
Proof.
  intros [Hf Hp Ht]. unfold settleOp. case_match; [|done]. apply frame_notify. split; simpl; [done| |done].
  intros o Ho Hn. rewrite lookup_delete_None. auto.
Qed.

Lemma frame_track target t kind throws s : scope_frame target s (fst (trackPromise t kind throws s)).
Proof.
  unfold trackPromise. repeat case_match; simpl; try apply frame_refl; [apply frame_settleOp|];
    (split; simpl; [lia| |done]; intros o Ho; rewrite lookup_insert_ne by lia; done).
Qed.

Lemma use_scope_frame e s : scope_inv s → scope_frame (event_session e) s (use_scope s e).
Proof.
  intros Hs. destruct e; simpl.
  - unfold openTransport. repeat case_match; simpl; try apply frame_refl. split; simpl; [done|done|].
    intros t b' _ Ht. rewrite lookup_insert_ne; [done|].
    assert (nsc_producers s !! t ≠ None) as Hlt%(si_ids s Hs) by congruence. lia.
  - apply frame_track.
  - apply frame_settleOp, frame_refl.
  - unfold closeProducer. repeat case_match; try apply frame_refl. apply frame_notify. split; simpl; [done|done|].
    intros t b' Hne. rewrite lookup_insert_ne by congruence. done.
  - by apply frame_notify.
  - unfold joinScope. repeat case_match; simpl; try apply frame_refl; (split; simpl; [lia|done|done]).
  - destruct session as [t|]; simpl; [|apply frame_refl].
    pose proof (frame_track (Some t) t io_cancel throws s). by destruct (trackPromise _ _ _ _) as [s' []].
Qed.

Record natives_inv (n : Natives) : Prop := {
  ni_scope : scope_inv (nt_scope n);
  ni_counts : ∀ id rec, nt_attempts n !! id = Some rec →
    na_openProducers rec = unfinished id (nt_sessions n) ∧ na_pendingOps rec = unfinished id (nt_promises n);
  ni_sessions : ∀ t id b, nt_sessions n !! t = Some (id, b) →
    nsc_producers (nt_scope n) !! t = Some b ∧ is_Some (nt_attempts n !! id);
  ni_promises : ∀ op id b, nt_promises n !! op = Some (id, b) →
    (op < nsc_fresh (nt_scope n))%N ∧ is_Some (nt_attempts n !! id) ∧
    (b = false → nsc_pending (nt_scope n) !! op = None);
}.

(** A use of the scope that touches no session of a view. *)
Lemma natives_frame target n s :
  natives_inv n → scope_inv s → scope_frame target (nt_scope n) s →
  (∀ t, target = Some t → nt_sessions n !! t = None) → natives_inv (with_scope s n).
Proof.
  intros [Hs Hc Hse Hp] Hs' [Hf Hpe Ht] Htar. split; simpl; [done|done| |].
  - intros t id b E. destruct (Hse t id b E) as [Hb ?]. split; [|done]. apply Ht; [|done].
    intros Htt. apply Htar in Htt. congruence.
  - intros op id b E. destruct (Hp op id b E) as (Hlt&?&Hn). split_and!; [lia|done|]. auto.
Qed.
(** An attempt's record changed as one of its objects is made or ends. *)
Lemma counts_alter id f (n : Natives) sessions promises :
  natives_inv n →
  (∀ rec, na_openProducers (f rec) = na_openProducers rec + (unfinished id sessions - unfinished id (nt_sessions n)) ∧
          na_pendingOps (f rec) = na_pendingOps rec + (unfinished id promises - unfinished id (nt_promises n))) →
  (∀ id', id' ≠ id → unfinished id' sessions = unfinished id' (nt_sessions n) ∧ unfinished id' promises = unfinished id' (nt_promises n)) →
  ∀ id' rec, alter f id (nt_attempts n) !! id' = Some rec →
    na_openProducers rec = unfinished id' sessions ∧ na_pendingOps rec = unfinished id' promises.
Proof.
  intros Hn Hf Hother id' rec Hrec. destruct (decide (id' = id)) as [->|Hne].
  - rewrite lookup_alter_eq in Hrec. apply fmap_Some in Hrec as (rec0&Hr0&->).
    destruct (ni_counts n Hn id rec0 Hr0), (Hf rec0). lia.
  - rewrite lookup_alter_ne in Hrec by done. destruct (Hother id' Hne) as [-> ->]. by apply Hn.
Qed.

Lemma attempt_alter (f : NativeAttemptState → NativeAttemptState) (id id' : N) (m : gmap N NativeAttemptState) :
  is_Some (m !! id') → is_Some (alter f id m !! id').
Proof.
  intros H. destruct (decide (id' = id)) as [->|].
  - rewrite lookup_alter_eq. by apply fmap_is_Some.
  - by rewrite lookup_alter_ne.
Qed.

Lemma boundOpen_inv id n :
  natives_inv n → is_Some (nt_attempts n !! id) → natives_inv (fst (boundOpen id n)).
Proof.
  intros Hn Hid. pose proof (use_scope_inv _ OpenTransport (ni_scope n Hn)) as Hs.
  pose proof (use_scope_frame OpenTransport _ (ni_scope n Hn)) as Hfr. simpl in Hs, Hfr. unfold boundOpen.
  destruct (openTransport (nt_scope n)) as [s [t|e]] eqn:Eo; simpl in *; [|by eapply natives_frame].
  assert (nt_sessions n !! t = None ∧ nsc_producers s !! t = Some true) as [Hnew Hopen].
  { unfold openTransport in Eo. repeat case_match; simplify_eq. simpl. rewrite lookup_insert_eq.
    split; [|done]. destruct (nt_sessions n !! _) as [[i b]|] eqn:E; [exfalso|done].
    apply (ni_sessions n Hn) in E as [E _].
    assert (nsc_producers (nt_scope n) !! nsc_nextId (nt_scope n) ≠ None) as Hlt%(si_ids _ (ni_scope n Hn)) by congruence. lia. }
  destruct (natives_frame None n s Hn Hs Hfr ltac:(done)) as [_ _ Hse Hp]. simpl in Hse, Hp. split; simpl; [done| | |].
  - apply counts_alter; [done| |].
    + intros rec. rewrite unfinished_new, bool_decide_eq_true_2 by done. simpl. lia.
    + intros i Hi. rewrite unfinished_new, bool_decide_eq_false_2 by done. simpl. lia.
  - intros t' i b E. destruct (decide (t' = t)) as [->|].
    + rewrite lookup_insert_eq in E. injection E as <- <-. by split; [|apply attempt_alter].
    + rewrite lookup_insert_ne in E by done. destruct (Hse _ _ _ E). by split; [|apply attempt_alter].
  - intros op i b E. destruct (Hp _ _ _ E) as (?&?&?). split_and!; [done|by apply attempt_alter|done].
Qed.

Lemma boundTrack_inv session kind throws n :
  natives_inv n → natives_inv (fst (boundTrack session kind throws n)).
Proof.
  intros Hn. unfold boundTrack. destruct (nt_sessions n !! session) as [[id b0]|] eqn:Et; [|done].
  destruct (ni_sessions n Hn _ _ _ Et) as [_ Hid].
  pose proof (trackPromise_inv session kind throws _ (ni_scope n Hn)) as Hs.
  pose proof (frame_track None session kind throws (nt_scope n)) as Hfr.
  destruct (trackPromise session kind throws (nt_scope n)) as [s [op|e]] eqn:Eo; simpl in *; [|by eapply natives_frame].
  assert (op = nsc_fresh (nt_scope n) ∧ (op < nsc_fresh s)%N) as [-> Hop].
  { unfold trackPromise in Eo. repeat case_match; simplify_eq. simpl. split; [done|lia]. }
  assert (nt_promises n !! nsc_fresh (nt_scope n) = None) as Hnew.
  { destruct (nt_promises n !! _) as [[i b]|] eqn:E; [|done]. apply (ni_promises n Hn) in E as [? _]. lia. }
  destruct (natives_frame None n s Hn Hs Hfr ltac:(done)) as [_ _ Hse Hp]. simpl in Hse, Hp. split; simpl; [done| | |].
  - apply counts_alter; [done| |].
    + intros rec. rewrite unfinished_new, bool_decide_eq_true_2 by done. simpl. lia.
    + intros i Hi. rewrite unfinished_new, bool_decide_eq_false_2 by done. simpl. lia.
  - intros t' i b E. destruct (Hse _ _ _ E). by split; [|apply attempt_alter].
  - intros op i b E. destruct (decide (op = nsc_fresh (nt_scope n))) as [->|].
    + rewrite lookup_insert_eq in E. injection E as <- <-. split_and!; [done|by apply attempt_alter|done].
    + rewrite lookup_insert_ne in E by done. destruct (Hp _ _ _ E) as (?&?&?).
      split_and!; [done|by apply attempt_alter|done].
Qed.

Lemma boundSettled_inv op n :
  natives_inv n → nsc_pending (nt_scope n) !! op = None → natives_inv (boundSettled op n).
Proof.
  intros Hn Hdone. unfold boundSettled. destruct (nt_promises n !! op) as [[id []]|] eqn:Eo; [|done|done].
  destruct (ni_promises n Hn _ _ _ Eo) as (Hlt&Hid&_). split; simpl; [apply Hn| | |].
  - apply counts_alter; [done| |].
    + intros rec. rewrite (unfinished_end _ id), bool_decide_eq_true_2 by done. simpl. lia.
    + intros i Hi. rewrite (unfinished_end _ id), bool_decide_eq_false_2 by done. simpl. lia.
  - intros t' i b E. destruct (ni_sessions n Hn _ _ _ E). by split; [|apply attempt_alter].
  - intros op' i b E. destruct (decide (op' = op)) as [->|].
    + rewrite lookup_insert_eq in E. injection E as <- <-. split_and!; [done|by apply attempt_alter|done].
    + rewrite lookup_insert_ne in E by done. destruct (ni_promises n Hn _ _ _ E) as (?&?&?).
      split_and!; [done|by apply attempt_alter|done].
Qed.

Lemma boundClose_inv session n : natives_inv n → natives_inv (boundClose session n).
Proof.
  intros Hn. unfold boundClose. destruct (nt_sessions n !! session) as [[id []]|] eqn:Et; [|done|done].
  destruct (ni_sessions n Hn _ _ _ Et) as [Hopen Hid].
  pose proof (closeProducer_inv session _ (ni_scope n Hn)) as Hs.
  pose proof (use_scope_frame (CloseProducer session) _ (ni_scope n Hn)) as [Hf Hpe Hpr]. simpl in Hf, Hpe, Hpr.
  split; simpl; [done| | |].
  - apply counts_alter; [done| |].
    + intros rec. rewrite (unfinished_end _ id), bool_decide_eq_true_2 by done. simpl. lia.
    + intros i Hi. rewrite (unfinished_end _ id), bool_decide_eq_false_2 by done. simpl. lia.
  - intros t' i b E. destruct (decide (t' = session)) as [->|].
    + rewrite lookup_insert_eq in E. injection E as <- <-. split; [|by apply attempt_alter].
      unfold closeProducer. rewrite Hopen. unfold notify. case_match; simpl; apply lookup_insert_eq.
    + rewrite lookup_insert_ne in E by done. destruct (ni_sessions n Hn _ _ _ E).
      split; [apply Hpr; congruence|by apply attempt_alter].
  - intros op i b E. destruct (ni_promises n Hn _ _ _ E) as (?&?&?).
    split_and!; [lia|by apply attempt_alter|auto].
Qed.

Lemma native_step_inv n e : natives_inv n → natives_inv (native_step n e).
Proof.
  intros Hn. unfold native_step. destruct (native_ok n e) eqn:Eok; [|done]. simpl.
  destruct e; simpl in *; wb_bool; auto using boundOpen_inv, boundTrack_inv, boundSettled_inv, boundClose_inv.
  - split; simpl; [apply Hn| | |].
    + intros i rec E. destruct (decide (i = id)) as [->|];
        [|rewrite lookup_insert_ne in E by done; by apply (ni_counts n Hn)].
      rewrite lookup_insert_eq in E. injection E as <-. simpl.
      split; symmetry; apply unfinished_fresh; intros k b Hk.
      * destruct (ni_sessions n Hn _ _ _ Hk) as [_ [? Hi]]. congruence.
      * destruct (ni_promises n Hn _ _ _ Hk) as (_&[? Hi]&_). congruence.
    + intros t i b E. destruct (ni_sessions n Hn _ _ _ E) as [Hb Hi]. split; [done|].
      apply lookup_insert_is_Some. destruct (decide (id = i)); auto.
    + intros op i b E. destruct (ni_promises n Hn _ _ _ E) as (?&Hi&?). split_and!; [done| |done].
      apply lookup_insert_is_Some. destruct (decide (id = i)); auto.
  - eapply natives_frame; [done|by apply use_scope_inv, Hn|by apply use_scope_frame, Hn|].
    intros t Ht. rewrite Ht in Eok. by apply bool_decide_eq_true_1 in Eok.
Qed.

Definition new_natives : Natives := mkNatives createNativeOperationScope ∅ ∅ ∅.

Lemma native_run_inv es : natives_inv (foldl native_step new_natives es).
Proof.
  assert (natives_inv new_natives) as H.
  { split; simpl; [apply create_inv|..]; intros *; by rewrite lookup_empty. }
  revert H. generalize new_natives. induction es as [|e es IH]; intros n Hn; simpl; [done|].
  by apply IH, native_step_inv.
Qed.
(** ** Properties *)

(** Whatever is done with a scope, in any order, at most 16 transports are open,
    64 operations pending and 16 joins waiting, and no more operations have settled
    than were registered. A join is resolved only when the scope is settled, and no
    join keeps waiting on a settled scope. Settled is final: whatever is tried
    afterwards, no transport is open, no operation is pending and none is ever
    registered again. *)
Theorem native_scope_settles es :
  let s := scope_run createNativeOperationScope es in
  (ns_openTransports (scopeSnapshot s) <= 16)%nat ∧
  (ns_pendingOperations (scopeSnapshot s) <= 64)%nat ∧ (length (nsc_waiters s) <= 16)%nat ∧
  0 <= ns_settledOperations (scopeSnapshot s) <= ns_registeredOperations (scopeSnapshot s) ∧
  (nsc_resolved s ≠ [] → ns_observation (scopeSnapshot s) = SETTLED) ∧
  (ns_observation (scopeSnapshot s) = SETTLED →
   nsc_waiters s = [] ∧ ∀ es',
     let s' := scopeSnapshot (scope_run s es') in
     ns_observation s' = SETTLED ∧ ns_sealed s' = true ∧ ns_openTransports s' = 0%nat ∧
     ns_pendingOperations s' = 0%nat ∧
     ns_registeredOperations s' = ns_registeredOperations (scopeSnapshot s)).
Proof.
  intros s. assert (scope_inv s) as Hs by (apply scope_run_inv, create_inv).
  split_and!; [apply Hs|apply Hs|apply Hs|apply Hs|apply Hs| |].
  - intros Hr. by apply observes_settled, Hs.
  - intros E%observes_settled. split; [by apply Hs|]. intros es'.
    destruct (settled_run s es' Hs E) as [E' Hr]. simpl. pose proof E' as (_&Hseal&Ht&Hp)%isSettled_spec.
    split_and!; [by apply observes_settled|done| | |done].
    + by rewrite Ht, size_empty.
    + by rewrite Hp, map_size_empty.
Qed.

(** An attempt's own observation is sound, however the attempts that share the scope
    interleave: when an attempt that used the network reports [SETTLED], every
    transport it opened is closed in the scope and none of the operations it tracked
    is pending there, whatever its siblings still have running; and the counts its
    record keeps are never negative. *)
Theorem attempt_observation_sound es id rec :
  let n := foldl native_step new_natives es in
  nt_attempts n !! id = Some rec →
  0 <= na_openProducers rec ∧ 0 <= na_pendingOps rec ∧
  (attemptObservation id n = SETTLED →
   (∀ t b, nt_sessions n !! t = Some (id, b) → nsc_producers (nt_scope n) !! t = Some false) ∧
   (∀ op b, nt_promises n !! op = Some (id, b) → nsc_pending (nt_scope n) !! op = None)).
Proof.
  intros n Hrec. pose proof (native_run_inv es : natives_inv n) as Hn.
  destruct (ni_counts n Hn id rec Hrec) as [Ho Hp]. unfold unfinished in Ho, Hp.
  split_and!; [lia|lia|]. intros Hset. unfold attemptObservation in Hset. rewrite Hrec in Hset.
  destruct (na_instrumented rec); [|done]. simpl in Hset.
  destruct (Z.ltb_spec 0 (na_openProducers rec)), (Z.ltb_spec 0 (na_pendingOps rec)); try done.
  split.
  - intros t [] E; [exfalso; eapply unfinished_none; [|exact E]; unfold unfinished; lia|]. by apply (ni_sessions n Hn) in E as [].
  - intros op [] E; [exfalso; eapply unfinished_none; [|exact E]; unfold unfinished; lia|].
    apply (ni_promises n Hn) in E as (_&_&E). auto.
Qed.

(** Two attempts share a scope: the first is done while the second reads on. *)
Lemma attempt_observation_sound_witness :
  let n := foldl native_step new_natives
    [NewAttempt 1; BoundOpen 1; NewAttempt 2; BoundOpen 2; BoundTrack 1 io_fetch false;
     BoundTrack 2 io_fetch false; OnScope (SettleOp 0); BoundSettled 0; BoundClose 1] in
  attemptObservation 2 n = TRACKED_PENDING ∧ attemptObservation 1 n = SETTLED ∧
  nsc_producers (nt_scope n) !! 1%N = Some false ∧ nsc_pending (nt_scope n) !! 0%N = None.
Proof.
  intros n. split_and!; [reflexivity|reflexivity| |].
  - refine (proj1 (proj2 (proj2 (attempt_observation_sound _ 1%N (mkNativeAttempt true 0 0) _)) _) 1%N false _);
      reflexivity.
  - refine (proj2 (proj2 (proj2 (attempt_observation_sound _ 1%N (mkNativeAttempt true 0 0) _)) _) 0%N false _);
      reflexivity.
Defined.
