(* ===== verification/ModelBudget.v ===== *)
(** * The model budget

    [ModelBudget] of [packages/engine/src/workflows/model-budget.ts]: one host-owned
    object that a workflow's root and all its children make their model calls
    through. It bounds attempts, concurrency, request bytes and requested output
    before a call is admitted, charges what each response reports, copies the response
    out within a byte limit, and closes for good at the first failure, cancellation or
    deadline. *)

From S2P Require Export BoundedCopy NativeScope Paging.
Open Scope Z_scope.

(** ** Limits *)

Record ModelBudgetLimits := mkLimits {
  maxAttempts : Z;
  maxConcurrent : Z;
  maxInputBytesPerCall : Z;
  maxTotalInputBytes : Z;
  maxObservedInputTokens : Z;
  maxObservedOutputTokens : Z;
  maxOutputTokensPerCall : Z;
  maxResponseBytesPerCall : Z;
  wallTimeMs : Z;
}.
Definition MODEL_BUDGET_DEFAULTS : ModelBudgetLimits :=
  mkLimits 10 2 (512 * 1024) (2 * 1024 * 1024) 120000 12000 4096 (256 * 1024) 300000.
(** [MAX_RESPONSE_BYTES] of [llm/bounded-response.ts]. *)
Definition MAX_RESPONSE_BYTES : Z := 1024 * 1024.
Definition MODEL_BUDGET_HARD_CEILINGS : ModelBudgetLimits :=
  mkLimits 64 8 (1024 * 1024) (8 * 1024 * 1024) 1000000 64000 16384 MAX_RESPONSE_BYTES 900000.

Definition limit_keys : list jsstr :=
  js <$> ["maxAttempts"; "maxConcurrent"; "maxInputBytesPerCall"; "maxTotalInputBytes";
          "maxObservedInputTokens"; "maxObservedOutputTokens"; "maxOutputTokensPerCall";
          "maxResponseBytesPerCall"; "wallTimeMs"]%string.

(** [Number.isSafeInteger]. *)
Definition safeInteger (v : jsval) : option Z :=
  match v with
  | VNum x => match num_int x with Some z => if safe_int z then Some z else None | None => None end
  | _ => None
  end.

(** What a spread copies: the enumerable own properties, getters called. *)
Definition spread (h : heap) (v : jsval) : list (jsstr * jsval) :=
  match v with
  | VRef a =>
      match h !! a with
      | Some (Plain props) =>
          (λ kp, (fst kp, match snd (snd kp) with Data x => x | Accessor got => got end)) <$>
          filter enumerable props
      | _ => []
      end
  | _ => []
  end.
Fixpoint assoc {V} (k : jsstr) (l : list (jsstr * V)) : option V :=
  match l with
  | [] => None
  | (k', v) :: l => if decide (k' = k) then Some v else assoc k l
  end.

Definition read_limit (overrides : list (jsstr * jsval)) (key : string)
    (field : ModelBudgetLimits → Z) : option Z :=
  let value := match assoc (js key) overrides with
               | Some v => safeInteger v
               | None => Some (field MODEL_BUDGET_DEFAULTS)
               end in
  n ← value;
  if (n <=? 0) || (field MODEL_BUDGET_HARD_CEILINGS <? n) then None else Some n.

(** The limits of the constructor: [None] where it throws [INVALID_LIMITS]. *)
Definition readLimits (h : heap) (limits : jsval) : option ModelBudgetLimits :=
  overrides ← match limits with
              | VUndefined => Some []
              | _ => if isRecord h limits then Some (spread h limits) else None
              end;
  if negb (forallb (λ kv, bool_decide (fst kv ∈ limit_keys)) overrides) then None
  else
    a ← read_limit overrides "maxAttempts" maxAttempts;
    c ← read_limit overrides "maxConcurrent" maxConcurrent;
    i ← read_limit overrides "maxInputBytesPerCall" maxInputBytesPerCall;
    t ← read_limit overrides "maxTotalInputBytes" maxTotalInputBytes;
    oi ← read_limit overrides "maxObservedInputTokens" maxObservedInputTokens;
    oo ← read_limit overrides "maxObservedOutputTokens" maxObservedOutputTokens;
    o ← read_limit overrides "maxOutputTokensPerCall" maxOutputTokensPerCall;
    r ← read_limit overrides "maxResponseBytesPerCall" maxResponseBytesPerCall;
    w ← read_limit overrides "wallTimeMs" wallTimeMs;
    Some (mkLimits a c i t oi oo o r w).

(** ** Usage *)

(** A number, or its digits above the safe range. *)
Inductive ModelTokenCount := TokNum (z : Z) | TokText (s : jsstr).
Definition tokenCount (value : Z) : ModelTokenCount :=
  if value <=? max_safe then TokNum value else TokText (int_to_string value).

Record ModelAttemptUsage := mkUsage {
  us_inputTokens : option ModelTokenCount;
  us_outputTokens : option Z;
  us_uncachedInputTokens : option Z;
  us_cacheReadInputTokens : option Z;
  us_cacheCreationInputTokens : option Z;
}.
Definition no_usage : ModelAttemptUsage := mkUsage None None None None None.

Definition validToken (v : jsval) : option Z :=
  n ← safeInteger v; if 0 <=? n then Some n else None.

Definition readUsage (h : heap) (response : jsval) : ModelAttemptUsage :=
  let usage := dataField h response (js "usage") in
  let reported := dataField h usage (js "reported") in
  if negb (isRecord h usage) ||
     negb (bool_decide (reported = VUndefined) || bool_decide (reported = VBool true)) then no_usage
  else if match descriptor h usage (js "reported") with
          | Some (Data v) => negb (bool_decide (v = VBool true))
          | Some (Accessor _) => true
          | None => false
          end then no_usage
  else
    let input := validToken (dataField h usage (js "input_tokens")) in
    let output := validToken (dataField h usage (js "output_tokens")) in
    let cache key :=
      match descriptor h usage key with
      | None => Some 0
      | Some _ => validToken (dataField h usage key)
      end in
    let read := cache (js "cache_read_input_tokens") in
    let write := cache (js "cache_creation_input_tokens") in
    mkUsage (match input, read, write with
             | Some i, Some r, Some w => Some (tokenCount (i + r + w))
             | _, _, _ => None
             end) output input read write.

(** ** The ledger *)

Inductive ModelBudgetRole := role_root | role_child.
Inductive settlement := P_pending | P_fulfilled | P_rejected.
Inductive usage_status := U_pending | U_reported | U_unknown.
Inductive attempt_outcome := O_pending | O_succeeded | O_rejected.
#[export] Instance settlement_eq_dec : EqDecision settlement.
Proof. solve_decision. Defined.
#[export] Instance usage_status_eq_dec : EqDecision usage_status.
Proof. solve_decision. Defined.
#[export] Instance attempt_outcome_eq_dec : EqDecision attempt_outcome.
Proof. solve_decision. Defined.

Record ModelBudgetAttempt := mkAttempt {
  at_id : Z;
  at_role : ModelBudgetRole;
  at_requestInputBytes : Z;
  at_requestedOutputTokens : Z;
  at_responseBytes : option Z;
  at_responseBytesComplete : bool;
  at_startedAfterMs : Z;
  at_settledAfterMs : option Z;
  at_providerSettlement : settlement;
  at_usageStatus : usage_status;
  at_outcome : attempt_outcome;
  at_reason : option ModelBudgetErrorCode;
  at_late : bool;
  at_usage : ModelAttemptUsage;
}.

(** A call of [createMessage] past its admission: its entry, whether its abort
    listener is registered, what first settled the race it awaits, and what it
    returned or threw. *)
Definition answer : Type := json + ModelBudgetError.
Record Call := mkCall {
  c_entry : ModelBudgetAttempt;
  c_listening : bool;
  c_race : option answer;
  c_result : option answer;
}.

(** [this]. The clock is read through [bg_reads], how often [Date.now] has been
    called; [bg_timer] and [bg_external] are the deadline timer and the listener on
    the caller's signal. The records of [nativeAttempts] unfinished with the scope they
    observe: without one they stay unobserved. *)
Record Budget := mkBudget {
  bg_limits : ModelBudgetLimits;
  bg_model : jsstr;
  bg_startedAt : Z;
  bg_reads : nat;
  bg_timer : bool;
  bg_external : bool;
  bg_closed : option ModelBudgetErrorCode;
  bg_ledger : list Call;
  bg_active : Z;
  bg_peak : Z;
  bg_requestBytes : Z;
  bg_requestedOutput : Z;
  bg_reservedOutput : Z;
  bg_observedInput : Z;
  bg_observedOutput : Z;
  bg_natives : option Natives;
}.

(** ** The monad the methods run in *)

(** A method updates [this] and returns or throws; what it changed before it threw
    stays. *)
Definition B (A : Type) : Type := Budget → Budget * (A + ModelBudgetError).
#[export] Instance B_ret : MRet B := λ A a b, (b, inl a).
#[export] Instance B_bind : MBind B := λ A C k m b,
  match m b with
  | (b, inl a) => k a b
  | (b, inr e) => (b, inr e)
  end.
Definition throws {A} (e : ModelBudgetError) : B A := λ b, (b, inr e).
Definition fails {A} (code : ModelBudgetErrorCode) : B A := throws (mkBudgetError code None).
Definition this : B Budget := λ b, (b, inl b).
Definition update (f : Budget → Budget) : B () := λ b, (f b, inl tt).
Definition catch {A} (m : B A) (handler : ModelBudgetError → B A) : B A := λ b,
  match m b with
  | (b, inr e) => handler e b
  | r => r
  end.
Definition whenever (c : bool) (m : B ()) : B () := if c then m else mret tt.

Definition with_calls (f : list Call → list Call) (b : Budget) : Budget :=
  mkBudget (bg_limits b) (bg_model b) (bg_startedAt b) (bg_reads b) (bg_timer b) (bg_external b)
    (bg_closed b) (f (bg_ledger b)) (bg_active b) (bg_peak b) (bg_requestBytes b)
    (bg_requestedOutput b) (bg_reservedOutput b) (bg_observedInput b) (bg_observedOutput b) (bg_natives b).
Definition with_natives (f : Natives → Natives) (b : Budget) : Budget :=
  mkBudget (bg_limits b) (bg_model b) (bg_startedAt b) (bg_reads b) (bg_timer b) (bg_external b)
    (bg_closed b) (bg_ledger b) (bg_active b) (bg_peak b) (bg_requestBytes b)
    (bg_requestedOutput b) (bg_reservedOutput b) (bg_observedInput b) (bg_observedOutput b)
    (f <$> bg_natives b).

Definition on_entry (f : ModelBudgetAttempt → ModelBudgetAttempt) (c : Call) : Call :=
  mkCall (f (c_entry c)) (c_listening c) (c_race c) (c_result c).
Definition set_call (i : nat) (f : Call → Call) (b : Budget) : Budget := with_calls (alter f i) b.

(** *** Changes of an entry *)

Definition set_outcome (o : attempt_outcome) (reason : option ModelBudgetErrorCode) (e : ModelBudgetAttempt) :=
  mkAttempt (at_id e) (at_role e) (at_requestInputBytes e) (at_requestedOutputTokens e)
    (at_responseBytes e) (at_responseBytesComplete e) (at_startedAfterMs e) (at_settledAfterMs e)
    (at_providerSettlement e) (at_usageStatus e) o reason (at_late e) (at_usage e).
(** [if (entry.outcome === "pending") { entry.outcome = "rejected"; entry.reason = code; }] *)
Definition reject_pending (code : ModelBudgetErrorCode) (e : ModelBudgetAttempt) : ModelBudgetAttempt :=
  if decide (at_outcome e = O_pending) then set_outcome O_rejected (Some code) e else e.
Definition succeed (e : ModelBudgetAttempt) : ModelBudgetAttempt := set_outcome O_succeeded (at_reason e) e.
Definition set_response (bytes : option Z) (complete : bool) (e : ModelBudgetAttempt) :=
  mkAttempt (at_id e) (at_role e) (at_requestInputBytes e) (at_requestedOutputTokens e)
    bytes complete (at_startedAfterMs e) (at_settledAfterMs e)
    (at_providerSettlement e) (at_usageStatus e) (at_outcome e) (at_reason e) (at_late e) (at_usage e).
Definition set_usage_status (u : usage_status) (e : ModelBudgetAttempt) :=
  mkAttempt (at_id e) (at_role e) (at_requestInputBytes e) (at_requestedOutputTokens e)
    (at_responseBytes e) (at_responseBytesComplete e) (at_startedAfterMs e) (at_settledAfterMs e)
    (at_providerSettlement e) u (at_outcome e) (at_reason e) (at_late e) (at_usage e).

(** What both settlement handlers write: the settlement, its time, whether the
    outcome was decided before it, and the usage. *)
Definition settle_entry (s : settlement) (t : Z) (status : usage_status) (usage : ModelAttemptUsage)
    (e : ModelBudgetAttempt) :=
  mkAttempt (at_id e) (at_role e) (at_requestInputBytes e) (at_requestedOutputTokens e)
    (at_responseBytes e) (at_responseBytesComplete e) (at_startedAfterMs e) (Some t)
    s status (at_outcome e) (at_reason e) (bool_decide (at_outcome e = O_rejected)) usage.

Definition reported_status (u : ModelAttemptUsage) : usage_status :=
  match us_inputTokens u, us_outputTokens u with Some _, Some _ => U_reported | _, _ => U_unknown end.
Definition orZero (n : option Z) : Z := default 0 n.
Definition usage_input (u : ModelAttemptUsage) : Z :=
  orZero (us_uncachedInputTokens u) + orZero (us_cacheReadInputTokens u) + orZero (us_cacheCreationInputTokens u).
Definition usage_output (u : ModelAttemptUsage) : Z := orZero (us_outputTokens u).

(** ** Closing *)

(** The abort listener of one call; the race keeps what settled it first. *)
Definition abortRun (closed : ModelBudgetErrorCode) (c : Call) : Call :=
  if c_listening c then
    let e := reject_pending closed (c_entry c) in
    let e := if decide (at_providerSettlement e = P_pending) then set_usage_status U_unknown e else e in
    mkCall e false
      (match c_race c with None => Some (inr (mkBudgetError closed None)) | r => r end) (c_result c)
  else c.

(** [close]: the timer and the caller's signal are let go, every listener of the
    signal runs, and the native scope is sealed. *)
Definition close (code : ModelBudgetErrorCode) (b : Budget) : Budget :=
  match bg_closed b with
  | Some _ => b
  | None =>
      mkBudget (bg_limits b) (bg_model b) (bg_startedAt b) (bg_reads b) false false (Some code)
        (abortRun code <$> bg_ledger b) (bg_active b) (bg_peak b) (bg_requestBytes b)
        (bg_requestedOutput b) (bg_reservedOutput b) (bg_observedInput b) (bg_observedOutput b)
        ((λ n, with_scope (NativeScope.seal (nt_scope n)) n) <$> bg_natives b)
  end.

Definition sealed (b : Budget) : bool :=
  match bg_natives b with Some n => ns_sealed (scopeSnapshot (nt_scope n)) | None => false end.

Section clock.
(** What [Date.now] returns each time it is called. *)
Context (clock : nat → Z).

Definition Date_now : B Z := λ b,
  (mkBudget (bg_limits b) (bg_model b) (bg_startedAt b) (S (bg_reads b)) (bg_timer b) (bg_external b)
    (bg_closed b) (bg_ledger b) (bg_active b) (bg_peak b) (bg_requestBytes b)
    (bg_requestedOutput b) (bg_reservedOutput b) (bg_observedInput b) (bg_observedOutput b) (bg_natives b),
   inl (clock (bg_reads b))).

Definition elapsed : B Z :=
  now ← Date_now; b ← this; mret (Z.max 0 (Z.min max_safe (now - bg_startedAt b))).

Definition checkOpen : B () :=
  b ← this;
  whenever (bool_decide (bg_closed b = None))
    (t ← elapsed; whenever (wallTimeMs (bg_limits b) <=? t) (update (close DEADLINE))) ;;
  b ← this;
  match bg_closed b with Some code => fails code | None => mret tt end.

(** ** Admission *)

Record CreateParams := mkParams {
  p_model : jsval;
  p_max_tokens : jsval;
  p_messages : jsval;
  p_system : jsval;
  p_tools : jsval;
  p_signal : option bool (** whether it is aborted *);
}.

(** The object literal of [createMessage]; absent fields are not spread. *)
Definition request_literal (model : jsstr) (maxTokens : Z) (params : CreateParams) : jsobj :=
  let opt key v := if decide (v = VUndefined) then [] else [(js key, (true, Data v))] in
  Plain ([(js "model", (true, Data (VStr model)));
          (js "max_tokens", (true, Data (VNum (num_of_Z maxTokens))));
          (js "messages", (true, Data (p_messages params)))] ++
         opt "system"%string (p_system params) ++ opt "tools"%string (p_tools params)).

Definition new_entry (id : Z) (role : ModelBudgetRole) (bytes maxTokens t : Z) : ModelBudgetAttempt :=
  mkAttempt id role bytes maxTokens None false t None P_pending U_pending O_pending None false no_usage.

(** The reservations and the ledger entry, made together. *)
Definition reserve (role : ModelBudgetRole) (bytes maxTokens t : Z) (b : Budget) : Budget :=
  let id := Z.of_nat (length (bg_ledger b)) + 1 in
  mkBudget (bg_limits b) (bg_model b) (bg_startedAt b) (bg_reads b) (bg_timer b) (bg_external b)
    (bg_closed b) (bg_ledger b ++ [mkCall (new_entry id role bytes maxTokens t) true None None])
    (bg_active b + 1) (Z.max (bg_peak b) (bg_active b + 1)) (bg_requestBytes b + bytes)
    (bg_requestedOutput b + maxTokens) (bg_reservedOutput b + maxTokens)
    (bg_observedInput b) (bg_observedOutput b) (newAttempt (Z.to_N id) <$> bg_natives b).

(** [createMessage] up to the call of the provider: the index of its entry and the
    request it sends. *)
Definition begin_call (h : heap) (role : ModelBudgetRole) (params : CreateParams) : B (nat * json) :=
  checkOpen ;;
  b ← this;
  whenever (sealed b) (fails DISPOSED) ;;
  whenever (bool_decide (p_signal params = Some true)) (update (close CANCELLED) ;; checkOpen) ;;
  whenever (negb (bool_decide (p_model params = VStr (bg_model b)))) (fails MODEL_MISMATCH) ;;
  match safeInteger (p_max_tokens params) with
  | None => fails INVALID_REQUEST
  | Some max_tokens =>
      whenever (max_tokens <=? 0) (fails INVALID_REQUEST) ;;
      let L := bg_limits b in
      whenever (maxAttempts L <=? Z.of_nat (length (bg_ledger b))) (fails ATTEMPT_LIMIT) ;;
      whenever (maxConcurrent L <=? bg_active b) (fails CONCURRENCY_LIMIT) ;;
      whenever (maxObservedInputTokens L <=? bg_observedInput b) (fails INPUT_TOKEN_LIMIT) ;;
      let available := maxObservedOutputTokens L - bg_reservedOutput b - bg_observedOutput b in
      whenever (available <=? 0) (fails OUTPUT_TOKEN_LIMIT) ;;
      let maxTokens := Z.min (Z.min max_tokens (maxOutputTokensPerCall L)) available in
      let (h, literal) := alloc h (request_literal (bg_model b) maxTokens params) in
      match boundedCopy h (Z.min (maxInputBytesPerCall L) (maxTotalInputBytes L - bg_requestBytes b))
              INVALID_REQUEST REQUEST_BYTES_LIMIT literal with
      | inr e => throws e
      | inl (request, bytes) =>
          whenever (negb (validRequest request)) (fails INVALID_REQUEST) ;;
          checkOpen ;;
          t ← elapsed;
          b ← this;
          update (reserve role bytes maxTokens t) ;;
          mret (length (bg_ledger b), request)
      end
  end.

(** ** Settlement *)

(** [reject]: the entry, the budget, and the error to throw. *)
Definition reject (i : nat) (code : ModelBudgetErrorCode) : B ModelBudgetError :=
  update (set_call i (on_entry (reject_pending code))) ;;
  update (close code) ;;
  b ← this;
  mret (mkBudgetError (default code (bg_ledger b !! i ≫= λ c, at_reason (c_entry c))) None).
Definition throw_reject {A} (i : nat) (code : ModelBudgetErrorCode) : B A :=
  e ← reject i code; throws e.

(** What [receive] writes before its first test. *)
Definition charge (i : nat) (t : Z) (usage : ModelAttemptUsage) (b : Budget) : Budget :=
  let requested := from_option (λ c, at_requestedOutputTokens (c_entry c)) 0 (bg_ledger b !! i) in
  mkBudget (bg_limits b) (bg_model b) (bg_startedAt b) (bg_reads b) (bg_timer b) (bg_external b)
    (bg_closed b) (alter (on_entry (settle_entry P_fulfilled t (reported_status usage) usage)) i (bg_ledger b))
    (bg_active b - 1) (bg_peak b) (bg_requestBytes b) (bg_requestedOutput b)
    (if decide (reported_status usage = U_reported) then bg_reservedOutput b - requested else bg_reservedOutput b)
    (bg_observedInput b + usage_input usage) (bg_observedOutput b + usage_output usage) (bg_natives b).

Definition receive_copy (i : nat) (h : heap) (raw : jsval) (max : Z) : B json :=
  catch
    match boundedCopy h max INVALID_RESPONSE RESPONSE_BYTES_LIMIT raw with
    | inr e => throws e
    | inl (copy, bytes) =>
        update (set_call i (on_entry (set_response (Some bytes) true))) ;;
        whenever (negb (validResponse copy)) (fails INVALID_RESPONSE) ;;
        checkOpen ;;
        mret copy
    end
    (λ e,
      whenever (bool_decide (be_code e = RESPONSE_BYTES_LIMIT))
        (update (set_call i (on_entry (λ a, set_response (be_observedBytes e) (at_responseBytesComplete a) a)))) ;;
      throw_reject i (be_code e)).

Definition receive (i : nat) (h : heap) (raw : jsval) : B json :=
  t ← elapsed;
  let usage := readUsage h raw in
  update (charge i t usage) ;;
  b ← this;
  let L := bg_limits b in
  let requested := from_option (λ c, at_requestedOutputTokens (c_entry c)) 0 (bg_ledger b !! i) in
  match bg_closed b with
  | Some code => throw_reject i code
  | None =>
      if decide (reported_status usage = U_unknown) then throw_reject i UNKNOWN_USAGE
      else if maxObservedInputTokens L <? bg_observedInput b then throw_reject i INPUT_TOKEN_LIMIT
      else if (maxObservedOutputTokens L <? bg_observedOutput b) || (requested <? usage_output usage)
      then throw_reject i OUTPUT_TOKEN_LIMIT
      else receive_copy i h raw (maxResponseBytesPerCall L)
  end.

(** The provider's promise was rejected, or the call of it threw. *)
Definition provider_failed (i : nat) : B json :=
  t ← elapsed;
  update (λ b,
    mkBudget (bg_limits b) (bg_model b) (bg_startedAt b) (bg_reads b) (bg_timer b) (bg_external b)
      (bg_closed b)
      (alter (on_entry (λ e, settle_entry P_rejected t U_unknown (at_usage e) e)) i (bg_ledger b))
      (bg_active b - 1) (bg_peak b) (bg_requestBytes b) (bg_requestedOutput b)
      (bg_reservedOutput b) (bg_observedInput b) (bg_observedOutput b) (bg_natives b)) ;;
  throw_reject i PROVIDER_ERROR.

(** [settled] settles with what its handler returned or threw; the race is decided
    unless the abort was first. *)
Definition decide_race (v : answer) (c : Call) : Call :=
  mkCall (c_entry c) (c_listening c) (match c_race c with None => Some v | r => r end) (c_result c).
Definition settle (i : nat) (handler : B json) (b : Budget) : Budget :=
  let (b, v) := handler b in set_call i (decide_race v) b.

(** [createMessage] after its [await], with the [finally]. *)
Definition resume (i : nat) (v : answer) : B json :=
  match v with
  | inl response =>
      checkOpen ;;
      update (set_call i (on_entry succeed)) ;;
      mret response
  | inr e => throws e
  end.
Definition finish_call (v : answer) (c : Call) : Call :=
  mkCall (c_entry c) false (c_race c) (Some v).
Definition deliver (i : nat) (v : answer) (b : Budget) : Budget * answer :=
  let (b, r) := resume i v b in (set_call i (finish_call r) b, r).

(** ** Construction, disposal and the snapshot *)

Record ModelBudgetOptions := mkOptions {
  op_model : jsval;
  op_limits : jsval;
  op_signal : option bool (** whether it is aborted *);
  op_native : option (option Scope) (** a scope, or what does not have its methods *);
}.

Definition validModel (v : jsval) : option jsstr :=
  match v with
  | VStr s => if (256 <? length s)%nat || bool_decide (trim s = []) then None else Some s
  | _ => None
  end.

Definition newModelBudget (h : heap) (o : ModelBudgetOptions) : Budget + ModelBudgetError :=
  match readLimits h (op_limits o) with
  | None => inr (mkBudgetError INVALID_LIMITS None)
  | Some limits =>
      match validModel (op_model o) with
      | None => inr (mkBudgetError INVALID_MODEL None)
      | Some model =>
          match op_native o with
          | Some None => inr (mkBudgetError INVALID_REQUEST None)
          | native =>
              let scope := mjoin native in
              let make timer external :=
                mkBudget limits model (clock 0) 1 timer external None [] 0 0 0 0 0 0 0
                  ((λ s, mkNatives s ∅ ∅ ∅) <$> scope) in
              inl (match op_signal o with
                   | Some true => close CANCELLED (make false false)
                   | Some false => make true true
                   | None => make true false
                   end)
          end
      end
  end.

Definition clientFor (role : jsval) : ModelBudgetRole + ModelBudgetError :=
  if decide (role = VStr (js "root")) then inl role_root
  else if decide (role = VStr (js "child")) then inl role_child
  else inr (mkBudgetError INVALID_REQUEST None).

Definition cancel : B () := update (close CANCELLED).
Definition dispose : B () := update (close DISPOSED).

Record ModelBudgetSnapshot := mkSnapshot {
  sn_model : jsstr;
  sn_limits : ModelBudgetLimits;
  sn_closedReason : option ModelBudgetErrorCode;
  sn_elapsedMs : Z;
  sn_attempts : nat;
  sn_activeCalls : Z;
  sn_peakConcurrent : Z;
  sn_totalRequestInputBytes : Z;
  sn_totalRequestedOutputTokens : Z;
  sn_reservedOutputTokens : Z;
  sn_observedInputTokens : ModelTokenCount;
  sn_observedOutputTokens : ModelTokenCount;
  sn_usageStatus : jsstr;
  sn_unknownUsageAttempts : nat;
  sn_ledger : list ModelBudgetAttempt;
}.
Definition snapshot : B ModelBudgetSnapshot :=
  t ← elapsed;
  b ← this;
  let unknown := length (filter (λ c, at_usageStatus (c_entry c) = U_unknown) (bg_ledger b)) in
  mret (mkSnapshot (bg_model b) (bg_limits b) (bg_closed b) t (length (bg_ledger b)) (bg_active b)
    (bg_peak b) (bg_requestBytes b) (bg_requestedOutput b) (bg_reservedOutput b)
    (tokenCount (bg_observedInput b)) (tokenCount (bg_observedOutput b))
    (if (0 <? unknown)%nat then js "unknown" else if 0 <? bg_active b then js "pending" else js "complete")
    unknown (c_entry <$> bg_ledger b)).

Definition sealNativeOperations : B () :=
  b ← this;
  match bg_natives b with
  | None => fails INVALID_REQUEST
  | Some _ => update (with_natives (λ n, with_scope (NativeScope.seal (nt_scope n)) n))
  end.

(** The promise [join] returns, or what the scope throws. *)
Definition joinNativeOperations : B (N + native_error) :=
  b ← this;
  match bg_natives b with
  | None => fails INVALID_REQUEST
  | Some n =>
      let (s, r) := joinScope (nt_scope n) in
      update (with_natives (with_scope s)) ;; mret r
  end.

Definition nativeObservation : B (option NativeIoSnapshot) :=
  b ← this; mret ((λ n, scopeSnapshot (nt_scope n)) <$> bg_natives b).

Definition attemptNativeObservation (id : jsval) : B NativeIoObservation :=
  match safeInteger id with
  | None => fails INVALID_REQUEST
  | Some id =>
      whenever (id <? 1) (fails INVALID_REQUEST) ;;
      b ← this;
      mret (from_option (attemptObservation (Z.to_N id)) UNOBSERVED (bg_natives b))
  end.

(** ** Everything that can happen to a budget *)

Definition awaits_provider (i : nat) (b : Budget) : Prop :=
  ∃ c, bg_ledger b !! i = Some c ∧ at_providerSettlement (c_entry c) = P_pending.

Inductive event :=
  | Asked (r : (nat * json) + ModelBudgetError)
  | Settled (i : nat)
  | Answered (i : nat) (r : answer)
  | Elsewhere.

(** Only an admission makes the record of an attempt. *)
Definition is_new_attempt (e : native_event) : bool := match e with NewAttempt _ => true | _ => false end.

Inductive step (b : Budget) : event → Budget → Prop :=
  | step_call h role params b' r :
      heap_units h → val_units (p_messages params) → val_units (p_system params) →
      val_units (p_tools params) → begin_call h role params b = (b', r) → step b (Asked r) b'
  | step_fulfilled i h raw :
      heap_units h → val_units raw → awaits_provider i b → step b (Settled i) (settle i (receive i h raw) b)
  | step_rejected i :
      awaits_provider i b → step b (Settled i) (settle i (provider_failed i) b)
  | step_resumed i c v b' r :
      bg_ledger b !! i = Some c → c_race c = Some v → c_result c = None →
      deliver i v b = (b', r) → step b (Answered i r) b'
  | step_cancel : step b Elsewhere (fst (cancel b))
  | step_dispose : step b Elsewhere (fst (dispose b))
  | step_deadline : bg_timer b = true → step b Elsewhere (close DEADLINE b)
  | step_caller_abort : bg_external b = true → step b Elsewhere (close CANCELLED b)
  | step_snapshot : step b Elsewhere (fst (snapshot b))
  | step_seal : step b Elsewhere (fst (sealNativeOperations b))
  | step_join : step b Elsewhere (fst (joinNativeOperations b))
  | step_native e : is_new_attempt e = false → step b Elsewhere (with_natives (λ n, native_step n e) b).

Inductive steps (b : Budget) : list event → Budget → Prop :=
  | steps_none : steps b [] b
  | steps_more es e b1 b2 : steps b es b1 → step b1 e b2 → steps b (es ++ [e]) b2.

End clock.
