(* ===== verification/ModelBudgetFacts.v ===== *)
(** * The model budget keeps its promises

    The invariant of [ModelBudget.v] - the counters are the sums over the ledger and
    within the limits, each call is in a state the code can leave it in - and the
    weakest preconditions of the methods that preserve it. *)

From S2P Require Export CopyExact ModelBudget.
Open Scope Z_scope.

(** ** Totals over the ledger *)

Definition sum_of (f : Call → Z) (l : list Call) : Z := foldr (λ c acc, f c + acc) 0 l.

Lemma sum_app f l k : sum_of f (l ++ k) = sum_of f l + sum_of f k.
Proof. induction l as [|c l IH]; simpl; [done|]. rewrite IH. lia. Qed.

Lemma sum_alter f g i l c : l !! i = Some c → sum_of f (alter g i l) = sum_of f l - f c + f (g c).
Proof.
  revert i. induction l as [|x l IH]; intros [|i] Hi; [done|done|simplify_eq/=; lia|].
  change (f x + sum_of f (alter g i l) = f x + sum_of f l - f c + f (g c)). rewrite IH by done. lia.
Qed.

Lemma sum_alter_same f g i l : (∀ c, f (g c) = f c) → sum_of f (alter g i l) = sum_of f l.
Proof.
  intros Hfg. revert i. induction l as [|x l IH]; intros [|i]; [done|done|simpl; by rewrite Hfg|].
  change (f x + sum_of f (alter g i l) = f x + sum_of f l). by rewrite IH.
Qed.

Lemma sum_map f g l : (∀ c, f (g c) = f c) → sum_of f (g <$> l) = sum_of f l.
Proof. intros Hfg. induction l as [|x l IH]; [done|]. rewrite fmap_cons. simpl. by rewrite Hfg, IH. Qed.

Lemma sum_nonneg f l : (∀ c, c ∈ l → 0 <= f c) → 0 <= sum_of f l.
Proof.
  induction l as [|x l IH]; intros Hf; simpl; [done|].
  pose proof (Hf x ltac:(left)). assert (0 <= sum_of f l); [|lia]. apply IH. intros c Hc. apply Hf. by right.
Qed.

(** ** What the counters count *)

Definition in_flight (c : Call) : Z := if decide (at_providerSettlement (c_entry c) = P_pending) then 1 else 0.
Definition input_bytes (c : Call) : Z := at_requestInputBytes (c_entry c).
Definition requested_output (c : Call) : Z := at_requestedOutputTokens (c_entry c).
Definition still_reserved (c : Call) : Z :=
  if decide (at_usageStatus (c_entry c) = U_reported) then 0 else requested_output c.
Definition input_tokens (c : Call) : Z := usage_input (at_usage (c_entry c)).
Definition output_tokens (c : Call) : Z := usage_output (at_usage (c_entry c)).

(** ** The invariant *)

(** A response fit to be handed out: settled, reported, within what was requested and
    within the byte limit, which the entry records. *)
Record deliverable (L : ModelBudgetLimits) (e : ModelBudgetAttempt) (j : json) : Prop := {
  dl_settled : at_providerSettlement e = P_fulfilled;
  dl_reported : at_usageStatus e = U_reported;
  dl_output : usage_output (at_usage e) <= at_requestedOutputTokens e;
  dl_bytes : at_responseBytes e = Some (json_bytes j) ∧ at_responseBytesComplete e = true;
  dl_limit : json_bytes j <= maxResponseBytesPerCall L;
  dl_valid : validResponse j = true;
}.

Definition usage_ok (u : ModelAttemptUsage) : Prop := 0 <= usage_input u ∧ 0 <= usage_output u.

(** One attempt of a budget that is open or [closed]. *)
Record call_ok (L : ModelBudgetLimits) (closed : bool) (i : nat) (c : Call) : Prop := {
  co_id : at_id (c_entry c) = Z.of_nat i + 1;
  co_bytes : 0 <= input_bytes c <= maxInputBytesPerCall L;
  co_output : 0 < requested_output c <= maxOutputTokensPerCall L;
  co_usage : usage_ok (at_usage (c_entry c));
  co_pending : at_providerSettlement (c_entry c) = P_pending →
    at_usageStatus (c_entry c) ≠ U_reported ∧ at_usage (c_entry c) = no_usage ∧
    (∀ j, c_race c ≠ Some (inl j)) ∧ (∀ j, c_result c ≠ Some (inl j));
  co_listening : c_result c = None → closed = false → c_listening c = true;
  co_released : c_result c = None → closed = true → c_race c ≠ None;
  co_rejected : at_outcome (c_entry c) = O_rejected → closed = true;
  co_succeeded : at_outcome (c_entry c) = O_succeeded ↔ ∃ j, c_result c = Some (inl j);
  co_failed : ∀ e, c_race c = Some (inr e) ∨ c_result c = Some (inr e) → closed = true;
  co_race : ∀ j, c_race c = Some (inl j) → deliverable L (c_entry c) j;
  co_result : ∀ j, c_result c = Some (inl j) → deliverable L (c_entry c) j;
}.

Definition shut (b : Budget) : bool := bool_decide (bg_closed b ≠ None).

(** The ledger and the counters; what holds at every step of a method. *)
Record ledger_ok (b : Budget) : Prop := {
  lo_model : units (bg_model b);
  lo_limits : 0 <= maxInputBytesPerCall (bg_limits b) ∧ 0 <= maxResponseBytesPerCall (bg_limits b) ∧
              0 < maxOutputTokensPerCall (bg_limits b);
  lo_attempts : Z.of_nat (length (bg_ledger b)) <= maxAttempts (bg_limits b);
  lo_active : bg_active b = sum_of in_flight (bg_ledger b);
  lo_concurrent : bg_active b <= bg_peak b ∧ bg_peak b <= maxConcurrent (bg_limits b);
  lo_bytes : bg_requestBytes b = sum_of input_bytes (bg_ledger b) ∧
             bg_requestBytes b <= maxTotalInputBytes (bg_limits b);
  lo_requested : bg_requestedOutput b = sum_of requested_output (bg_ledger b);
  lo_reserved : bg_reservedOutput b = sum_of still_reserved (bg_ledger b);
  lo_input : bg_observedInput b = sum_of input_tokens (bg_ledger b);
  lo_output : bg_observedOutput b = sum_of output_tokens (bg_ledger b);
  lo_calls : ∀ i c, bg_ledger b !! i = Some c → call_ok (bg_limits b) (shut b) i c;
  lo_natives : ∀ n, bg_natives b = Some n → natives_inv n ∧
    ∀ id, is_Some (nt_attempts n !! id) → Z.of_N id <= Z.of_nat (length (bg_ledger b));
}.

(** While the budget is open, what is observed and what is still reserved fit. *)
Definition within (b : Budget) : Prop :=
  bg_closed b = None →
  bg_reservedOutput b + bg_observedOutput b <= maxObservedOutputTokens (bg_limits b) ∧
  bg_observedInput b <= maxObservedInputTokens (bg_limits b).

Definition budget_ok (b : Budget) : Prop := ledger_ok b ∧ within b.

(** ** Reasoning about methods *)

(** The method returns or throws, and then [Q] holds of what it leaves. *)
Definition wpb {A} (m : B A) (Q : A + ModelBudgetError → Budget → Prop) (b : Budget) : Prop :=
  Q (snd (m b)) (fst (m b)).

Lemma wpb_bind {A C} (m : B A) (k : A → B C) Q b :
  wpb m (λ r b', match r with inl a => wpb (k a) Q b' | inr e => Q (inr e) b' end) b → wpb (m ≫= k) Q b.
Proof. unfold wpb, mbind, B_bind. destruct (m b) as [b' [a|e]]; simpl; done. Qed.
Lemma wpb_ret {A} (a : A) Q b : Q (inl a) b → wpb (mret a) Q b.
Proof. done. Qed.
Lemma wpb_throws {A} e Q b : Q (inr e) b → wpb (@throws A e) Q b.
Proof. done. Qed.
Lemma wpb_this Q b : Q (inl b) b → wpb this Q b.
Proof. done. Qed.
Lemma wpb_update f Q b : Q (inl tt) (f b) → wpb (update f) Q b.
Proof. done. Qed.
Lemma wpb_whenever (c : bool) m Q b : (c = true → wpb m Q b) → (c = false → Q (inl tt) b) → wpb (whenever c m) Q b.
Proof. destruct c; intros Ht Hf; [by apply Ht|by apply Hf]. Qed.
Lemma wpb_catch {A} (m : B A) handler Q b :
  wpb m (λ r b', match r with inl a => Q (inl a) b' | inr e => wpb (handler e) Q b' end) b →
  wpb (catch m handler) Q b.
Proof. unfold wpb, catch. destruct (m b) as [b' [a|e]]; simpl; done. Qed.
Lemma wpb_mono {A} (m : B A) (Q R : A + ModelBudgetError → Budget → Prop) b :
  wpb m Q b → (∀ r b', Q r b' → R r b') → wpb m R b.
Proof. unfold wpb. auto. Qed.

(** A state that differs in the clock readings only. *)
Definition at_read (n : nat) (b : Budget) : Budget :=
  mkBudget (bg_limits b) (bg_model b) (bg_startedAt b) n (bg_timer b) (bg_external b)
    (bg_closed b) (bg_ledger b) (bg_active b) (bg_peak b) (bg_requestBytes b)
    (bg_requestedOutput b) (bg_reservedOutput b) (bg_observedInput b) (bg_observedOutput b) (bg_natives b).

Lemma wpb_elapsed clock Q b :
  (∀ t, 0 <= t → Q (inl t) (at_read (S (bg_reads b)) b)) → wpb (elapsed clock) Q b.
Proof. intros H. apply H. lia. Qed.

Lemma wpb_checkOpen clock (Q : unit + ModelBudgetError → Budget → Prop) b :
  (∀ n, bg_closed b = None → Q (inl tt) (at_read n b)) →
  (∀ n, bg_closed b = None → Q (inr (mkBudgetError DEADLINE None)) (close DEADLINE (at_read n b))) →
  (∀ code, bg_closed b = Some code → Q (inr (mkBudgetError code None)) b) →
  wpb (checkOpen clock) Q b.
Proof.
  intros Hopen Hdead Hclosed. unfold checkOpen. apply wpb_bind, wpb_this, wpb_bind.
  destruct (bg_closed b) as [code|] eqn:E.
  - rewrite bool_decide_eq_false_2 by done. apply wpb_whenever; [done|]. intros _.
    apply wpb_bind, wpb_this. rewrite E. apply wpb_throws. by apply Hclosed.
  - rewrite bool_decide_eq_true_2 by done. apply wpb_whenever; [intros _|done].
    apply wpb_bind, wpb_elapsed. intros t Ht. apply wpb_whenever; intros _.
    + apply wpb_update. apply wpb_bind, wpb_this. unfold close at 1. simpl. rewrite E. simpl.
      apply wpb_throws. by apply Hdead.
    + apply wpb_bind, wpb_this. simpl. rewrite E. apply wpb_ret. by apply Hopen.
Qed.

(** ** Changes of one call *)

Lemma alter_none {A} (g : A → A) i (l : list A) : l !! i = None → alter g i l = l.
Proof.
  intros Hi. apply list_eq. intros j. destruct (decide (j = i)) as [->|].
  - by rewrite list_lookup_alter_eq, Hi.
  - by rewrite list_lookup_alter_ne.
Qed.

Lemma sum_alter_at f g i l : (∀ c, l !! i = Some c → f (g c) = f c) → sum_of f (alter g i l) = sum_of f l.
Proof.
  intros H. destruct (l !! i) as [c|] eqn:E; [|by rewrite alter_none].
  rewrite (sum_alter _ _ _ _ c), H by done. lia.
Qed.

(** What the counters read of a call. *)
Definition meters (c : Call) := (in_flight c, input_bytes c, requested_output c, still_reserved c, input_tokens c, output_tokens c).

Lemma set_call_ok i f b :
  ledger_ok b →
  (∀ c, bg_ledger b !! i = Some c → call_ok (bg_limits b) (shut b) i c →
        meters (f c) = meters c ∧ call_ok (bg_limits b) (shut b) i (f c)) →
  ledger_ok (set_call i f b).
Proof.
  intros Hb Hf. assert (∀ c, bg_ledger b !! i = Some c → meters (f c) = meters c) as Hm.
  { intros c Hc. apply Hf; [done|]. by apply (lo_calls b Hb). }
  unfold meters in Hm. destruct Hb. split; simpl; rewrite ?length_alter; try done.
  1-6: rewrite sum_alter_at; [done|]; intros c Hc; specialize (Hm c Hc); congruence.
  intros j c. destruct (decide (j = i)) as [->|].
  - rewrite list_lookup_alter_eq. intros (c0&Hc&->)%fmap_Some. apply Hf; [done|]. by apply lo_calls0.
  - rewrite list_lookup_alter_ne by done. apply lo_calls0.
Qed.

Lemma at_read_ok n b : ledger_ok b → ledger_ok (at_read n b).
Proof. intros []. by split. Qed.

(** ** Closing *)

(** What holds of an entry and of its rejection holds after [reject_pending]. *)
Lemma reject_pending_cases (P : ModelBudgetAttempt → Prop) code e :
  P e → (at_outcome e = O_pending → P (set_outcome O_rejected (Some code) e)) → P (reject_pending code e).
Proof. intros H1 H2. unfold reject_pending. case_decide; auto. Qed.

Lemma reject_pending_meters code c : meters (on_entry (reject_pending code) c) = meters c.
Proof. unfold on_entry. by apply (reject_pending_cases (λ e, meters (mkCall e _ _ _) = _)); destruct c. Qed.

Definition abort_status (e : ModelBudgetAttempt) : ModelBudgetAttempt :=
  if decide (at_providerSettlement e = P_pending) then set_usage_status U_unknown e else e.

Lemma abortRun_meters code c :
  (at_providerSettlement (c_entry c) = P_pending → at_usageStatus (c_entry c) ≠ U_reported) →
  meters (abortRun code c) = meters c.
Proof.
  intros Hp. rewrite <- (reject_pending_meters code c). unfold abortRun.
  destruct (c_listening c); [|by rewrite reject_pending_meters].
  assert (at_providerSettlement (reject_pending code (c_entry c)) = P_pending →
          at_usageStatus (reject_pending code (c_entry c)) ≠ U_reported) as Hp'.
  { by apply reject_pending_cases. }
  unfold on_entry. revert Hp'. generalize (reject_pending code (c_entry c)). intros e He.
  case_decide as Hd; [|done]. unfold meters, in_flight, still_reserved. simpl.
  by rewrite (decide_False (P := at_usageStatus e = U_reported)) by auto.
Qed.

Lemma deliverable_reject L code e j : deliverable L e j → deliverable L (reject_pending code e) j.
Proof. intros Hd. apply reject_pending_cases; [done|]. intros _. destruct Hd. by split. Qed.
Lemma deliverable_abort L e j : deliverable L e j → deliverable L (abort_status e) j.
Proof. intros Hd. unfold abort_status. rewrite decide_False; [done|]. by rewrite (dl_settled _ _ _ Hd). Qed.

(** The listener's work on an entry that cannot have been delivered: what the tests
    of [call_ok] see of it. *)
Lemma reject_call_ok L closed i code c :
  call_ok L closed i c → (c_result c = None → c_race c ≠ None) →
  call_ok L true i (on_entry (reject_pending code) c).
Proof.
  intros Hc Hrace. pose proof (reject_pending_meters code c) as Hm. unfold meters in Hm. simplify_eq.
  destruct Hc. split; try done.
  - by apply (reject_pending_cases (λ e, at_id e = _)).
  - congruence.
  - congruence.
  - by apply (reject_pending_cases (λ e, usage_ok (at_usage e))).
  - by apply (reject_pending_cases (λ e, at_providerSettlement e = _ → at_usageStatus e ≠ _ ∧ at_usage e = _ ∧ _)).
  - intros Hr _. by apply Hrace.
  - unfold on_entry. simpl. apply (reject_pending_cases (λ e, at_outcome e = O_succeeded ↔ ∃ j, c_result c = Some (inl j))); [done|].
    intros Ho. split; [done|]. intros Hj%co_succeeded0. congruence.
  - intros j Hj. by apply deliverable_reject, co_race0.
  - intros j Hj. by apply deliverable_reject, co_result0.
Qed.

Lemma abort_call_ok L i code c : call_ok L false i c → call_ok L true i (abortRun code c).
Proof.
  intros Hc. assert (c_listening c = false → c_result c ≠ None) as Hl.
  { intros Hl Hr. by rewrite (co_listening _ _ _ _ Hc Hr eq_refl) in Hl. }
  destruct (c_listening c) eqn:El.
  - unfold abortRun. rewrite El.
    set (race := match c_race c with None => Some (inr (mkBudgetError code None)) | r => r end).
    assert (call_ok L true i (mkCall (c_entry c) false race (c_result c))) as Hr.
    { destruct Hc. split; simpl; try done.
      - intros Hp. destruct (co_pending0 Hp) as (?&?&Hn&?). split_and!; [done|done| |done].
        intros j. unfold race. destruct (c_race c) as [[]|] eqn:E; [by destruct (Hn j0)|done|done].
      - intros _ _. unfold race. by destruct (c_race c).
      - intros j. unfold race. destruct (c_race c) as [v|]; [|done]. apply co_race0. }
    apply (reject_call_ok _ _ _ code) in Hr; [|intros _; unfold race; simpl; by destruct (c_race c)].
    unfold on_entry in Hr. simpl in Hr. revert Hr. generalize (reject_pending code (c_entry c)). intros e Hr.
    fold (abort_status e). destruct Hr. unfold abort_status in *.
    case_decide as Hd; [|by split]. split; simpl in *; try done.
    + intros _. destruct (co_pending0 Hd) as (?&?&?&?). done.
    + intros j Hj. destruct (co_pending0 Hd) as (_&_&Hn&_). by destruct (Hn j).
    + intros j Hj. destruct (co_pending0 Hd) as (_&_&_&Hn). by destruct (Hn j).
  - unfold abortRun. rewrite El. destruct Hc. split; try done. intros Hr. by destruct (Hl eq_refl).
Qed.

Lemma close_closed code b : bg_closed b ≠ None → close code b = b.
Proof. unfold close. by destruct (bg_closed b). Qed.
Lemma close_shuts code b : bg_closed (close code b) ≠ None.
Proof. unfold close. destruct (bg_closed b) eqn:E; simpl; congruence. Qed.
Lemma shut_spec b : shut b = true ↔ bg_closed b ≠ None.
Proof. apply bool_decide_eq_true. Qed.
Lemma shut_open b : bg_closed b = None → shut b = false.
Proof. intros H. unfold shut. by rewrite H. Qed.

Lemma close_ok code b : ledger_ok b → ledger_ok (close code b).
Proof.
  intros Hb. destruct (bg_closed b) as [c|] eqn:E; [by rewrite close_closed by congruence|].
  pose proof (shut_open b E) as Es. destruct Hb. rewrite Es in *.
  assert (∀ i c, bg_ledger b !! i = Some c → meters (abortRun code c) = meters c) as Hm.
  { intros i c Hi. apply abortRun_meters. intros Hp. by apply (co_pending _ _ _ _ (lo_calls0 i c Hi)). }
  assert (∀ f, (∀ c, meters (abortRun code c) = meters c → f (abortRun code c) = f c) →
    sum_of f (abortRun code <$> bg_ledger b) = sum_of f (bg_ledger b)) as Ht.
  { intros f Hf. clear -Hm Hf. revert Hm. induction (bg_ledger b) as [|c l IH]; intros Hm; [done|].
    rewrite fmap_cons. simpl. rewrite IH by (intros i c' Hi; exact (Hm (S i) c' Hi)).
    by rewrite (Hf c (Hm 0%nat c eq_refl)). }
  unfold close. rewrite E. unfold meters in Ht.
  split; simpl; rewrite ?length_fmap; try done.
  1-6: rewrite Ht; [done|]; intros c Hc; congruence.
  - intros i c. rewrite list_lookup_fmap. intros (c0&Hc0&->)%fmap_Some. by apply abort_call_ok, lo_calls0.
  - intros n (n0&Hn&->)%fmap_Some. destruct (lo_natives0 n0 Hn) as [Hn0 Hids]. split; [|done].
    eapply natives_frame; [done|by apply seal_inv, Hn0|apply (use_scope_frame Seal), Hn0|done].
Qed.

(** Rejecting an entry and closing is closing, whenever the budget was open. *)
Lemma reject_close code i b :
  ledger_ok b → bg_closed b = None → close code (set_call i (on_entry (reject_pending code)) b) = close code b.
Proof.
  intros Hb E. unfold close, set_call, with_calls. simpl. rewrite E. f_equal.
  apply list_eq. intros j. rewrite !list_lookup_fmap.
  destruct (decide (j = i)) as [->|]; [|by rewrite list_lookup_alter_ne].
  rewrite list_lookup_alter_eq. destruct (bg_ledger b !! i) as [c|] eqn:Ec; [|done]. simpl. f_equal.
  pose proof (lo_calls b Hb i c Ec) as Hc. rewrite (shut_open b E) in Hc.
  unfold abortRun, on_entry. simpl. destruct (c_listening c) eqn:El.
  - assert (reject_pending code (reject_pending code (c_entry c)) = reject_pending code (c_entry c)) as ->; [|done].
    unfold reject_pending. destruct (decide (at_outcome (c_entry c) = O_pending)) as [Ho|Ho]; [done|by rewrite decide_False].
  - assert (c_result c ≠ None) as Hr.
    { intros Hr. by rewrite (co_listening _ _ _ _ Hc Hr eq_refl) in El. }
    assert (at_outcome (c_entry c) = O_succeeded) as Ho.
    { apply (co_succeeded _ _ _ _ Hc). destruct (c_result c) as [[j|e]|] eqn:Er; [eauto| |done].
      pose proof (co_failed _ _ _ _ Hc e (or_intror Er)). done. }
    unfold reject_pending. rewrite decide_False by congruence. destruct c; simpl in *. congruence.
Qed.

Lemma wpb_throw_reject {A} i code (Q : A + ModelBudgetError → Budget → Prop) b :
  ledger_ok b →
  (∀ e b', ledger_ok b' → bg_closed b' ≠ None → b' = close code (set_call i (on_entry (reject_pending code)) b) →
           Q (inr e) b') →
  wpb (throw_reject i code) Q b.
Proof.
  intros Hb HQ. unfold throw_reject, reject. do 2 apply wpb_bind. apply wpb_update.
  apply wpb_bind, wpb_update. apply wpb_bind, wpb_this, wpb_ret, wpb_throws. apply HQ; [|apply close_shuts|done].
  destruct (bg_closed b) as [c|] eqn:E.
  - rewrite close_closed by (simpl; congruence). apply set_call_ok; [done|]. intros c0 Hc0 Hok.
    split; [apply reject_pending_meters|].
    assert (shut b = true) as Es by (apply shut_spec; congruence). rewrite Es in *.
    eapply reject_call_ok; [done|]. intros Hr. by apply (co_released _ _ _ _ Hok).
  - rewrite reject_close by done. by apply close_ok.
Qed.

(** ** Settlement *)

Lemma within_closed b : bg_closed b ≠ None → within b.
Proof. by intros H H'. Qed.

(** A call whose response is in but not handed out. *)
Definition answer_in (i : nat) (b : Budget) : Prop := ∃ c, bg_ledger b !! i = Some c ∧
  at_providerSettlement (c_entry c) = P_fulfilled ∧
  (∀ j, c_race c ≠ Some (inl j)) ∧ (∀ j, c_result c ≠ Some (inl j)).

Lemma set_response_ok i bytes complete b :
  ledger_ok b → answer_in i b → ledger_ok (set_call i (on_entry (set_response bytes complete)) b).
Proof.
  intros Hb (c0&Hc0&Hp&Hr&Hres). apply set_call_ok; [done|]. intros c Hc Hok.
  assert (c = c0) as -> by congruence. split; [done|]. destruct Hok. split; simpl; try done.
  - intros j Hj. by destruct (Hr j).
  - intros j Hj. by destruct (Hres j).
Qed.

Lemma validToken_nonneg v n : validToken v = Some n → 0 <= n.
Proof.
  unfold validToken. destruct (safeInteger v) as [z|]; [simpl|done].
  destruct (Z.leb_spec 0 z); [|done]. by intros [= <-].
Qed.

Lemma readUsage_ok h raw : usage_ok (readUsage h raw).
Proof.
  unfold readUsage. cbv zeta. set (usage := dataField h raw (js "usage")).
  do 2 match goal with |- usage_ok (if ?c then _ else _) => destruct c; [by split|] end.
  assert (∀ v, 0 <= orZero (validToken v)) as Hv.
  { intros v. destruct (validToken v) as [n|] eqn:E; [by eapply validToken_nonneg|done]. }
  assert (∀ key, 0 <= orZero match descriptor h usage key with
                             | None => Some 0 | Some _ => validToken (dataField h usage key) end) as Hc.
  { intros key. destruct (descriptor h usage key); [apply Hv|done]. }
  split; [|apply Hv]. unfold usage_input. repeat apply Z.add_nonneg_nonneg; [apply Hv|apply Hc|apply Hc].
Qed.

Lemma charge_ok i t usage b :
  ledger_ok b → awaits_provider i b → usage_ok usage →
  ledger_ok (charge i t usage b) ∧ answer_in i (charge i t usage b).
Proof.
  intros Hb (c&Hc&Hp) Hu. pose proof (lo_calls b Hb i c Hc) as Hok.
  destruct (co_pending _ _ _ _ Hok Hp) as (Hs&Hn&Hr&Hres). split.
  2: { eexists. split; [unfold charge; simpl; by rewrite list_lookup_alter_eq, Hc|]. done. }
  destruct Hb. unfold charge. rewrite Hc. simpl.
  split; simpl; rewrite ?length_alter; try done; rewrite ?(sum_alter _ _ _ _ _ Hc);
    unfold in_flight, still_reserved, input_tokens, output_tokens, requested_output, input_bytes in *; simpl.
  - rewrite Hp. simpl. lia.
  - split; [lia|apply lo_concurrent0].
  - lia.
  - lia.
  - rewrite (decide_False (P := at_usageStatus (c_entry c) = U_reported)) by done.
    case_decide; lia.
  - rewrite Hn. change (usage_input no_usage) with 0. lia.
  - rewrite Hn. change (usage_output no_usage) with 0. lia.
  - intros j c'. destruct (decide (j = i)) as [->|].
    2: { rewrite list_lookup_alter_ne by done. apply lo_calls0. }
    rewrite list_lookup_alter_eq, Hc. intros [= <-]. change (shut _) with (shut b).
    destruct Hok. split; simpl; try done.
    + intros k Hk. by destruct (Hr k).
    + intros k Hk. by destruct (Hres k).
Qed.

(** What a settlement handler leaves: a response fit for delivery by an open budget, or
    an error of a closed one. *)
Definition handled (i : nat) (r : answer) (b : Budget) : Prop :=
  ledger_ok b ∧
  match r with
  | inl j => within b ∧ ∃ c, bg_ledger b !! i = Some c ∧ deliverable (bg_limits b) (c_entry c) j
  | inr _ => bg_closed b ≠ None
  end.

Lemma wpb_throw_handled i code b : ledger_ok b → wpb (throw_reject i code) (handled i) b.
Proof. intros Hb. apply wpb_throw_reject; [done|]. intros e b' Hb' Hc _. by split. Qed.

Section handlers.
Context (clock : nat → Z).

Lemma wpb_recover i (e : ModelBudgetError) b :
  ledger_ok b → answer_in i b ∨ be_code e ≠ RESPONSE_BYTES_LIMIT →
  wpb (whenever (bool_decide (be_code e = RESPONSE_BYTES_LIMIT))
        (update (set_call i (on_entry (λ a, set_response (be_observedBytes e) (at_responseBytesComplete a) a)))) ;;
      throw_reject i (be_code e) : B json) (handled i) b.
Proof.
  intros Hb Hi. apply wpb_bind, wpb_whenever; [|intros _; by apply wpb_throw_handled].
  intros He. apply bool_decide_eq_true_1 in He. destruct Hi as [Hi|]; [|done].
  apply wpb_update, wpb_throw_handled. destruct Hi as (c0&Hc0&Hp&Hr&Hres). apply set_call_ok; [done|].
  intros c Hc Hok. assert (c = c0) as -> by congruence. split; [done|]. destruct Hok. split; simpl; try done.
  - intros j Hj. by destruct (Hr j).
  - intros j Hj. by destruct (Hres j).
Qed.

Lemma wpb_receive_copy i h raw b :
  heap_units h → val_units raw → ledger_ok b → within b → bg_closed b = None → answer_in i b →
  (∀ c, bg_ledger b !! i = Some c → at_usageStatus (c_entry c) = U_reported ∧
        usage_output (at_usage (c_entry c)) <= at_requestedOutputTokens (c_entry c)) →
  wpb (receive_copy clock i h raw (maxResponseBytesPerCall (bg_limits b))) (handled i) b.
Proof.
  intros Hh Hv Hb Hw Hopen Hi Hrep. pose proof (lo_limits b Hb) as (_&Hmax&_).
  unfold receive_copy. apply wpb_catch.
  destruct (boundedCopy _ _ _ _ _) as [[copy bytes]|e] eqn:Ec.
  2: { apply wpb_throws, wpb_recover; auto. }
  apply boundedCopy_inl in Ec as (_&->&Hle); [|done..].
  pose proof (set_response_ok i (Some (json_bytes copy)) true b Hb Hi) as Hb1.
  assert (answer_in i (set_call i (on_entry (set_response (Some (json_bytes copy)) true)) b)) as Hi1.
  { destruct Hi as (c&Hc&?). exists (on_entry (set_response (Some (json_bytes copy)) true) c).
    simpl. by rewrite list_lookup_alter_eq, Hc. }
  apply wpb_bind, wpb_update, wpb_bind. apply wpb_whenever.
  { intros _. apply wpb_throws, wpb_recover; auto. }
  intros Hvalid. apply negb_false_iff in Hvalid. apply wpb_bind, wpb_checkOpen.
  - intros n _. apply wpb_ret. split; [by apply at_read_ok|]. split; [done|].
    destruct Hi as (c&Hc&Hp&_). destruct (Hrep c Hc). eexists. simpl. rewrite list_lookup_alter_eq, Hc.
    split; [done|]. by split.
  - intros n _. apply wpb_recover; [by apply close_ok, at_read_ok|by right].
  - intros code E. simpl in E. congruence.
Qed.

Lemma wpb_receive i h raw b :
  heap_units h → val_units raw → budget_ok b → awaits_provider i b → wpb (receive clock i h raw) (handled i) b.
Proof.
  intros Hh Hv [Hb Hw] Hi. unfold receive. apply wpb_bind, wpb_elapsed. intros t Ht.
  set (b0 := at_read _ b). assert (ledger_ok b0) as Hb0 by (by apply at_read_ok).
  pose proof (readUsage_ok h raw) as Hu. set (usage := readUsage h raw) in *.
  destruct (charge_ok i t usage b0 Hb0 Hi Hu) as [Hb1 Hi1].
  apply wpb_bind, wpb_update, wpb_bind, wpb_this.
  destruct Hi as (c&Hc&Hp). assert (bg_ledger b0 !! i = Some c) as Hc0 by done.
  assert (bg_ledger (charge i t usage b0) !! i =
    Some (on_entry (settle_entry P_fulfilled t (reported_status usage) usage) c)) as Hc1.
  { unfold charge. simpl. by rewrite list_lookup_alter_eq, Hc. }
  rewrite Hc1. set (b1 := charge i t usage b0) in *.
  destruct (bg_closed b1) as [code|] eqn:E; [by apply wpb_throw_handled|].
  destruct (decide (reported_status usage = U_unknown)) as [Hs|Hs]; [by apply wpb_throw_handled|].
  assert (reported_status usage = U_reported) as Hr.
  { revert Hs. unfold reported_status. by repeat case_match. }
  destruct (Z.ltb_spec (maxObservedInputTokens (bg_limits b1)) (bg_observedInput b1)) as [|Hin]; [by apply wpb_throw_handled|].
  destruct (Z.ltb_spec (maxObservedOutputTokens (bg_limits b1)) (bg_observedOutput b1)) as [|Hout]; [by apply wpb_throw_handled|].
  simpl. destruct (Z.ltb_spec (at_requestedOutputTokens (c_entry c)) (usage_output usage)) as [|Hreq]; [by apply wpb_throw_handled|].
  apply (wpb_receive_copy i h raw b1); try done.
  - intros _. split; [|done]. destruct (Hw E) as [Hsum _]. unfold b1, charge. rewrite Hc0. simpl.
    rewrite decide_True by done. change (bg_limits b0) with (bg_limits b). lia.
  - intros c' Hc'. rewrite Hc1 in Hc'. injection Hc' as <-. simpl. by rewrite Hr.
Qed.

Lemma wpb_provider_failed i b : ledger_ok b → awaits_provider i b → wpb (provider_failed clock i) (handled i) b.
Proof.
  intros Hb (c&Hc&Hp). unfold provider_failed. apply wpb_bind, wpb_elapsed. intros t Ht.
  apply wpb_bind, wpb_update, wpb_throw_handled. simpl.
  pose proof (lo_calls b Hb i c Hc) as Hok. destruct (co_pending _ _ _ _ Hok Hp) as (Hs&Hn&Hr&Hres).
  destruct Hb. split; simpl; rewrite ?length_alter; try done; rewrite ?(sum_alter _ _ _ _ _ Hc);
    unfold in_flight, still_reserved, input_tokens, output_tokens, requested_output, input_bytes in *; simpl.
  - rewrite Hp. simpl. lia.
  - split; [lia|apply lo_concurrent0].
  - lia.
  - lia.
  - rewrite (decide_False (P := at_usageStatus (c_entry c) = U_reported)) by done. lia.
  - lia.
  - lia.
  - intros j c'. destruct (decide (j = i)) as [->|].
    2: { rewrite list_lookup_alter_ne by done. apply lo_calls0. }
    rewrite list_lookup_alter_eq, Hc. intros [= <-]. change (shut _) with (shut b).
    destruct Hok. split; simpl; try done.
    + intros k Hk. by destruct (Hr k).
    + intros k Hk. by destruct (Hres k).
Qed.

Lemma settle_ok i handler b :
  wpb handler (handled i) b → budget_ok (settle i handler b).
Proof.
  unfold wpb, settle. destruct (handler b) as [b' v]. simpl. intros [Hb' Hv].
  assert (within b') as Hw by (destruct v; [apply Hv|by apply within_closed]).
  split; [|done]. apply set_call_ok; [done|]. intros c Hc Hok. split; [done|].
  destruct v as [j|e].
  - destruct Hv as (_&c'&Hc'&Hd). assert (c' = c) as -> by congruence.
    pose proof (dl_settled _ _ _ Hd). destruct Hok. split; simpl; try done.
    + congruence.
    + intros _ _. by destruct (c_race c).
    + intros e. destruct (c_race c) as [v|] eqn:E; [apply co_failed0|]. intros [|Hr]; [done|]. apply (co_failed0 e). by right.
    + intros k. destruct (c_race c) as [v|] eqn:E; [apply co_race0|]. by intros [= <-].
  - apply shut_spec in Hv. rewrite Hv in *. destruct Hok. split; simpl; try done.
    + intros Hp. destruct (co_pending0 Hp) as (?&?&Hn&?). split_and!; try done.
      intros j. destruct (c_race c); [apply Hn|done].
    + intros _ _. by destruct (c_race c).
    + intros k. destruct (c_race c) as [v|] eqn:E; [apply co_race0|done].
Qed.
End handlers.

(** ** Delivery *)

Lemma set_call_twice i f g b : set_call i f (set_call i g b) = set_call i (f ∘ g) b.
Proof.
  unfold set_call, with_calls. simpl. f_equal. apply list_eq. intros j.
  destruct (decide (j = i)) as [->|]; [|by rewrite !list_lookup_alter_ne].
  rewrite !list_lookup_alter_eq. by destruct (bg_ledger b !! i).
Qed.

Lemma finish_failed_ok i e c b :
  ledger_ok b → bg_closed b ≠ None → bg_ledger b !! i = Some c → c_result c = None →
  ledger_ok (set_call i (finish_call (inr e)) b).
Proof.
  intros Hb Hcl Hc Hres. apply set_call_ok; [done|]. intros c0 Hc0 Hok.
  assert (c0 = c) as -> by congruence. split; [done|]. apply shut_spec in Hcl. rewrite Hcl in *.
  destruct Hok. split; simpl; try done.
  - intros Hp. destruct (co_pending0 Hp) as (?&?&?&?). done.
  - rewrite co_succeeded0, Hres. split; intros [? [=]].
Qed.

Lemma close_result i code b c :
  bg_ledger b !! i = Some c → ∃ c', bg_ledger (close code b) !! i = Some c' ∧ c_result c' = c_result c.
Proof.
  intros Hc. unfold close. destruct (bg_closed b); [by eauto|]. simpl. rewrite list_lookup_fmap, Hc.
  eexists. split; [done|]. unfold abortRun. by destruct (c_listening c).
Qed.

Lemma deliver_ok clock i v b c :
  budget_ok b → bg_ledger b !! i = Some c → c_race c = Some v → c_result c = None →
  budget_ok (fst (deliver clock i v b)).
Proof.
  intros [Hb Hw] Hc Hv Hres. pose proof (lo_calls b Hb i c Hc) as Hok. unfold deliver.
  destruct v as [j|e].
  2: { simpl. assert (shut b = true) as Hs%shut_spec by (apply (co_failed _ _ _ _ Hok e); by left).
       split; [by eapply finish_failed_ok|by apply within_closed]. }
  pose proof (co_race _ _ _ _ Hok j Hv) as Hd.
  assert (wpb (resume clock i (inl j)) (λ r b', budget_ok (set_call i (finish_call r) b')) b) as H.
  { unfold resume. apply wpb_bind, wpb_checkOpen.
    - intros n Ho. apply wpb_bind, wpb_update, wpb_ret. rewrite set_call_twice. split; [|done].
      apply set_call_ok; [by apply at_read_ok|]. intros c0 Hc0 _. simpl in Hc0.
      assert (c0 = c) as -> by congruence. split; [done|]. change (shut (at_read n b)) with (shut b).
      rewrite (shut_open b Ho) in *. assert (deliverable (bg_limits b) (succeed (c_entry c)) j) as Hd' by (by destruct Hd).
      pose proof (dl_settled _ _ _ Hd). destruct Hok. split; simpl; try done.
      + congruence.
      + split; [eauto|done].
      + intros e [He|]; [|done]. congruence.
      + intros k Hk. congruence.
      + intros k [= <-]. done.
    - intros n Ho. destruct (close_result i DEADLINE (at_read n b) c Hc) as (c'&Hc'&Hr').
      pose proof (close_shuts DEADLINE (at_read n b)). split; [|by apply within_closed].
      eapply finish_failed_ok; [by apply close_ok, at_read_ok|done|exact Hc'|congruence].
    - intros code Ho. assert (bg_closed b ≠ None) by congruence.
      split; [by eapply finish_failed_ok|by apply within_closed]. }
  unfold wpb in H. destruct (resume clock i (inl j) b) as [b' r]. exact H.
Qed.

(** ** Admission *)

Lemma reserve_ok role bytes maxTokens t b :
  budget_ok b → bg_closed b = None →
  Z.of_nat (length (bg_ledger b)) < maxAttempts (bg_limits b) → bg_active b < maxConcurrent (bg_limits b) →
  0 < maxTokens <= maxOutputTokensPerCall (bg_limits b) →
  maxTokens <= maxObservedOutputTokens (bg_limits b) - bg_reservedOutput b - bg_observedOutput b →
  0 <= bytes <= maxInputBytesPerCall (bg_limits b) → bytes <= maxTotalInputBytes (bg_limits b) - bg_requestBytes b →
  budget_ok (reserve role bytes maxTokens t b).
Proof.
  intros [Hb Hw] Ho Hlen Hact Hmax Havail Hbytes Htotal. destruct (Hw Ho) as [Hsum Hin]. split.
  2: { intros _. simpl. lia. }
  destruct Hb. unfold reserve. split; simpl; rewrite ?sum_app; try done.
  - rewrite length_app. simpl. lia.
  - change (sum_of in_flight [_]) with 1. lia.
  - lia.
  - change (sum_of input_bytes [_]) with (bytes + 0). lia.
  - change (sum_of requested_output [_]) with (maxTokens + 0). lia.
  - change (sum_of still_reserved [_]) with (maxTokens + 0). lia.
  - change (sum_of input_tokens [_]) with 0. lia.
  - change (sum_of output_tokens [_]) with 0. lia.
  - intros i c [Hc|[Hi Hc]]%lookup_app_Some; [by apply lo_calls0|].
    apply list_lookup_singleton_Some in Hc as [Hi0 <-]. assert (i = length (bg_ledger b)) as -> by lia.
    change (shut _) with (shut b). rewrite (shut_open b Ho).
    split; simpl; unfold input_bytes, requested_output; simpl; try done; try lia.
    + split; [done|]. by intros [].
    + by intros e [|].
  - intros n (n0&Hn&->)%fmap_Some. destruct (lo_natives0 n0 Hn) as [Hn0 Hids].
    set (id := Z.to_N (Z.of_nat (length (bg_ledger b)) + 1)).
    assert (nt_attempts n0 !! id = None) as Hfresh.
    { destruct (nt_attempts n0 !! id) eqn:E; [|done]. specialize (Hids id ltac:(eauto)). lia. }
    split.
    + pose proof (native_step_inv n0 (NewAttempt id) Hn0) as H. unfold native_step in H. simpl in H.
      by rewrite bool_decide_eq_true_2 in H.
    + intros id'. rewrite length_app. simpl. intros [<-|[_ H%Hids]]%lookup_insert_is_Some; [unfold id|]; lia.
Qed.

Lemma alloc_units h o : heap_units h → obj_units o → heap_units (fst (alloc h o)).
Proof. intros Hh Ho. unfold alloc. simpl. by apply map_Forall_insert_2. Qed.

Lemma literal_units model maxTokens params :
  units model → val_units (p_messages params) → val_units (p_system params) → val_units (p_tools params) →
  obj_units (request_literal model maxTokens params).
Proof.
  intros Hm Hmsg Hs Ht. unfold request_literal. simpl.
  assert (∀ k v, val_units v → units (js k) → Forall (λ kp : jsstr * (bool * slot), units (fst kp) ∧ slot_units (snd (snd kp)))
    (if decide (v = VUndefined) then [] else [(js k, (true, Data v))])) as Hopt.
  { intros k v Hv Hk. case_decide; repeat constructor; done. }
  repeat (apply Forall_cons; split; [split; [by_compute|done]|]).
  apply Forall_app; split; apply Hopt; (done || by_compute).
Qed.

Lemma wpb_begin_call clock h role params b (Q : (nat * json) + ModelBudgetError → Budget → Prop) :
  heap_units h → val_units (p_messages params) → val_units (p_system params) → val_units (p_tools params) →
  budget_ok b →
  (∀ e, Q (inr e) b) → (∀ e n, bg_closed b = None → Q (inr e) (at_read n b)) →
  (∀ e n code, bg_closed b = None → Q (inr e) (close code (at_read n b))) →
  (∀ request bytes maxTokens t n, bg_closed b = None →
    budget_ok (reserve role bytes maxTokens t (at_read n b)) →
    bytes = json_bytes request → validRequest request = true →
    Q (inl (length (bg_ledger b), request)) (reserve role bytes maxTokens t (at_read n b))) →
  wpb (begin_call clock h role params) Q b.
Proof.
  intros Hh Hmsg Hsys Htools Hb Hsame Hread Hclose Hadmit.
  pose proof (lo_limits b (proj1 Hb)) as (Hin&_&Hper). pose proof (lo_bytes b (proj1 Hb)) as [_ Htot].
  unfold begin_call. apply wpb_bind, wpb_checkOpen; [intros n Ho|intros n Ho; by apply Hclose|by intros; apply Hsame].
  assert (∀ code, Q (inr (mkBudgetError code None)) (at_read n b)) as Hfail by (intros; by apply Hread).
  apply wpb_bind, wpb_this, wpb_bind, wpb_whenever; intros _; [by apply wpb_throws|].
  apply wpb_bind, wpb_whenever; intros _.
  { apply wpb_bind, wpb_update, wpb_checkOpen; intros m Hm;
      [by destruct (close_shuts CANCELLED (at_read n b))..|by apply Hclose]. }
  apply wpb_bind, wpb_whenever; intros _; [by apply wpb_throws|].
  destruct (safeInteger (p_max_tokens params)) as [max_tokens|]; [|by apply wpb_throws].
  apply wpb_bind, wpb_whenever; intros Hpos; [by apply wpb_throws|].
  apply wpb_bind, wpb_whenever; intros Hatt; [by apply wpb_throws|].
  apply wpb_bind, wpb_whenever; intros Hconc; [by apply wpb_throws|].
  apply wpb_bind, wpb_whenever; intros _; [by apply wpb_throws|].
  apply wpb_bind, wpb_whenever; intros Hout; [by apply wpb_throws|]. simpl in Hatt, Hconc, Hout.
  apply Z.leb_gt in Hpos, Hatt, Hconc, Hout.
  set (maxTokens := Z.min _ _).
  pose proof (alloc_units h (request_literal (bg_model b) maxTokens params) Hh
    (literal_units _ _ _ (lo_model b (proj1 Hb)) Hmsg Hsys Htools)) as Hh'.
  change (bg_model (at_read n b)) with (bg_model b).
  destruct (alloc h _) as [h' literal] eqn:Ea. simpl in Hh'.
  assert (val_units literal) as Hlit by (by injection Ea as <- <-).
  destruct (boundedCopy _ _ _ _ _) as [[request bytes]|e] eqn:Ec; [|apply wpb_throws; by apply Hread].
  apply boundedCopy_inl in Ec as (_&Hbytes&Hle); [|done|done|simpl; lia]. simpl in Hle.
  apply wpb_bind, wpb_whenever; intros Hvalid; [by apply wpb_throws|]. apply negb_false_iff in Hvalid.
  apply wpb_bind, wpb_checkOpen; [intros n1 _|intros n1 _; by apply Hclose|simpl; congruence].
  apply wpb_bind, wpb_elapsed. intros t Ht. apply wpb_bind, wpb_this, wpb_bind, wpb_update, wpb_ret.
  apply (Hadmit request bytes maxTokens t (S n1)); [done| |done|done].
  pose proof (json_bytes_nonneg request).
  apply reserve_ok; try done; [|unfold maxTokens; simpl; lia..].
  destruct Hb as [Hb Hw]. split; [by apply at_read_ok|done].
Qed.
