(* ===== verification/BudgetHistory.v ===== *)
(** * The model budget's history

    What the invariant of [ModelBudgetFacts.v] gives over whole runs: limits and
    results never change back, a closed budget stays closed and releases its callers,
    and the three properties of the budget. *)

From S2P Require Export ModelBudgetFacts.
Open Scope Z_scope.

(** ** What never changes back *)

(** From [b] to a later [b']: the limits stay, no attempt is forgotten, what a call
    returned stays; and once [b] is closed, so is [b'], for the same reason, with no
    attempt added and no response delivered. *)
Record later (b b' : Budget) : Prop := {
  lt_limits : bg_limits b' = bg_limits b;
  lt_length : (length (bg_ledger b) <= length (bg_ledger b'))%nat;
  lt_results : ∀ i c v, bg_ledger b !! i = Some c → c_result c = Some v →
    ∃ c', bg_ledger b' !! i = Some c' ∧ c_result c' = Some v;
  lt_closed : ∀ code, bg_closed b = Some code →
    bg_closed b' = Some code ∧ length (bg_ledger b') = length (bg_ledger b);
  lt_final : ∀ i c' j, bg_closed b ≠ None → bg_ledger b' !! i = Some c' → c_result c' = Some (inl j) →
    ∃ c, bg_ledger b !! i = Some c ∧ c_result c = Some (inl j);
}.

#[export] Instance later_preorder : PreOrder later.
Proof.
  split.
  - intros b. split; eauto.
  - intros b1 b2 b3 [L1 N1 R1 C1 F1] [L2 N2 R2 C2 F2]. split.
    + congruence.
    + lia.
    + intros i c v Hc Hv. destruct (R1 i c v Hc Hv) as (c2&Hc2&Hv2). eauto.
    + intros code Hc. destruct (C1 code Hc) as [Hc2 Hl2]. destruct (C2 code Hc2). split; [done|congruence].
    + intros i c j Hc Hi Hj. assert (bg_closed b2 ≠ None) as Hc2.
      { destruct (bg_closed b1) as [code|] eqn:E; [|done]. destruct (C1 code eq_refl). congruence. }
      destruct (F2 i c j Hc2 Hi Hj) as (c2&Hi2&Hj2). eauto.
Qed.

(** The ledgers have the same results, in the same places. *)
Definition results (b : Budget) : list (option answer) := c_result <$> bg_ledger b.

Lemma later_same b b' :
  bg_limits b' = bg_limits b → results b' = results b →
  (∀ code, bg_closed b = Some code → bg_closed b' = Some code) → later b b'.
Proof.
  unfold results. intros HL HR HC.
  assert (length (bg_ledger b') = length (bg_ledger b)) as Hlen.
  { rewrite <- (length_fmap c_result (bg_ledger b')), HR. apply length_fmap. }
  assert (∀ i, c_result <$> bg_ledger b' !! i = c_result <$> bg_ledger b !! i) as Hi.
  { intros i. by rewrite <- !list_lookup_fmap, HR. }
  split; [done|lia| |by auto|].
  - intros i c v Hc Hv. specialize (Hi i). rewrite Hc in Hi. simpl in Hi.
    apply fmap_Some in Hi as (c'&Hc'&E). exists c'. split; [done|congruence].
  - intros i c' j _ Hc' Hj. specialize (Hi i). rewrite Hc' in Hi. simpl in Hi. symmetry in Hi.
    apply fmap_Some in Hi as (c&Hc&E). exists c. split; [done|congruence].
Qed.

Lemma results_set_call i f b : (∀ c, c_result (f c) = c_result c) → results (set_call i f b) = results b.
Proof.
  intros Hf. unfold results. simpl. apply list_eq. intros j. rewrite !list_lookup_fmap.
  destruct (decide (j = i)) as [->|]; [|by rewrite list_lookup_alter_ne].
  rewrite list_lookup_alter_eq. destruct (bg_ledger b !! i); simpl; [by rewrite Hf|done].
Qed.
Lemma later_set_call i f b : (∀ c, c_result (f c) = c_result c) → later b (set_call i f b).
Proof. intros Hf. apply later_same; [done|by apply results_set_call|done]. Qed.
Lemma later_at_read n b : later b (at_read n b).
Proof. by apply later_same. Qed.
Lemma later_close code b : later b (close code b).
Proof.
  unfold close. destruct (bg_closed b) eqn:E; [done|].
  apply later_same; [done| |intros ?; congruence]. unfold results. simpl. rewrite <- list_fmap_compose. apply list_fmap_ext.
  intros i c _. simpl. unfold abortRun. by case_match.
Qed.
Lemma later_charge i t usage b : later b (charge i t usage b).
Proof. apply later_same; [done| |done]. by apply (results_set_call i (on_entry (settle_entry P_fulfilled t (reported_status usage) usage)) b). Qed.

Lemma later_reserve role bytes maxTokens t b : bg_closed b = None → later b (reserve role bytes maxTokens t b).
Proof.
  intros Ho. split; simpl; try done; try congruence.
  - rewrite length_app. lia.
  - intros i c v Hc Hv. exists c. split; [by apply lookup_app_l_Some|done].
Qed.

(** Methods that only move forward. *)
Definition advances {A} (m : B A) : Prop := ∀ b, later b (fst (m b)).

Lemma advances_ret {A} (a : A) : advances (mret a : B A).
Proof. intros b. done. Qed.
Lemma advances_throws {A} e : advances (@throws A e).
Proof. intros b. done. Qed.
Lemma advances_this : advances this.
Proof. intros b. done. Qed.
Lemma advances_update f : (∀ b, later b (f b)) → advances (update f).
Proof. intros H b. apply H. Qed.
Lemma advances_bind {A C} (m : B A) (k : A → B C) : advances m → (∀ a, advances (k a)) → advances (m ≫= k).
Proof.
  intros Hm Hk b. pose proof (Hm b) as H. unfold mbind, B_bind. destruct (m b) as [b' [a|e]]; simpl in *; [|done].
  etrans; [exact H|apply Hk].
Qed.
Lemma advances_whenever c m : advances m → advances (whenever c m).
Proof. intros Hm. destruct c; [done|apply advances_ret]. Qed.
Lemma advances_catch {A} (m : B A) handler : advances m → (∀ e, advances (handler e)) → advances (catch m handler).
Proof.
  intros Hm Hk b. pose proof (Hm b) as H. unfold catch. destruct (m b) as [b' [a|e]]; simpl in *; [done|].
  etrans; [exact H|apply Hk].
Qed.

Create HintDb advances discriminated.
#[export] Hint Resolve advances_ret advances_throws advances_this advances_bind advances_whenever
  advances_catch advances_update later_at_read later_close later_charge later_set_call : advances.
#[export] Hint Extern 1 (advances (fails _)) => apply advances_throws : advances.
#[export] Hint Extern 2 (c_result _ = c_result _) => reflexivity : advances.

Section advancing.
Context (clock : nat → Z).

Lemma advances_elapsed : advances (elapsed clock).
Proof. apply advances_bind; [intros b; apply (later_at_read (S (bg_reads b)))|]. auto with advances. Qed.
Hint Resolve advances_elapsed : advances.

Lemma advances_checkOpen : advances (checkOpen clock).
Proof.
  unfold checkOpen. apply advances_bind; [auto with advances|]. intros b. apply advances_bind.
  - apply advances_whenever, advances_bind; auto with advances.
  - intros _. apply advances_bind; [auto with advances|]. intros b'. destruct (bg_closed b'); auto with advances.
Qed.
Hint Resolve advances_checkOpen : advances.

Lemma advances_throw_reject {A} i code : advances (@throw_reject A i code).
Proof. unfold throw_reject, reject. auto 10 with advances. Qed.
Hint Resolve advances_throw_reject : advances.

Lemma advances_receive_copy i h raw max : advances (receive_copy clock i h raw max).
Proof.
  unfold receive_copy. apply advances_catch.
  - destruct (boundedCopy _ _ _ _ _) as [[copy bytes]|e]; auto 10 with advances.
  - intros e. apply advances_bind; auto 10 with advances.
Qed.
Hint Resolve advances_receive_copy : advances.

Lemma advances_receive i h raw : advances (receive clock i h raw).
Proof.
  unfold receive. apply advances_bind; [auto with advances|]. intros t.
  apply advances_bind; [auto with advances|]. intros _. apply advances_bind; [auto with advances|].
  intros b. destruct (bg_closed b); [auto with advances|].
  case_decide; [auto with advances|]. repeat (case_match; [auto with advances|]). auto with advances.
Qed.

Lemma advances_provider_failed i : advances (provider_failed clock i).
Proof.
  unfold provider_failed. apply advances_bind; [auto with advances|]. intros t.
  apply advances_bind; [|auto with advances]. apply advances_update. intros b. apply later_same; [done| |done].
  by apply (results_set_call i (on_entry (λ e, settle_entry P_rejected t U_unknown (at_usage e) e)) b).
Qed.

Lemma later_settle i handler b : advances handler → later b (settle i handler b).
Proof.
  intros H. unfold settle. pose proof (H b) as Hb. destruct (handler b) as [b' v]. simpl in Hb.
  etrans; [exact Hb|]. by apply later_set_call.
Qed.

(** A result is written once, and a response only by a budget that is open. *)
Lemma later_finish i v b c :
  bg_ledger b !! i = Some c → c_result c = None → (∀ j, v = inl j → bg_closed b = None) →
  later b (set_call i (finish_call v) b).
Proof.
  intros Hc Hr Hv. split; simpl; rewrite ?length_alter; try done.
  - intros k c0 v0 Hc0 Hv0. exists c0. split; [|done]. rewrite list_lookup_alter_ne; [done|]. congruence.
  - intros k c' j Hcl. destruct (decide (k = i)) as [->|]; [|rewrite list_lookup_alter_ne by done; eauto].
    rewrite list_lookup_alter_eq, Hc. intros [= <-] [= ->]. by destruct (Hcl (Hv j eq_refl)).
Qed.

Lemma resume_outcome i v b c :
  bg_ledger b !! i = Some c → c_result c = None →
  wpb (resume clock i v) (λ r b', later b b' ∧ (∃ c', bg_ledger b' !! i = Some c' ∧ c_result c' = None) ∧
    ∀ j, r = inl j → v = inl j ∧ bg_closed b' = None) b.
Proof.
  intros Hc Hr. unfold resume. destruct v as [j|e]; [|apply wpb_throws; split_and!; eauto; done].
  apply wpb_bind, wpb_checkOpen.
  - intros n Ho. apply wpb_bind, wpb_update, wpb_ret. split_and!.
    + etrans; [apply (later_at_read n)|]. by apply later_set_call.
    + eexists. simpl. by rewrite list_lookup_alter_eq, Hc.
    + intros k [= <-]. done.
  - intros n Ho. split_and!; [by etrans; [apply (later_at_read n)|apply later_close]| |done].
    destruct (close_result i DEADLINE (at_read n b) c Hc) as (c'&Hc'&E). exists c'. split; [done|congruence].
  - intros code Ho. split_and!; [done|eauto|done].
Qed.

Lemma later_deliver i v b c :
  bg_ledger b !! i = Some c → c_result c = None → later b (fst (deliver clock i v b)).
Proof.
  intros Hc Hr. pose proof (resume_outcome i v b c Hc Hr) as H. unfold wpb in H. unfold deliver.
  destruct (resume clock i v b) as [b' r]. simpl in *. destruct H as (Hl&(c'&Hc'&Hr')&Hj).
  etrans; [exact Hl|]. eapply later_finish; [done|done|]. intros j ->. by apply (Hj j).
Qed.

Lemma seal_native_ok (n : Natives) : natives_inv n → natives_inv (with_scope (NativeScope.seal (nt_scope n)) n).
Proof.
  intros Hn. eapply natives_frame; [done|by apply seal_inv, Hn|apply (use_scope_frame Seal), Hn|done].
Qed.

Lemma native_event_ids n e :
  is_new_attempt e = false →
  ∀ id, is_Some (nt_attempts (native_step n e) !! id) → is_Some (nt_attempts n !! id).
Proof.
  assert (∀ f i id, is_Some (alter f i (nt_attempts n) !! id) → is_Some (nt_attempts n !! id)) as Ha.
  { intros f i id. destruct (decide (id = i)) as [->|].
    - rewrite lookup_alter_eq. by intros H%fmap_is_Some.
    - by rewrite lookup_alter_ne. }
  intros He id. unfold native_step. destruct (native_ok n e); [simpl|done].
  destruct e; try done; unfold boundOpen, boundTrack, boundSettled, boundClose; simpl.
  - destruct (openTransport _) as [s []]; simpl; [apply Ha|done].
  - repeat case_match; simpl; try done. apply Ha.
  - repeat case_match; simpl; try done. apply Ha.
  - repeat case_match; simpl; try done. apply Ha.
Qed.

Lemma with_natives_ok f b :
  budget_ok b →
  (∀ n, bg_natives b = Some n → natives_inv n → natives_inv (f n) ∧
        ∀ id, is_Some (nt_attempts (f n) !! id) → is_Some (nt_attempts n !! id)) →
  budget_ok (with_natives f b).
Proof.
  intros [Hb Hw] Hf. split; [|done]. destruct Hb. split; simpl; try done.
  intros n (n0&Hn&->)%fmap_Some. destruct (lo_natives n0 Hn) as [Hn0 Hids].
  destruct (Hf n0 Hn Hn0) as [Hi Hd]. split; [done|]. auto.
Qed.

Lemma step_ok b e b' : budget_ok b → step clock b e b' → budget_ok b' ∧ later b b'.
Proof.
  intros Hb Hs. destruct Hs as [h role params b' r Hh Hm Hsy Ht Hadmit|h raw i Hh Hv Hi|i Hi|i c v b' r Hc Hv Hr Hd| | | | | | | |e He].
  - assert (wpb (begin_call clock h role params) (λ _ b', budget_ok b' ∧ later b b') b) as H.
    { apply wpb_begin_call; try done.
      - intros _ n _. split; [|apply later_at_read]. destruct Hb. split; [by apply at_read_ok|done].
      - intros _ n code _. split; [|by etrans; [apply (later_at_read n)|apply later_close]].
        split; [apply close_ok, at_read_ok, Hb|]. apply within_closed, close_shuts.
      - intros request bytes maxTokens t n Ho Hok _ _. split; [done|].
        etrans; [apply (later_at_read n)|by apply later_reserve]. }
    unfold wpb in H. by rewrite Hadmit in H.
  - split; [by apply settle_ok, wpb_receive|apply later_settle, advances_receive].
  - split; [apply settle_ok, wpb_provider_failed; [apply Hb|done]|apply later_settle, advances_provider_failed].
  - replace b' with (fst (deliver clock i v b)) by (by rewrite Hd).
    split; [by eapply deliver_ok|by eapply later_deliver].
  - split; [|apply later_close]. split; [apply close_ok, Hb|apply within_closed, close_shuts].
  - split; [|apply later_close]. split; [apply close_ok, Hb|apply within_closed, close_shuts].
  - split; [|apply later_close]. split; [apply close_ok, Hb|apply within_closed, close_shuts].
  - split; [|apply later_close]. split; [apply close_ok, Hb|apply within_closed, close_shuts].
  - change (fst (snapshot clock b)) with (at_read (S (bg_reads b)) b).
    split; [|apply later_at_read]. destruct Hb. split; [by apply at_read_ok|done].
  - unfold sealNativeOperations. simpl. unfold mbind, B_bind. simpl. destruct (bg_natives b) as [n|] eqn:E; [|done].
    simpl. split; [|by apply later_same]. apply with_natives_ok; [done|]. intros n' _ Hn'. split; [by apply seal_native_ok|done].
  - pose proof (λ n : Natives, joinScope_inv (nt_scope n)) as Hj. unfold joinNativeOperations, mbind, B_bind. simpl.
    destruct (bg_natives b) as [n|] eqn:E; [|done]. specialize (Hj n). destruct (joinScope (nt_scope n)) as [s r] eqn:Es. simpl.
    split; [|by apply later_same]. apply with_natives_ok; [done|]. intros n' Hn' Hn. assert (n' = n) as -> by congruence.
    split; [|done]. pose proof (use_scope_frame NativeScope.Join _ (ni_scope n Hn)) as Hf. simpl in Hf. rewrite Es in Hf.
    eapply natives_frame; [done|by apply Hj, Hn|exact Hf|done].
  - split; [|by apply later_same]. apply with_natives_ok; [done|]. intros n _ Hn.
    split; [by apply native_step_inv|by apply native_event_ids].
Qed.

Lemma steps_ok b es b' : budget_ok b → steps clock b es b' → budget_ok b' ∧ later b b'.
Proof.
  intros Hb. induction 1 as [|es e b1 b2 _ [Hok Hl] Hs]; [done|].
  destruct (step_ok _ _ _ Hok Hs). split; [done|]. by etrans.
Qed.
End advancing.

(** ** A new budget *)

Definition limits_ok (L : ModelBudgetLimits) : Prop :=
  let C := MODEL_BUDGET_HARD_CEILINGS in
  0 < maxAttempts L <= maxAttempts C ∧ 0 < maxConcurrent L <= maxConcurrent C ∧
  0 < maxInputBytesPerCall L <= maxInputBytesPerCall C ∧ 0 < maxTotalInputBytes L <= maxTotalInputBytes C ∧
  0 < maxObservedInputTokens L <= maxObservedInputTokens C ∧
  0 < maxObservedOutputTokens L <= maxObservedOutputTokens C ∧
  0 < maxOutputTokensPerCall L <= maxOutputTokensPerCall C ∧
  0 < maxResponseBytesPerCall L <= maxResponseBytesPerCall C ∧ 0 < wallTimeMs L <= wallTimeMs C.

Lemma read_limit_ok overrides key field n :
  read_limit overrides key field = Some n → 0 < n <= field MODEL_BUDGET_HARD_CEILINGS.
Proof.
  unfold read_limit. intros (v&_&Hn)%bind_Some.
  destruct (Z.leb_spec v 0), (Z.ltb_spec (field MODEL_BUDGET_HARD_CEILINGS) v); simplify_eq/=; lia.
Qed.

Lemma readLimits_ok h v L : readLimits h v = Some L → limits_ok L.
Proof.
  unfold readLimits. intros (o&_&H)%bind_Some. destruct (negb _); [done|].
  repeat match goal with
  | H : read_limit _ _ _ ≫= _ = Some _ |- _ => let n := fresh "n" in let E := fresh "E" in
      apply bind_Some in H as (n&E%read_limit_ok&H)
  end. injection H as <-. unfold limits_ok. simpl in *. tauto.
Qed.

(** An injected scope that has only been used through its own methods. *)
Definition scope_given (o : ModelBudgetOptions) : Prop :=
  ∀ s, op_native o = Some (Some s) → ∃ es, s = scope_run createNativeOperationScope es.

Lemma new_budget_ok clock h o b :
  val_units (op_model o) → scope_given o → newModelBudget clock h o = inl b →
  budget_ok b ∧ limits_ok (bg_limits b).
Proof.
  intros Hm Hs. unfold newModelBudget. destruct (readLimits h (op_limits o)) as [L|] eqn:EL; [|done].
  destruct (validModel (op_model o)) as [model|] eqn:EM; [|done]. apply readLimits_ok in EL.
  assert (units model) as Hu.
  { revert EM. unfold validModel. destruct (op_model o); try done. case_match; [done|]. by intros [= <-]. }
  set (make := λ timer external, mkBudget L model (clock 0%nat) 1 timer external None [] 0 0 0 0 0 0 0
    ((λ s, mkNatives s ∅ ∅ ∅) <$> mjoin (op_native o))).
  assert (∀ t e, budget_ok (make t e)) as Hmake.
  { intros t e. unfold limits_ok in EL. split; [|intros _; simpl; lia].
    split; simpl; try done; try lia.
    intros n (s&Hn&->)%fmap_Some. split; [|by intros id [? H]].
    destruct (op_native o) as [[s'|]|] eqn:E; [|done|done]. injection Hn as ->. destruct (Hs s E) as [es ->].
    split; simpl; [apply scope_run_inv, create_inv|..]; intros *; by rewrite lookup_empty. }
  intros Hb. assert (b = match op_signal o with Some true => close CANCELLED (make false false)
    | Some false => make true true | None => make true false end) as ->.
  { destruct (op_native o) as [[s|]|]; [|done|]; by injection Hb. }
  destruct (op_signal o) as [[]|]; (split; [|exact EL]); [|apply Hmake..].
  split; [apply close_ok, Hmake|apply within_closed, close_shuts].
Qed.

(** ** Histories *)

Section histories.
Context (clock : nat → Z).

Lemma begin_call_closed h role params b code :
  bg_closed b = Some code → begin_call clock h role params b = (b, inr (mkBudgetError code None)).
Proof.
  intros E. unfold begin_call, checkOpen, mbind, B_bind, this, whenever. rewrite E.
  rewrite bool_decide_eq_false_2 by done. simpl. by rewrite E.
Qed.

Lemma resume_closed i v b code j :
  bg_closed b = Some code → snd (resume clock i v b) ≠ inl j.
Proof.
  intros E. unfold resume. destruct v as [k|e]; [|done].
  unfold checkOpen, mbind, B_bind, this, whenever. rewrite E. rewrite bool_decide_eq_false_2 by done.
  simpl. by rewrite E.
Qed.

Definition answers_of (b : Budget) (i : nat) : option answer := bg_ledger b !! i ≫= c_result.

(** Who was answered in the past has the answer for good. *)
Lemma answered_has_result i r b b' : step clock b (Answered i r) b' → answers_of b i = None ∧ answers_of b' i = Some r.
Proof.
  inversion 1 as [| | |i' c v b'' r' Hc Hv Hr Hd| | | | | | | |]; subst. unfold answers_of. rewrite Hc. split; [done|].
  pose proof (resume_outcome clock i v b c Hc Hr) as Ho. unfold wpb in Ho. unfold deliver in Hd.
  destruct (resume clock i v b) as [b1 r1]. simpl in Ho. injection Hd as <- <-.
  destruct Ho as (_&(c'&Hc'&_)&_). simpl. by rewrite list_lookup_alter_eq, Hc'.
Qed.

Lemma later_answers b b' i r : later b b' → answers_of b i = Some r → answers_of b' i = Some r.
Proof.
  intros Hl (c&Hc&Hr)%bind_Some. destruct (lt_results _ _ Hl i c r Hc Hr) as (c'&Hc'&Hr').
  unfold answers_of. by rewrite Hc'.
Qed.

Lemma answered_before b es b' i r :
  budget_ok b → steps clock b es b' → Answered i r ∈ es → answers_of b' i = Some r.
Proof.
  intros Hb. induction 1 as [|es e b1 b2 Hs IH Hstep]; [by intros ?%elem_of_nil|].
  destruct (steps_ok clock _ _ _ Hb Hs) as [Hok _]. destruct (step_ok clock _ _ _ Hok Hstep) as [_ Hl].
  intros [Hin|<-%list_elem_of_singleton]%elem_of_app.
  - eapply later_answers; [exact Hl|auto].
  - by destruct (answered_has_result _ _ _ _ Hstep).
Qed.

Lemma closed_step b e b' code :
  bg_closed b = Some code → step clock b e b' →
  (∀ a, e ≠ Asked (inl a)) ∧ ∀ i j, e ≠ Answered i (inl j).
Proof.
  intros E. destruct 1 as [h role params b' r Hh Hm Hsy Ht Hadmit| | |i c v b' r Hc Hv Hr Hd| | | | | | | |]; try done.
  - rewrite (begin_call_closed _ _ _ _ _ E) in Hadmit. by injection Hadmit as <- <-.
  - split; [done|]. intros i' j [= -> ->]. unfold deliver in Hd.
    pose proof (resume_closed i' v b code j E) as Hne. destruct (resume clock i' v b) as [b1 r1].
    injection Hd as _ Hd. by destruct (Hne Hd).
Qed.

Lemma closed_steps b es b' code :
  budget_ok b → bg_closed b = Some code → steps clock b es b' →
  (∀ a, Asked (inl a) ∉ es) ∧ ∀ i j, Answered i (inl j) ∉ es.
Proof.
  intros Hb E. induction 1 as [|es e b1 b2 Hs [IH1 IH2] Hstep]; [split; intros; apply not_elem_of_nil|].
  destruct (steps_ok clock _ _ _ Hb Hs) as [_ Hl]. destruct (lt_closed _ _ Hl code E) as [E1 _].
  destruct (closed_step _ _ _ _ E1 Hstep) as [H1 H2].
  split; [intros a|intros i j]; rewrite elem_of_app, list_elem_of_singleton.
  - intros [Hin|He]; [by eapply IH1|by eapply H1].
  - intros [Hin|He]; [by eapply IH2|by eapply H2].
Qed.
End histories.

(** ** Properties *)

(** A budget made by the constructor, and a state it can get to. *)
Definition reachable (clock : nat → Z) (h : heap) (o : ModelBudgetOptions) (es : list event) (b : Budget) : Prop :=
  val_units (op_model o) ∧ scope_given o ∧
  ∃ b0, newModelBudget clock h o = inl b0 ∧ steps clock b0 es b.

Lemma reachable_ok clock h o es b :
  reachable clock h o es b → budget_ok b ∧ limits_ok (bg_limits b).
Proof.
  intros (Hm&Hs&b0&Hnew&Hsteps). destruct (new_budget_ok clock h o b0 Hm Hs Hnew) as [H0 HL].
  destruct (steps_ok clock _ _ _ H0 Hsteps) as [Hb Hl]. split; [done|]. by rewrite (lt_limits _ _ Hl).
Qed.

Lemma reachable_more clock h o es es' b b' :
  reachable clock h o es b → steps clock b es' b' → reachable clock h o (es ++ es') b'.
Proof.
  intros (Hm&Hs&b0&Hnew&Hsteps) Hmore. split_and!; [done|done|]. exists b0. split; [done|].
  induction Hmore as [|es' e b1 b2 _ IH Hstep]; [by rewrite app_nil_r|]. rewrite app_assoc. by econstructor.
Qed.

(** C12: a budget keeps within its limits, which no configuration raises above the
    host's, in every state it can reach, whatever the order in which calls are made,
    settled, cancelled and resumed: attempts, calls in flight and their peak, the
    bytes of each request and of all of them, the output each call may ask for. The
    counters are the sums over the ledger of what each entry asked for, still reserves
    and used. While it is open, the output used and the output still reserved fit the
    limit together, and so does the input used. *)
Theorem budget_within_limits clock h o es b :
  reachable clock h o es b →
  let L := bg_limits b in
  limits_ok L ∧
  Z.of_nat (length (bg_ledger b)) <= maxAttempts L ∧
  0 <= bg_active b <= bg_peak b ∧ bg_peak b <= maxConcurrent L ∧
  bg_requestBytes b <= maxTotalInputBytes L ∧
  Forall (λ c, at_requestInputBytes (c_entry c) <= maxInputBytesPerCall L ∧
               0 < at_requestedOutputTokens (c_entry c) <= maxOutputTokensPerCall L) (bg_ledger b) ∧
  (bg_active b, bg_requestBytes b, bg_requestedOutput b, bg_reservedOutput b, bg_observedInput b, bg_observedOutput b) =
    (sum_of in_flight (bg_ledger b), sum_of input_bytes (bg_ledger b), sum_of requested_output (bg_ledger b),
     sum_of still_reserved (bg_ledger b), sum_of input_tokens (bg_ledger b), sum_of output_tokens (bg_ledger b)) ∧
  (bg_closed b = None → bg_reservedOutput b + bg_observedOutput b <= maxObservedOutputTokens L ∧
                        bg_observedInput b <= maxObservedInputTokens L).
Proof.
  intros Hr. destruct (reachable_ok _ _ _ _ _ Hr) as [[Hb Hw] HL].
  pose proof (lo_concurrent b Hb) as [Ha Hp]. destruct (lo_bytes b Hb) as [Hs Hle]. split_and!; try done.
  - apply Hb.
  - rewrite (lo_active b Hb). apply sum_nonneg. intros c _. unfold in_flight. by case_decide.
  - apply Forall_lookup_2. intros i c Hc. pose proof (lo_calls b Hb i c Hc) as Hok.
    split; [apply (co_bytes _ _ _ _ Hok)|apply (co_output _ _ _ _ Hok)].
  - rewrite Hs. destruct Hb. congruence.
Qed.

(** C10: a response is handed to a caller only by a budget that is open, once, and only
    whenever it is accounted for: the provider settled and reported its usage, the output
    is no more than the call had reserved, the copy handed out has a valid shape and
    its size, which the ledger records, is within the limit; and the ledger then says
    the attempt succeeded, as it says of no other. *)
Theorem delivered_response_accounted clock h o es b i j b' :
  reachable clock h o es b → step clock b (Answered i (inl j)) b' →
  bg_closed b' = None ∧ (∀ r, Answered i r ∉ es) ∧
  (∃ c, bg_ledger b' !! i = Some c ∧ deliverable (bg_limits b) (c_entry c) j) ∧
  (∀ k c, bg_ledger b' !! k = Some c →
     at_outcome (c_entry c) = O_succeeded ↔ ∃ j', c_result c = Some (inl j')).
Proof.
  intros Hr Hs. pose proof Hr as (Hm&Hsg&b0&Hnew&Hsteps).
  destruct (new_budget_ok clock h o b0 Hm Hsg Hnew) as [H0 _].
  destruct (reachable_ok _ _ _ _ _ Hr) as [Hb _]. destruct (step_ok clock _ _ _ Hb Hs) as [Hb' Hl].
  destruct (answered_has_result clock _ _ _ _ Hs) as [Hbefore Hafter]. split_and!.
  - destruct (bg_closed b') as [code|] eqn:E; [exfalso|done].
    destruct (bg_closed b) as [code'|] eqn:E'; [by destruct (closed_step clock _ _ _ _ E' Hs) as [_ Hn]; destruct (Hn i j)|].
    inversion Hs as [| | |i' c v b'' r' Hc Hv Hres Hd| | | | | | | |]; subst.
    pose proof (resume_outcome clock i v b c Hc Hres) as Ho. unfold wpb in Ho. unfold deliver in Hd.
    destruct (resume clock i v b) as [b1 r1]. simpl in Ho. injection Hd as <- ->.
    destruct Ho as (_&_&Ho). destruct (Ho j eq_refl). simpl in E. congruence.
  - intros r Hin. rewrite (answered_before clock _ _ _ _ _ H0 Hsteps Hin) in Hbefore. done.
  - apply bind_Some in Hafter as (c&Hc&Hres). exists c. split; [done|].
    rewrite <- (lt_limits _ _ Hl). by apply (co_result _ _ _ _ (lo_calls b' (proj1 Hb') i c Hc)).
  - intros k c Hc. by apply (co_succeeded _ _ _ _ (lo_calls b' (proj1 Hb') k c Hc)).
Qed.

(** C11: the budget fails closed, for good. A call that fails in flight leaves it closed;
    once closed, whatever happens next, it is closed for the same reason, admits no
    attempt and delivers no response, however late a provider answers; and no caller
    is left awaits_provider for a provider: each call not yet answered can be, at once, and
    every answer is an error. *)
Theorem closing_is_final clock h o es b :
  reachable clock h o es b →
  (∀ i e b', step clock b (Answered i (inr e)) b' → bg_closed b' ≠ None) ∧
  ∀ code es' b', bg_closed b = Some code → steps clock b es' b' →
    bg_closed b' = Some code ∧ length (bg_ledger b') = length (bg_ledger b) ∧
    (∀ a, Asked (inl a) ∉ es') ∧ (∀ i j, Answered i (inl j) ∉ es') ∧
    (∀ i c, bg_ledger b' !! i = Some c → c_result c = None →
       ∃ r b'', step clock b' (Answered i r) b'' ∧ ∀ j, r ≠ inl j).
Proof.
  intros Hr. destruct (reachable_ok _ _ _ _ _ Hr) as [Hb _]. split.
  - intros i e b' Hs. destruct (step_ok clock _ _ _ Hb Hs) as [[Hb' _] _].
    destruct (answered_has_result clock _ _ _ _ Hs) as [_ (c&Hc&Hres)%bind_Some].
    apply shut_spec. apply (co_failed _ _ _ _ (lo_calls b' Hb' i c Hc) e). by right.
  - intros code es' b' E Hs. destruct (steps_ok clock _ _ _ Hb Hs) as [[Hb' _] Hl].
    destruct (lt_closed _ _ Hl code E) as [E' Hlen]. destruct (closed_steps clock _ _ _ _ Hb E Hs) as [Ha Hd].
    split_and!; try done. intros i c Hc Hres.
    pose proof (lo_calls b' Hb' i c Hc) as Hok. assert (shut b' = true) as Hsh by (apply shut_spec; congruence).
    rewrite Hsh in Hok. destruct (c_race c) as [v|] eqn:Ev; [|by destruct (co_released _ _ _ _ Hok Hres eq_refl)].
    destruct (deliver clock i v b') as [b'' r] eqn:Ed. exists r, b''.
    pose proof (step_resumed clock b' i c v b'' r Hc Ev Hres Ed) as Hstep. split; [done|].
    intros j ->. destruct (closed_step clock _ _ _ _ E' Hstep) as [_ Hn]. by destruct (Hn i j).
Qed.
