(* ===== verification/BudgetScenarios.v ===== *)
(** * The model budget at work

    One concrete run of [ModelBudget.v]: a root call that is answered, a child call
    whose provider fails, and what is refused afterwards. *)

From S2P Require Export BudgetHistory.
Open Scope Z_scope.

Definition bs_clock (n : nat) : Z := Z.of_nat n * 10 + 1000.

Definition bs_prop (k : string) (v : jsval) : jsstr * (bool * slot) := (js k, (true, Data v)).
Definition bs_heap : heap :=
  {[ 1%N := Arr [Some (Data (VRef 2))];
     2%N := Plain [bs_prop "role" (VStr (js "user")); bs_prop "content" (VStr (js "hi"))];
     3%N := Plain [bs_prop "id" (VStr (js "m1")); bs_prop "content" (VRef 4);
                   bs_prop "stop_reason" (VStr (js "end_turn")); bs_prop "usage" (VRef 6)];
     4%N := Arr [Some (Data (VRef 5))];
     5%N := Plain [bs_prop "type" (VStr (js "text")); bs_prop "text" (VStr (js "ok"))];
     6%N := Plain [bs_prop "input_tokens" (VNum (num_of_Z 12)); bs_prop "output_tokens" (VNum (num_of_Z 3))] ]}.

Definition bs_options : ModelBudgetOptions :=
  mkOptions (VStr (js "model")) VUndefined (Some false) (Some (Some createNativeOperationScope)).
Definition bs_call (max_tokens : Z) : CreateParams :=
  mkParams (VStr (js "model")) (VNum (num_of_Z max_tokens)) (VRef 1) VUndefined VUndefined None.

(** The states of the run. *)
Definition bs_new : Budget :=
  match newModelBudget bs_clock bs_heap bs_options with
  | inl b => b
  | inr _ => mkBudget MODEL_BUDGET_DEFAULTS [] 0 0 false false None [] 0 0 0 0 0 0 0 None
  end.
Definition bs_asked := Eval vm_compute in begin_call bs_clock bs_heap role_root (bs_call 5000) bs_new.
Definition bs_settled := Eval vm_compute in settle 0 (receive bs_clock 0 bs_heap (VRef 3)) (fst bs_asked).
Definition bs_answered := Eval vm_compute in
  match bg_ledger bs_settled !! 0%nat ≫= c_race with
  | Some v => deliver bs_clock 0 v bs_settled
  | None => (bs_settled, inr (mkBudgetError DISPOSED None))
  end.
Definition bs_asked2 := Eval vm_compute in begin_call bs_clock bs_heap role_child (bs_call 100) (fst bs_answered).
Definition bs_failed := Eval vm_compute in settle 1 (provider_failed bs_clock 1) (fst bs_asked2).

Lemma bs_units : heap_units bs_heap.
Proof. by_compute. Qed.

Lemma bs_start : reachable bs_clock bs_heap bs_options [] bs_new.
Proof.
  split_and!; [by_compute| |].
  - intros s [= <-]. by exists [].
  - exists bs_new. split; [by vm_compute|constructor].
Qed.

Lemma bs_step1 : step bs_clock bs_new (Asked (snd bs_asked)) (fst bs_asked).
Proof. eapply (step_call _ _ bs_heap role_root (bs_call 5000)); [apply bs_units|done..|]. by vm_compute. Qed.
Lemma bs_step2 : step bs_clock (fst bs_asked) (Settled 0) bs_settled.
Proof.
  replace bs_settled with (settle 0 (receive bs_clock 0 bs_heap (VRef 3)) (fst bs_asked)) by by vm_compute.
  apply step_fulfilled; [apply bs_units|done|]. eexists. split; reflexivity.
Qed.
Lemma bs_step3 : step bs_clock bs_settled (Answered 0 (snd bs_answered)) (fst bs_answered).
Proof. eapply step_resumed; [reflexivity|reflexivity|reflexivity|]. by vm_compute. Qed.
Lemma bs_step4 : step bs_clock (fst bs_answered) (Asked (snd bs_asked2)) (fst bs_asked2).
Proof. eapply (step_call _ _ bs_heap role_child (bs_call 100)); [apply bs_units|done..|]. by vm_compute. Qed.
Lemma bs_step5 : step bs_clock (fst bs_asked2) (Settled 1) bs_failed.
Proof.
  replace bs_failed with (settle 1 (provider_failed bs_clock 1) (fst bs_asked2)) by by vm_compute.
  apply step_rejected. eexists. split; reflexivity.
Qed.

Definition bs_events : list event := [Asked (snd bs_asked); Settled 0].
Definition bs_more : list event := [Answered 0 (snd bs_answered); Asked (snd bs_asked2); Settled 1].

Lemma bs_run1 : steps bs_clock bs_new bs_events bs_settled.
Proof.
  eapply (steps_more _ _ [_]); [|exact bs_step2]. eapply (steps_more _ _ []); [constructor|exact bs_step1].
Qed.
Lemma bs_run2 : steps bs_clock bs_settled bs_more bs_failed.
Proof.
  eapply (steps_more _ _ [_; _]); [|exact bs_step5]. eapply (steps_more _ _ [_]); [|exact bs_step4].
  eapply (steps_more _ _ []); [constructor|exact bs_step3].
Qed.
Lemma bs_reach1 : reachable bs_clock bs_heap bs_options bs_events bs_settled.
Proof. exact (reachable_more _ _ _ [] _ _ _ bs_start bs_run1). Qed.
Lemma bs_reach2 : reachable bs_clock bs_heap bs_options (bs_events ++ bs_more) bs_failed.
Proof. exact (reachable_more _ _ _ _ _ _ _ bs_reach1 bs_run2). Qed.

(** With the first response in, 12 input and 3 output tokens are charged and nothing is
    reserved any more. *)
Lemma budget_within_limits_witness :
  bg_closed bs_settled = None ∧
  (bg_reservedOutput bs_settled, bg_observedOutput bs_settled, bg_observedInput bs_settled) = (0, 3, 12) ∧
  bg_reservedOutput bs_settled + bg_observedOutput bs_settled <= 12000 ∧
  bg_requestBytes bs_failed <= 2097152 ∧ Z.of_nat (length (bg_ledger bs_failed)) <= 10.
Proof.
  pose proof (budget_within_limits _ _ _ _ _ bs_reach1) as H1.
  pose proof (budget_within_limits _ _ _ _ _ bs_reach2) as H2. cbv zeta in H1, H2.
  split_and!; [reflexivity|reflexivity| | |].
  - apply (proj2 (proj2 (proj2 (proj2 (proj2 (proj2 (proj2 H1)))))) eq_refl).
  - apply (proj1 (proj2 (proj2 (proj2 (proj2 H2))))).
  - apply (proj1 (proj2 H2)).
Defined.

Definition bs_response : json :=
  JObj [(js "id", JStr (js "m1"));
        (js "content", JArr [JObj [(js "type", JStr (js "text")); (js "text", JStr (js "ok"))]]);
        (js "stop_reason", JStr (js "end_turn"));
        (js "usage", JObj [(js "input_tokens", jint 12); (js "output_tokens", jint 3)])].

Lemma delivered_response_accounted_witness :
  step bs_clock bs_settled (Answered 0 (inl bs_response)) (fst bs_answered) ∧
  ∃ c, bg_ledger (fst bs_answered) !! 0%nat = Some c ∧
       deliverable MODEL_BUDGET_DEFAULTS (c_entry c) bs_response ∧ json_bytes bs_response = 122.
Proof.
  assert (step bs_clock bs_settled (Answered 0 (inl bs_response)) (fst bs_answered)) as Hs by exact bs_step3.
  split; [exact Hs|].
  destruct (delivered_response_accounted _ _ _ _ _ _ _ _ bs_reach1 Hs) as (_&_&(c&Hc&Hd)&_).
  exists c. split_and!; [exact Hc|exact Hd|by vm_compute].
Defined.

(** The second call's provider fails: the budget is closed, the caller is told, and a
    third call is refused. *)
Lemma closing_is_final_witness :
  bg_closed bs_failed = Some PROVIDER_ERROR ∧
  (∃ r b, step bs_clock bs_failed (Answered 1 r) b ∧ ∀ j, r ≠ inl j) ∧
  snd (begin_call bs_clock bs_heap role_root (bs_call 1) bs_failed) = inr (mkBudgetError PROVIDER_ERROR None).
Proof.
  destruct (proj2 (closing_is_final _ _ _ _ _ bs_reach2) PROVIDER_ERROR [] bs_failed eq_refl
    (steps_none _ _)) as (Hc&_&_&_&Hr).
  split; [exact Hc|]. split; [|reflexivity]. eapply (Hr 1%nat); reflexivity.
Defined.
