(* ===== verification/TextCodec.v ===== *)
(** * Text as bytes and as base64url

    [TextEncoder], the strict [TextDecoder] and the URL-safe base64 that the mail client
    and the sandbox merchant build their identifiers and messages with. *)

From S2P Require Export Base64 JsonText.
Open Scope N_scope.

(** ** [TextDecoder] with [fatal: true] *)

Definition continuation (b : N) : bool := (0x80 <=? b) && (b <=? 0xBF).
(** A code point that [n] continuation bytes may encode: not a shorter one, no surrogate. *)
Definition scalar_in (lo hi c : N) : bool := (lo <=? c) && (c <=? hi) && negb (is_high c || is_low c).
Fixpoint decode_scalars (bs : list N) : option (list N) :=
  match bs with
  | [] => Some []
  | a :: r1 =>
      if a <? 0x80 then cons a <$> decode_scalars r1 else
      match r1 with
      | [] => None
      | b :: r2 =>
          if negb (continuation b) then None else
          if (0xC2 <=? a) && (a <=? 0xDF) then cons ((a - 0xC0) * 64 + (b - 0x80)) <$> decode_scalars r2 else
          match r2 with
          | [] => None
          | c :: r3 =>
              if negb (continuation c) then None else
              if (0xE0 <=? a) && (a <=? 0xEF) then
                let x := ((a - 0xE0) * 64 + (b - 0x80)) * 64 + (c - 0x80) in
                if scalar_in 0x800 0xFFFF x then cons x <$> decode_scalars r3 else None
              else
              match r3 with
              | [] => None
              | d :: r4 =>
                  let x := (((a - 0xF0) * 64 + (b - 0x80)) * 64 + (c - 0x80)) * 64 + (d - 0x80) in
                  if continuation d && (0xF0 <=? a) && (a <=? 0xF4) && scalar_in 0x10000 0x10FFFF x
                  then cons x <$> decode_scalars r4 else None
              end
          end
      end
  end.
Definition units_of_scalar (c : N) : jsstr :=
  if c <? 0x10000 then [c] else [0xD800 + (c - 0x10000) / 0x400; 0xDC00 + (c - 0x10000) mod 0x400].
(** A byte order mark at the start is not part of the text. *)
Definition drop_bom (scalars : list N) : list N :=
  match scalars with c :: r => if c =? 0xFEFF then r else scalars | [] => [] end.
Definition utf8_decode (bs : list N) : option jsstr :=
  (λ l, mjoin (units_of_scalar <$> drop_bom l)) <$> decode_scalars bs.

Example decode_examples :
  utf8_decode (utf8 [0x41; 0xE9; 0x2014; 0xD83D; 0xDE00]) = Some [0x41; 0xE9; 0x2014; 0xD83D; 0xDE00] ∧
  utf8_decode [0xC0; 0x80] = None ∧ utf8_decode [0xED; 0xA0; 0x80] = None ∧ utf8_decode [0xE2; 0x82] = None ∧
  utf8_decode [0xEF; 0xBB; 0xBF; 0x7B] = Some [0x7B].
Proof. by split_and!. Qed.

(** ** base64url *)

(** The string of one character per UTF-8 byte. *)
Definition utf8ToBinary (text : jsstr) : jsstr := utf8 text.
Definition url_char (c : N) : N := if c =? 43 then 45 else if c =? 47 then 95 else c.
Definition plain_char (c : N) : N := if c =? 45 then 43 else if c =? 95 then 47 else c.
(** [btoa(...)] with the two characters replaced and the padding dropped. It throws on no
    string of bytes. *)
Definition b64url (binary : jsstr) : jsstr :=
  List.filter (λ c, negb (c =? 61)) (url_char <$> default [] (btoa binary)).

(** ** Facts: what is encoded reads back *)

Lemma utf8_bytes s : units s → latin1 (utf8 s).
Proof.
  intros Hs%scalars_bound. unfold utf8, latin1. induction Hs as [|c l Hc _ IH]; [constructor|].
  simpl. apply Forall_app. split; [|done]. unfold utf8_scalar.
  destruct (base64_digits c) as (?&?&?&?&?&?&->&->&->&->&->&->&?&?&?&?&?&?).
  destruct (N.ltb_spec c 0x80); [|destruct (N.ltb_spec c 0x800); [|destruct (N.ltb_spec c 0x10000)]]; repeat constructor; lia.
Qed.

Definition scalar_value (c : N) : Prop := c < 0x110000 ∧ is_high c = false ∧ is_low c = false.
Lemma scalars_values s : units s → Forall scalar_value (scalars s).
Proof.
  unfold units, scalar_value. by_surrogates s; intros H; decompose_Forall_hyps; surrogates; repeat constructor; auto;
    unfold replacement, astral; try lia; try (apply is_high_false; lia); apply is_low_false; lia.
Qed.

Lemma decode_scalar c r : scalar_value c → decode_scalars (utf8_scalar c ++ r) = cons c <$> decode_scalars r.
Proof.
  intros (Hc&Hh&Hl). unfold utf8_scalar.
  destruct (base64_digits c) as (q1&q2&q3&r0&r1&r2&->&->&->&->&->&->&E0&E1&E2&?&?&?).
  assert (∀ x, x < 64 → continuation (0x80 + x) = true) as Hcont.
  { intros x Hx. unfold continuation. rewrite andb_true_iff, !N.leb_le. lia. }
  destruct (N.ltb_spec c 0x80) as [K1|K1].
  { simpl. by rewrite (proj2 (N.ltb_lt _ _) K1). }
  assert (∀ lo hi, lo <= c → c <= hi → scalar_in lo hi c = true) as Hin.
  { intros lo hi Hlo Hhi. unfold scalar_in. rewrite Hh, Hl, !andb_true_iff, !N.leb_le. done. }
  destruct (N.ltb_spec c 0x800) as [K2|K2]; [|destruct (N.ltb_spec c 0x10000) as [K3|K3]]; cbn [app decode_scalars].
  - rewrite (proj2 (N.ltb_ge _ _)) by lia. rewrite Hcont by done. cbn [negb].
    rewrite (proj2 (N.leb_le 0xC2 _)), (proj2 (N.leb_le _ 0xDF)) by lia. cbn [andb]. do 2 f_equal. lia.
  - rewrite (proj2 (N.ltb_ge _ _)) by lia. rewrite !Hcont by done. cbn [negb].
    rewrite (proj2 (N.leb_gt _ 0xDF)), andb_false_r by lia.
    rewrite (proj2 (N.leb_le 0xE0 _)), (proj2 (N.leb_le _ 0xEF)) by lia. cbn [andb].
    replace (((0xE0 + q2 - 0xE0) * 64 + (0x80 + r1 - 0x80)) * 64 + (0x80 + r0 - 0x80)) with c by lia. by rewrite Hin by lia.
  - rewrite (proj2 (N.ltb_ge _ _)) by lia. rewrite !Hcont by done. cbn [negb].
    rewrite (proj2 (N.leb_gt (0xF0 + q3) 0xDF)) by lia. rewrite (proj2 (N.leb_gt (0xF0 + q3) 0xEF)) by lia. rewrite !andb_false_r.
    rewrite (proj2 (N.leb_le 0xF0 _)), (proj2 (N.leb_le _ 0xF4)) by lia. cbn [andb].
    replace ((((0xF0 + q3 - 0xF0) * 64 + (0x80 + r2 - 0x80)) * 64 + (0x80 + r1 - 0x80)) * 64 + (0x80 + r0 - 0x80)) with c by lia.
    by rewrite Hin by lia.
Qed.
Lemma decode_utf8_scalars l : Forall scalar_value l → decode_scalars (mjoin (utf8_scalar <$> l)) = Some l.
Proof. induction 1 as [|c l Hc _ IH]; [done|].
  change (decode_scalars (utf8_scalar c ++ mjoin (utf8_scalar <$> l)) = Some (c :: l)). by rewrite decode_scalar, IH.
Qed.

Lemma units_of_scalars s : well_formed s → mjoin (units_of_scalar <$> scalars s) = s.
Proof.
  remember (length s) as n eqn:En. revert s En. induction n as [n IH] using lt_wf_ind. intros [|c s] -> Hs; [done|].
  apply wf_cons_inv in Hs as [(Hh&Hl&Hc&Hs)|(d&s'&->&Hh&Hl&Hs)]; simpl; rewrite Hh, ?Hl; simpl.
  - unfold units_of_scalar at 1. rewrite (proj2 (N.ltb_lt _ _)) by done. simpl. f_equal. eapply IH; eauto. simpl; lia.
  - unfold units_of_scalar at 1. surrogates. unfold astral.
    rewrite (proj2 (N.ltb_ge _ _)) by lia.
    replace (0x10000 + (c - 0xD800) * 0x400 + (d - 0xDC00) - 0x10000) with ((c - 0xD800) * 0x400 + (d - 0xDC00)) by lia.
    rewrite div_of, mod_of by (done || lia). simpl. f_equal; [lia|]. f_equal; [lia|]. eapply IH; eauto. simpl; lia.
Qed.

(** Text that starts with no byte order mark is what its bytes decode to. *)
Lemma utf8_decode_encode s : well_formed s → head s ≠ Some 0xFEFF → utf8_decode (utf8 s) = Some s.
Proof.
  intros Hs Hb. unfold utf8_decode, utf8. rewrite decode_utf8_scalars by (apply scalars_values, Hs). simpl. f_equal.
  assert (drop_bom (scalars s) = scalars s) as ->; [|by apply units_of_scalars].
  destruct s as [|c s]; [done|]. apply wf_cons_inv in Hs as [(Hh&Hl&_)|(d&s'&->&Hh&Hl&_)]; simpl; rewrite Hh, Hl; simpl.
  - destruct (N.eqb_spec c 0xFEFF); [by subst|done].
  - destruct (N.eqb_spec (astral c d) 0xFEFF) as [E|]; [|done]. unfold astral in E. lia.
Qed.

(** *** base64url *)

Lemma url_char_shape n : n < 64 → plain_char (url_char (b64_char n)) = b64_char n ∧ url_char (b64_char n) ≠ 61.
Proof.
  intros Hn.
  assert (Forall (λ n, plain_char (url_char (b64_char n)) = b64_char n ∧ url_char (b64_char n) ≠ 61) (N.of_nat <$> seq 0 64)) as HF by by_compute.
  rewrite Forall_forall in HF. apply HF. apply list_elem_of_fmap. exists (N.to_nat n). split; [lia|]. apply elem_of_seq. lia.
Qed.
Lemma b64url_digits s : latin1 s → b64url s = url_char <$> (b64_char <$> b64_digits s).
Proof.
  intros Hs. unfold b64url, btoa. rewrite bool_decide_eq_true_2 by done. simpl. rewrite fmap_app, List.filter_app.
  assert (List.filter (λ c, negb (c =? 61)) (url_char <$> b64_padding s) = []) as ->
    by (unfold b64_padding; by repeat case_match).
  rewrite app_nil_r. apply list_filter_all. apply Forall_fmap, Forall_fmap.
  eapply Forall_impl; [apply (b64_digits_bound _ Hs)|]. intros d Hd. simpl.
  rewrite (proj2 (N.eqb_neq _ _)); [done|]. by apply url_char_shape.
Qed.
Lemma atob_b64_char l : Forall (λ d, d < 64) l → (length l mod 4 ≠ 1)%nat → atob (b64_char <$> l) = Some (b64_bytes l).
Proof.
  intros Hl Hn. unfold atob. rewrite list_filter_all.
  2:{ apply Forall_fmap. eapply Forall_impl; [exact Hl|]. intros d Hd. simpl. by rewrite (proj1 (b64_char_shape d Hd)). }
  assert (strip_padding (b64_char <$> l) = b64_char <$> l) as ->.
  { unfold strip_padding. case_match; [|done].
    assert (Forall (λ c, c ≠ 61) (rev (b64_char <$> l))) as Hr.
    { apply Forall_rev, Forall_fmap. eapply Forall_impl; [exact Hl|]. intros d Hd. by apply b64_char_shape. }
    destruct (rev (b64_char <$> l)) as [|x r]; [done|]. inversion_clear Hr. by repeat case_match. }
  rewrite length_fmap. destruct (Nat.eqb_spec (length l mod 4) 1); [done|].
  assert (mapM b64_value (b64_char <$> l) = Some l) as ->; [|done].
  apply mapM_Some. clear -Hl. induction Hl; constructor; auto using b64_value_char.
Qed.
Lemma plain_b64url s : latin1 s → plain_char <$> b64url s = b64_char <$> b64_digits s.
Proof.
  intros Hs. rewrite b64url_digits by done. pose proof (b64_digits_bound s Hs) as Hb.
  induction Hb as [|d l Hd _ IH]; [done|]. rewrite !fmap_cons. by rewrite IH, (proj1 (url_char_shape d Hd)).
Qed.
(** Bytes survive base64url. *)
Lemma atob_b64url s : latin1 s → atob (plain_char <$> b64url s) = Some s.
Proof.
  intros Hs. rewrite plain_b64url by done.
  rewrite atob_b64_char by (apply b64_digits_bound, Hs || apply b64_digits_length). by rewrite b64_bytes_digits.
Qed.

(** ** [s.split(separator)] on one character *)

Fixpoint split_on (sep : N) (s : jsstr) : list jsstr :=
  match s with
  | [] => [[]]
  | c :: s =>
      if c =? sep then [] :: split_on sep s
      else match split_on sep s with w :: l => (c :: w) :: l | [] => [[c]] end
  end.

Lemma split_on_none sep s : sep ∉ s → split_on sep s = [s].
Proof.
  induction s as [|c s IH]; [done|]. rewrite not_elem_of_cons. intros [Hc Hs]. simpl.
  rewrite (proj2 (N.eqb_neq _ _)) by congruence. by rewrite IH.
Qed.
Lemma split_on_app sep a b : sep ∉ a → split_on sep (a ++ sep :: b) = a :: split_on sep b.
Proof.
  induction a as [|c a IH]; simpl; [by rewrite N.eqb_refl|]. rewrite not_elem_of_cons. intros [Hc Ha].
  rewrite (proj2 (N.eqb_neq _ _)) by congruence. by rewrite IH.
Qed.
Lemma split_on_nonempty sep s : split_on sep s ≠ [].
Proof. destruct s as [|c s]; simpl; [done|]. case_match; [done|]. by case_match. Qed.
Lemma split_on_two sep s a b : split_on sep s = [a; b] → s = a ++ sep :: b.
Proof.
  revert a. induction s as [|c s IH]; intros a; simpl; [done|].
  destruct (N.eqb_spec c sep) as [->|].
  - intros [= <- E]. simpl. f_equal. clear IH. revert b E. induction s as [|d s IH]; intros b; simpl; [by intros [= <-]|].
    destruct (N.eqb_spec d sep); [|].
    + intros [= _ E]. by destruct (split_on_nonempty sep s).
    + destruct (split_on sep s) as [|u l] eqn:El; [by destruct (split_on_nonempty sep s)|]. intros [= <- ->]. f_equal. by apply IH.
  - destruct (split_on sep s) as [|u l] eqn:El; [by destruct (split_on_nonempty sep s)|]. intros [= <- ->]. simpl. f_equal. by apply IH.
Qed.
