(* ===== verification/JsonParse.v ===== *)
(** * [JSON.parse]

    The parser of the language, for the texts the program makes and reads itself:
    white space, literals, numbers as the doubles they denote, strings, arrays and
    objects with the order and the last-wins rule of object keys. A value that was
    serialised is read back. *)

From S2P Require Export JsonText Paging.
Open Scope Z_scope.

(** ** Numbers *)

(** [num / den], to the nearest integer, a tie to the even one. *)
Definition round_half_even (num den : Z) : Z :=
  let q := num / den in let r := 2 * (num mod den) in
  if r <? den then q else if den <? r then q + 1 else if Z.even q then q else q + 1.
(** [num * base ^ e / den] as a quotient of integers. *)
Definition scaled (base num den e : Z) : Z * Z := if 0 <=? e then (num * base ^ e, den) else (num, den * base ^ (- e)).

(** The double nearest to a positive quotient: 53 bits and an exponent of two. *)
Definition nearest_double (num den : Z) : Z * Z :=
  let guess := Z.log2 num - Z.log2 den in
  let '(n, d) := scaled 2 num den (- guess) in
  let k := Z.max ((if n <? d then guess - 1 else guess) - 52) (-1074) in
  let '(n, d) := scaled 2 num den (- k) in
  (round_half_even n d, k).

(** The shortest decimal that reads back as the double [num / den]. *)
Fixpoint shortest_from (fuel : nat) (double : Z * Z) (num den point digits : Z) : Z * Z :=
  let e := point - digits in
  let '(n, d) := scaled 10 num den (- e) in
  let s := round_half_even n d in
  match fuel with
  | O => (s, e)
  | S fuel =>
      let '(rn, rd) := scaled 10 s 1 e in
      let '(m, k) := nearest_double rn rd in
      let '(n1, d1) := scaled 2 m 1 k in
      if (0 <? s) && (n1 * den =? num * d1) then (s, e) else shortest_from fuel double num den point (digits + 1)
  end.
(** The number of digits before the point. *)
Definition decimal_point (num den : Z) : Z :=
  let guess := (Z.log2 num - Z.log2 den) * 30103 / 100000 in
  let '(n, d) := scaled 10 num den (- guess) in
  let '(n', d') := scaled 10 num den (- (guess + 1)) in
  if n <? d then guess else if n' <? d' then guess + 1 else guess + 2.

(** [Infinity], which no decimal of a double is. *)
Definition js_infinity : jsnum := JsNum 1 309.

Definition exact_max : Z := 2 ^ 53.
(** The double a decimal literal denotes. An integer of at most 53 bits is one. *)
Definition positive_number (sig exp : Z) : jsnum :=
  let '(num, den) := scaled 10 sig 1 exp in
  if (num mod den =? 0) && (num / den <=? exact_max) then num_of_Z (num / den) else
  let '(m, k) := nearest_double num den in
  if m =? 0 then JsNum 0 0 else
  if (1024 <=? k + Z.log2 m) then js_infinity else
  let '(n, d) := scaled 2 m 1 k in
  let '(s, e) := shortest_from 17 (m, k) n d (decimal_point n d) 1 in
  num_norm 20 s e.
Definition number_of_decimal (negative : bool) (sig exp : Z) : jsnum :=
  let x := positive_number sig exp in
  if negative then JsNum (- num_sig x) (num_exp x) else x.

Example numbers_read :
  number_of_decimal false 1 (-1) = JsNum 1 (-1) ∧ number_of_decimal true 150 (-1) = JsNum (-15) 0 ∧
  number_of_decimal false 9007199254740993 0 = JsNum 9007199254740992 0 ∧
  number_of_decimal false 9007199254740995 0 = JsNum 9007199254740996 0 ∧
  number_of_decimal false 30000000000000004 (-17) = JsNum 30000000000000004 (-17) ∧
  number_of_decimal false 300000000000000044 (-18) = JsNum 30000000000000004 (-17) ∧
  number_of_decimal false 5 (-324) = JsNum 5 (-324) ∧ number_of_decimal false 1 (-400) = JsNum 0 0 ∧
  number_of_decimal false 17976931348623157 292 = JsNum 17976931348623157 292 ∧
  number_of_decimal false 1 400 = js_infinity ∧ number_of_decimal false 123456789012345678 (-10) = JsNum 12345678901234567 (-9).
Proof. vm_compute. repeat split. Qed.

Fixpoint span_digits (s : jsstr) : jsstr * jsstr :=
  match s with
  | c :: s' => if is_digit c then let '(d, k) := span_digits s' in (c :: d, k) else ([], s)
  | [] => ([], [])
  end.
(** [\d+] after [mark], when [mark] is there. *)
Definition fraction_part (s : jsstr) : option (jsstr * jsstr) :=
  match s with
  | c :: s' => if (c =? 46)%N then match span_digits s' with ([], _) => None | r => Some r end else Some ([], s)
  | [] => Some ([], [])
  end.
Definition exponent_part (s : jsstr) : option (Z * jsstr) :=
  match s with
  | c :: s' =>
      if ((c =? 101) || (c =? 69))%N then
        let '(sign, s'') := match s' with
          | d :: r => if (d =? 45)%N then (-1, r) else if (d =? 43)%N then (1, r) else (1, s')
          | [] => (1, []) end in
        match span_digits s'' with ([], _) => None | (d, k) => Some (sign * Z.of_N (undec d), k) end
      else Some (0, s)
  | [] => Some (0, [])
  end.
Definition read_unsigned (negative : bool) (s : jsstr) : option (jsnum * jsstr) :=
  match span_digits s with
  | ([], _) => None
  | (c :: more, s) =>
      if (c =? 48)%N && negb (bool_decide (more = [])) then None else
      '(fraction, s) ← fraction_part s;
      '(e, s) ← exponent_part s;
      Some (number_of_decimal negative (Z.of_N (undec ((c :: more) ++ fraction))) (e - Z.of_nat (length fraction)), s)
  end.
Definition read_number (s : jsstr) : option (jsnum * jsstr) :=
  match s with
  | c :: s' => if (c =? 45)%N then read_unsigned true s' else read_unsigned false s
  | [] => None
  end.

(** ** Objects *)

Fixpoint obj_set (k : jsstr) (v : json) (fs : fields) : fields :=
  match fs with
  | [] => [(k, v)]
  | (k', w) :: fs => if eqs k' k then (k', v) :: fs else (k', w) :: obj_set k v fs
  end.
(** An array index, the keys an object lists first and in order. *)
Definition array_index (k : jsstr) : option N :=
  if forallb is_digit k && eqs k (dec (undec k)) && (undec k <? 4294967295)%N then Some (undec k) else None.
Definition has_index (kv : jsstr * json) : bool := match array_index (fst kv) with Some _ => true | None => false end.
Definition index_lt (a b : jsstr * json) : bool := (undec (fst a) <? undec (fst b))%N.
Definition own_order (fs : fields) : fields :=
  stable_sort index_lt (List.filter has_index fs) ++ List.filter (λ kv, negb (has_index kv)) fs.
Definition object_of (members : fields) : json := JObj (own_order (foldl (λ fs kv, obj_set (fst kv) (snd kv) fs) [] members)).

(** ** Values *)

Definition json_blank (c : N) : bool := ((c =? 32) || (c =? 9) || (c =? 10) || (c =? 13))%N.
Fixpoint skip_blank (s : jsstr) : jsstr :=
  match s with c :: s' => if json_blank c then skip_blank s' else s | [] => [] end.
(** The text after [word]. *)
Fixpoint after_text (word s : jsstr) : option jsstr :=
  match word, s with
  | [], _ => Some s
  | w :: word, c :: s => if (w =? c)%N then after_text word s else None
  | _ :: _, [] => None
  end.
Definition read_key (s : jsstr) : option (jsstr * jsstr) :=
  s ← after_text [34%N] (skip_blank s); '(key, s) ← unquote s; s ← after_text [58%N] (skip_blank s); Some (key, s).

(** The items after the first one, up to [close]: [read] reads one item. *)
Definition read_list {A} (read : jsstr → option (A * jsstr)) (close : N) : nat → jsstr → option (list A * jsstr) :=
  fix go fuel s :=
    match fuel with
    | O => None
    | S fuel =>
        match skip_blank s with
        | [] => None
        | c :: s =>
            if (c =? close)%N then Some ([], s)
            else if (c =? 44)%N then '(a, s) ← read s; '(l, s) ← go fuel s; Some (a :: l, s)
            else None
        end
    end.
Definition read_items {A} (read : jsstr → option (A * jsstr)) (close : N) (fuel : nat) (s : jsstr) : option (list A * jsstr) :=
  match skip_blank s with
  | [] => None
  | c :: s' =>
      if (c =? close)%N then Some ([], s')
      else '(a, s) ← read s; '(l, s) ← read_list read close fuel s; Some (a :: l, s)
  end.
(** [fuel] bounds the depth and the length of a list: the length of the text is enough. *)
Fixpoint read_value (fuel : nat) (s : jsstr) : option (json * jsstr) :=
  match fuel with
  | O => None
  | S fuel =>
      let read_member s := '(key, s) ← read_key s; '(v, s) ← read_value fuel s; Some ((key, v), s) in
      match skip_blank s with
      | [] => None
      | c :: s' =>
          if (c =? 110)%N then s ← after_text (js "ull") s'; Some (JNull, s)
          else if (c =? 116)%N then s ← after_text (js "rue") s'; Some (JBool true, s)
          else if (c =? 102)%N then s ← after_text (js "alse") s'; Some (JBool false, s)
          else if (c =? 34)%N then '(t, s) ← unquote s'; Some (JStr t, s)
          else if (c =? 91)%N then '(l, s) ← read_items (read_value fuel) 93 fuel s'; Some (JArr l, s)
          else if (c =? 123)%N then '(l, s) ← read_items read_member 125 fuel s'; Some (object_of l, s)
          else '(x, s) ← read_number (c :: s'); Some (JNum x, s)
      end
  end.
Definition parse_json (s : jsstr) : option json :=
  '(v, k) ← read_value (S (length s)) s; match skip_blank k with [] => Some v | _ => None end.

Example parse_examples :
  parse_json (js " [1, -2.5e1 ,null,true , [] ] ") = Some (JArr [jint 1; jint (-25); JNull; JBool true; JArr []]) ∧
  parse_json ([123; 34]%N ++ js "b" ++ [34]%N ++ js ":1, " ++ [34]%N ++ js "7" ++ [34]%N ++ js ":{}," ++ [34]%N ++ js "b" ++
              [34]%N ++ js " : false}") = Some (JObj [(js "7", JObj []); (js "b", JBool false)]) ∧
  parse_json (js "01") = None ∧ parse_json (js "[1,]") = None ∧ parse_json (js "1.") = None ∧ parse_json (js "-") = None ∧
  parse_json (js "nul") = None ∧ parse_json (js "1 2") = None ∧ parse_json [] = None.
Proof. vm_compute. repeat split. Qed.

(** ** A serialised value is read back *)

Fixpoint parsable (v : json) : Prop :=
  match v with
  | JNull | JBool _ => True
  | JNum x => ∃ z, x = num_of_Z z ∧ Z.abs z <= exact_max
  | JStr s => units s
  | JArr l => foldr (λ v P, parsable v ∧ P) True l
  | JObj fs => NoDup (fst <$> fs) ∧ foldr (λ kv P, (units (fst kv) ∧ array_index (fst kv) = None ∧ parsable (snd kv)) ∧ P) True fs
  end.
Definition parsable_member (kv : jsstr * json) : Prop := units (fst kv) ∧ array_index (fst kv) = None ∧ parsable (snd kv).

Lemma foldr_Forall {A} (P : A → Prop) l : foldr (λ x Q, P x ∧ Q) True l ↔ Forall P l.
Proof. induction l as [|x l IH]; simpl; [by split|]. by rewrite Forall_cons, IH. Qed.
Lemma parsable_arr l : parsable (JArr l) ↔ Forall parsable l.
Proof. apply (foldr_Forall parsable). Qed.
Lemma parsable_obj fs : parsable (JObj fs) ↔ NoDup (fst <$> fs) ∧ Forall parsable_member fs.
Proof. simpl. by rewrite (foldr_Forall parsable_member). Qed.
Lemma parsable_plain v : parsable v → plain v.
Proof.
  induction v as [|b|x|s|l IH|fs IH] using JsonText.json_rec; try done.
  - intros (z&->&?). exists z. split; [done|]. unfold exact_max, max_plain_int in *. lia.
  - rewrite parsable_arr, plain_arr, !Forall_forall. rewrite Forall_forall in IH. auto.
  - rewrite parsable_obj, plain_obj, !Forall_forall. rewrite Forall_forall in IH. intros [_ Hf] kv Hkv.
    destruct (Hf _ Hkv) as (?&_&?). split; [done|]. by apply IH.
Qed.

Lemma after_text_app word s : after_text word (word ++ s) = Some s.
Proof. induction word as [|c word IH]; simpl; [done|]. by rewrite N.eqb_refl. Qed.

Lemma after_text_spec word s k : after_text word s = Some k → s = word ++ k.
Proof.
  revert s. induction word as [|c word IH]; intros s; simpl; [by intros [= ->]|]. destruct s as [|d s]; [done|].
  destruct (N.eqb_spec c d) as [->|]; [|done]. intros E. f_equal. by apply IH.
Qed.

(** *** Numbers *)

Definition digits_only (s : jsstr) : Prop := Forall (λ c, is_digit c = true) s.
Definition no_digit (k : jsstr) : Prop := match k with [] => True | c :: _ => is_digit c = false end.
Lemma span_digits_app d k : digits_only d → no_digit k → span_digits (d ++ k) = (d, k).
Proof.
  intros Hd Hk. induction Hd as [|c d Hc _ IH]; simpl; [|by rewrite Hc, IH].
  destruct k as [|c k]; [done|]. simpl in *. by rewrite Hk.
Qed.
Lemma delim_no_digit k : delim k → no_digit k.
Proof. destruct k as [|c k]; [done|]. by intros [->|[->| ->]]. Qed.
Lemma dec_no_zero n : (0 < n)%N → ∀ s, dec n ≠ 48%N :: s.
Proof.
  induction (N.lt_wf_0 n) as [n _ IH]. intros Hn s. destruct (N.lt_ge_cases n 10).
  - rewrite dec_small by done. injection. lia.
  - rewrite dec_step by done. pose proof (dec_nonempty (n / 10)) as Hne.
    assert (0 < n / 10 < n)%N as [Hq Hl] by (split; [apply N.div_str_pos; lia|apply N.div_lt; lia]).
    destruct (dec (n / 10)) as [|c t] eqn:E; [done|]. simpl. intros [= -> _]. by apply (IH _ Hl Hq t).
Qed.
Lemma num_norm_opp fuel z e : num_norm fuel (- z) e = JsNum (- num_sig (num_norm fuel z e)) (num_exp (num_norm fuel z e)).
Proof.
  revert z e. induction fuel as [|fuel IH]; intros z e; [done|]. cbn [num_norm].
  destruct (Z.eqb_spec z 0) as [->|Hz]; [done|]. rewrite (proj2 (Z.eqb_neq (- z) 0)) by lia.
  destruct (Z.eqb_spec (z mod 10) 0) as [E|E].
  - rewrite (Z.mod_opp_l_z z 10) by lia. simpl. rewrite (Z.div_opp_l_z z 10) by lia. apply IH.
  - destruct (Z.eqb_spec ((- z) mod 10) 0) as [E'|]; [|done]. rewrite Z.mod_opp_l_nz in E' by lia.
    pose proof (Z.mod_pos_bound z 10 ltac:(lia)). lia.
Qed.
Lemma num_of_Z_opp z : num_of_Z (- z) = JsNum (- num_sig (num_of_Z z)) (num_exp (num_of_Z z)).
Proof. unfold num_of_Z. rewrite Z.abs_opp. apply num_norm_opp. Qed.

Lemma read_digits negative n k : Z.of_N n <= exact_max → delim k →
  read_unsigned negative (dec n ++ k) = Some (num_of_Z (if negative then - Z.of_N n else Z.of_N n), k).
Proof.
  intros Hn Hk. pose proof (span_digits_app (dec n) k (dec_digit n) (delim_no_digit _ Hk)) as Hs.
  assert (positive_number (Z.of_N n) 0 = num_of_Z (Z.of_N n)) as Hp.
  { unfold positive_number, scaled. change (0 <=? 0) with true. change (10 ^ 0) with 1. cbv iota beta.
    by rewrite Z.mod_1_r, Z.div_1_r, Z.mul_1_r, (proj2 (Z.leb_le _ _) Hn). }
  assert (fraction_part k = Some ([], k) ∧ exponent_part k = Some (0, k)) as [Hf He].
  { destruct k as [|c k]; [done|]. by destruct Hk as [->|[->| ->]]. }
  unfold read_unsigned. rewrite Hs. pose proof (undec_dec n) as Hu.
  destruct (dec n) as [|c s] eqn:E; [by destruct (dec_nonempty n)|].
  assert ((c =? 48)%N && negb (bool_decide (s = [])) = false) as ->.
  { destruct (N.eqb_spec c 48) as [->|]; [|done]. destruct (N.eq_dec n 0) as [->|]; [by injection E as <-|].
    destruct (dec_no_zero n) with s; [lia|done]. }
  rewrite Hf. cbn [mbind option_bind]. rewrite He. cbn [mbind option_bind]. rewrite app_nil_r, Hu.
  change (0 - Z.of_nat (length [])) with 0. unfold number_of_decimal. rewrite Hp.
  destruct negative; [by rewrite num_of_Z_opp|done].
Qed.
Lemma dec_no_minus n k : ∃ c s, dec n ++ k = c :: s ∧ (c =? 45)%N = false.
Proof.
  pose proof (dec_digit n) as Hd. pose proof (dec_nonempty n). destruct (dec n) as [|c s]; [done|].
  exists c, (s ++ k). split; [done|]. apply Forall_cons in Hd as [Hc _]. apply N.eqb_neq. by intros ->.
Qed.
Lemma read_int z k : Z.abs z <= exact_max → delim k → read_number (int_to_string z ++ k) = Some (num_of_Z z, k).
Proof.
  intros Hz Hk. unfold int_to_string. destruct (Z.ltb_spec z 0) as [Hn|Hn].
  - change (js "-" ++ dec ?n) with (45%N :: dec n). simpl. rewrite (read_digits true) by (done || lia).
    do 3 f_equal. lia.
  - pose proof (read_digits false (Z.to_N z) k ltac:(lia) Hk) as Hr. destruct (dec_no_minus (Z.to_N z) k) as (c&s&E&Hc).
    rewrite E in *. cbn [read_number]. rewrite Hc, Hr. do 3 f_equal. lia.
Qed.

(** *** Values *)

Definition reads {A} (read : jsstr → option (A * jsstr)) (f : A → jsstr) (a : A) : Prop :=
  ∀ k, delim k → read (f a ++ k) = Some (a, k).
(** A text that starts an item: no blank, no closing bracket. *)
Definition starts_item (close : N) (s : jsstr) : Prop :=
  match s with [] => False | c :: _ => json_blank c = false ∧ (c =? close)%N = false end.

Section lists.
Context {A : Type} (read : jsstr → option (A * jsstr)) (f : A → jsstr) (close : N).
Context (closes : close = 93%N ∨ close = 125%N).

Lemma read_list_tail fuel l k : Forall (reads read f) l → (length l < fuel)%nat →
  read_list read close fuel (items_tail f close l k) = Some (l, k).
Proof.
  intros Hl. revert fuel. induction Hl as [|a l Ha Hl IH]; intros [|fuel] Hf; simpl in Hf; try lia; cbn [items_tail foldr read_list].
  - by destruct closes as [-> | ->].
  - assert ((44 =? close)%N = false) as Hc by by destruct closes as [-> | ->].
    change (skip_blank (44%N :: ?s)) with (44%N :: s). cbv iota beta. rewrite Hc. cbn [N.eqb Pos.eqb].
    rewrite Ha by by apply items_tail_delim. cbn [mbind option_bind]. rewrite IH by lia. done.
Qed.

Lemma read_items_join fuel l k : Forall (reads read f) l → Forall (λ a, starts_item close (f a)) l → (length l ≤ fuel)%nat →
  read_items read close fuel (Json.join (js ",") (f <$> l) ++ close :: k) = Some (l, k).
Proof.
  intros Hl Hs Hf. destruct l as [|a l]; [by destruct closes as [-> | ->]; cbn|].
  rewrite join_items. apply Forall_cons in Hl as [Ha Hl], Hs as [Hs _]. unfold read_items. simpl in Hf.
  pose proof (Ha _ (items_tail_delim f close closes l k)) as Hr. destruct (f a) as [|c s]; [done|]. destruct Hs as [Hb Hc].
  cbn [skip_blank app] in *. rewrite Hb, Hc, Hr. cbn [mbind option_bind]. by rewrite read_list_tail.
Qed.
End lists.

Lemma value_head v : parsable v → ∀ close, close = 93%N ∨ close = 125%N → starts_item close (JSON_stringify v).
Proof.
  intros Hv close Hclose. destruct v as [|[]|x|s|l|fs]; try (by destruct Hclose as [-> | ->]).
  destruct Hv as (z&->&Hz). change (JSON_stringify (JNum ?n)) with (num_to_string n).
  rewrite num_of_Z_text by (unfold exact_max, max_plain_int in *; lia). unfold int_to_string.
  destruct (z <? 0); [by destruct Hclose as [-> | ->]|].
  pose proof (dec_digit (Z.to_N z)) as Hd. pose proof (dec_nonempty (Z.to_N z)).
  destruct (dec (Z.to_N z)) as [|c s]; [done|]. apply Forall_cons in Hd as [Hc _]. split.
  - unfold json_blank. by repeat (rewrite (proj2 (N.eqb_neq _ _)) by (by intros ->)).
  - apply N.eqb_neq. intros ->. by destruct Hclose as [-> | ->].
Qed.

Lemma array_index_order fs : Forall (λ kv, array_index (fst kv) = None) fs → own_order fs = fs.
Proof.
  intros H. unfold own_order.
  assert (List.filter has_index fs = []) as ->.
  { induction H as [|kv fs Hk _ IH]; [done|]. simpl. unfold has_index at 1. by rewrite Hk. }
  simpl. apply list_filter_all. eapply Forall_impl; [exact H|]. intros kv Hk. unfold has_index. by rewrite Hk.
Qed.
Lemma obj_set_new k v fs : k ∉ fst <$> fs → obj_set k v fs = fs ++ [(k, v)].
Proof.
  induction fs as [|[k' w] fs IH]; simpl; [done|]. rewrite not_elem_of_cons. intros [Hk Hn].
  unfold eqs. rewrite bool_decide_eq_false_2 by congruence. by rewrite IH.
Qed.
Lemma object_of_id fs : NoDup (fst <$> fs) → Forall (λ kv, array_index (fst kv) = None) fs → object_of fs = JObj fs.
Proof.
  intros Hn Hi. unfold object_of. f_equal.
  assert (∀ acc, NoDup (fst <$> acc ++ fs) → foldl (λ fs kv, obj_set (fst kv) (snd kv) fs) acc fs = acc ++ fs) as Hf.
  { clear. induction fs as [|[k v] fs IH]; intros acc Ha; simpl; [by rewrite app_nil_r|].
    rewrite obj_set_new.
    - rewrite IH; [by rewrite <- app_assoc|]. by rewrite <- app_assoc.
    - rewrite fmap_app in Ha. simpl in Ha. apply NoDup_app in Ha as (_&Hd&_). intros Hin. apply (Hd _ Hin). by left. }
  rewrite (Hf []) by done. by apply array_index_order.
Qed.

Lemma join_length {A} (f : A → jsstr) l a : a ∈ l → (length (f a) ≤ length (Json.join (js ",") (f <$> l)))%nat.
Proof.
  induction l as [|b [|c l] IH]; [by intros ?%not_elem_of_nil|intros ->%list_elem_of_singleton; simpl; lia|].
  change (Json.join (js ",") (f <$> b :: c :: l)) with (f b ++ 44%N :: Json.join (js ",") (f <$> c :: l)).
  rewrite length_app. cbn [length]. intros [->|Hin]%elem_of_cons; [lia|]. apply IH in Hin. lia.
Qed.
Lemma join_count {A} (f : A → jsstr) l : (length l ≤ S (length (Json.join (js ",") (f <$> l))))%nat.
Proof.
  induction l as [|b [|c l] IH]; simpl; [lia..|].
  change (Json.join (js ",") (f b :: f c :: (f <$> l))) with (f b ++ 44%N :: Json.join (js ",") (f <$> c :: l)).
  rewrite length_app. simpl in *. lia.
Qed.

Lemma read_key_quote key k : units key → read_key (quote key ++ js ":" ++ k) = Some (key, k).
Proof.
  intros Hu. unfold read_key. change (skip_blank (quote key ++ js ":" ++ k)) with (quote key ++ js ":" ++ k).
  change (after_text [34%N] (quote key ++ js ":" ++ k)) with (Some (drop 1 (quote key ++ js ":" ++ k))). cbn [mbind option_bind].
  by rewrite unquote_quote.
Qed.

Lemma read_stringify v : parsable v → ∀ fuel, (length (JSON_stringify v) < fuel)%nat → reads (read_value fuel) JSON_stringify v.
Proof.
  induction v as [|b|x|s|l IH|fs IH] using JsonText.json_rec; intros Hv fuel Hf k Hk; (destruct fuel as [|fuel]; [lia|]).
  - done.
  - by destruct b.
  - destruct Hv as (z&->&Hz). change (JSON_stringify (JNum ?n)) with (num_to_string n).
    rewrite num_of_Z_text by (unfold exact_max, max_plain_int in *; lia).
    pose proof (read_int z k Hz Hk) as Hr. destruct (int_head z) as (c&s&E&Hc&_).
    pose proof (value_head (JNum (num_of_Z z)) ltac:(by exists z) 93%N (or_introl eq_refl)) as Hs.
    change (JSON_stringify (JNum ?n)) with (num_to_string n) in Hs.
    rewrite num_of_Z_text, E in Hs by (unfold exact_max, max_plain_int in *; lia). destruct Hs as [Hb _].
    rewrite E in *. cbn [app read_value skip_blank]. rewrite Hb.
    unfold kind_of_char in Hc. repeat case_match; try done. cbn [app] in Hr. by rewrite Hr.
  - change (JSON_stringify (JStr s)) with (quote s). pose proof (unquote_quote s k Hv) as Hu.
    change (drop 1 (quote s ++ k)) with ((escape s ++ [34%N]) ++ k) in Hu.
    change (quote s ++ k) with (34%N :: (escape s ++ [34%N]) ++ k). cbn [read_value]. simpl skip_blank. cbv iota beta.
    by cbn [N.eqb Pos.eqb]; rewrite Hu.
  - rewrite parsable_arr in Hv. rewrite stringify_arr in *. cbn [length] in Hf. rewrite length_app in Hf. cbn [length js] in Hf.
    rewrite <- app_comm_cons, <- app_assoc.
    change (read_value (S fuel) (91%N :: ?t)) with ('(l, u) ← read_items (read_value fuel) 93 fuel t; Some (JArr l, u)).
    pose proof (join_count JSON_stringify l). rewrite Forall_forall in IH, Hv.
    change (js "]" ++ k) with (93%N :: k). rewrite read_items_join; [done|by left|..|simpl in *; lia]; apply Forall_forall; intros v Hin.
    + pose proof (join_length JSON_stringify l v Hin). apply IH; [done|by apply Hv|simpl in *; lia].
    + apply value_head; auto.
  - rewrite parsable_obj in Hv. destruct Hv as [Hnd Hv]. rewrite stringify_obj in *. cbn [length] in Hf. rewrite length_app in Hf.
    rewrite <- app_comm_cons, <- app_assoc.
    set (rd := λ s, '(key, s) ← read_key s; '(v, s) ← read_value fuel s; Some ((key, v), s)).
    change (read_value (S fuel) (123%N :: ?t)) with ('(l, u) ← read_items rd 125 fuel t; Some (object_of l, u)).
    pose proof (join_count member_text fs). rewrite Forall_forall in IH, Hv.
    change (js "}" ++ k) with (125%N :: k). rewrite read_items_join; [|by right|..|simpl in *; lia].
    + cbn [mbind option_bind]. rewrite object_of_id; [done..|]. apply Forall_forall. intros kv Hin. by apply Hv.
    + apply Forall_forall. intros [key v] Hin t Ht. pose proof (join_length member_text fs _ Hin) as Hl.
      destruct (Hv _ Hin) as (Hu&_&Hp). unfold member_text in *. cbn [fst snd] in *. rewrite !length_app in Hl.
      unfold rd. rewrite <- !app_assoc, read_key_quote by done. cbn [mbind option_bind].
      rewrite (IH _ Hin); [done..| |done]. simpl in *. lia.
    + apply Forall_forall. by intros kv _.
Qed.

Lemma parse_stringify v : parsable v → parse_json (JSON_stringify v) = Some v.
Proof.
  intros Hv. unfold parse_json. pose proof (read_stringify v Hv (S (length (JSON_stringify v))) ltac:(lia) [] I) as Hr.
  rewrite app_nil_r in Hr. by rewrite Hr.
Qed.
