(* ===== verification/Attribution.v ===== *)
(** * What the terminal is given to print

    The pure functions of [cli/src/render/attribution.ts] and [color.ts]: stripping,
    display width, wrapping, the quoting of untrusted values and the label on every row.
    [Intl.Segmenter] is a parameter; the code-point fallback of the source is an instance
    of it. *)

From S2P Require Export TextCodec.
Open Scope Z_scope.

(** ** Code points of a string, as [for (const ch of text)] yields them *)

Fixpoint string_points (s : jsstr) : list jsstr :=
  match s with
  | [] => []
  | c :: s1 =>
      if is_high c then
        match s1 with
        | d :: s2 => if is_low d then [c; d] :: string_points s2 else [c] :: string_points s1
        | [] => [[c]]
        end
      else [c] :: string_points s1
  end.
(** [ch.codePointAt(0)] on one of them. *)
Definition code_point (ch : jsstr) : option N :=
  match ch with
  | [] => None
  | [c] => Some c
  | c :: d :: _ => Some (if is_high c && is_low d then astral c d else c)
  end.

(** ** Regular expressions with greedy backtracking *)

Inductive re :=
  | Chr (p : N → bool)
  | Empty
  | Cat (a b : re)
  | Alt (a b : re)
  | Star (a : re).

(** The input left by the first successful match of [r] at the head of [s], on which the
    rest [k] succeeds too. An iteration of a star takes at least one unit. *)
Fixpoint re_match (r : re) (s : jsstr) (k : jsstr → option jsstr) : option jsstr :=
  match r with
  | Chr p => match s with c :: s' => if p c then k s' else None | [] => None end
  | Empty => k s
  | Cat a b => re_match a s (λ s, re_match b s k)
  | Alt a b => match re_match a s k with Some x => Some x | None => re_match b s k end
  | Star a =>
      (fix loop (n : nat) (s : jsstr) : option jsstr :=
        match n with
        | O => k s
        | S n =>
            match re_match a s (λ s', if (length s' <? length s)%nat then loop n s' else None) with
            | Some x => Some x
            | None => k s
            end
        end) (length s) s
  end.
(** [s.replace(r, "")] with the global flag, for an [r] that takes a unit at least. *)
Fixpoint re_strip (r : re) (fuel : nat) (s : jsstr) : jsstr :=
  match fuel, s with
  | O, _ | _, [] => s
  | S fuel, c :: s' =>
      match re_match r s Some with
      | Some rest => if (length rest <? length s)%nat then re_strip r fuel rest else c :: re_strip r fuel s'
      | None => c :: re_strip r fuel s'
      end
  end.

Definition within_range (lo hi c : N) : bool := ((lo <=? c) && (c <=? hi))%N.
Definition among (l : list N) (c : N) : bool := existsb (N.eqb c) l.
Definition letter (c : N) : bool := within_range 97 122 c || within_range 65 90 c.
Definition Opt (a : re) : re := Alt a Empty.
Definition Many (a : re) : re := Cat a (Star a).
(** [a{0,n}]. *)
Definition UpTo (n : nat) (a : re) : re := Nat.iter n (λ r, Opt (Cat a r)) Empty.

(** [ANSI_ESCAPE]: an introducer, then a body closed by BEL or ST, or parameters and a
    final character. *)
Definition osc_char (c : N) : bool := letter c || is_digit c || among [45; 47; 35; 38; 46; 58; 61; 63; 37; 64; 126; 95]%N c.
Definition semicolon : re := Chr (N.eqb 59).
Definition osc_end : re := Alt (Chr (N.eqb 7)) (Alt (Cat (Chr (N.eqb 0x1B)) (Chr (N.eqb 92))) (Chr (N.eqb 0x9C))).
Definition osc_body : re :=
  Alt (Star (Cat semicolon (Many (Chr osc_char))))
      (Cat (Many (Chr (λ c, letter c || is_digit c))) (Star (Cat semicolon (Star (Chr osc_char))))).
Definition csi_parameters : re := Cat (Cat (Chr is_digit) (UpTo 3 (Chr is_digit))) (Star (Cat semicolon (UpTo 4 (Chr is_digit)))).
Definition csi_final (c : N) : bool :=
  is_digit c || within_range 65 80 c || within_range 82 84 c || (c =? 90)%N || (c =? 99)%N || within_range 102 110 c ||
  within_range 113 117 c || among [121; 61; 62; 60; 126]%N c.
Definition introducer (c : N) : bool := among [0x1B; 0x9B]%N c.
Definition ANSI_ESCAPE : re :=
  Cat (Chr introducer) (Cat (Star (Chr (among [91; 93; 40; 41; 35; 59; 63]%N)))
    (Alt (Cat (Opt osc_body) osc_end) (Cat (Opt csi_parameters) (Chr csi_final)))).

(** ** Stripping what could forge a line *)

Definition CONTROL_BYTES (c : N) : bool := within_range 0 0x1F c || within_range 0x7F 0x9F c.
Definition FORMAT_BIDI (c : N) : bool :=
  among [0x061C; 0x200B; 0x200C; 0x200E; 0x200F; 0xFEFF]%N c || within_range 0x202A 0x202E c || within_range 0x2060 0x2064 c || within_range 0x2066 0x2069 c.
Definition LINE_SEPARATORS (c : N) : bool := among [0x2028; 0x2029]%N c.
Definition strip_units (p : N → bool) (s : jsstr) : jsstr := List.filter (λ c, negb (p c)) s.
Definition strip_ansi (s : jsstr) : jsstr := re_strip ANSI_ESCAPE (length s) s.
Definition sanitize (text : jsstr) : jsstr :=
  strip_units LINE_SEPARATORS (strip_units FORMAT_BIDI (strip_units CONTROL_BYTES (strip_ansi text))).

(** ** Color *)

Inductive ColorDepth := Truecolor | Color256 | Color16 | NoColor.
Inductive ColorRole := Role_habenula | Role_banner | Role_agent | Role_human | Role_granted | Role_pending | Role_denied | Role_incoming | Role_muted.
#[export] Instance ColorDepth_eq_dec : EqDecision ColorDepth.
Proof. solve_decision. Defined.
Definition PALETTE (role : ColorRole) : option ((N * N * N) * N) :=
  match role with
  | Role_habenula => Some ((251, 247, 242), 97)
  | Role_banner => Some ((78, 187, 157), 36)
  | Role_agent => Some ((231, 84, 32), 31)
  | Role_granted => Some ((46, 155, 127), 32)
  | Role_pending => Some ((239, 147, 118), 33)
  | Role_denied => Some ((244, 106, 128), 91)
  | Role_incoming => Some ((175, 135, 255), 35)
  | Role_muted => Some ((168, 154, 161), 90)
  | Role_human => None
  end%N.
(** [Math.round((v / 255) * 5)] on a channel of the palette. *)
Definition cubeIndex (v : N) : N := ((10 * N.min 255 v + 255) / 510)%N.
Definition to256 (r g b : N) : N := (16 + 36 * cubeIndex r + 6 * cubeIndex g + cubeIndex b)%N.
Definition sgrFor (role : ColorRole) (depth : ColorDepth) : option jsstr :=
  match PALETTE role, depth with
  | None, _ | _, NoColor => None
  | Some ((r, g, b), _), Truecolor => Some (js "38;2;" ++ dec r ++ js ";" ++ dec g ++ js ";" ++ dec b)
  | Some ((r, g, b), _), Color256 => Some (js "38;5;" ++ dec (to256 r g b))
  | Some (_, sixteen), Color16 => Some (dec sixteen)
  end.
(** The escape sequence of a parameter: [ESC [ sgr m]. *)
Definition sgr_open (sgr : jsstr) : jsstr := [0x1B; 91]%N ++ sgr ++ [109%N].
Definition SGR_RESET : jsstr := sgr_open (js "0").
Definition colorize (text : jsstr) (role : ColorRole) (depth : ColorDepth) : jsstr :=
  match sgrFor role depth, text with
  | Some sgr, _ :: _ => sgr_open sgr ++ text ++ SGR_RESET
  | _, _ => text
  end.
Definition inputSgr (depth : ColorDepth) : jsstr :=
  match sgrFor Role_habenula depth with Some sgr => sgr_open sgr | None => [] end.

(** ** Display width *)

Definition isZeroWidth (cp : N) : bool :=
  within_range 0x0300 0x036f cp || within_range 0x200b 0x200d cp || within_range 0xfe00 0xfe0f cp || within_range 0xe0100 0xe01ef cp.
Definition isWide (cp : N) : bool :=
  existsb (λ r, within_range (fst r) (snd r) cp)
    [(0x1100, 0x115f); (0x2329, 0x2329); (0x232a, 0x232a); (0x231a, 0x231b); (0x23e9, 0x23fa); (0x24c2, 0x24c2);
     (0x25aa, 0x25fe); (0x2600, 0x27bf); (0x2900, 0x297f); (0x2b00, 0x2bff); (0x2e80, 0x303e); (0x3041, 0x33ff);
     (0x3400, 0x4dbf); (0x4e00, 0x9fff); (0xa000, 0xa4cf); (0xac00, 0xd7a3); (0xf900, 0xfaff); (0xfe10, 0xfe1f);
     (0xfe30, 0xfe4f); (0xff00, 0xff60); (0xffe0, 0xffe6); (0x1f000, 0x1faff); (0x20000, 0x3fffd)]%N.
(** The scan of a cluster: [None] when a variation selector forces width 2, otherwise the
    first code point that is not of width zero. *)
Fixpoint base_of (cps : list N) : option (option N) :=
  match cps with
  | [] => Some None
  | cp :: cps =>
      if (cp =? 0xfe0f)%N then None
      else
        base ← base_of cps;
        Some (if isZeroWidth cp then base else Some cp)
  end.
Definition graphemeWidth (g : jsstr) : Z :=
  match base_of (omap code_point (string_points g)) with
  | None => 2
  | Some None => 0
  | Some (Some base) => if isWide base then 2 else 1
  end.

(** [Intl.Segmenter] with grapheme granularity: it divides a text into non-empty clusters,
    and a run of clusters is divided in the same way. *)
Class Segmenter := graphemes : jsstr → list jsstr.
Class SegmenterLaws (S : Segmenter) : Prop := {
  graphemes_text : ∀ s, mjoin (graphemes s) = s;
  graphemes_nonempty : ∀ s g, g ∈ graphemes s → g ≠ [];
  graphemes_run : ∀ s a b c, graphemes s = a ++ b ++ c → graphemes (mjoin b) = b;
}.
(** The fallback of the source. *)
Definition code_point_segmenter : Segmenter := string_points.

Definition width_sum (gs : list jsstr) : Z := foldr (λ g w, graphemeWidth g + w) 0 gs.
Definition ellipsis_mark : jsstr := [8230%N].

Section segmented.
Context {Seg : Segmenter}.
Definition displayWidth (text : jsstr) : Z := width_sum (graphemes text).

(** ** Wrapping *)

(** The clusters of a row while it is filled: what is closed, the row, its width. *)
Definition hard_step (limit : Z) (st : list jsstr * jsstr * Z) (g : jsstr) : list jsstr * jsstr * Z :=
  let '(rows, current, w) := st in
  if (limit <? w + graphemeWidth g) && negb (bool_decide (current = []))
  then (rows ++ [current], g, graphemeWidth g)
  else (rows, current ++ g, w + graphemeWidth g).
Definition hardWrap (text : jsstr) (limit : Z) : list jsstr :=
  let '(rows, current, _) := foldl (hard_step limit) ([], [], 0) (graphemes text) in
  if bool_decide (current ≠ []) || bool_decide (rows = []) then rows ++ [current] else rows.

Definition wrap_step (limit : Z) (st : list jsstr * jsstr * Z) (token : jsstr) : list jsstr * jsstr * Z :=
  let '(rows, cur, curW) := st in
  if bool_decide (token = []) then st
  else
    let tokW := displayWidth token in
    if limit <? tokW then
      let rows := if bool_decide (cur = []) then rows else rows ++ [cur] in
      let pieces := hardWrap token limit in
      let cur := List.last pieces [] in
      (rows ++ removelast pieces, cur, displayWidth cur)
    else
      let full := negb (bool_decide (cur = [])) && (limit <? curW + 1 + tokW) in
      let rows := if full then rows ++ [cur] else rows in
      if bool_decide (cur = []) || full then (rows, token, tokW)
      else (rows, cur ++ 32%N :: token, curW + 1 + tokW).
Definition wrapToWidth (text : jsstr) (width : Z) : list jsstr :=
  let limit := Z.max 1 width in
  let '(rows, cur, _) := foldl (wrap_step limit) ([], [], 0) (split_on 32 text) in
  if bool_decide (cur ≠ []) || bool_decide (rows = []) then rows ++ [cur] else rows.

(** ** Attribution *)

Inductive Speaker := You | Agent | Habenula.
Definition label_mark : jsstr := [8250%N].
Definition SPEAKER_LABEL (sp : Speaker) : jsstr :=
  match sp with You => js "you " | Agent => js "agent " | Habenula => js "Habenula " end ++ label_mark.
Definition SPEAKER_ROLE (sp : Speaker) : ColorRole :=
  match sp with You => Role_human | Agent => Role_agent | Habenula => Role_habenula end.

(** [text.split(/\r?\n/)]. *)
Definition without_cr (line : jsstr) : jsstr :=
  match rev line with 13%N :: l => rev l | _ => line end.
Fixpoint logical_rows (lines : list jsstr) : list jsstr :=
  match lines with
  | [] => []
  | [line] => [line]
  | line :: lines => without_cr line :: logical_rows lines
  end.
Definition text_lines (text : jsstr) : list jsstr := logical_rows (split_on 10 text).

Definition attribute (speaker : Speaker) (text : jsstr) (depth : ColorDepth) (width : Z) : list jsstr :=
  let label := SPEAKER_LABEL speaker in
  let available := Z.max 1 (width - displayWidth label - 1) in
  text_lines text ≫= λ logical,
    (λ piece, colorize (label ++ 32%N :: piece) (SPEAKER_ROLE speaker) depth) <$> wrapToWidth (sanitize logical) available.
(** [terminalWidth] and the other readers of [process.stdout.columns]. *)
Definition columns_or_80 (columns : option Z) : Z :=
  match columns with Some c => if 0 <? c then c else 80 | None => 80 end.

(** ** Untrusted values *)

Record Rendered := mkRendered { rd_text : jsstr; rd_altered : bool; rd_truncated : bool }.
Definition clamp (clean : jsstr) (max : nat) : jsstr :=
  if (max <? length clean)%nat then take max clean ++ ellipsis_mark else clean.
Definition clampSanitized (raw : jsstr) (max : nat) : Rendered :=
  let clean := sanitize raw in
  mkRendered (clamp clean max) (negb (bool_decide (clean = raw))) (negb (bool_decide (clamp clean max = clean))).
Definition CHROME_SEPARATOR : N := 0xB7.
Definition renderUntrusted (value : json) (max : nat) : Rendered :=
  let raw := match value with JStr s => s | v => JSON_stringify v end in
  let clean := sanitize raw in
  let clamped := clamp clean max in
  mkRendered (match value with JStr _ => quote clamped | _ => clamped end)
    (negb (bool_decide (clean = raw)) || existsb (N.eqb CHROME_SEPARATOR) clamped)
    (negb (bool_decide (clamped = clean))).

Definition MAX_TOOL : nat := 64.
Definition MAX_ERROR : nat := 256.
Definition dash_mark : jsstr := [32; 8212; 32]%N.
Definition toolCallLine (name : jsstr) (failed : bool) (error : option jsstr) : jsstr :=
  let head := js "[tool: " ++ rd_text (renderUntrusted (JStr name) MAX_TOOL) ++ js "]" in
  if failed then
    match error with
    | Some (c :: e) => head ++ dash_mark ++ js "failed: " ++ rd_text (renderUntrusted (JStr (c :: e)) MAX_ERROR)
    | _ => head ++ dash_mark ++ js "failed"
    end
  else head.

(** ** A field on rows of its own *)

Record Field := mkField {
  fl_prefix : jsstr;        (* colored *)
  fl_prefixWidth : Z;
  fl_value : jsstr;
  fl_indent : Z;
  fl_suffix : option (jsstr * Z);   (* colored, not empty; its width *)
}.
(** What the loop of [layoutField] holds: the closed pieces, the open one, its width, and
    whether it is on the first row. *)
Definition field_step (budget0 budgetN : Z) (st : list (jsstr * Z) * jsstr * Z * bool) (g : jsstr) : list (jsstr * Z) * jsstr * Z * bool :=
  let '(pieces, cur, curW, onFirst) := st in
  let limit := if onFirst then budget0 else budgetN in
  if (limit <? curW + graphemeWidth g) && negb (bool_decide (cur = []))
  then (pieces ++ [(cur, curW)], g, graphemeWidth g, false)
  else (pieces, cur ++ g, curW + graphemeWidth g, onFirst).
Definition field_pieces (budget0 budgetN : Z) (onFirst : bool) (value : jsstr) : list (jsstr * Z) :=
  let '(pieces, cur, curW, _) := foldl (field_step budget0 budgetN) ([], [], 0, onFirst) (graphemes value) in
  pieces ++ [(cur, curW)].
Definition pad (n : Z) : jsstr := replicate (Z.to_nat n) 32%N.
(** The trailing flag, on the last row when it fits there. *)
Definition with_suffix (width : Z) (contPad : jsstr) (lastRowWidth : Z) (suffix : option (jsstr * Z)) (rows : list jsstr) : list jsstr :=
  match suffix with
  | None => rows
  | Some (text, w) =>
      if lastRowWidth + 1 + w <=? width
      then removelast rows ++ [List.last rows [] ++ 32%N :: text]
      else rows ++ [contPad ++ text]
  end.
Definition layoutField (f : Field) (width : Z) : list jsstr :=
  let width := Z.max 1 width in
  let indent := Z.max 1 (fl_indent f) in
  let contPad := pad indent in
  let roomOnFirst := width - fl_prefixWidth f in
  let owns := roomOnFirst <? 1 in
  let pieces := field_pieces (Z.max 1 roomOnFirst) (Z.max 1 (width - indent)) (negb owns) (fl_value f) in
  let lastW := snd (List.last pieces ([], 0)) in
  let rows :=
    if owns then fl_prefix f :: ((λ p, contPad ++ p) <$> List.filter (λ p, negb (bool_decide (p = []))) (fst <$> pieces))
    else match fst <$> pieces with
         | [] => []
         | p :: ps => (fl_prefix f ++ p) :: ((λ p, contPad ++ p) <$> ps)
         end in
  let lastRowWidth :=
    if owns then if (length rows =? 1)%nat then fl_prefixWidth f else indent + lastW
    else (if (length pieces =? 1)%nat then fl_prefixWidth f else indent) + lastW in
  with_suffix width contPad lastRowWidth (fl_suffix f) rows.
End segmented.
