(* ===== verification/AttributionExact.v ===== *)
(** * What the rows of the terminal guarantee

    [sanitize] leaves nothing that moves the cursor or reorders glyphs; every row of
    [attribute] carries its label and fits the terminal; an unflagged untrusted value is
    shown exactly. *)

From S2P Require Export Attribution.
Open Scope Z_scope.

(** ** The language of a regular expression *)

Inductive in_re : re → jsstr → Prop :=
  | in_chr p c : p c = true → in_re (Chr p) [c]
  | in_empty : in_re Empty []
  | in_cat a b s t : in_re a s → in_re b t → in_re (Cat a b) (s ++ t)
  | in_left a b s : in_re a s → in_re (Alt a b) s
  | in_right a b s : in_re b s → in_re (Alt a b) s
  | in_stop a : in_re (Star a) []
  | in_more a s t : s ≠ [] → in_re a s → in_re (Star a) t → in_re (Star a) (s ++ t).
#[local] Hint Constructors in_re : core.

(** [r] matches a prefix of [s] after which [k] yields [x]. *)
Definition takes (r : re) (s : jsstr) (k : jsstr → option jsstr) (x : jsstr) : Prop :=
  ∃ a b, s = a ++ b ∧ in_re r a ∧ k b = Some x.

Definition star_loop (a : re) (k : jsstr → option jsstr) : nat → jsstr → option jsstr :=
  fix loop (n : nat) (s : jsstr) : option jsstr :=
    match n with
    | O => k s
    | S n =>
        match re_match a s (λ s', if (length s' <? length s)%nat then loop n s' else None) with
        | Some x => Some x
        | None => k s
        end
    end.

Section star.
Context (a : re).
Hypothesis sound : ∀ s k x, re_match a s k = Some x → takes a s k x.
Hypothesis complete : ∀ s k x, takes a s k x → re_match a s k ≠ None.
Lemma star_sound k n s x : star_loop a k n s = Some x → takes (Star a) s k x.
Proof using sound.
  revert s x. induction n as [|n IH]; intros s x; simpl; [by exists [], s|].
  destruct (re_match a s _) as [y|] eqn:E; [|by exists [], s].
  intros [= <-]. apply sound in E as (u & v & -> & Hu & Hv). case_match eqn:El; [|done].
  apply IH in Hv as (v1 & v2 & -> & Hv1 & Hx). exists (u ++ v1), v2. rewrite <- app_assoc. split_and!; auto.
  apply Nat.ltb_lt in El. rewrite !length_app in El. constructor; auto. intros ->. simpl in El. lia.
Qed.
Lemma star_complete k n u s : (length s <= n)%nat → in_re (Star a) u → ∀ v x, s = u ++ v → k v = Some x → star_loop a k n s ≠ None.
Proof using complete.
  remember (Star a) as r eqn:Er. intros Hn Hu. revert n s Hn.
  induction Hu as [| | | | |a'|a' s1 t Hs1 Hin _ Ht IH]; simplify_eq; intros n s Hn v x -> Hk.
  - destruct n; simpl in *; [congruence|]. case_match; congruence.
  - destruct n as [|n]; simpl.
    + rewrite <- app_assoc, length_app in Hn. destruct s1; [done|]. simpl in Hn. lia.
    + case_match eqn:E; [done|]. exfalso.
      assert (length (t ++ v) <? length ((s1 ++ t) ++ v) = true)%nat as Hlt.
      { apply Nat.ltb_lt. rewrite !length_app. destruct s1; [done|]. simpl. lia. }
      destruct (star_loop a k n (t ++ v)) as [y|] eqn:Ey.
      * eapply complete; [|exact E]. exists s1, (t ++ v). split_and!; [by rewrite <- app_assoc|done|]. rewrite Hlt. exact Ey.
      * eapply (IH eq_refl n (t ++ v)); [|done..]. apply Nat.ltb_lt in Hlt. lia.
Qed.
End star.

Lemma re_match_sound r s k x : re_match r s k = Some x → takes r s k x.
Proof.
  revert s k x. induction r as [p| |a IHa b IHb|a IHa b IHb|a IH]; intros s k x; simpl.
  - destruct s as [|c s]; [done|]. case_match; [|done]. intros Hk. exists [c], s. auto.
  - intros H. by exists [], s.
  - intros (u & v & -> & Hu & (v1 & v2 & -> & Hv & Hx)%IHb)%IHa. exists (u ++ v1), v2. rewrite <- app_assoc. auto.
  - case_match eqn:E.
    + intros [= <-]. apply IHa in E as (u & v & ? & ? & ?). exists u, v. auto.
    + intros (u & v & ? & ? & ?)%IHb. exists u, v. auto.
  - apply (star_sound a IH k).
Qed.
Lemma re_match_complete r s k x : takes r s k x → re_match r s k ≠ None.
Proof.
  revert s k x. induction r as [p| |a IHa b IHb|a IHa b IHb|a IH]; intros s k x (u & v & -> & Hu & Hk); simpl.
  - inversion Hu; subst. simpl. case_match; congruence.
  - inversion Hu; subst. simpl. congruence.
  - inversion Hu as [| |? ? u1 u2 H1 H2| | | |]; subst. rewrite <- app_assoc.
    destruct (re_match b (u2 ++ v) k) as [y|] eqn:E; [|exfalso; eapply IHb; [|exact E]; by exists u2, v].
    eapply (IHa _ _ y). by exists u1, (u2 ++ v).
  - case_match eqn:E; [done|]. inversion Hu; subst; [exfalso; eapply IHa; [|exact E]|eapply IHb]; by exists u, v.
  - by eapply (star_complete a IH k _ u).
Qed.
(** The matcher decides membership of a prefix. *)
Lemma re_match_iff r s : (∃ rest, re_match r s Some = Some rest) ↔ ∃ a b, s = a ++ b ∧ in_re r a.
Proof.
  split.
  - intros [x (a & b & -> & ? & _)%re_match_sound]. eauto.
  - intros (a & b & -> & Ha). destruct (re_match r (a ++ b) Some) eqn:E; [eauto|]. exfalso.
    eapply re_match_complete; [|exact E]. by exists a, b.
Qed.

(** ** What [sanitize] leaves *)

Definition harmless (c : N) : Prop := CONTROL_BYTES c = false ∧ FORMAT_BIDI c = false ∧ LINE_SEPARATORS c = false.
Definition clean (s : jsstr) : Prop := Forall harmless s.

Lemma strip_units_spec p s : Forall (λ c, p c = false) (strip_units p s).
Proof. apply Forall_forall. intros c Hc. apply list_elem_of_In, filter_In in Hc as [_ Hc]. by destruct (p c). Qed.
Lemma strip_units_keeps (P : N → Prop) p s : Forall P s → Forall P (strip_units p s).
Proof. rewrite !Forall_forall. intros Hs c Hc. apply Hs. apply list_elem_of_In in Hc. apply filter_In in Hc as [Hc _]. by apply list_elem_of_In. Qed.
Lemma strip_units_id p s : Forall (λ c, p c = false) s → strip_units p s = s.
Proof. intros Hs. apply list_filter_all. eapply Forall_impl; [exact Hs|]. by intros c ->. Qed.
Lemma sanitize_clean text : clean (sanitize text).
Proof.
  unfold clean, sanitize. set (t := strip_ansi text). clearbody t.
  pose proof (strip_units_spec CONTROL_BYTES t) as H1.
  pose proof (strip_units_keeps _ FORMAT_BIDI _ H1) as H2. pose proof (strip_units_spec FORMAT_BIDI (strip_units CONTROL_BYTES t)) as H3.
  pose proof (strip_units_keeps _ LINE_SEPARATORS _ H2) as H4. pose proof (strip_units_keeps _ LINE_SEPARATORS _ H3) as H5.
  pose proof (strip_units_spec LINE_SEPARATORS (strip_units FORMAT_BIDI (strip_units CONTROL_BYTES t))) as H6.
  rewrite Forall_forall in *. intros c Hc. split_and!; auto.
Qed.
Lemma introducer_control c : introducer c = true → CONTROL_BYTES c = true.
Proof.
  unfold introducer, among. simpl. rewrite !orb_true_iff.
  intros [E|[E|E]]; [apply N.eqb_eq in E as ->; reflexivity..|done].
Qed.
Lemma re_strip_clean n s : clean s → re_strip ANSI_ESCAPE n s = s.
Proof.
  revert s. induction n as [|n IH]; intros s Hs; [done|]. destruct Hs as [|c s [Hc _] Hs]; [done|].
  cbn [re_strip]. assert (re_match ANSI_ESCAPE (c :: s) Some = None) as ->; [|by rewrite IH].
  unfold ANSI_ESCAPE. cbn [re_match]. destruct (introducer c) eqn:E; [|done]. apply introducer_control in E. congruence.
Qed.
Lemma sanitize_id s : clean s → sanitize s = s.
Proof.
  intros Hs. unfold sanitize, strip_ansi. rewrite re_strip_clean by done.
  rewrite !strip_units_id; [done|..]; repeat (rewrite strip_units_id; [|]); eapply Forall_impl; (exact Hs || by intros c (? & ? & ?)).
Qed.
(** Stripping once is enough. *)
Lemma sanitize_idempotent text : sanitize (sanitize text) = sanitize text.
Proof. apply sanitize_id, sanitize_clean. Qed.
(** An escape sequence is removed whole: nothing of it is left of what follows. *)
Lemma ansi_removed a b : in_re ANSI_ESCAPE a →
  ∃ a' b', a ++ b = a' ++ b' ∧ in_re ANSI_ESCAPE a' ∧ strip_ansi (a ++ b) = re_strip ANSI_ESCAPE (pred (length (a ++ b))) b'.
Proof.
  intros Ha. destruct (proj2 (re_match_iff ANSI_ESCAPE (a ++ b))) as [rest E]; [by exists a, b|].
  destruct (re_match_sound _ _ _ _ E) as (a' & b' & Eab & Ha' & [= ->]). exists a', rest. split_and!; [done..|].
  assert (a' ≠ []) as Hne.
  { unfold ANSI_ESCAPE in Ha'. inversion Ha' as [| |? ? u v Hu Hv| | | |]; subst. inversion Hu; subst. done. }
  unfold strip_ansi. destruct (a ++ b) as [|c s] eqn:Es; [by destruct a'|]. cbn [re_strip length pred]. rewrite E.
  case_match eqn:El; [done|]. apply Nat.ltb_ge in El. apply (f_equal length) in Eab. rewrite length_app in Eab. destruct a'; [done|]. simpl in *. lia.
Qed.

(** ** The clusters of a wrapped row *)

Lemma graphemeWidth_bounds g : 0 <= graphemeWidth g <= 2.
Proof. unfold graphemeWidth. repeat case_match; lia. Qed.
Lemma width_sum_app a b : width_sum (a ++ b) = width_sum a + width_sum b.
Proof. induction a; simpl; lia. Qed.
Lemma width_sum_nonneg l : 0 <= width_sum l.
Proof. induction l as [|g l IH]; simpl; [lia|]. pose proof (graphemeWidth_bounds g). lia. Qed.
Lemma mjoin_nil_inv (l : list jsstr) : Forall (λ g, g ≠ []) l → mjoin l = [] → l = [].
Proof. intros Hl. destruct Hl as [|g l Hg _]; [done|]. simpl. by destruct g. Qed.

Section exact.
Context {Seg : Segmenter} {SL : SegmenterLaws Seg}.
Lemma displayWidth_run s a b c : graphemes s = a ++ b ++ c → displayWidth (mjoin b) = width_sum b.
Proof. intros E. unfold displayWidth. by rewrite (graphemes_run s a b c E). Qed.
Lemma displayWidth_nonneg s : 0 <= displayWidth s.
Proof using Type. apply width_sum_nonneg. Qed.
Lemma clusters_nonempty s : Forall (λ g, g ≠ []) (graphemes s).
Proof. apply Forall_forall. intros g. apply graphemes_nonempty. Qed.

#[local] Notation flat := (mjoin : list jsstr → jsstr).
(** What [hard_step] holds after the clusters [done]. *)
Definition hard_inv (limit : Z) (done : list jsstr) (st : list jsstr * jsstr * Z) : Prop :=
  ∃ runs cur, done = mjoin runs ++ cur ∧ st = (flat <$> runs, mjoin cur, width_sum cur) ∧
    Forall (λ r, r ≠ [] ∧ width_sum r <= limit) runs ∧ width_sum cur <= limit ∧ (done ≠ [] → cur ≠ []).
Lemma hard_inv_fold limit gs : 2 <= limit → Forall (λ g, g ≠ []) gs →
  hard_inv limit gs (foldl (hard_step limit) ([], [], 0) gs).
Proof using Type.
  intros Hlim Hne. induction gs as [|g gs IH] using rev_ind.
  - exists [], []. split_and!; simpl; [done..|constructor|lia|done].
  - apply Forall_app in Hne as [Hgs Hg]. apply Forall_cons in Hg as [Hg _]. rewrite foldl_app. cbn [foldl].
    destruct (IH Hgs) as (runs & cur & E & -> & Hr & Hc & _). unfold hard_step.
    pose proof (graphemeWidth_bounds g) as Hw. assert (mjoin cur = [] ↔ cur = []) as Hcur.
    { split; [|by intros ->]. apply mjoin_nil_inv. rewrite E in Hgs. by apply Forall_app in Hgs as [_ ?]. }
    destruct (Z.ltb_spec limit (width_sum cur + graphemeWidth g)) as [Hlt|Hle]; simpl; [destruct (decide (mjoin cur = [])) as [Hn|Hn]|].
    + apply Hcur in Hn as ->. simpl in Hlt. lia.
    + rewrite bool_decide_false by done. exists (runs ++ [cur]), [g]. cbn [negb]. split_and!.
      * rewrite E, join_app. simpl. by rewrite app_nil_r.
      * rewrite fmap_app. simpl. by rewrite app_nil_r, Z.add_0_r.
      * apply Forall_app. split; [done|]. constructor; [|constructor]. split; [|lia]. intros ->. by destruct Hn.
      * simpl. lia.
      * done.
    + exists runs, (cur ++ [g]). rewrite join_app, width_sum_app. simpl. rewrite app_nil_r, Z.add_0_r.
      split_and!; [by rewrite E, <- app_assoc|done..|lia|by destruct cur].
Qed.
Lemma hardWrap_spec limit text : 2 <= limit → text ≠ [] →
  mjoin (hardWrap text limit) = text ∧ hardWrap text limit ≠ [] ∧
  Forall (λ r, r ≠ [] ∧ displayWidth r <= limit) (hardWrap text limit).
Proof.
  intros Hlim Htext. unfold hardWrap. pose proof (graphemes_text text) as Etext. pose proof (clusters_nonempty text) as Hne.
  destruct (hard_inv_fold limit (graphemes text) Hlim Hne) as (runs & cur & E & -> & Hr & Hc & Hcur).
  assert (graphemes text ≠ []) as Hg by (intros En; rewrite En in Etext; by destruct Htext). specialize (Hcur Hg).
  assert (Forall (λ r, r ≠ [] ∧ ∃ a b, graphemes text = a ++ r ++ b ∧ width_sum r <= limit) (runs ++ [cur])) as Hall.
  { apply Forall_app. split; [|repeat constructor; [done|exists (mjoin runs), []; by rewrite app_nil_r]].
    apply Forall_forall. intros r Hin. destruct (proj1 (Forall_forall _ _) Hr r Hin) as [? ?]. split; [done|].
    apply list_elem_of_split in Hin as (l & k & ->). exists (mjoin l), (mjoin k ++ cur).
    rewrite E, join_app. simpl. by rewrite <- !app_assoc. }
  assert (mjoin cur ≠ []) as Hcm.
  { rewrite E in Hne. apply Forall_app in Hne as [_ Hne]. intros ?%mjoin_nil_inv; done. }
  rewrite bool_decide_true by done. simpl.
  replace ((mjoin <$> runs) ++ [mjoin cur]) with (flat <$> (runs ++ [cur])) by by rewrite fmap_app. split_and!.
  - rewrite <- Etext, E. rewrite fmap_app, !join_app. simpl. rewrite app_nil_r. f_equal.
    clear. induction runs as [|r runs IH]; [done|]. simpl. rewrite join_app. f_equal. exact IH.
  - by destruct runs.
  - apply Forall_fmap. eapply Forall_impl; [exact Hall|]. intros r (Hr0 & a & b & Er & Hw). unfold compose. split.
    + intros H0. apply Hr0. apply mjoin_nil_inv; [|done]. rewrite Er in Hne. by do 2 apply Forall_app in Hne as [? Hne].
    + by rewrite (displayWidth_run text a r b Er).
Qed.

(** ** Rows are parts of words, separated by one space *)

Definition words_width (parts : list jsstr) : Z := foldr (λ p w, 1 + displayWidth p + w) (-1) parts.
Definition fits (limit : Z) (parts : list jsstr) : Prop := Forall (λ p, p ≠ []) parts ∧ words_width parts <= limit.
Lemma words_width_snoc parts p : words_width (parts ++ [p]) = words_width parts + 1 + displayWidth p.
Proof using Type. induction parts as [|q parts IH]; simpl; lia. Qed.
Lemma join_snoc sep (parts : list jsstr) p : parts ≠ [] → Json.join sep (parts ++ [p]) = Json.join sep parts ++ sep ++ p.
Proof using Type.
  induction parts as [|q [|r parts] IH]; [done..|]. intros _. cbn [app Json.join] in *. rewrite IH by done. by rewrite <- !app_assoc.
Qed.
Lemma join_empty (parts : list jsstr) : Forall (λ p, p ≠ []) parts → Json.join [32%N] parts = [] ↔ parts = [].
Proof using Type.
  intros H. split; [|by intros ->]. destruct H as [|p [|q parts] Hp]; [done|by simpl; intros ->|].
  simpl. intros [-> _]%app_eq_nil. done.
Qed.
Definition row (parts : list jsstr) : jsstr := Json.join [32%N] parts.

Definition wrap_inv (limit : Z) (tokens : list jsstr) (st : list jsstr * jsstr * Z) : Prop :=
  ∃ prows pcur, fst st = (row <$> prows, row pcur) ∧ (pcur ≠ [] → snd st = words_width pcur) ∧
    Forall (fits limit) prows ∧ fits limit pcur ∧ mjoin (mjoin prows ++ pcur) = mjoin tokens.
Lemma mjoin_snoc {A} (l : list (list A)) x : mjoin (l ++ [x]) = mjoin l ++ x.
Proof using Type. rewrite join_app. simpl. by rewrite app_nil_r. Qed.
(** The open row is closed. *)
Lemma wrap_inv_flush limit tokens rows cur w : 0 <= limit → wrap_inv limit tokens (rows, cur, w) →
  wrap_inv limit tokens (if bool_decide (cur = []) then rows else rows ++ [cur], [], 0).
Proof using Type.
  intros Hlim (prows & pcur & [= -> ->] & _ & Hrows & Hcur & E). pose proof (join_empty pcur (proj1 Hcur)) as Hempty.
  assert (fits limit []) as Hnil by (split; simpl; [constructor|lia]).
  case_bool_decide as Hc.
  - apply Hempty in Hc as ->. exists prows, []. by rewrite app_nil_r in *.
  - exists (prows ++ [pcur]), []. split_and!; [by rewrite fmap_app|done| |done|].
    + apply Forall_app. split; [done|]. by constructor.
    + by rewrite app_nil_r, mjoin_snoc.
Qed.
Lemma row_singles (ps : list jsstr) : row <$> ((λ q, [q]) <$> ps) = ps.
Proof using Type. induction ps as [|q ps IH]; [done|]. by rewrite !fmap_cons, IH. Qed.
Lemma mjoin_singles (ps : list jsstr) : mjoin ((λ q, [q]) <$> ps) = ps.
Proof using Type. induction ps as [|q ps IH]; [done|]. rewrite fmap_cons. simpl. by rewrite IH. Qed.
(** A row is opened with [p]. *)
Lemma wrap_inv_open limit tokens rows p w token w' :
  wrap_inv limit tokens (rows, [], w) → ∀ ps, ps ++ [p] ≠ [] → Forall (λ q, q ≠ [] ∧ displayWidth q <= limit) (ps ++ [p]) →
  mjoin (ps ++ [p]) = token → w' = displayWidth p → wrap_inv limit (tokens ++ [token]) (rows ++ ps, p, w').
Proof using Type.
  intros (prows & pcur & [= -> Ec] & _ & Hrows & Hcur & E) ps _ Hps <- ->. symmetry in Ec.
  apply (join_empty pcur (proj1 Hcur)) in Ec as ->. rewrite app_nil_r in E.
  apply Forall_app in Hps as [Hps Hp]. apply Forall_cons in Hp as [[Hp0 Hp] _].
  exists (prows ++ ((λ q, [q]) <$> ps)), [p]. split_and!.
  - by rewrite fmap_app, row_singles.
  - intros _. simpl. lia.
  - apply Forall_app. split; [done|]. apply Forall_fmap. eapply Forall_impl; [exact Hps|].
    intros q [Hq Hw]. split; [by repeat constructor|simpl; lia].
  - split; [by repeat constructor|simpl; lia].
  - rewrite (join_app prows), mjoin_singles, <- app_assoc, (join_app (mjoin prows)), E. by rewrite (mjoin_snoc tokens).
Qed.
Lemma wrap_inv_step limit tokens st token :
  2 <= limit → wrap_inv limit tokens st → wrap_inv limit (tokens ++ [token]) (wrap_step limit st token).
Proof.
  destruct st as [[rows cur] curW]. intros Hlim HI. unfold wrap_step.
  destruct (decide (token = [])) as [->|Htok].
  { rewrite bool_decide_true by done. destruct HI as (prows & pcur & ? & ? & ? & ? & E). exists prows, pcur.
    split_and!; [done..|]. by rewrite mjoin_snoc, app_nil_r. }
  rewrite (bool_decide_false (token = [])) by done. pose proof (wrap_inv_flush limit _ _ _ _ ltac:(lia) HI) as HF.
  destruct (Z.ltb_spec limit (displayWidth token)) as [Hlong|Hshort].
  - destruct (hardWrap_spec limit token Hlim Htok) as (Ej & Hn & Hp).
    pose proof (app_removelast_last [] Hn) as El. eapply wrap_inv_open; [exact HF|by destruct (removelast _)| | |done].
    + by rewrite <- El.
    + by rewrite <- El.
  - pose proof (wrap_inv_open _ _ _ token _ token (displayWidth token) HF [] ltac:(done)) as HO.
    rewrite app_nil_r in HO. specialize (HO ltac:(repeat constructor; done) ltac:(simpl; by rewrite app_nil_r) eq_refl).
    case_bool_decide as Hc; simpl; [done|]. destruct (Z.ltb_spec limit (curW + 1 + displayWidth token)) as [Hfull|Hroom]; simpl; [done|].
    destruct HI as (prows & pcur & [= -> ->] & HW & Hrows & [Hcur1 Hcur2] & E). simpl in HW.
    assert (pcur ≠ []) as Hpc by (intros ->; done). specialize (HW Hpc) as ->.
    exists prows, (pcur ++ [token]). split_and!.
    + simpl. unfold row. by rewrite join_snoc.
    + intros _. simpl. rewrite words_width_snoc. lia.
    + done.
    + split; [apply Forall_app; by repeat constructor|]. rewrite words_width_snoc. lia.
    + by rewrite app_assoc, mjoin_snoc, E, mjoin_snoc.
Qed.
Lemma wrap_inv_fold limit tokens : 2 <= limit → wrap_inv limit tokens (foldl (wrap_step limit) ([], [], 0) tokens).
Proof.
  intros Hlim. induction tokens as [|token tokens IH] using rev_ind.
  - exists [], []. split_and!; [done..|split; simpl; [constructor|lia]|done].
  - rewrite foldl_app. by apply wrap_inv_step.
Qed.
Lemma mjoin_split_on sep s : mjoin (split_on sep s) = strip_units (N.eqb sep) s.
Proof using Type.
  induction s as [|c s IH]; [done|]. cbn [split_on]. unfold strip_units in *. cbn [List.filter]. rewrite (N.eqb_sym sep c).
  destruct (c =? sep)%N; simpl; [done|]. rewrite <- IH. destruct (split_on sep s) as [|w l] eqn:E; [|done].
  by destruct (split_on_nonempty sep s).
Qed.
(** Wrapping keeps every unit but the spaces, and no row exceeds the width. *)
Lemma wrapToWidth_spec text width : 2 <= width →
  ∃ rows, wrapToWidth text width = row <$> rows ∧ Forall (fits width) rows ∧ mjoin (mjoin rows) = strip_units (N.eqb 32) text.
Proof.
  intros Hw. unfold wrapToWidth. rewrite Z.max_r by lia. rewrite <- mjoin_split_on.
  pose proof (wrap_inv_fold width (split_on 32 text) Hw) as HI. destruct (foldl _ _ _) as [[rows cur] w].
  destruct HI as (prows & pcur & [= -> ->] & _ & Hrows & Hcur & E). pose proof (join_empty pcur (proj1 Hcur)) as Hempty. fold (row pcur) in Hempty.
  destruct (bool_decide (row pcur ≠ []) || _) eqn:Ed.
  - exists (prows ++ [pcur]). rewrite fmap_app, mjoin_snoc. split_and!; [done| |done]. apply Forall_app. split; [done|by constructor].
  - exists prows. apply orb_false_iff in Ed as [Ed _]. apply bool_decide_eq_false, dec_stable in Ed. apply Hempty in Ed as ->.
    by rewrite app_nil_r in E.
Qed.

(** ** The rows of a speaker *)

Lemma bind_of_fmap {A B C} (f : A → list B) (g : B → C) (l : list A) : (l ≫= λ x, g <$> f x) = g <$> (l ≫= f).
Proof using Type. induction l as [|x l IH]; [done|]. by rewrite !bind_cons, fmap_app, IH. Qed.
Lemma Forall_mjoin {A} (P : A → Prop) (l : list (list A)) : Forall (Forall P) l → Forall P (mjoin l).
Proof using Type. induction 1; simpl; [constructor|]. by apply Forall_app. Qed.
Lemma Forall_mjoin_inv {A} (P : A → Prop) (l : list (list A)) : Forall P (mjoin l) → Forall (Forall P) l.
Proof using Type. induction l; simpl; [constructor|]. intros [? ?]%Forall_app. auto. Qed.
Lemma Forall_and_mix {A} (P Q : A → Prop) (l : list A) : Forall P l → Forall Q l → Forall (λ x, P x ∧ Q x) l.
Proof using Type. intros. by apply Forall_and. Qed.

(** What [attribute] gives the terminal. Every row is the colored label of the true
    speaker, one space and words; the words hold no control, format or line-breaking
    character, and the row as it is measured is no wider than the terminal, so no row
    continues on an unlabelled one; and together the rows say all of the sanitized text
    but its spaces. *)
Theorem attributed_rows speaker text depth width : displayWidth (SPEAKER_LABEL speaker) + 3 <= width →
  ∃ rows,
    attribute speaker text depth width =
      (λ words, colorize (SPEAKER_LABEL speaker ++ 32%N :: row words) (SPEAKER_ROLE speaker) depth) <$> rows ∧
    Forall (λ words, Forall (λ w, w ≠ [] ∧ clean w) words ∧ displayWidth (SPEAKER_LABEL speaker) + 1 + words_width words <= width) rows ∧
    mjoin (mjoin rows) = strip_units (N.eqb 32) (mjoin (sanitize <$> text_lines text)).
Proof.
  intros Hw. unfold attribute. set (label := SPEAKER_LABEL speaker) in *. rewrite Z.max_r by lia.
  set (available := width - displayWidth label - 1). assert (2 <= available) as Ha by (unfold available; lia).
  generalize (text_lines text) as lines. intros lines.
  assert (∃ rows, lines ≫= (λ l, wrapToWidth (sanitize l) available) = row <$> rows ∧ Forall (fits available) rows ∧
    mjoin (mjoin rows) = strip_units (N.eqb 32) (mjoin (sanitize <$> lines))) as (rows & E1 & E2 & E3).
  { induction lines as [|l lines (rows & E1 & E2 & E3)]; [by exists []|].
    destruct (wrapToWidth_spec (sanitize l) available Ha) as (r & F1 & F2 & F3). exists (r ++ rows).
    rewrite fmap_cons, bind_cons, E1, F1, fmap_app, !join_app, E3, F3. split_and!; [done|by apply Forall_app|].
    unfold strip_units. simpl. by rewrite List.filter_app. }
  exists rows. split_and!; [|clear E1|done].
  - rewrite (bind_of_fmap _ (λ piece, colorize (label ++ 32%N :: piece) (SPEAKER_ROLE speaker) depth)), E1.
    by rewrite <- list_fmap_compose.
  - assert (clean (mjoin (mjoin rows))) as Hc.
    { rewrite E3. apply strip_units_keeps, Forall_mjoin, Forall_fmap, Forall_true. intros l. apply sanitize_clean. }
    apply Forall_mjoin_inv, Forall_mjoin_inv in Hc. eapply Forall_impl; [exact (Forall_and_mix _ _ _ E2 Hc)|].
    intros words [[H1 H2] H3]. split; [by apply Forall_and_mix|]. unfold available in H2. lia.
Qed.

(** ** The rows of a field *)

Definition field_inv (budget0 budgetN : Z) (onFirst : bool) (done : list jsstr) (st : list (jsstr * Z) * jsstr * Z * bool) : Prop :=
  ∃ runs cur, done = mjoin runs ++ cur ∧
    st = ((λ r, (flat r, width_sum r)) <$> runs, flat cur, width_sum cur, onFirst && bool_decide (runs = [])) ∧
    Forall (λ r, r ≠ []) runs ∧ (done ≠ [] → cur ≠ []) ∧
    ∀ i r, (runs ++ [cur]) !! i = Some r → width_sum r <= (if onFirst && (i =? 0)%nat then budget0 else budgetN).
Lemma field_inv_fold budget0 budgetN onFirst gs : 2 <= budget0 → 2 <= budgetN → Forall (λ g, g ≠ []) gs →
  field_inv budget0 budgetN onFirst gs (foldl (field_step budget0 budgetN) ([], [], 0, onFirst) gs).
Proof using Type.
  intros H0 HN Hne. induction gs as [|g gs IH] using rev_ind.
  - exists [], []. split_and!; [done|by rewrite andb_true_r|constructor|done|]. intros [|i] r; simpl; [|done]. intros [= <-]. simpl. case_match; lia.
  - apply Forall_app in Hne as [Hgs Hg]. apply Forall_cons in Hg as [Hg _]. rewrite foldl_app. cbn [foldl].
    destruct (IH Hgs) as (runs & cur & E & -> & Hr & _ & Hb). unfold field_step.
    pose proof (graphemeWidth_bounds g) as Hw. assert (mjoin cur = [] ↔ cur = []) as Hcur.
    { split; [|by intros ->]. apply mjoin_nil_inv. rewrite E in Hgs. by apply Forall_app in Hgs as [_ ?]. }
    set (limit := if onFirst && bool_decide (runs = []) then budget0 else budgetN).
    assert (∀ r, width_sum r <= limit → ∀ i x, (runs ++ [r]) !! i = Some x → width_sum x <= (if onFirst && (i =? 0)%nat then budget0 else budgetN)) as Hlast.
    { intros r Hx i x Hi. destruct (decide (i < length runs)%nat) as [Hlt|Hge].
      - apply (Hb i). rewrite lookup_app_l in Hi |- * by done. done.
      - rewrite lookup_app_r in Hi by lia. destruct (i - length runs)%nat eqn:Ei; [|by rewrite lookup_cons in Hi].
        injection Hi as <-. assert (i = length runs) as -> by lia. unfold limit in Hx. clear -Hx.
        destruct runs; [by rewrite bool_decide_true in Hx|]. by rewrite bool_decide_false in Hx. }
    destruct ((limit <? width_sum cur + graphemeWidth g) && negb (bool_decide (mjoin cur = []))) eqn:Eb.
    + apply andb_true_iff in Eb as [Hlt Hn]. apply negb_true_iff, bool_decide_eq_false in Hn.
      assert (cur ≠ []) as Hc by (intros ->; done). exists (runs ++ [cur]), [g]. split_and!.
      * rewrite E, mjoin_snoc. done.
      * rewrite fmap_app. simpl. rewrite app_nil_r, Z.add_0_r, bool_decide_false; [by rewrite andb_false_r|by destruct runs].
      * apply Forall_app. by repeat constructor.
      * done.
      * intros i r Hi. destruct (decide (i < length (runs ++ [cur]))%nat) as [Hlt'|Hge]; [rewrite lookup_app_l in Hi by done; eauto|].
        rewrite lookup_app_r in Hi by lia. rewrite length_app in Hge. simpl in Hge.
        destruct (i - _)%nat; [|by rewrite lookup_cons in Hi]. injection Hi as <-. simpl. repeat case_match; lia.
    + exists runs, (cur ++ [g]). split_and!; [by rewrite E, <- app_assoc| |done|by destruct cur|].
      * rewrite width_sum_app, mjoin_snoc. simpl. by rewrite Z.add_0_r.
      * apply Hlast. rewrite width_sum_app. simpl. apply andb_false_iff in Eb as [Hle%Z.ltb_ge|Hn]; [lia|].
        apply negb_false_iff, bool_decide_eq_true, Hcur in Hn as ->. unfold limit. simpl. case_match; lia.
Qed.
Lemma field_pieces_spec budget0 budgetN onFirst value : 2 <= budget0 → 2 <= budgetN →
  ∃ p ps, field_pieces budget0 budgetN onFirst value = (λ p, (p, displayWidth p)) <$> (p :: ps) ∧ mjoin (p :: ps) = value ∧
    (value ≠ [] → Forall (λ q, q ≠ []) (p :: ps)) ∧
    displayWidth p <= (if onFirst then budget0 else budgetN) ∧ Forall (λ q, q ≠ [] ∧ displayWidth q <= budgetN) ps.
Proof.
  intros H0 HN. unfold field_pieces. pose proof (clusters_nonempty value) as Hne. pose proof (graphemes_text value) as Ev.
  destruct (field_inv_fold budget0 budgetN onFirst (graphemes value) H0 HN Hne) as (runs & cur & E & -> & Hr & Hcur & Hb).
  assert (∀ a r b, runs ++ [cur] = a ++ r :: b → displayWidth (mjoin r) = width_sum r) as Hd.
  { intros a r b Er. apply (displayWidth_run value (mjoin a) r (mjoin b)).
    rewrite E, <- mjoin_snoc, Er, join_app. done. }
  assert ((λ p, (p, displayWidth p)) <$> (flat <$> runs ++ [cur]) = ((λ r, (flat r, width_sum r)) <$> runs) ++ [(flat cur, width_sum cur)]) as Ef.
  { replace (((λ r, (flat r, width_sum r)) <$> runs) ++ [(flat cur, width_sum cur)]) with ((λ r, (flat r, width_sum r)) <$> (runs ++ [cur])) by by rewrite fmap_app.
    rewrite <- list_fmap_compose. apply list_fmap_ext. intros i r Hi. apply take_drop_middle in Hi as Hi'. unfold compose. f_equal. symmetry in Hi'. by eapply Hd. }
  assert (mjoin (flat <$> runs ++ [cur]) = value) as Ejoin.
  { rewrite <- Ev, E, <- mjoin_snoc. generalize (runs ++ [cur]) as l. clear. induction l as [|r l IH]; [done|].
    rewrite fmap_cons. simpl. rewrite join_app. f_equal. exact IH. }
  assert (value ≠ [] → Forall (λ q, q ≠ []) (flat <$> runs ++ [cur])) as Hall.
  { intros Hv. assert (graphemes value ≠ []) as Hg by (intros Eg; rewrite Eg in Ev; by destruct Hv).
    apply Forall_fmap, Forall_forall. intros r Hin Hz. unfold compose in Hz.
    assert (Forall (λ g, g ≠ []) r) as Hrn.
    { apply list_elem_of_split in Hin as (l & k & El). rewrite E, <- mjoin_snoc, El, join_app in Hne.
      apply Forall_app in Hne as [_ Hne]. simpl in Hne. by apply Forall_app in Hne as [? _]. }
    apply mjoin_nil_inv in Hz as ->; [|done]. apply elem_of_app in Hin as [Hin|Hin].
    - by eapply (proj1 (Forall_forall _ _) Hr).
    - apply list_elem_of_singleton in Hin. by apply Hcur. }
  assert (runs ≠ [] → value ≠ []) as Hv.
  { intros Hn ->. destruct Hr as [|r runs Hr0 _]; [done|]. apply mjoin_nil_inv in Ev; [|done].
    rewrite Ev in E. simpl in E. destruct r; [done|]. simpl in E. done. }
  rewrite <- Ef. destruct (runs ++ [cur]) as [|r0 rs] eqn:Er; [by destruct runs|].
  exists (flat r0), (flat <$> rs). split_and!; [done..| |].
  - rewrite (Hd [] r0 rs) by done. specialize (Hb 0%nat r0 eq_refl). by rewrite andb_true_r in Hb.
  - destruct (decide (runs = [])) as [->|Hn]; [by injection Er as _ <-|].
    specialize (Hall (Hv Hn)). rewrite fmap_cons in Hall. apply Forall_cons in Hall as [_ Hall].
    apply Forall_fmap, Forall_forall. intros r Hin. unfold compose. split; [by eapply (proj1 (Forall_forall _ _) Hall), list_elem_of_fmap_2|].
    apply list_elem_of_lookup in Hin as [i Hi]. apply list_elem_of_split_length in Hi as (l & k & El & _).
    rewrite (Hd (r0 :: l) r k) by by rewrite El. specialize (Hb (S (length l)) r). rewrite andb_false_r in Hb. apply Hb.
    rewrite El. simpl. by rewrite list_lookup_middle.
Qed.

(** Once past the first row, its budget is not used. *)
Lemma field_pieces_off b b' budgetN value : field_pieces b budgetN false value = field_pieces b' budgetN false value.
Proof using Type.
  unfold field_pieces. assert (∀ gs pieces cur w, foldl (field_step b budgetN) (pieces, cur, w, false) gs = foldl (field_step b' budgetN) (pieces, cur, w, false) gs) as ->; [|done].
  intros gs. induction gs as [|g gs IH]; intros pieces cur w; [done|]. simpl. case_match; apply IH.
Qed.
(** The rows of a field without a flag. The value is divided over the rows exactly; the
    first row is the prefix with the first part, every other row is indented, and none is
    wider than the terminal, when the prefix leaves room for a wide cluster or for none at
    all (then the prefix has a row of its own). *)
Theorem field_rows_fit f width :
  fl_suffix f = None → 1 <= fl_indent f → fl_indent f + 2 <= width → 0 <= fl_prefixWidth f →
  fl_prefixWidth f + 2 <= width ∨ width <= fl_prefixWidth f →
  ∃ first rest,
    layoutField f width = (fl_prefix f ++ first) :: ((λ p, pad (fl_indent f) ++ p) <$> rest) ∧
    mjoin (first :: rest) = fl_value f ∧
    (fl_prefixWidth f + displayWidth first <= width ∨ first = []) ∧
    Forall (λ p, p ≠ [] ∧ fl_indent f + displayWidth p <= width) rest.
Proof.
  intros Hs Hi Hw Hp Hroom. unfold layoutField. rewrite Hs. cbn [with_suffix].
  rewrite (Z.max_r 1 width), (Z.max_r 1 (fl_indent f)), (Z.max_r 1 (width - fl_indent f)) by lia.
  destruct (Z.ltb_spec (width - fl_prefixWidth f) 1) as [Ho|Ho]; cbn [negb].
  - rewrite (field_pieces_off _ 2).
    destruct (field_pieces_spec 2 (width - fl_indent f) false (fl_value f)) as (p & ps & -> & Ej & Hne & H0 & HN); [lia..|].
    rewrite <- list_fmap_compose. unfold compose. rewrite list_fmap_id.
    exists [], (List.filter (λ p, negb (bool_decide (p = []))) (p :: ps)).
    assert (Forall (λ q, q ≠ [] → fl_indent f + displayWidth q <= width) (p :: ps)) as Hfit.
    { constructor; [lia|]. eapply Forall_impl; [exact HN|]. intros q [? ?]. lia. }
    split_and!; [by rewrite app_nil_r| |by right|].
    + rewrite <- Ej. destruct (decide (fl_value f = [])) as [Hv|Hv].
      * rewrite Hv in Ej. simpl in Ej. apply app_eq_nil in Ej as [-> Hps]. apply mjoin_nil_inv in Hps as ->; [done|].
        eapply Forall_impl; [exact HN|]. by intros q [? _].
      * rewrite list_filter_all; [done|]. eapply Forall_impl; [exact (Hne Hv)|]. intros q ?. by rewrite bool_decide_false.
    + apply Forall_forall. intros q Hq. apply list_elem_of_In in Hq. apply filter_In in Hq as [Hq Hn].
      apply negb_true_iff, bool_decide_eq_false in Hn. split; [done|].
      by apply (proj1 (Forall_forall _ _) Hfit q); [apply list_elem_of_In|].
  - rewrite Z.max_r by lia.
    destruct (field_pieces_spec (width - fl_prefixWidth f) (width - fl_indent f) true (fl_value f)) as (p & ps & -> & Ej & Hne & H0 & HN); [lia..|].
    rewrite <- list_fmap_compose. unfold compose. rewrite list_fmap_id. exists p, ps. split_and!; [done..|left; lia|].
    eapply Forall_impl; [exact HN|]. intros q [? ?]. split; [done|lia].
Qed.
End exact.

(** No row but the first starts flush left, whatever the widths and the flag. *)
Definition indented (r : jsstr) : Prop := head r = Some 32%N.
Lemma pad_indented n s : 1 <= n → indented (pad n ++ s).
Proof. intros Hn. unfold pad, indented. destruct (Z.to_nat n) eqn:E; [lia|done]. Qed.
Lemma with_suffix_indented width contPad lastW suffix r rows : (∀ s, indented (contPad ++ s)) → Forall indented rows →
  ∃ r' rows', with_suffix width contPad lastW suffix (r :: rows) = (r ++ r') :: rows' ∧ Forall indented rows'.
Proof.
  intros Hc Hr. unfold with_suffix. destruct suffix as [[text w]|]; [|exists [], rows; by rewrite app_nil_r].
  case_match; [|exists [], (rows ++ [contPad ++ text]); rewrite app_nil_r; split; [done|apply Forall_app; by repeat constructor]].
  destruct rows as [|q rows] using rev_ind; [by exists (32%N :: text), []|]. clear IHrows.
  exists [], (rows ++ [q ++ 32%N :: text]). rewrite app_comm_cons, removelast_last, last_last, app_nil_r. split; [done|].
  apply Forall_app in Hr as [? Hq]. apply Forall_app. split; [done|]. apply Forall_cons in Hq as [Hq _].
  constructor; [|constructor]. unfold indented in *. by destruct q.
Qed.
Lemma field_continues_indented {Seg : Segmenter} f width : ∃ first rest,
  layoutField f width = (fl_prefix f ++ first) :: rest ∧ Forall indented rest.
Proof.
  unfold layoutField. set (indent := Z.max 1 (fl_indent f)).
  assert (∀ s, indented (pad indent ++ s)) as Hc by (intros s; apply pad_indented; lia).
  assert (∀ l, Forall indented ((λ p, pad indent ++ p) <$> l)) as Hl by (intros l; apply Forall_fmap, Forall_true; apply Hc).
  case_match.
  - match goal with |- context [with_suffix ?w _ ?lastW ?flag (?r :: ?rows)] =>
      destruct (with_suffix_indented w (pad indent) lastW flag r rows Hc (Hl _)) as (r' & rows' & E & Hr) end.
    rewrite E. eauto.
  - destruct (field_pieces _ _ _ _) as [|[p w] ps] eqn:E.
    { unfold field_pieces in E. destruct (foldl _ _ _) as [[[pieces cur] cw] b]. by destruct pieces. }
    rewrite fmap_cons. cbn [fst].
    match goal with |- context [with_suffix ?w _ ?lastW ?flag (?r :: ?rows)] =>
      destruct (with_suffix_indented w (pad indent) lastW flag r rows Hc (Hl _)) as (r' & rows' & E' & Hr) end.
    rewrite E', <- app_assoc. eauto.
Qed.

(** ** Untrusted values *)

Lemma re_strip_keeps (P : N → Prop) r n s : Forall P s → Forall P (re_strip r n s).
Proof.
  revert s. induction n as [|n IH]; intros s Hs; [done|]. destruct s as [|c s]; [done|]. cbn [re_strip].
  apply Forall_cons in Hs as Hcs. destruct Hcs as [Hc Hs']. case_match eqn:E; [|by constructor; [|apply IH]].
  case_match; [|by constructor; [|apply IH]]. apply IH. apply re_match_sound in E as (a & b & Es & _ & [= ->]).
  rewrite Es in Hs. by apply Forall_app in Hs as [_ ?].
Qed.
Lemma sanitize_units s : units s → units (sanitize s).
Proof. intros Hs. unfold sanitize, strip_ansi. do 3 apply strip_units_keeps. by apply re_strip_keeps. Qed.
Lemma clamp_units s max : units s → units (clamp s max).
Proof.
  intros Hs. unfold clamp. case_match; [|done]. apply Forall_app. split; [by apply Forall_take|].
  constructor; [by_compute|constructor].
Qed.

(** How an untrusted text is shown. Whatever follows it on the row, a reader of the
    quoted token finds where it ends, and what it denotes is the sanitized text cut at the
    bound; when neither flag is raised this is the text itself and holds no separator of
    the chrome. *)
Theorem untrusted_exact s max rest (shown := renderUntrusted (JStr s) max) : units s →
  unquote (drop 1 (rd_text shown ++ rest)) = Some (clamp (sanitize s) max, rest) ∧
  (rd_altered shown = false → rd_truncated shown = false → clamp (sanitize s) max = s ∧ CHROME_SEPARATOR ∉ s).
Proof.
  intros Hs. unfold shown, renderUntrusted. cbn [rd_text rd_altered rd_truncated]. split.
  - by apply unquote_quote, clamp_units, sanitize_units.
  - intros [Ha%negb_false_iff%bool_decide_eq_true Hc]%orb_false_iff Ht%negb_false_iff%bool_decide_eq_true.
    rewrite Ht, Ha in *. split; [done|]. intros Hin. apply list_elem_of_In in Hin.
    assert (existsb (N.eqb CHROME_SEPARATOR) s = true) as He by (apply existsb_exists; exists CHROME_SEPARATOR; split; [done|apply N.eqb_refl]).
    congruence.
Qed.

(** ** The code-point fallback obeys the laws *)

Lemma code_points_two c d s :
  string_points (c :: d :: s) = if is_high c && is_low d then [c; d] :: string_points s else [c] :: string_points (d :: s).
Proof. change (string_points (c :: d :: s)) with (if is_high c then if is_low d then [c; d] :: string_points s else [c] :: string_points (d :: s) else [c] :: string_points (d :: s)). by destruct (is_high c), (is_low d). Qed.
Lemma code_points_one c : string_points [c] = [[c]].
Proof. simpl. by destruct (is_high c). Qed.
Lemma code_points_text s : mjoin (string_points s) = s.
Proof.
  induction s as [|c|c d s IH IHd] using jsstr_ind2; [done|by rewrite code_points_one|].
  rewrite code_points_two. case_match; simpl; [by rewrite IH|f_equal; exact IHd].
Qed.
(** The first code point and the others, which are the code points of what is left. *)
Lemma code_points_cons s g l : string_points s = g :: l →
  s = g ++ mjoin l ∧ string_points (mjoin l) = l ∧
  ∃ c, (g = [c] ∧ (is_high c = true → match mjoin l with d :: _ => is_low d = false | [] => True end)) ∨
       (∃ d, g = [c; d] ∧ is_high c = true ∧ is_low d = true).
Proof.
  destruct s as [|c [|d s]]; [done|rewrite code_points_one; intros [= <- <-]; split_and!; [done..|exists c; by left]|].
  rewrite code_points_two. pose proof (code_points_text s) as Es. pose proof (code_points_text (d :: s)) as Eds.
  remember (string_points s) as k eqn:Ek. remember (string_points (d :: s)) as k' eqn:Ek'.
  destruct (is_high c && is_low d) eqn:Hcd; intros [= <- <-]; rewrite ?Es, ?Eds; (split_and!; [done..|exists c]).
  - right. exists d. by apply andb_true_iff in Hcd.
  - left. split; [done|]. intros Hc. by rewrite Hc in Hcd.
Qed.
Lemma code_points_prefix b : ∀ s c, string_points s = b ++ c → string_points (mjoin b) = b.
Proof.
  induction b as [|g b IH]; intros s k E; [done|]. cbn [app] in E.
  apply code_points_cons in E as (-> & El & c & [[-> Hc]|(d & -> & Hc & Hd)]); specialize (IH _ _ El); cbn [mjoin list_join app].
  - rewrite join_app in Hc. fold (mjoin b). destruct (mjoin b) as [|d t] eqn:Eb.
    + by rewrite code_points_one, <- IH.
    + rewrite code_points_two, IH. destruct (is_high c); [|done]. simpl in Hc. by rewrite Hc.
  - rewrite code_points_two, Hc, Hd. simpl. f_equal. exact IH.
Qed.
Lemma code_points_run s a b c : string_points s = a ++ b ++ c → string_points (mjoin b) = b.
Proof.
  revert s. induction a as [|g a IH]; intros s E; [by eapply code_points_prefix|].
  cbn [app] in E. apply code_points_cons in E as (_ & E & _). by eapply IH.
Qed.
#[export] Instance code_point_laws : SegmenterLaws code_point_segmenter.
Proof.
  split; [apply code_points_text| |apply code_points_run].
  intros s g. unfold graphemes, code_point_segmenter. induction s as [|c|c d s IH IHd] using jsstr_ind2.
  - by intros ?%not_elem_of_nil.
  - rewrite code_points_one. by intros ->%list_elem_of_singleton.
  - rewrite code_points_two. case_match; intros [->|?]%elem_of_cons; eauto.
Qed.

(** ** At concrete inputs *)

Lemma attributed_rows_witness :
  attribute (Seg := code_point_segmenter) Agent (js "Habenula says" ++ [0x2028; 27; 91; 51; 49; 109; 10]%N ++ js "granted") NoColor 20 =
    [js "agent " ++ label_mark ++ js " Habenula"; js "agent " ++ label_mark ++ js " says"; js "agent " ++ label_mark ++ js " granted"] ∧
  ∃ rows, Forall (λ words, Forall (λ w, w ≠ [] ∧ clean w) words ∧
    displayWidth (Seg := code_point_segmenter) (SPEAKER_LABEL Agent) + 1 + words_width (Seg := code_point_segmenter) words <= 20) rows ∧
    mjoin (mjoin rows) = js "Habenulasaysgranted".
Proof.
  split; [vm_compute; reflexivity|].
  destruct (attributed_rows (Seg := code_point_segmenter) Agent (js "Habenula says" ++ [0x2028; 27; 91; 51; 49; 109; 10]%N ++ js "granted") NoColor 20
    ltac:(vm_compute; discriminate)) as (rows & _ & H1 & H2).
  exists rows. split; [exact H1|]. rewrite H2. vm_compute. reflexivity.
Defined.
Definition demo_field : Field := mkField (js "    to: ") 8 (js "someone@example.com") 6 None.
Lemma field_rows_fit_witness :
  layoutField (Seg := code_point_segmenter) demo_field 16 = [js "    to: someone@"; js "      example.co"; js "      m"] ∧
  ∃ first rest, mjoin (first :: rest) = js "someone@example.com" ∧
    Forall (λ p, p ≠ [] ∧ 6 + displayWidth (Seg := code_point_segmenter) p <= 16) rest.
Proof.
  split; [vm_compute; reflexivity|].
  destruct (field_rows_fit (Seg := code_point_segmenter) demo_field 16 eq_refl) as (first & rest & _ & H1 & _ & H2);
    [vm_compute; discriminate..|left; vm_compute; discriminate|]. eauto.
Defined.
Lemma untrusted_exact_witness :
  unquote (drop 1 (rd_text (renderUntrusted (JStr (js "a]b")) 64) ++ js "]")) = Some (js "a]b", js "]").
Proof. exact (proj1 (untrusted_exact (js "a]b") 64 (js "]") ltac:(by_compute))). Defined.

(** With one column left beside the prefix, a wide first cluster overflows the row: the
    terminal wraps it to the first column of the next one. *)
Lemma wide_value_overflows :
  layoutField (Seg := code_point_segmenter) (mkField (js "    ") 4 [0x4E2D%N] 4 None) 5 = [js "    " ++ [0x4E2D%N]] ∧
  displayWidth (Seg := code_point_segmenter) (js "    " ++ [0x4E2D%N]) = 6.
Proof. split; vm_compute; reflexivity. Qed.
(** Small form variants and Tangut, two columns wide, are counted as one. *)
Lemma wide_forms_undercounted : isWide 0xFE50 = false ∧ isWide 0xA960 = false ∧ isWide 0x17000 = false.
Proof. split_and!; vm_compute; reflexivity. Qed.
