(* ===== verification/Delivery.v ===== *)
(** * The sandbox merchant: quotes and orders

    [packages/tools/src/services/mock/mock-delivery-data.ts] and [mock-delivery.ts]: the
    seeded menus, the quote that carries its price in a signed identifier, and the order
    that charges it. The spending stage reads the amount from the same identifier. *)

From S2P Require Export TextCodec JsonParse Pipeline Canonical.
Open Scope Z_scope.

(** ** The seeded merchants *)

Definition QUOTE_TTL_MS : Z := 10 * 60 * 1000.
Definition ALWAYS_DECLINES_MERCHANT : jsstr := js "declined-diner".
Definition SURGE_MERCHANT : jsstr := js "surge-sushi".
Definition SURGE_BUCKET_MS : Z := 5 * 60 * 1000.

Record MockMenuItem := mkItem { mi_id : jsstr; mi_name : jsstr; mi_priceCents : Z }.
Record MockMerchant := mkMerchant {
  mm_merchant : jsstr; mm_displayName : jsstr; mm_description : jsstr; mm_menu : list MockMenuItem;
}.
Definition em_dash : jsstr := [8212%N].
Definition MOCK_MERCHANTS : list MockMerchant :=
  [mkMerchant (js "tartine-bakery") (js "Tartine Bakery")
     (js "Bakery and cafe " ++ em_dash ++ js " pastries, loaves, and coffee.")
     [mkItem (js "sourdough-loaf") (js "Sourdough loaf") 650; mkItem (js "morning-bun") (js "Morning bun") 550;
      mkItem (js "quiche-slice") (js "Quiche slice") 700; mkItem (js "cold-brew") (js "Cold brew") 450];
   mkMerchant (js "golden-wok") (js "Golden Wok")
     (js "Chinese takeout " ++ em_dash ++ js " mains, rice, and sides.")
     [mkItem (js "kung-pao-chicken") (js "Kung pao chicken") 1150; mkItem (js "veggie-fried-rice") (js "Veggie fried rice") 850;
      mkItem (js "spring-rolls") (js "Spring rolls (4)") 550; mkItem (js "hot-and-sour-soup") (js "Hot and sour soup") 500];
   mkMerchant SURGE_MERCHANT (js "Surge Sushi")
     (js "Sushi bar " ++ em_dash ++ js " busy-hours pricing: quoted totals can carry a surge multiplier, so re-quoting may return a different price.")
     [mkItem (js "salmon-nigiri-set") (js "Salmon nigiri set") 1400; mkItem (js "tuna-roll") (js "Tuna roll") 900;
      mkItem (js "miso-soup") (js "Miso soup") 350];
   mkMerchant ALWAYS_DECLINES_MERCHANT (js "Declined Diner")
     (js "Diner (sandbox): browsing and quoting work, but every order is declined by the merchant's payment processor.")
     [mkItem (js "patty-melt") (js "Patty melt") 1050; mkItem (js "house-fries") (js "House fries") 450;
      mkItem (js "root-beer-float") (js "Root beer float") 500]].

Definition UNKNOWN_MERCHANT : jsstr := js "unknown_merchant".
Definition EMPTY_CART : jsstr := js "empty_cart".
Definition UNKNOWN_ITEM : jsstr := js "unknown_item".
Definition CART_TOO_LARGE : jsstr := js "cart_too_large".
Definition QUOTE_EXPIRED : jsstr := js "quote_expired".
Definition QUOTE_INVALID : jsstr := js "quote_invalid".
Definition MERCHANT_DECLINED : jsstr := js "merchant_declined".
Definition MAX_CART_ITEMS : nat := 50.
Definition SUMMARY_MAX_CHARS : nat := 120.

Definition find_item (menu : list MockMenuItem) (id : jsstr) : option MockMenuItem := List.find (λ m, eqs (mi_id m) id) menu.
Definition lookupMerchant (merchant : jsstr) : option MockMerchant := List.find (λ m, eqs (mm_merchant m) merchant) MOCK_MERCHANTS.

(** ** The line that names the cart *)

(** [counts.set(id, (counts.get(id) ?? 0) + 1)] over the items, in order of first occurrence. *)
Fixpoint count_one (id : jsstr) (counts : list (jsstr * N)) : list (jsstr * N) :=
  match counts with
  | [] => [(id, 1%N)]
  | (k, n) :: counts => if eqs k id then (k, (n + 1)%N) :: counts else (k, n) :: count_one id counts
  end.
Definition summary_part (menu : list MockMenuItem) (entry : jsstr * N) : option jsstr :=
  item ← find_item menu (fst entry);
  Some (if (1 <? snd entry)%N then mi_name item ++ [32; 215]%N ++ dec (snd entry) else mi_name item).
Definition ellipsis : jsstr := [8230%N].
Definition cartSummary (merchant : MockMerchant) (items : list jsstr) : jsstr :=
  let counts := foldl (λ counts id, count_one id counts) [] items in
  let parts := omap (summary_part (mm_menu merchant)) counts in
  let full := mm_displayName merchant ++ js " " ++ em_dash ++ js " " ++ Json.join (js ", ") parts in
  if (SUMMARY_MAX_CHARS <? length full)%nat then take (SUMMARY_MAX_CHARS - 1) full ++ ellipsis else full.
Definition echo (value : jsstr) : jsstr := if (64 <? length value)%nat then take 64 value ++ ellipsis else value.

(** ** Prices *)

Definition surgeMultiplierPercent (nowMs : Z) : Z := if Z.even (nowMs / SURGE_BUCKET_MS) then 100 else 150.
(** [Math.round(cents * percent / 100)]. *)
Definition surged (cents percent : Z) : Z := (cents * percent + 50) / 100.

Fixpoint cart_total (menu : list MockMenuItem) (items : list json) (total : Z) : (list jsstr * Z) + jsstr :=
  match items with
  | [] => inl ([], total)
  | JStr id :: items =>
      match find_item menu id with
      | Some item =>
          match cart_total menu items (total + mi_priceCents item) with
          | inl (ids, total) => inl (id :: ids, total)
          | inr e => inr e
          end
      | None => inr (UNKNOWN_ITEM ++ js ": " ++ echo id)
      end
  | _ :: _ => inr (UNKNOWN_ITEM ++ js ": items must be menu item id strings")
  end.

Section delivery.
Context `{Platform, Catalog}.

Definition priced_cart (params : fields) (nowMs : Z) : (MockMerchant * list jsstr * Z) + jsstr :=
  let merchantName := match get (js "merchant") params with Some (JStr s) => toLowerCase s | _ => [] end in
  match lookupMerchant merchantName with
  | None => inr (UNKNOWN_MERCHANT ++ js ": " ++ (if bool_decide (merchantName = []) then js "(none)" else echo merchantName))
  | Some merchant =>
      let rawItems := match get (js "items") params with Some (JArr l) => l | _ => [] end in
      if (length rawItems =? 0)%nat then inr (EMPTY_CART ++ js ": items must name at least one menu item id")
      else if (MAX_CART_ITEMS <? length rawItems)%nat then inr (CART_TOO_LARGE ++ js ": at most 50 items per order")
      else match cart_total (mm_menu merchant) rawItems 0 with
           | inr e => inr e
           | inl (items, total) =>
               inl (merchant, items,
                    if eqs (mm_merchant merchant) SURGE_MERCHANT then surged total (surgeMultiplierPercent nowMs) else total)
           end
  end.

(** ** The signed identifier *)

Definition QUOTE_SIGNING_KEY : jsstr := js "habenula-mock-delivery-quote-v1".
Definition signPayload (payload : jsstr) : jsstr :=
  take 16 (sha256_hex (utf8 (payload ++ js "." ++ QUOTE_SIGNING_KEY))).

(** FNV-1a on 64 bits. *)
Definition fnv_step (hash byte : N) : N := (N.land (N.lxor hash byte * 0x100000001b3) 0xffffffffffffffff)%N.
Fixpoint to_hex (fuel : nat) (n : N) : jsstr :=
  match fuel with
  | O => []
  | S fuel => (if (n <? 16)%N then [] else to_hex fuel (n / 16)) ++ [hex_digit (n mod 16)]
  end.
Definition padStart (width : nat) (pad : N) (s : jsstr) : jsstr := replicate (width - length s) pad ++ s.
Definition fnv1a64Hex (input : jsstr) : jsstr :=
  padStart 16 48 (to_hex 16 (foldl fnv_step 0xcbf29ce484222325%N (utf8 input))).

Definition b64urlEncode (s : jsstr) : jsstr := b64url (utf8ToBinary s).
Definition b64urlDecode (s : jsstr) : option jsstr := atob (plain_char <$> s) ≫= utf8_decode.

Record QuotePayload := mkQuote {
  qp_merchant : jsstr; qp_summary : jsstr; qp_itemsHash : jsstr; qp_totalCents : Z; qp_expiresAt : Z; qp_nonce : jsstr;
}.
Definition quote_json (p : QuotePayload) : json :=
  JObj [(js "merchant", JStr (qp_merchant p)); (js "summary", JStr (qp_summary p)); (js "itemsHash", JStr (qp_itemsHash p));
        (js "totalCents", jint (qp_totalCents p)); (js "expiresAt", jint (qp_expiresAt p)); (js "nonce", JStr (qp_nonce p))].
Definition QUOTE_ID_PREFIX : jsstr := js "mockq_".
Definition encodeQuoteId (payload : QuotePayload) : jsstr :=
  let json := JSON_stringify (quote_json payload) in
  QUOTE_ID_PREFIX ++ b64urlEncode json ++ js "." ++ signPayload json.

Definition b64url_char (c : N) : bool := slot_char c.
Definition hex_lower (c : N) : bool := ((48 <=? c) && (c <=? 57) || (97 <=? c) && (c <=? 102))%N.
Definition splitQuoteId (quoteId : jsstr) : option (jsstr * jsstr) :=
  rest ← after_text QUOTE_ID_PREFIX quoteId;
  match split_on 46 rest with
  | [body; sig] =>
      if negb (bool_decide (body = [])) && forallb b64url_char body && (length sig =? 16)%nat && forallb hex_lower sig
      then Some (body, sig) else None
  | _ => None
  end.

Definition positive_safe (v : json) : option Z :=
  z ← as_int v; if safe_int z && (0 <? z) then Some z else None.
Definition text_member (k : string) (v : json) : option jsstr :=
  match member (js k) v with Some (JStr s) => Some s | _ => None end.
Definition read_quote (v : json) : option QuotePayload :=
  merchant ← text_member "merchant" v;
  summary ← text_member "summary" v;
  if (SUMMARY_MAX_CHARS <? length summary)%nat then None else
  itemsHash ← text_member "itemsHash" v;
  totalCents ← member (js "totalCents") v ≫= positive_safe;
  expiresAt ← member (js "expiresAt") v ≫= positive_safe;
  nonce ← text_member "nonce" v;
  Some (mkQuote merchant summary itemsHash totalCents expiresAt nonce).
Definition decodeQuotePayload (quoteId : jsstr) : option QuotePayload :=
  '(body, _) ← splitQuoteId quoteId; json ← b64urlDecode body; v ← parse_json json; read_quote v.
Definition verifyQuoteId (quoteId : jsstr) : option QuotePayload :=
  '(body, sig) ← splitQuoteId quoteId;
  json ← b64urlDecode body;
  if eqs (signPayload json) sig then decodeQuotePayload quoteId else None.

(** ** What governance reads *)

Definition text_param (k : string) (params : fields) : jsstr := match get (js k) params with Some (JStr s) => s | _ => [] end.
Definition decodeQuotedAmountCents (params : fields) : option Z :=
  qp_totalCents <$> decodeQuotePayload (text_param "quoteId" params).
Definition describeQuotedOrder (params : fields) : option jsstr :=
  qp_summary <$> decodeQuotePayload (text_param "quoteId" params).
Definition searchNoun (params : fields) : jsstr :=
  match get (js "merchant") params with Some (JStr (c :: s)) => toLowerCase (c :: s) | _ => js "all" end.
Definition merchantNoun (params : fields) : jsstr :=
  match get (js "merchant") params with Some (JStr (c :: s)) => toLowerCase (c :: s) | _ => js "invalid-merchant" end.
Definition orderNoun (params : fields) : jsstr :=
  match decodeQuotePayload (text_param "quoteId" params) with Some p => qp_merchant p | None => js "invalid-quote" end.

(** ** The executors *)

Definition refused_result (error : jsstr) : ToolExecutionResult := mkExec false None (Some error).
Definition succeeded (data : json) : ToolExecutionResult := mkExec true (Some data) None.

Definition executeMockDeliveryQuote (params : fields) : M ToolExecutionResult :=
  nowMs ← now;
  match priced_cart params nowMs with
  | inr e => mret (refused_result e)
  | inl (merchant, items, totalCents) =>
      nonce ← newUUID;
      let payload := mkQuote (mm_merchant merchant) (cartSummary merchant items)
                       (fnv1a64Hex (Json.join (js "|") (stable_sort js_lt items))) totalCents (nowMs + QUOTE_TTL_MS) nonce in
      let quoteId := encodeQuoteId payload in
      expires ← isoOf (qp_expiresAt payload);
      mret (succeeded (JObj [(js "quoteId", JStr quoteId); (js "totalCents", jint totalCents);
                           (js "expiresAt", JStr expires); (js "merchant", JStr (mm_merchant merchant))]))
  end.

Definition ORDER_ID_PREFIX : jsstr := js "mocko_".
Definition deriveOrderId (idempotencyKey quoteId : jsstr) : jsstr :=
  ORDER_ID_PREFIX ++ fnv1a64Hex (idempotencyKey ++ js ":" ++ quoteId).

Definition order_at (params : fields) (nowMs : Z) : ToolExecutionResult :=
  let quoteId := text_param "quoteId" params in
  let idempotencyKey := text_param "idempotencyKey" params in
  if bool_decide (idempotencyKey = []) then refused_result (QUOTE_INVALID ++ js ": idempotencyKey is required") else
  match verifyQuoteId quoteId with
  | None => refused_result (QUOTE_INVALID ++ js ": quote id missing, malformed, or tampered")
  | Some payload =>
      if qp_expiresAt payload <=? nowMs then refused_result (QUOTE_EXPIRED ++ js ": re-quote and re-enter the spending check")
      else if eqs (qp_merchant payload) ALWAYS_DECLINES_MERCHANT
      then refused_result (MERCHANT_DECLINED ++ js ": the merchant's payment processor declined the order")
      else succeeded (JObj [(js "orderId", JStr (deriveOrderId idempotencyKey quoteId));
                          (js "chargedCents", jint (qp_totalCents payload)); (js "merchant", JStr (qp_merchant payload))])
  end.
Definition executeMockDeliveryOrder (params : fields) : M ToolExecutionResult :=
  nowMs ← now; mret (order_at params nowMs).

Definition item_json (i : MockMenuItem) : json :=
  JObj [(js "id", JStr (mi_id i)); (js "name", JStr (mi_name i)); (js "priceCents", jint (mi_priceCents i))].
Definition merchant_json (m : MockMerchant) : json :=
  JObj [(js "merchant", JStr (mm_merchant m)); (js "displayName", JStr (mm_displayName m));
        (js "description", JStr (mm_description m)); (js "menu", JArr (item_json <$> mm_menu m))].
Definition executeMockDeliverySearch (params : fields) : ToolExecutionResult :=
  let filter := match get (js "merchant") params with Some (JStr (c :: s)) => Some (toLowerCase (c :: s)) | _ => None end in
  let merchants := match filter with
                   | Some ((_ :: _) as name) => List.filter (λ m, eqs (mm_merchant m) name) MOCK_MERCHANTS
                   | _ => MOCK_MERCHANTS
                   end in
  succeeded (JObj [(js "merchants", JArr (merchant_json <$> merchants))]).

(** ** The tools *)

(** [ctx.credential], when there is one. *)
Context (has_credential : Credential → bool).

Definition NO_CREDENTIAL : ToolExecutionResult := refused_result (js "No credential found for service: mock_delivery").
Definition guarded (run : M ToolExecutionResult) : M ToolExecutionResult :=
  try_catch run (λ err, mret (refused_result (js "internal_error: " ++ error_message err))).
Definition with_credential (run : fields → M ToolExecutionResult) (params : fields) (credential : Credential) : M ToolExecutionResult :=
  if has_credential credential then guarded (run params) else mret NO_CREDENTIAL.

Definition schema_text (description : jsstr) : json := JObj [(js "type", JStr (js "string")); (js "description", JStr description)].
Definition object_schema (properties : fields) (required : list jsstr) : json :=
  JObj ([(js "type", JStr (js "object")); (js "properties", JObj properties)] ++
        match required with [] => [] | _ => [(js "required", JArr (JStr <$> required))] end).

Definition MOCK_DELIVERY_SEARCH : Tool Credential :=
  mkTool (js "mock_delivery") (js "search")
    (js "Browse the mock food-delivery sandbox: seeded merchants and their menus with prices. Optionally takes a merchant id to show just that menu. No real merchants and no real money anywhere in this service.")
    [] [js "delivery.read"] None searchNoun (with_credential (λ params, mret (executeMockDeliverySearch params)))
    (object_schema [(js "merchant", schema_text (js "Merchant id to narrow to (e.g. tartine-bakery). Omit to list every merchant."))] []).
Definition MOCK_DELIVERY_QUOTE : Tool Credential :=
  mkTool (js "mock_delivery") (js "quote")
    (js "Price a cart at a mock-delivery merchant. Returns the exact total in cents, a quote id, and an expiry " ++ em_dash ++
     js " the quote BINDS the price: placing the order charges exactly this total or fails, never a re-priced amount. Quotes expire after a few minutes; an expired quote must be re-quoted. Costs nothing to call.")
    [] [js "delivery.read"] None merchantNoun (with_credential executeMockDeliveryQuote)
    (object_schema
       [(js "merchant", schema_text (js "Merchant id the cart is priced at (e.g. golden-wok)."));
        (js "items", JObj [(js "type", JStr (js "array")); (js "items", JObj [(js "type", JStr (js "string"))]);
                           (js "maxItems", jint (Z.of_nat MAX_CART_ITEMS));
                           (js "description", JStr (js "Menu item ids from this merchant's menu; repeat an id to order it more than once. At most 50 items per order."))])]
       [js "merchant"; js "items"]).
Definition MOCK_DELIVERY_ORDER : Tool Credential :=
  mkTool (js "mock_delivery") (js "order")
    (js "Place an order at a mock-delivery merchant by committing a quote from mock_delivery_quote. THIS SPENDS (sandbox) MONEY: it charges exactly the quoted total, or fails " ++ em_dash ++
     js " an expired quote fails with quote_expired and must be re-quoted. Requires the quoteId and a caller-chosen idempotencyKey; retrying with the same pair returns the same order instead of charging twice.")
    [] [js "delivery.order"]
    (Some (mkToolSpend decodeQuotedAmountCents describeQuotedOrder (text_param "quoteId") (text_param "idempotencyKey")))
    orderNoun (with_credential executeMockDeliveryOrder)
    (object_schema
       [(js "quoteId", schema_text (js "The bound quote id from mock_delivery_quote (mockq_" ++ ellipsis ++ js ")."));
        (js "idempotencyKey", schema_text (js "A caller-chosen key making this order retry-safe; reuse it only to retry this exact order."))]
       [js "quoteId"; js "idempotencyKey"]).
Definition mockDelivery : list (Tool Credential) := [MOCK_DELIVERY_SEARCH; MOCK_DELIVERY_QUOTE; MOCK_DELIVERY_ORDER].
End delivery.
