(* ===== verification/DeliveryExact.v ===== *)
(** * A quote binds its price

    A minted identifier reads back as the quote it carries, so an order charges what the
    quote said and what the spending stage read, or nothing. *)

From S2P Require Export Delivery.
Open Scope Z_scope.

(** ** Facts: identifiers *)

Record good_quote (p : QuotePayload) : Prop := {
  gq_merchant : units (qp_merchant p);
  gq_summary : units (qp_summary p);
  gq_summary_length : (length (qp_summary p) ≤ SUMMARY_MAX_CHARS)%nat;
  gq_itemsHash : units (qp_itemsHash p);
  gq_total : 0 < qp_totalCents p <= max_safe;
  gq_expires : 0 < qp_expiresAt p <= max_safe;
  gq_nonce : units (qp_nonce p);
}.

Lemma quote_parsable p : good_quote p → parsable (quote_json p).
Proof.
  intros [? ? _ ? ? ? ?]. apply parsable_obj. split; [by_compute|].
  assert (∀ z, 0 < z <= max_safe → parsable (jint z)) as Hint.
  { intros z Hz. exists z. split; [done|]. unfold max_safe, exact_max in *. lia. }
  repeat (apply Forall_cons_2; [split; [apply ascii_units; by_compute|split; [reflexivity|first [assumption|by apply Hint]]]|]). constructor.
Qed.

Lemma b64url_round_trip s : well_formed s → head s ≠ Some 0xFEFF%N → b64urlDecode (b64urlEncode s) = Some s.
Proof.
  intros Hs Hb. unfold b64urlDecode, b64urlEncode, utf8ToBinary. rewrite atob_b64url by (apply utf8_bytes, Hs).
  by apply utf8_decode_encode.
Qed.
Lemma b64url_chars s : latin1 s → Forall (λ c, b64url_char c = true ∧ c ≠ 46%N) (b64url s).
Proof.
  intros Hs. rewrite b64url_digits by done. apply Forall_fmap, Forall_fmap.
  eapply Forall_impl; [apply (b64_digits_bound _ Hs)|]. intros d Hd. simpl in *.
  assert (Forall (λ n, b64url_char (url_char (b64_char n)) = true ∧ url_char (b64_char n) ≠ 46%N) (N.of_nat <$> seq 0 64)) as HF by by_compute.
  rewrite Forall_forall in HF. apply HF. apply list_elem_of_fmap. exists (N.to_nat d). split; [lia|]. apply elem_of_seq. lia.
Qed.
Lemma b64url_nonempty s : latin1 s → s ≠ [] → b64url s ≠ [].
Proof. intros Hs Hn. rewrite b64url_digits by done. by destruct s as [|a [|b [|c s]]]. Qed.

Lemma quote_text p : well_formed (JSON_stringify (quote_json p)) ↔ units (JSON_stringify (quote_json p)).
Proof. split; [by intros []|]. intros Hu. split; [done|]. apply stringify_well_text. Qed.

Lemma split_id body sig : body ≠ [] → Forall (λ c, b64url_char c = true ∧ c ≠ 46%N) body →
  length sig = 16%nat ∧ forallb hex_lower sig = true → splitQuoteId (QUOTE_ID_PREFIX ++ body ++ js "." ++ sig) = Some (body, sig).
Proof.
  intros Hn Hc [Hl Hh]. unfold splitQuoteId. rewrite after_text_app. cbn [mbind option_bind].
  change (js "." ++ sig) with (46%N :: sig). rewrite split_on_app, split_on_none.
  - rewrite bool_decide_eq_false_2, Hl, Hh by done.
    assert (forallb b64url_char body = true) as ->; [|done].
    apply forallb_forall. rewrite Forall_forall in Hc. intros c Hin. apply Hc. by apply list_elem_of_In.
  - intros Hin%list_elem_of_In. rewrite forallb_forall in Hh. by apply Hh in Hin.
  - rewrite Forall_forall in Hc. intros Hin. by destruct (Hc _ Hin).
Qed.

Section signed.
Context `{Platform, Catalog}.
(** A digest is 64 lowercase hexadecimal digits. *)
Context (digest_shape : ∀ bs, length (sha256_hex bs) = 64%nat ∧ forallb hex_lower (sha256_hex bs) = true).

Lemma sign_shape s : length (signPayload s) = 16%nat ∧ forallb hex_lower (signPayload s) = true.
Proof.
  unfold signPayload. destruct (digest_shape (utf8 (s ++ js "." ++ QUOTE_SIGNING_KEY))) as [Hl Hh].
  split; [rewrite length_take, Hl; lia|]. rewrite forallb_forall in *. intros c Hc. apply Hh.
  apply list_elem_of_In. apply list_elem_of_In in Hc. by eapply subseteq_take, Hc.
Qed.

Lemma split_encoded p : good_quote p →
  splitQuoteId (encodeQuoteId p) = Some (b64urlEncode (JSON_stringify (quote_json p)), signPayload (JSON_stringify (quote_json p))).
Proof.
  intros Hp. assert (units (JSON_stringify (quote_json p))) as Hu by by apply stringify_units, parsable_plain, quote_parsable.
  apply split_id; [|by apply b64url_chars, utf8_bytes|by apply sign_shape].
  apply b64url_nonempty; [by apply utf8_bytes|done].
Qed.

Lemma positive_safe_jint z : 0 < z <= max_safe → positive_safe (jint z) = Some z.
Proof.
  intros Hz. unfold positive_safe. rewrite as_int_jint. cbn [mbind option_bind]. unfold safe_int.
  by rewrite (proj2 (Z.leb_le _ _)), (proj2 (Z.leb_le _ _)), (proj2 (Z.ltb_lt _ _)) by (unfold max_safe in *; lia).
Qed.
Lemma read_quote_json p : good_quote p → read_quote (quote_json p) = Some p.
Proof.
  intros []. unfold read_quote, quote_json, text_member, member.
  repeat (cbn [get]; rewrite ?decide_True by done; repeat (rewrite decide_False by by vm_compute)).
  cbn [mbind option_bind]. rewrite (proj2 (Nat.ltb_ge _ _)) by done.
  rewrite !positive_safe_jint by done. by destruct p.
Qed.

(** A minted identifier is the quote it was minted for, and verifies. *)
Lemma encoded_decodes p : good_quote p → decodeQuotePayload (encodeQuoteId p) = Some p ∧ verifyQuoteId (encodeQuoteId p) = Some p.
Proof.
  intros Hp. pose proof (quote_parsable p Hp) as Hj.
  assert (b64urlDecode (b64urlEncode (JSON_stringify (quote_json p))) = Some (JSON_stringify (quote_json p))) as Hd.
  { apply b64url_round_trip; [|done]. by apply quote_text, stringify_units, parsable_plain. }
  assert (decodeQuotePayload (encodeQuoteId p) = Some p) as Hdec.
  { unfold decodeQuotePayload. rewrite split_encoded by done. cbn [mbind option_bind]. rewrite Hd. cbn [mbind option_bind].
    rewrite parse_stringify by done. by apply read_quote_json. }
  split; [done|]. unfold verifyQuoteId. rewrite split_encoded by done. cbn [mbind option_bind]. rewrite Hd. cbn [mbind option_bind].
  unfold eqs. by rewrite bool_decide_eq_true_2.
Qed.
End signed.

(** ** One quote, two identifiers *)

(** The byte order mark, in base64url. *)
Definition bom_text : jsstr := js "77u_".
Definition twin_id (p : QuotePayload) `{Platform} : jsstr :=
  let json := JSON_stringify (quote_json p) in
  QUOTE_ID_PREFIX ++ (bom_text ++ b64urlEncode json) ++ js "." ++ signPayload json.

Lemma decode_with_bom s : well_formed s → b64urlDecode (bom_text ++ b64urlEncode s) = Some s.
Proof.
  intros Hs. assert (latin1 (utf8 s)) as Hl by apply utf8_bytes, Hs. unfold b64urlDecode, b64urlEncode, utf8ToBinary.
  rewrite fmap_app, plain_b64url by done.
  change (plain_char <$> bom_text) with (b64_char <$> [59; 59; 46; 63]%N). rewrite <- fmap_app. rewrite atob_b64_char.
  - cbn [mbind option_bind]. change (b64_bytes ([59; 59; 46; 63]%N ++ b64_digits (utf8 s))) with
      (utf8_scalar 0xFEFF ++ b64_bytes (b64_digits (utf8 s))). rewrite b64_bytes_digits by done.
    unfold utf8_decode. rewrite decode_scalar by done. unfold utf8. rewrite decode_utf8_scalars by (apply scalars_values, Hs).
    simpl. f_equal. by apply units_of_scalars.
  - apply Forall_app. split; [by_compute|by apply b64_digits_bound].
  - rewrite length_app. change (length [59; 59; 46; 63]%N) with 4%nat. rewrite Nat.add_comm.
    replace 4%nat with (1 * 4)%nat by done. rewrite Nat.Div0.mod_add. apply b64_digits_length.
Qed.

(** Every minted quote also verifies under an identifier of another text: the decoder
    drops a byte order mark, so the text does not determine the quote it is signed for. *)
Theorem quote_has_two_identifiers `{Platform, Catalog}
    (digest_shape : ∀ bs, length (sha256_hex bs) = 64%nat ∧ forallb hex_lower (sha256_hex bs) = true) p :
  good_quote p → twin_id p ≠ encodeQuoteId p ∧ verifyQuoteId (encodeQuoteId p) = Some p ∧ verifyQuoteId (twin_id p) = Some p.
Proof.
  intros Hp. pose proof (quote_parsable p Hp) as Hj. set (text := JSON_stringify (quote_json p)).
  assert (well_formed text) as Hw by by apply quote_text, stringify_units, parsable_plain.
  assert (splitQuoteId (twin_id p) = Some (bom_text ++ b64urlEncode text, signPayload text)) as Hs.
  { apply split_id; [done| |by apply sign_shape]. apply Forall_app. split; [by_compute|]. by apply b64url_chars, utf8_bytes, Hw. }
  split; [|split; [by apply encoded_decodes|]].
  - unfold twin_id, encodeQuoteId. fold text. intros E%(f_equal length). rewrite !length_app in E. simpl in E. lia.
  - unfold verifyQuoteId. rewrite Hs. cbn [mbind option_bind]. rewrite decode_with_bom by done. cbn [mbind option_bind].
    unfold eqs. rewrite bool_decide_eq_true_2 by done. unfold decodeQuotePayload. rewrite Hs. cbn [mbind option_bind].
    rewrite decode_with_bom by done. cbn [mbind option_bind]. unfold text. rewrite parse_stringify by done. by apply read_quote_json.
Qed.

(** ** Facts: carts *)

(** The price of the items on a menu. *)
Definition cart_price (menu : list MockMenuItem) (items : list jsstr) : Z :=
  foldr (λ id t, match find_item menu id with Some i => mi_priceCents i + t | None => t end) 0 items.
Definition on_menu (menu : list MockMenuItem) (id : jsstr) : Prop := is_Some (find_item menu id).

Lemma cart_total_spec menu items t ids total : cart_total menu items t = inl (ids, total) →
  items = JStr <$> ids ∧ Forall (on_menu menu) ids ∧ total = t + cart_price menu ids.
Proof.
  revert t ids. induction items as [|v items IH]; intros t ids; simpl.
  - intros [= <- <-]. split_and!; [done|constructor|simpl; lia].
  - destruct v; try done. destruct (find_item menu s) as [i|] eqn:E; [|done].
    destruct (cart_total menu items _) as [[ids' total']|] eqn:Ec; [|done]. intros [= <- <-].
    apply IH in Ec as (->&Hf&->). split_and!; [done|constructor; [unfold on_menu; by rewrite E|done]|]. simpl. rewrite E. lia.
Qed.

Lemma find_item_in menu id i : find_item menu id = Some i → i ∈ menu.
Proof. intros [Hf _]%List.find_some. by apply list_elem_of_In. Qed.
Lemma lookupMerchant_in name m : lookupMerchant name = Some m → m ∈ MOCK_MERCHANTS ∧ mm_merchant m = name.
Proof.
  unfold lookupMerchant. intros [Hin He]%List.find_some. split; [by apply list_elem_of_In|]. by apply bool_decide_eq_true_1 in He.
Qed.

(** What the seeds keep to: plain names and prices between 3.50 and 14 dollars. *)
Definition seed_item_ok (i : MockMenuItem) : Prop := ascii_only (mi_name i) ∧ 350 <= mi_priceCents i <= 1400.
Definition seed_ok (m : MockMerchant) : Prop :=
  ascii_only (mm_merchant m) ∧ ascii_only (mm_displayName m) ∧ Forall seed_item_ok (mm_menu m).
Lemma seeds_ok : Forall seed_ok MOCK_MERCHANTS.
Proof. by_compute. Qed.
Lemma seed_merchant m : m ∈ MOCK_MERCHANTS → seed_ok m.
Proof. revert m. apply Forall_forall, seeds_ok. Qed.

Lemma cart_price_bounds menu ids : Forall seed_item_ok menu → Forall (on_menu menu) ids →
  350 * Z.of_nat (length ids) <= cart_price menu ids <= 1400 * Z.of_nat (length ids).
Proof.
  intros Hm Hi. induction Hi as [|id ids [i Hf] _ IH]; [done|]. simpl. rewrite Hf.
  apply find_item_in in Hf. rewrite Forall_forall in Hm. destruct (Hm _ Hf). lia.
Qed.

Lemma join_sep_units sep l : units sep → Forall units l → units (Json.join sep l).
Proof.
  intros Hs Hl. induction Hl as [|x [|y l] Hx Hl IH]; [constructor|done|].
  change (Json.join sep (x :: y :: l)) with (x ++ sep ++ Json.join sep (y :: l)). by repeat apply units_app.
Qed.
Lemma cartSummary_ok m items : m ∈ MOCK_MERCHANTS →
  units (cartSummary m items) ∧ (length (cartSummary m items) ≤ SUMMARY_MAX_CHARS)%nat.
Proof.
  intros (_&Hd&Hm)%seed_merchant. unfold cartSummary.
  set (parts := omap _ _). set (full := mm_displayName m ++ _).
  assert (Forall units parts) as Hp.
  { apply Forall_forall. intros x (e&_&He)%list_elem_of_omap. unfold summary_part in He.
    destruct (find_item _ _) as [i|] eqn:Ef; [|done]. apply find_item_in in Ef. rewrite Forall_forall in Hm.
    destruct (Hm _ Ef) as [Hn _]. injection He as <-. apply ascii_units in Hn. case_match; [|done].
    apply units_app; [done|]. do 2 (apply Forall_cons_2; [lia|]). apply ascii_units, dec_ascii. }
  assert (units full) as Hf.
  { unfold full. repeat apply units_app; [by apply ascii_units|by_compute..|]. apply join_sep_units; [by_compute|done]. }
  destruct (Nat.ltb_spec SUMMARY_MAX_CHARS (length full)); [|done]. split.
  - apply units_app; [|by_compute]. by apply Forall_take.
  - rewrite length_app, length_take. change (length ellipsis) with 1%nat. unfold SUMMARY_MAX_CHARS. lia.
Qed.

Lemma to_hex_ascii fuel n : ascii_only (to_hex fuel n).
Proof.
  revert n. induction fuel as [|fuel IH]; intros n; simpl; [constructor|]. apply Forall_app. split; [case_match; [constructor|apply IH]|].
  repeat constructor. apply hex_digit_ascii.
Qed.
Lemma fnv_ascii s : ascii_only (fnv1a64Hex s).
Proof.
  unfold fnv1a64Hex, padStart. apply Forall_app. split; [|apply to_hex_ascii]. apply Forall_forall. intros c [-> _]%elem_of_replicate. done.
Qed.

Lemma split_quote_spec id body sig : splitQuoteId id = Some (body, sig) → id = QUOTE_ID_PREFIX ++ body ++ js "." ++ sig.
Proof.
  unfold splitQuoteId. intros (rest&->%after_text_spec&E)%bind_Some. f_equal.
  destruct (split_on 46 rest) as [|a [|b [|]]] eqn:Es; try done. apply split_on_two in Es as ->.
  by destruct (_ && _); simplify_eq.
Qed.

(** ** Quote, then order *)

Section orders.
Context `{Platform, Catalog} (has_credential : Credential → bool).
Abbreviation QUOTE := (MOCK_DELIVERY_QUOTE has_credential).
Abbreviation ORDER := (MOCK_DELIVERY_ORDER has_credential).

Definition sale_price (m : MockMerchant) (items : list jsstr) (nowMs : Z) : Z :=
  let total := cart_price (mm_menu m) items in
  if eqs (mm_merchant m) SURGE_MERCHANT then surged total (surgeMultiplierPercent nowMs) else total.

Lemma priced_cart_spec params nowMs m items total : priced_cart params nowMs = inl (m, items, total) →
  m ∈ MOCK_MERCHANTS ∧ (∃ name, get (js "merchant") params = Some (JStr name) ∧ toLowerCase name = mm_merchant m) ∧
  get (js "items") params = Some (JArr (JStr <$> items)) ∧ (1 ≤ length items ≤ MAX_CART_ITEMS)%nat ∧
  Forall (on_menu (mm_menu m)) items ∧ total = sale_price m items nowMs.
Proof.
  unfold priced_cart. set (name := match get (js "merchant") params with Some (JStr s) => toLowerCase s | _ => [] end).
  destruct (lookupMerchant name) as [m'|] eqn:Em; [|done].
  destruct (Nat.eqb_spec (length (match get (js "items") params with Some (JArr l) => l | _ => [] end)) 0) as [|Hn]; [done|].
  destruct (Nat.ltb_spec MAX_CART_ITEMS (length (match get (js "items") params with Some (JArr l) => l | _ => [] end))) as [|Hl]; [done|].
  destruct (cart_total _ _ _) as [[ids t]|] eqn:Ec; [|done]. intros [= <- <- <-].
  apply lookupMerchant_in in Em as [Hin Hm]. apply cart_total_spec in Ec as (Ei&Hf&->).
  split_and!; [done| | | | |done|done].
  - destruct (get (js "merchant") params) as [[]|] eqn:E; try (exfalso; subst name; revert Hin Hm; clear;
      intros Hin Hm; assert (Forall (λ m, mm_merchant m ≠ []) MOCK_MERCHANTS) as HF by by_compute;
      rewrite Forall_forall in HF; by apply (HF _ Hin)).
    eexists. by split.
  - destruct (get (js "items") params) as [[]|]; try done. by rewrite Ei.
  - rewrite Ei, length_fmap in Hn. lia.
  - by rewrite Ei, length_fmap in Hl.
Qed.

Lemma sale_price_bounds m items nowMs : m ∈ MOCK_MERCHANTS → Forall (on_menu (mm_menu m)) items →
  (1 ≤ length items ≤ MAX_CART_ITEMS)%nat → 0 < sale_price m items nowMs <= max_safe.
Proof.
  intros (_&_&Hm)%seed_merchant Hi Hl. pose proof (cart_price_bounds _ _ Hm Hi) as Hp. unfold sale_price, MAX_CART_ITEMS, max_safe in *.
  destruct (eqs _ _); [|lia]. unfold surged, surgeMultiplierPercent.
  destruct (Z.even _); (split; [apply Z.div_str_pos; lia|apply Z.lt_le_incl, Z.div_lt_upper_bound; lia]).
Qed.

(** The runs of the two tools, with the clock reading and the identifier they take. *)
Definition minted (m : MockMerchant) (items : list jsstr) (total quoted : Z) (nonce : jsstr) : QuotePayload :=
  mkQuote (mm_merchant m) (cartSummary m items) (fnv1a64Hex (Json.join (js "|") (stable_sort js_lt items))) total
    (quoted + QUOTE_TTL_MS) nonce.
Definition minted_result (m : MockMerchant) (quote : QuotePayload) : ToolExecutionResult :=
  if Z.abs (qp_expiresAt quote) <=? 8640000000000000
  then succeeded (JObj [(js "quoteId", JStr (encodeQuoteId quote)); (js "totalCents", jint (qp_totalCents quote));
                      (js "expiresAt", JStr (toISOString (qp_expiresAt quote))); (js "merchant", JStr (mm_merchant m))])
  else refused_result (js "internal_error: " ++ error_message RangeError).
Definition quote_result (params : fields) (quoted : Z) (nonce : jsstr) : ToolExecutionResult :=
  match priced_cart params quoted with
  | inr e => refused_result e
  | inl (m, items, total) => minted_result m (minted m items total quoted nonce)
  end.
Lemma quote_run credential params w : has_credential credential = true →
  fst (tl_execute QUOTE params credential w) = Ok (quote_result params (w_clock w (w_ticks w)) (randomUUID (w_uuids w))).
Proof.
  intros Hc. cbn [tl_execute MOCK_DELIVERY_QUOTE]. unfold with_credential. rewrite Hc.
  unfold guarded, try_catch, executeMockDeliveryQuote, mbind, M_bind, now, quote_result. cbv beta iota.
  destruct (priced_cart _ _) as [[[m items] total]|e]; [|done]. unfold newUUID, isoOf. cbv beta iota. cbn [w_uuids].
  change (mkQuote _ _ _ _ _ _) with (minted m items total (w_clock w (w_ticks w)) (randomUUID (w_uuids w))).
  cbv zeta. unfold minted_result. by destruct (_ <=? _).
Qed.
Lemma order_run credential params w : has_credential credential = true →
  fst (tl_execute ORDER params credential w) = Ok (order_at params (w_clock w (w_ticks w))).
Proof. intros Hc. cbn [tl_execute MOCK_DELIVERY_ORDER]. unfold with_credential. by rewrite Hc. Qed.

Lemma cents_of_order order p : decodeQuotePayload (text_param "quoteId" order) = Some p → 0 < qp_totalCents p <= max_safe →
  centsFromSpend (tl_spend ORDER) order = Some (qp_totalCents p).
Proof.
  intros Hd Hp. unfold centsFromSpend. cbn [tl_spend MOCK_DELIVERY_ORDER ts_quotedAmountCents]. unfold decodeQuotedAmountCents.
  rewrite Hd. cbn [fmap option_fmap option_map]. unfold safe_int.
  rewrite (proj2 (Z.leb_le (- max_safe) _)), (proj2 (Z.leb_le _ max_safe)), (proj2 (Z.ltb_ge _ _)) by (unfold max_safe in *; lia). done.
Qed.
(** A quote that is read has an amount the cap can rank. *)
Lemma decoded_amount id p : decodeQuotePayload id = Some p → 0 < qp_totalCents p <= max_safe.
Proof.
  unfold decodeQuotePayload, read_quote, positive_safe, safe_int. intros E.
  repeat match goal with
  | E : (_ ≫= _) = Some _ |- _ => apply bind_Some in E as (?&?&E)
  | E : (let '(_, _) := ?x in _) = Some _ |- _ => destruct x
  | E : (if ?b then _ else _) = Some _ |- _ => destruct b eqn:?; [|done] || (destruct b eqn:?; [done|])
  end. simplify_eq. wb_bool. simpl. lia.
Qed.

(** C26: An order that succeeds was governed for what it charges: its identifier is signed,
    the amount the spending stage reads is the positive, safe amount charged, the noun is
    the merchant that is paid - never the one that declines - and the order's own name
    depends on nothing but the key and the identifier. *)
Theorem order_charges_governed credential params w r w1 :
  has_credential credential = true → tl_execute ORDER params credential w = (Ok r, w1) → ex_success r = true →
  ∃ amount body sig json,
    text_param "quoteId" params = QUOTE_ID_PREFIX ++ body ++ js "." ++ sig ∧
    b64urlDecode body = Some json ∧ signPayload json = sig ∧
    centsFromSpend (tl_spend ORDER) params = Some amount ∧ 0 < amount <= max_safe ∧
    tl_nounExtractor ORDER params ≠ ALWAYS_DECLINES_MERCHANT ∧
    r = succeeded (JObj [(js "orderId", JStr (deriveOrderId (text_param "idempotencyKey" params) (text_param "quoteId" params)));
                       (js "chargedCents", jint amount); (js "merchant", JStr (tl_nounExtractor ORDER params))]).
Proof.
  intros Hc Hrun Hsuccess. assert (fst (tl_execute ORDER params credential w) = Ok r) as E by by rewrite Hrun.
  assert (r = order_at params (w_clock w (w_ticks w))) as -> by (rewrite order_run in E by done; congruence). clear Hrun E.
  unfold order_at in *. cbv zeta in *. case_bool_decide; [done|]. set (id := text_param "quoteId" params) in *.
  destruct (verifyQuoteId id) as [p|] eqn:Hv; [|done]. destruct (_ <=? _); [done|].
  destruct (eqs (qp_merchant p) _) eqn:Hm; [done|]. apply bool_decide_eq_false_1 in Hm.
  unfold verifyQuoteId in Hv. destruct (splitQuoteId id) as [[body sig]|] eqn:Hs; [|done]. cbn [mbind option_bind] in Hv.
  destruct (b64urlDecode body) as [json|] eqn:Hj; [|done]. cbn [mbind option_bind] in Hv.
  destruct (eqs (signPayload json) sig) eqn:Hsig; [|done]. apply bool_decide_eq_true_1 in Hsig.
  pose proof (decoded_amount _ _ Hv) as Ha.
  assert (tl_nounExtractor ORDER params = qp_merchant p) as ->.
  { cbn [tl_nounExtractor MOCK_DELIVERY_ORDER]. unfold orderNoun. fold id. by rewrite Hv. }
  exists (qp_totalCents p), body, sig, json. split_and!; try done; try lia.
  - by apply split_quote_spec.
  - by apply cents_of_order.
Qed.

(** C17: A priced cart is charged as quoted. When the quote tool succeeds, the cart names
    items of one seeded merchant's menu and the total is their sum (with the surge of that
    instant); and of any order that names the identifier, governance reads that merchant as
    the noun, that total as the amount and the cart as its description, and the order
    charges exactly the total to that merchant, unless it comes after the expiry or the
    merchant declines: never another price. *)
Theorem quote_binds_price `{!PlatformLaws H}
    (digest_shape : ∀ bs, length (sha256_hex bs) = 64%nat ∧ forallb hex_lower (sha256_hex bs) = true)
    credential params w r w1 :
  has_credential credential = true → 0 <= w_clock w (w_ticks w) →
  tl_execute QUOTE params credential w = (Ok r, w1) → ex_success r = true →
  let quoted := w_clock w (w_ticks w) in
  ∃ m items quoteId expires total,
    m ∈ MOCK_MERCHANTS ∧ (∃ name, get (js "merchant") params = Some (JStr name) ∧ toLowerCase name = mm_merchant m) ∧
    get (js "items") params = Some (JArr (JStr <$> items)) ∧ Forall (on_menu (mm_menu m)) items ∧
    total = sale_price m items quoted ∧ 0 < total ∧
    r = succeeded (JObj [(js "quoteId", JStr quoteId); (js "totalCents", jint total);
                       (js "expiresAt", JStr expires); (js "merchant", JStr (mm_merchant m))]) ∧
    ∀ order, text_param "quoteId" order = quoteId →
      tl_nounExtractor ORDER order = mm_merchant m ∧
      centsFromSpend (tl_spend ORDER) order = Some total ∧
      (s ← tl_spend ORDER; ts_describe s order) = Some (cartSummary m items) ∧
      ∀ w', text_param "idempotencyKey" order ≠ [] →
        fst (tl_execute ORDER order credential w') = Ok (
          if quoted + QUOTE_TTL_MS <=? w_clock w' (w_ticks w')
          then refused_result (QUOTE_EXPIRED ++ js ": re-quote and re-enter the spending check")
          else if eqs (mm_merchant m) ALWAYS_DECLINES_MERCHANT
          then refused_result (MERCHANT_DECLINED ++ js ": the merchant's payment processor declined the order")
          else succeeded (JObj [(js "orderId", JStr (deriveOrderId (text_param "idempotencyKey" order) quoteId));
                              (js "chargedCents", jint total); (js "merchant", JStr (mm_merchant m))])).
Proof.
  intros Hc Hnow Hrun Hsuccess quoted. assert (fst (tl_execute QUOTE params credential w) = Ok r) as E by by rewrite Hrun.
  assert (r = quote_result params quoted (randomUUID (w_uuids w))) as -> by (rewrite quote_run in E by done; unfold quoted; congruence).
  clear Hrun E. unfold quote_result in *. fold quoted in Hnow.
  destruct (priced_cart params quoted) as [[[m items] total]|e] eqn:Ep; [|done].
  set (quote := minted m items total quoted (randomUUID (w_uuids w))) in *. unfold minted_result in *.
  destruct (Z.leb_spec (Z.abs (qp_expiresAt quote)) 8640000000000000) as [Hr|]; [|done].
  apply priced_cart_spec in Ep as (Hm&Hname&Hitems&Hlen&Hon&->).
  pose proof (sale_price_bounds m items quoted Hm Hon Hlen) as Htotal.
  assert (good_quote quote) as Hq.
  { destruct (seed_merchant _ Hm) as (Ha&_). destruct (cartSummary_ok m items Hm). split; cbn; try done.
    - by apply ascii_units.
    - apply ascii_units, fnv_ascii.
    - change (qp_expiresAt quote) with (quoted + QUOTE_TTL_MS) in *. unfold QUOTE_TTL_MS, max_safe in *. lia.
    - apply ascii_units, randomUUID_ascii. }
  destruct (encoded_decodes digest_shape quote Hq) as [Hd Hv].
  exists m, items, (encodeQuoteId quote), (toISOString (quoted + QUOTE_TTL_MS)), (sale_price m items quoted).
  split_and!; try done; [lia|]. intros order Ho.
  split_and!.
  - cbn [tl_nounExtractor MOCK_DELIVERY_ORDER]. unfold orderNoun. by rewrite Ho, Hd.
  - apply (cents_of_order order quote); [by rewrite Ho|done].
  - cbn [mbind option_bind tl_spend MOCK_DELIVERY_ORDER ts_describe]. unfold describeQuotedOrder. by rewrite Ho, Hd.
  - intros w' Hk. rewrite order_run by done. unfold order_at.
    rewrite bool_decide_eq_false_2, Ho, Hv by done. done.
Qed.
End orders.
