(* ===== verification/Handoff.v ===== *)
(** * The commitment handoff: snapshots, ledgers and their validation

    The records of [packages/contracts/src/workflows.ts] with the conditions their
    schemas put on them, and the validators of
    [packages/engine/src/workflows/commitment-handoff.ts]: a correspondence snapshot
    bound to the hash of its content, the index of the lines of its messages, and the
    ledger a model answers with, whose quotes must stand in the source. *)

From S2P Require Export Paging Learning.
Open Scope Z_scope.

(** ** What the validators take from libraries

    The ISO timestamp format and the issue list of [zod], and the time zone names
    [Intl.DateTimeFormat] accepts. *)

Inductive schema := Snapshot_schema | Ledger_schema.
Class HandoffEnv := {
  (** [z.iso.datetime({ offset: true })]. *)
  isoDatetime : jsstr → bool;
  (** [new Intl.DateTimeFormat("en-US", { timeZone })] does not throw. *)
  knownTimezone : jsstr → bool;
  (** The issues of a failed [safeParse]: a path and a message each. *)
  zodIssues : schema → json → list (list jsstr * jsstr);
}.

(** ** Records *)

Definition COMMITMENT_WORKFLOW_ID : jsstr := js "mail.commitment-handoff.v1".
Definition COMMITMENT_SCHEMA_VERSION : Z := 1.

(** [WORKFLOW_BOUNDS]. *)
Definition max_messages : nat := 32.
Definition max_bodyChars : Z := 12000.
Definition max_totalBodyChars : nat := Z.to_nat 96000.
Definition max_ledgerItems : nat := 12.
Definition max_evidencePerItem : nat := 6.
Definition max_quoteChars : nat := 1000.
Definition max_replyChars : nat := 1200.
Definition max_issues : nat := 64.

Record CommitmentMessage := mkCommitmentMessage {
  msg_id : jsstr; msg_threadId : jsstr; msg_subject : jsstr; msg_sender : jsstr; msg_to : jsstr;
  msg_timestamp : jsstr; msg_body : jsstr; msg_bodyHash : jsstr; msg_truncated : bool;
  msg_omittedChars : option Z;
}.
Inductive snapshot_source := Synthetic_fixture | User_supplied.
Record CommitmentSnapshot := mkCommitmentSnapshot {
  snap_snapshotId : jsstr; snap_snapshotHash : jsstr; snap_userAddress : jsstr; snap_cutoff : jsstr;
  snap_timezone : jsstr; snap_source : snapshot_source; snap_omittedMessages : option Z; snap_note : jsstr;
  snap_messages : list CommitmentMessage;
}.
Record CommitmentEvidence := mkCommitmentEvidence {
  cev_messageId : jsstr; cev_bodyHash : jsstr; cev_start : Z; cev_end : Z; cev_quote : jsstr;
}.
Inductive commitment_state := Cs_due | Cs_waiting | Cs_closed | Cs_uncertain.
Record CommitmentItem := mkCommitmentItem {
  item_itemId : jsstr; item_title : jsstr; item_owner : option jsstr; item_state : commitment_state;
  item_dueAt : option jsstr; item_changed : bool; item_evidence : list CommitmentEvidence;
  item_priorEvidence : list CommitmentEvidence; item_uncertainty : option jsstr; item_nextAction : jsstr;
  item_replyText : option jsstr;
}.
Record CommitmentLedger := mkCommitmentLedger {
  led_snapshotId : jsstr; led_snapshotHash : jsstr; led_items : list CommitmentItem;
  led_omittedMessages : option Z; led_truncatedMessageIds : list jsstr; led_limitations : list jsstr;
}.

(** ** The conditions of the schemas *)

(** [text(max, min)], [nonBlank] and the bounds of a number. *)
Definition text_between (min max : nat) (s : jsstr) : bool :=
  is_well_formed s && between min max s.
Definition nonBlank (max : nat) (s : jsstr) : bool := text_between 1 max s && negb (bool_decide (trim s = [])).
Definition int_between (lo hi z : Z) : bool := (lo <=? z) && (z <=? hi).
Definition is_alnum (c : N) : bool :=
  (is_digit c || (65 <=? c) && (c <=? 90) || (97 <=? c) && (c <=? 122))%N.
Definition identifier (s : jsstr) : bool :=
  between 1 80 s &&
  match s with
  | c :: rest => is_alnum c && forallb (λ c, is_alnum c || existsb (N.eqb c) [46; 95; 45]%N) rest
  | [] => false
  end.
(** [/^[^\s<>@]+@[^\s<>@]+\.[^\s<>@]+$/]. *)
Definition address_char (c : N) : bool := negb (is_space c || existsb (N.eqb c) [60; 62; 64]%N).
Fixpoint at_first (s : jsstr) : option (jsstr * jsstr) :=
  match s with
  | [] => None
  | c :: rest => if (c =? 64)%N then Some ([], rest) else
      '(a, b) ← at_first rest; Some (c :: a, b)
  end.
Definition bare_address (s : jsstr) : bool :=
  match at_first s with
  | Some (local, domain) =>
      (1 <=? length local)%nat && forallb address_char local && forallb address_char domain &&
      existsb (N.eqb 46) (drop 1 (take (length domain - 1) domain))
  | None => false
  end.

Section schemas.
Context `{Platform} `{HandoffEnv}.

Definition timestamp_ok (s : jsstr) : bool := isoDatetime s && bool_decide (is_Some (dateOf s)).
Definition omitted_ok (z : Z) : bool := int_between 0 100000000 z.
Definition count_omitted_ok (z : Z) : bool := int_between 0 1000000 z.

Definition message_ok (m : CommitmentMessage) : bool :=
  identifier (msg_id m) && identifier (msg_threadId m) && text_between 0 240 (msg_subject m) &&
  nonBlank 320 (msg_sender m) && text_between 0 640 (msg_to m) && timestamp_ok (msg_timestamp m) &&
  text_between 0 (Z.to_nat max_bodyChars) (msg_body m) && hash_ok (msg_bodyHash m) &&
  or_null omitted_ok (msg_omittedChars m) &&
  negb (negb (msg_truncated m) && negb (bool_decide (msg_omittedChars m = Some 0)) ||
        msg_truncated m && bool_decide (msg_omittedChars m = Some 0)).
Definition body_total (l : list CommitmentMessage) : nat := sum_list_with (λ m, length (msg_body m)) l.
Definition before_cutoff (cutoff : jsstr) (m : CommitmentMessage) : bool :=
  match dateOf (msg_timestamp m), dateOf cutoff with
  | Some t, Some c => t <=? c
  | _, _ => true
  end.
Definition snapshot_ok (s : CommitmentSnapshot) : bool :=
  identifier (snap_snapshotId s) && hash_ok (snap_snapshotHash s) &&
  text_between 3 254 (snap_userAddress s) && bare_address (snap_userAddress s) &&
  timestamp_ok (snap_cutoff s) && nonBlank 80 (snap_timezone s) &&
  or_null count_omitted_ok (snap_omittedMessages s) && text_between 0 500 (snap_note s) &&
  between 0 max_messages (snap_messages s) && forallb message_ok (snap_messages s) &&
  (body_total (snap_messages s) <=? max_totalBodyChars)%nat &&
  distinct (msg_id <$> snap_messages s) && forallb (before_cutoff (snap_cutoff s)) (snap_messages s).

Definition evidence_ok (e : CommitmentEvidence) : bool :=
  identifier (cev_messageId e) && hash_ok (cev_bodyHash e) && int_between 0 max_bodyChars (cev_start e) &&
  int_between 1 max_bodyChars (cev_end e) && text_between 1 max_quoteChars (cev_quote e) &&
  (cev_start e <? cev_end e).
Definition item_ok (i : CommitmentItem) : bool :=
  identifier (item_itemId i) && nonBlank 160 (item_title i) && or_null (nonBlank 320) (item_owner i) &&
  or_null timestamp_ok (item_dueAt i) &&
  between 1 max_evidencePerItem (item_evidence i) && forallb evidence_ok (item_evidence i) &&
  between 0 max_evidencePerItem (item_priorEvidence i) && forallb evidence_ok (item_priorEvidence i) &&
  or_null (nonBlank 500) (item_uncertainty i) && nonBlank 500 (item_nextAction i) &&
  or_null (nonBlank max_replyChars) (item_replyText i) &&
  negb (match item_state i, item_owner i with Cs_uncertain, _ | _, None => true | _, _ => false end &&
        bool_decide (item_uncertainty i = None)) &&
  negb (item_changed i && bool_decide (item_priorEvidence i = [])).
Definition ledger_ok (l : CommitmentLedger) : bool :=
  identifier (led_snapshotId l) && hash_ok (led_snapshotHash l) &&
  between 0 max_ledgerItems (led_items l) && forallb item_ok (led_items l) &&
  or_null count_omitted_ok (led_omittedMessages l) &&
  between 0 max_messages (led_truncatedMessageIds l) && forallb identifier (led_truncatedMessageIds l) &&
  between 0 12 (led_limitations l) && forallb (nonBlank 500) (led_limitations l) &&
  distinct (item_itemId <$> led_items l) && distinct (led_truncatedMessageIds l).
End schemas.

(** ** As JSON: members in the order of the schema *)

Definition snapshot_source_text (s : snapshot_source) : jsstr :=
  match s with Synthetic_fixture => js "synthetic-fixture" | User_supplied => js "user-supplied" end.
Definition commitment_state_text (s : commitment_state) : jsstr :=
  match s with Cs_due => js "due" | Cs_waiting => js "waiting" | Cs_closed => js "closed"
  | Cs_uncertain => js "uncertain" end.
Definition jint_opt (z : option Z) : json := match z with Some z => jint z | None => JNull end.

Definition commitment_message_json (m : CommitmentMessage) : json :=
  JObj [(js "id", JStr (msg_id m)); (js "threadId", JStr (msg_threadId m)); (js "subject", JStr (msg_subject m));
        (js "sender", JStr (msg_sender m)); (js "to", JStr (msg_to m)); (js "timestamp", JStr (msg_timestamp m));
        (js "body", JStr (msg_body m)); (js "bodyHash", JStr (msg_bodyHash m));
        (js "truncated", JBool (msg_truncated m)); (js "omittedChars", jint_opt (msg_omittedChars m))].
Definition snapshot_fields (s : CommitmentSnapshot) : fields :=
  [(js "workflowId", JStr COMMITMENT_WORKFLOW_ID); (js "schemaVersion", jint COMMITMENT_SCHEMA_VERSION);
   (js "snapshotId", JStr (snap_snapshotId s)); (js "snapshotHash", JStr (snap_snapshotHash s));
   (js "userAddress", JStr (snap_userAddress s)); (js "cutoff", JStr (snap_cutoff s));
   (js "timezone", JStr (snap_timezone s));
   (js "coverage", JObj [(js "scope", JStr (js "supplied-snapshot")); (js "source", JStr (snapshot_source_text (snap_source s)));
      (js "omittedMessages", jint_opt (snap_omittedMessages s)); (js "note", JStr (snap_note s))]);
   (js "messages", JArr (commitment_message_json <$> snap_messages s))].
Definition snapshot_json (s : CommitmentSnapshot) : json := JObj (snapshot_fields s).

(** ** [safeParse] *)

Definition read_commitment_message (v : json) : option CommitmentMessage :=
  strict ["id"; "threadId"; "subject"; "sender"; "to"; "timestamp"; "body"; "bodyHash"; "truncated"; "omittedChars"] v ;;
  i ← req "id" as_str v; t ← req "threadId" as_str v; u ← req "subject" as_str v; s ← req "sender" as_str v;
  o ← req "to" as_str v; d ← req "timestamp" as_str v; b ← req "body" as_str v; h ← req "bodyHash" as_str v;
  c ← req "truncated" as_bool v; n ← nullable_member "omittedChars" as_int v;
  Some (mkCommitmentMessage i t u s o d b h c n).
Definition read_snapshot (v : json) : option CommitmentSnapshot :=
  strict ["workflowId"; "schemaVersion"; "snapshotId"; "snapshotHash"; "userAddress"; "cutoff"; "timezone";
          "coverage"; "messages"] v ;;
  literal "workflowId" COMMITMENT_WORKFLOW_ID v ;;
  n ← req "schemaVersion" as_int v; guard (n = COMMITMENT_SCHEMA_VERSION) ;;
  i ← req "snapshotId" as_str v; h ← req "snapshotHash" as_str v; a ← req "userAddress" as_str v;
  c ← req "cutoff" as_str v; z ← req "timezone" as_str v;
  g ← member (js "coverage") v; strict ["scope"; "source"; "omittedMessages"; "note"] g ;;
  literal "scope" (js "supplied-snapshot") g ;;
  s ← req "source" (one_of snapshot_source_text [Synthetic_fixture; User_supplied]) g;
  o ← nullable_member "omittedMessages" as_int g; t ← req "note" as_str g;
  ms ← many "messages" read_commitment_message v;
  Some (mkCommitmentSnapshot i h a c z s o t ms).
Definition read_evidence (v : json) : option CommitmentEvidence :=
  strict ["messageId"; "bodyHash"; "start"; "end"; "quote"] v ;;
  i ← req "messageId" as_str v; h ← req "bodyHash" as_str v; s ← req "start" as_int v; e ← req "end" as_int v;
  q ← req "quote" as_str v; Some (mkCommitmentEvidence i h s e q).
Definition read_item (v : json) : option CommitmentItem :=
  strict ["itemId"; "title"; "owner"; "state"; "dueAt"; "changed"; "evidence"; "priorEvidence"; "uncertainty";
          "nextAction"; "replyText"] v ;;
  i ← req "itemId" as_str v; t ← req "title" as_str v; o ← nullable_member "owner" as_str v;
  s ← req "state" (one_of commitment_state_text [Cs_due; Cs_waiting; Cs_closed; Cs_uncertain]) v;
  d ← nullable_member "dueAt" as_str v; c ← req "changed" as_bool v;
  e ← many "evidence" read_evidence v; p ← many "priorEvidence" read_evidence v;
  u ← nullable_member "uncertainty" as_str v; n ← req "nextAction" as_str v; r ← nullable_member "replyText" as_str v;
  Some (mkCommitmentItem i t o s d c e p u n r).
Definition read_ledger (v : json) : option CommitmentLedger :=
  strict ["workflowId"; "snapshotId"; "snapshotHash"; "items"; "coverage"] v ;;
  literal "workflowId" COMMITMENT_WORKFLOW_ID v ;;
  i ← req "snapshotId" as_str v; h ← req "snapshotHash" as_str v; l ← many "items" read_item v;
  g ← member (js "coverage") v; strict ["scope"; "omittedMessages"; "truncatedMessageIds"; "limitations"] g ;;
  literal "scope" (js "supplied-snapshot") g ;;
  o ← nullable_member "omittedMessages" as_int g; t ← req "truncatedMessageIds" strings g;
  m ← req "limitations" strings g;
  Some (mkCommitmentLedger i h l o t m).

(** ** Reports *)

Record WorkflowValidationIssue := mkIssue { is_code : jsstr; is_path : jsstr; is_message : jsstr }.
(** [level] is always "contract-only" and [semanticVerified] always false. *)
Record WorkflowValidationReport := mkWorkflowReport { wv_valid : bool; wv_issues : list WorkflowValidationIssue }.
Inductive ValidationResult (A : Type) :=
  | Accepted (value : A) (r : WorkflowValidationReport)
  | Refused (r : WorkflowValidationReport).
Arguments Accepted {_} _ _.
Arguments Refused {_} _.

Definition report_of {A} (r : ValidationResult A) : WorkflowValidationReport :=
  match r with Accepted _ r | Refused r => r end.
Definition issue (code path message : string) : WorkflowValidationIssue :=
  mkIssue (js code) (js path) (js message).
Definition report (issues : list WorkflowValidationIssue) : WorkflowValidationReport :=
  mkWorkflowReport (bool_decide (issues = [])) (take max_issues issues).
Definition failure {A} (issues : list WorkflowValidationIssue) : ValidationResult A := Refused (report issues).
Definition diagnostic (value : jsstr) : jsstr :=
  let bounded := take 500 (toWellFormed value) in
  let bounded := match last bounded with
                 | Some c => if is_high c then take (length bounded - 1) bounded else bounded
                 | None => bounded
                 end in
  match bounded with [] => js "Validation failed" | _ => bounded end.
Definition schemaIssues (issues : list (list jsstr * jsstr)) : list WorkflowValidationIssue :=
  (λ '(path, message), mkIssue (js "schema") (Json.join (js ".") path) (diagnostic message)) <$> take max_issues issues.
Definition too_many (k : string) (max : nat) (raw : json) : bool :=
  match member (js k) raw with Some (JArr l) => (max <? length l)%nat | _ => false end.

(** ** Snapshots *)

Definition ZERO_HASH : jsstr := replicate 64 48%N.
Definition with_hash (h : jsstr) (s : CommitmentSnapshot) : CommitmentSnapshot :=
  mkCommitmentSnapshot (snap_snapshotId s) h (snap_userAddress s) (snap_cutoff s) (snap_timezone s)
    (snap_source s) (snap_omittedMessages s) (snap_note s) (snap_messages s).
Definition with_bodyHash (h : jsstr) (m : CommitmentMessage) : CommitmentMessage :=
  mkCommitmentMessage (msg_id m) (msg_threadId m) (msg_subject m) (msg_sender m) (msg_to m) (msg_timestamp m)
    (msg_body m) h (msg_truncated m) (msg_omittedChars m).
Definition with_messages (l : list CommitmentMessage) (s : CommitmentSnapshot) : CommitmentSnapshot :=
  mkCommitmentSnapshot (snap_snapshotId s) (snap_snapshotHash s) (snap_userAddress s) (snap_cutoff s)
    (snap_timezone s) (snap_source s) (snap_omittedMessages s) (snap_note s) l.

Section validation.
Context `{Platform} `{HandoffEnv}.

(** [None] is a throw. *)
Definition hashWorkflowText (value : jsstr) : option jsstr :=
  if is_well_formed value then Some (sha256_hex (utf8 value)) else None.
Definition parseSnapshot (raw : json) : option CommitmentSnapshot := parsed_by snapshot_ok (read_snapshot raw).
Definition parseLedger (raw : json) : option CommitmentLedger := parsed_by ledger_ok (read_ledger raw).
Definition hashCommitmentSnapshot (s : CommitmentSnapshot) : option jsstr :=
  parsed ← parseSnapshot (snapshot_json (with_hash ZERO_HASH s));
  let content := List.filter (λ kv, negb (eqs (fst kv) (js "snapshotHash"))) (snapshot_fields parsed) in
  hashWorkflowText (js "habenula:commitment-snapshot:v1" ++ [10%N] ++ JSON_stringify (JObj content)).

(** The issues of the messages whose hash is not that of their body. *)
Fixpoint body_issues (index : nat) (l : list CommitmentMessage) : option (list WorkflowValidationIssue) :=
  match l with
  | [] => Some []
  | m :: l =>
      h ← hashWorkflowText (msg_body m); rest ← body_issues (S index) l;
      Some (if eqs h (msg_bodyHash m) then rest
            else mkIssue (js "source_hash") (js "messages." ++ dec (N.of_nat index) ++ js ".bodyHash")
                   (js "Source body hash mismatch") :: rest)
  end.

Definition validateCommitmentSnapshot (raw : json) : option (ValidationResult CommitmentSnapshot) :=
  if too_many "messages" max_messages raw then
    Some (failure [issue "bounds" "messages" "Snapshot message bound exceeded"])
  else match parseSnapshot raw with
  | None => Some (failure (schemaIssues (zodIssues Snapshot_schema raw)))
  | Some snapshot =>
      let zone := if knownTimezone (snap_timezone snapshot) then []
                  else [issue "timezone" "timezone" "Unknown IANA timezone"] in
      bodies ← body_issues 0 (snap_messages snapshot);
      h ← hashCommitmentSnapshot snapshot;
      let issues := zone ++ bodies ++
        (if eqs h (snap_snapshotHash snapshot) then []
         else [issue "snapshot_hash" "snapshotHash" "Snapshot hash mismatch"]) in
      Some (match issues with [] => Accepted snapshot (report []) | _ => failure issues end)
  end.

(** The error [createCommitmentSnapshot] throws. *)
Inductive create_error := Message_bound | Schema_error | Issues (messages : jsstr) | Ill_formed.
Definition or_error {E A} (e : E) (v : option A) : A + E := match v with Some a => inl a | None => inr e end.

(** [draft] is a JSON object, given as its members. *)
Definition zero_body (m : json) : json :=
  JObj (set_field (js "bodyHash") (JStr ZERO_HASH) (match m with JObj fs => fs | _ => [] end)).
Definition hash_bodies (l : list CommitmentMessage) : option (list CommitmentMessage) :=
  mapM (λ m, h ← hashWorkflowText (msg_body m); Some (with_bodyHash h m)) l.

Definition createCommitmentSnapshot (draft : fields) : CommitmentSnapshot + create_error :=
  match get (js "messages") draft with
  | Some (JArr l) =>
      if (max_messages <? length l)%nat then inr Message_bound else
      match parseSnapshot (JObj (set_field (js "messages") (JArr (zero_body <$> l))
                                  (set_field (js "snapshotHash") (JStr ZERO_HASH) draft))) with
      | None => inr Schema_error
      | Some candidate =>
          match (ms ← hash_bodies (snap_messages candidate);
                 let candidate := with_messages ms candidate in
                 h ← hashCommitmentSnapshot candidate;
                 validateCommitmentSnapshot (snapshot_json (with_hash h candidate))) with
          | None => inr Ill_formed
          | Some (Accepted value _) => inl value
          | Some (Refused r) => inr (Issues (Json.join (js "; ") (is_message <$> wv_issues r)))
          end
      end
  | _ => inr Message_bound
  end.

(** ** The index of the lines of a source *)

Definition indexedLinesPerMessage : nat := 256.
Definition serializedBytes : Z := 128 * 1024.
Abbreviation range := (nat * nat)%type.
Record source_message := mkSourceMessage {
  sm_messageId : jsstr; sm_bodyHash : jsstr; sm_length : nat; sm_lineCount : nat; sm_lines : list range;
  sm_omittedLineCount : nat;
}.
Record CommitmentSourceIndex := mkSourceIndex {
  ix_snapshotId : jsstr; ix_snapshotHash : jsstr; ix_lineIndexComplete : bool; ix_messages : list source_message;
}.

Definition is_line_break (c : N) : bool := existsb (N.eqb c) [13; 10; 0x85; 0x2028; 0x2029]%N.
(** [append]: the count of lines and the ranges kept. *)
Definition append (start end_ : nat) (acc : nat * list range) : nat * list range :=
  (S (fst acc),
   if (length (snd acc) <? indexedLinesPerMessage)%nat then snd acc ++ [(start, end_)] else snd acc).
Fixpoint index_lines (rest : jsstr) (offset start : nat) (acc : nat * list range) : nat * list range :=
  match rest with
  | [] => append start offset acc
  | code :: rest' =>
      if is_line_break code then
        match rest' with
        | d :: rest'' =>
            if ((code =? 13) && (d =? 10))%N
            then index_lines rest'' (offset + 2) (offset + 2) (append start offset acc)
            else index_lines rest' (offset + 1) (offset + 1) (append start offset acc)
        | [] => append (offset + 1) (offset + 1) (append start offset acc)
        end
      else index_lines rest' (offset + 1) start acc
  end.
Definition index_message (m : CommitmentMessage) : source_message :=
  let '(lineCount, lines) := index_lines (msg_body m) 0 0 (O, []) in
  mkSourceMessage (msg_id m) (msg_bodyHash m) (length (msg_body m)) lineCount lines (lineCount - length lines).

Definition jnat (n : nat) : json := jint (Z.of_nat n).
Definition range_json (r : range) : json := JArr [jnat (fst r); jnat (snd r)].
Definition source_message_json (m : source_message) : json :=
  JObj [(js "messageId", JStr (sm_messageId m)); (js "bodyHash", JStr (sm_bodyHash m));
        (js "fullBody", range_json (O, sm_length m)); (js "lineCount", jnat (sm_lineCount m));
        (js "lines", JArr (range_json <$> sm_lines m)); (js "omittedLineCount", jnat (sm_omittedLineCount m))].
Definition source_index_json (ix : CommitmentSourceIndex) : json :=
  JObj [(js "schemaVersion", jint 1); (js "kind", JStr (js "source-offset-index"));
        (js "snapshotId", JStr (ix_snapshotId ix)); (js "snapshotHash", JStr (ix_snapshotHash ix));
        (js "spanUnit", JStr (js "utf16-code-units-half-open")); (js "lineBreaks", JStr (js "CRLF|CR|LF|NEL|LS|PS"));
        (js "lineLimitPerMessage", jnat indexedLinesPerMessage);
        (js "lineIndexComplete", JBool (ix_lineIndexComplete ix));
        (js "messages", JArr (source_message_json <$> ix_messages ix))].

Inductive index_error := Invalid_snapshot | Index_bound.
Definition createCommitmentSourceIndex (input : json) : CommitmentSourceIndex + index_error :=
  match validateCommitmentSnapshot input with
  | Some (Accepted snapshot _) =>
      let messages := index_message <$> snap_messages snapshot in
      let index := mkSourceIndex (snap_snapshotId snapshot) (snap_snapshotHash snapshot)
                     (forallb (λ m, (sm_omittedLineCount m =? 0)%nat) messages) messages in
      if serializedBytes <? Z.of_N (byte_length (source_index_json index)) then inr Index_bound else inl index
  | _ => inr Invalid_snapshot
  end.

(** ** Ledgers *)

Definition isSurrogateBoundary (text : jsstr) (offset : Z) : bool :=
  if (offset <=? 0) || (Z.of_nat (length text) <=? offset) then true else
  match text !! Z.to_nat (offset - 1), text !! Z.to_nat offset with
  | Some previous, Some next => negb (is_high previous && is_low next)
  | _, _ => true
  end.
Definition sorted_strings (l : list jsstr) : list jsstr := stable_sort js_lt l.
Definition equalStringSets (a b : list jsstr) : bool :=
  (length a =? length b)%nat && bool_decide (sorted_strings a = sorted_strings b).
(** [s.slice(start, end)] for offsets that are not negative. *)
Definition slice (start end_ : Z) (s : jsstr) : jsstr :=
  take (Z.to_nat end_ - Z.to_nat start) (drop (Z.to_nat start) s).
(** [new Map(entries).get(id)]: the last entry of a key stands. *)
Definition message_of (snapshot : CommitmentSnapshot) (id : jsstr) : option CommitmentMessage :=
  List.find (λ m, eqs (msg_id m) id) (rev (snap_messages snapshot)).

Definition evidence_issues (snapshot : CommitmentSnapshot) (path : jsstr) (e : CommitmentEvidence) :
    list WorkflowValidationIssue :=
  match message_of snapshot (cev_messageId e) with
  | None => [mkIssue (js "source_membership") path (js "Evidence source is not in this snapshot")]
  | Some source =>
      (if eqs (msg_bodyHash source) (cev_bodyHash e) then []
       else [mkIssue (js "evidence_hash") path (js "Evidence body hash mismatch")]) ++
      (if (Z.of_nat (length (msg_body source)) <? cev_end e) ||
          negb (isSurrogateBoundary (msg_body source) (cev_start e)) ||
          negb (isSurrogateBoundary (msg_body source) (cev_end e))
       then [mkIssue (js "span") path (js "Span exceeds the source or splits a UTF-16 surrogate pair")]
       else if eqs (slice (cev_start e) (cev_end e) (msg_body source)) (cev_quote e) then []
       else [mkIssue (js "quote") path (js "Quote is not the exact text at the supplied UTF-16 span")])
  end.
Definition field_issues (snapshot : CommitmentSnapshot) (i : nat) (field : string) (l : list CommitmentEvidence) :
    list WorkflowValidationIssue :=
  mjoin (imap (λ j e, evidence_issues snapshot
    (js "items." ++ dec (N.of_nat i) ++ js "." ++ js field ++ js "." ++ dec (N.of_nat j)) e) l).
Definition item_issues (snapshot : CommitmentSnapshot) (i : nat) (item : CommitmentItem) :
    list WorkflowValidationIssue :=
  field_issues snapshot i "evidence" (item_evidence item) ++
  field_issues snapshot i "priorEvidence" (item_priorEvidence item).
Definition truncated_ids (snapshot : CommitmentSnapshot) : list jsstr :=
  msg_id <$> List.filter msg_truncated (snap_messages snapshot).
Definition coverage_issues (snapshot : CommitmentSnapshot) (ledger : CommitmentLedger) :
    list WorkflowValidationIssue :=
  let truncated := truncated_ids snapshot in
  (if equalStringSets (led_truncatedMessageIds ledger) truncated &&
      bool_decide (led_omittedMessages ledger = snap_omittedMessages snapshot) then []
   else [issue "coverage" "coverage" "Reported omissions/truncation do not match the snapshot"]) ++
  (if (negb (bool_decide (truncated = [])) || negb (bool_decide (snap_omittedMessages snapshot = Some 0))) &&
      bool_decide (led_limitations ledger = [])
   then [issue "coverage" "coverage.limitations" "Incomplete or unknown coverage needs an explicit limitation"]
   else []).
Definition ledger_issues (snapshot : CommitmentSnapshot) (ledger : CommitmentLedger) :
    list WorkflowValidationIssue :=
  (if eqs (led_snapshotId ledger) (snap_snapshotId snapshot) && eqs (led_snapshotHash ledger) (snap_snapshotHash snapshot)
   then [] else [issue "source_binding" "snapshotHash" "Ledger is not bound to this snapshot"]) ++
  mjoin (imap (item_issues snapshot) (led_items ledger)) ++ coverage_issues snapshot ledger.

Definition under_snapshot (i : WorkflowValidationIssue) : WorkflowValidationIssue :=
  mkIssue (is_code i) (js "snapshot." ++ is_path i) (is_message i).
Definition validateCommitmentLedger (input raw : json) : option (ValidationResult CommitmentLedger) :=
  checkedInput ← validateCommitmentSnapshot input;
  match checkedInput with
  | Refused r => Some (failure (under_snapshot <$> wv_issues r))
  | Accepted snapshot _ =>
      if too_many "items" max_ledgerItems raw then
        Some (failure [issue "bounds" "items" "Ledger item bound exceeded"])
      else match parseLedger raw with
      | None => Some (failure (schemaIssues (zodIssues Ledger_schema raw)))
      | Some ledger =>
          Some (match ledger_issues snapshot ledger with
                | [] => Accepted ledger (report [])
                | issues => failure issues
                end)
      end
  end.
End validation.
