(* ===== verification/HandoffExact.v ===== *)
(** * What an accepted handoff shows

    A ledger is accepted exactly when its schema holds and every quote stands in the
    snapshot at its span; an accepted snapshot is accepted again when it is written out
    and read back; the line index is the division of a body into its lines. *)

From S2P Require Export JsonText Handoff.
Open Scope Z_scope.

(** ** What a ledger must be *)

(** The quote stands in its source at its span, and the span splits no surrogate pair. *)
Definition quoted (snapshot : CommitmentSnapshot) (e : CommitmentEvidence) : Prop :=
  ∃ m before after, m ∈ snap_messages snapshot ∧ msg_id m = cev_messageId e ∧ msg_bodyHash m = cev_bodyHash e ∧
    msg_body m = before ++ cev_quote e ++ after ∧ toWellFormed before = before ∧
    cev_start e = Z.of_nat (length before) ∧ cev_end e = cev_start e + Z.of_nat (length (cev_quote e)).

(** A ledger bound to a snapshot, every claim of it quoted, its coverage the snapshot's. *)
Record grounded (snapshot : CommitmentSnapshot) (ledger : CommitmentLedger) : Prop := {
  grounded_bound : led_snapshotId ledger = snap_snapshotId snapshot ∧ led_snapshotHash ledger = snap_snapshotHash snapshot;
  grounded_quotes : ∀ item e, item ∈ led_items ledger → e ∈ item_evidence item ++ item_priorEvidence item → quoted snapshot e;
  grounded_coverage : led_truncatedMessageIds ledger ≡ₚ truncated_ids snapshot ∧
    led_omittedMessages ledger = snap_omittedMessages snapshot;
  grounded_limits : truncated_ids snapshot ≠ [] ∨ snap_omittedMessages snapshot ≠ Some 0 → led_limitations ledger ≠ [];
}.

(** The division of a text into lines: no line holds a break, every break ends a line,
    a carriage return takes the line feed after it. *)
Definition unbroken (s : jsstr) : Prop := Forall (λ c, is_line_break c = false) s.
Inductive division : nat → jsstr → list (nat * nat) → Prop :=
  | division_last pos l : unbroken l → division pos l [(pos, (pos + length l)%nat)]
  | division_line pos l d rest spans :
      unbroken l → d = [13; 10]%N ∨ (∃ c, d = [c] ∧ is_line_break c = true ∧ (c = 13%N → head rest ≠ Some 10%N)) →
      division (pos + length l + length d) rest spans →
      division pos (l ++ d ++ rest) ((pos, (pos + length l)%nat) :: spans).

(** ** Facts: offsets *)

Lemma isSurrogateBoundary_app a b : isSurrogateBoundary (a ++ b) (Z.of_nat (length a)) = negb (cut_pair a b).
Proof.
  unfold isSurrogateBoundary, cut_pair. rewrite length_app.
  destruct (Z.leb_spec (Z.of_nat (length a)) 0) as [H|H]; simpl.
  { destruct a; [done|simpl in H; lia]. }
  destruct b as [|d b]; simpl.
  { rewrite (proj2 (Z.leb_le _ _)) by lia. by destruct (last a). }
  rewrite (proj2 (Z.leb_gt _ _)) by lia. rewrite Nat2Z.id.
  destruct (last a) as [c|] eqn:Hl; [|by apply last_None in Hl as ->].
  rewrite last_lookup in Hl. replace (Z.to_nat (Z.of_nat (length a) - 1)) with (pred (length a)) by lia.
  rewrite (lookup_app_l_Some _ _ _ _ Hl), lookup_app_r, Nat.sub_diag by lia. done.
Qed.

Lemma well_formed_true s : is_well_formed s = true ↔ toWellFormed s = s.
Proof. apply bool_decide_eq_true. Qed.

Lemma text_between_wf min max s : text_between min max s = true → toWellFormed s = s.
Proof. by intros [?%well_formed_true _]%andb_true_iff. Qed.

(** A nested conjunction of tests, taken apart. *)
Ltac tests H := repeat match type of H with andb _ _ = true => apply andb_true_iff in H as [H ?] end.

Ltac tested := repeat match goal with |- andb _ _ = true => apply andb_true_iff; split end.

(** ** Facts: sorting decides equality of bags *)

Lemma js_lt_cmp a b : js_lt a b = cmp_lt lexcmp a b.
Proof. done. Qed.

Lemma sorted_strings_perm a b : sorted_strings a = sorted_strings b ↔ a ≡ₚ b.
Proof.
  unfold sorted_strings. split; intros H.
  - by rewrite <- (stable_sort_perm js_lt a), H, stable_sort_perm.
  - assert (∀ l, no_inversion js_lt (stable_sort js_lt l)) as Hs.
    { intros l. apply stable_sort_sorted; intros *; [apply (cmp_lt_asym _ lexcmp_antisym)|].
      apply (cmp_lt_neg_trans lexcmp); eauto using lexcmp_antisym, lexcmp_trans. by intros ?? ?%lexcmp_eq. }
    eapply (StronglySorted_unique_strong _); [|apply Hs|apply Hs|by rewrite !stable_sort_perm].
    intros x y _ _ H1 H2. destruct (decide (x = y)) as [|Hne]; [done|].
    assert (js_lt y x = true) as H3; [|by rewrite H1 in H3].
    apply (cmp_lt_total lexcmp); [by intros ?? ?%lexcmp_eq|intros; apply lexcmp_antisym|done|exact H2].
Qed.

Lemma equalStringSets_perm a b : equalStringSets a b = true ↔ a ≡ₚ b.
Proof.
  unfold equalStringSets. rewrite andb_true_iff, bool_decide_eq_true, sorted_strings_perm, Nat.eqb_eq.
  split; [by intros [_ ?]|]. intros H. split; [by apply Permutation_length|done].
Qed.

(** ** Facts: quotes *)

Section facts.
Context `{Platform} `{HandoffEnv}.

Lemma message_of_Some snapshot id m :
  NoDup (msg_id <$> snap_messages snapshot) →
  message_of snapshot id = Some m ↔ m ∈ snap_messages snapshot ∧ msg_id m = id.
Proof.
  intros Hn. unfold message_of. split.
  - intros [Hin Hid%eqs_true]%find_some. rewrite <- in_rev in Hin. by apply list_elem_of_In in Hin.
  - intros [Hin <-]. destruct (List.find _ _) as [m'|] eqn:Hf.
    + apply find_some in Hf as [Hin' Hid%eqs_true]. rewrite <- in_rev in Hin'. apply list_elem_of_In in Hin'.
      f_equal. apply list_elem_of_lookup in Hin as [i Hi], Hin' as [j Hj].
      assert (i = j) as ->; [|congruence].
      eapply (NoDup_lookup (msg_id <$> snap_messages snapshot)); [done|by rewrite list_lookup_fmap, Hi|].
      rewrite list_lookup_fmap, Hj. simpl. by rewrite Hid.
    + exfalso. eapply find_none in Hf; [|rewrite <- in_rev; by apply list_elem_of_In].
      unfold eqs in Hf. by rewrite bool_decide_true in Hf.
Qed.

Lemma slice_app before q after :
  slice (Z.of_nat (length before)) (Z.of_nat (length before) + Z.of_nat (length q)) (before ++ q ++ after) = q.
Proof. unfold slice. rewrite Nat2Z.id, drop_app_length. rewrite take_app_length'; [done|lia]. Qed.

Lemma slice_split s a b :
  0 <= a → a <= b → b <= Z.of_nat (length s) →
  s = take (Z.to_nat a) s ++ slice a b s ++ drop (Z.to_nat b) s.
Proof.
  intros Ha Hab Hb. unfold slice. rewrite <- (take_drop (Z.to_nat a) s) at 1. f_equal.
  rewrite <- (take_drop (Z.to_nat b - Z.to_nat a) (drop (Z.to_nat a) s)) at 1. f_equal.
  rewrite drop_drop. f_equal. lia.
Qed.

Lemma body_well_formed snapshot m :
  snapshot_ok snapshot = true → m ∈ snap_messages snapshot → toWellFormed (msg_body m) = msg_body m.
Proof.
  intros Hs Hm. unfold snapshot_ok in Hs. tests Hs.
  match goal with H : forallb message_ok _ = true |- _ =>
    rewrite forallb_forall in H; specialize (H m (proj1 (list_elem_of_In _ _) Hm)) end.
  unfold message_ok in *. match goal with H : _ && _ = true |- _ => tests H end.
  match goal with H : text_between 0 (Z.to_nat max_bodyChars) _ = true |- _ =>
    apply andb_true_iff in H as [?%well_formed_true _] end. done.
Qed.

Lemma quote_fits m e :
  toWellFormed (msg_body m) = msg_body m → evidence_ok e = true →
  (Z.of_nat (length (msg_body m)) <? cev_end e) || negb (isSurrogateBoundary (msg_body m) (cev_start e)) ||
    negb (isSurrogateBoundary (msg_body m) (cev_end e)) = false ∧
  slice (cev_start e) (cev_end e) (msg_body m) = cev_quote e ↔
  ∃ before after, msg_body m = before ++ cev_quote e ++ after ∧ toWellFormed before = before ∧
    cev_start e = Z.of_nat (length before) ∧ cev_end e = cev_start e + Z.of_nat (length (cev_quote e)).
Proof.
  intros Hm He. unfold evidence_ok, int_between in He. tests He.
  repeat match goal with
  | H : _ && _ = true |- _ => apply andb_true_iff in H as [? ?]
  | H : (_ <=? _) = true |- _ => apply Z.leb_le in H
  | H : (_ <? _) = true |- _ => apply Z.ltb_lt in H
  | H : is_well_formed _ = true |- _ => apply well_formed_true in H
  end. split.
  - intros [[[Hl Hb]%orb_false_iff _]%orb_false_iff Hq]. apply Z.ltb_ge in Hl. apply negb_false_iff in Hb.
    exists (take (Z.to_nat (cev_start e)) (msg_body m)), (drop (Z.to_nat (cev_end e)) (msg_body m)).
    assert (msg_body m = take (Z.to_nat (cev_start e)) (msg_body m) ++ cev_quote e ++ drop (Z.to_nat (cev_end e)) (msg_body m)) as E.
    { rewrite <- Hq. apply slice_split; lia. }
    assert (length (take (Z.to_nat (cev_start e)) (msg_body m)) = Z.to_nat (cev_start e)) as El.
    { rewrite length_take. lia. }
    split_and!; [done| | |].
    + rewrite E in Hm. apply cut_well_formed in Hm as [Hc _]. apply Hc.
      apply negb_true_iff. rewrite <- isSurrogateBoundary_app, <- E, El. by rewrite Z2Nat.id by lia.
    + rewrite El. lia.
    + rewrite <- Hq. unfold slice. rewrite length_take, length_drop. lia.
  - intros (before&after&E&Hb&Hs&Hend).
    assert (slice (cev_start e) (cev_end e) (msg_body m) = cev_quote e) as Hq.
    { rewrite Hend, Hs, E. apply slice_app. }
    split; [|done]. rewrite E in Hm. apply cut_well_formed in Hm as Hcut. rewrite !orb_false_iff. split_and!.
    + apply Z.ltb_ge. rewrite E, !length_app. lia.
    + rewrite E, Hs, isSurrogateBoundary_app, negb_involutive. by apply Hcut.
    + rewrite E, app_assoc, Hend, Hs, <- Nat2Z.inj_add, <- length_app, isSurrogateBoundary_app, negb_involutive.
      apply wf_no_cut. rewrite toWellFormed_app by (by apply wf_no_cut). by erewrite Hb, text_between_wf.
Qed.

Lemma evidence_issues_nil snapshot path e :
  snapshot_ok snapshot = true → evidence_ok e = true →
  evidence_issues snapshot path e = [] ↔ quoted snapshot e.
Proof.
  intros Hs He. unfold evidence_issues, quoted.
  assert (NoDup (msg_id <$> snap_messages snapshot)) as Hn.
  { unfold snapshot_ok in Hs. tests Hs. by apply (bool_decide_eq_true _). }
  pose proof (λ id m, message_of_Some snapshot id m Hn) as Hmap.
  destruct (message_of snapshot (cev_messageId e)) as [m|] eqn:Em.
  - apply Hmap in Em as [Hm Hid]. pose proof (quote_fits m e (body_well_formed _ _ Hs Hm) He) as Hfit. split.
    + intros [Hh Hq]%app_nil. destruct (eqs (msg_bodyHash m) _) eqn:Eh; [|done]. apply eqs_true in Eh.
      destruct (_ || _) eqn:Ef in Hq; [done|]. destruct (eqs (slice _ _ _) _) eqn:Eq in Hq; [|done].
      apply eqs_true in Eq. destruct (proj1 Hfit (conj Ef Eq)) as (b&a&?&?&?&?). by exists m, b, a.
    + intros (m'&b&a&Hm'&Hid'&Hh&Hrest). assert (m' = m) as ->.
      { assert (message_of snapshot (cev_messageId e) = Some m') as E1 by by apply Hmap.
        assert (message_of snapshot (cev_messageId e) = Some m) as E2 by by apply Hmap. congruence. }
      destruct (proj2 Hfit) as [-> ->]; [by exists b, a|]. rewrite Hh.
      unfold eqs. by rewrite !bool_decide_true.
  - split; [done|]. intros (m&?&?&Hm&Hid&_). by rewrite (proj2 (Hmap _ _) (conj Hm Hid)) in Em.
Qed.

Lemma imap_join_nil {A B} (f : nat → A → list B) l :
  mjoin (imap f l) = [] ↔ ∀ i x, l !! i = Some x → f i x = [].
Proof.
  revert f. induction l as [|x l IH]; intros f; simpl; [done|]. split.
  - intros [Hx Hl]%app_nil [|i] y; [by intros [= <-]|]. by apply (proj1 (IH (f ∘ S)) Hl).
  - intros Hf. rewrite (Hf O x) by done. apply (IH (f ∘ S)). intros i y. apply (Hf (S i)).
Qed.

Lemma ledger_issues_nil snapshot ledger :
  snapshot_ok snapshot = true → ledger_ok ledger = true →
  ledger_issues snapshot ledger = [] ↔ grounded snapshot ledger.
Proof.
  intros Hs Hl. assert (∀ item e, item ∈ led_items ledger → e ∈ item_evidence item ++ item_priorEvidence item →
    evidence_ok e = true) as Hev.
  { intros item e Hi He. unfold ledger_ok in Hl. tests Hl.
    match goal with H : forallb item_ok _ = true |- _ =>
      rewrite forallb_forall in H; specialize (H item (proj1 (list_elem_of_In _ _) Hi)) end.
    unfold item_ok in *. match goal with H : _ && _ = true |- _ => tests H end.
    apply elem_of_app in He as [He|He]; apply list_elem_of_In in He;
      repeat match goal with H : forallb evidence_ok _ = true |- _ => rewrite forallb_forall in H end; auto. }
  unfold ledger_issues, coverage_issues. split.
  - intros [Hb [Hi [Hc Hlim]%app_nil]%app_nil]%app_nil.
    destruct (eqs _ _ && eqs _ _) eqn:Eb; [|done]. apply andb_true_iff in Eb as [?%eqs_true ?%eqs_true].
    destruct (equalStringSets _ _ && _) eqn:Ec; [|done].
    apply andb_true_iff in Ec as [?%equalStringSets_perm ?%bool_decide_eq_true]. split; [done| |done|].
    + intros item e Hin He. apply list_elem_of_lookup in Hin as [i Hitem]. rewrite imap_join_nil in Hi.
      apply Hi in Hitem as Hnil. apply app_nil in Hnil as [Ha Hp]. unfold field_issues in Ha, Hp.
      rewrite imap_join_nil in Ha, Hp. specialize (Hev item e (list_elem_of_lookup_2 _ _ _ Hitem) He).
      apply elem_of_app in He as [[j Hj]%list_elem_of_lookup|[j Hj]%list_elem_of_lookup];
        (eapply evidence_issues_nil; [done..|]); [apply (Ha _ _ Hj)|apply (Hp _ _ Hj)].
    + intros Hinc Hnil. rewrite (bool_decide_true (led_limitations ledger = [])), andb_true_r in Hlim by done.
      destruct (_ || _) eqn:Eo in Hlim; [done|].
      apply orb_false_iff in Eo as [E1%negb_false_iff%bool_decide_eq_true E2%negb_false_iff%bool_decide_eq_true].
      naive_solver.
  - intros [[-> ->] Hq [Hc ->] Hlim]. unfold eqs. rewrite !bool_decide_true by done. simpl.
    rewrite (proj2 (equalStringSets_perm _ _) Hc). simpl.
    assert (mjoin (imap (item_issues snapshot) (led_items ledger)) = []) as ->.
    { apply imap_join_nil. intros i item Hitem. apply list_elem_of_lookup_2 in Hitem. apply app_nil.
      split; apply imap_join_nil; intros j e Hj%list_elem_of_lookup_2;
        (apply evidence_issues_nil; [done|eapply Hev; [done|apply elem_of_app; auto]|eapply Hq; [done|apply elem_of_app; auto]]). }
    simpl. destruct (negb _ || negb _) eqn:Eo; [|done]. rewrite bool_decide_false; [done|]. apply Hlim.
    by apply orb_true_iff in Eo as [E%negb_true_iff%bool_decide_eq_false|E%negb_true_iff%bool_decide_eq_false]; [left|right].
Qed.

(** ** Facts: snapshots read back *)

Lemma read_jint_opt k z fs : get (js k) fs = Some (jint_opt z) → nullable_member k as_int (JObj fs) = Some z.
Proof.
  intros E. unfold nullable_member, req, member. rewrite E. destruct z as [z|]; [|done].
  transitivity (Some <$> as_int (jint z)); [done|]. by rewrite as_int_jint.
Qed.

Lemma read_commitment_message_json m : read_commitment_message (commitment_message_json m) = Some m.
Proof.
  destruct m as [i t u s o d b h c n]. unfold read_commitment_message, commitment_message_json.
  cbn [msg_id msg_threadId msg_subject msg_sender msg_to msg_timestamp msg_body msg_bodyHash msg_truncated msg_omittedChars].
  set (fs := [_;_;_;_;_;_;_;_;_;_]). rewrite (read_jint_opt "omittedChars" n fs) by reflexivity. reflexivity.
Qed.

Lemma read_snapshot_json s : read_snapshot (snapshot_json s) = Some s.
Proof.
  destruct s as [i h a c z src o t ms].
  set (cov := [(js "scope", JStr (js "supplied-snapshot")); (js "source", JStr (snapshot_source_text src));
               (js "omittedMessages", jint_opt o); (js "note", JStr t)]).
  transitivity (o' ← nullable_member "omittedMessages" as_int (JObj cov);
                ms' ← mapM read_commitment_message (commitment_message_json <$> ms);
                Some (mkCommitmentSnapshot i h a c z src o' t ms')); [by destruct src|].
  rewrite (read_jint_opt "omittedMessages" o) by reflexivity.
  by rewrite mapM_fmap by apply read_commitment_message_json.
Qed.

Lemma parseSnapshot_json s : parseSnapshot (snapshot_json s) = if snapshot_ok s then Some s else None.
Proof. unfold parseSnapshot. rewrite read_snapshot_json. simpl. by destruct (snapshot_ok s). Qed.

Lemma snapshot_fits s : snapshot_ok s = true → too_many "messages" max_messages (snapshot_json s) = false.
Proof.
  intros Hs. unfold snapshot_ok in Hs. tests Hs.
  match goal with H : between 0 max_messages _ = true |- _ => apply andb_true_iff in H as [_ H%Nat.leb_le] end.
  change (too_many _ _ _) with (max_messages <? length (commitment_message_json <$> snap_messages s))%nat.
  rewrite length_fmap. by apply Nat.ltb_ge.
Qed.

(** ** Facts: what acceptance tests *)

Lemma body_issues_nil i l :
  body_issues i l = Some [] ↔ Forall (λ m, hashWorkflowText (msg_body m) = Some (msg_bodyHash m)) l.
Proof.
  revert i. induction l as [|m l IH]; intros i; simpl; [by split|]. rewrite Forall_cons, <- (IH (S i)).
  destruct (hashWorkflowText (msg_body m)) as [h|]; simpl; [|naive_solver].
  destruct (body_issues (S i) l) as [rest|]; simpl; [|naive_solver].
  unfold eqs. case_bool_decide; naive_solver.
Qed.

Lemma snapshot_accepted_spec raw s r :
  validateCommitmentSnapshot raw = Some (Accepted s r) ↔
  too_many "messages" max_messages raw = false ∧ parseSnapshot raw = Some s ∧ r = report [] ∧
  knownTimezone (snap_timezone s) = true ∧
  Forall (λ m, hashWorkflowText (msg_body m) = Some (msg_bodyHash m)) (snap_messages s) ∧
  hashCommitmentSnapshot s = Some (snap_snapshotHash s).
Proof.
  unfold validateCommitmentSnapshot. destruct (too_many _ _ _); [naive_solver|].
  destruct (parseSnapshot raw) as [s'|]; [|naive_solver]. rewrite <- (body_issues_nil 0). split.
  - destruct (body_issues 0 _) as [bodies|] eqn:Eb; simpl; [|done].
    destruct (hashCommitmentSnapshot s') as [h|] eqn:Eh; simpl; [|done].
    destruct (knownTimezone _) eqn:Ez; simpl; [|done]. destruct bodies as [|]; simpl; [|done].
    destruct (eqs h _) eqn:Ee; simpl; [|done]. intros [= <- <-]. by apply eqs_true in Ee as ->.
  - intros (_&[= ->]&->&->&->&->). simpl. unfold eqs. by rewrite bool_decide_true.
Qed.

Lemma parseSnapshot_ok raw s : parseSnapshot raw = Some s → snapshot_ok s = true.
Proof.
  unfold parseSnapshot, parsed_by. destruct (read_snapshot raw) as [s'|]; simpl; [|done].
  destruct (snapshot_ok s') eqn:E; simpl; [|done]. by intros [= ->].
Qed.

(** ** Facts: the content a snapshot hash covers *)

Definition content_fields (s : CommitmentSnapshot) : fields :=
  List.filter (λ kv, negb (eqs (fst kv) (js "snapshotHash"))) (snapshot_fields s).
Definition content_text (s : CommitmentSnapshot) : jsstr :=
  js "habenula:commitment-snapshot:v1" ++ [10%N] ++ JSON_stringify (JObj (content_fields s)).

Lemma content_with_hash h s : content_fields (with_hash h s) = content_fields s.
Proof. reflexivity. Qed.

(** The members of the content, without the hash. *)
Lemma content_fields_eq s :
  content_fields s = take 3 (snapshot_fields s) ++ drop 4 (snapshot_fields s).
Proof. reflexivity. Qed.

Lemma hash_bodies_as l : Forall (λ m, toWellFormed (msg_body m) = msg_body m) l →
  hash_bodies l = Some ((λ m, with_bodyHash (sha256_hex (utf8 (msg_body m))) m) <$> l).
Proof.
  intros H1. unfold hash_bodies. apply mapM_Some_2, Forall2_fmap_r, Forall_Forall2_diag.
  eapply Forall_impl; [exact H1|]. intros m Hm. simpl. unfold hashWorkflowText. by rewrite (proj2 (well_formed_true _) Hm).
Qed.

Lemma content_text_wf s : is_well_formed (content_text s) = true.
Proof.
  apply well_formed_true. unfold content_text. apply (well_text_app (js "habenula:commitment-snapshot:v1")); [done|].
  apply (well_text_app [10%N]); [done|]. apply stringify_well_text.
Qed.

Lemma hashCommitmentSnapshot_eq s :
  snapshot_ok (with_hash ZERO_HASH s) = true → hashCommitmentSnapshot s = Some (sha256_hex (utf8 (content_text s))).
Proof.
  intros Hs. unfold hashCommitmentSnapshot. rewrite parseSnapshot_json, Hs.
  change (hashWorkflowText (content_text s) = Some (sha256_hex (utf8 (content_text s)))).
  unfold hashWorkflowText. by rewrite content_text_wf.
Qed.

Lemma snapshot_ok_rehash h s : hash_ok h = true → snapshot_ok s = true → snapshot_ok (with_hash h s) = true.
Proof. intros Hh Hs. unfold snapshot_ok in *. tests Hs. tested; assumption. Qed.

Lemma zero_hash_ok : hash_ok ZERO_HASH = true.
Proof. reflexivity. Qed.

Lemma body_total_rehash f l : body_total ((λ m, with_bodyHash (f m) m) <$> l) = body_total l.
Proof. unfold body_total. induction l as [|m l IH]; [done|]. cbn [fmap list_fmap sum_list_with]. by rewrite IH. Qed.

Lemma snapshot_ok_bodies f s :
  (∀ m, m ∈ snap_messages s → hash_ok (f m) = true) → snapshot_ok s = true →
  snapshot_ok (with_messages ((λ m, with_bodyHash (f m) m) <$> snap_messages s) s) = true.
Proof.
  intros Hf Hs. unfold snapshot_ok in *. tests Hs.
  cbn [snap_messages with_messages snap_snapshotId snap_snapshotHash snap_userAddress snap_cutoff snap_timezone
       snap_omittedMessages snap_note].
  assert (msg_id <$> ((λ m, with_bodyHash (f m) m) <$> snap_messages s) = msg_id <$> snap_messages s) as ->.
  { by rewrite <- list_fmap_compose. }
  assert (body_total ((λ m, with_bodyHash (f m) m) <$> snap_messages s) = body_total (snap_messages s)) as ->.
  { apply body_total_rehash. }
  unfold between in *. rewrite length_fmap. tested; try done;
    rewrite forallb_forall in *; intros x Hx; apply list_elem_of_In, list_elem_of_fmap in Hx as (m&->&Hm);
    apply list_elem_of_In in Hm as Hm'.
  - match goal with H : ∀ x, In x _ → message_ok x = true |- _ => specialize (H _ Hm') end.
    unfold message_ok in *. match goal with H : _ && _ = true |- _ => tests H end.
    tested; try done. by apply Hf.
  - match goal with H : ∀ x, In x _ → before_cutoff _ x = true |- _ => exact (H _ Hm') end.
Qed.

Lemma snapshot_fields_content h s :
  snapshot_fields (with_hash h s) =
  take 3 (content_fields s) ++ (js "snapshotHash", JStr h) :: drop 3 (content_fields s).
Proof. reflexivity. Qed.

Lemma content_plain s : plain (snapshot_json s) → plain (JObj (content_fields s)).
Proof.
  intros Hs. unfold snapshot_json in Hs. rewrite plain_obj in Hs. apply plain_obj.
  rewrite Forall_forall in *. intros kv Hin. apply list_elem_of_In, filter_In in Hin as [Hin _].
  apply Hs. by apply list_elem_of_In.
Qed.

Lemma content_text_unhashed s t :
  with_hash ZERO_HASH s = with_hash ZERO_HASH t → utf8 (content_text s) = utf8 (content_text t).
Proof.
  intros E. unfold content_text.
  by rewrite <- (content_with_hash ZERO_HASH s), <- (content_with_hash ZERO_HASH t), E.
Qed.

Lemma content_text_inj s t :
  plain (snapshot_json s) → plain (snapshot_json t) → content_text s = content_text t →
  with_hash ZERO_HASH s = with_hash ZERO_HASH t.
Proof.
  intros Hs Ht E. apply app_inv_head, app_inv_head in E.
  apply stringify_inj in E; auto using content_plain.
  apply (f_equal (λ v, match v with JObj fs => fs | _ => [] end)) in E.
  change (content_fields s = content_fields t) in E.
  apply (inj Some).
  rewrite <- !read_snapshot_json. unfold snapshot_json. by rewrite !snapshot_fields_content, E.
Qed.

(** ** Facts: the lines of a text *)

Definition appends (spans : list (nat * nat)) (acc : nat * list (nat * nat)) : nat * list (nat * nat) :=
  foldl (λ acc ab, append (fst ab) (snd ab) acc) acc spans.

Lemma appends_spec spans acc :
  length (snd acc) = min indexedLinesPerMessage (fst acc) →
  fst (appends spans acc) = (fst acc + length spans)%nat ∧
  snd (appends spans acc) = snd acc ++ take (indexedLinesPerMessage - fst acc) spans.
Proof.
  revert acc. induction spans as [|[a b] spans IH]; intros [n l] Hl; cbn [fst snd] in *.
  { unfold appends. cbn [foldl fst snd length]. by rewrite take_nil, app_nil_r, Nat.add_0_r. }
  change (appends ((a, b) :: spans) (n, l)) with (appends spans (append a b (n, l))).
  destruct (IH (append a b (n, l))) as [-> ->]; unfold append; cbn [fst snd].
  - destruct (Nat.ltb_spec (length l) indexedLinesPerMessage);
      [rewrite length_app; cbn [length]|]; lia.
  - cbn [length]. split; [lia|]. destruct (Nat.ltb_spec (length l) indexedLinesPerMessage).
    + replace (indexedLinesPerMessage - n)%nat with (S (indexedLinesPerMessage - S n)) by lia.
      by rewrite <- app_assoc.
    + replace (indexedLinesPerMessage - n)%nat with O by lia.
      by replace (indexedLinesPerMessage - S n)%nat with O by lia.
Qed.

Lemma unbroken_snoc l c : unbroken l → is_line_break c = false → unbroken (l ++ [c]).
Proof. intros Hl Hc. apply Forall_app. split; [done|by constructor]. Qed.

Lemma index_lines_division rest offset start l acc :
  unbroken l → offset = (start + length l)%nat →
  ∃ spans, division start (l ++ rest) spans ∧ index_lines rest offset start acc = appends spans acc.
Proof.
  revert offset start l acc. induction rest as [|c|c d rest IH IHd] using jsstr_ind2; intros offset start l acc Hl Ho.
  - exists [(start, offset)]. rewrite app_nil_r, Ho. split; [by constructor|done].
  - cbn [index_lines]. destruct (is_line_break c) eqn:Hc.
    + exists [(start, offset); ((offset + 1)%nat, (offset + 1)%nat)]. split; [|done].
      rewrite Ho. apply (division_line _ _ [c] []); [done|by right; exists c|].
      change (length [c]) with 1%nat. generalize (start + length l + 1)%nat. intros n.
      replace [(n, n)] with [(n, (n + 0)%nat)] by (by rewrite Nat.add_0_r).
      by apply (division_last n []), Forall_nil_2.
    + exists [(start, (offset + 1)%nat)]. split; [|done]. replace (offset + 1)%nat with (start + length (l ++ [c]))%nat
        by (rewrite length_app; simpl; lia). constructor. by apply unbroken_snoc.
  - change (index_lines (c :: d :: rest) offset start acc) with
      (if is_line_break c then
         if ((c =? 13) && (d =? 10))%N then index_lines rest (offset + 2) (offset + 2) (append start offset acc)
         else index_lines (d :: rest) (offset + 1) (offset + 1) (append start offset acc)
       else index_lines (d :: rest) (offset + 1) start acc).
    destruct (is_line_break c) eqn:Hc.
    + destruct ((c =? 13) && (d =? 10))%N eqn:Hcr.
      * apply andb_true_iff in Hcr as [->%N.eqb_eq ->%N.eqb_eq].
        destruct (IH (offset + 2)%nat (offset + 2)%nat [] (append start offset acc)) as (spans&Hd&->);
          [by constructor|simpl; lia|].
        exists ((start, offset) :: spans). split; [|done]. rewrite Ho.
        apply (division_line _ _ [13; 10]%N rest); [done|by left|]. by rewrite Ho in Hd.
      * destruct (IHd (offset + 1)%nat (offset + 1)%nat [] (append start offset acc)) as (spans&Hd&->);
          [by constructor|simpl; lia|].
        exists ((start, offset) :: spans). split; [|done]. rewrite Ho.
        apply (division_line _ _ [c] (d :: rest)); [done| |by rewrite Ho in Hd].
        right. exists c. split_and!; [done|done|]. intros -> [= ->]. done.
    + destruct (IHd (offset + 1)%nat start (l ++ [c]) acc) as (spans&Hd&->);
        [by apply unbroken_snoc|rewrite length_app; simpl; lia|].
      exists spans. split; [|done]. by rewrite <- app_assoc in Hd.
Qed.
End facts.

Lemma content_text_units_wf `{Platform} `{HandoffEnv} s : plain (snapshot_json s) → well_formed (content_text s).
Proof.
  intros Hs. split; [|apply well_formed_true, content_text_wf].
  unfold content_text. apply units_app; [apply ascii_units; ascii_lit|]. apply units_app; [by repeat constructor|].
  apply stringify_units. by apply content_plain.
Qed.

Lemma index_message_spec m : ∃ spans, division 0 (msg_body m) spans ∧
  sm_messageId (index_message m) = msg_id m ∧ sm_bodyHash (index_message m) = msg_bodyHash m ∧
  sm_length (index_message m) = length (msg_body m) ∧ sm_lineCount (index_message m) = length spans ∧
  sm_lines (index_message m) = take 256 spans ∧ sm_omittedLineCount (index_message m) = (length spans - 256)%nat.
Proof.
  destruct (index_lines_division (msg_body m) 0 0 [] (O, [])) as (spans&Hd&E); [constructor|done|].
  exists spans. split; [done|]. unfold index_message. rewrite E.
  destruct (appends_spec spans (O, [])) as [E1 E2]; [done|]. destruct (appends spans (O, [])) as [n l].
  cbn [fst snd] in E1, E2. rewrite Nat.sub_0_r in E2. change indexedLinesPerMessage with 256%nat in E2.
  cbn [sm_messageId sm_bodyHash sm_length sm_lineCount sm_lines sm_omittedLineCount]. split_and!; [done..|].
  rewrite E1, E2. cbn [app]. rewrite length_take. lia.
Qed.

(** ** Facts: ledgers read back *)

Lemma parseLedger_ok `{Platform} `{HandoffEnv} raw l :
  parseLedger raw = Some l → ledger_ok l = true ∧ too_many "items" max_ledgerItems raw = false.
Proof.
  unfold parseLedger, parsed_by. destruct (read_ledger raw) as [l'|] eqn:Er; simpl; [|done].
  destruct (ledger_ok l') eqn:E; simpl; [|done]. intros [= ->]. split; [done|].
  assert (∃ vs, member (js "items") raw = Some (JArr vs) ∧ length vs = length (led_items l)) as (vs&Hm&Hlen).
  { unfold read_ledger in Er.
    repeat match type of Er with (?x ≫= _) = _ => destruct x eqn:?; [|done]; cbn [mbind option_bind] in Er end.
    injection Er as <-. match goal with H : many "items" _ _ = _ |- _ => rename H into Hm end.
    unfold many, req in Hm. destruct (member (js "items") raw) as [[| | | |vs|]|]; try done. exists vs. split; [done|].
    cbn in Hm. by apply length_mapM in Hm. }
  unfold ledger_ok in E. tests E. match goal with H : between 0 max_ledgerItems _ = true |- _ =>
    apply andb_true_iff in H as [_ H%Nat.leb_le] end.
  unfold too_many. rewrite Hm. apply Nat.ltb_ge. lia.
Qed.

(** ** Properties *)

Lemma ledger_accepted_parts `{Platform} `{HandoffEnv} input raw ledger r :
  validateCommitmentLedger input raw = Some (Accepted ledger r) →
  ∃ snapshot, validateCommitmentSnapshot input = Some (Accepted snapshot (mkWorkflowReport true [])) ∧
    parseLedger raw = Some ledger ∧ grounded snapshot ledger ∧ r = mkWorkflowReport true [].
Proof.
  change (mkWorkflowReport true []) with (report []). unfold validateCommitmentLedger.
  destruct (validateCommitmentSnapshot input) as [[snapshot r'|r']|] eqn:Es; simpl; [|done..].
  destruct (too_many _ _ raw) eqn:Et; [done|]. destruct (parseLedger raw) as [l|] eqn:El; [|done].
  destruct (ledger_issues snapshot l) eqn:Ei; [|done]. intros [= <- <-]. exists snapshot.
  apply snapshot_accepted_spec in Es as (_&Hp&->&_). split_and!; [done..| |done].
  apply ledger_issues_nil; [by eapply parseSnapshot_ok|by eapply parseLedger_ok|done].
Qed.

(** C22: A ledger is accepted exactly when the snapshot it is checked against is, its JSON
    has the registered shape, and it is grounded: it names that snapshot and its hash;
    every evidence, current and prior, names a message of the snapshot with that message's
    hash, and its quote stands in the body of the message exactly at its span, which cuts
    no surrogate pair; and it reports the omissions and the truncated messages of the
    snapshot, with a limitation when the source is incomplete. Acceptance reports no issue. *)
Theorem ledger_accepted_iff `{Platform} `{HandoffEnv} input raw ledger r :
  validateCommitmentLedger input raw = Some (Accepted ledger r) ↔
  ∃ snapshot, validateCommitmentSnapshot input = Some (Accepted snapshot (mkWorkflowReport true [])) ∧
    parseLedger raw = Some ledger ∧ grounded snapshot ledger ∧ r = mkWorkflowReport true [].
Proof.
  split; [apply ledger_accepted_parts|]. unfold validateCommitmentLedger.
  intros (snapshot&Es&El&Hg&->). rewrite Es. simpl. apply snapshot_accepted_spec in Es as (_&Hp&_).
  apply parseLedger_ok in El as Hl. destruct Hl as [Hl ->]. rewrite El.
  by rewrite (proj2 (ledger_issues_nil _ _ (parseSnapshot_ok _ _ Hp) Hl) Hg).
Qed.

(** C23: The hash of an accepted snapshot is the SHA-256 of one text, its framed content,
    and that text is faithful: equal texts come from snapshots equal in every field and
    every body, the hash field itself apart. So two accepted snapshots carry one hash
    exactly when they are the same snapshot, or when their own two content texts differ
    and SHA-256 gives both the same digest. (Their strings are 16-bit units and their
    counts safe integers, as those of any parsed JSON the schema admits: [plain].) *)
Theorem snapshot_hash_binds `{Platform} `{HandoffEnv} raw raw' s s' r r' :
  validateCommitmentSnapshot raw = Some (Accepted s r) → validateCommitmentSnapshot raw' = Some (Accepted s' r') →
  plain (snapshot_json s) → plain (snapshot_json s') →
  snap_snapshotHash s = sha256_hex (utf8 (content_text s)) ∧
  (utf8 (content_text s) = utf8 (content_text s') ↔ with_hash ZERO_HASH s = with_hash ZERO_HASH s') ∧
  (snap_snapshotHash s = snap_snapshotHash s' ↔ s = s' ∨ collide (content_text s) (content_text s')).
Proof.
  intros (_&Hp%parseSnapshot_ok&_&_&_&Hh)%snapshot_accepted_spec (_&Hp'%parseSnapshot_ok&_&_&_&Hh')%snapshot_accepted_spec Hs Hs'.
  rewrite hashCommitmentSnapshot_eq in Hh, Hh' by (by apply snapshot_ok_rehash).
  injection Hh as Hh. injection Hh' as Hh'. split; [congruence|].
  assert (utf8 (content_text s) = utf8 (content_text s') ↔ with_hash ZERO_HASH s = with_hash ZERO_HASH s') as Ht.
  { split; [|by apply content_text_unhashed].
    intros Et%utf8_inj_wf; [|by apply content_text_units_wf..]. by apply content_text_inj. }
  split; [exact Ht|]. split; [|intros [->|[_ E]]; congruence]. intros E.
  destruct (decide (utf8 (content_text s) = utf8 (content_text s'))) as [Et|Et]; [left|right; split; congruence].
  apply Ht, (f_equal (with_hash (snap_snapshotHash s))) in Et.
  rewrite E in Et at 2. by destruct s, s'.
Qed.

(** The line index is exact: every message has its full length, the number of its lines
    and the ranges of its first 256 ones in order - of the one division of its body in which
    no line holds a break, every break ends a line, and a carriage return takes the line feed
    after it - with the exact count of the lines left out; completeness is claimed exactly
    when none is. *)
Theorem source_index_exact `{Platform} `{HandoffEnv} input ix :
  createCommitmentSourceIndex input = inl ix →
  ∃ snapshot r, validateCommitmentSnapshot input = Some (Accepted snapshot r) ∧
    ix_snapshotId ix = snap_snapshotId snapshot ∧ ix_snapshotHash ix = snap_snapshotHash snapshot ∧
    Forall2 (λ m i, ∃ spans, division 0 (msg_body m) spans ∧
      sm_messageId i = msg_id m ∧ sm_bodyHash i = msg_bodyHash m ∧ sm_length i = length (msg_body m) ∧
      sm_lineCount i = length spans ∧ sm_lines i = take 256 spans ∧ sm_omittedLineCount i = (length spans - 256)%nat)
      (snap_messages snapshot) (ix_messages ix) ∧
    (ix_lineIndexComplete ix = true ↔ Forall (λ i, sm_omittedLineCount i = O) (ix_messages ix)) ∧
    Z.of_N (byte_length (source_index_json ix)) <= serializedBytes.
Proof.
  unfold createCommitmentSourceIndex. destruct (validateCommitmentSnapshot input) as [[snapshot r|]|] eqn:Es; [|done..].
  destruct (Z.ltb_spec serializedBytes (Z.of_N (byte_length (source_index_json (mkSourceIndex (snap_snapshotId snapshot)
    (snap_snapshotHash snapshot) (forallb (λ m, (sm_omittedLineCount m =? 0)%nat) (index_message <$> snap_messages snapshot))
    (index_message <$> snap_messages snapshot)))))) as [|Hsize]; [done|].
  intros [= <-]. exists snapshot, r. split_and!; [done..| | |exact Hsize].
  - cbn [ix_messages]. apply Forall2_fmap_r, Forall_Forall2_diag, Forall_true. intros m. apply index_message_spec.
  - cbn [ix_lineIndexComplete ix_messages]. rewrite forallb_forall, Forall_forall. split.
    + intros Hi i Hin. by apply Nat.eqb_eq, Hi, list_elem_of_In.
    + intros Hi i Hin. by apply Nat.eqb_eq, Hi, list_elem_of_In.
Qed.

(** A draft whose parts have the registered shape, with a known time zone, becomes a
    snapshot: nothing of it is altered but the hashes, each body gets the hash of its text,
    and what is returned is accepted when it is written out and validated again. *)
Theorem created_snapshot_accepted `{Platform} `{HandoffEnv} draft l c :
  (∀ bs, hash_ok (sha256_hex bs) = true) →
  get (js "messages") draft = Some (JArr l) → (length l <= max_messages)%nat →
  parseSnapshot (JObj (set_field (js "messages") (JArr (zero_body <$> l))
    (set_field (js "snapshotHash") (JStr ZERO_HASH) draft))) = Some c →
  knownTimezone (snap_timezone c) = true →
  ∃ s, createCommitmentSnapshot draft = inl s ∧
    validateCommitmentSnapshot (snapshot_json s) = Some (Accepted s (mkWorkflowReport true [])) ∧
    snap_messages s = (λ m, with_bodyHash (sha256_hex (utf8 (msg_body m))) m) <$> snap_messages c ∧
    with_messages (snap_messages c) (with_hash (snap_snapshotHash c) s) = c.
Proof.
  change (mkWorkflowReport true []) with (report []). intros Hhex Hm Hl Hp Hz.
  apply parseSnapshot_ok in Hp as Hc. set (hb := λ m, sha256_hex (utf8 (msg_body m))).
  assert (Forall (λ m, toWellFormed (msg_body m) = msg_body m) (snap_messages c)) as Hb.
  { apply Forall_forall. intros m. by apply body_well_formed. }
  set (c' := with_messages ((λ m, with_bodyHash (hb m) m) <$> snap_messages c) c).
  assert (snapshot_ok c' = true) as Hc' by (apply snapshot_ok_bodies; [intros; apply Hhex|done]).
  set (h := sha256_hex (utf8 (content_text c'))).
  assert (hashCommitmentSnapshot c' = Some h) as Hh.
  { apply hashCommitmentSnapshot_eq. by apply snapshot_ok_rehash. }
  assert (snapshot_ok (with_hash h c') = true) as Hok by (by apply snapshot_ok_rehash; [apply Hhex|]).
  assert (validateCommitmentSnapshot (snapshot_json (with_hash h c')) = Some (Accepted (with_hash h c') (report []))) as Hv.
  { apply snapshot_accepted_spec. rewrite snapshot_fits, parseSnapshot_json, Hok by done.
    split_and!; [done|done|done|exact Hz| |].
    - cbn [snap_messages with_hash c' with_messages]. apply Forall_fmap. eapply Forall_impl; [exact Hb|].
      intros m Hwf. cbn [compose msg_body msg_bodyHash with_bodyHash]. unfold hashWorkflowText. simpl.
      by rewrite (proj2 (well_formed_true _) Hwf).
    - change (snap_snapshotHash (with_hash h c')) with h. rewrite <- Hh. unfold hashCommitmentSnapshot. done. }
  exists (with_hash h c'). split_and!; [|exact Hv|done|by destruct c].
  unfold createCommitmentSnapshot. rewrite Hm, (proj2 (Nat.ltb_ge _ _)), Hp by done.
  rewrite hash_bodies_as by done. cbn [mbind option_bind]. change (with_messages _ c) with c'. rewrite Hh.
  cbn [mbind option_bind]. by rewrite Hv.
Qed.
