(* ===== verification/ContextCodec.v ===== *)
(** * The context rows of the recursive-model guest

    [packages/engine/src/workflows/rlm-context-codec.ts]: the envelope
    [JSON.stringify({ snapshot, sourceIndex })] cut into rows of JSON lines that fit the
    guest's slices, and the plan of the reads that cover them. The guest puts the envelope
    together again by splitting on line feeds, parsing each row and joining the fragments;
    [guest_envelope] is that reader. *)

From S2P Require Export CopyExact HandoffExact.
Open Scope Z_scope.

Definition RLM_CONTEXT_ROW_UTF8_MAX : Z := 20000.
Definition RLM_CONTEXT_SLICE_UTF8_MAX : Z := 20000.
Definition RLM_CONTEXT_STORE_UTF8_MAX : Z := 3 * 1024 * 1024.
Definition RLM_CONTEXT_MAX_ROWS : nat := Z.to_nat 16384.
Definition RLM_CONTEXT_SLICE_ROWS : nat := 64.
Definition RLM_CONTEXT_MAX_READS : nat := 256.

Inductive WorkflowRlmContextCodecCode :=
  | INVALID_INPUT | INDEX_BOUND | ROW_LIMIT | STORE_LIMIT | READ_LIMIT | UNENCODABLE.
(** A failure carries its code; one without a code is an error of another kind. *)
Definition Codec (A : Type) : Type := A + option WorkflowRlmContextCodecCode.
#[export] Instance Codec_ret : MRet Codec := λ _ a, inl a.
#[export] Instance Codec_bind : MBind Codec := λ _ _ k m, match m with inl a => k a | inr e => inr e end.
Definition fail {A} (code : WorkflowRlmContextCodecCode) : Codec A := inr (Some code).
Definition unless (b : bool) (code : WorkflowRlmContextCodecCode) : Codec () := if b then fail code else mret tt.

Record WorkflowRlmContextSlice := mkSlice { sl_start : nat; sl_count : nat; sl_utf8Bytes : Z }.
Record WorkflowRlmContextCodecResult := mkCodecResult {
  cr_context : jsstr; cr_contextId : jsstr; cr_envelopeSha256 : jsstr; cr_envelopeUtf8Bytes : Z;
  cr_contextUtf8Bytes : Z; cr_rows : nat; cr_maxRowUtf8Bytes : Z;
  cr_contextSlicePlan : list WorkflowRlmContextSlice; cr_minContextReads : nat;
}.

Definition utf8Bytes (text : jsstr) : Z := Z.of_nat (length (utf8 text)).

(** ** The size of serialised text *)

Definition two_byte_escape (c : N) : bool := existsb (N.eqb c) [34; 92; 8; 9; 10; 12; 13]%N.
(** The character at the front of [text]: the bytes it adds and the units it takes. *)
Definition jsonCharUtf8Bytes (text : jsstr) : Z * nat :=
  match text with
  | [] => (0, O)
  | c :: rest =>
      if two_byte_escape c then (2, 1%nat)
      else if (c <? 32)%N then (6, 1%nat)
      else if (c <? 128)%N then (1, 1%nat)
      else if (c <? 2048)%N then (2, 1%nat)
      else if is_high c then
        match rest with
        | d :: _ => if is_low d then (4, 2%nat) else (3, 1%nat)
        | [] => (3, 1%nat)
        end
      else if is_low c then (3, 1%nat)
      else (3, 1%nat)
  end.
Fixpoint jsonUnitsUtf8Bytes (text : jsstr) : Z :=
  match text with
  | [] => 0
  | c :: rest =>
      if two_byte_escape c then 2 + jsonUnitsUtf8Bytes rest
      else if (c <? 32)%N then 6 + jsonUnitsUtf8Bytes rest
      else if (c <? 128)%N then 1 + jsonUnitsUtf8Bytes rest
      else if (c <? 2048)%N then 2 + jsonUnitsUtf8Bytes rest
      else if is_high c then
        match rest with
        | d :: rest' => if is_low d then 4 + jsonUnitsUtf8Bytes rest' else 3 + jsonUnitsUtf8Bytes rest
        | [] => 3
        end
      else 3 + jsonUnitsUtf8Bytes rest
  end.
Definition jsonStringUtf8Bytes (text : jsstr) : Z := 2 + jsonUnitsUtf8Bytes text.
Definition rowPrefixUtf8 (index : nat) : Z := 5 + Z.of_nat (length (dec (N.of_nat index))) + 5.
Definition serializedRowUtf8Bytes (index : nat) (fragment : jsstr) : Z :=
  rowPrefixUtf8 index + jsonStringUtf8Bytes fragment + 1.

(** ** Rows *)

(** The units taken from [text] before [budget] bytes are passed. *)
Fixpoint pack_units (budget used : Z) (text : jsstr) : nat :=
  match text with
  | [] => O
  | c :: rest =>
      let '(add, consume) := jsonCharUtf8Bytes text in
      if budget <? used + add then O
      else match consume, rest with
           | 2%nat, _ :: rest' => S (S (pack_units budget (used + add) rest'))
           | _, _ => S (pack_units budget (used + add) rest)
           end
  end.
Definition row_json (index : nat) (fragment : jsstr) : json :=
  JObj [(js "i", jint (Z.of_nat index)); (js "c", JStr fragment)].
Definition holds_char (c : N) (s : jsstr) : bool := existsb (N.eqb c) s.

(** [rest] is the envelope from the offset on; the units taken, the row and its bytes. *)
Definition packRow (rest : jsstr) (index : nat) : Codec (nat * jsstr * Z) :=
  let overhead := rowPrefixUtf8 index + 1 + 2 in
  let budget := RLM_CONTEXT_ROW_UTF8_MAX - overhead in
  unless (budget <? 1) UNENCODABLE ;;
  let i := pack_units budget 0 rest in
  unless (i <=? 0)%nat UNENCODABLE ;;
  let fragment := take i rest in
  let row := JSON_stringify (row_json index fragment) in
  let bytes := utf8Bytes row in
  unless (negb (bytes =? serializedRowUtf8Bytes index fragment)) UNENCODABLE ;;
  unless ((RLM_CONTEXT_ROW_UTF8_MAX <? bytes) || holds_char 10 row || holds_char 0 row) UNENCODABLE ;;
  mret (i, row, bytes).

(** The loop over the envelope. Every row takes a unit at least, so the length of what
    is left is fuel enough. *)
Fixpoint pack_rows (fuel : nat) (rest : jsstr) (rows : list jsstr) (maxBytes : Z) : Codec (list jsstr * Z) :=
  match rest, fuel with
  | [], _ => mret (rows, maxBytes)
  | _ :: _, O => mret (rows, maxBytes)
  | _ :: _, S fuel =>
      unless (RLM_CONTEXT_MAX_ROWS <=? length rows)%nat ROW_LIMIT ;;
      '(i, row, bytes) ← packRow rest (length rows);
      pack_rows fuel (drop i rest) (rows ++ [row]) (Z.max maxBytes bytes)
  end.

(** ** Reads *)

(** The rows joined to a slice of [count] rows and [bytes] bytes. *)
Fixpoint extend_slice (count : nat) (bytes : Z) (rest : list jsstr) : nat * Z :=
  match rest with
  | [] => (count, bytes)
  | row :: rest =>
      if (count <? RLM_CONTEXT_SLICE_ROWS)%nat then
        let extra := 1 + utf8Bytes row in
        if RLM_CONTEXT_SLICE_UTF8_MAX <? bytes + extra then (count, bytes)
        else extend_slice (S count) (bytes + extra) rest
      else (count, bytes)
  end.
Fixpoint plan_slices (fuel start : nat) (rows : list jsstr) : Codec (list WorkflowRlmContextSlice) :=
  match rows, fuel with
  | [], _ => mret []
  | _ :: _, O => mret []
  | row :: rest, S fuel =>
      unless (RLM_CONTEXT_SLICE_UTF8_MAX <? utf8Bytes row) UNENCODABLE ;;
      let '(count, bytes) := extend_slice 1 (utf8Bytes row) rest in
      plan ← plan_slices fuel (start + count) (drop count rows);
      mret (mkSlice start count bytes :: plan)
  end.
Definition planContextSlices (rows : list jsstr) : Codec (list WorkflowRlmContextSlice) :=
  plan_slices (length rows) 0 rows.

(** ** The codec *)

Definition workflowRlmEnvelope (snapshot sourceIndex : json) : jsstr :=
  JSON_stringify (JObj [(js "snapshot", snapshot); (js "sourceIndex", sourceIndex)]).
Definition is_rec (v : json) : bool := match v with JObj _ => true | _ => false end.
Definition has_string (k : string) (v : json) : bool :=
  match member (js k) v with Some (JStr _) => true | _ => false end.
Definition same_member (k : string) (v w : json) : bool :=
  match member (js k) v, member (js k) w with Some (JStr s), Some (JStr t) => eqs s t | _, _ => false end.
Definition index_header (v : json) : bool :=
  match member (js "kind") v, member (js "schemaVersion") v with
  | Some (JStr k), Some (JNum n) => eqs k (js "source-offset-index") && bool_decide (num_int n = Some 1)
  | _, _ => false
  end.

Section codec.
Context `{Platform} `{HandoffEnv}.

(** The hash, whose argument is well-formed wherever the codec takes it. *)
Definition hash_or_throw (text : jsstr) : Codec jsstr :=
  match hashWorkflowText text with Some h => mret h | None => inr None end.

Definition encodeWorkflowRlmContext (snapshot sourceIndex : json) : Codec WorkflowRlmContextCodecResult :=
  unless (negb (is_rec snapshot) || negb (is_rec sourceIndex)) INVALID_INPUT ;;
  unless (negb (has_string "snapshotId" snapshot) || negb (has_string "snapshotHash" snapshot)) INVALID_INPUT ;;
  unless (negb (index_header sourceIndex)) INVALID_INPUT ;;
  unless (negb (same_member "snapshotId" sourceIndex snapshot) || negb (same_member "snapshotHash" sourceIndex snapshot))
    INVALID_INPUT ;;
  unless (serializedBytes <? utf8Bytes (JSON_stringify sourceIndex)) INDEX_BOUND ;;
  let envelope := workflowRlmEnvelope snapshot sourceIndex in
  unless (negb (is_well_formed envelope)) INVALID_INPUT ;;
  envelopeSha256 ← hash_or_throw envelope;
  '(rows, maxRowUtf8Bytes) ← pack_rows (length envelope) envelope [] 0;
  unless (bool_decide (rows = [])) INVALID_INPUT ;;
  let context := Json.join [10%N] rows in
  unless (holds_char 0 context) UNENCODABLE ;;
  let contextUtf8Bytes := utf8Bytes context in
  unless (RLM_CONTEXT_STORE_UTF8_MAX <? contextUtf8Bytes) STORE_LIMIT ;;
  contextSlicePlan ← planContextSlices rows;
  let minContextReads := length contextSlicePlan in
  unless (RLM_CONTEXT_MAX_READS <? minContextReads)%nat READ_LIMIT ;;
  h ← hash_or_throw context;
  mret (mkCodecResult context (js "sha256:" ++ h) envelopeSha256 (utf8Bytes envelope) contextUtf8Bytes
    (length rows) maxRowUtf8Bytes contextSlicePlan minContextReads).

(** [createContextCodecPort]: the result with the hash of the context by itself. *)
Definition port_encode (snapshot sourceIndex : json) : Codec (WorkflowRlmContextCodecResult * jsstr) :=
  packed ← encodeWorkflowRlmContext snapshot sourceIndex;
  mret (packed, drop (length (js "sha256:")) (cr_contextId packed)).
End codec.

(** ** What the guest does with a context *)

(** [text.split("\n")]. *)
Fixpoint split_lines (s : jsstr) : list jsstr :=
  match s with
  | [] => [[]]
  | c :: s' =>
      if (c =? 10)%N then [] :: split_lines s'
      else match split_lines s' with [] => [[c]] | l :: ls => (c :: l) :: ls end
  end.
Fixpoint drop_digits (s : jsstr) : jsstr :=
  match s with c :: s' => if is_digit c then drop_digits s' else s | [] => [] end.
(** [JSON.parse(row).c], on the rows of this codec: the key [i], a number, the key [c], a string. *)
Definition row_fragment (row : jsstr) : option jsstr :=
  rest ← strip_prefix ([123%N] ++ quote (js "i") ++ js ":") row;
  rest ← strip_prefix (js "," ++ quote (js "c") ++ js ":" ++ [34%N]) (drop_digits rest);
  '(fragment, rest) ← unquote rest;
  guard (rest = js "}") ;; Some fragment.
Definition guest_envelope (context : jsstr) : option jsstr :=
  mjoin <$> mapM row_fragment (split_lines context).
