(* ===== verification/ContextExact.v ===== *)
(** * The guest reads back the envelope it was given

    The rows of [ContextCodec.v]: they join to the envelope, each fits a slice, and all
    but the last fill one, so that every read takes exactly one row. *)

From S2P Require Export ContextCodec.
Open Scope Z_scope.

(** ** Facts: one character of well-formed text *)

Lemma well_formed_ind (P : jsstr → Prop) :
  P [] →
  (∀ c s, is_high c = false → is_low c = false → (c < 0x10000)%N → well_formed s → P s → P (c :: s)) →
  (∀ c d s, is_high c = true → is_low d = true → well_formed s → P s → P (c :: d :: s)) →
  ∀ s, well_formed s → P s.
Proof.
  intros H0 H1 H2 s. remember (length s) as n eqn:En. revert s En.
  induction (lt_wf n) as [n _ IH]. intros [|c s] -> Hw; [done|].
  destruct (wf_cons_inv c s Hw) as [(?&?&?&?)|(d&s'&->&?&?&?)].
  - apply H1; try done. eapply IH; [|done|done]. simpl. lia.
  - apply H2; try done. eapply IH; [|done|done]. simpl. lia.
Qed.

Lemma wf_unit c s : is_high c = false → is_low c = false → (c < 0x10000)%N → well_formed s → well_formed (c :: s).
Proof. intros Hh Hl Hc [Hu Hw]. split; [by constructor|]. simpl. by rewrite Hh, Hl, Hw. Qed.
Lemma wf_pair c d s : is_high c = true → is_low d = true → well_formed s → well_formed (c :: d :: s).
Proof.
  intros Hc Hd [Hu Hw]. split; [surrogates; repeat constructor; by try lia|]. simpl. by rewrite Hc, Hd, Hw.
Qed.

Lemma char_unit c s :
  is_high c = false → is_low c = false → (c < 0x10000)%N →
  ∃ a, jsonCharUtf8Bytes (c :: s) = (a, 1%nat) ∧ 1 <= a <= 6 ∧
    jsonUnitsUtf8Bytes (c :: s) = a + jsonUnitsUtf8Bytes s ∧ usize (escape (c :: s)) = a + usize (escape s).
Proof.
  intros Hh Hl Hc. cbn [jsonCharUtf8Bytes jsonUnitsUtf8Bytes escape]. rewrite Hh, Hl.
  rewrite usize_unit by (done || apply escape_opens).
  unfold two_byte_escape. cbn [existsb]. rewrite orb_false_r, !orb_assoc. rewrite !(N.eqb_sym c).
  repeat case_match; (eexists; split_and!; [reflexivity|lia..]).
Qed.

Lemma char_pair c d s :
  is_high c = true → is_low d = true →
  jsonCharUtf8Bytes (c :: d :: s) = (4, 2%nat) ∧
  jsonUnitsUtf8Bytes (c :: d :: s) = 4 + jsonUnitsUtf8Bytes s ∧ usize (escape (c :: d :: s)) = 4 + usize (escape s).
Proof.
  intros Hc Hd. rewrite escape_pair, usize_pair by (done || apply escape_opens).
  cbn [jsonCharUtf8Bytes jsonUnitsUtf8Bytes]. rewrite Hc, Hd. unfold two_byte_escape. cbn [existsb]. surrogates.
  by rewrite !(proj2 (N.eqb_neq c _)), !(proj2 (N.ltb_ge c _)) by lia.
Qed.

Lemma jsonUnits_usize s : well_formed s → jsonUnitsUtf8Bytes s = usize (escape s).
Proof.
  revert s. apply well_formed_ind; [done|..].
  - intros c s Hh Hl Hc _ IH. destruct (char_unit c s) as (a&_&_&->&->); [done..|]. lia.
  - intros c d s Hc Hd _ IH. destruct (char_pair c d s) as (_&->&->); [done..|]. lia.
Qed.

Lemma wf_nil : well_formed [].
Proof. apply ascii_well_formed, ascii_nil. Qed.

(** ** Facts: the units a row takes *)

Lemma pack_units_spec budget s : well_formed s → ∀ used, used <= budget →
  let i := pack_units budget used s in
  well_formed (take i s) ∧ well_formed (drop i s) ∧ (i <= length s)%nat ∧
  used + jsonUnitsUtf8Bytes (take i s) <= budget ∧
  (drop i s ≠ [] → budget < used + jsonUnitsUtf8Bytes (take i s) + 6).
Proof.
  revert s. apply (well_formed_ind (λ s, ∀ used, _ → _)).
  - intros used Hu. simpl. split_and!; [apply wf_nil..|lia|lia|done].
  - intros c s Hh Hl Hc Hs IH used Hu. destruct (char_unit c s) as (a&Ea&Ha&Eu&_); [done..|].
    cbn [pack_units]. rewrite Ea. destruct (Z.ltb_spec budget (used + a)) as [Hb|Hb].
    + simpl take. simpl drop. split_and!; [apply wf_nil|by apply wf_unit|lia|simpl; lia|simpl; lia].
    + destruct (IH (used + a)) as (H1&H2&H3&H4&H5); [lia|]. set (i := pack_units budget (used + a) s) in *.
      destruct (char_unit c (take i s)) as (a'&Ea'&_&Eu'&_); [done..|].
      assert (a' = a) as ->.
      { revert Ea Ea'. cbn [jsonCharUtf8Bytes]. rewrite Hh, Hl. repeat case_match; congruence. }
      cbn [take drop length]. rewrite Eu'. split_and!; [by apply wf_unit|done|lia|lia|].
      intros Hd. specialize (H5 Hd). lia.
  - intros c d s Hc Hd Hs IH used Hu. destruct (char_pair c d s) as (Ea&Eu&_); [done..|].
    cbn [pack_units]. rewrite Ea. destruct (Z.ltb_spec budget (used + 4)) as [Hb|Hb].
    + simpl take. simpl drop. split_and!; [apply wf_nil|by apply wf_pair|lia|simpl; lia|simpl; lia].
    + destruct (IH (used + 4)) as (H1&H2&H3&H4&H5); [lia|]. set (i := pack_units budget (used + 4) s) in *.
      destruct (char_pair c d (take i s)) as (_&Eu'&_); [done..|].
      cbn [take drop length]. rewrite Eu'. split_and!; [by apply wf_pair|done|lia|lia|].
      intros Hdd. specialize (H5 Hdd). lia.
Qed.

(** ** Facts: the text of a row *)

Definition row_head (index : nat) : jsstr :=
  [123%N] ++ quote (js "i") ++ js ":" ++ dec (N.of_nat index) ++ js "," ++ quote (js "c") ++ js ":".
Definition row_text (index : nat) (fragment : jsstr) : jsstr := row_head index ++ quote fragment ++ js "}".

Lemma row_stringify index fragment :
  (index <= RLM_CONTEXT_MAX_ROWS)%nat → JSON_stringify (row_json index fragment) = row_text index fragment.
Proof.
  intros Hi. unfold row_json. rewrite stringify_obj.
  assert (JSON_stringify (jint (Z.of_nat index)) = dec (N.of_nat index)) as E.
  { change (num_to_string (num_of_Z (Z.of_nat index)) = dec (N.of_nat index)).
    unfold RLM_CONTEXT_MAX_ROWS in Hi. rewrite num_of_Z_text by (unfold max_plain_int; lia).
    unfold int_to_string. rewrite (proj2 (Z.ltb_ge _ _)) by lia. f_equal. lia. }
  unfold row_text, row_head. cbn [fmap list_fmap Json.join]. unfold member_text. cbn [fst snd]. rewrite E.
  rewrite <- !app_assoc. done.
Qed.

Lemma row_head_ascii index : ascii_only (row_head index).
Proof. unfold row_head. repeat (apply ascii_app; [first [apply dec_ascii|ascii_lit]|]). ascii_lit. Qed.

Lemma row_bytes index fragment :
  (index <= RLM_CONTEXT_MAX_ROWS)%nat → well_formed fragment →
  utf8Bytes (row_text index fragment) = serializedRowUtf8Bytes index fragment.
Proof.
  intros Hi Hw. change (utf8Bytes ?s) with (usize s). unfold row_text, serializedRowUtf8Bytes, jsonStringUtf8Bytes.
  rewrite usize_app, usize_ascii by (done || apply row_head_ascii).
  rewrite usize_quote, <- jsonUnits_usize by done. change (usize (js "}")) with 1.
  unfold row_head, rowPrefixUtf8. rewrite !length_app. change (length (quote (js "i"))) with 3%nat.
  change (length (quote (js "c"))) with 3%nat. simpl. lia.
Qed.

Definition printable (s : jsstr) : Prop := Forall (λ c, (32 <= c)%N) s.
Lemma printable_lit (s : jsstr) : forallb (λ c, (32 <=? c)%N) s = true → printable s.
Proof. intros H. apply Forall_forall. intros c Hc. rewrite forallb_forall in H. by apply N.leb_le, H, list_elem_of_In. Qed.
Lemma hex_digit_printable n : (32 <= hex_digit n)%N.
Proof. unfold hex_digit. case_match; lia. Qed.
Lemma u_escape_printable c : printable (u_escape c).
Proof.
  unfold u_escape, hex4. apply Forall_app. split; [by apply printable_lit|].
  repeat (constructor; [apply hex_digit_printable|]). constructor.
Qed.
Lemma escape_unit_printable c : printable (escape_unit c).
Proof.
  unfold escape_unit. repeat case_match; try (by apply printable_lit); [apply u_escape_printable|].
  constructor; [by apply N.ltb_ge|constructor].
Qed.
Lemma escape_printable s : printable (escape s).
Proof.
  unfold printable. induction s as [|c|c d s IH IHd] using jsstr_ind2; [constructor|..].
  - rewrite (escape_lone c []) by done. apply Forall_app. split; [|constructor].
    destruct (_ || _); [apply u_escape_printable|apply escape_unit_printable].
  - destruct (pair_or_lone c (d :: s)) as [Hl|(d'&s'&[= <- <-]&Hh&Hl)].
    + rewrite escape_lone by done. apply Forall_app. split; [|done].
      destruct (_ || _); [apply u_escape_printable|apply escape_unit_printable].
    + rewrite escape_pair by done. surrogates. repeat (constructor; [lia|]). done.
Qed.
Lemma dec_printable n : printable (dec n).
Proof.
  eapply Forall_impl; [apply dec_digit|]. unfold is_digit. intros c [?%N.leb_le _]%andb_true_iff. lia.
Qed.

Lemma row_printable index fragment : printable (row_text index fragment).
Proof.
  unfold row_text, row_head, quote. unfold printable. rewrite !Forall_app.
  split_and!; try (by apply printable_lit); [apply dec_printable|apply escape_printable].
Qed.

Lemma printable_holds c s : (c < 32)%N → printable s → holds_char c s = false.
Proof.
  intros Hc Hs. unfold holds_char. apply not_true_iff_false. intros (x&Hx&->%N.eqb_eq)%existsb_exists.
  apply list_elem_of_In in Hx. unfold printable in Hs. rewrite Forall_forall in Hs. specialize (Hs x Hx). lia.
Qed.

(** ** Facts: what the guest reads *)

Lemma strip_prefix_app p s : strip_prefix p (p ++ s) = Some s.
Proof. induction p as [|c p IH]; [done|]. simpl. by rewrite N.eqb_refl. Qed.
Lemma drop_digits_app l c s : Forall (λ c, is_digit c = true) l → is_digit c = false → drop_digits (l ++ c :: s) = c :: s.
Proof. intros Hl Hc. induction Hl as [|d l Hd Hl IH]; simpl; [by rewrite Hc|by rewrite Hd]. Qed.

Lemma row_fragment_text index fragment : units fragment → row_fragment (row_text index fragment) = Some fragment.
Proof.
  intros Hu. unfold row_fragment.
  replace (row_text index fragment) with
    (([123%N] ++ quote (js "i") ++ js ":") ++ dec (N.of_nat index) ++
     44%N :: (quote (js "c") ++ js ":" ++ [34%N]) ++ (escape fragment ++ 34%N :: js "}")).
  2: { unfold row_text, row_head, quote. rewrite <- !app_assoc. done. }
  rewrite strip_prefix_app. cbn [mbind option_bind].
  rewrite drop_digits_app by (done || apply dec_digit).
  change (44%N :: (quote (js "c") ++ js ":" ++ [34%N]) ++ ?s) with ((js "," ++ quote (js "c") ++ js ":" ++ [34%N]) ++ s).
  rewrite strip_prefix_app. cbn [mbind option_bind]. rewrite unquote_escape by done. cbn [mbind option_bind].
  by rewrite option_guard_True.
Qed.

(** ** Facts: the rows *)

(** [rows], numbered from [n], carry [text]: each a fragment of it that fits a slice, and
    each but the last one within five bytes of the limit. *)
Inductive packed : nat → jsstr → list jsstr → Prop :=
  | packed_nil n : packed n [] []
  | packed_row n fragment rest rows :
      well_formed fragment → fragment ≠ [] → usize (row_text n fragment) <= RLM_CONTEXT_ROW_UTF8_MAX →
      (rest ≠ [] → RLM_CONTEXT_ROW_UTF8_MAX - 5 <= usize (row_text n fragment)) →
      packed (S n) rest rows → packed n (fragment ++ rest) (row_text n fragment :: rows).

Lemma index_length index : (index < RLM_CONTEXT_MAX_ROWS)%nat → (length (dec (N.of_nat index)) <= 5)%nat.
Proof. intros H. apply dec_length; [lia|]. unfold RLM_CONTEXT_MAX_ROWS in H. lia. Qed.

Lemma unless_false b code {A} (m : Codec A) : b = false → (unless b code ;; m) = m.
Proof. by intros ->. Qed.

Lemma packRow_spec rest index :
  well_formed rest → rest ≠ [] → (index < RLM_CONTEXT_MAX_ROWS)%nat →
  ∃ i, packRow rest index = inl (i, row_text index (take i rest), usize (row_text index (take i rest))) ∧
    take i rest ≠ [] ∧ well_formed (take i rest) ∧ well_formed (drop i rest) ∧
    usize (row_text index (take i rest)) <= RLM_CONTEXT_ROW_UTF8_MAX ∧
    (drop i rest ≠ [] → RLM_CONTEXT_ROW_UTF8_MAX - 5 <= usize (row_text index (take i rest))).
Proof.
  intros Hw Hne Hi. pose proof (index_length index Hi) as Hlen.
  set (budget := RLM_CONTEXT_ROW_UTF8_MAX - (rowPrefixUtf8 index + 1 + 2)).
  assert (6 <= budget) as Hb.
  { unfold budget, RLM_CONTEXT_ROW_UTF8_MAX, rowPrefixUtf8. lia. }
  destruct (pack_units_spec budget rest Hw 0) as (Ht&Hd&Hl&Hu&Hfull); [lia|]. set (i := pack_units budget 0 rest) in *.
  pose proof (row_bytes index (take i rest) ltac:(lia) Ht) as Hbytes. change (utf8Bytes ?s) with (usize s) in Hbytes.
  assert (usize (row_text index (take i rest)) = RLM_CONTEXT_ROW_UTF8_MAX - budget + jsonUnitsUtf8Bytes (take i rest)) as Hsize.
  { rewrite Hbytes. unfold serializedRowUtf8Bytes, jsonStringUtf8Bytes, budget. lia. }
  assert (i ≠ O) as Hi0.
  { intros E. rewrite E in Hfull, Hu. simpl in Hfull. specialize (Hfull Hne). lia. }
  exists i. split_and!; [|by destruct i, rest|done|done|lia|intros Hd'; specialize (Hfull Hd'); lia].
  unfold packRow. fold budget. rewrite unless_false by (apply Z.ltb_ge; lia). fold i.
  rewrite unless_false by (apply Nat.leb_gt; lia). rewrite row_stringify by lia.
  change (utf8Bytes ?s) with (usize s). rewrite <- Hbytes.
  rewrite unless_false by (by rewrite Z.eqb_refl). rewrite unless_false; [done|].
  rewrite !printable_holds by (lia || apply row_printable). rewrite !orb_false_r. apply Z.ltb_ge. lia.
Qed.

Lemma pack_rows_spec fuel rest rows m :
  (length rest <= fuel)%nat → well_formed rest →
  pack_rows fuel rest rows m = inr (Some ROW_LIMIT) ∨
  ∃ new, packed (length rows) rest new ∧
    pack_rows fuel rest rows m = inl (rows ++ new, foldl Z.max m (usize <$> new)).
Proof.
  revert rest rows m. induction fuel as [|fuel IH]; intros rest rows m Hf Hw.
  { destruct rest; [|simpl in Hf; lia]. right. exists []. rewrite app_nil_r. split; [constructor|done]. }
  destruct (decide (rest = [])) as [->|Hne].
  { right. exists []. rewrite app_nil_r. split; [constructor|done]. }
  assert (pack_rows (S fuel) rest rows m =
    (unless (RLM_CONTEXT_MAX_ROWS <=? length rows)%nat ROW_LIMIT ;;
     '(i, row, bytes) ← packRow rest (length rows);
     pack_rows fuel (drop i rest) (rows ++ [row]) (Z.max m bytes))) as -> by by destruct rest.
  destruct (Nat.leb_spec RLM_CONTEXT_MAX_ROWS (length rows)) as [|Hrows]; [by left|].
  rewrite unless_false by done. destruct (packRow_spec rest (length rows)) as (i&->&Ht&Hwt&Hwd&Hmax&Hfull); [done..|].
  cbn [mbind Codec_bind]. destruct (IH (drop i rest) (rows ++ [row_text (length rows) (take i rest)])
    (Z.max m (usize (row_text (length rows) (take i rest))))) as [E|(new&Hp&E)]; [|done|by left|].
  { rewrite length_drop. assert (i ≠ O) by (intros ->; done). lia. }
  right. exists (row_text (length rows) (take i rest) :: new). split.
  - rewrite <- (take_drop i rest) at 1. constructor; [done..|]. by rewrite length_app, Nat.add_1_r in Hp.
  - rewrite E, <- app_assoc. done.
Qed.

(** ** Facts: what the rows hold *)

Lemma packed_rows n text rows : packed n text rows →
  Forall printable rows ∧ mjoin <$> mapM row_fragment rows = Some text ∧
  Forall (λ r, usize r <= RLM_CONTEXT_ROW_UTF8_MAX) rows.
Proof.
  induction 1 as [n|n fragment rest rows [Hu Hw] Hne Hmax Hfull Hp (IH1&IH2&IH3)]; [done|].
  split_and!; [constructor; [apply row_printable|done]| |by constructor].
  cbn [mapM]. rewrite row_fragment_text by done. cbn [mbind option_bind].
  destruct (mapM row_fragment rows) as [l|]; [|done]. cbn [mbind option_bind] in *. injection IH2 as <-. done.
Qed.

Lemma split_lines_join rows : rows ≠ [] → Forall printable rows → split_lines (Json.join [10%N] rows) = rows.
Proof.
  assert (∀ s, printable s → split_lines s = [s]) as H1.
  { intros s Hs. induction Hs as [|c s Hc Hs IH]; [done|]. cbn [split_lines].
    rewrite (proj2 (N.eqb_neq c 10)) by lia. by rewrite IH. }
  assert (∀ s t, printable s → split_lines (s ++ 10%N :: t) = s :: split_lines t) as H2.
  { intros s t Hs. induction Hs as [|c s Hc Hs IH]; [done|]. cbn [split_lines app].
    rewrite (proj2 (N.eqb_neq c 10)) by lia. by rewrite IH. }
  intros Hne H. induction H as [|x rows Hx Hrows IH]; [done|]. destruct rows as [|y rows]; [by apply H1|].
  change (Json.join [10%N] (x :: y :: rows)) with (x ++ 10%N :: Json.join [10%N] (y :: rows)).
  rewrite H2 by done. by rewrite IH.
Qed.

Lemma row_opens n fragment : opens_plain (row_text n fragment).
Proof. done. Qed.
Lemma row_bytes_min n fragment : 14 <= usize (row_text n fragment).
Proof.
  unfold row_text. rewrite usize_app by done. rewrite usize_quote by done.
  assert (11 <= usize (row_head n)); [|pose proof (usize_nonneg (escape fragment)); change (usize (js "}")) with 1; lia].
  rewrite usize_ascii by apply row_head_ascii. unfold row_head. rewrite !length_app.
  pose proof (dec_nonempty (N.of_nat n)). destruct (dec (N.of_nat n)); [done|]. simpl. lia.
Qed.

Lemma packed_head n text rows : packed n text rows → match rows with [] => text = [] | r :: _ => text ≠ [] ∧ 14 <= usize r end.
Proof. destruct 1 as [|n f rest rows Hw Hne]; [done|]. split; [by destruct f|apply row_bytes_min]. Qed.

Lemma packed_context_bytes n text rows : packed n text rows →
  opens_plain (Json.join [10%N] rows) ∧
  (RLM_CONTEXT_ROW_UTF8_MAX - 4) * (Z.of_nat (length rows) - 1) <= usize (Json.join [10%N] rows).
Proof.
  induction 1 as [n|n fragment rest rows Hw Hne Hmax Hfull Hp [IH1 IH2]].
  { split; [done|]. unfold usize. simpl. unfold RLM_CONTEXT_ROW_UTF8_MAX. lia. }
  apply packed_head in Hp as Hh. destruct rows as [|r rows].
  { split; [done|]. cbn [length]. pose proof (usize_nonneg (Json.join [10%N] [row_text n fragment])). lia. }
  change (Json.join [10%N] (row_text n fragment :: r :: rows)) with (row_text n fragment ++ [10%N] ++ Json.join [10%N] (r :: rows)).
  split; [done|]. rewrite usize_app by done. rewrite usize_app by done. change (usize [10%N]) with 1.
  specialize (Hfull (proj1 Hh)). cbn [length] in *. lia.
Qed.

(** Every read takes one row: a second row never fits the slice. *)
Lemma packed_plan n text rows : packed n text rows → ∀ fuel start, (length rows <= fuel)%nat →
  plan_slices fuel start rows = inl (imap (λ k r, mkSlice (start + k) 1 (usize r)) rows).
Proof.
  induction 1 as [n|n fragment rest rows Hw Hne Hmax Hfull Hp IH]; intros fuel start Hf; [by destruct fuel|].
  destruct fuel as [|fuel]; [simpl in Hf; lia|]. cbn [plan_slices]. change (utf8Bytes ?s) with (usize s).
  rewrite unless_false by (apply Z.ltb_ge; exact Hmax).
  assert (extend_slice 1 (usize (row_text n fragment)) rows = (1%nat, usize (row_text n fragment))) as ->.
  { apply packed_head in Hp as Hh. destruct rows as [|r rows]; [done|]. destruct Hh as [Hr Hmin]. specialize (Hfull Hr).
    cbn [extend_slice]. change (utf8Bytes ?s) with (usize s). change (1 <? RLM_CONTEXT_SLICE_ROWS)%nat with true. cbn match.
    rewrite (proj2 (Z.ltb_lt _ _)); [done|]. unfold RLM_CONTEXT_SLICE_UTF8_MAX, RLM_CONTEXT_ROW_UTF8_MAX in *. lia. }
  cbn [drop]. rewrite IH by (simpl in Hf; lia). cbn [mbind Codec_bind imap]. rewrite Nat.add_0_r. do 2 f_equal.
  apply imap_ext. intros k r _. simpl. f_equal. lia.
Qed.

(** ** Facts: the whole encoding *)

Section encoding.
Context `{Platform} `{HandoffEnv}.

Definition result_of (envelope : jsstr) (rows : list jsstr) : WorkflowRlmContextCodecResult :=
  let context := Json.join [10%N] rows in
  mkCodecResult context (js "sha256:" ++ sha256_hex (utf8 context)) (sha256_hex (utf8 envelope)) (utf8Bytes envelope)
    (utf8Bytes context) (length rows) (foldl Z.max 0 (usize <$> rows))
    (imap (λ k r, mkSlice k 1 (usize r)) rows) (length rows).

Lemma hash_or_throw_wf text : toWellFormed text = text → hash_or_throw text = inl (sha256_hex (utf8 text)).
Proof. intros Hw. unfold hash_or_throw, hashWorkflowText. by rewrite (proj2 (well_formed_true _) Hw). Qed.

Lemma row_text_wf n fragment : well_text (row_text n fragment).
Proof.
  unfold row_text. apply well_text_app; [apply well_text_ascii, row_head_ascii|].
  apply well_text_app; [apply quote_well_text|done].
Qed.
Lemma packed_wf n text rows : packed n text rows → well_text (Json.join [10%N] rows).
Proof.
  induction 1 as [|n fragment rest rows Hw Hne Hmax Hfull Hp IH]; [done|]. destruct rows as [|r rows]; [apply row_text_wf|].
  change (well_text (row_text n fragment ++ [10%N] ++ Json.join [10%N] (r :: rows))).
  apply well_text_app; [apply row_text_wf|]. by apply (well_text_app [10%N]).
Qed.
Lemma packed_nul n text rows : packed n text rows → holds_char 0 (Json.join [10%N] rows) = false.
Proof.
  intros (Hp&_&_)%packed_rows. unfold holds_char. induction Hp as [|r rows Hr Hrows IH]; [done|].
  pose proof (printable_holds 0 r ltac:(lia) Hr) as Hnul. destruct rows as [|r' rows]; [done|].
  change (Json.join [10%N] (r :: r' :: rows)) with (r ++ [10%N] ++ Json.join [10%N] (r' :: rows)).
  unfold holds_char in Hnul. by rewrite !existsb_app, Hnul, IH.
Qed.
Lemma packed_nonempty n text rows : packed n text rows → rows = [] ↔ text = [].
Proof. intros Hp%packed_head. destruct rows; [by split|]. naive_solver. Qed.

Definition refusal (code : WorkflowRlmContextCodecCode) : bool :=
  match code with INVALID_INPUT | INDEX_BOUND | ROW_LIMIT | STORE_LIMIT => true | READ_LIMIT | UNENCODABLE => false end.
(** A context within the store limit has at most this many rows. *)
Definition max_stored_rows : nat := 158.

(** A guard that fails is one of the refusals. *)
Ltac guarded HE := match type of HE with ?L = mbind (λ _, ?m) (unless ?b ?code) =>
  destruct b eqn:?; [left; exists code; split; [reflexivity|exact HE]|]; change (L = m) in HE end.

Lemma encode_cases snapshot index :
  plain snapshot → plain index →
  (∃ code, refusal code = true ∧ encodeWorkflowRlmContext snapshot index = inr (Some code)) ∨
  ∃ rows, packed 0 (workflowRlmEnvelope snapshot index) rows ∧ rows ≠ [] ∧ (length rows <= max_stored_rows)%nat ∧
    usize (Json.join [10%N] rows) <= RLM_CONTEXT_STORE_UTF8_MAX ∧
    encodeWorkflowRlmContext snapshot index = inl (result_of (workflowRlmEnvelope snapshot index) rows).
Proof.
  intros Hs Hi. set (envelope := workflowRlmEnvelope snapshot index).
  assert (well_formed envelope) as Hw.
  { split; [|apply stringify_well_text]. apply stringify_units. apply plain_obj.
    repeat constructor; simpl; try done; by apply ascii_units; ascii_lit. }
  remember (encodeWorkflowRlmContext snapshot index) as E eqn:HE. unfold encodeWorkflowRlmContext in HE. fold envelope in HE.
  do 5 guarded HE. rewrite (proj2 (well_formed_true envelope)) in HE by apply Hw. rewrite unless_false in HE by done.
  rewrite hash_or_throw_wf in HE by apply Hw. cbn [mbind Codec_bind] in HE.
  destruct (pack_rows_spec (length envelope) envelope [] 0) as [Hr|(rows&Hp&Hr)]; [lia|done| |]; rewrite Hr in HE.
  { left. by exists ROW_LIMIT. }
  cbn [app mbind Codec_bind] in HE. guarded HE. rewrite unless_false in HE by (by eapply packed_nul).
  guarded HE. unfold planContextSlices in HE. erewrite packed_plan in HE; [|exact Hp|done]. cbn [mbind Codec_bind] in HE.
  rewrite length_imap in HE. change (utf8Bytes ?s) with (usize s) in *.
  match goal with H : (RLM_CONTEXT_STORE_UTF8_MAX <? _) = false |- _ => apply Z.ltb_ge in H as Hstore end.
  destruct (packed_context_bytes _ _ _ Hp) as [_ Hlen].
  assert (length rows <= max_stored_rows)%nat as Hrows.
  { unfold max_stored_rows. unfold RLM_CONTEXT_STORE_UTF8_MAX, RLM_CONTEXT_ROW_UTF8_MAX in *. lia. }
  rewrite unless_false in HE by (apply Nat.ltb_ge; unfold max_stored_rows, RLM_CONTEXT_MAX_READS in *; lia).
  rewrite hash_or_throw_wf in HE by (by eapply packed_wf). right. exists rows.
  split_and!; [exact Hp|by eapply bool_decide_eq_false|exact Hrows|exact Hstore|exact HE].
Qed.
End encoding.

(** ** Properties *)

(** C24: What the guest reconstructs from the context rows, by splitting on line feeds, parsing
    each row and joining the fragments, is the envelope, which determines the snapshot and
    the index it was made from; the rows, their number and their greatest size are as reported,
    each row fits a slice, and the identities are the digests of the context and the envelope. *)
Theorem context_roundtrip `{Platform} `{HandoffEnv} snapshot index r :
  plain snapshot → plain index → encodeWorkflowRlmContext snapshot index = inl r →
  guest_envelope (cr_context r) = Some (workflowRlmEnvelope snapshot index) ∧
  (∀ snapshot' index', plain snapshot' → plain index' →
     workflowRlmEnvelope snapshot' index' = workflowRlmEnvelope snapshot index → snapshot' = snapshot ∧ index' = index) ∧
  let rows := split_lines (cr_context r) in
  cr_rows r = length rows ∧ cr_maxRowUtf8Bytes r = foldl Z.max 0 (utf8Bytes <$> rows) ∧
  Forall (λ row, utf8Bytes row <= RLM_CONTEXT_ROW_UTF8_MAX) rows ∧
  cr_contextId r = js "sha256:" ++ sha256_hex (utf8 (cr_context r)) ∧
  cr_envelopeSha256 r = sha256_hex (utf8 (workflowRlmEnvelope snapshot index)) ∧
  cr_contextUtf8Bytes r = utf8Bytes (cr_context r) ∧ cr_contextUtf8Bytes r <= RLM_CONTEXT_STORE_UTF8_MAX.
Proof.
  intros Hs Hi E. destruct (encode_cases snapshot index) as [(code&_&E')|(rows&Hp&Hne&_&Hst&E')]; [done..|congruence|].
  rewrite E' in E. injection E as <-. destruct (packed_rows _ _ _ Hp) as (Hpr&Hm&Hmax).
  unfold result_of. cbn [cr_context cr_rows cr_maxRowUtf8Bytes cr_contextId cr_envelopeSha256 cr_contextUtf8Bytes].
  unfold guest_envelope. rewrite split_lines_join by done. split_and!; try done.
  intros snapshot' index' Hs' Hi' Ee. unfold workflowRlmEnvelope in Ee.
  apply stringify_inj in Ee; [by injection Ee as -> ->|..]; apply plain_obj; repeat constructor; simpl; try done;
    by apply ascii_units; ascii_lit.
Qed.

(** Encoding is total but for four refusals - a source that is not bound, an index past
    its bound, and the row and store limits: no row is ever unencodable and the read limit
    is never met, since each read takes exactly one row and a context that can be stored
    has at most 158. *)
Theorem context_reads_bounded `{Platform} `{HandoffEnv} snapshot index :
  plain snapshot → plain index →
  match encodeWorkflowRlmContext snapshot index with
  | inl r =>
      cr_contextSlicePlan r = imap (λ k row, mkSlice k 1 (utf8Bytes row)) (split_lines (cr_context r)) ∧
      cr_minContextReads r = cr_rows r ∧ (0 < cr_rows r <= 158)%nat
  | inr e => e = Some INVALID_INPUT ∨ e = Some INDEX_BOUND ∨ e = Some ROW_LIMIT ∨ e = Some STORE_LIMIT
  end.
Proof.
  intros Hs Hi. destruct (encode_cases snapshot index) as [(code&Hc&->)|(rows&Hp&Hne&Hlen&_&->)]; [done..| |].
  - destruct code; try done; tauto.
  - destruct (packed_rows _ _ _ Hp) as (Hpr&_&_). unfold result_of.
    cbn [cr_contextSlicePlan cr_context cr_minContextReads cr_rows]. rewrite split_lines_join by done.
    unfold max_stored_rows in Hlen. split_and!; [done|done|destruct rows; [done|simpl; lia]|done].
Qed.
