(* ===== verification/WorkflowFacts.v ===== *)
(** * What a run of the commitment workflow guarantees

    A complete run publishes a ledger that was checked against the accepted snapshot, while
    its guidance was current and its usage known; any other run publishes none. A run sends
    at most two requests, without tools. It returns a result whatever is thrown, except for
    guidance given to an arm that takes none. *)

From S2P Require Export HandoffExact Workflow.
Open Scope Z_scope.

(** ** What the claims speak of *)

Section specs.
Context `{Platform} `{HandoffEnv} {S : Type} `{WorkflowPort S}.

(** At [h] the last look at the budget's signal and at the guidance finds both standing,
    and the accounts it then takes are settled: no call is open and all usage is known. *)
Definition settled_at (o : RunWorkflowOptions S) (h : S) : Prop :=
  let '(refusal, h') := checkLive_host o h in
  let v := fst (budget_snapshot h') in
  signal_aborted h = false ∧ refusal = None ∧ sn_activeCalls v = 0 ∧ sn_usageStatus v = js "complete".

(** The host after that look, and at the end of a run that looked last at [h]: it is read
    once more for the usage, and for the time. *)
Definition last_look (o : RunWorkflowOptions S) (h : S) : S := snd (budget_snapshot (snd (checkLive_host o h))).
Definition closing (h : S) : S := snd (date_now (snd (budget_snapshot h))).

(** The task reference a guidance turns into. *)
Definition reference_of (g : option (WorkflowGuidance S)) (reference : option jsstr) : Prop :=
  match g, reference with
  | None, None => True
  | Some g, Some text => ∃ rest, text = match wg_kind g with Active_guidance _ _ => ACTIVE_REFERENCE
                                        | Candidate_guidance _ _ => CANDIDATE_REFERENCE end ++ rest
  | _, _ => False
  end.

(** A request of the run with these messages: no tool is offered. *)
Definition tool_free (messages : list LLMMessage) (p : LLMCreateParams) : Prop :=
  lc_messages p = Some <$> messages ∧ lc_tools p = Some [] ∧
  lc_system p = Some (WORKFLOW_SYSTEM_PROMPT ledger_schema).
(** What is wrong with a reply: it was cut at an output limit, or its text is not a ledger
    of the snapshot. *)
Inductive complaint (snapshot : CommitmentSnapshot) (response : json) (text : jsstr) : list WorkflowValidationIssue → Prop :=
  | complaint_cut : stops_with "max_tokens" response = true →
      complaint snapshot response text [mkIssue (js "WORKFLOW_OUTPUT_TRUNCATED") (js "workflow")
        (js "The provider stopped at an output limit; the result is incomplete.")]
  | complaint_refused r : stops_with "max_tokens" response = false →
      validateCommitmentLedger (snapshot_json snapshot) (default JNull (parse_json text)) = Some (Refused r) →
      complaint snapshot response text (wv_issues r).
(** The exchanges that open with [first]: one, and one more with the text of the first
    reply and what is wrong with it. *)
Inductive dialogue (snapshot : CommitmentSnapshot) (first : LLMMessage) : list (LLMCreateParams * (json + thrown)) → Prop :=
  | dialogue_none : dialogue snapshot first []
  | dialogue_asked p answer : tool_free [first] p → dialogue snapshot first [(p, answer)]
  | dialogue_repair p response bs issues q answer :
      let text := mjoin (block_text <$> bs) in
      tool_free [first] p → blocks response = Some bs → stops_with "tool_use" response = false →
      forallb is_text bs = true → complaint snapshot response text issues →
      tool_free [first; mkMessage Assistant (Prose text); mkMessage User (Prose (repair_request issues))] q →
      dialogue snapshot first [(p, inl response); (q, answer)].
End specs.

(** ** A logic of runs *)

Section logic.
Context `{Platform} `{HandoffEnv} {S : Type} `{WorkflowPort S}.

(** From [s], [m] ends with a value in [Q], or stops in [E]. *)
Definition leads {A} (m : W A) (s : Run S) (Q : A → Run S → Prop) (E : stop → Run S → Prop) : Prop :=
  match m s with (inl a, s') => Q a s' | (inr e, s') => E e s' end.

Lemma leads_ret {A} (a : A) s (Q : A → Run S → Prop) E : Q a s → leads (mret a) s Q E.
Proof. done. Qed.
Lemma leads_stops {A} e s (Q : A → Run S → Prop) (E : stop → Run S → Prop) : E e s → leads (stops e) s Q E.
Proof. done. Qed.
Lemma leads_bind {A B} (m : W A) (k : A → W B) s Q E :
  leads m s (λ a s', leads (k a) s' Q E) E → leads (m ≫= k) s Q E.
Proof. unfold leads, mbind, W_bind. by destruct (m s) as [[a|e] s']. Qed.
Lemma leads_weaken {A} (m : W A) s (Q Q' : A → Run S → Prop) (E E' : stop → Run S → Prop) :
  leads m s Q E → (∀ a s', Q a s' → Q' a s') → (∀ e s', E e s' → E' e s') → leads m s Q' E'.
Proof. unfold leads. destruct (m s) as [[a|e] s']; auto. Qed.
Lemma leads_on_host {A} (f : S → A * S) s (Q : A → Run S → Prop) E :
  (∀ a h, f (ru_host s) = (a, h) → Q a (mkRun h (ru_exchanges s) (ru_trace s))) → leads (on_host f) s Q E.
Proof. intros HQ. unfold leads, on_host. destruct (f (ru_host s)) as [a h] eqn:Ef. by apply HQ. Qed.
Lemma leads_awaited {A} (v : option A) s (Q : A → Run S → Prop) (E : stop → Run S → Prop) :
  let s' := mkRun (pause (ru_host s)) (ru_exchanges s) (ru_trace s) in
  (∀ a, v = Some a → Q a s') → (v = None → E (Threw T_other) s') → leads (awaited v) s Q E.
Proof. intros s' HQ HE. unfold awaited. apply leads_bind. destruct v; [by apply HQ|by apply HE]. Qed.
Lemma leads_checked_by f s (Q : () → Run S → Prop) (E : stop → Run S → Prop) :
  (∀ h, f (ru_host s) = (None, h) → Q tt (mkRun h (ru_exchanges s) (ru_trace s))) →
  (∀ e h, f (ru_host s) = (Some e, h) → E (Threw e) (mkRun h (ru_exchanges s) (ru_trace s))) → leads (checked_by f) s Q E.
Proof.
  intros HQ HE. unfold checked_by. apply leads_bind, leads_on_host. intros [e|] h Ef; [by apply HE|by apply HQ].
Qed.

(** Steps that leave the requests and the trace alone. *)
Definition silent {A} (m : W A) : Prop := ∀ s,
  leads m s (λ _ s', ru_exchanges s' = ru_exchanges s ∧ ru_trace s' = ru_trace s)
    (λ e s', ru_exchanges s' = ru_exchanges s ∧ ru_trace s' = ru_trace s ∧ ∃ t, e = Threw t).
Lemma leads_silent {A} (m : W A) s (Q : A → Run S → Prop) (E : stop → Run S → Prop) :
  silent m → (∀ a h, Q a (mkRun h (ru_exchanges s) (ru_trace s))) →
  (∀ t h, E (Threw t) (mkRun h (ru_exchanges s) (ru_trace s))) → leads m s Q E.
Proof.
  intros Hm HQ HE. eapply leads_weaken; [apply Hm|..].
  - intros a [h l t] [E1 E2]. simpl in E1, E2. subst. apply HQ.
  - intros e [h l t] (E1&E2&t'&->). simpl in E1, E2. subst. apply HE.
Qed.
Lemma silent_on_host {A} (f : S → A * S) : silent (on_host f).
Proof. intros s. by apply leads_on_host. Qed.
Lemma silent_checked_by f : silent (checked_by f).
Proof. intros s. apply leads_checked_by; naive_solver. Qed.
Lemma silent_raises {A} e : silent (A := A) (raises e).
Proof. intros s. apply leads_stops. eauto. Qed.
Lemma silent_ret {A} (a : A) : silent (mret a).
Proof. intros s. by apply leads_ret. Qed.
Lemma silent_bind {A B} (m : W A) (k : A → W B) : silent m → (∀ a, silent (k a)) → silent (m ≫= k).
Proof.
  intros Hm Hk s. apply leads_bind, (leads_silent m); [done|..].
  - intros a h. by apply (Hk a (mkRun h _ _)).
  - eauto.
Qed.
Lemma silent_guidance o : silent (guidance_reference o).
Proof.
  unfold guidance_reference, buildRefinementContext.
  repeat case_match; auto using silent_ret; (apply silent_bind; [|intros; apply silent_ret]);
    repeat case_match; auto using silent_raises, silent_ret.
Qed.
Lemma silent_recordUse o : silent (record_guidance_use o).
Proof. unfold record_guidance_use. repeat case_match; auto using silent_checked_by, silent_ret. Qed.
End logic.

(** ** Facts: what the run keeps track of *)

Section tracking.
Context `{Platform} `{HandoffEnv} {S : Type} `{WorkflowPort S}.

Definition taken (o : RunWorkflowOptions S) (snapshot : CommitmentSnapshot) : Prop :=
  validateCommitmentSnapshot (wo_snapshot o) = Some (Accepted snapshot (mkWorkflowReport true [])).
(** A snapshot that is accepted when it is written out and validated again. *)
Definition validated (snapshot : CommitmentSnapshot) : Prop :=
  validateCommitmentSnapshot (snapshot_json snapshot) = Some (Accepted snapshot (mkWorkflowReport true [])).
(** A report of something refused. *)
Definition refusal (r : WorkflowValidationReport) : Prop :=
  (∃ raw, validateCommitmentSnapshot raw = Some (Refused r)) ∨
  (∃ raw snapshot, validated snapshot ∧ validateCommitmentLedger (snapshot_json snapshot) raw = Some (Refused r)) ∨
  (∃ code message, r = workflowFailure code message ∧ identifier code = true ∧ text_between 1 500 message = true).
(** The exchanges of a run: none, or those that open with the accepted snapshot. *)
Definition talk (o : RunWorkflowOptions S) (sent : list (LLMCreateParams * (json + thrown))) : Prop :=
  sent = [] ∨
  recursive (wo_mode o) = false ∧ ∃ snapshot index reference nonce,
    taken o snapshot ∧ createCommitmentSourceIndex (snapshot_json snapshot) = inl index ∧
    reference_of (wo_guidance o) reference ∧ dialogue snapshot (first_message reference nonce snapshot index) sent.
(** The trace: the one the runtime answered with for the accepted snapshot. *)
Definition traced (o : RunWorkflowOptions S) (trace : option WorkflowAnalysisTrace) : Prop :=
  trace = None ∨
  recursive (wo_mode o) = true ∧ ∃ run input h output h',
    wo_runtime o = Some run ∧ taken o (ri_snapshot input) ∧ run input h = (inl (output, trace), h').
Definition kept (o : RunWorkflowOptions S) (s : Run S) : Prop := talk o (ru_exchanges s) ∧ traced o (ru_trace s).

Definition stopped (o : RunWorkflowOptions S) (e : stop) (s : Run S) : Prop :=
  kept o s ∧ e ≠ RlmExecutionError An_complete.
(** The ledger checked against the accepted snapshot, or the refusal reported instead. *)
Definition judged (snapshot : CommitmentSnapshot) (ledger : option CommitmentLedger) (r : WorkflowValidationReport) : Prop :=
  match ledger with
  | Some l => ∃ raw, validateCommitmentLedger (snapshot_json snapshot) raw = Some (Accepted l r)
  | None => refusal r
  end.
Definition whole_analysis (o : RunWorkflowOptions S) (s : Run S) : Prop :=
  recursive (wo_mode o) = true → ∃ t, ru_trace s = Some t ∧ wt_outcome t = An_complete.
Definition published (o : RunWorkflowOptions S) (out : run_outcome) (s : Run S) : Prop :=
  kept o s ∧ let '(status, ledger, r) := out in
  match ledger with
  | Some l => status = WS_complete ∧ whole_analysis o s ∧
      ∃ snapshot, taken o snapshot ∧ judged snapshot (Some l) r ∧ ∃ h, settled_at o h ∧ ru_host s = last_look o h
  | None => status ≠ WS_complete ∧ refusal r
  end.

Lemma workflow_failure_refusal code message :
  identifier code = true → text_between 1 500 message = true → refusal (workflowFailure code message).
Proof. intros. right. right. eauto. Qed.

(** ** Facts: one exchange with the model *)

Lemma all_texts bs : existsb (λ b, negb (is_text b)) bs = false → forallb is_text bs = true.
Proof. induction bs as [|b bs IH]; [done|]. simpl. destruct (is_text b); [exact IH|done]. Qed.


Lemma leads_ask ms s (Q : json → Run S → Prop) (E : stop → Run S → Prop) :
  (∀ p response h, tool_free ms p → Q response (mkRun h (ru_exchanges s ++ [(p, inl response)]) (ru_trace s))) →
  (∀ p t h, tool_free ms p → E (Threw t) (mkRun h (ru_exchanges s ++ [(p, inr t)]) (ru_trace s))) →
  leads (ask (Some <$> ms)) s Q E.
Proof.
  intros HQ HE. apply leads_bind, leads_on_host. intros v h1 _. apply leads_bind, leads_on_host. intros w h2 _.
  unfold leads, send_message. simpl. set (p := mkCreate _ _ _ _ _).
  assert (tool_free ms p) as Hp by done. clearbody p. destruct (create_message p h2) as [[r|t] h3]; simpl; auto.
Qed.

(** One round of the ordinary loop, given what follows a repair. *)
Lemma ordinary_round o snapshot repairs ms s (Q : option CommitmentLedger * WorkflowValidationReport → Run S → Prop)
    (E : stop → Run S → Prop) :
  validated snapshot →
  (∀ t h, E (Threw t) (mkRun h (ru_exchanges s) (ru_trace s))) →
  (∀ p x t h, tool_free ms p → E (Threw t) (mkRun h (ru_exchanges s ++ [(p, x)]) (ru_trace s))) →
  (∀ p x ledger r h, tool_free ms p → judged snapshot ledger r → Q (ledger, r) (mkRun h (ru_exchanges s ++ [(p, x)]) (ru_trace s))) →
  (∀ p repairs' response bs issues h, tool_free ms p → repairs = Datatypes.S repairs' →
     blocks response = Some bs → stops_with "tool_use" response = false → forallb is_text bs = true →
     complaint snapshot response (mjoin (block_text <$> bs)) issues →
     leads (ordinary o snapshot repairs' (Some <$> (ms ++ [mkMessage Assistant (Prose (mjoin (block_text <$> bs)));
       mkMessage User (Prose (repair_request issues))]))) (mkRun h (ru_exchanges s ++ [(p, inl response)]) (ru_trace s)) Q E) →
  leads (ordinary o snapshot repairs (Some <$> ms)) s Q E.
Proof.
  intros Hsnap Hearly Hlate Hdone Hrepair. setoid_rewrite fmap_app in Hrepair.
  assert (refusal (workflowFailure (js "WORKFLOW_TOOLS_FORBIDDEN")
    (js "Analysis returned a tool request. Nothing was dispatched."))) as Htools by by apply workflow_failure_refusal.
  assert (refusal (workflowFailure (js "WORKFLOW_OUTPUT_TRUNCATED")
    (js "The provider stopped at an output limit; the result is incomplete."))) as Hcut by by apply workflow_failure_refusal.
  assert (∀ A (m : W A) (k : A → _) p x h, tool_free ms p → silent m →
    (∀ a h, leads (k a) (mkRun h (ru_exchanges s ++ [(p, x)]) (ru_trace s)) Q E) →
    leads (m ≫= k) (mkRun h (ru_exchanges s ++ [(p, x)]) (ru_trace s)) Q E) as Hstep.
  { intros A m k p x h Hp Hm Hk. by apply leads_bind, leads_silent; [|apply Hk|intros; apply Hlate]. }
  destruct repairs as [|repairs]; simpl;
    (apply leads_bind, leads_silent; [apply silent_checked_by| |done]; intros [] h1;
     apply leads_bind, leads_ask; [|by auto]; intros p response h2 Hp; simpl;
     apply Hstep; [done|apply silent_checked_by|]; intros [] h3;
     destruct (stops_with "tool_use" response) eqn:Etool; [by apply leads_ret, Hdone|];
     destruct (blocks response) as [bs|] eqn:Ebs; [|by apply leads_stops, Hlate];
     destruct (existsb _ bs) eqn:Etext; [by apply leads_ret, Hdone|]; apply all_texts in Etext;
     apply leads_bind, leads_awaited; [|by intros; apply Hlate]; intros a Ha;
     assert (∀ r, a = Refused r → refusal r) as Hr by (intros r ->; right; left; eauto);
     destruct (stops_with "max_tokens" response) eqn:Ecut, a as [l r|r]; simpl).
  all: first [apply leads_ret, Hdone; simpl; by eauto | eapply Hrepair; [done..|by econstructor]].
Qed.

Lemma leads_ordinary o snapshot first h trace :
  validated snapshot →
  leads (ordinary o snapshot WORKFLOW_MAX_REPAIRS [Some first]) (mkRun h [] trace)
    (λ '(ledger, r) s, dialogue snapshot first (ru_exchanges s) ∧ ru_trace s = trace ∧ judged snapshot ledger r)
    (λ e s, dialogue snapshot first (ru_exchanges s) ∧ ru_trace s = trace ∧ ∃ t, e = Threw t).
Proof.
  intros Hs. change [Some first] with (Some <$> [first]).
  apply ordinary_round; [done|by intros; simpl; split_and!; eauto using dialogue..|]; simpl.
  intros p repairs response bs issues h' Hp [= <-] Hbs Htool Htext Hcomp.
  set (ms := [first; mkMessage Assistant (Prose (mjoin (block_text <$> bs))); mkMessage User (Prose (repair_request issues))]).
  apply (ordinary_round o snapshot 0 ms); [done|by intros; simpl; split_and!; eauto using dialogue..|].
  by intros ? ? ? ? ? ? _ [=].
Qed.

Lemma taken_validated o snapshot : taken o snapshot → validated snapshot.
Proof.
  intros (_&Hp&_&Hz&Hb&Hh)%snapshot_accepted_spec. apply parseSnapshot_ok in Hp.
  apply snapshot_accepted_spec. by rewrite parseSnapshot_json, Hp, snapshot_fits.
Qed.

Lemma leads_analysis o run snapshot index reference h :
  taken o snapshot → recursive (wo_mode o) = true → wo_runtime o = Some run →
  leads (analysis o run snapshot index reference) (mkRun h [] None)
    (λ '(ledger, r) s, kept o s ∧ judged snapshot ledger r ∧ whole_analysis o s)
    (stopped o).
Proof.
  intros Ha Hm Hrun. apply leads_bind. unfold on_host_or. apply leads_bind, leads_on_host.
  intros [[output trace]|t] h1 Er; simpl.
  2: { apply leads_stops. split; [|done]. by split; left. }
  apply leads_ret, leads_bind. set (input := mkRuntimeInput _ _ _ _ _ _) in Er.
  assert (∀ h', kept o (mkRun h' [] trace)) as Hk.
  { intros h'. split; [by left|]. right. split; [done|]. by exists run, input, h, output, h1. }
  unfold set_trace, leads at 1; simpl. apply leads_bind, leads_silent; [apply silent_checked_by| |by split].
  intros [] h2; simpl. destruct trace as [t|]; [|by apply leads_stops].
  destruct (bool_decide (wt_outcome t = An_complete)) eqn:Et; simpl.
  - apply bool_decide_eq_true in Et. apply leads_bind, leads_awaited; [|by split].
    intros [l r|r] Hv; apply leads_ret; (split; [apply Hk|split; [|by exists t]]).
    + by exists output.
    + right. left. exists output, snapshot. split; [by eapply taken_validated|done].
  - apply bool_decide_eq_false in Et. apply leads_stops. split; [apply Hk|]. by intros [= E].
Qed.

Lemma guidance_reference_spec o s (Q : option jsstr → Run S → Prop) (E : stop → Run S → Prop) :
  (∀ r, reference_of (wo_guidance o) r → Q r s) → (∀ t, E (Threw t) s) → leads (guidance_reference o) s Q E.
Proof.
  intros HQ HE. unfold guidance_reference, buildRefinementContext. destruct (wo_guidance o) as [g|]; [|by apply leads_ret, HQ].
  destruct (wg_kind g) as [pin use|vid vh] eqn:Eg; simpl.
  - apply leads_bind. destruct (negb (pin_ok pin)); [by apply leads_stops|].
    destruct (negb (content_ok _)); [by apply leads_stops|].
    destruct (canonicalJson _) as [text|]; [|by apply leads_stops]. apply leads_ret, leads_ret, HQ. simpl. rewrite Eg. eauto.
  - apply leads_ret, HQ. simpl. rewrite Eg. eauto.
Qed.

(** The end of [produce], once the model or the runtime has answered. *)
Lemma leads_published o snapshot ledger r s :
  taken o snapshot → kept o s → judged snapshot ledger r → whole_analysis o s →
  leads (checkLive o ;; settled ← on_host budget_snapshot;
        if bool_decide (is_Some ledger) && (negb (sn_activeCalls settled =? 0) || negb (eqs (sn_usageStatus settled) (js "complete")))
        then raises (T_budget UNKNOWN_USAGE)
        else mret (if bool_decide (is_Some ledger) then WS_complete else WS_invalid_output, ledger, r)) s
    (published o) (stopped o).
Proof.
  intros Ha Hk Hj Hw. apply leads_bind, leads_checked_by; [|by split]. intros h1 Hlive.
  apply leads_bind, leads_on_host. intros v h2 Hv. destruct ledger as [l|].
  2: { apply leads_ret. by split. }
  rewrite bool_decide_true by eauto. simpl.
  destruct (Z.eqb_spec (sn_activeCalls v) 0) as [E1|]; [|by apply leads_stops].
  destruct (eqs (sn_usageStatus v) _) eqn:E2; [|by apply leads_stops]. apply eqs_true in E2.
  apply leads_ret. split; [done|]. split; [done|]. split; [done|]. exists snapshot. split; [done|]. split; [done|].
  exists (ru_host s). unfold settled_at, last_look. rewrite Hlive. simpl in Hv |- *. rewrite Hv.
  split; [|done]. split_and!; [|done..].
  unfold checkLive_host in Hlive. destruct (signal_aborted (ru_host s)); [|done].
  by destruct (budget_snapshot (ru_host s)).
Qed.

Lemma leads_produce o snapshot h :
  taken o snapshot → (recursive (wo_mode o) = true → is_Some (wo_runtime o)) →
  leads (produce o snapshot) (mkRun h [] None) (published o) (stopped o).
Proof.
  intros Ha Hrt. assert (∀ e h', e ≠ RlmExecutionError An_complete → stopped o e (mkRun h' [] None)) as Hstop.
  { intros e h' He. by repeat split; [left..|]. }
  apply leads_bind, leads_awaited; [|by intros; apply Hstop].
  intros index Hix. destruct (createCommitmentSourceIndex _) as [ix|] eqn:Eix; [|done]. injection Hix as ->.
  apply leads_bind, leads_silent; [apply silent_checked_by| |by intros; apply Hstop]. intros [] h1. simpl.
  apply leads_bind, guidance_reference_spec; [|by intros; apply Hstop]. intros reference Href.
  apply leads_bind, leads_silent; [apply silent_recordUse| |by intros; apply Hstop]. intros [] h2. simpl.
  apply leads_bind. destruct (recursive (wo_mode o)) eqn:Hm.
  - destruct (wo_runtime o) as [run|] eqn:Hrun; [|by destruct (Hrt eq_refl)].
    eapply leads_weaken; [by apply leads_analysis| |done]. intros [ledger r] s (Hk&Hj&Hw). by eapply leads_published.
  - apply leads_bind, leads_on_host. intros nonce h3 _. simpl.
    assert (∀ s, dialogue snapshot (first_message reference nonce snapshot index) (ru_exchanges s) → ru_trace s = None → kept o s) as Hk.
    { intros s Hd Ht. split; [right; split; [done|]|by left]. by exists snapshot, index, reference, nonce. }
    eapply leads_weaken; [by apply leads_ordinary, (taken_validated o)|..].
    + intros [ledger r] s (Hd&Ht&Hj). eapply leads_published; [done|by apply Hk|done|]. intros Hc. by rewrite Hm in Hc.
    + intros e s (Hd&Ht&t&->). split; [by apply Hk|done].
Qed.

Lemma leads_attempt o h : leads (attempt_run o) (mkRun h [] None) (published o) (stopped o).
Proof.
  assert (∀ h', kept o (mkRun h' [] None)) as Hk by by split; left.
  apply leads_bind, leads_awaited; [|by split]. intros [snapshot r|r] Hv.
  2: { apply leads_ret. split; [done|]. split; [done|]. left. eauto. }
  assert (taken o snapshot) as Ha.
  { unfold taken. rewrite Hv. by apply snapshot_accepted_spec in Hv as (_&_&->&_). }
  apply leads_bind, leads_silent; [apply silent_checked_by| |by split]. intros [] h1. simpl.
  destruct (negb (Bool.eqb _ _)); [by apply leads_stops|].
  destruct (recursive (wo_mode o)) eqn:Hm; simpl; [|by apply leads_produce; [|rewrite Hm]].
  destruct (wo_runtime o) as [run|] eqn:Hrun; simpl; [by apply leads_produce; [|rewrite Hrun; eauto]|].
  apply leads_ret. split; [done|]. split; [done|]. by apply workflow_failure_refusal.
Qed.

Lemma recovered_published o e s : stopped o e s → published o (recovered e) s.
Proof.
  intros [Hk He]. split; [done|]. destruct e as [[code|code|]|outcome]; simpl.
  - split; [done|]. by apply workflow_failure_refusal; [destruct code|].
  - split; [by destruct code|]. by apply workflow_failure_refusal; [destruct code|].
  - split; [done|]. by apply workflow_failure_refusal.
  - split; [by destruct outcome|]. by apply workflow_failure_refusal.
Qed.

(** What the run has in hand before it builds its result. *)
Lemma leads_caught o h :
  leads (catching (attempt_run o) (λ e, mret (recovered e))) (mkRun h [] None) (published o) (λ _ _, False).
Proof.
  pose proof (leads_attempt o h) as Hr. unfold leads, catching in *.
  destruct (attempt_run o (mkRun h [] None)) as [[out|e] s]; [done|]. by apply recovered_published.
Qed.

(** A run from its start to the result it tries to publish. *)
Lemma run_result o h r s :
  runCommitmentWorkflow o h = (r, s) →
  ∃ status ledger report elapsed s1, published o (status, ledger, report) s1 ∧
    ru_exchanges s = ru_exchanges s1 ∧ ru_trace s = ru_trace s1 ∧ ru_host s = closing (ru_host s1) ∧ 0 <= elapsed ∧
    let result := mkRunResult (wo_runId o) (wo_mode o) (string_member "snapshotId" (wo_snapshot o))
        (string_member "snapshotHash" (wo_snapshot o)) status ledger report
        (workflowUsage (fst (budget_snapshot (ru_host s1))) (wo_usageKind o))
        (guidance_pin <$> wo_guidance o) (wo_model o) elapsed (ru_trace s) (notices (wo_usageKind o)) in
    r = if run_result_ok result then Some result else None.
Proof.
  unfold runCommitmentWorkflow. destruct (date_now h) as [started h1].
  pose proof (leads_caught o h1) as Hc. unfold leads in Hc.
  destruct (catching _ _ _) as [[[[status ledger] report]|e] s1]; [|done].
  destruct (budget_snapshot (ru_host s1)) as [v h2] eqn:Ev. destruct (date_now h2) as [now h3] eqn:Ed. intros [= <- <-].
  exists status, ledger, report, (Z.max 0 (now - started)), s1.
  split; [done|]. split; [done|]. split; [done|]. unfold closing. rewrite Ev. cbn [fst snd]. rewrite Ed.
  split; [done|]. split; [lia|done].
Qed.
End tracking.

(** ** Facts: reports meet their schema *)

(** What the run relies on in the code around it: a parse that zod refuses has an issue,
    whose path is short; the runtime answers with a well-formed trace of the snapshot it was
    given; and the token counts a budget has observed are safe integers. *)
Record honours `{Platform} `{HandoffEnv} {S : Type} `{WorkflowPort S} (o : RunWorkflowOptions S) : Prop := {
  honours_zod : ∀ s v, zodIssues s v ≠ [] ∧ Forall (λ '(path, _), text_between 0 300 (Json.join (js ".") path) = true) (zodIssues s v);
  honours_runtime : ∀ run input h output t h', wo_runtime o = Some run → run input h = (inl (output, Some t), h') →
    trace_ok t = true ∧ wt_snapshotHash t = snap_snapshotHash (ri_snapshot input);
  honours_tokens : ∀ h z, let v := fst (budget_snapshot h) in
    sn_observedInputTokens v = TokNum z ∨ sn_observedOutputTokens v = TokNum z → token_ok z = true;
}.
(** What a caller hands over that the result repeats: the run's identifier, the identifier
    and the hash the snapshot gives itself, the model and the guidance's pin. *)
Definition presentable {S : Type} (o : RunWorkflowOptions S) : bool :=
  identifier (wo_runId o) && is_some_and identifier (string_member "snapshotId" (wo_snapshot o)) &&
  is_some_and hash_ok (string_member "snapshotHash" (wo_snapshot o)) &&
  or_null (λ g, let f := guidance_pin g in identifier (rr_id f) && (1 <=? rr_version f) &&
    (rr_version f <=? max_safe) && hash_ok (rr_hash f)) (wo_guidance o) &&
  or_null (λ m, text_between 1 100 (rm_provider m) && text_between 1 150 (rm_model m) &&
    or_null (text_between 1 40) (rm_effort m)) (wo_model o).

Section reports.
Context `{Platform} `{HandoffEnv}.
Context (zod : ∀ s v, zodIssues s v ≠ [] ∧ Forall (λ '(path, _), text_between 0 300 (Json.join (js ".") path) = true) (zodIssues s v)).

Lemma cut_high a b : toWellFormed (a ++ b) = a ++ b →
  let a' := match last a with Some c => if is_high c then take (length a - 1) a else a | None => a end in
  toWellFormed a' = a'.
Proof.
  intros Hab. simpl. destruct (last a) as [c|] eqn:Hl; [|by apply last_None in Hl as ->].
  apply last_Some in Hl as [a' ->]. destruct (is_high c) eqn:Hc.
  - rewrite length_app, Nat.add_sub, take_app_length. rewrite <- app_assoc in Hab.
    apply cut_well_formed in Hab. apply Hab. unfold cut_pair. destruct (last a') as [d|]; [|done]. simpl.
    rewrite andb_false_iff. right. apply not_true_iff_false. intros Hlow%low_not_high. congruence.
  - apply cut_well_formed in Hab. apply Hab. unfold cut_pair. rewrite last_snoc. destruct b; [done|]. by rewrite Hc.
Qed.

Lemma diagnostic_ok v : text_between 1 500 (diagnostic v) = true.
Proof.
  unfold diagnostic. set (t := toWellFormed v).
  set (b := match last (take 500 t) with Some c => _ | None => _ end).
  assert (toWellFormed b = b) as Hb.
  { apply (cut_high _ (drop 500 t)). rewrite take_drop. apply toWellFormed_idemp. }
  assert (length b <= 500)%nat as Hl.
  { unfold b. destruct (last _) as [c|]; [destruct (is_high c)|]; rewrite ?length_take; lia. }
  clearbody b. destruct b as [|c b]; [done|]. unfold text_between, between. rewrite (proj2 (well_formed_true _) Hb). simpl in *.
  apply Nat.leb_le. lia.
Qed.

Lemma forallb_True_eq {A} (f : A → bool) l : Forall (λ x, f x = true) l → forallb f l = true.
Proof. rewrite forallb_forall, Forall_forall. intros Hf x Hx%list_elem_of_In. by apply Hf. Qed.

Lemma report_meets issues : issues ≠ [] → Forall (λ i, issue_ok i = true) issues →
  workflow_report_ok (report issues) = true ∧ wv_valid (report issues) = false.
Proof.
  intros Hn Hi. assert (wv_valid (report issues) = false) as Hv by by apply bool_decide_eq_false. split; [|done].
  unfold workflow_report_ok. rewrite Hv. cbn [report wv_issues]. rewrite bool_decide_false.
  2: { by destruct issues. }
  tested; [|by apply forallb_True_eq, Forall_take|done].
  apply andb_true_iff. split; [done|]. apply Nat.leb_le. rewrite length_take. lia.
Qed.

Lemma schema_issues_ok s v : let l := schemaIssues (zodIssues s v) in l ≠ [] ∧ Forall (λ i, issue_ok i = true) l.
Proof.
  destruct (zod s v) as [Hn Hp]. simpl. unfold schemaIssues. destruct (zodIssues s v) as [|i l]; [done|].
  split; [done|]. apply Forall_fmap, Forall_take. eapply Forall_impl; [exact Hp|]. intros [path message] Hpath.
  unfold issue_ok. simpl. by rewrite Hpath, diagnostic_ok.
Qed.

Lemma body_issues_ok i l bodies :
  (i + length l <= 32)%nat → body_issues i l = Some bodies → Forall (λ i, issue_ok i = true) bodies.
Proof.
  revert i bodies. induction l as [|m l IH]; intros i bodies Hl; simpl; [by intros [= <-]|]. simpl in Hl.
  destruct (hashWorkflowText _) as [h|]; simpl; [|done]. destruct (body_issues (S i) l) as [rest|] eqn:Er; simpl; [|done].
  apply IH in Er; [|lia]. destruct (eqs h _); intros [= <-]; [done|]. constructor; [|done].
  assert (forallb (λ i, issue_ok (mkIssue (js "source_hash") (js "messages." ++ dec (N.of_nat i) ++ js ".bodyHash")
    (js "Source body hash mismatch"))) (seq 0 32) = true) as E by by vm_compute.
  rewrite forallb_forall in E. apply E, in_seq. lia.
Qed.

Lemma snapshot_refused_ok raw r : validateCommitmentSnapshot raw = Some (Refused r) →
  workflow_report_ok r = true ∧ wv_valid r = false.
Proof.
  unfold validateCommitmentSnapshot. destruct (too_many _ _ _) eqn:Em.
  { intros [= <-]. by apply report_meets; [|repeat constructor]. }
  destruct (parseSnapshot raw) as [s|] eqn:Ep.
  2: { intros [= <-]. apply report_meets; apply schema_issues_ok. }
  apply parseSnapshot_ok in Ep. assert (length (snap_messages s) <= 32)%nat as Hlen.
  { unfold snapshot_ok in Ep. tests Ep.
    match goal with E : between 0 max_messages _ = true |- _ => by apply andb_true_iff in E as [_ E%Nat.leb_le] end. }
  destruct (body_issues 0 _) as [bodies|] eqn:Eb; simpl; [|done]. apply body_issues_ok in Eb; [|done].
  destruct (hashCommitmentSnapshot s) as [h|]; simpl; [|done].
  set (issues := _ ++ bodies ++ _). assert (Forall (λ i, issue_ok i = true) issues) as Hi.
  { apply Forall_app. split; [destruct (knownTimezone _); by repeat constructor|]. apply Forall_app.
    split; [done|]. destruct (eqs h _); by repeat constructor. }
  destruct issues as [|i issues]; [done|]. intros [= <-]. by apply report_meets.
Qed.

(** The paths of the evidences of a ledger. *)
Lemma evidence_issues_ok snapshot i field j e :
  (i < 12)%nat → (j < 6)%nat → field = "evidence" ∨ field = "priorEvidence" →
  Forall (λ i, issue_ok i = true)
    (evidence_issues snapshot (js "items." ++ dec (N.of_nat i) ++ js "." ++ js field ++ js "." ++ dec (N.of_nat j)) e).
Proof.
  intros Hi Hj Hf. set (path := _ ++ _). assert (text_between 0 300 path = true) as Hp.
  { assert (forallb (λ f, forallb (λ i, forallb (λ j, text_between 0 300 (js "items." ++ dec (N.of_nat i) ++ js "." ++
      js f ++ js "." ++ dec (N.of_nat j))) (seq 0 6)) (seq 0 12)) ["evidence"; "priorEvidence"] = true) as E by by vm_compute.
    rewrite forallb_forall in E. specialize (E field). rewrite forallb_forall in E.
    specialize (E ltac:(destruct Hf; subst; simpl; auto) i ltac:(apply in_seq; lia)). rewrite forallb_forall in E.
    apply E, in_seq. lia. }
  clearbody path. assert (∀ code message, identifier (js code) = true → text_between 1 500 (js message) = true →
    issue_ok (mkIssue (js code) path (js message)) = true) as Hk.
  { intros code message Hc Hm. unfold issue_ok. cbn [is_code is_path is_message]. by rewrite Hc, Hp, Hm. }
  unfold evidence_issues. destruct (message_of _ _) as [m|]; [|by constructor; [apply Hk|]].
  apply Forall_app. split; [destruct (eqs _ _); [done|by constructor; [apply Hk|]]|].
  destruct (_ || _); [by constructor; [apply Hk|]|]. destruct (eqs _ _); [done|by constructor; [apply Hk|]].
Qed.

Lemma Forall_imap_join {A B} (P : B → Prop) (f : nat → A → list B) l :
  (∀ i x, l !! i = Some x → Forall P (f i x)) → Forall P (mjoin (imap f l)).
Proof.
  intros Hf. apply Forall_join, Forall_lookup. intros i x Hx. rewrite list_lookup_imap in Hx.
  destruct (l !! i) as [a|] eqn:Ea; simpl in Hx; [|done]. injection Hx as <-. eauto.
Qed.

Lemma item_evidence_bounds ledger item : ledger_ok ledger = true → item ∈ led_items ledger →
  (length (led_items ledger) <= 12)%nat ∧ (length (item_evidence item) <= 6)%nat ∧ (length (item_priorEvidence item) <= 6)%nat.
Proof.
  intros Hl Hi. unfold ledger_ok in Hl. tests Hl.
  repeat match goal with E : between _ max_ledgerItems _ = true |- _ => apply andb_true_iff in E as [_ E%Nat.leb_le] end.
  match goal with E : forallb item_ok _ = true |- _ =>
    rewrite forallb_forall in E; specialize (E item (proj1 (list_elem_of_In _ _) Hi)); unfold item_ok in E; tests E end.
  repeat match goal with E : between _ max_evidencePerItem _ = true |- _ => apply andb_true_iff in E as [_ E%Nat.leb_le] end.
  done.
Qed.

Lemma ledger_issues_ok snapshot ledger :
  ledger_ok ledger = true → Forall (λ i, issue_ok i = true) (ledger_issues snapshot ledger).
Proof.
  intros Hl. unfold ledger_issues. apply Forall_app. split; [destruct (_ && _); by repeat constructor|].
  apply Forall_app. split.
  - apply Forall_imap_join. intros i item Hitem. apply list_elem_of_lookup_2 in Hitem as Hin.
    apply item_evidence_bounds in Hin as (Hlen&He&Hp); [|done]. apply lookup_lt_Some in Hitem.
    apply Forall_app. split; apply Forall_imap_join; intros j e Hj; apply lookup_lt_Some in Hj;
      apply evidence_issues_ok; auto; lia.
  - apply Forall_app. split; [destruct (_ && _); by repeat constructor|destruct (_ && _); by repeat constructor].
Qed.

Lemma refusal_ok r : refusal r → workflow_report_ok r = true ∧ wv_valid r = false.
Proof.
  intros [[raw Hv]|[(raw&snapshot&Hs&Hv)|(code&message&->&Hc&Hm)]].
  - by eapply snapshot_refused_ok.
  - unfold validateCommitmentLedger in Hv. rewrite Hs in Hv. simpl in Hv.
    destruct (too_many _ _ _); [injection Hv as <-; by apply report_meets; [|repeat constructor]|].
    destruct (parseLedger raw) as [ledger|] eqn:El; [|injection Hv as <-; apply report_meets; apply schema_issues_ok].
    apply parseLedger_ok in El as [El%(ledger_issues_ok snapshot) _]. destruct (ledger_issues snapshot ledger); [done|].
    injection Hv as <-. by apply report_meets.
  - change (workflowFailure code message) with (report [mkIssue code (js "workflow") message]).
    apply report_meets; [done|]. constructor; [|done]. unfold issue_ok. simpl. by rewrite Hc, Hm.
Qed.
End reports.

(** ** What a run guarantees *)

Section guarantees.
Context `{Platform} `{HandoffEnv} {S : Type} `{WorkflowPort S}.
Implicit Types (o : RunWorkflowOptions S) (r : WorkflowRunResult) (s : Run S).

(** C13: Only a complete run publishes a ledger, and that ledger is grounded in the snapshot
    the run accepted: every quote stands in its message. The last thing such a run did is to
    look at the budget and at the guidance - after the model or the runtime had answered and
    the ledger had been checked - and it found the budget open, the guidance current, no model
    call running and all usage known: the host is left in the state of that look, read once
    more for the usage the result reports and for the time. A recursive-model run has the
    trace of a complete analysis. Every other run publishes no ledger. *)
Theorem complete_run_grounded o h r s :
  runCommitmentWorkflow o h = (Some r, s) →
  if decide (wr_status r = WS_complete) then
    ∃ snapshot ledger, taken o snapshot ∧ wr_ledger r = Some ledger ∧ grounded snapshot ledger ∧
      wr_validation r = mkWorkflowReport true [] ∧
      (∃ h', settled_at o h' ∧ ru_host s = closing (last_look o h') ∧
         wr_usage r = workflowUsage (fst (budget_snapshot (last_look o h'))) (wo_usageKind o)) ∧
      (recursive (wo_mode o) = true → wt_outcome <$> wr_analysisTrace r = Some An_complete)
  else wr_ledger r = None.
Proof.
  intros (status&ledger&report&elapsed&s1&[Hk Hp]&_&Et&Eh&_&Er)%run_result.
  cbv zeta in Er. destruct (run_result_ok _); [|done]. injection Er as ->.
  cbn [wr_status wr_ledger wr_validation wr_analysisTrace wr_usage].
  destruct ledger as [l|]; [|by rewrite decide_False by apply Hp].
  destruct Hp as (->&Hw&snapshot&Ha&[raw Hj]&h'&Hs&El). rewrite decide_True by done. exists snapshot, l.
  apply ledger_accepted_parts in Hj as (snapshot'&Es&_&Hg&->).
  assert (validated snapshot) as Hv by by eapply taken_validated.
  unfold validated in Hv. rewrite Hv in Es. injection Es as <-.
  split_and!; [done..|exists h'; rewrite Eh, El; done|].
  intros Hm. rewrite Et. by destruct (Hw Hm) as (t&->&<-).
Qed.

(** A reply of no text. *)
Definition empty_reply : slot := Some (mkMessage Assistant (Prose [])).

Lemma dialogue_sendable snapshot text sent : text ≠ [] → dialogue snapshot (mkMessage User (Prose text)) sent →
  Forall (λ p, sendable (lc_messages p) ↔ lc_messages p !! 1%nat ≠ Some empty_reply) sent.*1.
Proof.
  intros Ht Hd.
  assert (∀ p, tool_free [mkMessage User (Prose text)] p →
    (sendable (lc_messages p) ↔ lc_messages p !! 1%nat ≠ Some empty_reply)) as Hone.
  { intros p [-> _]. unfold sendable, wire. simpl. rewrite bool_decide_true by done. by split. }
  destruct Hd as [|p answer Hp|p response bs issues q answer reply Hp _ _ _ _ [Hq _]];
    [constructor|by apply Forall_singleton, Hone|].
  constructor; [by apply Hone|]. constructor; [|constructor]. cbn [fst]. rewrite Hq. unfold sendable, wire. simpl.
  rewrite (bool_decide_true (text ≠ [] ∧ [] = [])) by done. simpl. destruct reply as [|c rest]; simpl; [|by split].
  split; [done|]. intros Hne. by destruct Hne.
Qed.

Lemma first_message_text reference nonce snapshot index :
  ∃ text, first_message reference nonce snapshot index = mkMessage User (Prose text) ∧ text ≠ [].
Proof. eexists. split; [reflexivity|]. destruct reference as [[|c r]|]; discriminate. Qed.

(** C15: A run asks the model at most twice, never offering a tool, and only once the snapshot
    is accepted: first with the snapshot and its index behind the guidance, then - when the
    first answer is text only, and is cut at an output limit or is not a ledger of the
    snapshot - with that answer's own text and the codes and paths of what is wrong with it:
    the truncation, or the issues of the validator. Both requests are ones a provider accepts,
    except the repair of a reply without text. A recursive-model run asks nothing itself. *)
Theorem run_dialogue_bounded o h :
  let exchanges := ru_exchanges (snd (runCommitmentWorkflow o h)) in
  let sent := exchanges.*1 in
  talk o exchanges ∧ (length sent <= 2)%nat ∧ Forall (λ p, lc_tools p = Some []) sent ∧
  Forall (λ p, sendable (lc_messages p) ↔ lc_messages p !! 1%nat ≠ Some empty_reply) sent ∧
  (recursive (wo_mode o) = true → sent = []).
Proof.
  destruct (runCommitmentWorkflow o h) as [r s] eqn:Er. simpl.
  apply run_result in Er as (status&ledger&report&elapsed&s1&[[Ht _] _]&->&_). split; [done|].
  destruct Ht as [->|(Hm&snapshot&index&reference&nonce&_&_&_&Hd)]; [by split_and!; [simpl; lia|..]|].
  destruct (first_message_text reference nonce snapshot index) as (text&Et&Hn). rewrite Et in Hd.
  split_and!; [destruct Hd; simpl; lia| |by eapply dialogue_sendable|by rewrite Hm].
  destruct Hd as [|p answer (_&?&_)|p response bs issues q answer reply (_&?&_) _ _ _ _ (_&?&_)]; by repeat constructor.
Qed.

Lemma usage_fine o h : honours o → run_usage_ok (workflowUsage (fst (budget_snapshot h)) (wo_usageKind o)) = true.
Proof.
  intros Ho. pose proof (λ z, honours_tokens o Ho h z) as Ht. cbv zeta in Ht. unfold workflowUsage.
  destruct (sn_observedInputTokens _) as [i|], (sn_observedOutputTokens _) as [j|]; try done.
  destruct (_ && _); [|done]. unfold run_usage_ok. cbn [wu_inputTokens wu_outputTokens wu_complete wu_kind or_null].
  by rewrite !Ht by auto.
Qed.

Lemma notices_fine kind : between 0 20 (notices kind) && forallb (nonBlank 500) (notices kind) = true.
Proof. destruct kind; by vm_compute. Qed.

(** An accepted snapshot carries the names the caller's value has. *)
Lemma taken_names o snapshot : taken o snapshot →
  string_member "snapshotId" (wo_snapshot o) = Some (snap_snapshotId snapshot) ∧
  string_member "snapshotHash" (wo_snapshot o) = Some (snap_snapshotHash snapshot).
Proof.
  intros (_&Hp&_)%snapshot_accepted_spec. unfold parseSnapshot, parsed_by in Hp.
  destruct (read_snapshot _) as [s'|] eqn:Er; simpl in Hp; [|done]. destruct (snapshot_ok s'); simpl in Hp; [|done].
  injection Hp as ->. unfold read_snapshot in Er. repeat (apply bind_Some in Er as (?&?&Er)).
  injection Er as <-. done.
Qed.

Lemma trace_fine o trace : honours o → traced o trace →
  or_null trace_ok trace && or_null (λ t, bool_decide (Some (wt_snapshotHash t) = string_member "snapshotHash" (wo_snapshot o))) trace = true.
Proof.
  intros Ho [->|(_&run&input&h&output&h'&Hrun&[_ Ha]%taken_names&Er)]; [done|].
  destruct trace as [t|]; [|done]. destruct (honours_runtime o Ho _ _ _ _ _ _ Hrun Er) as [Ht Eh].
  simpl. rewrite Ht, Eh, Ha. by rewrite bool_decide_true.
Qed.

(** The ledger a run publishes. *)
Lemma ledger_fine o snapshot ledger v : taken o snapshot → judged snapshot (Some ledger) v →
  v = mkWorkflowReport true [] ∧ ledger_ok ledger = true ∧
  Some (led_snapshotHash ledger) = string_member "snapshotHash" (wo_snapshot o) ∧
  Some (led_snapshotId ledger) = string_member "snapshotId" (wo_snapshot o).
Proof.
  intros Ha [raw Hv]. apply ledger_accepted_parts in Hv as (s'&Es&[Hl _]%parseLedger_ok&Hg&->).
  pose proof (taken_validated _ _ Ha) as Hval. unfold validated in Hval. rewrite Hval in Es. injection Es as <-.
  destruct (taken_names o snapshot Ha) as [-> ->]. destruct (grounded_bound _ _ Hg) as [-> ->]. done.
Qed.

(** A result with these parts meets its schema exactly when the caller's own values do and
    its arm takes the guidance it was given. *)
Lemma result_meets_schema o status ledger v elapsed h s s1 :
  honours o → published o (status, ledger, v) s1 → ru_trace s = ru_trace s1 → 0 <= elapsed →
  run_result_ok (mkRunResult (wo_runId o) (wo_mode o) (string_member "snapshotId" (wo_snapshot o))
    (string_member "snapshotHash" (wo_snapshot o)) status ledger v (workflowUsage (fst (budget_snapshot h)) (wo_usageKind o))
    (guidance_pin <$> wo_guidance o) (wo_model o) elapsed (ru_trace s) (notices (wo_usageKind o))) =
  presentable o && (bool_decide (wo_guidance o = None) || refined (wo_mode o)).
Proof.
  intros Ho [[_ Htr%trace_fine] Hp] -> He; [|done]. apply andb_true_iff in Htr as [Ht1 Ht2].
  pose proof (notices_fine (wo_usageKind o)) as [Hn1 Hn2]%andb_true_iff. pose proof (usage_fine o h Ho) as Hu.
  pose proof (honours_zod o Ho) as Hzod.
  unfold run_result_ok, presentable. cbn [wr_runId wr_mode wr_snapshotId wr_snapshotHash wr_status wr_ledger wr_validation wr_usage
    wr_refinement wr_model wr_elapsedMs wr_analysisTrace wr_notices].
  rewrite Ht1, Ht2, Hn1, Hn2, Hu, (proj2 (Z.leb_le _ _) He).
  assert (or_null (λ f, identifier (rr_id f) && (1 <=? rr_version f) && (rr_version f <=? max_safe) && hash_ok (rr_hash f))
    (guidance_pin <$> wo_guidance o) = or_null (λ g, let f := guidance_pin g in identifier (rr_id f) &&
    (1 <=? rr_version f) && (rr_version f <=? max_safe) && hash_ok (rr_hash f)) (wo_guidance o)) as -> by by destruct (wo_guidance o).
  assert (negb (match wo_mode o with WM_baseline | WM_rlm => true | _ => false end &&
    bool_decide (is_Some (guidance_pin <$> wo_guidance o))) = bool_decide (wo_guidance o = None) || refined (wo_mode o)) as ->.
  { by destruct (wo_mode o), (wo_guidance o). }
  assert (or_null ledger_ok ledger && workflow_report_ok v &&
    negb (bool_decide (status = WS_complete) && negb (bool_decide (is_Some ledger) && wv_valid v)) &&
    or_null (λ l, bool_decide (Some (led_snapshotHash l) = string_member "snapshotHash" (wo_snapshot o) ∧
      Some (led_snapshotId l) = string_member "snapshotId" (wo_snapshot o))) ledger = true)
    as [[[E1 E2]%andb_true_iff E3]%andb_true_iff E4]%andb_true_iff.
  { destruct ledger as [l|]; cbn [or_null].
    - destruct Hp as (->&_&snapshot&Ha&Hj&_). eapply ledger_fine in Hj as (->&->&F1&F2); [|done].
      by rewrite F1, F2, !bool_decide_true by eauto.
    - destruct Hp as [Hc Hr]. apply (refusal_ok Hzod) in Hr as [-> _]. by rewrite (bool_decide_false (status = WS_complete)). }
  rewrite E1, E2, E3, E4. rewrite !andb_true_r.
  repeat match goal with |- context [is_some_and ?f ?v] => destruct (is_some_and f v) end; cbn [andb];
    rewrite ?andb_false_r; try done; by destruct (identifier (wo_runId o)).
Qed.

(** C14: When a run returns. Whatever the host, the budget, the guidance and the runtime throw,
    the run leads to a result, and the result is returned exactly when what the caller handed
    over can stand in it - the run's identifier, the identifier and the hash the snapshot gives
    itself (a refused snapshot may have malformed ones), the model, the pin of the guidance -
    and guidance was not handed to an arm that takes none; otherwise its own schema refuses it
    and the run throws. A result is valid exactly when it is complete, and names an issue
    otherwise. (Of the code around it the run relies on this: a refused parse has an issue,
    with a path of at most 300 characters; a trace the runtime answers with is well formed and
    of the snapshot it was given; observed token counts are safe integers.) *)
Theorem run_returns_iff o h :
  honours o →
  (is_Some (fst (runCommitmentWorkflow o h)) ↔
     presentable o = true ∧ (wo_guidance o = None ∨ refined (wo_mode o) = true)) ∧
  (∀ r, fst (runCommitmentWorkflow o h) = Some r →
     wv_valid (wr_validation r) = bool_decide (wr_status r = WS_complete) ∧
     (wv_valid (wr_validation r) = false → wv_issues (wr_validation r) ≠ [])).
Proof.
  intros Ho. destruct (runCommitmentWorkflow o h) as [r s] eqn:Er. simpl.
  apply run_result in Er as (status&ledger&v&elapsed&s1&Hp&_&Et&_&He&Er). cbv zeta in Er.
  rewrite (result_meets_schema o _ _ _ _ _ _ s1) in Er by done. split.
  - rewrite Er. assert (bool_decide (wo_guidance o = None) || refined (wo_mode o) = true ↔
      wo_guidance o = None ∨ refined (wo_mode o) = true) as <- by (by rewrite orb_true_iff, bool_decide_eq_true).
    destruct (presentable o), (_ || _); simpl; split; naive_solver.
  - intros r' ->. destruct (_ && _); [|done]. injection Er as ->. cbn [wr_validation wr_status].
    destruct Hp as [_ Hp]. destruct ledger as [l|].
    + destruct Hp as (->&_&snapshot&Ha&Hj&_). by eapply ledger_fine in Hj as (->&_).
    + destruct Hp as [Hc Hr]. apply (refusal_ok (honours_zod o Ho)) in Hr as [Hr Hv].
      rewrite Hv, bool_decide_false by done. split; [done|]. intros _. unfold workflow_report_ok in Hr. rewrite Hv in Hr.
      by destruct (wv_issues v).
Qed.

End guarantees.
