(* ===== verification/HandoffScenarios.v ===== *)
(** * A commitment handoff from its draft to its result

    One correspondence snapshot on which the hypotheses of the theorems on the handoff,
    the context codec and the workflow run are met: a draft is hashed and accepted, its
    context encoded, and a model that first answers nothing and then with a ledger brings
    a run to its end. *)

From S2P Require Import RefinementScenarios ContextExact WorkflowFacts.
Open Scope Z_scope.

#[local] Existing Instance learning_platform.
#[local] Instance demo_handoff_env : HandoffEnv := {
  isoDatetime s := bool_decide (is_Some (dateOf s));
  knownTimezone s := eqs s (js "Europe/Berlin");
  zodIssues _ _ := [([], js "Invalid input")];
}.

(** A body with a carriage return and line feed, and a pair of surrogates. *)
Definition demo_body : jsstr := js "Please send the report by Friday." ++ [13; 10; 0xD83D; 0xDE00]%N ++ js " Thanks".
Definition demo_draft : fields :=
  [(js "workflowId", JStr COMMITMENT_WORKFLOW_ID); (js "schemaVersion", jint 1); (js "snapshotId", JStr (js "snap-1"));
   (js "userAddress", JStr (js "user@example.com")); (js "cutoff", JStr (js "2026-01-02T00:00:00.000Z"));
   (js "timezone", JStr (js "Europe/Berlin"));
   (js "coverage", JObj [(js "scope", JStr (js "supplied-snapshot")); (js "source", JStr (js "user-supplied"));
      (js "omittedMessages", jint 0); (js "note", JStr (js "one thread"))]);
   (js "messages", JArr [JObj
     [(js "id", JStr (js "m1")); (js "threadId", JStr (js "t1")); (js "subject", JStr (js "Report"));
      (js "sender", JStr (js "boss@example.com")); (js "to", JStr (js "user@example.com"));
      (js "timestamp", JStr (js "2026-01-01T09:00:00.000Z")); (js "body", JStr demo_body);
      (js "truncated", JBool false); (js "omittedChars", jint 0)]])].
Definition demo_snapshot : option CommitmentSnapshot := Eval vm_compute in
  match createCommitmentSnapshot demo_draft with inl s => Some s | inr _ => None end.
Definition demo_accepted : CommitmentSnapshot := Eval vm_compute in
  default (mkCommitmentSnapshot [] [] [] [] [] Synthetic_fixture None [] []) demo_snapshot.
Definition demo_candidate : CommitmentSnapshot := Eval vm_compute in
  default demo_accepted (parseSnapshot (JObj (set_field (js "messages")
    (JArr (zero_body <$> match get (js "messages") demo_draft with Some (JArr l) => l | _ => [] end))
    (set_field (js "snapshotHash") (JStr ZERO_HASH) demo_draft)))).

Example demo_created : demo_snapshot = Some demo_accepted.
Proof. reflexivity. Qed.

(** Every digit of the stand-in digest is hexadecimal. *)
Lemma demo_digest bs : hash_ok (sha256_hex bs) = true.
Proof.
  unfold hash_ok. apply andb_true_iff. split; [done|]. apply forallb_True_eq, Forall_fmap, Forall_forall.
  intros i _. simpl. set (n := (_ mod 16)%N). assert (n < 16)%N as Hn by (by apply N.mod_lt). clearbody n.
  assert (forallb (λ k, is_hex (hex_digit (N.of_nat k))) (seq 0 16) = true) as E by by vm_compute.
  rewrite forallb_forall in E. specialize (E (N.to_nat n) ltac:(apply in_seq; lia)). by rewrite N2Nat.id in E.
Qed.

(** ** Values that are plain, by evaluation *)

Fixpoint plainb (v : json) : bool :=
  match v with
  | JNull | JBool _ => true
  | JNum x => match x with
              | JsNum m e => bool_decide (x = num_of_Z (m * 10 ^ e)) && (Z.abs (m * 10 ^ e) <? max_plain_int)
              end
  | JStr s => bool_decide (units s)
  | JArr l => foldr (λ v b, plainb v && b) true l
  | JObj fs => foldr (λ kv b, bool_decide (units (fst kv)) && plainb (snd kv) && b) true fs
  end.
Lemma plainb_sound v : plainb v = true → plain v.
Proof.
  induction v as [|b|x|s|l IH|fs IH] using JsonText.json_rec; intros Hv; try done.
  - destruct x as [m e]. apply andb_true_iff in Hv as [E%bool_decide_eq_true Hm%Z.ltb_lt]. by exists (m * 10 ^ e).
  - by apply bool_decide_eq_true in Hv.
  - apply plain_arr. simpl in Hv. induction IH as [|v l Hp _ IH']; constructor; simpl in Hv;
      apply andb_true_iff in Hv as [Hv Hl]; auto.
  - apply plain_obj. simpl in Hv. induction IH as [|[k v] fs Hp _ IH']; constructor; simpl in Hv;
      apply andb_true_iff in Hv as [[Hk%bool_decide_eq_true Hv]%andb_true_iff Hl]; [by split; auto|auto].
Qed.

(** ** The snapshot *)

Lemma created_snapshot_accepted_witness :
  ∃ s, createCommitmentSnapshot demo_draft = inl s ∧
    validateCommitmentSnapshot (snapshot_json s) = Some (Accepted s (mkWorkflowReport true [])) ∧
    snap_messages s = (λ m, with_bodyHash (sha256_hex (utf8 (msg_body m))) m) <$> snap_messages demo_candidate ∧
    with_messages (snap_messages demo_candidate) (with_hash (snap_snapshotHash demo_candidate) s) = demo_candidate.
Proof.
  apply (created_snapshot_accepted demo_draft
    match get (js "messages") demo_draft with Some (JArr l) => l | _ => [] end demo_candidate).
  - exact demo_digest.
  - reflexivity.
  - apply Nat.leb_le. reflexivity.
  - vm_compute. reflexivity.
  - reflexivity.
Defined.

Lemma demo_accepted_ok : validateCommitmentSnapshot (snapshot_json demo_accepted) =
  Some (Accepted demo_accepted (mkWorkflowReport true [])).
Proof. by vm_compute. Qed.
Lemma demo_plain : plain (snapshot_json demo_accepted).
Proof. by apply plainb_sound; vm_compute. Qed.

(** The same draft with a later cutoff. *)
Definition demo_later : CommitmentSnapshot := Eval vm_compute in
  match createCommitmentSnapshot (set_field (js "cutoff") (JStr (js "2026-01-03T00:00:00.000Z")) demo_draft) with
  | inl s => s | inr _ => demo_accepted
  end.
Lemma demo_later_ok : validateCommitmentSnapshot (snapshot_json demo_later) =
  Some (Accepted demo_later (mkWorkflowReport true [])).
Proof. by vm_compute. Qed.
Lemma demo_later_plain : plain (snapshot_json demo_later).
Proof. by apply plainb_sound; vm_compute. Qed.

Lemma snapshot_hash_binds_witness :
  utf8 (content_text demo_accepted) ≠ utf8 (content_text demo_later) ∧
  (snap_snapshotHash demo_accepted = snap_snapshotHash demo_later ↔
    demo_accepted = demo_later ∨ collide (content_text demo_accepted) (content_text demo_later)).
Proof.
  destruct (snapshot_hash_binds (snapshot_json demo_accepted) (snapshot_json demo_later) demo_accepted demo_later
    _ _ demo_accepted_ok demo_later_ok demo_plain demo_later_plain) as (_&Ht&Hh).
  split; [|exact Hh]. intros E%Ht. discriminate E.
Defined.

(** The index of its lines: two, the first without its line break. *)
Definition demo_index : CommitmentSourceIndex := Eval vm_compute in
  match createCommitmentSourceIndex (snapshot_json demo_accepted) with
  | inl ix => ix | inr _ => mkSourceIndex [] [] false []
  end.
Lemma demo_indexed : createCommitmentSourceIndex (snapshot_json demo_accepted) = inl demo_index.
Proof. by vm_compute. Qed.
Example demo_lines : sm_lines <$> ix_messages demo_index = [[(0, 33); (35, 44)]]%nat.
Proof. reflexivity. Qed.

Lemma source_index_exact_witness :
  ∃ snapshot r, validateCommitmentSnapshot (snapshot_json demo_accepted) = Some (Accepted snapshot r) ∧
    ix_snapshotId demo_index = snap_snapshotId snapshot ∧ ix_snapshotHash demo_index = snap_snapshotHash snapshot ∧
    Forall2 (λ m i, ∃ spans, division 0 (msg_body m) spans ∧
      sm_messageId i = msg_id m ∧ sm_bodyHash i = msg_bodyHash m ∧ sm_length i = length (msg_body m) ∧
      sm_lineCount i = length spans ∧ sm_lines i = take 256 spans ∧ sm_omittedLineCount i = (length spans - 256)%nat)
      (snap_messages snapshot) (ix_messages demo_index) ∧
    (ix_lineIndexComplete demo_index = true ↔ Forall (λ i, sm_omittedLineCount i = O) (ix_messages demo_index)) ∧
    Z.of_N (byte_length (source_index_json demo_index)) <= serializedBytes.
Proof. exact (source_index_exact (snapshot_json demo_accepted) demo_index demo_indexed). Defined.

(** ** The context *)

Definition demo_context : WorkflowRlmContextCodecResult := Eval vm_compute in
  match encodeWorkflowRlmContext (snapshot_json demo_accepted) (source_index_json demo_index) with
  | inl r => r | inr _ => mkCodecResult [] [] [] 0 0 O 0 [] O
  end.
Lemma demo_encoded :
  encodeWorkflowRlmContext (snapshot_json demo_accepted) (source_index_json demo_index) = inl demo_context.
Proof. by vm_compute. Qed.
Lemma demo_index_plain : plain (source_index_json demo_index).
Proof. by apply plainb_sound; vm_compute. Qed.

Lemma context_roundtrip_witness :
  guest_envelope (cr_context demo_context) =
    Some (workflowRlmEnvelope (snapshot_json demo_accepted) (source_index_json demo_index)) ∧
  (∀ snapshot' index', plain snapshot' → plain index' →
     workflowRlmEnvelope snapshot' index' = workflowRlmEnvelope (snapshot_json demo_accepted) (source_index_json demo_index) →
     snapshot' = snapshot_json demo_accepted ∧ index' = source_index_json demo_index) ∧
  let rows := split_lines (cr_context demo_context) in
  cr_rows demo_context = length rows ∧ cr_maxRowUtf8Bytes demo_context = foldl Z.max 0 (utf8Bytes <$> rows) ∧
  Forall (λ row, utf8Bytes row <= RLM_CONTEXT_ROW_UTF8_MAX) rows ∧
  cr_contextId demo_context = js "sha256:" ++ sha256_hex (utf8 (cr_context demo_context)) ∧
  cr_envelopeSha256 demo_context =
    sha256_hex (utf8 (workflowRlmEnvelope (snapshot_json demo_accepted) (source_index_json demo_index))) ∧
  cr_contextUtf8Bytes demo_context = utf8Bytes (cr_context demo_context) ∧
  cr_contextUtf8Bytes demo_context <= RLM_CONTEXT_STORE_UTF8_MAX.
Proof. exact (context_roundtrip _ _ demo_context demo_plain demo_index_plain demo_encoded). Defined.

Lemma context_reads_bounded_witness :
  cr_contextSlicePlan demo_context = imap (λ k row, mkSlice k 1 (utf8Bytes row)) (split_lines (cr_context demo_context)) ∧
  cr_minContextReads demo_context = cr_rows demo_context ∧ (0 < cr_rows demo_context <= 158)%nat.
Proof.
  pose proof (context_reads_bounded (snapshot_json demo_accepted) (source_index_json demo_index) demo_plain demo_index_plain)
    as Hb. rewrite demo_encoded in Hb. exact Hb.
Defined.

(** ** The run *)

(** The ledger the model answers with: the quote stands at 7. *)
Definition demo_ledger (start : Z) : json :=
  JObj [(js "workflowId", JStr COMMITMENT_WORKFLOW_ID); (js "snapshotId", JStr (js "snap-1"));
        (js "snapshotHash", JStr (snap_snapshotHash demo_accepted));
        (js "items", JArr [JObj
           [(js "itemId", JStr (js "i1")); (js "title", JStr (js "Report")); (js "owner", JStr (js "user@example.com"));
            (js "state", JStr (js "due")); (js "dueAt", JNull); (js "changed", JBool false);
            (js "evidence", JArr [JObj [(js "messageId", JStr (js "m1"));
               (js "bodyHash", JStr (sha256_hex (utf8 demo_body))); (js "start", jint start); (js "end", jint (start + 15));
               (js "quote", JStr (js "send the report"))]]);
            (js "priorEvidence", JArr []); (js "uncertainty", JNull); (js "nextAction", JStr (js "Send it"));
            (js "replyText", JNull)]]);
        (js "coverage", JObj [(js "scope", JStr (js "supplied-snapshot")); (js "omittedMessages", jint 0);
           (js "truncatedMessageIds", JArr []); (js "limitations", JArr [])])].
Definition accepts (v : option (ValidationResult CommitmentLedger)) : bool :=
  match v with Some (Accepted _ _) => true | _ => false end.
Example demo_quote_exact : accepts (validateCommitmentLedger (snapshot_json demo_accepted) (demo_ledger 7)) = true.
Proof. by vm_compute. Qed.
Example demo_quote_off_by_one : accepts (validateCommitmentLedger (snapshot_json demo_accepted) (demo_ledger 8)) = false.
Proof. by vm_compute. Qed.

(** A budget that is never closed, a model with a list of replies. *)
Definition demo_budget : ModelBudgetSnapshot :=
  ModelBudget.mkSnapshot (js "model-1") MODEL_BUDGET_DEFAULTS None 0 2 0 1 0 0 0 (TokNum 40) (TokNum 9) (js "complete") 0 [].
#[local] Instance demo_port : WorkflowPort (list json) := {
  signal_aborted _ := false;
  budget_snapshot s := (demo_budget, s);
  create_message _ s := match s with r :: s => (inl r, s) | [] => (inr (T_budget ATTEMPT_LIMIT), []) end;
  pause s := s;
  uuid s := (js "nonce-1", s);
  date_now s := (1767225600000, s);
  ledger_schema := js "{}";
}.
Definition handoff_reply (texts : list jsstr) : json :=
  JObj [(js "stop_reason", JStr (js "end_turn"));
        (js "content", JArr ((λ t, JObj [(js "type", JStr (js "text")); (js "text", JStr t)]) <$> texts))].
Definition demo_replies : list json := [handoff_reply []; handoff_reply [JSON_stringify (demo_ledger 7)]].
Definition demo_options (guidance : option (WorkflowGuidance (list json))) : RunWorkflowOptions (list json) :=
  mkRunOptions (js "run-1") WM_baseline (snapshot_json demo_accepted) (Some (mkRunModel (js "mock") (js "model-1") None))
    Uk_synthetic guidance None.
Definition handoff_run := Eval vm_compute in runCommitmentWorkflow (demo_options None) demo_replies.
Definition handoff_result : option WorkflowRunResult := Eval vm_compute in fst handoff_run.
Example demo_completes : wr_status <$> handoff_result = Some WS_complete.
Proof. reflexivity. Qed.
(** The first reply was empty, so the second request has a message no provider accepts. *)
Example demo_repaired : length (ru_exchanges (snd handoff_run)) = 2%nat.
Proof. reflexivity. Qed.

Definition demo_done : WorkflowRunResult := Eval vm_compute in
  default (mkRunResult [] WM_baseline None None WS_error None (mkWorkflowReport false []) (mkWorkflowUsage None None None 0 0 false)
    None None 0 None []) handoff_result.
Lemma demo_ran : runCommitmentWorkflow (demo_options None) demo_replies = (Some demo_done, snd handoff_run).
Proof. by vm_compute. Qed.

Lemma complete_run_grounded_witness :
  if decide (wr_status demo_done = WS_complete) then
    ∃ snapshot ledger, taken (demo_options None) snapshot ∧ wr_ledger demo_done = Some ledger ∧ grounded snapshot ledger ∧
      wr_validation demo_done = mkWorkflowReport true [] ∧
      (∃ h', settled_at (demo_options None) h' ∧ ru_host (snd handoff_run) = closing (last_look (demo_options None) h') ∧
         wr_usage demo_done = workflowUsage (fst (budget_snapshot (last_look (demo_options None) h'))) Uk_synthetic) ∧
      (recursive (wo_mode (demo_options None)) = true → wt_outcome <$> wr_analysisTrace demo_done = Some An_complete)
  else wr_ledger demo_done = None.
Proof. exact (complete_run_grounded (demo_options None) demo_replies demo_done (snd handoff_run) demo_ran). Defined.

(** Guidance for an arm that takes none. *)
Definition demo_guidance : WorkflowGuidance (list json) :=
  mkGuidance (Candidate_guidance (js "v1") (repeat 97%N 64)) 1
    (mkContent (js "Check twice") (js "why") (mkScope (js "triage") (repeat 97%N 64)) [js "step"]) (λ s, (None, s)).
Lemma demo_honours g : honours (demo_options g).
Proof.
  split.
  - intros s v. split; [done|]. by repeat constructor.
  - done.
  - intros h z. simpl. by intros [[= <-]|[= <-]].
Qed.

Lemma run_returns_iff_witness :
  (is_Some (fst (runCommitmentWorkflow (demo_options (Some demo_guidance)) demo_replies)) ↔
     presentable (demo_options (Some demo_guidance)) = true ∧ (Some demo_guidance = None ∨ refined WM_baseline = true)) ∧
  (∀ r, fst (runCommitmentWorkflow (demo_options (Some demo_guidance)) demo_replies) = Some r →
     wv_valid (wr_validation r) = bool_decide (wr_status r = WS_complete) ∧
     (wv_valid (wr_validation r) = false → wv_issues (wr_validation r) ≠ [])).
Proof. exact (run_returns_iff (demo_options (Some demo_guidance)) demo_replies (demo_honours _)). Defined.
(** A snapshot whose own identifier is malformed is refused, and the refusal cannot be
    published: the run throws. *)
Example demo_nameless :
  let o := mkRunOptions (js "run-1") WM_baseline (JObj [(js "snapshotId", JStr (js "")); (js "snapshotHash", JStr (repeat 97%N 64))])
    None Uk_synthetic None None in
  match attempt_run o (mkRun demo_replies [] None) with (inl (status, _, _), _) => Some status | _ => None end = Some WS_blocked ∧
  presentable o = false ∧ fst (runCommitmentWorkflow o demo_replies) = None.
Proof. by vm_compute. Qed.
(** The run throws: the result it built is refused by its own schema. *)
Example demo_misguided : fst (runCommitmentWorkflow (demo_options (Some demo_guidance)) demo_replies) = None.
Proof. by vm_compute. Qed.
