(* ===== verification/Recipients.v ===== *)
(** * The governed nouns of the mail tools

    The shared layer of [packages/tools/src/services/shared/]: recipients and the noun
    of a send ([recipients.ts]), the list, search and send builders' readers of raw
    parameters ([email.ts], [email-search.ts], [email-send.ts]) and the bound on a read
    body ([email-read.ts]). What governance is asked about and what an executor
    transmits are read from the same parameters by the same functions. *)

From S2P Require Export JsonParse Pipeline Paging Canonical.
Open Scope Z_scope.

(** ** Characters *)

Definition one_of_chars (l : list N) (c : N) : bool := existsb (N.eqb c) l.
Definition trim_end (s : jsstr) : jsstr := rev (trim_start (rev s)).
(** The last character that meets [p]: what is before it, and what is after. *)
Fixpoint last_of (p : N → bool) (s : jsstr) : option (jsstr * N * jsstr) :=
  match s with
  | [] => None
  | c :: s' =>
      match last_of p s' with
      | Some (before, d, after) => Some (c :: before, d, after)
      | None => if p c then Some ([], c, s') else None
      end
  end.
(** [new Set(l)], in the order of insertion. *)
Definition Set_of (l : list jsstr) : list jsstr := reverse (remove_dups (reverse l)).

(** ** Recipients *)

Definition NO_RECIPIENTS_NOUN : jsstr := js "no-recipients".

Fixpoint split_list (input : jsstr) (inQuotes : bool) (current : jsstr) : list jsstr :=
  match input with
  | [] => [current]
  | ch :: rest =>
      if (ch =? 34)%N then split_list rest (negb inQuotes) (current ++ [ch])
      else if (ch =? 44)%N && negb inQuotes then current :: split_list rest inQuotes []
      else split_list rest inQuotes (current ++ [ch])
  end.
Definition splitAddressList (input : jsstr) : list jsstr := split_list input false [].

Definition has_text (s : jsstr) : bool := negb (bool_decide (s = [])).
Definition collectRecipients (value : option json) : list jsstr :=
  match value with
  | None | Some JNull => []
  | Some value =>
      let raw := match value with JArr l => l | _ => [value] end in
      List.filter has_text (trim <$> (raw ≫= λ entry,
        match entry with JStr s => splitAddressList s | _ => [json_String entry] end))
  end.

(** The pattern of an angle address: the text between the last angle brackets, which close
    the address but for white space. *)
Definition angle (s : jsstr) : option jsstr :=
  match last_of (λ _, true) (trim_end s) with
  | Some (inner, 62%N, _) =>
      match last_of (one_of_chars [60; 62]%N) inner with Some (_, 60%N, addr) => Some addr | _ => None end
  | _ => None
  end.
Definition bare_addr (trimmed : jsstr) : jsstr := trim (default trimmed (angle trimmed)).
Definition free_of (l : list N) (s : jsstr) : bool := forallb (λ c, negb (is_space c || one_of_chars l c)) s.
Definition plausible (local_bad : list N) (addr : jsstr) : option jsstr :=
  match last_of (N.eqb 64) addr with
  | Some (local, _, domain) =>
      if has_text local && free_of local_bad local && has_text domain && free_of [64; 44; 58; 60; 62]%N domain
      then Some domain else None
  | None => None
  end.

Section recipients.
Context `{Platform}.

Definition unparseable (trimmed : jsstr) : jsstr := js "unparseable:" ++ toLowerCase trimmed.
Definition recipientDomain (address : jsstr) : jsstr :=
  let trimmed := trim address in
  match plausible [60; 62]%N (bare_addr trimmed) with
  | Some domain => toLowerCase domain
  | None => unparseable trimmed
  end.
Definition recipientAddress (address : jsstr) : jsstr :=
  let trimmed := trim address in
  let addr := bare_addr trimmed in
  match plausible [60; 62; 44; 58]%N addr with
  | Some _ => toLowerCase addr
  | None => unparseable trimmed
  end.
(** to, cc and bcc, in this order. *)
Definition all_recipients (params : fields) : list jsstr :=
  collectRecipients (get (js "to") params) ++ collectRecipients (get (js "cc") params) ++
  collectRecipients (get (js "bcc") params).
Definition sorted_join (l : list jsstr) : jsstr := Json.join (js ",") (stable_sort js_lt (Set_of l)).
Definition recipientAddressesNoun (params : fields) : jsstr :=
  match all_recipients params with
  | [] => NO_RECIPIENTS_NOUN
  | addresses => sorted_join (recipientAddress <$> addresses)
  end.

(** ** The envelope of a send *)

Record EmailSendParams := mkEnvelope {
  es_to : list jsstr; es_cc : list jsstr; es_bcc : list jsstr; es_subject : jsstr; es_body : jsstr;
}.
Definition non_blank (v : option json) : option jsstr :=
  match v with Some (JStr s) => if bool_decide (trim s = []) then None else Some s | _ => None end.
Definition normalizeEmailEnvelope (params : fields) : EmailSendParams + jsstr :=
  let to := collectRecipients (get (js "to") params) in
  let cc := collectRecipients (get (js "cc") params) in
  let bcc := collectRecipients (get (js "bcc") params) in
  if bool_decide (to = []) then inr (js "Invalid parameter: to must contain at least one recipient") else
  match non_blank (get (js "subject") params), non_blank (get (js "body") params) with
  | None, _ => inr (js "Invalid parameter: subject must be a non-empty string")
  | _, None => inr (js "Invalid parameter: body must be a non-empty string")
  | Some subject, Some body => inl (mkEnvelope to cc bcc subject body)
  end.

(** ** Listing *)

Definition EMAIL_LIST_MAX_RESULTS_CEILING : Z := 20.
Definition DEFAULT_EMAIL_LIST_MAX_RESULTS : Z := 5.
Definition isEmailListMaxResults (value : json) : option Z :=
  match as_int value with
  | Some n => if (1 <=? n) && (n <=? EMAIL_LIST_MAX_RESULTS_CEILING) then Some n else None
  | None => None
  end.
(** [value ?? fallback]. *)
Definition nullish (v : option json) (fallback : json) : json :=
  match v with None | Some JNull => fallback | Some v => v end.
Definition normalized_label (params : fields) (defaultLabel : jsstr) : json :=
  match get (js "label") params with
  | Some (JStr s) => if bool_decide (trim s = []) then JStr defaultLabel else JStr s
  | v => nullish v (JStr defaultLabel)
  end.
Definition normalized_maxResults (params : fields) : json :=
  nullish (get (js "maxResults") params) (jint DEFAULT_EMAIL_LIST_MAX_RESULTS).
Definition email_list_noun (defaultLabel : jsstr) (params : fields) : jsstr :=
  json_String (normalized_label params defaultLabel).
Definition email_list_params (labels : list jsstr) (defaultLabel : jsstr) (params : fields) : (jsstr * Z) + jsstr :=
  match normalized_label params defaultLabel with
  | JStr label =>
      if existsb (eqs label) labels then
        match isEmailListMaxResults (normalized_maxResults params) with
        | Some n => inl (label, n)
        | None => inr (js "Invalid parameter: maxResults must be an integer between 1 and 20")
        end
      else inr (js "Invalid parameter: label must be one of " ++ Json.join (js ", ") labels)
  | _ => inr (js "Invalid parameter: label must be one of " ++ Json.join (js ", ") labels)
  end.
End recipients.

(** ** Searching *)

Definition SEARCH_SYSTEM_LABEL_IDS : list (jsstr * jsstr) :=
  [(js "in:inbox", js "INBOX"); (js "in:sent", js "SENT"); (js "in:drafts", js "DRAFT"); (js "in:spam", js "SPAM");
   (js "in:trash", js "TRASH"); (js "label:inbox", js "INBOX"); (js "label:sent", js "SENT"); (js "label:drafts", js "DRAFT");
   (js "label:spam", js "SPAM"); (js "label:trash", js "TRASH"); (js "label:starred", js "STARRED");
   (js "label:important", js "IMPORTANT"); (js "is:starred", js "STARRED"); (js "is:important", js "IMPORTANT")].
Fixpoint table {A} (k : jsstr) (l : list (jsstr * A)) : option A :=
  match l with [] => None | (k', v) :: l => if eqs k' k then Some v else table k l end.

(** [s.split(/\s+/).filter(Boolean)]. *)
Fixpoint words_from (s current : jsstr) : list jsstr :=
  match s with
  | [] => match current with [] => [] | _ => [current] end
  | c :: s =>
      if is_space c then match current with [] => words_from s [] | _ => current :: words_from s [] end
      else words_from s (current ++ [c])
  end.
Definition words (s : jsstr) : list jsstr := words_from s [].

(** A token has no white space, so the [.+] of the source takes all of it. *)
Definition filter_token (token : jsstr) : option (jsstr * jsstr) :=
  let at_op op := match after_text (op ++ js ":") token with Some (c :: name) => Some (op, c :: name) | _ => None end in
  match at_op (js "in"), at_op (js "label"), at_op (js "is") with
  | Some r, _, _ | None, Some r, _ | None, None, Some r => Some r
  | None, None, None => None
  end.

Record EmailSearchQuery := mkQuery { eq_mailboxes : list jsstr; eq_anywhere : bool; eq_rest : list jsstr }.
Definition set_add (x : jsstr) (l : list jsstr) : list jsstr := if existsb (eqs x) l then l else l ++ [x].
Definition search_step (q : EmailSearchQuery) (token : jsstr) : EmailSearchQuery :=
  let wide := mkQuery (eq_mailboxes q) true (eq_rest q) in
  let kept := mkQuery (eq_mailboxes q) (eq_anywhere q) (eq_rest q ++ [token]) in
  let in_box m := mkQuery (set_add m (eq_mailboxes q)) (eq_anywhere q) (eq_rest q) in
  if eqs token (js "or") || existsb (one_of_chars [123; 125]%N) token then wide else
  match filter_token token with
  | None => kept
  | Some (operator, name) =>
      if existsb (one_of_chars [34; 40; 41]%N) name then wide
      else if eqs operator (js "in") && eqs name (js "anywhere") then wide
      else match table (operator ++ js ":" ++ name) SEARCH_SYSTEM_LABEL_IDS with
           | Some systemId => in_box systemId
           | None => if eqs operator (js "is") then kept else in_box (js "label:" ++ name)
           end
  end.
Section search.
Context `{Platform}.
Definition parseEmailSearchQuery (q : option json) : EmailSearchQuery :=
  match q with
  | Some (JStr q) => foldl search_step (mkQuery [] false []) (words (toLowerCase q))
  | _ => mkQuery [] false []
  end.
Definition emailSearchNoun (q : option json) : jsstr :=
  let parsed := parseEmailSearchQuery q in
  if eq_anywhere parsed || bool_decide (eq_mailboxes parsed = []) then js "anywhere"
  else Json.join (js ",") (stable_sort js_lt (eq_mailboxes parsed)).

Definition email_search_params (params : fields) : (jsstr * Z) + jsstr :=
  match non_blank (get (js "q") params) with
  | None => inr (js "Invalid parameter: q must be a non-empty string")
  | Some q =>
      match isEmailListMaxResults (normalized_maxResults params) with
      | Some n => inl (q, n)
      | None => inr (js "Invalid parameter: maxResults must be an integer between 1 and 20")
      end
  end.
End search.

(** ** Reading *)

Definition EMAIL_READ_BODY_MAX_CHARS : nat := Z.to_nat 25000.
Definition truncateEmailBody (body : jsstr) : jsstr :=
  if (length body <=? EMAIL_READ_BODY_MAX_CHARS)%nat then body else
  let kept := take EMAIL_READ_BODY_MAX_CHARS body in
  let kept := match last kept with
              | Some c => if is_high c then take (length kept - 1) kept else kept
              | None => kept
              end in
  kept ++ [10%N] ++ js "[... body truncated: " ++ dec (N.of_nat (length body - length kept)) ++ js " of " ++
  dec (N.of_nat (length body)) ++ js " characters omitted]".
