(* ===== verification/RecipientsExact.v ===== *)
(** * What a mail noun binds

    Two sends with one noun, all of whose recipients parse, go to the same mailboxes; the
    nouns of recipients that do not parse and of an empty envelope are told apart from any
    mailbox. A read body is cut between characters. *)

From S2P Require Export JsonText Recipients.
Open Scope Z_scope.

(** ** Facts: texts joined by commas *)

Lemma elem_join (c : N) l : c ≠ 44%N → c ∈ Json.join (js ",") l ↔ ∃ x, x ∈ l ∧ c ∈ x.
Proof.
  intros Hc. induction l as [|x [|y l] IH].
  - simpl. split; [by intros ?%not_elem_of_nil|]. by intros (x&?%not_elem_of_nil&_).
  - simpl. split; [intros; exists x; by split; [left|]|]. by intros (z&->%list_elem_of_singleton&?).
  - change (Json.join (js ",") (x :: y :: l)) with (x ++ 44%N :: Json.join (js ",") (y :: l)).
    rewrite elem_of_app, elem_of_cons, IH. setoid_rewrite (elem_of_cons (y :: l)). naive_solver.
Qed.

Lemma comma_split (a b x y : jsstr) : (44%N ∉ a) → (44%N ∉ b) → a ++ 44%N :: x = b ++ 44%N :: y → a = b ∧ x = y.
Proof.
  revert b. induction a as [|c a IH]; intros [|d b] Ha Hb E; simpl in E.
  - by injection E.
  - injection E as <- _. destruct Hb. by left.
  - injection E as -> _. destruct Ha. by left.
  - injection E as <- E. rewrite not_elem_of_cons in Ha, Hb. by destruct (IH b) as [-> ->]; naive_solver.
Qed.

Lemma join_inj l k : Forall (λ x, 44%N ∉ x) l → Forall (λ x, 44%N ∉ x) k → l ≠ [] → k ≠ [] →
  Json.join (js ",") l = Json.join (js ",") k → l = k.
Proof.
  revert k. induction l as [|x l IH]; intros k Hl Hk Hnl Hnk; [done|]. destruct k as [|y k]; [done|].
  apply Forall_cons in Hl as [Hx Hl]. apply Forall_cons in Hk as [Hy Hk].
  destruct l as [|x' l], k as [|y' k].
  - simpl. congruence.
  - change (Json.join (js ",") (y :: y' :: k)) with (y ++ 44%N :: Json.join (js ",") (y' :: k)). simpl.
    intros ->. destruct Hx. apply elem_of_app. right. by left.
  - change (Json.join (js ",") (x :: x' :: l)) with (x ++ 44%N :: Json.join (js ",") (x' :: l)). simpl.
    intros <-. destruct Hy. apply elem_of_app. right. by left.
  - change (Json.join (js ",") (x :: x' :: l)) with (x ++ 44%N :: Json.join (js ",") (x' :: l)).
    change (Json.join (js ",") (y :: y' :: k)) with (y ++ 44%N :: Json.join (js ",") (y' :: k)).
    intros [-> E]%comma_split; [|done..]. f_equal. by apply IH.
Qed.

Lemma elem_of_Set_of x l : x ∈ Set_of l ↔ x ∈ l.
Proof. unfold Set_of. by rewrite elem_of_reverse, elem_of_remove_dups, elem_of_reverse. Qed.
Lemma elem_of_sorted_Set x l : x ∈ stable_sort js_lt (Set_of l) ↔ x ∈ l.
Proof. by rewrite elem_of_stable_sort, elem_of_Set_of. Qed.

(** ** Facts: addresses *)

Lemma last_of_Some p s b c a : last_of p s = Some (b, c, a) → s = b ++ c :: a ∧ p c = true ∧ Forall (λ d, p d = false) a.
Proof.
  revert b c a. induction s as [|d s IH]; intros b c a; simpl; [done|].
  destruct (last_of p s) as [[[b' c'] a']|] eqn:E.
  - intros [= <- <- <-]. destruct (IH _ _ _ eq_refl) as (->&?&?). done.
  - destruct (p d) eqn:Hd; [|done]. intros [= <- <- <-]. split; [done|]. split; [done|]. clear IH.
    induction s as [|e s IH]; [constructor|]. simpl in E. destruct (last_of p s) as [[[? ?] ?]|]; [done|].
    destruct (p e) eqn:He; [done|]. constructor; [done|]. by apply IH.
Qed.

Lemma free_of_elem l s c : free_of l s = true → c ∈ l → c ∉ s.
Proof.
  unfold free_of. rewrite forallb_forall. intros Hs Hc Hin%list_elem_of_In. apply Hs in Hin.
  apply negb_true_iff, orb_false_iff in Hin as [_ Hin]. unfold one_of_chars in Hin.
  assert (existsb (N.eqb c) l = true); [|congruence]. apply existsb_exists. exists c. rewrite N.eqb_refl.
  by apply list_elem_of_In in Hc.
Qed.

Lemma plausible_spec bad addr d : plausible bad addr = Some d →
  ∃ local, addr = local ++ 64%N :: d ∧ local ≠ [] ∧ d ≠ [] ∧ free_of bad local = true ∧
    free_of [64; 44; 58; 60; 62]%N d = true.
Proof.
  unfold plausible. destruct (last_of _ _) as [[[local c] domain]|] eqn:E; [|done].
  apply last_of_Some in E as (->&->%N.eqb_eq&_). destruct (_ && _) eqn:Hb; [|done]. intros [= ->].
  unfold has_text in Hb. wb_bool. exists local. split_and!; try done; by intros ->.
Qed.

Lemma sentinel_free c : c ∈ NO_RECIPIENTS_NOUN → one_of_chars [44; 58; 64]%N c = false.
Proof.
  revert c. apply Forall_forall. unfold NO_RECIPIENTS_NOUN. repeat constructor.
Qed.

Section nouns.
Context `{Platform}.
(** Case folding keeps the separators of the noun, and makes none. *)
Context (lower_keeps : ∀ s c, c ∈ [44; 58; 64]%N → c ∈ toLowerCase s ↔ c ∈ s).

(** A recipient that governance reads as a mailbox. *)
Definition parses (a : jsstr) : Prop := plausible [60; 62; 44; 58]%N (bare_addr (trim a)) ≠ None.

Lemma token_parses a : parses a →
  (44%N ∉ recipientAddress a) ∧ (58%N ∉ recipientAddress a) ∧ 64%N ∈ recipientAddress a.
Proof.
  unfold parses, recipientAddress. destruct (plausible _ _) as [d|] eqn:E; [|done]. intros _.
  apply plausible_spec in E as (local&->&_&_&Hl&Hd). rewrite !lower_keeps by set_solver.
  rewrite !elem_of_app, !elem_of_cons.
  pose proof (free_of_elem _ _ 44%N Hl ltac:(set_solver)). pose proof (free_of_elem _ _ 58%N Hl ltac:(set_solver)).
  pose proof (free_of_elem _ _ 44%N Hd ltac:(set_solver)). pose proof (free_of_elem _ _ 58%N Hd ltac:(set_solver)).
  naive_solver.
Qed.
Lemma token_fails a : ¬ parses a → 58%N ∈ recipientAddress a.
Proof.
  unfold parses, recipientAddress. destruct (plausible _ _) as [d|]; [by intros []|]. intros _.
  unfold unparseable. apply elem_of_app. left. vm_compute. repeat constructor.
Qed.
#[local] Instance parses_dec a : Decision (parses a).
Proof. unfold parses. apply _. Defined.
Lemma token_colon a : 58%N ∈ recipientAddress a ↔ ¬ parses a.
Proof. destruct (decide (parses a)) as [Hp|Hp]; [|by split; auto using token_fails]. apply token_parses in Hp as Ht. tauto. Qed.

Lemma noun_cases p : all_recipients p = [] ∧ recipientAddressesNoun p = NO_RECIPIENTS_NOUN ∨
  all_recipients p ≠ [] ∧ recipientAddressesNoun p = sorted_join (recipientAddress <$> all_recipients p).
Proof. unfold recipientAddressesNoun. destruct (all_recipients p); [by left|by right]. Qed.

Lemma elem_sorted_join c l : c ≠ 44%N → c ∈ sorted_join l ↔ ∃ x, x ∈ l ∧ c ∈ x.
Proof. intros Hc. unfold sorted_join. rewrite elem_join by done. by setoid_rewrite elem_of_sorted_Set. Qed.

Lemma elem_tokens p (c : N) : c ≠ 44%N → all_recipients p ≠ [] →
  c ∈ recipientAddressesNoun p ↔ ∃ a, a ∈ all_recipients p ∧ c ∈ recipientAddress a.
Proof.
  intros Hc Hp. destruct (noun_cases p) as [[? _]|[_ ->]]; [done|]. rewrite elem_sorted_join by done.
  setoid_rewrite list_elem_of_fmap. naive_solver.
Qed.

Lemma colon_noun p : 58%N ∈ recipientAddressesNoun p ↔ ∃ a, a ∈ all_recipients p ∧ ¬ parses a.
Proof.
  destruct (decide (all_recipients p = [])) as [E|E].
  - unfold recipientAddressesNoun. rewrite E. split; [|by intros (a&?%not_elem_of_nil&_)].
    intros Hin. by apply sentinel_free in Hin.
  - rewrite elem_tokens by done. by setoid_rewrite token_colon.
Qed.

(** C27: The noun of a send, a reply or a draft names its mailboxes: it is the sentinel of an
    empty envelope exactly when there is no recipient, and it holds a colon exactly when some
    recipient does not parse. When all of them parse, any call with the same noun - the one a
    grant for it covers - goes to the same set of mailboxes, over to, cc and bcc. *)
Theorem noun_binds_recipients p q :
  (recipientAddressesNoun p = NO_RECIPIENTS_NOUN ↔ all_recipients p = []) ∧
  (58%N ∈ recipientAddressesNoun p ↔ ∃ a, a ∈ all_recipients p ∧ ¬ parses a) ∧
  (Forall parses (all_recipients p) → recipientAddressesNoun q = recipientAddressesNoun p →
   Forall parses (all_recipients q) ∧
   ∀ m, m ∈ recipientAddress <$> all_recipients q ↔ m ∈ recipientAddress <$> all_recipients p).
Proof.
  assert (∀ p, recipientAddressesNoun p = NO_RECIPIENTS_NOUN ↔ all_recipients p = []) as Hnone.
  { intros p'. split; [|by unfold recipientAddressesNoun; intros ->]. intros E.
    destruct (all_recipients p') as [|a l] eqn:El; [done|]. exfalso.
    assert (58%N ∉ NO_RECIPIENTS_NOUN ∧ 64%N ∉ NO_RECIPIENTS_NOUN) as [H58 H64]
      by (by split; intros ?%sentinel_free).
    rewrite <- E in H58, H64. rewrite elem_tokens in H58, H64 by (done || by rewrite El).
    destruct (decide (parses a)) as [Ha|Ha].
    - destruct H64. exists a. rewrite El. split; [by left|]. by apply token_parses.
    - destruct H58. exists a. rewrite El. split; [by left|]. by apply token_fails. }
  split; [apply Hnone|]. split; [apply colon_noun|]. intros Hp E.
  assert (Forall parses (all_recipients q)) as Hq.
  { apply Forall_forall. intros a Ha. destruct (decide (parses a)) as [|Hn]; [done|]. exfalso.
    assert (58%N ∈ recipientAddressesNoun p) as (b&Hb&Hb')%colon_noun by (rewrite <- E; apply colon_noun; by exists a).
    rewrite Forall_forall in Hp. by apply Hb', Hp. }
  split; [done|]. destruct (noun_cases p) as [[Ep Np]|[Ep Np]].
  - rewrite Np in E. apply Hnone in E. by rewrite E, Ep.
  - destruct (noun_cases q) as [[Eq Nq]|[Eq Nq]]; [by rewrite Nq in E; symmetry in E; apply Hnone in E|].
    rewrite Np, Nq in E. unfold sorted_join in E.
    assert (∀ l, Forall parses l → Forall (λ x, 44%N ∉ x) (stable_sort js_lt (Set_of (recipientAddress <$> l)))) as Hc.
    { intros l Hl. apply Forall_forall. intros x Hx. rewrite elem_of_sorted_Set in Hx. apply list_elem_of_fmap in Hx as (a&->&Ha).
      rewrite Forall_forall in Hl. apply token_parses, Hl, Ha. }
    assert (∀ l, l ≠ [] → stable_sort js_lt (Set_of (recipientAddress <$> l)) ≠ []) as Hne.
    { intros [|a l] Hl Hnil; [done|]. assert (recipientAddress a ∈ []) as ?%not_elem_of_nil; [|done].
      rewrite <- Hnil. apply elem_of_sorted_Set. by left. }
    apply join_inj in E; [|by auto..]. intros m. by rewrite <- (elem_of_sorted_Set m), E, elem_of_sorted_Set.
Qed.
End nouns.

(** ** Truncation *)

(** A well-formed body stays well-formed: it is whole, or a prefix of at most the ceiling
    with the notice of what was left out. *)
Lemma truncated_body body : well_text body →
  well_text (truncateEmailBody body) ∧
  (truncateEmailBody body = body ∧ (length body ≤ EMAIL_READ_BODY_MAX_CHARS)%nat ∨
   ∃ n notice, truncateEmailBody body = take n body ++ notice ∧ (n ≤ EMAIL_READ_BODY_MAX_CHARS < length body)%nat ∧ ascii_only notice).
Proof.
  intros Hb. unfold truncateEmailBody. destruct (Nat.leb_spec (length body) EMAIL_READ_BODY_MAX_CHARS) as [|Hl]; [by auto|].
  generalize dependent EMAIL_READ_BODY_MAX_CHARS. intros limit Hl. cbv zeta.
  assert (∀ n k, let notice := [10%N] ++ js "[... body truncated: " ++ dec k ++ js " of " ++ dec (N.of_nat (length body)) ++ js " characters omitted]" in
    (n ≤ limit)%nat → cut_pair (take n body) (drop n body) = false →
    well_text (take n body ++ notice) ∧ (take n body ++ notice = body ∧ (length body ≤ limit)%nat ∨
      ∃ m notice', take n body ++ notice = take m body ++ notice' ∧ (m ≤ limit < length body)%nat ∧ ascii_only notice')) as Hcut.
  { intros n k notice Hn Hc.
    assert (ascii_only notice) as Ha by (unfold notice; repeat first [apply dec_ascii|by_compute|apply Forall_app; split]).
    split; [|right; by exists n, notice]. apply well_text_app; [|by apply well_text_ascii].
    pose proof (take_drop n body) as E. apply (cut_well_formed (take n body) (drop n body)); [by rewrite E|done]. }
  destruct (last (take limit body)) as [c|] eqn:Ec; [destruct (is_high c) eqn:Hh|].
  - rewrite take_take. apply Hcut; [lia|]. rewrite length_take, !Nat.min_l by lia.
    destruct limit as [|limit]; [done|]. rewrite Nat.sub_1_r. cbn [Nat.pred].
    assert (body !! limit = Some c) as Hat.
    { rewrite last_lookup, length_take, Nat.min_l in Ec by lia. cbn [Nat.pred] in Ec. by apply lookup_take_Some in Ec as [? _]. }
    rewrite (drop_S body c limit Hat). unfold cut_pair. case_match; [|done].
    destruct (is_low c) eqn:Hlow; [by rewrite low_not_high in Hh|]. by rewrite andb_false_r.
  - apply Hcut; [lia|]. unfold cut_pair. rewrite Ec. destruct (drop limit body); [done|]. by rewrite Hh.
  - apply Hcut; [lia|]. unfold cut_pair. by rewrite Ec.
Qed.
