(* ===== verification/MailTools.v ===== *)
(** * The mail tools

    The sandbox mailbox of [services/mock/mock-email-data.ts], and Gmail: the label noun of
    [services/google/gmail.ts], and the message and requests of [gmail-client.ts]. The
    network is a parameter: what it answers to a request. *)

From S2P Require Export TextCodec Recipients.
Open Scope Z_scope.

(** ** The scaffolding of a mail tool *)

(** [ctx.credential?.access_token], when it is a non-empty text. *)
Definition access_token (credential : option jsstr) : option jsstr :=
  match credential with Some (c :: s) => Some (c :: s) | _ => None end.
Definition tool_error (error : jsstr) : ToolExecutionResult := mkExec false None (Some error).
Definition tool_data (data : json) : ToolExecutionResult := mkExec true (Some data) None.
Definition no_credential (service : jsstr) : ToolExecutionResult := tool_error (js "No credential found for service: " ++ service).
(** [try { data = await ... } catch { error message }]. *)
Definition wrapped (outcome : json + jsstr) : ToolExecutionResult :=
  match outcome with inl data => tool_data data | inr message => tool_error message end.
(** A tool that reads its parameters with [read] and hands them to [execute]. *)
Definition email_tool {A} (service : jsstr) (read : fields → A + jsstr) (execute : jsstr → A → json + jsstr)
    (credential : option jsstr) (params : fields) : ToolExecutionResult :=
  match access_token credential with
  | None => no_credential service
  | Some token =>
      match read params with
      | inr error => tool_error error
      | inl request => wrapped (execute token request)
      end
  end.
Definition required_text (k : string) (params : fields) : jsstr + jsstr :=
  match non_blank (get (js k) params) with
  | Some s => inl s
  | None => inr (js "Invalid parameter: " ++ js k ++ js " must be a non-empty string")
  end.

(** ** The sandbox mailbox *)

Record MockEmailMessage := mkMail { ml_subject : jsstr; ml_sender : jsstr; ml_timestamp : jsstr }.
Inductive MockEmailLabel := Box_INBOX | Box_SENT | Box_DRAFTS.
Definition MOCK_EMAIL_LABELS : list MockEmailLabel := [Box_INBOX; Box_SENT; Box_DRAFTS].
Definition mock_label_text (l : MockEmailLabel) : jsstr :=
  match l with Box_INBOX => js "INBOX" | Box_SENT => js "SENT" | Box_DRAFTS => js "DRAFTS" end.
Definition dash : jsstr := [8212%N].
Definition arrow : jsstr := [8594%N].

Definition INBOX_MESSAGES : list MockEmailMessage :=
  [mkMail (js "Team standup moved to 10am starting Monday") (js "priya.chen@company.com") (js "2026-04-07T09:15:00Z");
   mkMail (js "Your Amazon order has shipped") (js "shipment-tracking@amazon.com") (js "2026-04-07T08:42:00Z");
   mkMail (js "Re: Q2 planning doc " ++ dash ++ js " comments added") (js "marcus.williams@company.com") (js "2026-04-07T07:58:00Z");
   mkMail (js "Invitation: Design review @ Wed Apr 9, 2pm") (js "calendar-noreply@google.com") (js "2026-04-06T22:30:00Z");
   mkMail (js "Your weekly digest from Hacker News") (js "digest@hackernewsletter.com") (js "2026-04-06T18:00:00Z");
   mkMail (js "Flight confirmation: SFO " ++ arrow ++ js " JFK Apr 15") (js "no-reply@united.com") (js "2026-04-06T14:22:00Z");
   mkMail (js "Can you review my PR before EOD?") (js "alex.rodriguez@company.com") (js "2026-04-06T11:05:00Z");
   mkMail (js "New comment on your Google Doc") (js "comments-noreply@docs.google.com") (js "2026-04-06T09:30:00Z");
   mkMail (js "Reminder: dentist appointment tomorrow at 3pm") (js "reminders@dentistoffice.com") (js "2026-04-05T20:00:00Z");
   mkMail (js "Invoice #4821 from Figma") (js "billing@figma.com") (js "2026-04-05T16:45:00Z")].
Definition SENT_MESSAGES : list MockEmailMessage :=
  [mkMail (js "Re: Q2 planning doc " ++ dash ++ js " comments added") (js "me") (js "2026-04-07T08:10:00Z");
   mkMail (js "Updated project timeline attached") (js "me") (js "2026-04-06T17:30:00Z");
   mkMail (js "Re: Can you review my PR before EOD?") (js "me") (js "2026-04-06T12:00:00Z");
   mkMail (js "Lunch next week?") (js "me") (js "2026-04-05T15:20:00Z");
   mkMail (js "Re: Flight confirmation: SFO " ++ arrow ++ js " JFK Apr 15") (js "me") (js "2026-04-05T14:45:00Z")].
Definition DRAFTS_MESSAGES : list MockEmailMessage :=
  [mkMail (js "Blog post draft: Why governance matters for AI agents") (js "me") (js "2026-04-07T06:00:00Z");
   mkMail (js "Re: Partnership proposal from Acme Corp") (js "me") (js "2026-04-06T10:15:00Z");
   mkMail (js "Feedback on new onboarding flow") (js "me") (js "2026-04-05T13:00:00Z")].
Definition LABEL_DATA (l : MockEmailLabel) : list MockEmailMessage :=
  match l with Box_INBOX => INBOX_MESSAGES | Box_SENT => SENT_MESSAGES | Box_DRAFTS => DRAFTS_MESSAGES end.

(** [assertEmailListParams]: a label of the vocabulary, or a throw. *)
Definition mock_label (label : jsstr) : option MockEmailLabel := List.find (λ l, eqs (mock_label_text l) label) MOCK_EMAIL_LABELS.
Definition executeMockEmailList (label : jsstr) (maxResults : Z) : list MockEmailMessage + jsstr :=
  match mock_label label with
  | None => inr (js "Unknown mailbox label: " ++ label)
  | Some l =>
      if (1 <=? maxResults) && (maxResults <=? EMAIL_LIST_MAX_RESULTS_CEILING)
      then inl (take (Z.to_nat maxResults) (LABEL_DATA l))
      else inr (js "Invalid maxResults: " ++ int_to_string maxResults)
  end.

(** The mailbox a noun token denotes: none for a label the sandbox does not hold. *)
Definition NOUN_MAILBOXES (noun : jsstr) : list MockEmailLabel :=
  default [] (table noun [(js "INBOX", [Box_INBOX]); (js "SENT", [Box_SENT]); (js "DRAFT", [Box_DRAFTS])]).

Definition operator_char (c : N) : bool := ((97 <=? c) && (c <=? 122) || (c =? 95))%N.
Fixpoint span_operator (s : jsstr) : jsstr * jsstr :=
  match s with
  | c :: s' => if operator_char c then let '(a, k) := span_operator s' in (c :: a, k) else ([], s)
  | [] => ([], [])
  end.
(** The pattern [^([a-z_]+):(.+)$] on a token without white space. *)
Definition operator_token (token : jsstr) : option (jsstr * jsstr) :=
  match span_operator token with
  | (_ :: _ as operator, colon :: (_ :: _ as term)) => if (colon =? 58)%N then Some (operator, term) else None
  | _ => None
  end.
Fixpoint starts_with (prefix s : jsstr) : bool :=
  match prefix, s with
  | [], _ => true
  | p :: prefix, c :: s => (p =? c)%N && starts_with prefix s
  | _ :: _, [] => false
  end.
Fixpoint includes (s term : jsstr) : bool :=
  starts_with term s || match s with [] => false | _ :: s => includes s term end.

Record search_terms := mkTerms { sender_terms : list jsstr; subject_terms : list jsstr; bare_terms : list jsstr }.
Definition add_term (t : search_terms) (token : jsstr) : search_terms :=
  match operator_token token with
  | None => mkTerms (sender_terms t) (subject_terms t) (bare_terms t ++ [token])
  | Some (operator, term) =>
      if eqs operator (js "from") then mkTerms (sender_terms t ++ [term]) (subject_terms t) (bare_terms t)
      else if eqs operator (js "subject") then mkTerms (sender_terms t) (subject_terms t ++ [term]) (bare_terms t)
      else t
  end.
Definition searched_labels (parsed : EmailSearchQuery) : list MockEmailLabel :=
  if eq_anywhere parsed || bool_decide (eq_mailboxes parsed = []) then MOCK_EMAIL_LABELS
  else eq_mailboxes parsed ≫= NOUN_MAILBOXES.

Section mock.
Context `{Platform}.
Definition matches_terms (t : search_terms) (m : MockEmailMessage) : bool :=
  let subject := toLowerCase (ml_subject m) in
  let sender := toLowerCase (ml_sender m) in
  forallb (includes sender) (sender_terms t) && forallb (includes subject) (subject_terms t) &&
  forallb (λ term, includes subject term || includes sender term) (bare_terms t).
Definition executeMockEmailSearch (q : jsstr) (maxResults : Z) : list MockEmailMessage :=
  let parsed := parseEmailSearchQuery (Some (JStr q)) in
  let terms := foldl add_term (mkTerms [] [] []) (eq_rest parsed) in
  take (Z.to_nat maxResults) (List.filter (matches_terms terms) (searched_labels parsed ≫= LABEL_DATA)).

Definition mail_json (m : MockEmailMessage) : json :=
  JObj [(js "subject", JStr (ml_subject m)); (js "sender", JStr (ml_sender m)); (js "timestamp", JStr (ml_timestamp m))].
Definition messages_json (l : list MockEmailMessage) : json := JObj [(js "messages", JArr (mail_json <$> l))].
Definition mock_list_tool : option jsstr → fields → ToolExecutionResult :=
  email_tool (js "mock_email") (email_list_params (mock_label_text <$> MOCK_EMAIL_LABELS) (js "INBOX"))
    (λ _ request, match executeMockEmailList (fst request) (snd request) with inl l => inl (messages_json l) | inr e => inr e end).
Definition mock_search_tool : option jsstr → fields → ToolExecutionResult :=
  email_tool (js "mock_email") email_search_params
    (λ _ request, inl (messages_json (executeMockEmailSearch (fst request) (snd request)))).
End mock.

(** A send acknowledges and counts: the counter is the module's. *)
Definition executeMockEmailSend (params : EmailSendParams) (sentCount : N) : json * N :=
  let sentCount := (sentCount + 1)%N in
  (JObj [(js "id", JStr (js "mock-sent-" ++ dec sentCount)); (js "threadId", JStr (js "mock-thread-" ++ dec sentCount));
         (js "to", JArr (JStr <$> es_to params)); (js "subject", JStr (es_subject params));
         (js "notice", JStr (js "Sandbox send: no real email was transmitted."))], sentCount).

(** ** Gmail labels *)

Definition GMAIL_LABELS : list jsstr :=
  [js "INBOX"; js "SENT"; js "DRAFTS"; js "STARRED"; js "IMPORTANT"; js "SPAM"; js "TRASH"].
Definition GMAIL_LABEL_IDS (label : jsstr) : jsstr := if eqs label (js "DRAFTS") then js "DRAFT" else label.
Definition GMAIL_SYSTEM_LABEL_IDS : list jsstr :=
  [js "INBOX"; js "SENT"; js "DRAFT"; js "SPAM"; js "TRASH"; js "STARRED"; js "IMPORTANT"; js "UNREAD"; js "CHAT";
   js "CATEGORY_PERSONAL"; js "CATEGORY_SOCIAL"; js "CATEGORY_PROMOTIONS"; js "CATEGORY_UPDATES"; js "CATEGORY_FORUMS"].
Definition NO_LABELS_NOUN : jsstr := js "no-labels".
Definition GMAIL_LABEL_RESERVED_IDS : list jsstr := [js "TRASH"; js "SPAM"].
Definition has_id (ids : list jsstr) (id : jsstr) : bool := existsb (eqs id) ids.
(** [Label_] and digits. *)
Definition user_label_id (s : jsstr) : bool :=
  match after_text (js "Label_") s with Some ((_ :: _) as digits) => forallb is_digit digits | _ => false end.
Definition collectLabels (value : option json) : list jsstr :=
  match value with
  | None | Some JNull => []
  | Some value =>
      let raw := match value with JArr l => l | _ => [value] end in
      List.filter has_text ((λ entry, trim (json_String entry)) <$> raw)
  end.

(** What a call asks of the network: a path with its query, and a body. *)
Inductive gmail_request :=
  | Get_messages (query : list (jsstr * jsstr))
  | Get_message (messageId : jsstr) (query : list (jsstr * jsstr))
  | Post_send (body : json)
  | Post_draft (body : json)
  | Post_modify (messageId : jsstr) (body : json)
  | Post_trash (messageId : jsstr).
(** [res.ok] with the object its body holds, the status of a refusal, or what the fetch or
    the reading of the body threw. *)
Inductive gmail_response := Answered (body : fields) | Refused (status : Z) | Failed (message : jsstr).

Section gmail.
Context `{Platform} (toUpperCase : jsstr → jsstr) (fetchFn : gmail_request → gmail_response).

Definition canonicalizeGmailLabel (value : jsstr) : jsstr :=
  let trimmed := trim value in
  let upper := toUpperCase trimmed in
  if has_id GMAIL_SYSTEM_LABEL_IDS upper then upper
  else if user_label_id trimmed then trimmed
  else js "label:" ++ toLowerCase trimmed.
Definition labels_of (params : fields) : list jsstr :=
  collectLabels (get (js "addLabelIds") params) ++ collectLabels (get (js "removeLabelIds") params).
Definition labelMutationNoun (params : fields) : jsstr :=
  match labels_of params with
  | [] => NO_LABELS_NOUN
  | labels => sorted_join (canonicalizeGmailLabel <$> labels)
  end.

(** [body.k ?? fallback]. *)
Definition member_or (k : string) (body : fields) (fallback : json) : json := nullish (get (js k) body) fallback.
Definition gmail_failed (label : jsstr) (status : Z) : jsstr := js "Gmail " ++ label ++ js " failed (" ++ int_to_string status ++ js ")".

(** [.find((h) => h.name === name)?.value ?? ""]. *)
Fixpoint getHeader (name : jsstr) (headers : list json) : json :=
  match headers with
  | [] => JStr []
  | h :: headers =>
      match member (js "name") h with
      | Some (JStr n) => if eqs n name then nullish (member (js "value") h) (JStr []) else getHeader name headers
      | _ => getHeader name headers
      end
  end.
Definition headers_of (detail : fields) : list json :=
  match get (js "payload") detail ≫= member (js "headers") with Some (JArr l) => l | _ => [] end.
Definition metadata_query : list (jsstr * jsstr) :=
  [(js "format", js "metadata"); (js "metadataHeaders", js "Subject"); (js "metadataHeaders", js "From"); (js "metadataHeaders", js "Date")].
Definition message_metadata (id : jsstr) : json + jsstr :=
  match fetchFn (Get_message id metadata_query) with
  | Answered detail =>
      let headers := headers_of detail in
      inl (JObj [(js "id", JStr id); (js "subject", getHeader (js "Subject") headers);
                 (js "sender", getHeader (js "From") headers); (js "timestamp", getHeader (js "Date") headers)])
  | Refused status => inr (gmail_failed (js "message detail") status ++ js ": " ++ id)
  | Failed message => inr message
  end.
(** [Promise.all], with the first failure in the order of the ids. *)
Fixpoint fetchMessagesMetadata (ids : list jsstr) : list json + jsstr :=
  match ids with
  | [] => inl []
  | id :: ids =>
      match message_metadata id, fetchMessagesMetadata ids with
      | inl m, inl l => inl (m :: l)
      | inr e, _ | inl _, inr e => inr e
      end
  end.
(** The ids of [messages], which the API documents as objects with an [id] text. *)
Definition message_ids (body : fields) : list jsstr :=
  match get (js "messages") body with Some (JArr l) => omap (λ m, match member (js "id") m with Some (JStr s) => Some s | _ => None end) l | _ => [] end.
Definition find_messages (label : jsstr) (query : list (jsstr * jsstr)) (maxResults : Z) : list json + jsstr :=
  match fetchFn (Get_messages query) with
  | Answered body => fetchMessagesMetadata (take (Z.to_nat maxResults) (message_ids body))
  | Refused status => inr (gmail_failed label status)
  | Failed message => inr message
  end.
Definition executeGmailSearch (q : jsstr) (maxResults : Z) : json + jsstr :=
  match find_messages (js "search") [(js "q", q); (js "maxResults", int_to_string maxResults)] maxResults with
  | inl l => inl (JObj [(js "messages", JArr l)])
  | inr e => inr e
  end.
Definition without_id (m : json) : json :=
  match m with JObj (_ :: metadata) => JObj metadata | _ => m end.
Definition executeGmailList (labelId : jsstr) (maxResults : Z) : json + jsstr :=
  match find_messages (js "list") [(js "labelIds", labelId); (js "maxResults", int_to_string maxResults)] maxResults with
  | inl l => inl (JObj [(js "messages", JArr (without_id <$> l))])
  | inr e => inr e
  end.
Definition gmailListExecute (label : jsstr) (maxResults : Z) : json + jsstr :=
  if negb (has_id GMAIL_LABELS label) then inr (js "Unknown mailbox label: " ++ label)
  else if (1 <=? maxResults) && (maxResults <=? EMAIL_LIST_MAX_RESULTS_CEILING) then executeGmailList (GMAIL_LABEL_IDS label) maxResults
  else inr (js "Invalid maxResults: " ++ int_to_string maxResults).
Definition GMAIL_LIST : option jsstr → fields → ToolExecutionResult :=
  email_tool (js "gmail") (email_list_params GMAIL_LABELS (js "INBOX")) (λ _ request, gmailListExecute (fst request) (snd request)).
Definition GMAIL_SEARCH : option jsstr → fields → ToolExecutionResult :=
  email_tool (js "gmail") email_search_params (λ _ request, executeGmailSearch (fst request) (snd request)).

Definition modified (messageId : jsstr) (body : fields) : json :=
  JObj [(js "id", member_or "id" body (JStr messageId)); (js "labelIds", member_or "labelIds" body (JArr []))].
Definition executeGmailModify (messageId : jsstr) (addLabelIds removeLabelIds : list jsstr) : json + jsstr :=
  match fetchFn (Post_modify messageId (JObj [(js "addLabelIds", JArr (JStr <$> addLabelIds));
                                              (js "removeLabelIds", JArr (JStr <$> removeLabelIds))])) with
  | Answered body => inl (modified messageId body)
  | Refused status => inr (gmail_failed (js "modify") status ++ js ": " ++ messageId)
  | Failed message => inr message
  end.
Definition executeGmailTrash (messageId : jsstr) : json + jsstr :=
  match fetchFn (Post_trash messageId) with
  | Answered body => inl (modified messageId body)
  | Refused status => inr (gmail_failed (js "trash") status ++ js ": " ++ messageId)
  | Failed message => inr message
  end.

(** The tools with one fixed mutation. *)
Definition gmailMessageMutation (mutate : jsstr → json + jsstr) : option jsstr → fields → ToolExecutionResult :=
  email_tool (js "gmail") (required_text "messageId") (λ _, mutate).
Definition GMAIL_ARCHIVE := gmailMessageMutation (λ id, executeGmailModify id [] [js "INBOX"]).
Definition GMAIL_MARK_READ := gmailMessageMutation (λ id, executeGmailModify id [] [js "UNREAD"]).
Definition GMAIL_TRASH := gmailMessageMutation executeGmailTrash.

Definition label_request (params : fields) : (jsstr * list jsstr * list jsstr) + jsstr :=
  match required_text "messageId" params with
  | inr e => inr e
  | inl messageId =>
      let addLabelIds := collectLabels (get (js "addLabelIds") params) in
      let removeLabelIds := collectLabels (get (js "removeLabelIds") params) in
      if bool_decide (addLabelIds = []) && bool_decide (removeLabelIds = [])
      then inr (js "Invalid parameter: at least one of addLabelIds or removeLabelIds must name a label")
      else
        let reserved := List.filter (has_id GMAIL_LABEL_RESERVED_IDS) (canonicalizeGmailLabel <$> Set_of (addLabelIds ++ removeLabelIds)) in
        if bool_decide (reserved = []) then inl (messageId, addLabelIds, removeLabelIds)
        else inr (js "Invalid parameter: gmail_label cannot modify the " ++ Json.join (js ", ") (stable_sort js_lt reserved) ++
                  js " system label " ++ dash ++ js " use gmail_trash to trash a message; marking spam is not supported")
  end.
Definition GMAIL_LABEL : option jsstr → fields → ToolExecutionResult :=
  email_tool (js "gmail") label_request (λ _ '(messageId, add, remove), executeGmailModify messageId add remove).

(** ** The message *)

Definition is_crlf (c : N) : bool := ((c =? 13) || (c =? 10))%N.
(** Runs of CR and LF become one space. *)
Fixpoint fold_breaks (in_run : bool) (s : jsstr) : jsstr :=
  match s with
  | [] => []
  | c :: s => if is_crlf c then (if in_run then [] else [32%N]) ++ fold_breaks true s else c :: fold_breaks false s
  end.
Definition sanitizeHeaderValue (value : jsstr) : jsstr := trim (fold_breaks false value).
Definition isPrintableAscii (value : jsstr) : bool := forallb (λ c, (32 <=? c) && (c <=? 126))%N value.
(** [btoa] throws on no string of bytes. *)
Definition rfc2047Word (value : jsstr) : jsstr := js "=?UTF-8?B?" ++ default [] (btoa (utf8ToBinary value)) ++ js "?=".
Definition encodeHeaderValue (value : jsstr) : jsstr :=
  let safe := sanitizeHeaderValue value in if isPrintableAscii safe then safe else rfc2047Word safe.

(** The display name and the bracketed address of [^(.*?)\s*(<[^<>]*>)$]: the display name
    reaches over no line separator. *)
Definition line_separator (c : N) : bool := is_crlf c || ((c =? 0x2028) || (c =? 0x2029))%N.
Definition display_and_address (safe : jsstr) : option (jsstr * jsstr) :=
  match last_of (λ _, true) safe with
  | Some (inner, 62%N, _) =>
      match last_of (one_of_chars [60; 62]%N) inner with
      | Some (before, 60%N, addr) =>
          let display := trim_end before in
          if existsb line_separator display then None else Some (display, 60%N :: addr ++ [62%N])
      | _ => None
      end
  | _ => None
  end.
(** One layer of surrounding quotes off. *)
Definition unquoted (display : jsstr) : jsstr :=
  match display with
  | 34%N :: ((_ :: _) as rest) =>
      match last_of (λ _, true) rest with Some (bare, 34%N, _) => bare | _ => display end
  | _ => display
  end.
Definition formatAddressHeader (address : jsstr) : jsstr :=
  let safe := sanitizeHeaderValue address in
  match display_and_address safe with
  | None => safe
  | Some (display, addr) =>
      let display := trim display in
      match display with
      | [] => addr
      | _ => if isPrintableAscii display then display ++ [32%N] ++ addr else rfc2047Word (unquoted display) ++ [32%N] ++ addr
      end
  end.
Definition address_list (l : list jsstr) : jsstr := Json.join (js ", ") (formatAddressHeader <$> l).
Definition messageId_of (inReplyTo : jsstr) : jsstr :=
  match sanitizeHeaderValue inReplyTo with
  | 60%N :: rest => 60%N :: rest
  | id => [60%N] ++ id ++ [62%N]
  end.

(** The header lines, as name and value. *)
Definition message_fields (envelope : EmailSendParams) (threading : option jsstr) : list (jsstr * jsstr) :=
  [(js "To", address_list (es_to envelope))] ++
  match es_cc envelope with [] => [] | cc => [(js "Cc", address_list cc)] end ++
  match es_bcc envelope with [] => [] | bcc => [(js "Bcc", address_list bcc)] end ++
  [(js "Subject", encodeHeaderValue (es_subject envelope))] ++
  match threading with
  | Some inReplyTo => [(js "In-Reply-To", messageId_of inReplyTo); (js "References", messageId_of inReplyTo)]
  | None => []
  end ++
  [(js "MIME-Version", js "1.0"); (js "Content-Type", js "text/plain; charset=" ++ [34%N] ++ js "UTF-8" ++ [34%N])].
Definition crlf : jsstr := [13; 10]%N.
Definition field_line (field : jsstr * jsstr) : jsstr := fst field ++ js ": " ++ snd field.
Definition buildRfc2822 (envelope : EmailSendParams) (threading : option jsstr) : jsstr :=
  Json.join crlf (field_line <$> message_fields envelope threading) ++ crlf ++ crlf ++ es_body envelope.
Definition encodeBase64Url (text : jsstr) : jsstr := b64url (utf8ToBinary text).

Definition postGmailSend (payload : fields) (label : jsstr) : json + jsstr :=
  match fetchFn (Post_send (JObj payload)) with
  | Answered sent => inl (JObj [(js "id", member_or "id" sent (JStr [])); (js "threadId", member_or "threadId" sent (JStr []))])
  | Refused status => inr (gmail_failed label status)
  | Failed message => inr message
  end.
Definition executeGmailSend (request : EmailSendParams) : json + jsstr :=
  postGmailSend [(js "raw", JStr (encodeBase64Url (buildRfc2822 request None)))] (js "send").
(** [/^re:/i] on the trimmed subject. *)
Definition is_re (subject : jsstr) : bool :=
  match trim subject with
  | r :: e :: colon :: _ => ((r =? 114) || (r =? 82)) && ((e =? 101) || (e =? 69)) && (colon =? 58)
  | _ => false
  end%N.
Definition reply_envelope (request : EmailSendParams) : EmailSendParams :=
  mkEnvelope (es_to request) (es_cc request) (es_bcc request)
    (if is_re (es_subject request) then es_subject request else js "Re: " ++ es_subject request) (es_body request).
Definition executeGmailReply (request : EmailSendParams) (threadId inReplyTo : jsstr) : json + jsstr :=
  postGmailSend [(js "raw", JStr (encodeBase64Url (buildRfc2822 (reply_envelope request) (Some inReplyTo))));
                 (js "threadId", JStr threadId)] (js "reply").
Definition executeGmailDraft (request : EmailSendParams) : json + jsstr :=
  match fetchFn (Post_draft (JObj [(js "message", JObj [(js "raw", JStr (encodeBase64Url (buildRfc2822 request None)))])])) with
  | Answered draft =>
      let message k := nullish (get (js "message") draft ≫= member (js k)) (JStr []) in
      inl (JObj [(js "id", member_or "id" draft (JStr [])); (js "messageId", message "id"); (js "threadId", message "threadId")])
  | Refused status => inr (gmail_failed (js "draft") status)
  | Failed message => inr message
  end.

Definition GMAIL_SEND : option jsstr → fields → ToolExecutionResult :=
  email_tool (js "gmail") normalizeEmailEnvelope (λ _, executeGmailSend).
Definition GMAIL_DRAFT : option jsstr → fields → ToolExecutionResult :=
  email_tool (js "gmail") normalizeEmailEnvelope (λ _, executeGmailDraft).
Definition reply_request (params : fields) : (EmailSendParams * jsstr * jsstr) + jsstr :=
  match normalizeEmailEnvelope params with
  | inr e => inr e
  | inl envelope =>
      match required_text "threadId" params with
      | inr e => inr e
      | inl threadId =>
          match required_text "inReplyTo" params with
          | inr e => inr e
          | inl inReplyTo => inl (envelope, threadId, inReplyTo)
          end
      end
  end.
Definition GMAIL_REPLY : option jsstr → fields → ToolExecutionResult :=
  email_tool (js "gmail") reply_request (λ _ '(envelope, threadId, inReplyTo), executeGmailReply envelope threadId inReplyTo).
End gmail.
