(* ===== verification/MailExact.v ===== *)
(** * What a mail call does, and what its noun says

    A built message reads back as its header fields and its body; the mailboxes its headers
    name are the governed ones; a search stays in the mailboxes of its noun, and a label
    mutation on the labels of its noun. *)

From S2P Require Export RecipientsExact MailTools.
Open Scope Z_scope.

(** ** Facts: white space *)

Definition all_space (s : jsstr) : Prop := Forall (λ c, is_space c = true) s.
Definition no_space (s : jsstr) : Prop := Forall (λ c, is_space c = false) s.
Definition solid (s : jsstr) : Prop := ∃ c, head s = Some c ∧ is_space c = false.

Lemma trim_start_space w s : all_space w → trim_start (w ++ s) = trim_start s.
Proof. induction 1 as [|c w Hc _ IH]; simpl; [done|]. by rewrite Hc. Qed.
Lemma trim_start_solid s : solid s → trim_start s = s.
Proof. intros (c&E&Hc). destruct s as [|d s]; [done|]. simpl in *. injection E as ->. by rewrite Hc. Qed.
Lemma trim_start_split s : ∃ w, s = w ++ trim_start s ∧ all_space w ∧ (trim_start s = [] ∨ solid (trim_start s)).
Proof.
  induction s as [|c s (w&E&Hw&Hs)]; simpl; [exists []; split_and!; [done|constructor|by left]|].
  destruct (is_space c) eqn:Hc.
  - exists (c :: w). split_and!; [by rewrite E at 1|by constructor|done].
  - exists []. split_and!; [done|constructor|right; by exists c].
Qed.
Lemma trim_end_split s : ∃ w, s = trim_end s ++ w ∧ all_space w ∧ (trim_end s = [] ∨ solid (rev (trim_end s))).
Proof.
  unfold trim_end. destruct (trim_start_split (rev s)) as (w&E&Hw&Hs). exists (rev w). split_and!.
  - rewrite <- rev_app_distr, <- E. by rewrite rev_involutive.
  - by apply Forall_rev.
  - rewrite rev_involutive. destruct Hs as [->|?]; [by left|by right].
Qed.
Lemma trim_eq s : trim s = trim_end (trim_start s).
Proof. done. Qed.
Lemma trim_solid s : solid s → solid (rev s) → trim s = s.
Proof. intros H1 H2. rewrite trim_eq, trim_start_solid by done. unfold trim_end. by rewrite trim_start_solid, rev_involutive. Qed.
Lemma solid_app_r s c w : is_space c = false → solid (rev (s ++ c :: w)) ↔ solid (rev (c :: w)).
Proof.
  intros Hc. rewrite rev_app_distr. simpl. destruct (rev w); simpl; done.
Qed.

(** Either nothing but white space, or a solid middle between white space. *)
Lemma trim_split s : (trim s = [] ∧ all_space s) ∨
  ∃ w1 w2, s = w1 ++ trim s ++ w2 ∧ all_space w1 ∧ all_space w2 ∧ solid (trim s) ∧ solid (rev (trim s)).
Proof.
  rewrite trim_eq. destruct (trim_start_split s) as (w1&E1&Hw1&[Hs|Hs]).
  - left. rewrite Hs in *. split; [done|]. rewrite E1. by rewrite app_nil_r.
  - right. set (m := trim_start s) in *. destruct (trim_end_split m) as (w2&E2&Hw2&[He|He]).
    + exfalso. rewrite He in E2. simpl in E2. rewrite E2 in Hs. destruct Hs as (c&Ec&Hc). destruct w2; [done|].
      injection Ec as ->. inversion Hw2. congruence.
    + exists w1, w2. rewrite <- E2. split_and!; try done.
      destruct Hs as (c&Ec&Hc). rewrite E2 in Ec. exists c. split; [|done].
      destruct (trim_end m); [by destruct He as (?&?&_)|done].
Qed.
Lemma trim_pad w1 w2 s : all_space w1 → all_space w2 → solid s → solid (rev s) → trim (w1 ++ s ++ w2) = s.
Proof.
  intros H1 H2 Hs Hr. rewrite trim_eq, trim_start_space by done.
  rewrite trim_start_solid by (destruct Hs as (c&E&?); exists c; split; [by destruct s|done]).
  unfold trim_end. rewrite rev_app_distr, trim_start_space by by apply Forall_rev.
  by rewrite trim_start_solid, rev_involutive.
Qed.
Lemma no_space_solid s : no_space s → s ≠ [] → solid s ∧ solid (rev s).
Proof.
  intros Hs Hn. assert (∀ l, no_space l → l ≠ [] → solid l) as Hd.
  { intros [|c l] Hl ?; [done|]. exists c. split; [done|]. by inversion Hl. }
  split; [by apply Hd|]. apply Hd; [by apply Forall_rev|]. intros E. apply Hn. by rewrite <- (rev_involutive s), E.
Qed.
Lemma trim_no_space s : no_space s → trim s = s.
Proof. intros Hs. destruct s as [|c s]; [done|]. destruct (no_space_solid (c :: s) Hs); [done|]. by apply trim_solid. Qed.

(** ** Facts: folding line breaks *)

Definition no_break (s : jsstr) : Prop := Forall (λ c, is_crlf c = false) s.
Fixpoint run_state (b : bool) (s : jsstr) : bool := match s with [] => b | c :: s => run_state (is_crlf c) s end.
Lemma fold_app b x y : fold_breaks b (x ++ y) = fold_breaks b x ++ fold_breaks (run_state b x) y.
Proof.
  revert b. induction x as [|c x IH]; intros b; simpl; [done|]. destruct (is_crlf c); [rewrite <- app_assoc|]; by rewrite IH.
Qed.
Lemma fold_state b c s : is_crlf c = false → fold_breaks b (c :: s) = c :: fold_breaks false s.
Proof. intros Hc. simpl. by rewrite Hc. Qed.
Lemma fold_no_break b s : no_break (fold_breaks b s).
Proof.
  revert b. induction s as [|c s IH]; intros b; simpl; [constructor|]. destruct (is_crlf c) eqn:Hc; [|by apply Forall_cons_2; [|apply IH]].
  apply Forall_app. split; [|apply IH]. destruct b; repeat constructor.
Qed.
Lemma fold_id b s : no_break s → fold_breaks b s = s.
Proof. intros Hs. revert b. induction Hs as [|c s Hc _ IH]; intros b; simpl; [done|]. by rewrite Hc, IH. Qed.
Lemma fold_space b s : all_space s → all_space (fold_breaks b s).
Proof.
  intros Hs. revert b. induction Hs as [|c s Hc _ IH]; intros b; simpl; [constructor|].
  destruct (is_crlf c); [|by apply Forall_cons_2; [|apply IH]]. apply Forall_app. split; [|apply IH]. destruct b; repeat constructor.
Qed.
Lemma crlf_space c : is_space c = false → is_crlf c = false.
Proof.
  unfold is_crlf. intros Hc. destruct (N.eqb_spec c 13) as [->|]; [done|]. by destruct (N.eqb_spec c 10) as [->|].
Qed.
Lemma no_space_break s : no_space s → no_break s.
Proof. intros Hs. eapply Forall_impl; [exact Hs|]. intros c. apply crlf_space. Qed.
Lemma fold_elem b s c : c ∈ fold_breaks b s → c = 32%N ∨ c ∈ s.
Proof.
  revert b. induction s as [|d s IH]; intros b; simpl; [by intros ?%not_elem_of_nil|].
  destruct (is_crlf d).
  - intros [Hc|Hc]%elem_of_app; [destruct b; [by apply not_elem_of_nil in Hc|]; apply list_elem_of_singleton in Hc; by left|].
    apply IH in Hc as [?|?]; [by left|right; by right].
  - intros [->|Hc]%elem_of_cons; [right; by left|]. apply IH in Hc as [?|?]; [by left|right; by right].
Qed.

(** Folding works inside the solid middle. *)
Lemma fold_solid b s : solid s → solid (rev s) → solid (fold_breaks b s) ∧ solid (rev (fold_breaks b s)).
Proof.
  intros (c&Ec&Hc) (d&Ed&Hd). split.
  - exists c. split; [|done]. destruct s as [|c' s]; [done|]. injection Ec as ->. simpl. by rewrite crlf_space.
  - exists d. split; [|done]. destruct (rev s) as [|d' r] eqn:Er; [done|]. injection Ed as ->.
    assert (s = rev r ++ [d]) as -> by by rewrite <- (rev_involutive s), Er.
    rewrite fold_app. simpl. rewrite crlf_space by done. by rewrite rev_app_distr.
Qed.
Lemma sanitize_middle w1 m w2 : all_space w1 → all_space w2 → solid m → solid (rev m) →
  sanitizeHeaderValue (w1 ++ m ++ w2) = fold_breaks false m.
Proof.
  intros H1 H2 Hm Hr. unfold sanitizeHeaderValue. rewrite !fold_app.
  assert (∀ b, fold_breaks b m = fold_breaks false m) as Hb.
  { intros b. destruct Hm as (c&E&Hc). destruct m as [|c' m]; [done|]. injection E as ->. by rewrite !fold_state by by apply crlf_space. }
  rewrite Hb. destruct (fold_solid false m Hm Hr). apply trim_pad; by try apply fold_space.
Qed.

(** ** Facts: the bracketed address *)

Definition bracket (c : N) : bool := one_of_chars [60; 62]%N c.
Definition no_bracket (s : jsstr) : Prop := Forall (λ c, bracket c = false) s.

Lemma last_of_here p b c a : p c = true → Forall (λ d, p d = false) a → last_of p (b ++ c :: a) = Some (b, c, a).
Proof.
  intros Hc Ha. assert (last_of p a = None) as Hn.
  { induction Ha as [|d a Hd _ IH]; [done|]. simpl. by rewrite IH, Hd. }
  induction b as [|d b IH]; simpl; [by rewrite Hn, Hc|by rewrite IH].
Qed.
Lemma last_char s c : last_of (λ _, true) (s ++ [c]) = Some (s, c, []).
Proof. by apply last_of_here. Qed.
Lemma trim_end_bracket s : trim_end (s ++ [62%N]) = s ++ [62%N].
Proof. unfold trim_end. rewrite rev_app_distr. simpl. by rewrite rev_involutive. Qed.

Lemma angle_bracketed before inner : no_bracket inner → angle (before ++ 60%N :: inner ++ [62%N]) = Some inner.
Proof.
  intros Hi. unfold angle. rewrite app_comm_cons, app_assoc, trim_end_bracket, last_char.
  by rewrite last_of_here.
Qed.
Lemma angle_spec s inner : angle s = Some inner →
  ∃ before, trim_end s = before ++ 60%N :: inner ++ [62%N] ∧ no_bracket inner.
Proof.
  unfold angle. destruct (last_of (λ _, true) (trim_end s)) as [[[m c] k]|] eqn:E; [|done].
  apply last_of_Some in E as (Es&_&Hk).
  assert (k = []) as -> by (destruct k; [done|by apply Forall_cons in Hk as [? _]]).
  destruct (N.eq_dec c 62) as [->|Hc]; [|by repeat case_match].
  destruct (last_of (one_of_chars [60; 62]%N) m) as [[[b d] i]|] eqn:Em; [|done].
  apply last_of_Some in Em as (->&_&Hi). destruct (N.eq_dec d 60) as [->|Hd]; [|by repeat case_match].
  intros [= ->]. exists b. by rewrite Es, <- app_assoc.
Qed.

Lemma fold_no_bracket b s : no_bracket s → no_bracket (fold_breaks b s).
Proof.
  intros Hs. apply Forall_forall. intros c Hc. apply fold_elem in Hc as [->|Hc]; [done|]. unfold no_bracket in Hs.
  rewrite Forall_forall in Hs. by apply Hs.
Qed.

(** What a recipient is written as: the sanitised text, or something before the brackets. *)
Lemma format_shape s before inner : sanitizeHeaderValue s = before ++ 60%N :: inner ++ [62%N] → no_bracket inner →
  ∃ x, formatAddressHeader s = x ++ 60%N :: inner ++ [62%N].
Proof.
  intros E Hi. unfold formatAddressHeader. rewrite E. cbv zeta.
  destruct (display_and_address _) as [[display addr]|] eqn:Ed; [|by exists before].
  assert (addr = 60%N :: inner ++ [62%N]) as ->.
  { revert Ed. unfold display_and_address. rewrite app_comm_cons, app_assoc, last_char, last_of_here by done.
    case_match; [done|]. by intros [= _ <-]. }
  destruct (trim display) as [|c d]; [by exists []|]. destruct (isPrintableAscii _).
  - exists ((c :: d) ++ [32%N]). by rewrite <- app_assoc.
  - exists (rfc2047Word (unquoted (c :: d)) ++ [32%N]). by rewrite <- app_assoc.
Qed.

Lemma bare_addr_angle s inner : angle s = Some inner → bare_addr s = trim inner.
Proof. unfold bare_addr. by intros ->. Qed.
Lemma bare_addr_plain s : angle s = None → bare_addr s = trim s.
Proof. unfold bare_addr. by intros ->. Qed.

Section transmitted.
Context `{Platform}.

Lemma trim_bracketed x inner : ∃ y, trim (x ++ 60%N :: inner ++ [62%N]) = y ++ 60%N :: inner ++ [62%N].
Proof.
  rewrite trim_eq. destruct (trim_start_split x) as (w&E&Hw&Hx).
  assert (∃ y, trim_start (x ++ 60%N :: inner ++ [62%N]) = y ++ 60%N :: inner ++ [62%N]) as [y ->].
  { rewrite E, <- app_assoc, trim_start_space by done. destruct Hx as [->|(c&Ec&Hc)].
    - exists []. simpl. done.
    - exists (trim_start x). apply trim_start_solid. exists c. split; [|done]. by destruct (trim_start x). }
  exists y. by rewrite app_comm_cons, app_assoc, trim_end_bracket, <- app_assoc.
Qed.

Lemma recipient_bracketed x inner d : no_bracket inner → plausible [60; 62; 44; 58]%N (trim inner) = Some d →
  recipientAddress (x ++ 60%N :: inner ++ [62%N]) = toLowerCase (trim inner).
Proof.
  intros Hi Hp. unfold recipientAddress. destruct (trim_bracketed x inner) as [y ->].
  rewrite (bare_addr_angle _ inner) by by apply angle_bracketed. by rewrite Hp.
Qed.

Lemma plausible_solid bad addr d : plausible bad addr = Some d → no_space addr ∧ addr ≠ [].
Proof.
  intros (local&->&_&_&Hl&Hd)%plausible_spec.
  assert (∀ l s, free_of l s = true → no_space s) as Hf.
  { intros l s Hs. apply Forall_forall. intros c Hc. unfold free_of in Hs. rewrite forallb_forall in Hs.
    apply list_elem_of_In in Hc. apply Hs in Hc. by apply negb_true_iff, orb_false_iff in Hc as [Hc _]. }
  split; [|by destruct local]. apply Forall_app. split; [by eapply Hf|]. constructor; [done|by eapply Hf].
Qed.
Lemma plausible_no_bracket addr d : plausible [60; 62; 44; 58]%N addr = Some d → no_bracket addr.
Proof.
  intros (local&->&_&_&Hl&Hd)%plausible_spec. apply Forall_forall. intros c Hc.
  destruct (bracket c) eqn:Hb; [|done]. exfalso. unfold bracket, one_of_chars in Hb. simpl in Hb.
  assert (c = 60 ∨ c = 62)%N as Hc' by (destruct (N.eqb_spec c 60); [by left|]; destruct (N.eqb_spec c 62); [by right|done]).
  apply elem_of_app in Hc as [Hc|[->|Hc]%elem_of_cons]; [|by destruct Hc'|].
  - eapply (free_of_elem _ _ c Hl); [|done]. destruct Hc' as [-> | ->]; set_solver.
  - eapply (free_of_elem _ _ c Hd); [|done]. destruct Hc' as [-> | ->]; set_solver.
Qed.

(** The mailbox of the header is the governed one. *)
Lemma governed_address a : parses a → recipientAddress (formatAddressHeader a) = recipientAddress a.
Proof.
  intros Hp. unfold parses in Hp.
  destruct (plausible [60; 62; 44; 58]%N (bare_addr (trim a))) as [d|] eqn:Ep; [|done]. clear Hp.
  destruct (trim_split a) as [[E _]|(w1&w2&Ea&Hw1&Hw2&Hs&Hr)].
  { rewrite E in Ep. done. }
  set (t := trim a) in *. assert (sanitizeHeaderValue a = fold_breaks false t) as Esan.
  { rewrite Ea at 1. by apply sanitize_middle. }
  destruct (angle t) as [inner|] eqn:Eang; [rewrite (bare_addr_angle _ _ Eang) in Ep|rewrite (bare_addr_plain _ Eang) in Ep].
  - assert (trim_end t = t) as Et by (unfold trim_end; by rewrite trim_start_solid, rev_involutive).
    apply angle_spec in Eang as Hang. destruct Hang as (before&Eb&Hi). rewrite Et in Eb.
    assert (sanitizeHeaderValue a = fold_breaks false before ++ 60%N :: fold_breaks false inner ++ [62%N]) as Eform.
    { rewrite Esan, Eb, fold_app. f_equal. rewrite fold_state by done. f_equal. rewrite fold_app. by rewrite fold_state. }
    apply format_shape in Eform as [x ->]; [|by apply fold_no_bracket].
    assert (trim (fold_breaks false inner) = trim inner) as Etr.
    { destruct (plausible_solid _ _ _ Ep) as [Hns Hne].
      destruct (trim_split inner) as [[E0 _]|(u1&u2&Ei&Hu1&Hu2&Hs'&Hr')]; [done|].
      change (sanitizeHeaderValue inner = trim inner). rewrite Ei at 1. rewrite sanitize_middle by done.
      by apply fold_id, no_space_break. }
    rewrite (recipient_bracketed _ _ d); [|by apply fold_no_bracket|by rewrite Etr]. rewrite Etr.
    unfold recipientAddress. fold t. by rewrite (bare_addr_angle _ _ Eang), Ep.
  - assert (trim t = t) as Et by by apply trim_solid. rewrite Et in Ep.
    destruct (plausible_solid _ _ _ Ep) as [Hns Hne]. pose proof (plausible_no_bracket _ _ Ep) as Hnb.
    assert (formatAddressHeader a = t) as ->.
    { unfold formatAddressHeader. rewrite Esan, fold_id by by apply no_space_break. cbv zeta.
      assert (display_and_address t = None) as ->; [|done]. unfold display_and_address.
      destruct (last_of (λ _, true) t) as [[[m c] k]|] eqn:E; [|done]. apply last_of_Some in E as (->&_&_).
      destruct (N.eq_dec c 62) as [->|]; [|by repeat case_match]. exfalso.
      apply Forall_app in Hnb as [_ Hnb]. by apply Forall_cons in Hnb as [? _]. }
    unfold recipientAddress. rewrite Et. done.
Qed.
End transmitted.

(** ** Reading a message *)

(** A line, ended by CR LF or by either of them alone. *)
Fixpoint read_mail_line (s : jsstr) : jsstr * jsstr :=
  match s with
  | [] => ([], [])
  | c :: s' =>
      if (c =? 10)%N then ([], s')
      else if (c =? 13)%N then ([], match s' with d :: r => if (d =? 10)%N then r else s' | [] => [] end)
      else let '(l, k) := read_mail_line s' in (c :: l, k)
  end.
(** A line's name, and its value after the colon and a space. *)
Fixpoint split_field (line : jsstr) : jsstr * jsstr :=
  match line with
  | [] => ([], [])
  | c :: s => if (c =? 58)%N then ([], drop 1 s) else let '(name, value) := split_field s in (c :: name, value)
  end.
(** The fields up to the first empty line, and the body. *)
Fixpoint read_fields (fuel : nat) (s : jsstr) : list (jsstr * jsstr) * jsstr :=
  match fuel with
  | O => ([], s)
  | S fuel =>
      match read_mail_line s with
      | ([], body) => ([], body)
      | (line, rest) => let '(fields, body) := read_fields fuel rest in (split_field line :: fields, body)
      end
  end.
Definition read_message (s : jsstr) : list (jsstr * jsstr) * jsstr := read_fields (length s) s.

Lemma read_mail_line_crlf line k : no_break line → read_mail_line (line ++ crlf ++ k) = (line, k).
Proof.
  induction 1 as [|c line Hc _ IH]; [done|]. unfold is_crlf in Hc. apply orb_false_iff in Hc as [H13 H10].
  simpl in *. by rewrite H13, H10, IH.
Qed.
Definition field_name (name : jsstr) : Prop := name ≠ [] ∧ no_break name ∧ Forall (λ c, (c =? 58)%N = false) name.
Lemma split_field_line name value : field_name name → split_field (field_line (name, value)) = (name, value).
Proof.
  intros (_&_&Hn). unfold field_line. cbn [fst snd]. induction Hn as [|c name Hc _ IH]; [done|]. simpl in *. by rewrite Hc, IH.
Qed.
Definition field_ok (f : jsstr * jsstr) : Prop := field_name (fst f) ∧ no_break (snd f).

Lemma read_fields_exact fs body fuel : Forall field_ok fs → (length fs < fuel)%nat →
  read_fields fuel (foldr (λ f k, field_line f ++ crlf ++ k) (crlf ++ body) fs) = (fs, body).
Proof.
  intros Hfs. revert fuel. induction Hfs as [|[name value] fs [Hn Hv] _ IH]; intros [|fuel] Hf; simpl in Hf; try lia; [done|].
  cbn [foldr read_fields]. rewrite read_mail_line_crlf.
  - destruct (field_line (name, value)) as [|c l] eqn:El; [by destruct Hn as [? _]; destruct name|].
    rewrite IH by lia. rewrite <- El. by rewrite split_field_line.
  - unfold field_line. cbn [fst snd] in *. destruct Hn as (_&Hn&_). apply Forall_app. split; [done|].
    apply Forall_app. split; [repeat constructor|done].
Qed.

Lemma join_lines (l : list jsstr) k : l ≠ [] → Json.join crlf l ++ crlf ++ k = foldr (λ x t, x ++ crlf ++ t) k l.
Proof.
  intros Hl. induction l as [|x [|y l] IH]; [done|done|].
  change (Json.join crlf (x :: y :: l)) with (x ++ crlf ++ Json.join crlf (y :: l)).
  rewrite <- !app_assoc. cbn [foldr]. do 2 f_equal. by apply IH.
Qed.

(** *** No header value breaks a line *)

Lemma trim_sub s c : c ∈ trim s → c ∈ s.
Proof.
  destruct (trim_split s) as [[E _]|(w1&w2&E&_)]; [rewrite E; by intros ?%not_elem_of_nil|].
  intros Hc. rewrite E. apply elem_of_app. right. apply elem_of_app. by left.
Qed.
Lemma sanitize_no_break s : no_break (sanitizeHeaderValue s).
Proof.
  apply Forall_forall. intros c Hc%trim_sub. pose proof (fold_no_break false s) as Hf. unfold no_break in Hf.
  rewrite Forall_forall in Hf. by apply Hf.
Qed.
Lemma no_break_app a b : no_break a → no_break b → no_break (a ++ b).
Proof. intros. by apply Forall_app. Qed.
Lemma b64_char_plain n : (n < 64)%N → is_crlf (b64_char n) = false ∧ (b64_char n =? 34)%N = false ∧ (b64_char n =? 44)%N = false.
Proof.
  intros Hn. assert (Forall (λ n, is_crlf (b64_char n) = false ∧ (b64_char n =? 34)%N = false ∧ (b64_char n =? 44)%N = false) (N.of_nat <$> seq 0 64)) as HF by by_compute.
  rewrite Forall_forall in HF. apply HF. apply list_elem_of_fmap. exists (N.to_nat n). split; [lia|]. apply elem_of_seq. lia.
Qed.
Lemma btoa_plain (Q : N → Prop) s : (∀ n, (n < 64)%N → Q (b64_char n)) → Q 61%N → Forall Q (default [] (btoa s)).
Proof.
  intros HQ H61. unfold btoa. case_bool_decide as Hs; simpl; [|constructor]. apply Forall_app. split.
  - apply Forall_fmap. eapply Forall_impl; [apply (b64_digits_bound _ Hs)|]. auto.
  - unfold b64_padding. by repeat case_match; repeat constructor.
Qed.
Lemma word_no_break s : no_break (rfc2047Word s).
Proof.
  unfold rfc2047Word. apply no_break_app; [by_compute|]. apply no_break_app; [|by_compute].
  apply btoa_plain; [|done]. intros n Hn. by apply b64_char_plain.
Qed.
Lemma last_of_sub p s b x a c : last_of p s = Some (b, x, a) → c ∈ b ∨ c ∈ a → c ∈ s.
Proof. intros (->&_&_)%last_of_Some. rewrite elem_of_app, elem_of_cons. tauto. Qed.
Lemma trim_end_sub s c : c ∈ trim_end s → c ∈ s.
Proof. destruct (trim_end_split s) as (w&E&_). intros Hc. rewrite E. apply elem_of_app. by left. Qed.

(** A recipient's header text has no character but those of the recipient, of an encoded
    word, or a bracket or a space. *)
Lemma format_chars (Q : N → Prop) a : (∀ n, (n < 64)%N → Q (b64_char n)) → Q 61%N → Forall Q (js "=?UTF-8?B?<> ") →
  Forall Q (sanitizeHeaderValue a) → Forall Q (formatAddressHeader a).
Proof.
  intros HQ H61 Hlit Hs. unfold formatAddressHeader. cbv zeta. set (safe := sanitizeHeaderValue a) in *.
  destruct (display_and_address safe) as [[display addr]|] eqn:Ed; [|done].
  assert (Forall Q display ∧ Forall Q addr) as [Hd Ha].
  { revert Ed. unfold display_and_address. destruct (last_of _ safe) as [[[m c] k]|] eqn:E; [|done].
    destruct (N.eq_dec c 62) as [->|]; [|by repeat case_match].
    destruct (last_of _ m) as [[[b d] i]|] eqn:Em; [|done]. destruct (N.eq_dec d 60) as [->|]; [|by repeat case_match].
    rewrite Forall_forall in Hs, Hlit. case_match; [done|]. intros [= <- <-].
    assert (Q 60%N ∧ Q 62%N) as [H60 H62] by (split; apply Hlit; apply (bool_decide_unpack _); vm_compute; exact I).
    split; [apply Forall_forall; intros c Hc%trim_end_sub|constructor; [done|apply Forall_app; split; [|by constructor]]; apply Forall_forall; intros c Hc].
    - apply Hs. eapply last_of_sub; [done|]. left. eapply last_of_sub; [done|]. by left.
    - apply Hs. eapply last_of_sub; [done|]. left. eapply last_of_sub; [done|]. by right. }
  assert (Q 32%N) as H32 by (rewrite Forall_forall in Hlit; apply Hlit; apply (bool_decide_unpack _); vm_compute; exact I).
  assert (Forall Q (trim display)) as Ht.
  { apply Forall_forall. intros c Hc%trim_sub. rewrite Forall_forall in Hd. by apply Hd. }
  destruct (trim display) as [|c d]; [done|]. destruct (isPrintableAscii _); apply Forall_app; (split; [|by constructor]); [done|].
  unfold rfc2047Word. rewrite Forall_forall in Hlit.
  apply Forall_app. split; [|apply Forall_app; split; [by apply btoa_plain|]]; apply Forall_forall; intros e He; apply Hlit.
  - change (js "=?UTF-8?B?<> ") with (js "=?UTF-8?B?" ++ js "<> "). apply elem_of_app. by left.
  - revert e He. apply Forall_forall. by_compute.
Qed.
Lemma format_no_break a : no_break (formatAddressHeader a).
Proof.
  apply format_chars; [|done|by_compute|apply sanitize_no_break]. intros n Hn. by apply b64_char_plain.
Qed.
Lemma join_Forall (Q : N → Prop) sep l : Forall Q sep → Forall (Forall Q) l → Forall Q (Json.join sep l).
Proof.
  intros Hs Hl. induction Hl as [|x [|y l] Hx Hl IH]; [constructor|done|].
  change (Json.join sep (x :: y :: l)) with (x ++ sep ++ Json.join sep (y :: l)). by repeat (apply Forall_app; split).
Qed.
Lemma address_list_no_break l : no_break (address_list l).
Proof.
  apply join_Forall; [by_compute|]. apply Forall_fmap, Forall_forall. intros a _. apply format_no_break.
Qed.
Lemma header_no_break s : no_break (encodeHeaderValue s).
Proof. unfold encodeHeaderValue. cbv zeta. destruct (isPrintableAscii _); [apply sanitize_no_break|apply word_no_break]. Qed.
Lemma messageId_no_break s : no_break (messageId_of s).
Proof.
  unfold messageId_of. pose proof (sanitize_no_break s) as Hs.
  assert (no_break ([60%N] ++ sanitizeHeaderValue s ++ [62%N])) as Hb.
  { repeat apply no_break_app; [by_compute|done|by_compute]. }
  destruct (sanitizeHeaderValue s) as [|c r]; [done|]. by repeat case_match.
Qed.

Lemma message_fields_ok e t : Forall field_ok (message_fields e t).
Proof.
  assert (∀ name v, field_name name → no_break v → field_ok (name, v)) as Hf by done.
  unfold message_fields. repeat (apply Forall_app; split); repeat case_match; repeat (apply Forall_cons_2); try apply Forall_nil_2;
    (apply Hf; [split_and!; [done|by_compute|by_compute]|]);
    first [apply address_list_no_break|apply header_no_break|apply messageId_no_break|by_compute].
Qed.

Lemma read_build e t : read_message (buildRfc2822 e t) = (message_fields e t, es_body e).
Proof.
  assert (buildRfc2822 e t = foldr (λ f k, field_line f ++ crlf ++ k) (crlf ++ es_body e) (message_fields e t)) as E.
  { unfold buildRfc2822. rewrite join_lines by done. generalize (crlf ++ es_body e) as k, (message_fields e t) as fs. clear.
    intros k fs. induction fs as [|f fs IH]; [done|]. cbn [fmap list_fmap foldr]. by rewrite IH. }
  unfold read_message. rewrite E at 2. apply read_fields_exact; [apply message_fields_ok|]. rewrite E.
  generalize (es_body e) as k, (message_fields e t) as fs. clear. intros k fs.
  induction fs as [|f fs IH]; cbn [foldr]; rewrite !length_app; cbn [length crlf]; lia.
Qed.

(** C25: A message is exactly its envelope: read as mail readers do - fields up to the first
    empty line, a line ended by CR LF or by either of them alone - it has the fields of the
    envelope, one each for the recipients of its kind, the subject and the threading, with
    the body verbatim; nothing in an address, a subject or a message id opens a field or
    the body. What is posted is this text: it decodes to its bytes. *)
Theorem message_reads_back e t :
  read_message (buildRfc2822 e t) = (message_fields e t, es_body e) ∧
  (units (buildRfc2822 e t) → atob (plain_char <$> encodeBase64Url (buildRfc2822 e t)) = Some (utf8 (buildRfc2822 e t))).
Proof.
  split; [apply read_build|]. intros Hu. by apply atob_b64url, utf8_bytes.
Qed.

(** ** The mailboxes of a header *)

(** The entries of an address header: a comma separates them, but not inside a quoted
    string, where a backslash takes the next character with it. *)
Fixpoint mailboxes_from (s : jsstr) (quoted : bool) (current : jsstr) : list jsstr :=
  match s with
  | [] => [current]
  | c :: s =>
      if quoted && (c =? 92)%N then
        match s with d :: s => mailboxes_from s quoted (current ++ [c; d]) | [] => [current ++ [c]] end
      else if (c =? 34)%N then mailboxes_from s (negb quoted) (current ++ [c])
      else if (c =? 44)%N && negb quoted then current :: mailboxes_from s quoted []
      else mailboxes_from s quoted (current ++ [c])
  end.
Definition mailboxes (value : jsstr) : list jsstr := mailboxes_from value false [].
Definition address_field (name : jsstr) : bool := existsb (eqs name) [js "To"; js "Cc"; js "Bcc"].
(** Whom a message is sent to. *)
Definition sent_to (message : jsstr) : list jsstr :=
  fst (read_message message) ≫= λ f, if address_field (fst f) then mailboxes (snd f) else [].

Definition plain_entry (a : jsstr) : Prop := Forall (λ c, (c =? 34)%N = false ∧ (c =? 44)%N = false) a.
Lemma mailboxes_plain x k current : plain_entry x → mailboxes_from (x ++ k) false current = mailboxes_from k false (current ++ x).
Proof.
  intros Hx. revert current. induction Hx as [|c x [Hq Hc] _ IH]; intros current; simpl; [by rewrite app_nil_r|].
  rewrite Hq, Hc. simpl. rewrite IH. by rewrite <- app_assoc.
Qed.
Lemma mailboxes_join x l : Forall plain_entry (x :: l) → mailboxes (Json.join (js ", ") (x :: l)) = x :: (cons 32%N <$> l).
Proof.
  intros [Hx Hl]%Forall_cons. unfold mailboxes.
  assert (∀ current l x, plain_entry x → Forall plain_entry l →
    mailboxes_from (Json.join (js ", ") (x :: l)) false current = (current ++ x) :: (cons 32%N <$> l)) as Hgen; [|by apply Hgen].
  clear. intros current l. revert current. induction l as [|y l IH]; intros current x Hx Hl.
  - simpl. rewrite <- (app_nil_r x) at 1. by rewrite mailboxes_plain.
  - apply Forall_cons in Hl as [Hy Hl]. change (Json.join (js ", ") (x :: y :: l)) with (x ++ 44%N :: 32%N :: Json.join (js ", ") (y :: l)).
    rewrite mailboxes_plain by done. simpl. f_equal. by apply (IH [32%N]).
Qed.
Lemma format_plain_entry a : plain_entry a → plain_entry (formatAddressHeader a).
Proof.
  intros Ha. apply format_chars; [|done|by_compute|].
  - intros n Hn. apply b64_char_plain in Hn. tauto.
  - apply Forall_forall. intros c Hc%trim_sub%fold_elem. destruct Hc as [->|Hc]; [done|].
    unfold plain_entry in Ha. rewrite Forall_forall in Ha. by apply Ha.
Qed.
Lemma header_mailboxes l : Forall plain_entry l → l ≠ [] →
  mailboxes (address_list l) = match formatAddressHeader <$> l with [] => [] | x :: l => x :: (cons 32%N <$> l) end.
Proof.
  intros Hl Hn. unfold address_list. destruct l as [|x l]; [done|]. rewrite fmap_cons. apply mailboxes_join.
  rewrite <- (fmap_cons formatAddressHeader x l). apply Forall_fmap. eapply Forall_impl; [exact Hl|]. apply format_plain_entry.
Qed.

Section governed.
Context `{Platform}.

Lemma recipient_space a : recipientAddress (32%N :: a) = recipientAddress a.
Proof. done. Qed.
Lemma governed_mailboxes l : Forall plain_entry l → Forall parses l → l ≠ [] →
  recipientAddress <$> mailboxes (address_list l) = recipientAddress <$> l.
Proof.
  intros Hl Hp Hn. rewrite header_mailboxes by done.
  assert (recipientAddress <$> (formatAddressHeader <$> l) = recipientAddress <$> l) as <-.
  { clear Hl Hn. induction Hp as [|a l Ha _ IH]; [done|]. rewrite !fmap_cons, IH. by rewrite governed_address. }
  destruct (formatAddressHeader <$> l) as [|x k]; [done|]. rewrite !fmap_cons. f_equal.
  rewrite <- list_fmap_compose. by apply list_fmap_ext.
Qed.

Definition kind_mailboxes (l : list jsstr) : list jsstr := match l with [] => [] | _ => mailboxes (address_list l) end.
Lemma governed_kind l : Forall plain_entry l → Forall parses l → recipientAddress <$> kind_mailboxes l = recipientAddress <$> l.
Proof. intros Hl Hp. destruct l; [done|]. by apply governed_mailboxes. Qed.
Lemma sent_to_fields e t : es_to e ≠ [] →
  sent_to (buildRfc2822 e t) = kind_mailboxes (es_to e) ++ kind_mailboxes (es_cc e) ++ kind_mailboxes (es_bcc e).
Proof.
  intros Hto. unfold sent_to. rewrite (read_build e t). cbn [fst]. unfold message_fields.
  rewrite !bind_app. unfold kind_mailboxes.
  assert (∀ name v, address_field name = true → ([(name, v)] ≫= λ f, if address_field (fst f) then mailboxes (snd f) else []) = mailboxes v) as Hyes.
  { intros name v Hn. cbn [mbind list_bind fst snd]. rewrite Hn. by rewrite app_nil_r. }
  rewrite Hyes by done. destruct (es_to e) as [|x l]; [done|]. f_equal.
  destruct (es_cc e) as [|y k], (es_bcc e) as [|z m]; rewrite ?Hyes by done; cbn [app];
    destruct t; simpl; by rewrite ?app_nil_r.
Qed.
Lemma envelope_recipients params e : normalizeEmailEnvelope params = inl e →
  all_recipients params = es_to e ++ es_cc e ++ es_bcc e ∧ es_to e ≠ [].
Proof.
  unfold normalizeEmailEnvelope, all_recipients. cbv zeta. case_bool_decide as Hn; [done|].
  repeat case_match; try done; by intros [= <-].
Qed.

(** C16: Whom a sent message goes to is whom it was governed for, when every recipient
    parses and has no quoted display name and no comma of its own: the mailboxes of the To,
    Cc and Bcc fields of the message a send or a reply transmits are, one by one, the
    addresses of the noun, so the noun is that of exactly these mailboxes. *)
Theorem transmitted_are_governed params e t :
  normalizeEmailEnvelope params = inl e → Forall parses (all_recipients params) → Forall plain_entry (all_recipients params) →
  recipientAddress <$> sent_to (buildRfc2822 e t) = recipientAddress <$> all_recipients params ∧
  recipientAddressesNoun params = sorted_join (recipientAddress <$> sent_to (buildRfc2822 e t)).
Proof.
  intros (Er&Hto)%envelope_recipients Hp Hq.
  assert (recipientAddress <$> sent_to (buildRfc2822 e t) = recipientAddress <$> all_recipients params) as E.
  { rewrite sent_to_fields, Er by done. rewrite Er in Hp, Hq. apply Forall_app in Hp as [? [? ?]%Forall_app], Hq as [? [? ?]%Forall_app].
    rewrite !fmap_app. by rewrite !governed_kind. }
  split; [done|]. rewrite E. unfold recipientAddressesNoun. rewrite Er. by destruct (es_to e).
Qed.
End governed.

(** ** Searches and labels stay in their noun *)

Lemma split_on_cat sep a b : split_on sep (a ++ sep :: b) = split_on sep a ++ split_on sep b.
Proof.
  induction a as [|c a IH]; simpl; [by rewrite N.eqb_refl|]. rewrite IH. destruct (N.eqb_spec c sep); [done|].
  pose proof (split_on_nonempty sep a). by destruct (split_on sep a).
Qed.
Lemma split_on_join x l : x ∈ l → (44%N ∉ x) → x ∈ split_on 44 (Json.join (js ",") l).
Proof.
  intros Hin Hx. induction l as [|y [|z l] IH]; [by apply not_elem_of_nil in Hin| |].
  - apply list_elem_of_singleton in Hin as ->. simpl. rewrite split_on_none by done. by left.
  - change (Json.join (js ",") (y :: z :: l)) with (y ++ 44%N :: Json.join (js ",") (z :: l)).
    rewrite split_on_cat. apply elem_of_app. apply elem_of_cons in Hin as [->|Hin]; [left; rewrite split_on_none by done; by left|right; by apply IH].
Qed.

Definition box_id (l : MockEmailLabel) : jsstr := match l with Box_INBOX => js "INBOX" | Box_SENT => js "SENT" | Box_DRAFTS => js "DRAFT" end.
Lemma noun_mailbox noun l : l ∈ NOUN_MAILBOXES noun → noun = box_id l.
Proof.
  unfold NOUN_MAILBOXES. cbn [table]. unfold eqs.
  repeat (case_bool_decide; [subst; simpl; intros [->|?%not_elem_of_nil]%elem_of_cons; done|]). by intros ?%not_elem_of_nil.
Qed.

Section scopes.
Context `{Platform}.

(** A sandbox search never reads outside its noun: every message it returns is in one of
    the three mailboxes, and unless the noun is the account-wide one the id of that mailbox
    is among those the noun lists; and no more messages than asked for. *)
Theorem search_within_noun q n :
  (length (executeMockEmailSearch q n) ≤ Z.to_nat n)%nat ∧
  ∀ m, m ∈ executeMockEmailSearch q n →
    ∃ l, m ∈ LABEL_DATA l ∧
      (emailSearchNoun (Some (JStr q)) = js "anywhere" ∨ box_id l ∈ split_on 44 (emailSearchNoun (Some (JStr q)))).
Proof.
  unfold executeMockEmailSearch, emailSearchNoun. cbv zeta. set (parsed := parseEmailSearchQuery (Some (JStr q))).
  split; [rewrite length_take; lia|]. intros m Hm%subseteq_take.
  apply list_elem_of_In, filter_In in Hm as [Hm%list_elem_of_In _]. apply list_elem_of_bind in Hm as (l&Hm&Hl).
  exists l. split; [done|]. unfold searched_labels in Hl. destruct (eq_anywhere parsed || _); [by left|]. right.
  apply list_elem_of_bind in Hl as (noun&Hl%noun_mailbox&Hn). subst noun. apply split_on_join.
  - by rewrite elem_of_stable_sort.
  - destruct l; apply (bool_decide_unpack _); vm_compute; exact I.
Qed.

(** Label ids Gmail accepts for a mutation. *)
Definition gmail_id (s : jsstr) : Prop := s ∈ GMAIL_SYSTEM_LABEL_IDS ∨ user_label_id s = true.
Definition ascii_upper (s : jsstr) : jsstr := (λ c, if (97 <=? c)%N && (c <=? 122)%N then (c - 32)%N else c) <$> s.

Section labels.
Context (toUpperCase : jsstr → jsstr) (upper_ascii : ∀ s, ascii_only s → toUpperCase s = ascii_upper s).
Abbreviation canonical := (canonicalizeGmailLabel toUpperCase).

Lemma user_label_shape s : user_label_id s = true → ∃ d, s = js "Label_" ++ d ∧ Forall (λ c, is_digit c = true) d.
Proof.
  unfold user_label_id. destruct (after_text (js "Label_") s) as [[|c d]|] eqn:E; try done. intros Hd.
  exists (c :: d). split; [by apply after_text_spec|]. by apply Forall_forall; intros x Hx; rewrite forallb_forall in Hd; apply Hd, list_elem_of_In.
Qed.
Lemma digit_plain c : is_digit c = true → is_space c = false ∧ (c < 128)%N ∧ c ≠ 44%N.
Proof.
  unfold is_digit. intros [?%N.leb_le ?%N.leb_le]%andb_true_iff.
  assert (c ∈ N.of_nat <$> seq 48 10) as Hin.
  { apply list_elem_of_fmap. exists (N.to_nat c). split; [lia|]. apply elem_of_seq. lia. }
  revert Hin. clear. revert c. apply Forall_forall. by_compute.
Qed.
Lemma upper_not_system d : has_id GMAIL_SYSTEM_LABEL_IDS (ascii_upper (js "Label_" ++ d)) = false.
Proof. unfold ascii_upper. rewrite fmap_app. generalize ((λ c, if (97 <=? c)%N && (c <=? 122)%N then (c - 32)%N else c) <$> d). done. Qed.
(** An id Gmail accepts is its own canonical form. *)
Lemma canonical_id s : gmail_id s → canonical s = s ∧ (44%N ∉ s).
Proof.
  intros [Hs|Hs].
  - revert s Hs. apply Forall_forall.
    assert (Forall (λ s, ascii_only s ∧ trim s = s ∧ ascii_upper s = s ∧ has_id GMAIL_SYSTEM_LABEL_IDS s = true ∧ (44%N ∉ s)) GMAIL_SYSTEM_LABEL_IDS) as HF by by_compute.
    eapply Forall_impl; [exact HF|]. intros s (Ha&Ht&Hu&Hh&Hc). split; [|done]. unfold canonicalizeGmailLabel. rewrite Ht. cbv zeta.
    by rewrite (upper_ascii s Ha), Hu, Hh.
  - destruct (user_label_shape s Hs) as (d&->&Hd).
    assert (Forall (λ c, is_space c = false ∧ (c < 128)%N ∧ c ≠ 44%N) (js "Label_" ++ d)) as HF.
    { apply Forall_app. split; [by_compute|]. eapply Forall_impl; [exact Hd|]. apply digit_plain. }
    split.
    + unfold canonicalizeGmailLabel. rewrite trim_no_space by (eapply Forall_impl; [exact HF|]; by intros c (?&_)).
      cbv zeta. rewrite upper_ascii by (eapply Forall_impl; [exact HF|]; by intros c (_&?&_)). by rewrite upper_not_system, Hs.
    + rewrite Forall_forall in HF. intros Hin. by destruct (HF _ Hin) as (_&_&?).
Qed.

(** C28: A label call changes no label its noun does not list: whatever it asks Gmail to add
    or remove, each id Gmail would accept is listed in the noun, letter for letter; and the
    two labels that move a message, TRASH and SPAM, are never among them in any spelling. *)
Theorem label_call_within_noun params messageId add remove :
  label_request toUpperCase params = inl (messageId, add, remove) →
  (∀ l, l ∈ add ++ remove → gmail_id l → l ∈ split_on 44 (labelMutationNoun toUpperCase params)) ∧
  (∀ l, l ∈ add ++ remove → canonical l ≠ js "TRASH" ∧ canonical l ≠ js "SPAM").
Proof.
  unfold label_request, labelMutationNoun, labels_of. destruct (required_text "messageId" params) as [mid|]; [|done]. cbv zeta.
  set (a := collectLabels _). set (r := collectLabels (get (js "removeLabelIds") params)).
  destruct (_ && _); [done|]. case_bool_decide as Hres; [|done]. intros [= _ <- <-]. split.
  - intros l Hl Hid. destruct (canonical_id l Hid) as [Hc Hcomma].
    destruct (a ++ r) as [|x k] eqn:E; [by apply not_elem_of_nil in Hl|]. apply split_on_join; [|done].
    rewrite elem_of_sorted_Set, list_elem_of_fmap. by exists l.
  - intros l Hl. assert (∀ id, canonical l = id → has_id GMAIL_LABEL_RESERVED_IDS id = true → False) as Hno.
    { intros id Hc Hid. assert (id ∈ List.filter (has_id GMAIL_LABEL_RESERVED_IDS) (canonical <$> Set_of (a ++ r))) as Hin.
      { apply list_elem_of_In, filter_In. split; [|done]. apply list_elem_of_In, list_elem_of_fmap. exists l. split; [done|]. by apply elem_of_Set_of. }
      rewrite Hres in Hin. by apply not_elem_of_nil in Hin. }
    split; intros E; by apply (Hno _ E).
Qed.
End labels.
End scopes.
