(* ===== verification/MailScenarios.v ===== *)
(** * Mail on a concrete platform

    The hypotheses of the theorems on mail are met, and three calls for which a noun says
    less than the call does. *)

From S2P Require Import MailExact.
Open Scope Z_scope.
#[local] Existing Instance demo_platform.

Lemma demo_lower_keeps s c : c ∈ [44; 58; 64]%N → c ∈ toLowerCase s ↔ c ∈ s.
Proof.
  intros Hc. change (toLowerCase s) with ((λ c, if (65 <=? c)%N && (c <=? 90)%N then (c + 32)%N else c) <$> s).
  rewrite list_elem_of_fmap. split.
  - intros (d&E&Hd). destruct ((65 <=? d)%N && (d <=? 90)%N) eqn:Hb; [|by subst].
    exfalso. apply andb_true_iff in Hb as [?%N.leb_le ?%N.leb_le]. subst. set_unfold in Hc. lia.
  - intros Hs. exists c. split; [|done]. set_unfold in Hc. by destruct Hc as [->|[->|[->|[]]]].
Qed.

Definition mail_params (to : list json) : fields :=
  [(js "to", JArr to); (js "cc", JStr (js "Ann <ANN@x.com>, bo@y.com")); (js "subject", JStr (js "hi")); (js "body", JStr (js "text"))].
Definition two_to : fields := mail_params [JStr (js "zoe@x.com"); JStr (js "Bo B <bo@y.com>")].
Definition two_envelope : EmailSendParams :=
  mkEnvelope [js "zoe@x.com"; js "Bo B <bo@y.com>"] [js "Ann <ANN@x.com>"; js "bo@y.com"] [] (js "hi") (js "text").

Lemma noun_binds_recipients_witness :
  (recipientAddressesNoun two_to = NO_RECIPIENTS_NOUN ↔ all_recipients two_to = []) ∧
  (58%N ∈ recipientAddressesNoun two_to ↔ ∃ a, a ∈ all_recipients two_to ∧ ¬ parses a) ∧
  (Forall parses (all_recipients two_to) →
   recipientAddressesNoun (mail_params [JStr (js "bo@y.com,zoe@x.com")]) = recipientAddressesNoun two_to →
   Forall parses (all_recipients (mail_params [JStr (js "bo@y.com,zoe@x.com")])) ∧
   ∀ m, m ∈ recipientAddress <$> all_recipients (mail_params [JStr (js "bo@y.com,zoe@x.com")]) ↔ m ∈ recipientAddress <$> all_recipients two_to).
Proof. exact (noun_binds_recipients demo_lower_keeps two_to (mail_params [JStr (js "bo@y.com,zoe@x.com")])). Defined.

Lemma transmitted_are_governed_witness :
  recipientAddress <$> sent_to (buildRfc2822 two_envelope (Some (js "id@x"))) = recipientAddress <$> all_recipients two_to ∧
  recipientAddressesNoun two_to = sorted_join (recipientAddress <$> sent_to (buildRfc2822 two_envelope (Some (js "id@x")))).
Proof.
  refine (transmitted_are_governed two_to two_envelope (Some (js "id@x")) _ _ _).
  - vm_compute. reflexivity.
  - apply (bool_decide_unpack _). vm_compute. exact I.
  - apply (bool_decide_unpack _). vm_compute. exact I.
Defined.

(** The message of a call with a line break in an address, a subject that is not ASCII, and
    a message id that tries to open a field. *)
Definition sly_envelope : EmailSendParams :=
  mkEnvelope [js "a@x.com" ++ [13; 10]%N ++ js "Bcc: eve@y.com"] [] [] ([201%N] ++ js "t" ++ [233%N]) (js "To: body").
Lemma message_reads_back_witness :
  read_message (buildRfc2822 sly_envelope (Some (js "id@x>" ++ [10%N] ++ js "Bcc: eve@y.com"))) =
    ([(js "To", js "a@x.com Bcc: eve@y.com"); (js "Subject", js "=?UTF-8?B?w4l0w6k=?="); (js "In-Reply-To", js "<id@x> Bcc: eve@y.com>");
      (js "References", js "<id@x> Bcc: eve@y.com>"); (js "MIME-Version", js "1.0");
      (js "Content-Type", js "text/plain; charset=" ++ [34%N] ++ js "UTF-8" ++ [34%N])], js "To: body").
Proof.
  pose proof (message_reads_back sly_envelope (Some (js "id@x>" ++ [10%N] ++ js "Bcc: eve@y.com"))) as [E _].
  rewrite E. vm_compute. reflexivity.
Defined.

Definition label_params : fields := [(js "messageId", JStr (js "m1")); (js "addLabelIds", JArr [JStr (js "STARRED"); JStr (js "receipts")]);
  (js "removeLabelIds", JStr (js "Label_12"))].
Lemma label_call_within_noun_witness :
  (∀ l, l ∈ [js "STARRED"; js "receipts"] ++ [js "Label_12"] → gmail_id l → l ∈ split_on 44 (labelMutationNoun ascii_upper label_params)) ∧
  (∀ l, l ∈ [js "STARRED"; js "receipts"] ++ [js "Label_12"] →
   canonicalizeGmailLabel ascii_upper l ≠ js "TRASH" ∧ canonicalizeGmailLabel ascii_upper l ≠ js "SPAM").
Proof.
  refine (label_call_within_noun ascii_upper (λ s _, eq_refl) label_params (js "m1") [js "STARRED"; js "receipts"] [js "Label_12"] _).
  vm_compute. reflexivity.
Defined.

(** ** Where a noun says less *)

(** An escaped quote ends the quoted string for the splitter and not for a mail reader: one
    entry with one governed address is written as three mailboxes. *)
Definition escaped_entry : jsstr :=
  [34%N] ++ js "a\" ++ [34; 34]%N ++ js " <j@x.com>, eve@y.com, " ++ [34%N] ++ js "b" ++ [34%N] ++ js " <j@x.com>".
Definition escaped_params : fields := [(js "to", JStr escaped_entry); (js "subject", JStr (js "s")); (js "body", JStr (js "b"))].
(** An entry that is itself a list is not split at all. *)
Definition nested_params : fields :=
  [(js "to", JArr [JArr [JStr (js "eve@y.com"); JStr (js "Jo <j@x.com>")]]); (js "subject", JStr (js "s")); (js "body", JStr (js "b"))].
Definition governed_and_sent (params : fields) : option (jsstr * list jsstr) :=
  match normalizeEmailEnvelope params with
  | inl e => Some (recipientAddressesNoun params, recipientAddress <$> sent_to (buildRfc2822 e None))
  | inr _ => None
  end.
Theorem noun_misses_mailbox :
  governed_and_sent escaped_params = Some (js "j@x.com", [js "j@x.com"; js "eve@y.com"; js "j@x.com"]) ∧
  governed_and_sent nested_params = Some (js "j@x.com", [js "eve@y.com"; js "j@x.com"]).
Proof. split; vm_compute; reflexivity. Qed.

(** When some recipient does not parse, two recipient sets can share a noun. *)
Theorem unparsed_nouns_collide :
  recipientAddressesNoun [(js "to", JArr [JStr ([34%N] ++ js "a"); JStr (js "z@x.com")])] =
  recipientAddressesNoun [(js "to", JArr [JStr ([34%N] ++ js "a,z@x.com")])].
Proof. vm_compute. reflexivity. Qed.
