(* ===== verification/DeliveryScenarios.v ===== *)
(** * An order placed

    A cart quoted and ordered on a concrete platform: the hypotheses of the theorems on
    quotes are met, and one signed quote has more than one identifier. *)

From S2P Require Import DeliveryExact RefinementScenarios.
Open Scope Z_scope.
#[local] Existing Instance learning_platform.
#[local] Existing Instance learning_laws.
#[local] Existing Instance demo_catalog.

Lemma learning_digest_shape bs : length (sha256_hex bs) = 64%nat ∧ forallb hex_lower (sha256_hex bs) = true.
Proof.
  split; [done|]. apply forallb_forall. intros c Hc. apply list_elem_of_In, list_elem_of_fmap in Hc as (i&->&_).
  unfold hex_digit, hex_lower. pose proof (N.mod_upper_bound (N.shiftr (foldl (λ acc b, N.land (acc * 257 + b + 1) (N.ones 256)) 0%N bs) (4 * N.of_nat i)) 16 ltac:(done)) as Hb.
  revert Hb. generalize (N.shiftr (foldl (λ acc b, N.land (acc * 257 + b + 1) (N.ones 256)) 0%N bs) (4 * N.of_nat i) mod 16)%N. intros n Hn.
  destruct (N.ltb_spec n 10).
  - rewrite (proj2 (N.leb_le 48 _)), (proj2 (N.leb_le _ 57)) by lia. done.
  - rewrite (proj2 (N.leb_gt _ 57)), (proj2 (N.leb_le 97 _)), (proj2 (N.leb_le _ 102)) by lia. by rewrite andb_false_r.
Qed.

Definition cart : list jsstr := [js "kung-pao-chicken"; js "spring-rolls"; js "spring-rolls"].
Definition cart_params : fields := [(js "merchant", JStr (js "Golden-Wok")); (js "items", JArr (JStr <$> cart))].
Definition cart_quote : QuotePayload :=
  mkQuote (js "golden-wok") (js "Golden Wok " ++ em_dash ++ js " Kung pao chicken, Spring rolls (4) " ++ [215%N] ++ js "2")
    (fnv1a64Hex (js "kung-pao-chicken|spring-rolls|spring-rolls")) 2250 (1000000 + QUOTE_TTL_MS) (js "uuid-0").
Definition noon_world : World := mkWorld empty_db (λ _, 1000000) 0 0 false.
Definition order_params (id : jsstr) : fields := [(js "quoteId", JStr id); (js "idempotencyKey", JStr (js "k"))].
Definition present (c : Credential) : bool := true.
Definition quoted_id : jsstr := encodeQuoteId cart_quote.
Definition later_world (t : Z) : World := mkWorld empty_db (λ _, t) 0 1 false.

(** The quote is ordered in time and once more too late; the twin of its identifier names
    the same quote and another order. *)
Example cart_ordered :
  tl_execute (MOCK_DELIVERY_QUOTE present) cart_params tt noon_world =
    (Ok (succeeded (JObj [(js "quoteId", JStr quoted_id); (js "totalCents", jint 2250);
                        (js "expiresAt", JStr (js "1970-01-01T00:26:40.000Z")); (js "merchant", JStr (js "golden-wok"))])),
     mkWorld empty_db (λ _, 1000000) 1 1 false) ∧
  ex_success (order_at (order_params quoted_id) 1599999) = true ∧ ex_success (order_at (order_params quoted_id) 1600000) = false ∧
  verifyQuoteId (twin_id cart_quote) = Some cart_quote ∧
  deriveOrderId (js "k") (twin_id cart_quote) ≠ deriveOrderId (js "k") quoted_id.
Proof.
  split; [vm_compute; reflexivity|]. split; [vm_compute; reflexivity|]. split; [vm_compute; reflexivity|].
  split; [vm_compute; reflexivity|]. apply (bool_decide_unpack _). vm_compute. exact I.
Qed.

Lemma quote_binds_price_witness : ∃ m items quoteId expires total,
  m ∈ MOCK_MERCHANTS ∧ (∃ name, get (js "merchant") cart_params = Some (JStr name) ∧ toLowerCase name = mm_merchant m) ∧
  get (js "items") cart_params = Some (JArr (JStr <$> items)) ∧ Forall (on_menu (mm_menu m)) items ∧
  total = sale_price m items 1000000 ∧ 0 < total ∧
  succeeded (JObj [(js "quoteId", JStr quoted_id); (js "totalCents", jint 2250);
                 (js "expiresAt", JStr (js "1970-01-01T00:26:40.000Z")); (js "merchant", JStr (js "golden-wok"))]) =
  succeeded (JObj [(js "quoteId", JStr quoteId); (js "totalCents", jint total);
                 (js "expiresAt", JStr expires); (js "merchant", JStr (mm_merchant m))]) ∧
  ∀ order, text_param "quoteId" order = quoteId →
    tl_nounExtractor (MOCK_DELIVERY_ORDER present) order = mm_merchant m ∧
    centsFromSpend (tl_spend (MOCK_DELIVERY_ORDER present)) order = Some total ∧
    (s ← tl_spend (MOCK_DELIVERY_ORDER present); ts_describe s order) = Some (cartSummary m items) ∧
    ∀ w', text_param "idempotencyKey" order ≠ [] →
      fst (tl_execute (MOCK_DELIVERY_ORDER present) order tt w') = Ok (
        if 1000000 + QUOTE_TTL_MS <=? w_clock w' (w_ticks w')
        then refused_result (QUOTE_EXPIRED ++ js ": re-quote and re-enter the spending check")
        else if eqs (mm_merchant m) ALWAYS_DECLINES_MERCHANT
        then refused_result (MERCHANT_DECLINED ++ js ": the merchant's payment processor declined the order")
        else succeeded (JObj [(js "orderId", JStr (deriveOrderId (text_param "idempotencyKey" order) quoteId));
                            (js "chargedCents", jint total); (js "merchant", JStr (mm_merchant m))])).
Proof.
  refine (quote_binds_price present learning_digest_shape tt cart_params noon_world _ (mkWorld empty_db (λ _, 1000000) 1 1 false) _ _ _ _).
  - reflexivity.
  - done.
  - vm_compute. reflexivity.
  - reflexivity.
Defined.

Lemma order_charges_governed_witness : ∃ amount body sig json,
  text_param "quoteId" (order_params quoted_id) = QUOTE_ID_PREFIX ++ body ++ js "." ++ sig ∧
  b64urlDecode body = Some json ∧ signPayload json = sig ∧
  centsFromSpend (tl_spend (MOCK_DELIVERY_ORDER present)) (order_params quoted_id) = Some amount ∧ 0 < amount <= max_safe ∧
  tl_nounExtractor (MOCK_DELIVERY_ORDER present) (order_params quoted_id) ≠ ALWAYS_DECLINES_MERCHANT ∧
  order_at (order_params quoted_id) 1100000 =
    succeeded (JObj [(js "orderId", JStr (deriveOrderId (text_param "idempotencyKey" (order_params quoted_id)) (text_param "quoteId" (order_params quoted_id))));
                   (js "chargedCents", jint amount); (js "merchant", JStr (tl_nounExtractor (MOCK_DELIVERY_ORDER present) (order_params quoted_id)))]).
Proof.
  apply (order_charges_governed present tt (order_params quoted_id) (later_world 1100000) _ (mkWorld empty_db (λ _, 1100000) 1 1 false)).
  - reflexivity.
  - reflexivity.
  - vm_compute. reflexivity.
Defined.
