(* ===== verification/ReplInput.v ===== *)
(** * What the user types, and the words of the prompt

    The meta-commands of [cli/src/commands/repl-meta.ts], the status line of
    [render/status-line.ts], and the choices of [render/prompt.ts] with the answers they
    stand for. *)

From S2P Require Export Turns Status MailTools Attribution.
Open Scope Z_scope.

(** ** Meta-commands *)

Inductive ReplInput :=
  | In_chat (text : jsstr)
  | In_connect (service : jsstr)
  | In_disconnect (service : jsstr)
  | In_status | In_cap | In_kill | In_clear | In_help | In_exit | In_quit | In_blank
  | In_error (message : jsstr).
#[export] Instance ReplInput_eq_dec : EqDecision ReplInput.
Proof. solve_decision. Defined.

(** A command and whether it takes a service. *)
Definition META_COMMANDS : list (jsstr * bool) :=
  [(js ":help", false); (js ":status", false); (js ":cap", false); (js ":connect", true); (js ":disconnect", true);
   (js ":clear", false); (js ":kill", false); (js ":quit", false); (js ":exit", false)].
Definition EXIT_TOKENS : list jsstr := [js ":exit"; js ".exit"].
Definition QUIT_TOKENS : list jsstr := [js ":quit"; js ".quit"].

(** [s.split(/\s+/)]; [in_gap] when the white space of a separator is being read. *)
Fixpoint split_space (in_gap : bool) (s : jsstr) : list jsstr :=
  match s with
  | [] => [[]]
  | c :: s =>
      if is_space c then if in_gap then split_space true s else [] :: split_space true s
      else match split_space false s with w :: l => (c :: w) :: l | [] => [[c]] end
  end.
Definition usage_of (command : string) : ReplInput :=
  In_error (if String.eqb command "connect" then js "Usage: :connect <service>  (e.g. mock_email, gmail)" else js "Usage: :disconnect <service>").
Definition parseReplLine (line : jsstr) : ReplInput :=
  let trimmed := trim line in
  if bool_decide (trimmed = []) then In_blank
  else if bool_decide (trimmed ∈ EXIT_TOKENS) then In_exit
  else if bool_decide (trimmed ∈ QUIT_TOKENS) then In_quit
  else if negb (starts_with (js ":") trimmed) then In_chat trimmed
  else
    let parts := split_space false (drop 1 trimmed) in
    let head := List.hd [] parts in
    let service := List.hd [] (drop 1 parts) in
    if eqs head (js "help") then In_help
    else if eqs head (js "status") then In_status
    else if eqs head (js "cap") then In_cap
    else if eqs head (js "kill") then In_kill
    else if eqs head (js "clear") then In_clear
    else if eqs head (js "connect") then if bool_decide (service = []) then usage_of "connect" else In_connect service
    else if eqs head (js "disconnect") then if bool_decide (service = []) then usage_of "disconnect" else In_disconnect service
    else In_error (js "Unknown meta-command: :" ++ head ++ js ". Type :help for the full list.").

(** ** A session's times *)

Section times.
Context {P : Platform}.
Definition minutes (ms : Z) : jsstr := int_to_string (Z.max 0 ms / 60000) ++ js "m".
Definition sessionTimes (session : ActiveSessionView) (now : Z) : option (jsstr * jsstr) :=
  match av_expiry session with
  | None => None
  | Some expiry =>
      match dateOf (av_startedAt session), dateOf expiry with
      | Some started, Some expiry => Some (minutes (now - started), minutes (expiry - now))
      | _, _ => None
      end
  end.
Definition resumeNotice (session : ActiveSessionView) (now : Z) : jsstr :=
  js "Resuming active session" ++
  match sessionTimes session now with Some (age, remaining) => js " (started " ++ age ++ js " ago, " ++ remaining ++ js " left)" | None => [] end ++
  js ". Not you? Another terminal may be connected " ++ dash ++ js " :quit to end it, or :status for detail.".

(** [formatStatusLine]: cut by code point to the width, then colored. *)
Fixpoint clamp_points `{Segmenter} (width : Z) (used : Z) (points : list jsstr) : jsstr :=
  match points with
  | [] => []
  | ch :: points =>
      if width - 1 <? used + displayWidth ch then []
      else ch ++ clamp_points width (used + displayWidth ch) points
  end.
Definition clampToWidth `{Segmenter} (text : jsstr) (width : Z) : jsstr :=
  if displayWidth text <=? width then text else clamp_points width 0 (string_points text) ++ ellipsis_mark.
Definition middle_dot : jsstr := [32; 0xB7; 32]%N.
Definition status_parts (session : option ActiveSessionView) (connected : list jsstr) (now : Z) : list jsstr :=
  match session with
  | Some s => js "live" :: match sessionTimes s now with Some (_, remaining) => [js "~" ++ remaining ++ js " left"] | None => [] end
  | None => [js "no active session"]
  end ++ [match connected with [] => js "no services connected" | _ => Json.join (js ", ") connected end].
Definition formatStatusLine `{Segmenter} (session : option ActiveSessionView) (connected : list jsstr) (now : Z) (depth : ColorDepth) (width : Z) : jsstr :=
  let glyph := match session with Some _ => [0x25CF%N] | None => [0x25CB%N] end in
  colorize (clampToWidth (sanitize (glyph ++ 32%N :: Json.join middle_dot (status_parts session connected now))) (Z.max 1 width)) Role_muted depth.
End times.

(** ** Hints after a turn *)

Definition has_outcome (o : ToolCallOutcome) (calls : list ToolCallRecord) : bool := existsb (λ c, bool_decide (tc_outcome c = o)) calls.
Definition HELD_HINT : jsstr := js "A tool call is awaiting your confirmation " ++ dash ++ js " run ':status' to review it.".
Definition CONNECT_HINT : jsstr := js "Tip: try ':connect mock_email' (or ':connect gmail') to connect a service.".
Definition AUTHORIZE_HINT : jsstr :=
  js "Tip: the connected service isn't authorized for that action " ++ dash ++ js " re-connect it (e.g. ':connect gmail') to grant the access.".
Definition BOUNDARY_HINT : jsstr :=
  js "Habenula's own controls are reachable only from a trusted surface, so the engine refused that call. It isn't a policy setting, and no confirmation will be offered " ++ dash ++
  js " use the ':kill', ':disconnect' or ':quit' command directly.".
Definition DENIED_HINT : jsstr := js "This action was denied by your policy. Grant it via a confirmation when prompted.".
Definition REASON_HINT : jsstr :=
  js "That tool ran and failed " ++ dash ++ js " the reason is on its '[tool: " ++ ellipsis_mark ++ js "]' line above. Reconnecting won't help; try again or rephrase.".
Definition FAILED_HINT : jsstr :=
  js "That tool ran and failed " ++ dash ++ js " it's already connected, so reconnecting won't help. Try again, or rephrase your request.".
Definition postTurnHints (calls : list ToolCallRecord) : list jsstr :=
  if has_outcome TC_held calls then [HELD_HINT]
  else if has_outcome TC_not_connected calls then [CONNECT_HINT]
  else if has_outcome TC_needs_authorization calls then [AUTHORIZE_HINT]
  else if has_outcome TC_boundary_refused calls then [BOUNDARY_HINT]
  else if has_outcome TC_denied calls then [DENIED_HINT]
  else
    let errored := List.filter (λ c, bool_decide (tc_outcome c = TC_error)) calls in
    match errored with
    | [] => []
    | _ => if existsb (λ c, match tc_error c with Some (_ :: _) => true | _ => false end) errored then [REASON_HINT] else [FAILED_HINT]
    end.

(** ** Money *)

(** [toLocaleString("en-US")] on a non-negative integer: groups of three. *)
Fixpoint group_digits (fuel : nat) (digits : jsstr) : jsstr :=
  match fuel with
  | O => digits
  | S fuel =>
      let n := length digits in
      if (n <=? 3)%nat then digits else group_digits fuel (take (n - 3) digits) ++ 44%N :: drop (n - 3) digits
  end.
Definition dollars (cents : Z) : jsstr :=
  let whole := dec (Z.to_N (Z.abs cents / 100)) in
  let remainder := dec (Z.to_N (Z.abs cents mod 100)) in
  (if cents <? 0 then js "-" else []) ++ js "$" ++ group_digits (length whole) whole ++ js "." ++
  (if (length remainder <? 2)%nat then js "0" ++ remainder else remainder).

(** ** The answers to a held call *)

Record SelectionChoice := mkChoice { ch_label : jsstr; ch_role : ColorRole; ch_token : jsstr; ch_keyword : jsstr }.

Definition is_word (s : jsstr) (words : list string) : bool := existsb (λ w, eqs s (js w)) words.
Section answers.
Context {P : Platform}.
Definition parseChoice (input : jsstr) (spend : option SpendHoldContext) : option Turns.choice :=
  let s := toLowerCase (trim input) in
  if is_word s ["1"; "deny"; "d"]%string then Some Ch_deny
  else if is_word s ["2"; "tell me more"; "tell"; "more"; "?"]%string then Some Ch_tell_more
  else
    match spend with
    | Some _ => if is_word s ["3"; "approve this order"; "approve"; "a"]%string then Some Ch_approve_once else None
    | None =>
        if is_word s ["3"; "for this task"; "task"; "t"]%string then Some Ch_task
        else if is_word s ["4"; "for this session"; "session"; "s"]%string then Some Ch_session else None
    end.
Definition approve_label (spend : SpendHoldContext) : jsstr :=
  match sc_reason spend with
  | unpriced => js "3. Approve anyway " ++ dash ++ js " the amount could not be read; this could charge any amount."
  | _ =>
      js "3. Approve " ++ dash ++ js " place this one order" ++
      match sc_amountCents spend with Some a => js " for " ++ dollars a | None => [] end ++
      js ". I'll ask again next time an order goes over a limit."
  end.
Definition confirmChoices (session : option ActiveSessionView) (now : Z) (spend : option SpendHoldContext) : list SelectionChoice :=
  let more := mkChoice (js "2. Tell me more " ++ dash ++ js " show what this tool does (no decision yet).") Role_habenula (js "2") (js "Tell me more") in
  match spend with
  | Some spend =>
      [mkChoice (js "1. Deny " ++ dash ++ js " don't place this order; nothing is spent.") Role_denied (js "1") (js "Deny");
       more;
       mkChoice (approve_label spend) Role_granted (js "3") (js "Approve")]
  | None =>
      let remaining := match session ≫= λ s, sessionTimes s now with Some (_, remaining) => js " (~" ++ remaining ++ js " left)" | None => [] end in
      [mkChoice (js "1. Deny " ++ dash ++ js " don't run this; nothing is granted.") Role_denied (js "1") (js "Deny");
       more;
       mkChoice (js "3. Allow " ++ dash ++ js " for this task.") Role_granted (js "3") (js "Allow");
       mkChoice (js "4. Allow " ++ dash ++ js " for this session" ++ remaining ++ js ".") Role_granted (js "4") (js "Allow")]
  end.

(** An answer that lets the call run. *)
Definition affirmative (c : Turns.choice) : bool := match c with Ch_task | Ch_session | Ch_approve_once => true | Ch_deny | Ch_tell_more => false end.

(** ** Facts *)

(** A spending call is approved once or not at all, and only such a call is. *)
Lemma spend_answers input spend c : parseChoice input spend = Some c → affirmative c = true →
  (c = Ch_approve_once ↔ spend ≠ None).
Proof. unfold parseChoice. destruct spend; repeat case_match; intros [= <-]; simpl; intros; done. Qed.
End answers.

(** The token of the i-th choice is the answer it shows. *)
Definition offered (spend : option SpendHoldContext) : list Turns.choice :=
  match spend with Some _ => [Ch_deny; Ch_tell_more; Ch_approve_once] | None => [Ch_deny; Ch_tell_more; Ch_task; Ch_session] end.
Class PlainCase (P : Platform) : Prop := digits_have_no_case : ∀ c, is_digit c = true → toLowerCase [c] = [c].
#[export] Instance demo_plain_case : PlainCase demo_platform.
Proof. intros c [_ Hc%N.leb_le]%andb_true_iff. simpl. destruct (N.leb_spec 65 c); [lia|done]. Qed.
Lemma choices_mean {P : Platform} {PC : PlainCase P} session now spend :
  (λ ch, parseChoice (ch_token ch) spend) <$> confirmChoices session now spend = Some <$> offered spend.
Proof.
  assert (∀ c, is_digit c = true → trim [c] = [c] → toLowerCase (trim [c]) = [c]) as Hd by (intros c Hc ->; by apply PC).
  pose proof (Hd 49%N eq_refl eq_refl) as H1. pose proof (Hd 50%N eq_refl eq_refl) as H2.
  pose proof (Hd 51%N eq_refl eq_refl) as H3. pose proof (Hd 52%N eq_refl eq_refl) as H4.
  unfold parseChoice, confirmChoices. destruct spend; cbn [fmap list_fmap ch_token];
    change (js "1") with [49%N]; change (js "2") with [50%N]; change (js "3") with [51%N]; change (js "4") with [52%N];
    rewrite ?H1, ?H2, ?H3, ?H4; reflexivity.
Qed.
