(* ===== verification/LineEditor.v ===== *)
(** * The line editor of the prompt

    [cli/src/input/]: the completion model ([completion.ts]), the menu and chooser rows
    ([menu.ts]), the keystroke reducer and the shell around it ([line-editor.ts]). Keys
    arrive parsed, as [node:readline] delivers them; what the editor writes and the
    callbacks it makes are a list of events. *)

From S2P Require Export ReplInput.
Open Scope Z_scope.

(** ** Completion *)

Record ServiceSource := mkServices { sv_connectable : list jsstr; sv_connected : list jsstr }.
Record Completion := mkCompletion { cm_value : jsstr; cm_expectsArg : bool }.

Definition filterCommands (input : jsstr) : list Completion :=
  if negb (starts_with (js ":") input) || bool_decide (32%N ∈ input) then []
  else (λ c, mkCompletion (fst c) (snd c)) <$> List.filter (λ c, starts_with input (fst c)) META_COMMANDS.
Definition filterServiceArgs (command stem : jsstr) (services : ServiceSource) : list Completion :=
  let candidates :=
    if eqs command (js ":connect") then sv_connectable services
    else if eqs command (js ":disconnect") then sv_connected services else [] in
  (λ s, mkCompletion s false) <$> List.filter (starts_with stem) candidates.
(** [input.indexOf(" ")], as the texts before and after the first space. *)
Fixpoint cut_space (input : jsstr) : option (jsstr * jsstr) :=
  match input with
  | [] => None
  | c :: input => if (c =? 32)%N then Some ([], input) else '(a, b) ← cut_space input; Some (c :: a, b)
  end.
Definition computeCompletions (input : jsstr) (services : ServiceSource) : list Completion :=
  match cut_space input with
  | None => filterCommands input
  | Some (command, argRegion) => if bool_decide (32%N ∈ argRegion) then [] else filterServiceArgs command argRegion services
  end.

Record MenuState := mkMenu { mn_items : list Completion; mn_index : Z; mn_open : bool }.
Definition CLOSED_MENU : MenuState := mkMenu [] 0 false.
Inductive MenuAction := Menu_set (items : list Completion) | Menu_up | Menu_down | Menu_close.
Definition move_menu (delta : Z) (m : MenuState) : MenuState :=
  let n := Z.of_nat (length (mn_items m)) in
  if negb (mn_open m) || (n =? 0) then m
  else mkMenu (mn_items m) (Z.rem (mn_index m + delta + n) n) (mn_open m).
Definition reduceMenu (m : MenuState) (a : MenuAction) : MenuState :=
  match a with
  | Menu_set items => mkMenu items 0 (negb (bool_decide (items = [])))
  | Menu_close => mkMenu (mn_items m) (mn_index m) false
  | Menu_up => move_menu (-1) m
  | Menu_down => move_menu 1 m
  end.

(** ** Rows of the menu and of the chooser *)

Definition MARKER : jsstr := [8594; 32]%N.
Definition INDENT : jsstr := js "  ".
Definition REVERSE_ON : jsstr := sgr_open (js "7").
Definition MAX_MENU_ROWS : nat := 8.

(** The first occurrence of [needle]: what stands before and after it. *)
Fixpoint split_first (needle s : jsstr) : option (jsstr * jsstr) :=
  if starts_with needle s then Some ([], drop (length needle) s)
  else match s with [] => None | c :: s => '(a, b) ← split_first needle s; Some (c :: a, b) end.
Definition tintKeyword (r keyword : jsstr) (role : ColorRole) (depth : ColorDepth) (reverse : bool) : jsstr :=
  if bool_decide (depth = NoColor) then r
  else
    match sgrFor role depth, (match keyword with [] => None | _ => split_first keyword r end) with
    | Some sgr, Some (pre, post) =>
        let colored := sgr_open sgr ++ keyword ++ SGR_RESET in
        if reverse then REVERSE_ON ++ pre ++ colored ++ REVERSE_ON ++ post ++ SGR_RESET else pre ++ colored ++ post
    | _, _ => if reverse then REVERSE_ON ++ r ++ SGR_RESET else r
    end.
Definition choiceLines {P : Platform} (session : option ActiveSessionView) (now : Z) (depth : ColorDepth) (spend : option SpendHoldContext) : list jsstr :=
  (λ c, tintKeyword (INDENT ++ ch_label c) (ch_keyword c) (ch_role c) depth false) <$> confirmChoices session now spend.

Definition menuWindow (n index : Z) : Z * Z :=
  let count := Z.min n (Z.of_nat MAX_MENU_ROWS) in
  if n <=? count then (0, count)
  else (Z.min (Z.max 0 (index - count / 2)) (n - count), count).
Definition menuHeight (items : list Completion) : Z := Z.min (Z.of_nat (length items)) (Z.of_nat MAX_MENU_ROWS).

Section rows.
Context {Seg : Segmenter}.
(** The longest prefix of code points that leaves a column for the ellipsis. *)
Fixpoint fit_points (width : Z) (out : jsstr) (points : list jsstr) : jsstr :=
  match points with
  | [] => out
  | ch :: points => if width - 1 <? displayWidth (out ++ ch) then out else fit_points width (out ++ ch) points
  end.
Definition truncateToWidth (text : jsstr) (width : Z) : jsstr :=
  if displayWidth text <=? width then text else fit_points width [] (string_points text) ++ ellipsis_mark.
Definition marked (highlighted : bool) (text : jsstr) : jsstr := (if highlighted then MARKER else INDENT) ++ sanitize text.
Definition renderMenu (items : list Completion) (index width : Z) (color : bool) : list jsstr :=
  let '(start, count) := menuWindow (Z.of_nat (length items)) index in
  imap (λ i item,
      let highlighted := start + Z.of_nat i =? index in
      let r := truncateToWidth (marked highlighted (cm_value item)) (Z.max 1 width) in
      if highlighted && color then REVERSE_ON ++ r ++ SGR_RESET else r)
    (take (Z.to_nat count) (drop (Z.to_nat start) items)).
Definition renderSelection (choices : list SelectionChoice) (index width : Z) (depth : ColorDepth) : list jsstr :=
  imap (λ i choice,
      let highlighted := Z.of_nat i =? index in
      tintKeyword (truncateToWidth (marked highlighted (ch_label choice)) (Z.max 1 width)) (ch_keyword choice) (ch_role choice) depth
        (highlighted && negb (bool_decide (depth = NoColor))))
    choices.
End rows.

(** ** The reducer *)

Record KeyEvent := mkKey { key_name : option string; key_ctrl : bool; key_sequence : jsstr; key_str : jsstr }.
Record SelectionState := mkSelection { sel_choices : list SelectionChoice; sel_index : Z }.
Record EditorState := mkEditor {
  es_buffer : jsstr;
  es_cursor : nat;
  es_menu : MenuState;
  es_pasting : bool;
  es_selection : option SelectionState;
}.
Definition EMPTY_STATE : EditorState := mkEditor [] 0 CLOSED_MENU false None.
Inductive EditorEffect := Eff_none | Eff_submit (line : jsstr) | Eff_close | Eff_sigint.

Definition PASTE_START : jsstr := 27%N :: js "[200~".
Definition PASTE_END : jsstr := 27%N :: js "[201~".

Definition refreshMenu (menu : MenuState) (buffer : jsstr) (services : ServiceSource) : MenuState :=
  reduceMenu menu (Menu_set (computeCompletions buffer services)).
Definition acceptCompletion (buffer : jsstr) (item : Completion) (services : ServiceSource) : jsstr * MenuState :=
  match cut_space buffer with
  | None =>
      if cm_expectsArg item
      then let next := cm_value item ++ [32%N] in (next, reduceMenu CLOSED_MENU (Menu_set (computeCompletions next services)))
      else (cm_value item, CLOSED_MENU)
  | Some (command, _) => (command ++ 32%N :: cm_value item, CLOSED_MENU)
  end.
Definition insertAt (buffer : jsstr) (cursor : nat) (text : jsstr) : jsstr * nat :=
  (take cursor buffer ++ text ++ drop cursor buffer, cursor + length text)%nat.

Definition with_cursor (c : nat) (s : EditorState) : EditorState := mkEditor (es_buffer s) c (es_menu s) (es_pasting s) (es_selection s).
Definition with_menu (m : MenuState) (s : EditorState) : EditorState := mkEditor (es_buffer s) (es_cursor s) m (es_pasting s) (es_selection s).
Definition with_pasting (b : bool) (s : EditorState) : EditorState := mkEditor (es_buffer s) (es_cursor s) (es_menu s) b (es_selection s).
Definition with_selection (sel : SelectionState) (s : EditorState) : EditorState := mkEditor (es_buffer s) (es_cursor s) (es_menu s) (es_pasting s) (Some sel).
(** The text, the cursor and the menu at once. *)
Definition edited (buffer : jsstr) (cursor : nat) (menu : MenuState) (s : EditorState) : EditorState :=
  mkEditor buffer cursor menu (es_pasting s) (es_selection s).
Definition inserted (text : jsstr) (services : ServiceSource) (s : EditorState) : EditorState :=
  let '(buffer, cursor) := insertAt (es_buffer s) (es_cursor s) text in
  edited buffer cursor (refreshMenu (es_menu s) buffer services) s.

Definition named (key : KeyEvent) (names : list string) : bool :=
  match key_name key with Some name => existsb (String.eqb name) names | None => false end.
Definition ctrl_key (key : KeyEvent) (name : string) : bool := key_ctrl key && named key [name].
(** [sel.choices[sel.index]?.token ?? ""]. *)
Definition highlighted_token (sel : SelectionState) : jsstr :=
  if sel_index sel <? 0 then []
  else match sel_choices sel !! Z.to_nat (sel_index sel) with Some c => ch_token c | None => [] end.
Definition move_selection (delta : Z) (sel : SelectionState) : SelectionState :=
  let n := Z.of_nat (length (sel_choices sel)) in
  mkSelection (sel_choices sel) (if n =? 0 then 0 else Z.rem (Z.rem (sel_index sel + delta) n + n) n).
(** The pattern [^[1-9]$]. *)
Definition jump_digit (s : jsstr) : option Z :=
  match s with [c] => if within_range 49 57 c then Some (Z.of_N c - 49) else None | _ => None end.
Definition reduceSelection (s : EditorState) (sel : SelectionState) (key : KeyEvent) : EditorState * EditorEffect :=
  if ctrl_key key "c" then (s, Eff_sigint)
  else if ctrl_key key "d" then (s, Eff_close)
  else if named key ["up"%string] then (with_selection (move_selection (-1) sel) s, Eff_none)
  else if named key ["down"%string; "tab"%string] then (with_selection (move_selection 1 sel) s, Eff_none)
  else if named key ["return"%string; "enter"%string] then (EMPTY_STATE, Eff_submit (highlighted_token sel))
  else
    match jump_digit (key_str key) with
    | Some i => if i <? Z.of_nat (length (sel_choices sel)) then (with_selection (mkSelection (sel_choices sel) i) s, Eff_none) else (s, Eff_none)
    | None => (s, Eff_none)
    end.

(** [key.str.replace(/[\r\n]+/g, " ")]. *)
Definition is_break (c : N) : bool := (c =? 10)%N || (c =? 13)%N.
Fixpoint flatten_breaks (in_run : bool) (s : jsstr) : jsstr :=
  match s with
  | [] => []
  | c :: s => if is_break c then (if in_run then [] else [32%N]) ++ flatten_breaks true s else c :: flatten_breaks false s
  end.
Definition isControlStr (s : jsstr) : bool := match s with [c] => (c <? 0x20)%N || (c =? 0x7f)%N | _ => false end.
Definition menu_showing (m : MenuState) : bool := mn_open m && negb (bool_decide (mn_items m = [])).
(** [acceptHighlighted]: the index is in range whenever the menu shows. *)
Definition acceptHighlighted (s : EditorState) (services : ServiceSource) : jsstr * MenuState :=
  match mn_items (es_menu s) !! Z.to_nat (mn_index (es_menu s)) with
  | Some item => acceptCompletion (es_buffer s) item services
  | None => (es_buffer s, es_menu s)
  end.
Definition accepted (s : EditorState) (services : ServiceSource) : EditorState :=
  let '(buffer, menu) := acceptHighlighted s services in edited buffer (length buffer) menu s.

Definition reducePaste (s : EditorState) (key : KeyEvent) (services : ServiceSource) : EditorState * EditorEffect :=
  if named key ["escape"%string] then (with_pasting false s, Eff_none)
  else if ctrl_key key "c" then (with_pasting false s, Eff_sigint)
  else if bool_decide (key_str key = []) then (s, Eff_none)
  else (inserted (flatten_breaks false (key_str key)) services s, Eff_none).
Definition reduceControl (s : EditorState) (key : KeyEvent) : EditorState * EditorEffect :=
  if named key ["c"%string] then (s, Eff_sigint)
  else if named key ["d"%string] then (s, if bool_decide (es_buffer s = []) then Eff_close else Eff_none)
  else if named key ["a"%string] then (with_cursor 0 s, Eff_none)
  else if named key ["e"%string] then (with_cursor (length (es_buffer s)) s, Eff_none)
  else (s, Eff_none).
Definition enter (s : EditorState) (services : ServiceSource) : EditorState * EditorEffect :=
  if menu_showing (es_menu s) then
    let '(buffer, menu) := acceptHighlighted s services in
    if mn_open menu then (edited buffer (length buffer) menu s, Eff_none) else (EMPTY_STATE, Eff_submit buffer)
  else (EMPTY_STATE, Eff_submit (es_buffer s)).
Definition backspace (s : EditorState) (services : ServiceSource) : EditorState :=
  match es_cursor s with
  | O => s
  | S cursor =>
      let buffer := take cursor (es_buffer s) ++ drop (S cursor) (es_buffer s) in
      edited buffer cursor (refreshMenu (es_menu s) buffer services) s
  end.
Definition delete_forward (s : EditorState) (services : ServiceSource) : EditorState :=
  if (length (es_buffer s) <=? es_cursor s)%nat then s
  else
    let buffer := take (es_cursor s) (es_buffer s) ++ drop (S (es_cursor s)) (es_buffer s) in
    edited buffer (es_cursor s) (refreshMenu (es_menu s) buffer services) s.
Definition reduceLine (s : EditorState) (key : KeyEvent) (services : ServiceSource) : EditorState * EditorEffect :=
  if named key ["return"%string; "enter"%string] then enter s services
  else if named key ["tab"%string] then
    (if menu_showing (es_menu s) then accepted s services else with_menu (refreshMenu (es_menu s) (es_buffer s) services) s, Eff_none)
  else if named key ["up"%string] then (with_menu (reduceMenu (es_menu s) Menu_up) s, Eff_none)
  else if named key ["down"%string] then (with_menu (reduceMenu (es_menu s) Menu_down) s, Eff_none)
  else if named key ["escape"%string] then (with_menu (reduceMenu (es_menu s) Menu_close) s, Eff_none)
  else if named key ["left"%string] then (with_cursor (pred (es_cursor s)) s, Eff_none)
  else if named key ["right"%string] then
    (if menu_showing (es_menu s) then accepted s services else with_cursor (Nat.min (length (es_buffer s)) (S (es_cursor s))) s, Eff_none)
  else if named key ["home"%string] then (with_cursor 0 s, Eff_none)
  else if named key ["end"%string] then (with_cursor (length (es_buffer s)) s, Eff_none)
  else if named key ["backspace"%string] then (backspace s services, Eff_none)
  else if named key ["delete"%string] then (delete_forward s services, Eff_none)
  else if bool_decide (key_str key = []) || isControlStr (key_str key) then (s, Eff_none)
  else (inserted (key_str key) services s, Eff_none).
Definition reduceKey (s : EditorState) (key : KeyEvent) (services : ServiceSource) : EditorState * EditorEffect :=
  if eqs (key_sequence key) PASTE_START then (with_pasting true s, Eff_none)
  else if eqs (key_sequence key) PASTE_END then (with_pasting false s, Eff_none)
  else
    match es_selection s with
    | Some sel => reduceSelection s sel key
    | None =>
        if es_pasting s then reducePaste s key services
        else if key_ctrl key then reduceControl s key
        else reduceLine s key services
    end.

(** Rows, and the row and column of the cursor. *)
Definition inputLayout {Seg : Segmenter} (promptWidth : Z) (buffer : jsstr) (cursor : nat) (cols : Z) : Z * Z * Z :=
  let c := if 0 <? cols then cols else 80 in
  let total := promptWidth + displayWidth buffer in
  let cursorAbs := promptWidth + displayWidth (take cursor buffer) in
  let cursorRow := cursorAbs / c in
  let total := if total =? 0 then 1 else total in
  (Z.max (Z.max 1 (- (- total / c))) (cursorRow + 1), cursorRow, cursorAbs mod c).

(** ** The shell *)

(** What the editor reads of its terminal when it acts. *)
Record Terminal := mkTerminal { tm_isTTY : bool; tm_columns : option Z; tm_depth : ColorDepth; tm_services : ServiceSource; tm_now : Z }.
Record RawLineEditor := mkShell {
  ed_state : EditorState;
  ed_prompt : jsstr;
  ed_started : bool;
  ed_closed : bool;
  ed_reading : bool;
  ed_statusLine : jsstr;
  ed_lastStatus : option (option ActiveSessionView);
  ed_stashed : option (jsstr * nat);
  ed_lastCursorRow : Z;
}.
Definition new_editor : RawLineEditor := mkShell EMPTY_STATE [] false false false [] None None 0.
Inductive EditorEvent := Ev_write (chunk : jsstr) | Ev_line (line : jsstr) | Ev_close | Ev_sigint | Ev_rawMode (on : bool).

Definition set_editor (st : EditorState) (e : RawLineEditor) : RawLineEditor :=
  mkShell st (ed_prompt e) (ed_started e) (ed_closed e) (ed_reading e) (ed_statusLine e) (ed_lastStatus e) (ed_stashed e) (ed_lastCursorRow e).
Definition set_reading (b : bool) (e : RawLineEditor) : RawLineEditor :=
  mkShell (ed_state e) (ed_prompt e) (ed_started e) (ed_closed e) b (ed_statusLine e) (ed_lastStatus e) (ed_stashed e) (ed_lastCursorRow e).
Definition set_stashed (stash : option (jsstr * nat)) (e : RawLineEditor) : RawLineEditor :=
  mkShell (ed_state e) (ed_prompt e) (ed_started e) (ed_closed e) (ed_reading e) (ed_statusLine e) (ed_lastStatus e) stash (ed_lastCursorRow e).
Definition set_row (r : Z) (e : RawLineEditor) : RawLineEditor :=
  mkShell (ed_state e) (ed_prompt e) (ed_started e) (ed_closed e) (ed_reading e) (ed_statusLine e) (ed_lastStatus e) (ed_stashed e) r.
Definition set_closed (e : RawLineEditor) : RawLineEditor :=
  mkShell (ed_state e) (ed_prompt e) (ed_started e) true (ed_reading e) (ed_statusLine e) (ed_lastStatus e) (ed_stashed e) (ed_lastCursorRow e).
Definition setPrompt (prompt : jsstr) (e : RawLineEditor) : RawLineEditor :=
  mkShell (ed_state e) prompt (ed_started e) (ed_closed e) (ed_reading e) (ed_statusLine e) (ed_lastStatus e) (ed_stashed e) (ed_lastCursorRow e).
Definition currentLine (e : RawLineEditor) : jsstr := es_buffer (ed_state e).
Definition deferPoll (e : RawLineEditor) : bool := mn_open (es_menu (ed_state e)).

(** [ESC \[ n c]. *)
Definition csi (n : Z) (c : N) : jsstr := [27; 91]%N ++ int_to_string n ++ [c].
Definition up_rows (n : Z) : jsstr := if 0 <? n then csi n 65 else [].
Definition CLEAR_BELOW : jsstr := 27%N :: js "[0J".
Definition CRLF : jsstr := [13; 10]%N.

Section shell.
Context {P : Platform} {Seg : Segmenter}.
Definition cols (t : Terminal) : Z := columns_or_80 (tm_columns t).
Definition promptWidth (e : RawLineEditor) : Z := displayWidth (sanitize (ed_prompt e)).
Definition menu_rows (t : Terminal) (st : EditorState) : list jsstr :=
  match es_selection st with
  | Some sel => renderSelection (sel_choices sel) (sel_index sel) (cols t) (tm_depth t)
  | None =>
      if menu_showing (es_menu st)
      then renderMenu (mn_items (es_menu st)) (mn_index (es_menu st)) (cols t) (negb (bool_decide (tm_depth t = NoColor)))
      else []
  end.
Definition tint_reset (t : Terminal) : jsstr := if bool_decide (tm_depth t = NoColor) then [] else SGR_RESET.

Definition paint (fresh : bool) (t : Terminal) (e : RawLineEditor) : RawLineEditor * list EditorEvent :=
  if negb (tm_isTTY t) then (e, [])
  else
    let '(rows, cursorRow0, cursorCol) := inputLayout (promptWidth e) (es_buffer (ed_state e)) (es_cursor (ed_state e)) (cols t) in
    let statusRows := if bool_decide (ed_statusLine e = []) then 0 else 1 in
    let below := menu_rows t (ed_state e) in
    let cursorRow := statusRows + cursorRow0 in
    let upToCursor := statusRows + (rows - 1) + Z.of_nat (length below) - cursorRow in
    let out :=
      [13%N] ++ (if fresh then [] else up_rows (ed_lastCursorRow e)) ++ CLEAR_BELOW ++
      (if bool_decide (ed_statusLine e = []) then [] else ed_statusLine e ++ CRLF) ++
      ed_prompt e ++ es_buffer (ed_state e) ++ tint_reset t ++
      mjoin ((λ r, CRLF ++ r) <$> below) ++
      up_rows upToCursor ++ [13%N] ++ (if 0 <? cursorCol then csi cursorCol 67 else []) in
    (set_row cursorRow e, [Ev_write out]).

Definition ensureStarted (t : Terminal) (e : RawLineEditor) : RawLineEditor * list EditorEvent :=
  if ed_started e then (e, [])
  else
    (mkShell (ed_state e) (ed_prompt e) true (ed_closed e) (ed_reading e) (ed_statusLine e) (ed_lastStatus e) (ed_stashed e) (ed_lastCursorRow e),
     if tm_isTTY t then [Ev_rawMode true; Ev_write (27%N :: js "[?2004h")] else []).
Definition showPrompt (t : Terminal) (e : RawLineEditor) : RawLineEditor * list EditorEvent :=
  let '(e, ev) := ensureStarted t e in
  let '(e, ev') := paint true t (set_row 0 (set_reading true e)) in
  (e, ev ++ ev').
Definition beginSelection (prompt : jsstr) (choices : list SelectionChoice) (defaultIndex : Z) (t : Terminal) (e : RawLineEditor) : RawLineEditor * list EditorEvent :=
  let index := match choices with [] => 0 | _ => Z.min (Z.max 0 defaultIndex) (Z.of_nat (length choices) - 1) end in
  let st := mkEditor [] 0 CLOSED_MENU false (Some (mkSelection choices index)) in
  showPrompt t (set_editor st (setPrompt prompt e)).
Definition eraseInputLine (t : Terminal) (e : RawLineEditor) : RawLineEditor * list EditorEvent :=
  if negb (tm_isTTY t) then (e, [])
  else
    (set_row 0 (set_editor EMPTY_STATE (set_stashed (Some (es_buffer (ed_state e), es_cursor (ed_state e))) e)),
     [Ev_write ([13%N] ++ up_rows (ed_lastCursorRow e) ++ CLEAR_BELOW)]).
Definition restoreInput (t : Terminal) (e : RawLineEditor) : RawLineEditor * list EditorEvent :=
  let e := set_reading true e in
  let e := match ed_stashed e with
           | Some (buffer, cursor) => set_stashed None (set_editor (mkEditor buffer cursor CLOSED_MENU false None) e)
           | None => e
           end in
  paint true t (set_row 0 e).
Definition write_above (text : jsstr) (t : Terminal) (e : RawLineEditor) : RawLineEditor * list EditorEvent :=
  let '(e, ev) := eraseInputLine t e in
  let '(e, ev') := paint true t e in
  (e, ev ++ [Ev_write (text ++ [10%N])] ++ ev').
Definition teardown (t : Terminal) : list EditorEvent := if tm_isTTY t then [Ev_write (27%N :: js "[?2004l"); Ev_rawMode false] else [].
Definition close_editor (t : Terminal) (e : RawLineEditor) : RawLineEditor * list EditorEvent :=
  if ed_closed e then (e, []) else (set_closed e, teardown t ++ [Ev_close]).

Definition renderStatusLine (t : Terminal) (e : RawLineEditor) : RawLineEditor :=
  match ed_lastStatus e with
  | None => e
  | Some session =>
      mkShell (ed_state e) (ed_prompt e) (ed_started e) (ed_closed e) (ed_reading e)
        (formatStatusLine session (sv_connected (tm_services t)) (tm_now t) (tm_depth t) (cols t))
        (ed_lastStatus e) (ed_stashed e) (ed_lastCursorRow e)
  end.
Definition setStatus (status : StatusResponse) (t : Terminal) (e : RawLineEditor) : RawLineEditor * list EditorEvent :=
  let e1 := renderStatusLine t (mkShell (ed_state e) (ed_prompt e) (ed_started e) (ed_closed e) (ed_reading e) (ed_statusLine e)
                                  (Some (st_session status)) (ed_stashed e) (ed_lastCursorRow e)) in
  if eqs (ed_statusLine e1) (ed_statusLine e) then (e1, [])
  else if ed_started e1 && negb (ed_closed e1) && ed_reading e1 && negb (deferPoll e1) then paint false t e1 else (e1, []).
Definition onResize (t : Terminal) (e : RawLineEditor) : RawLineEditor * list EditorEvent :=
  if negb (ed_reading e) then (e, []) else paint true t (set_row 0 (renderStatusLine t e)).

Definition finalizeSubmit (line : jsstr) (t : Terminal) (e : RawLineEditor) : RawLineEditor * list EditorEvent :=
  let out := [13%N] ++ up_rows (ed_lastCursorRow e) ++ CLEAR_BELOW ++ ed_prompt e ++ line ++ tint_reset t ++ CRLF in
  (set_reading false (set_row 0 e), (if tm_isTTY t then [Ev_write out] else []) ++ [Ev_line line]).
Definition onKeypress (key : KeyEvent) (t : Terminal) (e : RawLineEditor) : RawLineEditor * list EditorEvent :=
  if ed_closed e then (e, [])
  else if negb (ed_reading e) then (e, if ctrl_key key "c" then [Ev_sigint] else [])
  else
    let '(st, effect) := reduceKey (ed_state e) key (tm_services t) in
    let e := set_editor st e in
    match effect with
    | Eff_sigint => (e, [Ev_sigint])
    | Eff_close => close_editor t e
    | Eff_submit line => finalizeSubmit line t e
    | Eff_none => paint false t e
    end.
End shell.
