(* ===== verification/EditorFacts.v ===== *)
(** * What the line editor guarantees

    The invariant of the editor, the chooser of a confirmation, and the shell: a line per
    read, and a half-typed line that survives a prompt drawn over it. *)

From S2P Require Export LineEditor AttributionExact.
Open Scope Z_scope.

(** ** The menu *)

Definition menu_ok (m : MenuState) : Prop :=
  (mn_open m = true → mn_items m ≠ []) ∧ (0 <= mn_index m < Z.max 1 (Z.of_nat (length (mn_items m)))).
Lemma menu_set_ok m items : menu_ok (reduceMenu m (Menu_set items)).
Proof. split; simpl; [by case_bool_decide|lia]. Qed.
Lemma closed_ok : menu_ok CLOSED_MENU.
Proof. split; simpl; [done|lia]. Qed.
Lemma move_menu_ok delta m : -1 <= delta → menu_ok m → menu_ok (move_menu delta m).
Proof.
  intros Hd Hm. pose proof Hm as [H1 H2]. unfold move_menu. destruct (mn_open m) eqn:Ho; simpl; [|done].
  destruct (Z.eqb_spec (Z.of_nat (length (mn_items m))) 0) as [?|Hn]; [done|]. split; simpl; [by intros _; apply H1|].
  rewrite Z.rem_mod_nonneg by lia. pose proof (Z.mod_pos_bound (mn_index m + delta + Z.of_nat (length (mn_items m))) (Z.of_nat (length (mn_items m)))). lia.
Qed.
Lemma reduceMenu_ok m a : menu_ok m → menu_ok (reduceMenu m a).
Proof.
  intros Hm. destruct a; [apply menu_set_ok|apply move_menu_ok; [lia|done]..|]. destruct Hm. by split.
Qed.
Lemma reduceMenu_items m a : reduceMenu m a = m ∨ (∃ items, a = Menu_set items) ∨ mn_items (reduceMenu m a) = mn_items m.
Proof. destruct a; simpl; [eauto|..]; unfold move_menu; try case_match; auto. Qed.
(** The highlighted item is on screen, and the rows are the ones the painter budgets for. *)
Lemma menuWindow_shows n index start count : menuWindow n index = (start, count) → 0 <= index < n →
  0 <= start ∧ start <= index < start + count ∧ start + count <= n ∧ count <= 8.
Proof.
  unfold menuWindow. cbv zeta. change (Z.of_nat MAX_MENU_ROWS) with 8. intros E Hi. destruct (Z.leb_spec n (n `min` 8)); injection E as <- <-; [lia|].
  assert (n `min` 8 = 8) as -> by lia. change (8 / 2) with 4. lia.
Qed.
Lemma renderMenu_height {Seg : Segmenter} items index width color :
  0 <= index < Z.of_nat (length items) → Z.of_nat (length (renderMenu items index width color)) = menuHeight items.
Proof.
  intros Hi. unfold renderMenu. destruct (menuWindow _ index) as [start count] eqn:E. pose proof (menuWindow_shows _ _ _ _ E Hi) as Hb.
  rewrite length_imap, length_take, length_drop. unfold menuHeight, menuWindow in *. cbv zeta in E. change (Z.of_nat MAX_MENU_ROWS) with 8 in *.
  case_match; injection E as <- <-; lia.
Qed.

(** ** The invariant of the editor *)

Definition selection_ok (sel : SelectionState) : Prop := 0 <= sel_index sel < Z.max 1 (Z.of_nat (length (sel_choices sel))).
Record editor_ok (services : ServiceSource) (s : EditorState) : Prop := {
  eo_cursor : (es_cursor s <= length (es_buffer s))%nat;
  eo_menu : menu_ok (es_menu s);
  eo_items : mn_open (es_menu s) = true → mn_items (es_menu s) = computeCompletions (es_buffer s) services;
  eo_selection : ∀ sel, es_selection s = Some sel → selection_ok sel ∧ es_buffer s = [] ∧ mn_open (es_menu s) = false;
}.
Lemma empty_ok services : editor_ok services EMPTY_STATE.
Proof. split; [done|apply closed_ok|done|done]. Qed.
Lemma with_cursor_ok services c s : (c <= length (es_buffer s))%nat → editor_ok services s → editor_ok services (with_cursor c s).
Proof. intros Hc []. by split. Qed.
Lemma with_pasting_ok services b s : editor_ok services s → editor_ok services (with_pasting b s).
Proof. intros []. by split. Qed.
Lemma edited_ok services buffer cursor m s :
  (cursor <= length buffer)%nat → menu_ok m → (mn_open m = true → mn_items m = computeCompletions buffer services) →
  es_selection s = None → editor_ok services (edited buffer cursor m s).
Proof. intros ? ? ? Hs. split; [done..|]. simpl. by rewrite Hs. Qed.
Lemma refreshed_ok services buffer cursor m s :
  (cursor <= length buffer)%nat → es_selection s = None → editor_ok services (edited buffer cursor (refreshMenu m buffer services) s).
Proof. intros. apply edited_ok; [done|apply menu_set_ok|done|done]. Qed.
Lemma inserted_ok services text s : editor_ok services s → es_selection s = None → editor_ok services (inserted text services s).
Proof.
  intros [Hc _ _ _] Hs. unfold inserted, insertAt. apply refreshed_ok; [|done]. rewrite !length_app, length_take, length_drop. lia.
Qed.
Lemma menu_key_ok services a s : (∀ items, a ≠ Menu_set items) → editor_ok services s → editor_ok services (with_menu (reduceMenu (es_menu s) a) s).
Proof.
  intros Ha [Hc Hm Hi Hs]. split; [done|by apply reduceMenu_ok| |].
  - simpl. destruct (reduceMenu_items (es_menu s) a) as [->|[[items ->]|E]]; [done|by destruct (Ha items)|]. rewrite E. intros Ho. apply Hi.
    destruct a; simpl in *; [by destruct (Ha items)|unfold move_menu in Ho; case_match; done..|done].
  - simpl. intros sel Hsel. destruct (Hs sel Hsel) as (? & ? & Ho). split_and!; [done..|].
    destruct a; simpl; [by destruct (Ha items)|unfold move_menu; by rewrite Ho..|done].
Qed.
Lemma acceptHighlighted_ok services s buffer m : editor_ok services s →
  acceptHighlighted s services = (buffer, m) → menu_showing (es_menu s) = true →
  menu_ok m ∧ (mn_open m = true → mn_items m = computeCompletions buffer services).
Proof.
  intros [Hc [Ho Hn] Hi Hs] E Hshow. unfold acceptHighlighted in E.
  destruct (mn_items (es_menu s) !! _) as [item|] eqn:El.
  - unfold acceptCompletion in E. destruct (cut_space _) as [[command ?]|]; [|destruct (cm_expectsArg item)]; injection E as <- <-;
      (split; [apply closed_ok || apply (menu_set_ok CLOSED_MENU)|intros Hopen; first [reflexivity|discriminate Hopen]]).
  - apply lookup_ge_None in El. unfold menu_showing in Hshow. apply andb_true_iff in Hshow as [_ Hne%negb_true_iff%bool_decide_eq_false].
    destruct (mn_items (es_menu s)); [done|]. simpl in *. lia.
Qed.
Lemma move_selection_ok delta sel : -1 <= delta → selection_ok sel → selection_ok (move_selection delta sel).
Proof.
  unfold selection_ok. intros Hd Hs. simpl. destruct (Z.eqb_spec (Z.of_nat (length (sel_choices sel))) 0) as [->|Hn]; [lia|].
  set (n := Z.of_nat (length (sel_choices sel))) in *. assert (0 < n) by lia.
  pose proof (Z.rem_bound_abs (sel_index sel + delta) n Hn). rewrite Z.rem_mod_nonneg by lia.
  pose proof (Z.mod_pos_bound (Z.rem (sel_index sel + delta) n + n) n). lia.
Qed.
Lemma with_selection_ok services sel0 sel s : editor_ok services s → es_selection s = Some sel0 → selection_ok sel → editor_ok services (with_selection sel s).
Proof. intros [? ? ? Hs] E Hsel. destruct (Hs sel0 E) as (_ & ? & ?). split; [done..|]. simpl. by intros ? [= <-]. Qed.
Lemma reduceSelection_ok services s sel key : editor_ok services s → es_selection s = Some sel → editor_ok services (fst (reduceSelection s sel key)).
Proof.
  intros Hs E. destruct (eo_selection _ _ Hs sel E) as (Hsel & _ & _). unfold reduceSelection.
  assert (∀ d, -1 <= d → editor_ok services (with_selection (move_selection d sel) s)) as Hmove.
  { intros d Hd. by eapply with_selection_ok; [..|apply move_selection_ok]. }
  do 5 (case_match; [cbn [fst]; first [done|apply Hmove; lia|apply empty_ok]|]).
  unfold jump_digit. destruct (key_str key) as [|c [|]]; [done| |done]. destruct (within_range 49 57 c) eqn:Hc; [|done].
  destruct (Z.ltb_spec (Z.of_N c - 49) (Z.of_nat (length (sel_choices sel)))); [|done]. eapply with_selection_ok; [done..|].
  apply andb_true_iff in Hc as [?%N.leb_le ?%N.leb_le]. unfold selection_ok. simpl. lia.
Qed.
Lemma accepted_ok services s : editor_ok services s → es_selection s = None → menu_showing (es_menu s) = true → editor_ok services (accepted s services).
Proof.
  intros Hs E Hshow. unfold accepted. destruct (acceptHighlighted s services) as [buffer m] eqn:Ea.
  destruct (acceptHighlighted_ok _ _ _ _ Hs Ea Hshow). by apply edited_ok.
Qed.
Lemma enter_ok services s : editor_ok services s → es_selection s = None → editor_ok services (fst (enter s services)).
Proof.
  intros Hs E. unfold enter. case_match eqn:Hshow; [|apply empty_ok]. destruct (acceptHighlighted s services) as [buffer m] eqn:Ea.
  destruct (acceptHighlighted_ok _ _ _ _ Hs Ea Hshow).
  destruct (mn_open m) eqn:Hm; cbn [fst]; [|apply empty_ok]. apply edited_ok; auto.
Qed.
Lemma reopened_ok services s : editor_ok services s → es_selection s = None →
  editor_ok services (with_menu (refreshMenu (es_menu s) (es_buffer s) services) s).
Proof. intros Hs E. destruct s. apply refreshed_ok; [apply (eo_cursor _ _ Hs)|done]. Qed.
Lemma backspace_ok services s : editor_ok services s → es_selection s = None → editor_ok services (backspace s services).
Proof.
  intros Hs E. pose proof (eo_cursor _ _ Hs). unfold backspace. destruct (es_cursor s) eqn:Ec; [done|].
  apply refreshed_ok; [|done]. rewrite length_app, length_take, length_drop. lia.
Qed.
Lemma delete_forward_ok services s : editor_ok services s → es_selection s = None → editor_ok services (delete_forward s services).
Proof.
  intros Hs E. pose proof (eo_cursor _ _ Hs). unfold delete_forward. destruct (Nat.leb_spec (length (es_buffer s)) (es_cursor s)); [done|].
  apply refreshed_ok; [|done]. rewrite length_app, length_take, length_drop. lia.
Qed.
#[local] Hint Resolve enter_ok accepted_ok reopened_ok backspace_ok delete_forward_ok inserted_ok menu_key_ok with_cursor_ok empty_ok : editor.
#[local] Hint Extern 1 (_ <= _)%nat => lia : editor.
#[local] Hint Extern 1 (∀ items, _ ≠ Menu_set items) => done : editor.
Lemma reduceLine_ok services s key : editor_ok services s → es_selection s = None → editor_ok services (fst (reduceLine s key services)).
Proof.
  intros Hs E. pose proof (eo_cursor _ _ Hs). unfold reduceLine.
  do 12 (match goal with |- context [if ?b then _ else _] => destruct b end; [cbn [fst]; try case_match; solve [auto with editor]|]).
  simpl. auto with editor.
Qed.

(** The invariant of the editor, on every key. The cursor is in the buffer; an open menu
    has items, the highlighted one among them, and they are the completions of the buffer;
    a chooser has its highlight in range, no text and no menu. *)
Theorem reduceKey_keeps_editor services s key : editor_ok services s → editor_ok services (fst (reduceKey s key services)).
Proof.
  intros Hs. unfold reduceKey. case_match; [by apply with_pasting_ok|]. case_match; [by apply with_pasting_ok|].
  destruct (es_selection s) as [sel|] eqn:E; [by apply reduceSelection_ok|]. case_match.
  - unfold reducePaste. do 3 (case_match; [by try apply with_pasting_ok|]). by apply inserted_ok.
  - case_match; [|by apply reduceLine_ok]. pose proof (eo_cursor _ _ Hs). unfold reduceControl.
    do 4 (case_match; [cbn [fst]; first [done|apply with_cursor_ok; [lia|done]]|]). done.
Qed.

(** ** The chooser *)

(** A key that moves the highlight. *)
Definition moves (key : KeyEvent) : bool :=
  named key ["up"%string; "down"%string; "tab"%string] || match jump_digit (key_str key) with Some _ => true | None => false end.
Definition is_marker (key : KeyEvent) : bool := eqs (key_sequence key) PASTE_START || eqs (key_sequence key) PASTE_END.
Definition enter_key (key : KeyEvent) : bool := named key ["return"%string; "enter"%string].
Lemma named_in key name names : named key [name] = true → name ∈ names → named key names = true.
Proof.
  unfold named. destruct (key_name key) as [n|]; [|done]. simpl. rewrite orb_false_r. intros ->%String.eqb_eq Hin.
  apply existsb_exists. exists name. split; [by apply list_elem_of_In|apply String.eqb_refl].
Qed.
Lemma named_split key a b l : named key (a :: b :: l) = named key [a] || named key (b :: l).
Proof. unfold named. destruct (key_name key); [|done]. simpl. by rewrite orb_false_r. Qed.

(** One key on the chooser: it submits the highlighted token, by Enter alone; or it keeps
    the choices and an empty buffer, and moves the highlight only if it is such a key. *)
Lemma chooser_step services s sel key : es_selection s = Some sel → es_buffer s = [] →
  let '(s', effect) := reduceKey s key services in
  match effect with
  | Eff_submit line => enter_key key = true ∧ is_marker key = false ∧ line = highlighted_token sel ∧ s' = EMPTY_STATE
  | _ => ∃ index, es_selection s' = Some (mkSelection (sel_choices sel) index) ∧ es_buffer s' = [] ∧
      (selection_ok sel → selection_ok (mkSelection (sel_choices sel) index)) ∧ (moves key = false → index = sel_index sel)
  end.
Proof.
  intros E Hb. unfold reduceKey, is_marker.
  assert (∀ s', es_selection s' = es_selection s → es_buffer s' = es_buffer s → ∃ index, es_selection s' = Some (mkSelection (sel_choices sel) index) ∧ es_buffer s' = [] ∧
    (selection_ok sel → selection_ok (mkSelection (sel_choices sel) index)) ∧ (moves key = false → index = sel_index sel)) as Hsame.
  { intros s' -> ->. exists (sel_index sel). rewrite E. by destruct sel. }
  destruct (eqs (key_sequence key) PASTE_START); [by apply Hsame|]. destruct (eqs (key_sequence key) PASTE_END); [by apply Hsame|].
  rewrite E. unfold reduceSelection. destruct (ctrl_key key "c"); [by apply Hsame|]. destruct (ctrl_key key "d"); [by apply Hsame|].
  destruct (named key ["up"%string]) eqn:Hup.
  { eexists. split_and!; [done..|apply move_selection_ok; lia|]. unfold moves. by rewrite (named_in _ _ _ Hup) by set_solver. }
  destruct (named key ["down"%string; "tab"%string]) eqn:Hdown.
  { eexists. split_and!; [done..|apply move_selection_ok; lia|]. unfold moves. by rewrite named_split, Hdown, orb_true_r. }
  destruct (named key ["return"%string; "enter"%string]) eqn:Hret; [done|]. unfold jump_digit in *.
  destruct (key_str key) as [|c [|]] eqn:Estr; [by apply Hsame| |by apply Hsame]. destruct (within_range 49 57 c) eqn:Hc; [|by apply Hsame].
  destruct (Z.ltb_spec (Z.of_N c - 49) (Z.of_nat (length (sel_choices sel)))); [|by apply Hsame].
  eexists. split_and!; [done..| |].
  - intros _. apply andb_true_iff in Hc as [?%N.leb_le ?%N.leb_le]. unfold selection_ok. simpl. lia.
  - unfold moves, jump_digit. by rewrite Estr, Hc, orb_true_r.
Qed.

(** Keys fed in order; the effects they have. *)
Fixpoint reduce_keys (s : EditorState) (keys : list KeyEvent) (services : ServiceSource) : EditorState * list EditorEffect :=
  match keys with
  | [] => (s, [])
  | key :: keys =>
      let '(s, effect) := reduceKey s key services in
      let '(s, effects) := reduce_keys s keys services in
      (s, effect :: effects)
  end.
(** The line the first submission carries. *)
Definition first_submitted (effects : list EditorEffect) : option jsstr :=
  List.hd_error (omap (λ e, match e with Eff_submit line => Some line | _ => None end) effects).
Definition chooser (choices : list SelectionChoice) (index : Z) (s : EditorState) : Prop :=
  es_selection s = Some (mkSelection choices index) ∧ es_buffer s = [].

(** The chooser answers what is highlighted. Over any keys, the first line submitted is
    the token of one of the choices, and unless a key moved the highlight it is the choice
    highlighted at the start: Deny, as a prompt opens it. *)
Theorem chooser_answers {P : Platform} {PC : PlainCase P} session now spend services keys s index line :
  chooser (confirmChoices session now spend) index s → 0 <= index < Z.of_nat (length (offered spend)) →
  first_submitted (snd (reduce_keys s keys services)) = Some line →
  ∃ c, c ∈ offered spend ∧ parseChoice line spend = Some c ∧
    (Forall (λ key, moves key = false) keys → offered spend !! Z.to_nat index = Some c).
Proof.
  set (choices := confirmChoices session now spend). pose proof (choices_mean session now spend) as Hmean. fold choices in Hmean.
  assert (length choices = length (offered spend)) as Hlen by (apply (f_equal length) in Hmean; by rewrite !length_fmap in Hmean).
  assert (∀ i, 0 <= i < Z.of_nat (length (offered spend)) →
    ∃ c, offered spend !! Z.to_nat i = Some c ∧ parseChoice (highlighted_token (mkSelection choices i)) spend = Some c) as Htoken.
  { intros i Hi. destruct (lookup_lt_is_Some_2 (offered spend) (Z.to_nat i)) as [c Hc]; [lia|]. exists c. split; [done|].
    unfold highlighted_token. simpl. rewrite (proj2 (Z.ltb_ge _ _)) by lia.
    apply (f_equal (.!! Z.to_nat i)) in Hmean. rewrite !list_lookup_fmap, Hc in Hmean.
    destruct (choices !! Z.to_nat i); simpl in Hmean; congruence. }
  assert (length (offered spend) ≠ 0%nat) as Hn by by destruct spend.
  assert (∀ s index, chooser choices index s → selection_ok (mkSelection choices index) →
    first_submitted (snd (reduce_keys s keys services)) = Some line →
    ∃ c, c ∈ offered spend ∧ parseChoice line spend = Some c ∧ (Forall (λ key, moves key = false) keys → offered spend !! Z.to_nat index = Some c)) as Hrun;
    [|intros Hc Hi; apply Hrun; [done|unfold selection_ok; simpl; lia]].
  clear s index. induction keys as [|key keys IH]; intros s index [Hs Hb] Hi; [done|].
  pose proof (chooser_step services s _ key Hs Hb) as Hstep. cbn [reduce_keys].
  destruct (reduceKey s key services) as [s' effect]. destruct (reduce_keys s' keys services) as [s2 effects] eqn:Er. cbn [snd].
  destruct effect as [|line'| |].
  2: { intros [= <-]. destruct Hstep as (_ & _ & -> & _). unfold selection_ok in Hi. simpl in Hi.
       destruct (Htoken index) as (c & Hc & Hp); [lia|]. exists c. split_and!; [by eapply list_elem_of_lookup_2|done..]. }
  all: intros Hl; destruct Hstep as (i & Hs' & Hb' & Hi' & Hm); cbn [sel_choices sel_index] in *.
  all: destruct (IH s' i) as (c & Hc & Hp & Hf); [done|by apply Hi'|by rewrite Er|exists c; split_and!; [done..|]].
  all: intros [Hk Hks]%Forall_cons; rewrite <- (Hm Hk); auto.
Qed.

(** ** The shell *)

Inductive shell_op :=
  | Op_key (key : KeyEvent)
  | Op_showPrompt
  | Op_beginSelection (prompt : jsstr) (choices : list SelectionChoice) (defaultIndex : Z)
  | Op_erase | Op_restore
  | Op_setStatus (status : StatusResponse)
  | Op_setPrompt (prompt : jsstr)
  | Op_resize
  | Op_write (text : jsstr)
  | Op_close.

Section shell.
Context {P : Platform} {Seg : Segmenter}.
Definition shell_step (t : Terminal) (op : shell_op) (e : RawLineEditor) : RawLineEditor * list EditorEvent :=
  match op with
  | Op_key key => onKeypress key t e
  | Op_showPrompt => showPrompt t e
  | Op_beginSelection prompt choices i => beginSelection prompt choices i t e
  | Op_erase => eraseInputLine t e
  | Op_restore => restoreInput t e
  | Op_setStatus status => setStatus status t e
  | Op_setPrompt prompt => (setPrompt prompt e, [])
  | Op_resize => onResize t e
  | Op_write text => write_above text t e
  | Op_close => close_editor t e
  end.
Fixpoint shell_run (ops : list (Terminal * shell_op)) (e : RawLineEditor) : RawLineEditor * list EditorEvent :=
  match ops with
  | [] => (e, [])
  | (t, op) :: ops =>
      let '(e, ev) := shell_step t op e in
      let '(e, evs) := shell_run ops e in
      (e, ev ++ evs)
  end.

(** Painting moves the recorded row and writes; nothing else. *)
Lemma paint_only fresh t e : ∃ r out, paint fresh t e = (set_row r e, out) ∧ ∀ l, Ev_line l ∉ out ∧ Ev_close ∉ out.
Proof.
  unfold paint. destruct (tm_isTTY t); cbn [negb].
  - destruct (inputLayout _ _ _ _) as [[rows r] c]. eexists _, _. split; [done|]. intros l. split; by intros [?|?%not_elem_of_nil]%elem_of_cons.
  - exists (ed_lastCursorRow e), []. split; [by destruct e|]. intros l. split; apply not_elem_of_nil.
Qed.

Definition lines (evs : list EditorEvent) : nat := length (List.filter (λ ev, match ev with Ev_line _ => true | _ => false end) evs).
Definition reads_of (op : shell_op) : nat := match op with Op_showPrompt | Op_beginSelection _ _ _ | Op_restore => 1 | _ => 0 end.
Definition reading (e : RawLineEditor) : nat := if ed_reading e then 1 else 0.
Lemma lines_app a b : lines (a ++ b) = (lines a + lines b)%nat.
Proof. unfold lines. by rewrite List.filter_app, length_app. Qed.
Lemma lines_none evs : (∀ l, Ev_line l ∉ evs) → lines evs = 0%nat.
Proof.
  unfold lines. intros Hn. rewrite list_filter_none; [done|]. apply Forall_forall. intros ev Hin. destruct ev; try done. by destruct (Hn line).
Qed.
Lemma paint_reads fresh t e : let '(e', out) := paint fresh t e in lines out = 0%nat ∧ ed_reading e' = ed_reading e.
Proof. destruct (paint_only fresh t e) as (r & out & -> & Hout). split; [|done]. apply lines_none. intros l. apply Hout. Qed.
Lemma started_reads t e : let '(e', out) := ensureStarted t e in lines out = 0%nat ∧ ed_reading e' = ed_reading e.
Proof. unfold ensureStarted. destruct (ed_started e); [done|]. by destruct (tm_isTTY t). Qed.
Lemma step_lines t op e : let '(e', evs) := shell_step t op e in (lines evs + reading e' <= reading e + reads_of op)%nat.
Proof.
  destruct op as [key| |prompt choices i| | |status|prompt| |text|]; cbn [shell_step reads_of].
  - unfold onKeypress. destruct (ed_closed e) eqn:Ec; [simpl; lia|]. unfold reading at 2. destruct (ed_reading e) eqn:Er; cbn [negb].
    + destruct (reduceKey _ _ _) as [st effect]. destruct effect as [|line| |].
      * pose proof (paint_reads false t (set_editor st e)) as Hp. destruct (paint _ _ _). destruct Hp as [-> Hr]. unfold reading. rewrite Hr. simpl. rewrite Er. lia.
      * unfold finalizeSubmit, reading, lines. destruct (tm_isTTY t); simpl; lia.
      * unfold close_editor. simpl. rewrite Ec. unfold teardown, reading. simpl. rewrite Er. destruct (tm_isTTY t); simpl; lia.
      * unfold reading. simpl. rewrite Er. lia.
    + unfold reading. rewrite Er. by destruct (ctrl_key key "c").
  - unfold showPrompt. pose proof (started_reads t e) as Hs. destruct (ensureStarted t e) as [e1 ev]. destruct Hs as [Hl _].
    pose proof (paint_reads true t (set_row 0 (set_reading true e1))) as Hp. destruct (paint _ _ _) as [e2 ev2]. destruct Hp as [Hl2 Hr].
    rewrite lines_app. unfold reading. rewrite Hr. simpl. case_match; lia.
  - unfold beginSelection, showPrompt. match goal with |- context [ensureStarted t ?x] => set (e0 := x) end.
    pose proof (started_reads t e0) as Hs. destruct (ensureStarted t e0) as [e1 ev]. destruct Hs as [Hl _].
    pose proof (paint_reads true t (set_row 0 (set_reading true e1))) as Hp. destruct (paint _ _ _) as [e2 ev2]. destruct Hp as [Hl2 Hr].
    rewrite lines_app. unfold reading. rewrite Hr. simpl. case_match; lia.
  - unfold eraseInputLine. destruct (tm_isTTY t); unfold reading; simpl; lia.
  - unfold restoreInput. match goal with |- context [paint true t ?x] => pose proof (paint_reads true t x) as Hp; destruct (paint true t x) as [e2 ev2] end.
    destruct Hp as [-> Hr]. unfold reading. rewrite Hr. simpl. repeat case_match; lia.
  - unfold setStatus. match goal with |- context [renderStatusLine t ?x] => set (e0 := x) end.
    assert (ed_reading (renderStatusLine t e0) = ed_reading e) as Hr by (unfold renderStatusLine; by destruct (ed_lastStatus e0)).
    destruct (eqs _ _); [unfold reading; rewrite Hr; simpl; lia|]. destruct (_ && negb (deferPoll _)); [|unfold reading; rewrite Hr; simpl; lia].
    pose proof (paint_reads false t (renderStatusLine t e0)) as Hp. destruct (paint _ _ _). destruct Hp as [-> Hr']. unfold reading. rewrite Hr', Hr. lia.
  - simpl. unfold reading. simpl. lia.
  - unfold onResize. destruct (ed_reading e) eqn:Er; cbn [negb]; [|unfold reading; rewrite Er; simpl; lia].
    pose proof (paint_reads true t (set_row 0 (renderStatusLine t e))) as Hp. destruct (paint _ _ _). destruct Hp as [-> Hr]. unfold reading. rewrite Hr, Er.
    case_match; lia.
  - unfold write_above. destruct (eraseInputLine t e) as [e1 ev] eqn:E.
    assert (lines ev = 0%nat ∧ ed_reading e1 = ed_reading e) as [H1 H2] by (unfold eraseInputLine in E; destruct (tm_isTTY t); by injection E as <- <-).
    pose proof (paint_reads true t e1) as Hp. destruct (paint _ _ _). destruct Hp as [H3 H4]. rewrite !lines_app, H1, H3. unfold reading. rewrite H4, H2. simpl. lia.
  - unfold close_editor. destruct (ed_closed e); [simpl; lia|]. unfold teardown, reading. destruct (tm_isTTY t); simpl; lia.
Qed.
(** A line per read. Whatever keys and calls reach the editor, the lines it hands off
    are never more than the reads that were opened: no phantom line is submitted while the
    program works on the last one. *)
Theorem lines_within_reads ops e :
  (lines (snd (shell_run ops e)) <= reading e + list_sum (reads_of ∘ snd <$> ops))%nat.
Proof.
  revert e. induction ops as [|[t op] ops IH]; intros e; [unfold lines; simpl; lia|]. cbn [shell_run].
  pose proof (step_lines t op e) as Hs. destruct (shell_step t op e) as [e1 ev]. specialize (IH e1).
  destruct (shell_run ops e1) as [e2 evs]. cbn [snd fmap list_fmap] in *. rewrite lines_app. simpl. lia.
Qed.

(** The operations that leave the line set aside. *)
Definition keeps_stash (op : shell_op) : bool := match op with Op_erase | Op_restore | Op_write _ => false | _ => true end.
Lemma paint_keeps fresh t e : ed_state (fst (paint fresh t e)) = ed_state e ∧ ed_stashed (fst (paint fresh t e)) = ed_stashed e.
Proof. destruct (paint_only fresh t e) as (r & out & -> & _). done. Qed.
Lemma started_keeps t e : ed_state (fst (ensureStarted t e)) = ed_state e ∧ ed_stashed (fst (ensureStarted t e)) = ed_stashed e.
Proof. unfold ensureStarted. by destruct (ed_started e). Qed.
Lemma showPrompt_keeps t e : ed_state (fst (showPrompt t e)) = ed_state e ∧ ed_stashed (fst (showPrompt t e)) = ed_stashed e.
Proof.
  unfold showPrompt. pose proof (started_keeps t e) as Hs. destruct (ensureStarted t e) as [e1 ev].
  pose proof (paint_keeps true t (set_row 0 (set_reading true e1))) as Hp. destruct (paint _ _ _) as [e2 ev2]. simpl in *. intuition congruence.
Qed.
Lemma renderStatusLine_keeps t e : ed_state (renderStatusLine t e) = ed_state e ∧ ed_stashed (renderStatusLine t e) = ed_stashed e.
Proof. unfold renderStatusLine. by destruct (ed_lastStatus e). Qed.
Lemma setStatus_keeps status t e : ed_state (fst (setStatus status t e)) = ed_state e ∧ ed_stashed (fst (setStatus status t e)) = ed_stashed e.
Proof.
  unfold setStatus. match goal with |- context [renderStatusLine t ?x] => pose proof (renderStatusLine_keeps t x) as Hr; set (e0 := x) in * end.
  destruct (eqs _ _); [done|]. destruct (_ && negb (deferPoll _)); [|done].
  pose proof (paint_keeps false t (renderStatusLine t e0)). intuition congruence.
Qed.
Lemma onResize_keeps t e : ed_state (fst (onResize t e)) = ed_state e ∧ ed_stashed (fst (onResize t e)) = ed_stashed e.
Proof.
  unfold onResize. destruct (ed_reading e); [|done]. cbn [negb]. pose proof (renderStatusLine_keeps t e).
  pose proof (paint_keeps true t (set_row 0 (renderStatusLine t e))). simpl in *. intuition congruence.
Qed.
Lemma onKeypress_state key t e : ed_stashed (fst (onKeypress key t e)) = ed_stashed e ∧
  (ed_state (fst (onKeypress key t e)) = ed_state e ∨ ed_state (fst (onKeypress key t e)) = fst (reduceKey (ed_state e) key (tm_services t))).
Proof.
  unfold onKeypress. destruct (ed_closed e) eqn:Ec; [auto|]. destruct (ed_reading e); [|auto]. cbn [negb].
  destruct (reduceKey _ _ _) as [st effect]. destruct effect; [|auto..|auto].
  - destruct (paint_keeps false t (set_editor st e)) as [-> ->]. auto.
  - unfold close_editor. simpl. rewrite Ec. simpl. auto.
Qed.
Lemma step_stash t op e : keeps_stash op = true → ed_stashed (fst (shell_step t op e)) = ed_stashed e.
Proof.
  destruct op as [key| |prompt choices i| | |status|prompt| |text|]; intros Hk; try done; cbn [shell_step].
  - apply onKeypress_state.
  - apply showPrompt_keeps.
  - unfold beginSelection. match goal with |- context [showPrompt t ?x] => pose proof (showPrompt_keeps t x) as [_ ->] end. done.
  - apply setStatus_keeps.
  - apply onResize_keeps.
  - unfold close_editor. by destruct (ed_closed e).
Qed.
Lemma run_stash ops e : Forall (λ top, keeps_stash (snd top) = true) ops → ed_stashed (fst (shell_run ops e)) = ed_stashed e.
Proof.
  intros Hops. revert e. induction Hops as [|[t op] ops Hop _ IH]; intros e; [done|]. cbn [shell_run].
  pose proof (step_stash t op e Hop) as Hs. destruct (shell_step t op e) as [e1 ev]. specialize (IH e1). destruct (shell_run ops e1). simpl in *. congruence.
Qed.
(** A line lifted aside comes back. After [eraseInputLine], whatever a confirmation then
    does with the editor - keys, choosers, prompts, status, resizes - [restoreInput] puts the
    text and the cursor back and reads again, with no chooser left open. *)
Theorem lifted_line_returns t t' ops e : tm_isTTY t = true → Forall (λ top, keeps_stash (snd top) = true) ops →
  let back := fst (restoreInput t' (fst (shell_run ops (fst (eraseInputLine t e))))) in
  currentLine back = currentLine e ∧ es_cursor (ed_state back) = es_cursor (ed_state e) ∧
  es_selection (ed_state back) = None ∧ deferPoll back = false ∧ ed_reading back = true ∧ ed_stashed back = None.
Proof.
  intros Ht Hops back. unfold back, eraseInputLine. rewrite Ht. cbn [negb fst].
  match goal with |- context [shell_run ops ?x] => pose proof (run_stash ops x Hops) as Hs; destruct (shell_run ops x) as [e1 evs] end.
  cbn [fst] in *. unfold restoreInput. cbn [ed_stashed set_reading]. simpl in Hs. rewrite Hs.
  match goal with |- context [paint true t' ?x] => destruct (paint_only true t' x) as (r & out & -> & _) end. done.
Qed.

(** The invariant over the calls of a run with one set of services. *)
Definition shell_ok (services : ServiceSource) (e : RawLineEditor) : Prop :=
  editor_ok services (ed_state e) ∧ ∀ buffer cursor, ed_stashed e = Some (buffer, cursor) → (cursor <= length buffer)%nat.
Lemma erase_ok services t e : shell_ok services e → shell_ok services (fst (eraseInputLine t e)).
Proof.
  intros [Hs Ht]. unfold eraseInputLine. destruct (tm_isTTY t); [|done]. split; [apply empty_ok|]. simpl. intros ? ? [= <- <-]. apply (eo_cursor _ _ Hs).
Qed.
Lemma shell_ok_same services e e' : ed_state e' = ed_state e → ed_stashed e' = ed_stashed e → shell_ok services e → shell_ok services e'.
Proof. intros E1 E2 [H1 H2]. split; by rewrite ?E1, ?E2. Qed.
Lemma shell_step_ok services t op e : tm_services t = services → shell_ok services e → shell_ok services (fst (shell_step t op e)).
Proof.
  intros Hsv [Hs Ht]. destruct op as [key| |prompt choices i| | |status|prompt| |text|]; cbn [shell_step].
  - destruct (onKeypress_state key t e) as [E1 [E2|E2]]; (split; [rewrite E2|by rewrite E1]); [done|rewrite Hsv; by apply reduceKey_keeps_editor].
  - destruct (showPrompt_keeps t e) as [E1 E2]. split; by rewrite ?E1, ?E2.
  - unfold beginSelection. match goal with |- context [showPrompt t ?x] => destruct (showPrompt_keeps t x) as [E1 E2] end.
    split; [rewrite E1|by rewrite E2]. split; [done|apply closed_ok|done|]. simpl. intros ? [= <-]. split_and!; [|done..].
    unfold selection_ok. simpl. destruct choices; cbn [length]; lia.
  - by apply erase_ok.
  - unfold restoreInput. cbn [ed_stashed set_reading]. destruct (ed_stashed e) as [[buffer cursor]|] eqn:E.
    + match goal with |- context [paint true t ?x] => destruct (paint_only true t x) as (r & out & -> & _) end.
      split; [|done]. split; [simpl; by apply Ht|apply closed_ok|done|done].
    + match goal with |- context [paint true t ?x] => destruct (paint_only true t x) as (r & out & -> & _) end.
      split; [done|]. simpl. by rewrite E.
  - destruct (setStatus_keeps status t e). by apply (shell_ok_same _ e).
  - by apply (shell_ok_same _ e).
  - destruct (onResize_keeps t e). by apply (shell_ok_same _ e).
  - unfold write_above. pose proof (erase_ok services t e (conj Hs Ht)) as He. destruct (eraseInputLine t e) as [e1 ev].
    destruct (paint_only true t e1) as (r & out & -> & _). by apply (shell_ok_same _ e1).
  - unfold close_editor. destruct (ed_closed e); [done|]. by apply (shell_ok_same _ e).
Qed.
Lemma editor_run_ok services ops e : Forall (λ top, tm_services (fst top) = services) ops → shell_ok services e → shell_ok services (fst (shell_run ops e)).
Proof.
  intros Hops. revert e. induction Hops as [|[t op] ops Hop _ IH]; intros e He; [done|]. cbn [shell_run].
  pose proof (shell_step_ok services t op e Hop He) as Hs. destruct (shell_step t op e) as [e1 ev]. specialize (IH e1 Hs). by destruct (shell_run ops e1).
Qed.

(** [write] lifts the line to print above it and paints an empty one: the text typed so far
    is gone from the editor. *)
Lemma write_drops_line text t e : tm_isTTY t = true →
  currentLine (fst (write_above text t e)) = [] ∧ ed_stashed (fst (write_above text t e)) = Some (currentLine e, es_cursor (ed_state e)).
Proof.
  intros Ht. unfold write_above, eraseInputLine. rewrite Ht. cbn [negb].
  match goal with |- context [paint true t ?x] => destruct (paint_only true t x) as (r & out & -> & _) end. done.
Qed.
End shell.

(** ** At concrete inputs *)

Definition demo_services : ServiceSource := mkServices [js "gmail"; js "mock_email"] [js "gmail"].
Definition typed (s : string) : KeyEvent := mkKey (Some s) false (js s) (js s).
Definition pressed (name : string) : KeyEvent := mkKey (Some name) false [] [].
Definition with_ctrl (name : string) : KeyEvent := mkKey (Some name) true [] [].
Definition demo_terminal : Terminal := mkTerminal true (Some 40) NoColor demo_services 0.

(** [:co], accepted twice, runs [:connect gmail]. *)
Example completion_runs :
  reduce_keys EMPTY_STATE [typed ":"; typed "c"; typed "o"; pressed "return"; pressed "return"] demo_services =
    (EMPTY_STATE, [Eff_none; Eff_none; Eff_none; Eff_none; Eff_submit (js ":connect gmail")]).
Proof. vm_compute. reflexivity. Qed.
(** Backspace takes a code unit: half of a character outside the basic plane is left, and
    goes out with the line. *)
Lemma backspace_splits_pair :
  reduce_keys EMPTY_STATE [mkKey None false [0xD83D; 0xDE00]%N [0xD83D; 0xDE00]%N; pressed "backspace"; pressed "return"] demo_services =
    (EMPTY_STATE, [Eff_none; Eff_none; Eff_submit [0xD83D%N]]).
Proof. vm_compute. reflexivity. Qed.

Definition demo_choices := confirmChoices (P := demo_platform) None 0 None.
Definition demo_chooser : EditorState := mkEditor [] 0 CLOSED_MENU false (Some (mkSelection demo_choices 0)).
Lemma reduceKey_keeps_editor_witness :
  editor_ok demo_services (fst (reduceKey (fst (reduceKey EMPTY_STATE (typed ":") demo_services)) (pressed "down") demo_services)).
Proof. apply reduceKey_keeps_editor, reduceKey_keeps_editor, empty_ok. Defined.
Lemma chooser_answers_witness :
  ∃ c, c ∈ offered None ∧ parseChoice (P := demo_platform) (js "1") None = Some c ∧ offered None !! 0%nat = Some c.
Proof.
  destruct (chooser_answers (P := demo_platform) None 0 None demo_services [typed "y"; pressed "return"] demo_chooser 0 (js "1")
    ltac:(split; reflexivity) ltac:(split; [lia|vm_compute; reflexivity]) ltac:(vm_compute; reflexivity)) as (c & H1 & H2 & H3).
  exists c. split; [exact H1|]. split; [exact H2|]. apply H3. apply Forall_cons; split; [vm_compute; reflexivity|]. apply Forall_cons; split; [vm_compute; reflexivity|constructor].
Defined.
Lemma lifted_line_returns_witness :
  currentLine (fst (restoreInput (Seg := code_point_segmenter) demo_terminal (fst (shell_run (P := demo_platform) (Seg := code_point_segmenter)
    [(demo_terminal, Op_beginSelection (js "?") demo_choices 0); (demo_terminal, Op_key (pressed "return"))]
    (fst (eraseInputLine demo_terminal (set_editor (mkEditor (js "hello") 2 CLOSED_MENU false None) new_editor))))))) = js "hello".
Proof.
  exact (proj1 (lifted_line_returns (P := demo_platform) (Seg := code_point_segmenter) demo_terminal demo_terminal
    [(demo_terminal, Op_beginSelection (js "?") demo_choices 0); (demo_terminal, Op_key (pressed "return"))]
    (set_editor (mkEditor (js "hello") 2 CLOSED_MENU false None) new_editor) eq_refl ltac:(repeat constructor))).
Defined.
