(* ===== verification/Prompt.v ===== *)
(** * The confirmation prompt

    [cli/src/render/prompt.ts]: the rows that show a held call, and the dialogue that drives
    it to a resolution. The client, the reader of answers and the presence gate are functions
    on a world of their own; what happens is a list of events. *)

From S2P Require Export LineEditor.
Open Scope Z_scope.

Definition MAX_NOUN : nat := 64.
Definition MAX_PARAM : nat := 160.
Definition MAX_KEY : nat := 40.
Definition MAX_DESC : nat := 400.
Definition MAX_GOAL : nat := 200.
Definition FLAG_TEXT : jsstr := 9888%N :: js " unusual value".

(** ** The rows of a held call *)

Section draw.
Context {Seg : Segmenter}.
Context (depth : ColorDepth) (width : Z).
Definition flag_when (b : bool) : option (jsstr * Z) :=
  if b then Some (colorize FLAG_TEXT Role_pending depth, displayWidth FLAG_TEXT) else None.
Definition writeActionLine (service verb rawNoun : jsstr) : list jsstr :=
  let chromePlain := service ++ middle_dot ++ verb in
  let noun := renderUntrusted (JStr rawNoun) MAX_NOUN in
  layoutField (mkField (js "    " ++ colorize chromePlain Role_habenula depth ++ middle_dot)
                 (displayWidth (js "    " ++ chromePlain ++ middle_dot)) (rd_text noun) 6
                 (flag_when (rd_altered noun || rd_truncated noun))) width.
Definition drawCommissionHeader (goal : option jsstr) : list jsstr :=
  (colorize (8593%N :: js " incoming") Role_incoming depth ++ 32%N :: colorize (0xB7%N :: js " commissioned by an external agent") Role_habenula depth) ::
  match goal with
  | None => []
  | Some goal =>
      let value := renderUntrusted (JStr goal) MAX_GOAL in
      layoutField (mkField (js "    goal: ") (displayWidth (js "    goal: ")) (rd_text value) 6 (flag_when (rd_altered value))) width
  end.
Definition habenulaLine (text : jsstr) : list jsstr := attribute Habenula text depth width.
Definition spend_line (text : jsstr) (indent : Z) : list jsstr := layoutField (mkField (pad indent) indent text (indent + 2) None) width.
Definition spend_reason_text (spend : SpendHoldContext) : jsstr :=
  let amount := match sc_amountCents spend with Some a => dollars a | None => js "money" end in
  match sc_reason spend with
  | unpriced =>
      colorize (js "This order spends money") Role_pending depth ++ js ", and its amount could not be read from the call, so it cannot be checked against your limits. Deny is the safe answer " ++ dash ++
      js " ask the agent to price the order again."
  | totals_unavailable =>
      colorize (js "This order spends " ++ amount) Role_pending depth ++
      js ", and your spending record could not be read, so it cannot be checked against your limits. Deny is the safe answer " ++ dash ++
      js " try again in a moment, or run `habenula cap` to see your limits and spending."
  | over_limit => colorize (js "This order spends " ++ amount) Role_pending depth ++ js "."
  end.
Definition breach_lines (amount : option Z) (b : SpendBreach) : list jsstr :=
  let window := match br_window b with W_session => js "this session" | W_month => js "this month" end in
  match amount with
  | Some amount =>
      let total := br_spentCents b + amount in
      spend_line (js "That would take your spending " ++ window ++ js " to " ++ dollars total ++ js ".") 6 ++
      spend_line (dollars (total - br_limitCents b) ++ js " over your " ++ dollars (br_limitCents b) ++ js " limit " ++ dash ++ js " " ++ dollars (br_spentCents b) ++ js " spent so far.") 6
  | None => spend_line (js "Your " ++ dollars (br_limitCents b) ++ js " limit for " ++ window ++ js " is already at " ++ dollars (br_spentCents b) ++ js ".") 6
  end.
Definition drawSpendBlock (spend : SpendHoldContext) : list jsstr :=
  match sc_summary spend with Some (c :: s) => spend_line (c :: s) 4 | _ => [] end ++
  spend_line (spend_reason_text spend) 4 ++
  match sc_reason spend with
  | over_limit =>
      (sc_breaches spend ≫= breach_lines (sc_amountCents spend)) ++
      spend_line (js "Amounts are counted when an order is placed, before the merchant's final charge.") 6
  | _ => []
  end.

Definition INTERNAL_PARAMS (spend : option SpendHoldContext) : list jsstr :=
  match spend with Some _ => [js "maxResults"; js "quoteId"; js "idempotencyKey"] | None => [js "maxResults"] end.
Definition param_rows (kv : jsstr * json) : list jsstr :=
  let k := renderUntrusted (JStr (fst kv)) MAX_KEY in
  let value := renderUntrusted (snd kv) MAX_PARAM in
  let prefix := js "      " ++ rd_text k ++ js ": " in
  layoutField (mkField prefix (displayWidth prefix) (rd_text value) 8
                 (flag_when (rd_altered k || rd_truncated k || rd_altered value || rd_truncated value))) width.
(** The parameters the prompt shows. *)
Definition shown_params (r : HeldCallRecord) : fields :=
  match hr_params r with
  | Some (JObj fs) => List.filter (λ kv, negb (bool_decide (fst kv ∈ INTERNAL_PARAMS (hr_spend r)))) fs
  | _ => []
  end.
Definition LEAD (spend : option SpendHoldContext) : jsstr :=
  match spend with Some _ => js "A tool call that SPENDS MONEY is awaiting your confirmation:" | None => js "A tool call is awaiting your confirmation:" end.
Definition drawPromptBody (r : HeldCallRecord) : list jsstr :=
  match hr_origin r with Some O_mcp_commission => drawCommissionHeader (hr_goal r) ++ [[]] | _ => [] end ++
  habenulaLine (LEAD (hr_spend r)) ++
  writeActionLine (hr_service r) (hr_verb r) (hr_noun r) ++
  match hr_spend r with Some spend => drawSpendBlock spend | None => [] end ++
  match shown_params r with [] => [] | fs => js "    requested with:" :: (fs ≫= param_rows) end.

Definition drawMetadata (m : ToolMetadata) : list jsstr :=
  habenulaLine (js "Tell me more:") ++
  writeActionLine (mt_service m) (mt_verb m) (mt_noun m) ++
  layoutField (mkField (js "    ") 4 (rd_text (clampSanitized (mt_description m) MAX_DESC)) 4 None) width.
Definition tool_rows (c : ToolCallRecord) : list jsstr :=
  habenulaLine (toolCallLine (tc_name c) (bool_decide (tc_outcome c = TC_error)) (tc_error c)).
Definition drawResumedTurn (result : ConversationLoopResult) : list jsstr :=
  (lp_toolCalls result ≫= tool_rows) ++
  match lp_response result with
  | [] => []
  | response => (match lp_toolCalls result with [] => [] | _ => [[]] end) ++ attribute Agent response depth width
  end.
Definition hint_rows (calls : list ToolCallRecord) : list jsstr := match postTurnHints calls with [] => [] | hints => [] :: hints end.
End draw.

(** ** The dialogue *)

(** What [client.resolve] answers, or throws. *)
Inductive ResolveAnswer :=
  | RA_info (metadata : ToolMetadata)
  | RA_resumed (result : ConversationLoopResult)
  | RA_api_error (status : Z) (message : jsstr)
  | RA_failure.
Inductive PromptEvent :=
  | PE_body (record : HeldCallRecord) (rows : list jsstr)
  | PE_answer (line : option jsstr)        (* a read, or its rejection *)
  | PE_presence (confirmed : bool)
  | PE_resolve (heldCallId : jsstr) (c : Turns.choice)
  | PE_rows (rows : list jsstr).
Inductive PromptEnd := End_returned | End_threw.

Record PromptClient {W : Type} := mkPromptClient {
  (* the arrow-key chooser, when the terminal has one *)
  pk_readSelection : option (jsstr → list SelectionChoice → Z → W → option jsstr * W);
  pk_readChoice : jsstr → W → option jsstr * W;
  pk_confirmPresence : W → bool * W;
  pk_resolve : jsstr → Turns.choice → W → ResolveAnswer * W;
  pk_getStatus : W → option StatusResponse * W;
}.
Arguments PromptClient : clear implicits.

Record PromptContext := mkContext { pc_record : HeldCallRecord; pc_session : option ActiveSessionView; pc_depth : ColorDepth; pc_now : Z }.
Definition with_record (r : HeldCallRecord) (session : option ActiveSessionView) (ctx : PromptContext) : PromptContext :=
  mkContext r session (pc_depth ctx) (pc_now ctx).
Definition find_held (id : jsstr) (status : StatusResponse) : option HeldCallRecord :=
  List.find (λ h, eqs (hr_heldCallId h) id) (st_heldRecords status).

Definition selectionPrompt (depth : ColorDepth) (count : nat) : jsstr :=
  colorize (js "Choose with " ++ [8593; 47; 8595]%N ++ js " then Enter (or press 1" ++ [8211%N] ++ dec (N.of_nat count) ++ js "):") Role_muted depth.
Definition choicePrompt (depth : ColorDepth) (count : nat) : jsstr :=
  js "Your choice [1-" ++ dec (N.of_nat count) ++ js "]: " ++ inputSgr depth.
Definition CHOOSE_AGAIN (spend : option SpendHoldContext) : jsstr :=
  match spend with Some _ => js "Please choose 1, 2, or 3." | None => js "Please choose 1, 2, 3, or 4." end.
Definition NOT_CONFIRMED : jsstr :=
  js "Approval not confirmed " ++ dash ++ js " Touch ID was cancelled or failed. The request is still waiting; choose again or Deny.".
Definition EXPIRED_LINE : jsstr := js "That confirmation has expired " ++ dash ++ js " ask again and I'll re-request it.".
Definition BUSY_LINE : jsstr := js "Another turn is in progress " ++ dash ++ js " try again in a moment; the request is still waiting.".
Definition ANOTHER_LINE : jsstr := js "Another tool call is awaiting confirmation " ++ dash ++ js " run `:status` to review it.".

(** What one pass of the loop comes to. *)
Inductive Pass := Pass_again (ctx : PromptContext) | Pass_end (e : PromptEnd).
(** What the read of a choice comes to: an answer, an unknown token, a rejected read, or
    no more fuel for another try. *)
Inductive Reading := Read_choice (c : Turns.choice) | Read_unknown | Read_cut | Read_fuel.

Section dialogue.
Context {P : Platform} {Seg : Segmenter} {W : Type}.
Context (client : PromptClient W) (width : Z).

(** The typed fallback: it asks again until the line is a choice. *)
Fixpoint read_typed (fuel : nat) (ctx : PromptContext) (count : nat) (w : W) : Reading * list PromptEvent * W :=
  match fuel with
  | O => (Read_fuel, [], w)
  | S fuel =>
      let '(line, w) := pk_readChoice client (choicePrompt (pc_depth ctx) count) w in
      match line with
      | None => (Read_cut, [PE_answer None], w)
      | Some text =>
          match parseChoice text (hr_spend (pc_record ctx)) with
          | Some c => (Read_choice c, [PE_answer (Some text)], w)
          | None =>
              let '(r, evs, w) := read_typed fuel ctx count w in
              (r, PE_answer (Some text) :: PE_rows (habenulaLine (pc_depth ctx) width (CHOOSE_AGAIN (hr_spend (pc_record ctx)))) :: evs, w)
          end
      end
  end.
Definition read_answer (fuel : nat) (ctx : PromptContext) (w : W) : Reading * list PromptEvent * W :=
  let spend := hr_spend (pc_record ctx) in
  let choices := confirmChoices (pc_session ctx) (pc_now ctx) spend in
  match pk_readSelection client with
  | Some select =>
      let '(line, w) := select (selectionPrompt (pc_depth ctx) (length choices)) choices 0 w in
      match line with
      | None => (Read_cut, [PE_answer None], w)
      | Some text => (match parseChoice text spend with Some c => Read_choice c | None => Read_unknown end, [PE_answer (Some text)], w)
      end
  | None =>
      let '(r, evs, w) := read_typed fuel ctx (length choices) w in
      (r, PE_rows (choiceLines (pc_session ctx) (pc_now ctx) (pc_depth ctx) spend) :: evs, w)
  end.

(** After an answer of the engine. *)
Definition say (ctx : PromptContext) (text : jsstr) : PromptEvent := PE_rows (habenulaLine (pc_depth ctx) width text).
Definition after_resumed (ctx : PromptContext) (result : ConversationLoopResult) (w : W) : Pass * list PromptEvent * W :=
  let drawn := PE_rows (drawResumedTurn (pc_depth ctx) width result) in
  match lp_held result with
  | None => (Pass_end End_returned, [drawn; PE_rows (hint_rows (lp_toolCalls result))], w)
  | Some cascade =>
      let '(status, w) := pk_getStatus client w in
      match status ≫= λ s, (λ r, (r, st_session s)) <$> find_held cascade s with
      | Some (r, session) => (Pass_again (with_record r session ctx), [drawn], w)
      | None => (Pass_end End_returned, [drawn; say ctx ANOTHER_LINE], w)
      end
  end.
Definition after_resolve (ctx : PromptContext) (answer : ResolveAnswer) (w : W) : Pass * list PromptEvent * W :=
  match answer with
  | RA_info m => (Pass_again ctx, [PE_rows (drawMetadata (pc_depth ctx) width m)], w)
  | RA_resumed result => after_resumed ctx result w
  | RA_api_error status message =>
      if status =? 404 then (Pass_end End_returned, [say ctx EXPIRED_LINE], w)
      else if status =? 400 then
        let said := say ctx (js "That answer doesn't apply to this request " ++ dash ++ js " " ++ message) in
        let '(status, w) := pk_getStatus client w in
        match status ≫= λ s, (λ r, (r, st_session s)) <$> find_held (hr_heldCallId (pc_record ctx)) s with
        | Some (r, session) => (Pass_again (with_record r session ctx), [said], w)
        | None => (Pass_again ctx, [said], w)
        end
      else if status =? 409 then (Pass_again ctx, [say ctx BUSY_LINE], w)
      else (Pass_end End_threw, [], w)
  | RA_failure => (Pass_end End_threw, [], w)
  end.
(** The presence gate before an affirmative answer, then the wire. *)
Definition send_choice (ctx : PromptContext) (c : Turns.choice) (w : W) : Pass * list PromptEvent * W :=
  let '(confirmed, gate, w) :=
    if affirmative c then let '(b, w) := pk_confirmPresence client w in (b, [PE_presence b], w) else (true, [], w) in
  if confirmed then
    let id := hr_heldCallId (pc_record ctx) in
    let '(answer, w) := pk_resolve client id c w in
    let '(next, evs, w) := after_resolve ctx answer w in
    (next, gate ++ PE_resolve id c :: evs, w)
  else (Pass_again ctx, gate ++ [say ctx NOT_CONFIRMED], w).
Definition prompt_pass (fuel : nat) (ctx : PromptContext) (w : W) : option Pass * list PromptEvent * W :=
  let body := PE_body (pc_record ctx) (drawPromptBody (pc_depth ctx) width (pc_record ctx) ++ [[]]) in
  let '(reading, reads, w) := read_answer fuel ctx w in
  match reading with
  | Read_cut => (Some (Pass_end End_returned), body :: reads, w)
  | Read_unknown => (Some (Pass_again ctx), body :: reads, w)
  | Read_fuel => (None, body :: reads, w)
  | Read_choice c =>
      let '(next, evs, w) := send_choice ctx c w in
      (Some next, body :: reads ++ evs, w)
  end.
Fixpoint renderPrompt (fuel : nat) (ctx : PromptContext) (w : W) : option PromptEnd * list PromptEvent * W :=
  match fuel with
  | O => (None, [], w)
  | S fuel =>
      let '(next, evs, w) := prompt_pass fuel ctx w in
      match next with
      | None => (None, evs, w)
      | Some (Pass_end e) => (Some e, evs, w)
      | Some (Pass_again ctx) =>
          let '(e, evs', w) := renderPrompt fuel ctx w in
          (e, evs ++ evs', w)
      end
  end.
End dialogue.
