(* ===== verification/PromptFacts.v ===== *)
(** * What is sent is what was shown and chosen

    Every resolution the prompt sends is for the call it last drew, carries the choice the
    last answer stands for, and, when it lets the call run, follows a confirmed presence. *)

From S2P Require Export Prompt EditorFacts.
Open Scope Z_scope.

(** What the user last saw and did. *)
Record Seen := mkSeen { sn_body : option (HeldCallRecord * list jsstr); sn_line : option jsstr; sn_present : bool }.
Definition NOTHING_SEEN : Seen := mkSeen None None false.
Definition see (s : Seen) (ev : PromptEvent) : Seen :=
  match ev with
  | PE_body r rows => mkSeen (Some (r, rows)) None false
  | PE_answer line => mkSeen (sn_body s) line false
  | PE_presence b => mkSeen (sn_body s) (sn_line s) b
  | PE_resolve _ _ => NOTHING_SEEN
  | PE_rows _ => s
  end.

Section facts.
Context {P : Platform} {Seg : Segmenter} {W : Type}.
Context (client : PromptClient W) (width : Z).

(** A resolution that the seen justifies. *)
Definition justified (depth : ColorDepth) (s : Seen) (id : jsstr) (c : Turns.choice) : Prop :=
  ∃ r line, sn_body s = Some (r, drawPromptBody depth width r ++ [[]]) ∧ hr_heldCallId r = id ∧
    sn_line s = Some line ∧ parseChoice line (hr_spend r) = Some c ∧ (affirmative c = true → sn_present s = true).
Fixpoint sound (depth : ColorDepth) (s : Seen) (evs : list PromptEvent) : Prop :=
  match evs with
  | [] => True
  | ev :: evs => match ev with PE_resolve id c => justified depth s id c | _ => True end ∧ sound depth (see s ev) evs
  end.
Lemma sound_app depth s a b : sound depth s (a ++ b) ↔ sound depth s a ∧ sound depth (foldl see s a) b.
Proof. revert s. induction a as [|ev a IH]; intros s; simpl; [naive_solver|]. rewrite IH. naive_solver. Qed.
Lemma sound_rows depth s evs : Forall (λ ev, match ev with PE_rows _ => True | _ => False end) evs → sound depth s evs.
Proof. intros H. revert s. induction H as [|ev evs Hev _ IH]; intros s; [done|]. by destruct ev. Qed.

Lemma read_typed_sound fuel ctx count w s : let '(r, evs, _) := read_typed client width fuel ctx count w in
  sound (pc_depth ctx) s evs ∧ ∀ c, r = Read_choice c →
    ∃ line, foldl see s evs = mkSeen (sn_body s) (Some line) false ∧ parseChoice line (hr_spend (pc_record ctx)) = Some c.
Proof.
  revert w s. induction fuel as [|fuel IH]; intros w s; [done|]. cbn [read_typed]. destruct (pk_readChoice client _ w) as [[line|] w1]; [|done].
  destruct (parseChoice line _) as [c|] eqn:Ec; [split; [done|]; intros ? [= <-]; by exists line|].
  specialize (IH w1 (mkSeen (sn_body s) (Some line) false)). destruct (read_typed client width fuel ctx count w1) as [[r evs] w2].
  destruct IH as [H1 H2]. split; [done|]. intros c Hc. apply (H2 c Hc).
Qed.
Lemma read_answer_sound fuel ctx w s : let '(r, evs, _) := read_answer client width fuel ctx w in
  sound (pc_depth ctx) s evs ∧ ∀ c, r = Read_choice c →
    ∃ line, foldl see s evs = mkSeen (sn_body s) (Some line) false ∧ parseChoice line (hr_spend (pc_record ctx)) = Some c.
Proof.
  unfold read_answer. destruct (pk_readSelection client) as [select|].
  - destruct (select _ _ _ w) as [[line|] w1]; [|done]. split; [done|]. intros c.
    destruct (parseChoice line _) as [c'|] eqn:Ec; [|done]. intros [= <-]. by exists line.
  - pose proof (read_typed_sound fuel ctx (length (confirmChoices (pc_session ctx) (pc_now ctx) (hr_spend (pc_record ctx)))) w s) as Hr.
    destruct (read_typed client width fuel ctx _ w) as [[r evs] w1]. destruct Hr as [H1 H2]. split; [by split|exact H2].
Qed.
Lemma after_resolve_sound ctx answer w s : let '(next, evs, _) := after_resolve client width ctx answer w in
  sound (pc_depth ctx) s evs ∧ ∀ ctx', next = Pass_again ctx' → pc_depth ctx' = pc_depth ctx.
Proof.
  assert (∀ evs ctx0 w0, Forall (λ ev, match ev with PE_rows _ => True | _ => False end) evs → pc_depth ctx0 = pc_depth ctx →
    let '(next, evs', _) := (Pass_again ctx0, evs, w0 : W) in sound (pc_depth ctx) s evs' ∧ ∀ ctx', next = Pass_again ctx' → pc_depth ctx' = pc_depth ctx) as Hagain.
  { intros evs ctx0 w0 Hrows Hd. split; [by apply sound_rows|]. by intros ctx' [= <-]. }
  assert (∀ evs e w0, Forall (λ ev, match ev with PE_rows _ => True | _ => False end) evs →
    let '(next, evs', _) := (Pass_end e, evs, w0 : W) in sound (pc_depth ctx) s evs' ∧ ∀ ctx', next = Pass_again ctx' → pc_depth ctx' = pc_depth ctx) as Hend.
  { intros evs e w0 Hrows. split; [by apply sound_rows|done]. }
  unfold after_resolve. destruct answer as [m|result|status message|].
  - by apply Hagain; repeat constructor.
  - unfold after_resumed. destruct (lp_held result); [|by apply Hend; repeat constructor]. destruct (pk_getStatus client w) as [st w1].
    destruct (st ≫= _) as [[r session]|]; [by apply Hagain; repeat constructor|by apply Hend; repeat constructor].
  - destruct (status =? 404); [by apply Hend; repeat constructor|].
    destruct (status =? 400); [|destruct (status =? 409); [by apply Hagain; repeat constructor|by apply Hend; repeat constructor]].
    destruct (pk_getStatus client w) as [st w1]. destruct (st ≫= _) as [[r session]|]; by apply Hagain; repeat constructor.
  - by apply Hend; repeat constructor.
Qed.
Lemma send_choice_sound ctx c w s line :
  sn_body s = Some (pc_record ctx, drawPromptBody (pc_depth ctx) width (pc_record ctx) ++ [[]]) → sn_line s = Some line →
  parseChoice line (hr_spend (pc_record ctx)) = Some c →
  let '(next, evs, _) := send_choice client width ctx c w in
  sound (pc_depth ctx) s evs ∧ ∀ ctx', next = Pass_again ctx' → pc_depth ctx' = pc_depth ctx.
Proof.
  intros Hb Hl Hc. unfold send_choice.
  assert (∀ (gate : list PromptEvent) w, gate = [] ∧ affirmative c = false ∨ gate = [PE_presence true] →
    let '(next, evs, _) := (let '(answer, w0) := pk_resolve client (hr_heldCallId (pc_record ctx)) c w in
      let '(next, evs, w1) := after_resolve client width ctx answer w0 in (next, gate ++ PE_resolve (hr_heldCallId (pc_record ctx)) c :: evs, w1)) in
    sound (pc_depth ctx) s evs ∧ ∀ ctx', next = Pass_again ctx' → pc_depth ctx' = pc_depth ctx) as Hsend.
  { intros gate w0 Hg. destruct (pk_resolve client _ c w0) as [answer w1]. pose proof (after_resolve_sound ctx answer w1 NOTHING_SEEN) as Ha.
    destruct (after_resolve client width ctx answer w1) as [[next evs] w2]. destruct Ha as [Ha Hd]. split; [|done].
    destruct Hg as [[-> Hn] | ->]; simpl; (split_and!; [..|done]); try done; exists (pc_record ctx), line; simpl; split_and!; try done. by rewrite Hn. }
  destruct (affirmative c) eqn:Ea.
  - destruct (pk_confirmPresence client w) as [[] w1]; [apply Hsend; auto|]. split; [done|]. by intros ctx' [= <-].
  - apply Hsend. auto.
Qed.
Lemma prompt_pass_sound fuel ctx w s : let '(next, evs, _) := prompt_pass client width fuel ctx w in
  sound (pc_depth ctx) s evs ∧ ∀ ctx', next = Some (Pass_again ctx') → pc_depth ctx' = pc_depth ctx.
Proof.
  unfold prompt_pass. set (rows := drawPromptBody _ _ _ ++ [[]]).
  pose proof (read_answer_sound fuel ctx w (mkSeen (Some (pc_record ctx, rows)) None false)) as Hr.
  destruct (read_answer client width fuel ctx w) as [[r reads] w1]. destruct Hr as [Hr Hc]. destruct r as [c| | |]; [|split; simpl; [done|by intros ? [= <-]]..|done].
  destruct (Hc c eq_refl) as (line & Hs & Hp).
  pose proof (send_choice_sound ctx c w1 (mkSeen (Some (pc_record ctx, rows)) (Some line) false) line eq_refl eq_refl Hp) as Hsend.
  destruct (send_choice client width ctx c w1) as [[next evs] w2]. destruct Hsend as [H1 H2]. split; [|by intros ctx' [= ->]; apply H2].
  simpl. split; [done|]. apply sound_app. split; [done|]. by rewrite Hs.
Qed.
Lemma renderPrompt_sound fuel ctx w s : sound (pc_depth ctx) s (snd (fst (renderPrompt client width fuel ctx w))).
Proof.
  revert ctx w s. induction fuel as [|fuel IH]; intros ctx w s; [done|]. cbn [renderPrompt].
  pose proof (prompt_pass_sound fuel ctx w s) as Hp. destruct (prompt_pass client width fuel ctx w) as [[next evs] w1]. destruct Hp as [Hp Hd].
  destruct next as [[ctx'|e]|]; [|done..]. specialize (IH ctx' w1 (foldl see s evs)). rewrite (Hd ctx' eq_refl) in IH.
  destruct (renderPrompt client width fuel ctx' w1) as [[e evs'] w2]. apply sound_app. done.
Qed.

(** What is sent is what was shown and chosen. Whatever the client and the user do, each
    resolution the prompt sends names the call whose rows were drawn last, with the choice
    that the last line read stands for on that call; when the choice lets the call run, the
    presence gate said yes to it since; and each takes a drawing, a line and a confirmation
    of its own. *)
Theorem prompt_sends_confirmed fuel ctx w a id c b :
  snd (fst (renderPrompt client width fuel ctx w)) = a ++ PE_resolve id c :: b →
  ∃ r line, foldl see NOTHING_SEEN a = mkSeen (Some (r, drawPromptBody (pc_depth ctx) width r ++ [[]])) (Some line) (sn_present (foldl see NOTHING_SEEN a)) ∧
    hr_heldCallId r = id ∧ parseChoice line (hr_spend r) = Some c ∧
    (affirmative c = true → sn_present (foldl see NOTHING_SEEN a) = true ∧ (c = Ch_approve_once ↔ hr_spend r ≠ None)).
Proof.
  intros E. pose proof (renderPrompt_sound fuel ctx w NOTHING_SEEN) as Hs. rewrite E in Hs. apply sound_app in Hs as [_ [Hj _]].
  destruct Hj as (r & line & H1 & H2 & H3 & H4 & H5). exists r, line. destruct (foldl see NOTHING_SEEN a) as [body l present]. simpl in *. subst.
  split_and!; [done..|]. intros Ha. split; [by apply H5|by eapply spend_answers].
Qed.

(** A rejected read ends the prompt with nothing more sent. *)
Lemma cut_ends_prompt fuel ctx w select w' : pk_readSelection client = Some select →
  select (selectionPrompt (pc_depth ctx) (length (confirmChoices (pc_session ctx) (pc_now ctx) (hr_spend (pc_record ctx)))))
    (confirmChoices (pc_session ctx) (pc_now ctx) (hr_spend (pc_record ctx))) 0 w = (None, w') →
  renderPrompt client width (S fuel) ctx w =
    (Some End_returned, [PE_body (pc_record ctx) (drawPromptBody (pc_depth ctx) width (pc_record ctx) ++ [[]]); PE_answer None], w').
Proof. intros Hsel Hcut. cbn [renderPrompt]. unfold prompt_pass, read_answer. by rewrite Hsel, Hcut. Qed.
End facts.
