(* ===== verification/Repl.v ===== *)
(** * The interactive session

    [ReplController] and the Ctrl-C routing of [cli/src/commands/chat.ts], over the raw line
    editor, and the proactive poll of [cli/src/poll.ts] with its latch. Promises are the
    waiters they settle: an operation returns what it hands to whom. *)

From S2P Require Export Prompt.
Open Scope Z_scope.

(** ** The controller and its editor *)

Record Repl := mkRepl {
  rl_editor : RawLineEditor;
  rl_idle : bool;                  (* [idleWaiter] is set *)
  rl_choice : bool;                (* [choiceWaiter] is set *)
  rl_closed : bool;
  rl_restingPrompt : option jsstr;
  rl_pendingCancel : bool;         (* [pendingCancel.abort] is parked *)
  rl_inFlight : bool;              (* [dispatch.inFlight] *)
}.
Inductive Delivery :=
  | Dl_idle (line : jsstr) | Dl_idle_closed
  | Dl_choice (line : jsstr) | Dl_choice_closed | Dl_choice_cancelled
  | Dl_abort | Dl_turn_in_progress.

Definition set_line_editor (e : RawLineEditor) (r : Repl) : Repl :=
  mkRepl e (rl_idle r) (rl_choice r) (rl_closed r) (rl_restingPrompt r) (rl_pendingCancel r) (rl_inFlight r).
Definition set_waiters (idle choice : bool) (r : Repl) : Repl :=
  mkRepl (rl_editor r) idle choice (rl_closed r) (rl_restingPrompt r) (rl_pendingCancel r) (rl_inFlight r).
Definition set_resting (prompt : jsstr) (r : Repl) : Repl :=
  mkRepl (rl_editor r) (rl_idle r) (rl_choice r) (rl_closed r) (Some prompt) (rl_pendingCancel r) (rl_inFlight r).
Definition mark_closed (r : Repl) : Repl :=
  mkRepl (rl_editor r) false false true (rl_restingPrompt r) (rl_pendingCancel r) (rl_inFlight r).
Definition set_inFlight (b : bool) (r : Repl) : Repl :=
  mkRepl (rl_editor r) (rl_idle r) (rl_choice r) (rl_closed r) (rl_restingPrompt r) (rl_pendingCancel r) b.
Definition set_pendingCancel (b : bool) (r : Repl) : Repl :=
  mkRepl (rl_editor r) (rl_idle r) (rl_choice r) (rl_closed r) (rl_restingPrompt r) b (rl_inFlight r).

Definition route (line : jsstr) (r : Repl) : Repl * list Delivery :=
  if rl_choice r then (set_waiters (rl_idle r) false r, [Dl_choice line])
  else if rl_idle r then (set_waiters false false r, [Dl_idle line])
  else (r, []).
Definition on_close (r : Repl) : Repl * list Delivery :=
  (mark_closed r, (if rl_idle r then [Dl_idle_closed] else []) ++ (if rl_choice r then [Dl_choice_closed] else [])).
Definition restoreRestingPrompt (r : Repl) : Repl :=
  match rl_restingPrompt r with Some prompt => set_line_editor (setPrompt prompt (rl_editor r)) r | None => r end.
Definition cancelChoice (r : Repl) : option (Repl * list Delivery) :=
  if rl_choice r then Some (restoreRestingPrompt (set_waiters (rl_idle r) false r), [Dl_choice_cancelled]) else None.

Section repl.
Context {P : Platform} {Seg : Segmenter}.
(** [rl.close()]: it reaches the controller once. *)
Definition close_repl (t : Terminal) (r : Repl) : Repl * list Delivery :=
  let '(e, evs) := close_editor t (rl_editor r) in
  match evs with [] => (set_line_editor e r, []) | _ => on_close (set_line_editor e r) end.
Definition on_sigint (t : Terminal) (r : Repl) : Repl * list Delivery :=
  if rl_pendingCancel r then (r, [Dl_abort])
  else
    match cancelChoice r with
    | Some res => res
    | None => if rl_inFlight r then (r, [Dl_turn_in_progress]) else close_repl t r
    end.
Definition on_event (t : Terminal) (ev : EditorEvent) (r : Repl) : Repl * list Delivery :=
  match ev with
  | Ev_line line => route line r
  | Ev_close => on_close r
  | Ev_sigint => on_sigint t r
  | Ev_write _ | Ev_rawMode _ => (r, [])
  end.
Fixpoint on_events (t : Terminal) (evs : list EditorEvent) (r : Repl) : Repl * list Delivery :=
  match evs with
  | [] => (r, [])
  | ev :: evs =>
      let '(r, d) := on_event t ev r in
      let '(r, ds) := on_events t evs r in
      (r, d ++ ds)
  end.
(** A call of the editor, and the callbacks it makes. *)
Definition with_editor (op : RawLineEditor → RawLineEditor * list EditorEvent) (t : Terminal) (r : Repl) : Repl * list Delivery :=
  let '(e, evs) := op (rl_editor r) in on_events t evs (set_line_editor e r).

Definition press (key : KeyEvent) (t : Terminal) : Repl → Repl * list Delivery := with_editor (onKeypress key t) t.
(** The reads; [None] when the promise is already rejected. *)
Definition nextIdleLine (prompt : jsstr) (t : Terminal) (r : Repl) : option Repl :=
  if rl_closed r then None
  else
    let r := set_resting prompt r in
    let r := set_line_editor (fst (showPrompt t (setPrompt prompt (rl_editor r)))) r in
    Some (set_waiters true (rl_choice r) r).
Definition nextChoiceLine (prompt : jsstr) (t : Terminal) (r : Repl) : option Repl :=
  if rl_closed r then None
  else
    let r := set_line_editor (fst (showPrompt t (setPrompt prompt (rl_editor r)))) r in
    Some (set_waiters (rl_idle r) true r).
Definition nextChoiceSelection (prompt : jsstr) (choices : list SelectionChoice) (defaultIndex : Z) (t : Terminal) (r : Repl) : option Repl :=
  if rl_closed r then None
  else
    let r := set_line_editor (fst (beginSelection prompt choices defaultIndex t (rl_editor r))) r in
    Some (set_waiters (rl_idle r) true r).
Fixpoint press_all (keys : list KeyEvent) (t : Terminal) (r : Repl) : Repl * list Delivery :=
  match keys with
  | [] => (r, [])
  | key :: keys =>
      let '(r, d) := press key t r in
      let '(r, ds) := press_all keys t r in
      (r, d ++ ds)
  end.

(** ** The poll *)

Definition RENDER_FAILURE_COOLDOWN_TICKS : nat := 3.
Definition latch_busy (latch : option jsstr) : bool := match latch with Some _ => true | None => false end.
Definition tryAcquire (id : jsstr) (latch : option jsstr) : option (option jsstr) := if latch_busy latch then None else Some (Some id).
Definition release (id : jsstr) (latch : option jsstr) : option jsstr := if bool_decide (latch = Some id) then None else latch.

(** The session with its latch. *)
Record Surface := mkSurface { su_repl : Repl; su_latch : option jsstr }.
Definition on_repl (f : RawLineEditor → RawLineEditor * list EditorEvent) (s : Surface) : Surface :=
  mkSurface (set_line_editor (fst (f (rl_editor (su_repl s)))) (su_repl s)) (su_latch s).
Definition set_latch (latch : option jsstr) (s : Surface) : Surface := mkSurface (su_repl s) latch.

(** What a tick came to. *)
Inductive Tick := Tick_skipped | Tick_rendered (r : HeldCallRecord) | Tick_status_failed | Tick_render_failed (r : HeldCallRecord).
Notation cooldowns := (gmap jsstr nat).
(** [for (const [id, ticks] of cooldown) ...]. *)
Definition age (cooldown : cooldowns) : cooldowns := omap (λ ticks, if (ticks <=? 1)%nat then None else Some (ticks - 1)%nat) cooldown.

(** The two awaits: what the session has become, and what they return. *)
Record PollDeps := mkPollDeps {
  pl_getStatus : Surface → option StatusResponse * Surface;
  pl_renderHeld : HeldCallRecord → Surface → bool * Surface;
}.
Definition pollTick (deps : PollDeps) (t : Terminal) (cooldown : cooldowns) (s : Surface) : Tick * cooldowns * Surface :=
  if latch_busy (su_latch s) then (Tick_skipped, cooldown, s)
  else
    let '(status, s) := pl_getStatus deps s in
    match status with
    | None => (Tick_status_failed, cooldown, s)
    | Some status =>
        let s := on_repl (setStatus status t) s in
        match List.find (λ h, negb (bool_decide (is_Some (cooldown !! hr_heldCallId h)))) (st_heldRecords status) with
        | None => (Tick_skipped, cooldown, s)
        | Some held =>
            let id := hr_heldCallId held in
            match tryAcquire id (su_latch s) with
            | None => (Tick_skipped, cooldown, s)
            | Some latch =>
                let s := set_latch latch s in
                if deferPoll (rl_editor (su_repl s)) then (Tick_skipped, cooldown, set_latch (release id (su_latch s)) s)
                else
                  let s := on_repl (eraseInputLine t) s in
                  let '(ok, s) := pl_renderHeld deps held s in
                  let s := on_repl (restoreInput t) s in
                  let s := set_latch (release id (su_latch s)) s in
                  if ok then (Tick_rendered held, cooldown, s)
                  else (Tick_render_failed held, <[id := RENDER_FAILURE_COOLDOWN_TICKS]> cooldown, s)
            end
        end
    end.
(** One round of [startPoll]; a paused one reads nothing and ages nothing. *)
Definition poll_round (deps : PollDeps) (t : Terminal) (paused : bool) (cooldown : cooldowns) (s : Surface) : Tick * cooldowns * Surface :=
  if paused then (Tick_skipped, cooldown, s) else pollTick deps t (age cooldown) s.
End repl.

(** ** The latch *)

(** Who may open a prompt: the poll and the turn of the user, each between its await and its
    release. *)
Record PromptLatch := mkLatch { pt_active : option jsstr; pt_poll : option jsstr; pt_turn : option jsstr }.
Inductive latch_step : PromptLatch → PromptLatch → Prop :=
  | latch_poll_opens l id latch : pt_poll l = None → tryAcquire id (pt_active l) = Some latch → latch_step l (mkLatch latch (Some id) (pt_turn l))
  | latch_poll_ends l id : pt_poll l = Some id → latch_step l (mkLatch (release id (pt_active l)) None (pt_turn l))
  | latch_turn_opens l id latch : pt_turn l = None → tryAcquire id (pt_active l) = Some latch → latch_step l (mkLatch latch (pt_poll l) (Some id))
  | latch_turn_ends l id : pt_turn l = Some id → latch_step l (mkLatch (release id (pt_active l)) (pt_poll l) None).
