(* ===== verification/ReplFacts.v ===== *)
(** * What the session guarantees

    A poll that draws a confirmation gives the line back and frees the latch; one prompt is
    open at a time; two runs in which the session loses what the user types; and the front
    end at concrete inputs. *)

From S2P Require Export Repl PromptFacts.
Open Scope Z_scope.

Section poll.
Context {P : Platform} {Seg : Segmenter}.

(** A confirmation uses the editor through the calls that leave the set-aside line, and
    leaves the latch to the tick that took it. *)
Class TidyRender (deps : PollDeps) : Prop := {
  render_editor : ∀ held s, ∃ ops, Forall (λ top, keeps_stash (snd top) = true) ops ∧
    rl_editor (su_repl (snd (pl_renderHeld deps held s))) = fst (shell_run ops (rl_editor (su_repl s)));
  render_latch : ∀ held s, su_latch (snd (pl_renderHeld deps held s)) = su_latch s;
}.

Definition same_line (e e' : RawLineEditor) : Prop := currentLine e' = currentLine e ∧ es_cursor (ed_state e') = es_cursor (ed_state e).
Lemma on_repl_editor f s : rl_editor (su_repl (on_repl f s)) = fst (f (rl_editor (su_repl s))).
Proof. done. Qed.
Lemma setStatus_line status t e : same_line e (fst (setStatus status t e)).
Proof. destruct (setStatus_keeps status t e) as [E _]. unfold same_line, currentLine. by rewrite E. Qed.
Lemma release_own id : release id (Some id) = None.
Proof. unfold release. by rewrite bool_decide_true. Qed.

(** A tick of the poll, on every branch. Seen from what the session was when the status
    came back, the text, the cursor and the latch are the same afterwards; a tick that drew
    a confirmation, or failed to, leaves no chooser and no set-aside line behind, and only a
    failed drawing is put in cooldown. *)
Theorem poll_tick_tidy deps `{TidyRender deps} t cooldown s : tm_isTTY t = true → su_latch s = None →
  let '(tick, cooldown', s') := pollTick deps t cooldown s in
  let s1 := snd (pl_getStatus deps s) in
  same_line (rl_editor (su_repl s1)) (rl_editor (su_repl s')) ∧ su_latch s' = su_latch s1 ∧
  cooldown' = match tick with Tick_render_failed r => <[hr_heldCallId r := RENDER_FAILURE_COOLDOWN_TICKS]> cooldown | _ => cooldown end ∧
  match tick with
  | Tick_rendered _ | Tick_render_failed _ => es_selection (ed_state (rl_editor (su_repl s'))) = None ∧ ed_stashed (rl_editor (su_repl s')) = None ∧ su_latch s1 = None
  | _ => True
  end.
Proof.
  intros Ht Hl. unfold pollTick. rewrite Hl. cbn [latch_busy]. destruct (pl_getStatus deps s) as [[status|] s1]; [|done]. cbn [snd].
  set (s2 := on_repl (setStatus status t) s1). assert (same_line (rl_editor (su_repl s1)) (rl_editor (su_repl s2))) as H12 by apply setStatus_line.
  destruct (List.find _ _) as [held|]; [|done]. unfold tryAcquire. change (su_latch s2) with (su_latch s1).
  destruct (su_latch s1) as [other|] eqn:Hl1; cbn [latch_busy]; [done|]. cbn [su_repl set_latch su_latch].
  destruct (deferPoll _); [rewrite release_own; done|].
  match goal with |- context [pl_renderHeld deps held ?x] => set (s3 := x) end.
  pose proof (render_editor held s3) as (ops & Hops & He). pose proof (render_latch held s3) as Hr.
  destruct (pl_renderHeld deps held s3) as [ok s4]. cbn [snd] in *.
  assert (same_line (rl_editor (su_repl s1)) (fst (restoreInput t (rl_editor (su_repl s4)))) ∧
    es_selection (ed_state (fst (restoreInput t (rl_editor (su_repl s4))))) = None ∧ ed_stashed (fst (restoreInput t (rl_editor (su_repl s4)))) = None) as (Hb1 & Hb2 & Hb3).
  { rewrite He. destruct (lifted_line_returns t t ops (rl_editor (su_repl s2)) Ht Hops) as (H1 & H2 & H3 & _ & _ & H4).
    destruct H12 as [H5 H6]. split_and!; [|done..]. split; [by etransitivity|by etransitivity]. }
  unfold on_repl, set_latch. cbn [su_repl su_latch]. rewrite Hr. cbn [su_latch s3 on_repl]. rewrite release_own. by destruct ok.
Qed.

(** ** Cooldowns *)

Lemma age_lookup cooldown id : age cooldown !! id = ticks ← cooldown !! id; if (ticks <=? 1)%nat then None else Some (ticks - 1)%nat.
Proof. unfold age. by rewrite lookup_omap. Qed.
(** A failed drawing is skipped for two rounds, not for the three of the constant: each
    round ages before it looks. *)
Lemma failed_render_skips_two cooldown id :
  let failed := <[id := RENDER_FAILURE_COOLDOWN_TICKS]> cooldown in
  is_Some (age failed !! id) ∧ is_Some (age (age failed) !! id) ∧ age (age (age failed)) !! id = None.
Proof. simpl. rewrite !age_lookup, lookup_insert_eq. simpl. eauto. Qed.

(** ** The latch *)

Definition latch_ok (l : PromptLatch) : Prop :=
  match pt_poll l, pt_turn l with
  | Some _, Some _ => False
  | Some id, None | None, Some id => pt_active l = Some id
  | None, None => pt_active l = None
  end.
Lemma latch_step_ok l l' : latch_ok l → latch_step l l' → latch_ok l'.
Proof.
  unfold latch_ok. intros Hl Hs. destruct Hs as [l id latch Hp Ha|l id Hp|l id latch Hp Ha|l id Hp]; rewrite Hp in Hl; simpl.
  - unfold tryAcquire in Ha. destruct (pt_active l) eqn:E; [done|]. injection Ha as <-. by destruct (pt_turn l).
  - destruct (pt_turn l); [done|]. by rewrite Hl, release_own.
  - unfold tryAcquire in Ha. destruct (pt_active l) eqn:E; [done|]. injection Ha as <-. by destruct (pt_poll l).
  - destruct (pt_poll l); [done|]. by rewrite Hl, release_own.
Qed.
(** One prompt at a time, in any order of the poll and of the user's turns. *)
Lemma one_prompt_at_a_time l : rtc latch_step (mkLatch None None None) l → latch_ok l.
Proof.
  intros Hr. remember (mkLatch None None None) as l0 eqn:E. assert (latch_ok l0) as H0 by by rewrite E.
  clear E. induction Hr as [|l1 l2 l3 Hs _ IH]; [done|]. apply IH. by eapply latch_step_ok.
Qed.

(** ** A dismissed chooser stays *)

Lemma showPrompt_reads t e : ed_reading (fst (showPrompt t e)) = true ∧ ed_closed (fst (showPrompt t e)) = ed_closed e.
Proof.
  unfold showPrompt, ensureStarted. destruct (ed_started e);
    match goal with |- context [paint true t ?x] => destruct (paint_only true t x) as (row & out & -> & _) end; done.
Qed.
(** Enter, on an open chooser with a read outstanding: the token of the highlighted choice. *)
Lemma chooser_enter t e sel key :
  es_selection (ed_state e) = Some sel → ed_reading e = true → ed_closed e = false →
  is_marker key = false → enter_key key = true → key_ctrl key = false → named key ["up"; "down"; "tab"]%string = false →
  ∃ out, onKeypress key t e = (set_reading false (set_row 0 (set_editor EMPTY_STATE e)), out ++ [Ev_line (highlighted_token sel)]) ∧
    ∀ ev, ev ∈ out → match ev with Ev_write _ => True | _ => False end.
Proof.
  intros Hsel Hr Hc Hm He Hctrl Hn. unfold onKeypress. rewrite Hc, Hr. cbn [negb]. unfold reduceKey.
  apply orb_false_iff in Hm as [-> ->]. rewrite Hsel. unfold reduceSelection, ctrl_key. rewrite Hctrl. cbn [andb].
  rewrite (named_split key "up" "down" ["tab"%string]) in Hn. apply orb_false_iff in Hn as [-> ->]. unfold enter_key in He. rewrite He.
  unfold finalizeSubmit. eexists. split; [done|]. intros ev. destruct (tm_isTTY t); [by intros ->%list_elem_of_singleton|by intros ?%not_elem_of_nil].
Qed.
Lemma on_writes t out evs r : (∀ ev, ev ∈ out → match ev with Ev_write _ => True | _ => False end) → on_events t (out ++ evs) r = on_events t evs r.
Proof.
  induction out as [|ev out IH]; intros Ho; [done|]. cbn [app on_events]. assert (on_event t ev r = (r, [])) as ->.
  { specialize (Ho ev). by destruct ev; try destruct (Ho ltac:(by left)). }
  rewrite IH by (intros; apply Ho; by right). by destruct (on_events t evs r).
Qed.
(** Ctrl-C rejects the choice and puts the idle prompt's text back, and leaves the chooser
    in the editor: at the idle prompt that follows, Enter hands the idle reader the token of
    the highlighted choice, and no text can be typed. *)
Lemma dismissed_chooser_stays t r sel prompt key :
  es_selection (ed_state (rl_editor r)) = Some sel → ed_reading (rl_editor r) = true → ed_closed (rl_editor r) = false →
  rl_choice r = true → rl_idle r = false → rl_pendingCancel r = false → rl_closed r = false →
  is_marker key = false → enter_key key = true → key_ctrl key = false → named key ["up"; "down"; "tab"]%string = false →
  ∃ r1 r2 r3,
    press (with_ctrl "c") t r = (r1, [Dl_choice_cancelled]) ∧
    nextIdleLine prompt t r1 = Some r2 ∧ es_selection (ed_state (rl_editor r2)) = Some sel ∧
    press key t r2 = (r3, [Dl_idle (highlighted_token sel)]).
Proof.
  intros Hsel Hread Hopen Hc Hi Hp Hcl Hseq Hent Hctrl Hn.
  set (r1 := restoreRestingPrompt (set_waiters false false (set_line_editor (set_editor (ed_state (rl_editor r)) (rl_editor r)) r))).
  assert (press (with_ctrl "c") t r = (r1, [Dl_choice_cancelled])) as H1.
  { unfold press, with_editor, onKeypress. rewrite Hopen, Hread. cbn [negb]. unfold reduceKey. rewrite Hsel. simpl.
    unfold on_sigint. simpl. rewrite Hp. unfold cancelChoice. simpl. by rewrite Hc, Hi. }
  assert (ed_state (rl_editor r1) = ed_state (rl_editor r) ∧ rl_closed r1 = false ∧ rl_choice r1 = false ∧ ed_closed (rl_editor r1) = false) as (E1 & E2 & E3 & E4).
  { unfold r1, restoreRestingPrompt. simpl. destruct (rl_restingPrompt r); simpl; by rewrite ?Hcl. }
  set (e2 := fst (showPrompt t (setPrompt prompt (rl_editor (set_resting prompt r1))))).
  destruct (showPrompt_keeps t (setPrompt prompt (rl_editor (set_resting prompt r1)))) as [F1 _].
  destruct (showPrompt_reads t (setPrompt prompt (rl_editor (set_resting prompt r1)))) as [F2 F3]. fold e2 in F1, F2, F3.
  set (r2 := set_waiters true false (set_line_editor e2 (set_resting prompt r1))).
  assert (es_selection (ed_state e2) = Some sel) as Hsel2 by (rewrite F1; simpl; by rewrite E1).
  destruct (chooser_enter t e2 sel key Hsel2 F2 ltac:(rewrite F3; exact E4) Hseq Hent Hctrl Hn) as (out & Ek & Hout).
  eexists r1, r2, _. split; [exact H1|]. split; [unfold nextIdleLine; rewrite E2; cbn zeta; unfold r2; by rewrite <- E3|].
  split; [exact Hsel2|]. unfold press, with_editor. cbn [rl_editor r2 set_waiters set_line_editor]. rewrite Ek, on_writes by done. done.
Qed.
End poll.

Section routing.
Context {P : Platform} {Seg : Segmenter}.
Definition a_line (d : Delivery) : bool := match d with Dl_idle _ | Dl_choice _ => true | _ => false end.
(** An event hands a line to one reader at most: to the confirmation's while it waits,
    otherwise to the idle one, otherwise to nobody. *)
Lemma line_reaches_one line r :
  snd (route line r) = (if rl_choice r then [Dl_choice line] else if rl_idle r then [Dl_idle line] else []) ∧
  (rl_choice r = true → rl_choice (fst (route line r)) = false ∧ rl_idle (fst (route line r)) = rl_idle r).
Proof. unfold route. destruct (rl_choice r); [done|]. by destruct (rl_idle r). Qed.
(** Closing rejects every reader that waits and leaves none. *)
Lemma closing_rejects_readers r :
  rl_idle (fst (on_close r)) = false ∧ rl_choice (fst (on_close r)) = false ∧ rl_closed (fst (on_close r)) = true ∧
  (Dl_choice_closed ∈ snd (on_close r) ↔ rl_choice r = true) ∧ (Dl_idle_closed ∈ snd (on_close r) ↔ rl_idle r = true).
Proof. unfold on_close. destruct (rl_idle r), (rl_choice r); simpl; split_and!; try done; rewrite ?elem_of_cons, ?elem_of_nil; naive_solver. Qed.
(** Every tick that draws a confirmation ends with the editor reading, whether or not the
    idle read it is meant to re-arm is outstanding. *)
Lemma drawn_tick_reads deps t cooldown s tick cooldown' s' held :
  pollTick deps t cooldown s = (tick, cooldown', s') → tick = Tick_rendered held ∨ tick = Tick_render_failed held →
  ed_reading (rl_editor (su_repl s')) = true.
Proof.
  unfold pollTick. destruct (latch_busy (su_latch s)); [intros [= <- _ _] [?|?]; done|].
  destruct (pl_getStatus deps s) as [[status|] s1]; [|intros [= <- _ _] [?|?]; done].
  destruct (List.find _ _) as [h|]; [|intros [= <- _ _] [?|?]; done]. destruct (tryAcquire _ _) as [latch|]; [|intros [= <- _ _] [?|?]; done].
  destruct (deferPoll _); [intros [= <- _ _] [?|?]; done|]. destruct (pl_renderHeld deps h _) as [ok s4].
  assert (∀ l, ed_reading (rl_editor (su_repl (set_latch l (on_repl (restoreInput t) s4)))) = true) as Hr.
  { intros l. cbn. unfold restoreInput.
    match goal with |- context [paint true t ?x] => destruct (paint_only true t x) as (row & out & -> & _) end. by destruct (ed_stashed _) as [[buffer cursor]|]. }
  destruct ok; intros [= _ _ <-] _; apply Hr.
Qed.
End routing.

(** * The front end at concrete inputs *)

Definition demo_held : HeldCallRecord :=
  mkHeldRecord (js "h1") (js "gmail") (js "send") (js "a@b.com") (Some (JObj [(js "to", JStr (js "a@b.com")); (js "maxResults", JNull)])) None None None.
Definition demo_status : StatusResponse := mkStatus None [] [demo_held] None.
Definition cps : Segmenter := code_point_segmenter.

(** ** The dialogue: unknown text, then "3", with a gate that says no once *)

Record DemoUser := mkDemoUser { du_lines : list jsstr; du_gate : list bool }.
Definition held_result : ConversationLoopResult := mkLoopResult (js "Sent.") [] (mkUsage 1 1) 1 None.
Definition prompt_client : PromptClient DemoUser :=
  mkPromptClient _ None
    (λ _ u, match du_lines u with [] => (None, u) | l :: ls => (Some l, mkDemoUser ls (du_gate u)) end)
    (λ u, match du_gate u with [] => (true, u) | b :: bs => (b, mkDemoUser (du_lines u) bs) end)
    (λ _ _ u, (RA_resumed held_result, u))
    (λ u, (Some demo_status, u)).
Definition prompt_context : PromptContext := mkContext demo_held None NoColor 0.
Definition demo_dialogue : option PromptEnd * list PromptEvent * DemoUser :=
  renderPrompt (P := demo_platform) (Seg := cps) prompt_client 80 5 prompt_context (mkDemoUser [js "yes"; js "3"; js "Task "] [false; true]).

(** What is drawn for the call. *)
Example body_rows :
  drawPromptBody (Seg := cps) NoColor 60 demo_held =
    [SPEAKER_LABEL Habenula ++ js " A tool call is awaiting your confirmation:";
     js "    gmail" ++ middle_dot ++ js "send" ++ middle_dot ++ quote (js "a@b.com");
     js "    requested with:";
     js "      " ++ quote (js "to") ++ js ": " ++ quote (js "a@b.com")].
Proof. vm_compute. reflexivity. Qed.
(** The resolutions of a dialogue, with what was read before each. *)
Definition sent (evs : list PromptEvent) : list (jsstr * Turns.choice) := omap (λ ev, match ev with PE_resolve id c => Some (id, c) | _ => None end) evs.
Example dialogue_sends_once : sent (snd (fst demo_dialogue)) = [(js "h1", Ch_task)] ∧ fst (fst demo_dialogue) = Some End_returned.
Proof. vm_compute. by split. Qed.
Fixpoint before_resolve (evs : list PromptEvent) : list PromptEvent :=
  match evs with [] => [] | PE_resolve _ _ :: _ => [] | ev :: evs => ev :: before_resolve evs end.
Definition after_first_resolve (evs : list PromptEvent) : list PromptEvent := drop (S (length (before_resolve evs))) evs.
Lemma prompt_sends_confirmed_witness :
  ∃ r line, hr_heldCallId r = js "h1" ∧ parseChoice (P := demo_platform) line (hr_spend r) = Some Ch_task ∧
    sn_present (foldl see NOTHING_SEEN (before_resolve (snd (fst demo_dialogue)))) = true.
Proof.
  destruct (prompt_sends_confirmed (P := demo_platform) (Seg := cps) prompt_client 80 5 prompt_context (mkDemoUser [js "yes"; js "3"; js "Task "] [false; true])
    (before_resolve (snd (fst demo_dialogue))) (js "h1") Ch_task (after_first_resolve (snd (fst demo_dialogue))) ltac:(vm_compute; reflexivity))
    as (r & line & _ & H1 & H2 & H3).
  exists r, line. split; [exact H1|]. split; [exact H2|]. exact (proj1 (H3 eq_refl)).
Defined.

(** ** The poll over a half-typed line, and in the middle of a turn *)

(** A confirmation answered by Enter on the chooser. *)
Definition answer_ops : list (Terminal * shell_op) :=
  [(demo_terminal, Op_beginSelection (js "?") demo_choices 0); (demo_terminal, Op_key (pressed "return"))].
Definition demo_deps : PollDeps :=
  mkPollDeps (λ s, (Some demo_status, s))
    (λ _ s, (true, on_repl (shell_run (P := demo_platform) (Seg := cps) answer_ops) s)).
#[export] Instance demo_tidy : TidyRender (P := demo_platform) (Seg := cps) demo_deps.
Proof. split; [|done]. intros held s. exists answer_ops. split; [by repeat constructor|done]. Qed.
Definition typing : Repl :=
  mkRepl (set_reading true (set_editor (mkEditor (js "hello") 3 CLOSED_MENU false None) new_editor)) true false false (Some (js "> ")) false false.
Lemma poll_tick_tidy_witness :
  same_line (rl_editor typing) (rl_editor (su_repl (snd (pollTick (P := demo_platform) (Seg := cps) demo_deps demo_terminal ∅ (mkSurface typing None))))).
Proof.
  pose proof (poll_tick_tidy (P := demo_platform) (Seg := cps) demo_deps demo_terminal ∅ (mkSurface typing None) eq_refl eq_refl) as Ht.
  destruct (pollTick _ _ _ _) as [[tick cd] s']. exact (proj1 Ht).
Defined.
(** A tick that draws while a turn is in flight re-arms the editor though nobody reads: a
    line typed then is handed off and reaches no reader. *)
Definition mid_turn : Repl := mkRepl (set_reading false new_editor) false false false (Some (js "> ")) false true.
Lemma poll_rearms_mid_turn :
  let s' := snd (pollTick (P := demo_platform) (Seg := cps) demo_deps demo_terminal ∅ (mkSurface mid_turn None)) in
  ed_reading (rl_editor (su_repl s')) = true ∧
  snd (press_all (Seg := cps) [typed "h"; typed "i"; pressed "return"] demo_terminal (su_repl s')) = [].
Proof. vm_compute. by split. Qed.

(** A chooser dismissed with Ctrl-C during a turn: at the idle prompt that follows, typing
    does nothing and Enter sends "1" as a message. *)
Definition choosing : Repl :=
  mkRepl (fst (beginSelection (Seg := cps) (js "?") demo_choices 0 demo_terminal new_editor)) false true false (Some (js "> ")) false true.
Example dismissed_chooser_sends_token :
  let '(r1, d1) := press (Seg := cps) (with_ctrl "c") demo_terminal choosing in
  d1 = [Dl_choice_cancelled] ∧
  (λ r2, snd (press_all (Seg := cps) [typed "h"; typed "i"; pressed "return"] demo_terminal r2)) <$>
    nextIdleLine (Seg := cps) (js "> ") demo_terminal r1 = Some [Dl_idle (js "1")].
Proof. vm_compute. by split. Qed.
