(* ===== verification/Reconnect.v ===== *)
(** * The command line against an engine that comes and goes

    The engine tracker ([cli/src/engine-state.ts]), the kill switch's retry
    ([commands/kill.ts]), the connect wait ([commands/connect.ts]), the presence gate
    ([gate/confirm-presence.ts]) and the completion sources of the prompt
    ([serviceSourceCell] of [commands/chat.ts]). *)

From S2P Require Export LineEditor.
Open Scope Z_scope.

(** ** The engine tracker *)

Inductive unavailable := Un_reject | Un_deadline.
#[export] Instance unavailable_eq_dec : EqDecision unavailable.
Proof. solve_decision. Defined.
Inductive source := Foreground | Background.

Definition unavailableGuidance (apiUrl : jsstr) (kind : unavailable) : jsstr :=
  match kind with
  | Un_deadline => js "error: engine not responding at " ++ apiUrl ++ [32%N] ++ dash ++ js " it may be starting up or busy; try again shortly."
  | Un_reject => js "error: engine not reachable at " ++ apiUrl ++ [32%N] ++ dash ++ js " start it with `habenula up`, or point HABENULA_API_URL at a running engine."
  end.
Definition recoveryLine (kind : unavailable) : jsstr :=
  match kind with Un_deadline => js "Engine responding again." | Un_reject => js "Engine connected." end.

Definition HEALTH_PROBE_BASE_MS : Z := 1000.
Definition HEALTH_PROBE_MAX_MS : Z := 8000.
(** The loop of [runProbeLoop] is [probing] and stands before its sleep of [interval]. *)
Record EngineState := mkEngineState { eg_online : bool; eg_offlineKind : unavailable; eg_probing : bool; eg_interval : Z }.
Definition engine_start : EngineState := mkEngineState true Un_reject false HEALTH_PROBE_BASE_MS.
(** What it writes, and the nudge it runs. *)
Inductive EngineLine := Eg_guidance (kind : unavailable) | Eg_recovery (kind : unavailable) | Eg_diagnose.

Definition enterOffline (kind : unavailable) (s : EngineState) : EngineState * list EngineLine :=
  (mkEngineState false kind true (if eg_probing s then eg_interval s else HEALTH_PROBE_BASE_MS), [Eg_guidance kind]).
Definition noteFailure (kind : unavailable) (src : source) (s : EngineState) : EngineState * list EngineLine :=
  if negb (eg_online s) then (s, [])
  else match kind, src with
       | Un_deadline, Background => (s, [])
       | _, _ => enterOffline kind s
       end.
(** What the deferred handshake comes to. *)
Inductive Handshake := Hs_completed | Hs_unavailable | Hs_errored.
(** One turn of the loop after its sleep: [active] when it wakes, the probe, the handshake,
    [active'] after it. *)
Definition stop_probing (s : EngineState) : EngineState := mkEngineState (eg_online s) (eg_offlineKind s) false (eg_interval s).
Definition goOnline (s : EngineState) : EngineState * list EngineLine :=
  (mkEngineState true (eg_offlineKind s) false (eg_interval s), [Eg_recovery (eg_offlineKind s)]).
Definition probe_turn (active healthy : bool) (handshake : Handshake) (active' : bool) (s : EngineState) : EngineState * list EngineLine :=
  let s := mkEngineState (eg_online s) (eg_offlineKind s) (eg_probing s) (Z.min (eg_interval s * 2) HEALTH_PROBE_MAX_MS) in
  if eg_online s || negb active then (stop_probing s, [])
  else if negb healthy then (s, [])
  else
    match handshake with
    | Hs_unavailable => (s, [])
    | Hs_completed => if active' then goOnline s else (stop_probing s, [])
    | Hs_errored => let '(s, lines) := if active' then goOnline s else (stop_probing s, []) in (s, Eg_diagnose :: lines)
    end.
Inductive engine_step : EngineState → list EngineLine → EngineState → Prop :=
  | es_failure kind src s s' lines : noteFailure kind src s = (s', lines) → engine_step s lines s'
  | es_probe active healthy handshake active' s s' lines :
      eg_probing s = true → probe_turn active healthy handshake active' s = (s', lines) → engine_step s lines s'.
Inductive engine_run : EngineState → list EngineLine → EngineState → Prop :=
  | er_none s : engine_run s [] s
  | er_more s1 l1 s2 l2 s3 : engine_run s1 l1 s2 → engine_step s2 l2 s3 → engine_run s1 (l1 ++ l2) s3.

(** ** The kill switch *)

Definition KILL_RETRY_WINDOW_MS : Z := 30000.
Definition KILL_RETRY_INTERVAL_MS : Z := 1000.
Inductive KillAnswer := Kl_ok | Kl_unavailable (kind : unavailable) | Kl_error.
Record KillDeps {W : Type} := mkKillDeps {
  kd_kill : W → KillAnswer * W;
  kd_now : W → Z;
  kd_wait : Z → W → W;          (* the sleep, cut short by a cancel *)
  kd_aborted : W → bool;
}.
Arguments KillDeps : clear implicits.
Inductive KillEnd := Kill_activated | Kill_threw (a : KillAnswer).
Section kill.
Context {W : Type}.
(** The attempts with their answers, and the kinds of the state lines written. *)
Fixpoint kill_loop (d : KillDeps W) (fuel : nat) (start : Z) (lastKind : option unavailable) (w : W) : option KillEnd * list KillAnswer * list unavailable * W :=
  match fuel with
  | O => (None, [], [], w)
  | S fuel =>
      let '(a, w) := kd_kill d w in
      match a with
      | Kl_ok => (Some Kill_activated, [a], [], w)
      | Kl_error => (Some (Kill_threw a), [a], [], w)
      | Kl_unavailable kind =>
          if KILL_RETRY_WINDOW_MS <=? kd_now d w - start then (Some (Kill_threw a), [a], [], w)
          else
            let notes := if bool_decide (lastKind = Some kind) then [] else [kind] in
            let w := kd_wait d KILL_RETRY_INTERVAL_MS w in
            if kd_aborted d w then (Some (Kill_threw a), [a], notes, w)
            else
              let '(e, answers, notes', w) := kill_loop d fuel start (Some kind) w in
              (e, a :: answers, notes ++ notes', w)
      end
  end.
Definition runKill (d : KillDeps W) (fuel : nat) (w : W) : option KillEnd * list KillAnswer * list unavailable * W :=
  kill_loop d fuel (kd_now d w) None w.
End kill.

(** ** The connect wait *)

Definition POLL_INTERVAL_MS : Z := 2000.
Definition POLL_TIMEOUT_MS : Z := 300000.
Definition CONNECT_CANCELLED : Z := 130.
Inductive FlowStatus := Fl_pending | Fl_connected | Fl_denied | Fl_expired.
#[export] Instance FlowStatus_eq_dec : EqDecision FlowStatus.
Proof. solve_decision. Defined.
Inductive ConnectAnswer :=
  | Cn_connected
  | Cn_authorize (authorizeUrl flow : jsstr)
  | Cn_api_error (unknown_service : bool)
  | Cn_failure.
(** [None] is a read that threw. *)
Record ConnectDeps {W : Type} := mkConnectDeps {
  cd_connect : jsstr → W → ConnectAnswer * W;
  cd_status : jsstr → W → option FlowStatus * W;
  cd_cancelFlow : jsstr → W → W;
  cd_open : jsstr → W → W;
  cd_now : W → Z;
  cd_wait : Z → W → W;
  cd_aborted : W → bool;
}.
Arguments ConnectDeps : clear implicits.
Inductive ConnectEvent := CE_opened (url : jsstr) | CE_status (s : option FlowStatus) | CE_abandoned (flow : jsstr).
Inductive ConnectEnd := Connect_exit (code : Z) | Connect_threw.
Section connect.
Context {W : Type}.
Definition abandon (d : ConnectDeps W) (flow : jsstr) (code : Z) (evs : list ConnectEvent) (w : W) : option ConnectEnd * list ConnectEvent * W :=
  (Some (Connect_exit code), evs ++ [CE_abandoned flow], cd_cancelFlow d flow w).
Fixpoint connect_wait (d : ConnectDeps W) (fuel : nat) (flow : jsstr) (start timeoutMs : Z) (w : W) : option ConnectEnd * list ConnectEvent * W :=
  match fuel with
  | O => (None, [], w)
  | S fuel =>
      let remaining := Z.max (timeoutMs - (cd_now d w - start)) 0 in
      let w := cd_wait d (Z.min POLL_INTERVAL_MS remaining) w in
      if cd_aborted d w then
        let '(status, w) := cd_status d flow w in
        if bool_decide (status = Some Fl_connected) then (Some (Connect_exit 0), [CE_status status], w)
        else abandon d flow CONNECT_CANCELLED [CE_status status] w
      else
        let '(status, w) := cd_status d flow w in
        match status with
        | Some Fl_connected => (Some (Connect_exit 0), [CE_status status], w)
        | Some Fl_denied | Some Fl_expired => abandon d flow 1 [CE_status status] w
        | Some Fl_pending | None =>
            if timeoutMs <=? cd_now d w - start then abandon d flow 1 [CE_status status] w
            else
              let '(e, evs, w) := connect_wait d fuel flow start timeoutMs w in
              (e, CE_status status :: evs, w)
        end
  end.
Definition runConnect (d : ConnectDeps W) (fuel : nat) (service : jsstr) (timeoutMs : Z) (w : W) : option ConnectEnd * list ConnectEvent * W :=
  let '(answer, w) := cd_connect d service w in
  match answer with
  | Cn_connected => (Some (Connect_exit 0), [], w)
  | Cn_authorize url flow =>
      let w := cd_open d url w in
      let '(e, evs, w) := connect_wait d fuel flow (cd_now d w) timeoutMs w in
      (e, CE_opened url :: evs, w)
  | Cn_api_error _ => (Some (Connect_exit (if cd_aborted d w then CONNECT_CANCELLED else 1)), [], w)
  | Cn_failure => (Some (if cd_aborted d w then Connect_exit CONNECT_CANCELLED else Connect_threw), [], w)
  end.
End connect.

(** ** The presence gate *)

Inductive HelperResult := Hp_ok | Hp_denied | Hp_unavailable | Hp_missing | Hp_error.
#[export] Instance HelperResult_eq_dec : EqDecision HelperResult.
Proof. solve_decision. Defined.
Inductive PresenceNote := Nt_missing | Nt_unavailable | Nt_error | Nt_bundled.
#[export] Instance PresenceNote_eq_dec : EqDecision PresenceNote.
Proof. solve_decision. Defined.
Definition ONCE_NOTES : list PresenceNote := [Nt_unavailable; Nt_error; Nt_bundled].
(** The machine: the toggle, the platform, where the module runs from, what the helper says. *)
Record PresenceDeps := mkPresence { pd_humanTouch : bool; pd_darwin : bool; pd_bundled : bool; pd_helper : HelperResult }.
Definition confirmPresence (d : PresenceDeps) : bool * list PresenceNote :=
  if negb (pd_humanTouch d) then (true, [])
  else if negb (pd_darwin d) then (true, [])
  else if pd_bundled d then (false, [Nt_bundled])
  else
    match pd_helper d with
    | Hp_ok => (true, [])
    | Hp_unavailable => (true, [Nt_unavailable])
    | Hp_missing => (true, [Nt_missing])
    | Hp_denied => (false, [])
    | Hp_error => (false, [Nt_error])
    end.
(** [makePresenceGate]: the notes already given stay with the gate. *)
Definition gate_notes (warnedOnce : list PresenceNote) (notes : list PresenceNote) : list PresenceNote * list PresenceNote :=
  foldl (λ st n,
    let '(warned, out) := st in
    if bool_decide (n ∈ ONCE_NOTES) then if bool_decide (n ∈ warned) then st else (n :: warned, out ++ [n]) else (warned, out ++ [n]))
    (warnedOnce, []) notes.
Definition presence_gate (warnedOnce : list PresenceNote) (d : PresenceDeps) : bool * list PresenceNote * list PresenceNote :=
  let '(b, notes) := confirmPresence d in
  let '(warned, out) := gate_notes warnedOnce notes in
  (b, warned, out).
(** [makeRunHelper]: the first event that settles decides. *)
Inductive HelperEvent := He_error (enoent : bool) | He_close (code : option Z) (signal : bool) | He_timeout.
Definition classify (ev : HelperEvent) : HelperResult :=
  match ev with
  | He_timeout => Hp_denied
  | He_error enoent => if enoent then Hp_missing else Hp_error
  | He_close code signal =>
      match code with
      | Some code => if signal then Hp_error else if code =? 0 then Hp_ok else if code =? 1 then Hp_denied else if code =? 2 then Hp_unavailable else Hp_error
      | None => Hp_error
      end
  end.
Definition run_helper (events : list HelperEvent) : option HelperResult := classify <$> List.hd_error events.

(** ** The completion sources *)

(** A source that failed to load is [None]. A rejected load is [(None, None)]. *)
Definition ServiceLoad : Type := option (list jsstr) * option (list jsstr).
(** What a source holds, and the generation of the load that landed it. *)
Record SourceCell := mkCell { sl_value : list jsstr; sl_applied : nat }.
Record ServiceCell := mkServiceCell { sc_connectable : SourceCell; sc_connected : SourceCell; sc_issued : nat }.
Definition serviceSourceCell : ServiceCell := mkServiceCell (mkCell [] 0) (mkCell [] 0) 0.
Definition land (g : nat) (read : option (list jsstr)) (c : SourceCell) : SourceCell :=
  match read with Some services => if (sl_applied c <? g)%nat then mkCell services g else c | None => c end.
(** [seed] issues a load; the load settles later, in any order. *)
Definition seed (c : ServiceCell) : nat * ServiceCell := (S (sc_issued c), mkServiceCell (sc_connectable c) (sc_connected c) (S (sc_issued c))).
Definition settle_load (c : ServiceCell) (settled : nat * ServiceLoad) : ServiceCell :=
  let '(g, (connectable, connected)) := settled in
  mkServiceCell (land g connectable (sc_connectable c)) (land g connected (sc_connected c)) (sc_issued c).
Definition get_sources (c : ServiceCell) : ServiceSource := mkServices (sl_value (sc_connectable c)) (sl_value (sc_connected c)).
