(* ===== verification/ReconnectFacts.v ===== *)
(** * What holds while the engine comes and goes

    The tracker narrates each outage once; a kill retries to an end it reports truly; a
    connect wait ends, and abandons what it does not connect; the presence gate opens only
    as documented; the completion sources do not depend on the order in which loads settle. *)

From S2P Require Export Reconnect.
Open Scope Z_scope.

(** ** The tracker *)

(** What a reader of the lines believes: nothing, or that the engine is away. *)
Definition narrate (told : option (option unavailable)) (line : EngineLine) : option (option unavailable) :=
  match told, line with
  | Some None, Eg_guidance kind => Some (Some kind)
  | Some (Some kind), Eg_recovery kind' => if bool_decide (kind = kind') then Some None else None
  | Some t, Eg_diagnose => Some t
  | _, _ => None
  end.
Definition told_of (s : EngineState) : option unavailable := if eg_online s then None else Some (eg_offlineKind s).
Definition engine_ok (s : EngineState) : Prop := HEALTH_PROBE_BASE_MS <= eg_interval s <= HEALTH_PROBE_MAX_MS ∧ (eg_online s = true → eg_probing s = false).
Lemma probe_turn_told active healthy handshake active' s s' lines : engine_ok s → eg_probing s = true →
  probe_turn active healthy handshake active' s = (s', lines) →
  engine_ok s' ∧ foldl narrate (Some (told_of s)) lines = Some (told_of s') ∧
  (eg_online s' = true → active = true ∧ healthy = true ∧ handshake ≠ Hs_unavailable ∧ active' = true).
Proof.
  destruct s as [online kind probing interval]. unfold engine_ok, told_of, HEALTH_PROBE_BASE_MS, HEALTH_PROBE_MAX_MS. simpl. intros [Hi Ho] Hp E.
  destruct online; [by rewrite Ho in Hp|]. unfold probe_turn, stop_probing, goOnline, HEALTH_PROBE_MAX_MS in E. simpl in E.
  destruct active; simpl in E; [|simplify_eq/=; split_and!; (done || lia)].
  destruct healthy; simpl in E; [|simplify_eq/=; split_and!; (done || lia)].
  destruct handshake, active'; simplify_eq/=; rewrite ?bool_decide_true by done; split_and!; (done || lia).
Qed.
Lemma noteFailure_told kind src s s' lines : engine_ok s → noteFailure kind src s = (s', lines) →
  engine_ok s' ∧ foldl narrate (Some (told_of s)) lines = Some (told_of s').
Proof.
  destruct s as [online kind0 probing interval]. unfold engine_ok, told_of, HEALTH_PROBE_BASE_MS, HEALTH_PROBE_MAX_MS. simpl. intros [Hi Ho] E.
  unfold noteFailure, enterOffline, HEALTH_PROBE_BASE_MS in E. destruct online; simpl in E; [|by simplify_eq/=].
  rewrite Ho in E by done. destruct kind, src; simplify_eq/=; split_and!; (done || lia).
Qed.
(** The tracker narrates truly. Over any failures and probes, the lines it writes open
    each outage with one guidance and close it with one recovery of the same kind, and what
    they tell is the state; the backoff stays within its bounds; no probe loop runs online. *)
Theorem engine_narration lines s : engine_run engine_start lines s →
  foldl narrate (Some None) lines = Some (told_of s) ∧ engine_ok s.
Proof.
  assert (engine_ok engine_start) as H0 by (split; [unfold HEALTH_PROBE_BASE_MS, HEALTH_PROBE_MAX_MS; simpl; unfold HEALTH_PROBE_BASE_MS; lia|done]).
  remember engine_start as s0 eqn:E. intros Hr. revert H0. rewrite E. change (Some None) with (Some (told_of engine_start)). rewrite <- E.
  induction Hr as [s0|s0 l1 s2 l2 s3 _ IH Hs]; intros H0; [done|]. destruct (IH E H0) as [Hn Hok]. rewrite foldl_app, Hn.
  destruct Hs as [kind src s s' lines Hf|active healthy handshake active' s s' lines Hp Ht].
  - by destruct (noteFailure_told _ _ _ _ _ Hok Hf).
  - by destruct (probe_turn_told _ _ _ _ _ _ _ Hok Hp Ht) as (? & ? & _).
Qed.
(** A deadline of the poll does not flap the state. *)
Lemma background_deadline_quiet s : noteFailure Un_deadline Background s = (s, []).
Proof. unfold noteFailure. by destruct (eg_online s). Qed.

(** ** The kill switch *)

Section kill.
Context {W : Type} (d : KillDeps W).
(** Time: a request takes none backwards, and a wait that is not cut short takes what it
    was asked to. *)
Class SteadyClock : Prop := {
  kill_time : ∀ w, kd_now d w <= kd_now d (snd (kd_kill d w));
  wait_time : ∀ ms w, kd_aborted d (kd_wait d ms w) = false → kd_now d w + ms <= kd_now d (kd_wait d ms w);
}.
Lemma kill_loop_ends `{SteadyClock} fuel start lastKind w :
  KILL_RETRY_WINDOW_MS <= kd_now d w - start + 1000 * (Z.of_nat fuel - 1) → (0 < fuel)%nat →
  fst (fst (fst (kill_loop d fuel start lastKind w))) ≠ None.
Proof.
  revert lastKind w. induction fuel as [|fuel IH]; intros lastKind w Hf Hpos; [lia|]. cbn [kill_loop].
  pose proof (kill_time w) as Hk. destruct (kd_kill d w) as [a w1]. cbn [snd] in Hk. destruct a as [|kind|]; [done| |done].
  destruct (Z.leb_spec KILL_RETRY_WINDOW_MS (kd_now d w1 - start)) as [?|Hlt]; [done|]. cbv zeta.
  destruct (kd_aborted d (kd_wait d KILL_RETRY_INTERVAL_MS w1)) eqn:Ha; [done|].
  pose proof (wait_time KILL_RETRY_INTERVAL_MS w1 Ha) as Hw. unfold KILL_RETRY_INTERVAL_MS in Hw at 1.
  specialize (IH (Some kind) (kd_wait d KILL_RETRY_INTERVAL_MS w1)).
  destruct (kill_loop d fuel start (Some kind) (kd_wait d KILL_RETRY_INTERVAL_MS w1)) as [[[e answers] notes] w2]. cbn [fst] in *. apply IH; lia.
Qed.
Definition unavailable_answer (a : KillAnswer) : Prop := match a with Kl_unavailable _ => True | _ => False end.
Lemma kill_loop_reports fuel start lastKind w e answers notes w' : kill_loop d fuel start lastKind w = (Some e, answers, notes, w') →
  ∃ before a, answers = before ++ [a] ∧ Forall unavailable_answer before ∧
    match e with Kill_activated => a = Kl_ok | Kill_threw a' => a' = a ∧ a ≠ Kl_ok end.
Proof.
  revert lastKind w e answers notes w'. induction fuel as [|fuel IH]; intros lastKind w e answers notes w'; [done|]. cbn [kill_loop].
  destruct (kd_kill d w) as [a w1]. destruct a as [|kind|]; [intros [= <- <- _ _]; by exists [], Kl_ok| |intros [= <- <- _ _]; by exists [], Kl_error].
  case_match; [intros [= <- <- _ _]; by exists [], (Kl_unavailable kind)|]. cbv zeta.
  case_match; [intros [= <- <- _ _]; by exists [], (Kl_unavailable kind)|].
  destruct (kill_loop d fuel start (Some kind) (kd_wait d KILL_RETRY_INTERVAL_MS w1)) as [[[e' as'] ns'] w2] eqn:E.
  intros [= -> <- _ _]. destruct (IH _ _ _ _ _ _ E) as (before & a & -> & Hb & He). exists (Kl_unavailable kind :: before), a. split_and!; [done|by constructor|done].
Qed.
(** A kill is retried to an end, and told truly. With a clock that moves, thirty-one
    attempts are enough; only failures to reach the engine are retried; the switch is
    reported activated exactly when the last attempt was answered, and otherwise the last
    failure is what the command fails with. *)
Theorem kill_ends `{SteadyClock} w : ∃ e before a notes w',
  runKill d 31 w = (Some e, before ++ [a], notes, w') ∧ Forall unavailable_answer before ∧
  match e with Kill_activated => a = Kl_ok | Kill_threw a' => a' = a ∧ a ≠ Kl_ok end.
Proof.
  unfold runKill. pose proof (kill_loop_ends 31 (kd_now d w) None w ltac:(unfold KILL_RETRY_WINDOW_MS; lia) ltac:(lia)) as Hend.
  destruct (kill_loop d 31 (kd_now d w) None w) as [[[[e|] answers] notes] w'] eqn:E; [|done].
  destruct (kill_loop_reports _ _ _ _ _ _ _ _ E) as (before & a & -> & Hb & He). by exists e, before, a, notes, w'.
Qed.
End kill.

(** ** The connect wait *)

Section connect.
Context {W : Type} (d : ConnectDeps W).
Class SteadyWait : Prop := {
  status_time : ∀ flow w, cd_now d w <= cd_now d (snd (cd_status d flow w));
  sleep_time : ∀ ms w, cd_aborted d (cd_wait d ms w) = false → cd_now d w + ms <= cd_now d (cd_wait d ms w);
}.
Lemma connect_wait_ends `{SteadyWait} fuel flow start timeoutMs w :
  timeoutMs - (cd_now d w - start) <= POLL_INTERVAL_MS * Z.of_nat fuel → (0 < fuel)%nat →
  fst (fst (connect_wait d fuel flow start timeoutMs w)) ≠ None.
Proof.
  revert w. induction fuel as [|fuel IH]; intros w Hf Hpos; [lia|]. cbn [connect_wait]. cbv zeta.
  set (ms := Z.min _ _). pose proof (sleep_time ms w) as Hsl. set (w1 := cd_wait d ms w) in *. destruct (cd_aborted d w1).
  { destruct (cd_status d flow w1) as [status w2]. by case_match. }
  specialize (Hsl eq_refl). pose proof (status_time flow w1) as Hst. destruct (cd_status d flow w1) as [status w2]. cbn [snd] in Hst.
  assert (∀ x, (if timeoutMs <=? cd_now d w2 - start then abandon d flow 1 [CE_status status] w2
    else let '(e, evs, w3) := connect_wait d fuel flow start timeoutMs w2 in (e, CE_status status :: evs, w3)) = x → fst (fst x) ≠ None) as Hloop.
  { intros x <-. destruct (Z.leb_spec timeoutMs (cd_now d w2 - start)) as [?|Hlt]; [done|].
    specialize (IH w2). destruct (connect_wait d fuel flow start timeoutMs w2) as [[e evs] w3]. apply IH; unfold ms, POLL_INTERVAL_MS in *; lia. }
  destruct status as [[| | |]|]; [by eapply Hloop|done..|by eapply Hloop].
Qed.
Lemma connect_wait_truth fuel flow start timeoutMs w e evs w' : connect_wait d fuel flow start timeoutMs w = (Some e, evs, w') →
  (e = Connect_exit 0 ∧ last evs = Some (CE_status (Some Fl_connected))) ∨
  (∃ code, e = Connect_exit code ∧ code ≠ 0 ∧ last evs = Some (CE_abandoned flow) ∧ CE_status (Some Fl_connected) ∉ evs).
Proof.
  revert w e evs w'. induction fuel as [|fuel IH]; intros w e evs w'; [done|]. cbn [connect_wait]. cbv zeta.
  set (w1 := cd_wait d _ w). destruct (cd_status d flow w1) as [status w2] eqn:Es.
  assert (∀ code, code ≠ 0 → status ≠ Some Fl_connected → abandon d flow code [CE_status status] w2 = (Some e, evs, w') →
    (e = Connect_exit 0 ∧ last evs = Some (CE_status (Some Fl_connected))) ∨
    (∃ code, e = Connect_exit code ∧ code ≠ 0 ∧ last evs = Some (CE_abandoned flow) ∧ CE_status (Some Fl_connected) ∉ evs)) as Hab.
  { intros code Hc Hs. unfold abandon. intros [= <- <- _]. right. exists code. split_and!; [done..|].
    cbn. intros [[=]|[[=]|?%not_elem_of_nil]%elem_of_cons]%elem_of_cons; done. }
  destruct (cd_aborted d w1).
  { case_bool_decide as Hs; [|by apply Hab]. intros [= <- <- _]. left. by rewrite Hs. }
  assert (status ≠ Some Fl_connected → (if timeoutMs <=? cd_now d w2 - start then abandon d flow 1 [CE_status status] w2
    else let '(e, evs, w3) := connect_wait d fuel flow start timeoutMs w2 in (e, CE_status status :: evs, w3)) = (Some e, evs, w') →
    (e = Connect_exit 0 ∧ last evs = Some (CE_status (Some Fl_connected))) ∨
    (∃ code, e = Connect_exit code ∧ code ≠ 0 ∧ last evs = Some (CE_abandoned flow) ∧ CE_status (Some Fl_connected) ∉ evs)) as Hloop.
  { intros Hs. case_match; [by apply Hab|]. destruct (connect_wait d fuel flow start timeoutMs w2) as [[e' evs'] w3] eqn:E. intros [= -> <- <-].
    destruct (IH _ _ _ _ E) as [[He Hl]|(code & He & Hc & Hl & Hn)].
    - left. split; [done|]. rewrite last_cons, Hl. done.
    - right. exists code. split_and!; [done..| |]; [by rewrite last_cons, Hl|]. rewrite not_elem_of_cons. split; [congruence|done]. }
  destruct status as [[| | |]|]; [by apply Hloop|intros [= <- <- _]; by left|by apply Hab..|by apply Hloop].
Qed.
(** A connect wait ends, and says what happened. Within one poll per interval of its
    ceiling it has an exit code; the code is 0 exactly when the last status read was
    "connected", and on every other exit the flow was abandoned and no status said so. *)
Theorem connect_wait_settles `{SteadyWait} flow timeoutMs w : 0 <= timeoutMs →
  let fuel := S (Z.to_nat (timeoutMs / POLL_INTERVAL_MS)) in
  ∃ code evs w', connect_wait d fuel flow (cd_now d w) timeoutMs w = (Some (Connect_exit code), evs, w') ∧
    if decide (code = 0) then last evs = Some (CE_status (Some Fl_connected))
    else last evs = Some (CE_abandoned flow) ∧ CE_status (Some Fl_connected) ∉ evs.
Proof.
  intros Ht fuel. assert (timeoutMs - (cd_now d w - cd_now d w) <= POLL_INTERVAL_MS * Z.of_nat fuel) as Hf.
  { unfold fuel, POLL_INTERVAL_MS. pose proof (Z.div_mod timeoutMs 2000). pose proof (Z.mod_pos_bound timeoutMs 2000). lia. }
  pose proof (connect_wait_ends fuel flow (cd_now d w) timeoutMs w Hf ltac:(unfold fuel; lia)) as Hend.
  destruct (connect_wait d fuel flow (cd_now d w) timeoutMs w) as [[[e|] evs] w'] eqn:E; [|done].
  destruct (connect_wait_truth _ _ _ _ _ _ _ _ E) as [[-> Hl]|(code & -> & Hc & Hl & Hn)].
  - by exists 0, evs, w'.
  - exists code, evs, w'. split; [done|]. by rewrite decide_False.
Qed.
End connect.

(** ** The presence gate *)

(** An approval goes through exactly when the gate is off, is not on a Mac, or runs from a
    checkout with a helper that confirmed, found no sensor or is not built. *)
Lemma presence_opens_iff d : fst (confirmPresence d) = true ↔
  pd_humanTouch d = false ∨ pd_darwin d = false ∨
  (pd_bundled d = false ∧ pd_helper d ∈ [Hp_ok; Hp_unavailable; Hp_missing]).
Proof. destruct d as [[] [] [] []]; simpl; set_solver. Qed.
(** An enabled gate that opens without a confirmation says so. *)
Lemma presence_ungated_noted d : pd_humanTouch d = true → pd_darwin d = true → fst (confirmPresence d) = true →
  pd_helper d ≠ Hp_ok → snd (confirmPresence d) ≠ [].
Proof. by destruct d as [[] [] [] []]. Qed.
(** The notes of a session, one confirmation after another. *)
Definition gate_session (warned : list PresenceNote) (ds : list PresenceDeps) : list PresenceNote * list PresenceNote :=
  foldl (λ st d, let '(_, warned, out) := presence_gate (fst st) d in (warned, snd st ++ out)) (warned, []) ds.
Lemma presence_gate_latch warned d b warned' out : presence_gate warned d = (b, warned', out) →
  ∀ n, n ∈ ONCE_NOTES → count_occ PresenceNote_eq_dec out n = (if decide (n ∈ warned) then 0 else if decide (n ∈ warned') then 1 else 0)%nat ∧ (n ∈ warned → n ∈ warned').
Proof.
  unfold presence_gate, gate_notes. intros E n Hn.
  assert (snd (confirmPresence d) = [] ∨ ∃ m, snd (confirmPresence d) = [m]) as [Hs|[m Hs]]
    by (destruct d as [[] [] [] []]; simpl; eauto).
  - destruct (confirmPresence d) as [b0 notes]. simpl in Hs. subst. simpl in E. simplify_eq. simpl. by destruct (decide _).
  - destruct (confirmPresence d) as [b0 notes]. simpl in Hs. subst. simpl in E.
    destruct (bool_decide (m ∈ ONCE_NOTES)) eqn:Hm; [case_bool_decide as Hw|]; simplify_eq/=.
    + by destruct (decide (n ∈ warned')).
    + destruct (PresenceNote_eq_dec m n) as [->|Hne].
      * by rewrite decide_False, decide_True by set_solver.
      * split; [|set_solver]. destruct (decide (n ∈ warned)); [done|]. by rewrite decide_False by set_solver.
    + apply bool_decide_eq_false in Hm. destruct (PresenceNote_eq_dec m n) as [->|]; [done|]. by destruct (decide (n ∈ warned')).
Qed.
(** A note of [ONCE_NOTES] is written once in a session, however many approvals it sees. *)
Lemma once_notes_once warned ds n : n ∈ ONCE_NOTES →
  (count_occ PresenceNote_eq_dec (snd (gate_session warned ds)) n <= if decide (n ∈ warned) then 0 else 1)%nat.
Proof.
  intros Hn. unfold gate_session.
  cut (let st := foldl (λ st d, let '(_, warned, out) := presence_gate (fst st) d in (warned, snd st ++ out)) (warned, []) ds in
    count_occ PresenceNote_eq_dec (snd st) n = (if decide (n ∈ warned) then 0 else if decide (n ∈ fst st) then 1 else 0)%nat ∧ (n ∈ warned → n ∈ fst st)).
  { intros [-> _]. by repeat destruct (decide _); lia. }
  induction ds as [|d ds IH] using rev_ind; [by simpl; destruct (decide _)|]. rewrite foldl_app. simpl in *.
  destruct (foldl _ _ ds) as [warned' out] eqn:E. simpl in *. destruct IH as [Hc Hw].
  destruct (presence_gate warned' d) as [[b warned''] out'] eqn:Eg. destruct (presence_gate_latch _ _ _ _ _ Eg n Hn) as [Hc' Hw']. simpl.
  rewrite count_occ_app, Hc, Hc'. split; [|auto]. by repeat destruct (decide _); try lia; exfalso; auto.
Qed.

(** ** The completion sources *)

(** A load that settles late does not displace a newer one: the sources are what the
    newest load of each landed, in whatever order the loads settle. *)
Lemma land_comm g g' r r' c : g ≠ g' → land g' r' (land g r c) = land g r (land g' r' c).
Proof. intros Hne. destruct c as [v a], r, r'; simpl; try done. by repeat (case_match; simpl in * ); try lia; rewrite ?Nat.ltb_lt, ?Nat.ltb_ge in *; try lia. Qed.
Lemma settle_comm c a b : fst a ≠ fst b → settle_load (settle_load c a) b = settle_load (settle_load c b) a.
Proof. destruct a as [g [? ?]], b as [g' [? ?]]. simpl. intros Hne. f_equal; by apply land_comm. Qed.
Lemma loads_settle_in_any_order c loads loads' : loads ≡ₚ loads' → NoDup (fst <$> loads) →
  get_sources (foldl settle_load c loads) = get_sources (foldl settle_load c loads').
Proof.
  intros Hp Hn. f_equal. revert c Hn. induction Hp as [|a l l' _ IH|a b l|l1 l2 l3 H1 IH1 _ IH2]; intros c Hn; simpl.
  - done.
  - apply IH. by inversion Hn.
  - rewrite settle_comm; [done|]. simpl in Hn. apply NoDup_cons in Hn as [Hni _]. set_solver.
  - rewrite IH1 by done. apply IH2. by rewrite <- H1.
Qed.

(** ** On concrete worlds *)

(** An engine that never answers, on a clock that only the waits move. *)
Definition demo_kill : KillDeps Z := mkKillDeps Z (λ w, (Kl_unavailable (if w <? 5000 then Un_deadline else Un_reject), w)) id (λ ms w, w + ms) (λ _, false).
#[export] Instance demo_kill_steady : SteadyClock demo_kill.
Proof. split; unfold demo_kill; simpl; unfold id; intros; lia. Qed.
(** The switch gives up half a minute later, having said twice how the engine failed. *)
Example kill_gives_up : ∃ answers, runKill demo_kill 31 0 =
  (Some (Kill_threw (Kl_unavailable Un_reject)), answers, [Un_deadline; Un_reject], 30000) ∧ length answers = 31%nat.
Proof. eexists. split; vm_compute; reflexivity. Qed.
(** A flow that is connected from its fifth second on. *)
Definition demo_connect : ConnectDeps Z :=
  mkConnectDeps Z (λ _ w, (Cn_authorize (js "https://auth") (js "f1"), w)) (λ _ w, (if w <? 5000 then Some Fl_pending else Some Fl_connected, w + 10))
    (λ _ w, w) (λ _ w, w) id (λ ms w, w + ms) (λ _, false).
#[export] Instance demo_connect_steady : SteadyWait demo_connect.
Proof. split; unfold demo_connect; simpl; unfold id; intros; lia. Qed.
Example connect_connects : runConnect demo_connect 151 (js "gmail") POLL_TIMEOUT_MS 0 =
  (Some (Connect_exit 0), [CE_opened (js "https://auth"); CE_status (Some Fl_pending); CE_status (Some Fl_pending); CE_status (Some Fl_connected)], 6030) ∧
  runConnect demo_connect 3 (js "gmail") 3000 0 =
  (Some (Connect_exit 1), [CE_opened (js "https://auth"); CE_status (Some Fl_pending); CE_status (Some Fl_pending); CE_abandoned (js "f1")], 3010).
Proof. split; vm_compute; reflexivity. Qed.
